(* ===== verification/_CoqProject ===== *)
-Q . S2P
Prelude.v
MathHelper.v
Primitives.v
Config.v
SlotTime.v
Shuffle.v
ShuffleFacts.v
MVSlice.v
MVSliceFacts.v
MVSliceTheorems.v
FieldTrieHelpers.v
ZeroHashes.v
Sha256.v
MerkleTrie.v
TrieHelpers.v
SszMerkleize.v
MerkleTheorems.v
TrieFacts.v
FieldTrie.v
FieldTrieFacts.v
StateTrie.v
StateTrieTheorems.v
EpochConfig.v
BeaconState.v
Finality.v
FinalityTheorems.v
EpochPrecompute.v
EpochPrecomputeTheorems.v
Registry.v
RegistryTheorems.v
ExitQueue.v
Inactivity.v
Slasher.v
SlasherService.v
SlasherBatch.v
SlasherFacts.v
SlasherSpans.v
SlasherTheorems.v
ForkTypes.v
ForkTree.v
ForkNode.v
ForkNodeFacts.v
ForkStore.v
ForkStoreFacts.v
ForkChoice.v
ForkAttest.v
ForkQueryFacts.v
ForkVotes.v
ForkHead.v
ForkTheorems.v
Protection.v
FilesystemProtection.v
FilesystemTheorems.v
FilesystemRaces.v
KvProtection.v
KvFacts.v
KvTheorems.v
KvBatch.v
CommitteeCache.v
Committees.v
CommitteeFacts.v
CommitteeTheorems.v
ProposerTheorems.v
StateOperations.v
Withdrawals.v
WithdrawalTheorems.v
Deposits.v
DepositTheorems.v
Requests.v
BlockOperations.v
Ledger.v
LedgerTheorems.v
ValidatorMap.v
SszTheorems.v
ParticipationTheorems.v
OperationPools.v
PoolTheorems.v
SlashingPool.v
Attestations.v
AttestationTheorems.v
