(* ===== verification/Prelude.v ===== *)
(** * Verification of the LightChain consensus client

    LightChain-CL is a Go beacon node derived from Prysm.  This library models the parts
    of it that decide what the chain is: the arithmetic and the clock, the shuffle, the
    containers and Merkle tries the beacon state is made of, the justification,
    finalization, registry, reward and queue steps of the epoch transition, the operations
    of a block (withdrawals, deposits, requests, exits, slashings, participation) and the
    pools they wait in, the slasher, the fork choice, and the slashing protection that
    decides what a validator may sign.  Every
    definition is a translation of the Go function whose name it carries; the theorems
    state what the functions promise to each other and to the protocol.

    ** How Go is represented

    - [uint64], [uint16] and [int64] values are [Z]; the operations that wrap are written
      [x +64 y], [x -64 y], [x *64 y], [u64 x], [i64 x].  Where the source checks for
      overflow, the model returns the error the source returns.
    - A function that returns [(T, error)] has a result in [gores T]: [Ok], [Err], [Panic]
      (index out of range, nil dereference, division by zero, explicit [panic]) and
      [OutOfFuel], which stands for a loop that has not finished and which the theorems
      exclude.  [M S T] is the state monad over [gores]: the state is kept on errors,
      since Go does not undo assignments.  Error messages are not modelled.
    - A pointer structure with sharing (the fork choice tree, the wrappers of a slasher
      batch, the linked lists of the pools, the validator map of copied states) lives in an explicit heap or store; a slice of pointers with one owner is a
      list of values.
    - A Go map whose iteration order matters is visited in an order that is an argument;
      each reading of the wall clock is an argument.
    - A lock held for the whole body of a method makes the method one step.  Where the
      code takes locks more finely (the filesystem database, the goroutine that writes
      batches of attestations), the model is a step relation over the shared state.
    - The process-wide caches of committees and proposers are the state of the
      definitions in Committees, and the square-root cache that of the reward path; the
      other users of committees, and the cache of the total active balance, are replaced
      by the computation, which the theorems on the committee cache justify.
    - [params.BeaconConfig()] is the classes [BeaconChainConfig], [EpochConfig],
      [CommitteeConfig] and [OperationsConfig].

    ** Parts, files and sources

    - Prelude: results, monads, machine integers, loops and the databases [go], [u64]
      and [preserves] that carry the proofs, sums over lists of integers.
    - MathHelper (math/math_helper.go), Primitives (consensus-types/primitives: slots,
      epochs, validator indices, with the class [CheckedU64]), Config and EpochConfig
      (config/params/config.go), SlotTime (time/slots/slottime.go and
      beacon-chain/core/time): the base layer every other part calls.
    - Shuffle and ShuffleFacts (beacon-chain/core/helpers/shuffle.go, container/slice).
    - MVSlice, MVSliceFacts, MVSliceTheorems
      (container/multi-value-slice): one slice shared by all copies of a state;
      the class [MultiValueSlice] with [MultiValueSliceLaws] is what its clients rely on.
      FieldTrieHelpers (state/fieldtrie) is proved against that class.
    - ZeroHashes, MerkleTrie, MerkleTheorems (container/trie: the deposit
      trie and its proofs; crypto/hash/htr; encoding/ssz depth and length mixins);
      TrieHelpers, TrieFacts (state/stateutil/trie_helpers.go: building and updating the
      layers of a trie); SszMerkleize, SszTheorems (encoding/ssz: the two Merkleizations
      of a list of chunks, roots of slices and byte slices); FieldTrie, FieldTrieFacts (state/fieldtrie/field_trie.go);
      StateTrie, StateTrieTheorems (state-native/state_trie.go and setters: how copies of
      a state share the trie of the balances).  Sha256 is an executable SHA-256 of its
      standard, used to check the table of zero hashes.
    - BeaconState (state/state-native, core/helpers): the fields, getters, setters and
      predicates of the state.  Its multi-value slices are plain lists, which the
      refinement theorem of MVSliceTheorems justifies.
    - Finality, FinalityTheorems (core/epoch/precompute/justification_finalization.go,
      state/stateutil/unrealized_justification.go); EpochPrecompute,
      EpochPrecomputeTheorems (core/altair/epoch_precompute.go); Registry,
      RegistryTheorems, ExitQueue (core/validators, core/epoch, core/electra,
      state-native/setters_churn.go); Inactivity (scores against the ejection threshold).
    - Slasher, SlasherFacts, SlasherSpans, SlasherTheorems (beacon-chain/slasher
      params.go, chunks.go, detect_attestations.go: min and max spans);
      SlasherService, SlasherBatch (helpers.go, detect_attestations.go: batches).
    - ForkTypes (the heap, nodes, votes), ForkTree (the tree in the heap), ForkNode,
      ForkStore, ForkChoice (node.go, store.go, forkchoice.go and the files beside them
      in beacon-chain/forkchoice/doubly-linked-tree), ForkNodeFacts, ForkStoreFacts,
      ForkAttest, ForkQueryFacts, ForkVotes, ForkHead (their specifications, and
      the invariants as boolean functions) and ForkTheorems.
    - Protection (validator/client attest.go and propose.go, validator/db/iface, EIP-3076):
      the client over the class [ValidatorDB] with the laws [SlashingProtection].
      FilesystemProtection, FilesystemTheorems, FilesystemRaces
      (validator/db/filesystem) and KvProtection, KvFacts, KvTheorems, KvBatch
      (validator/db/kv) are its two instances.  An attestation of the second is checked
      ([attestationToSave]) and its record handed over to a goroutine; KvBatch has the
      goroutine, its failures and its cancellation, and the calls that wait for it, as one
      step relation.
    - CommitteeCache (beacon-chain/cache: committee.go, proposer_indices.go, over the class
      [LRU]), Committees (core/helpers: beacon_committee.go, randao.go, validators.go),
      CommitteeFacts (the cache is transparent), CommitteeTheorems, ProposerTheorems.
    - StateOperations (state-native getters and setters of
      the queues, appends to the registry, withdrawal credentials); ValidatorMap
      (state/stateutil/validator_map_handler.go: the map of public keys that copies of a
      state share).
    - Withdrawals, WithdrawalTheorems (state-native/getters_withdrawal.go,
      core/blocks/withdrawals.go); Deposits, DepositTheorems
      (core/helpers/deposit.go, core/electra/deposits.go, core/requests/deposits.go);
      Requests (core/requests, core/electra: withdrawal and consolidation requests, pending
      consolidations, effective balances); BlockOperations, ParticipationTheorems
      (core/blocks exit.go, proposer_slashing.go, attester_slashing.go;
      core/altair/attestation.go and block.go: sync aggregates); Attestations, AttestationTheorems
      (core/blocks/attestation.go, proto attestation_utils.go, over the class [Bitlist]); Ledger, LedgerTheorems (the money all of
      them move).
    - OperationPools, PoolTheorems (container/doubly-linked-list, operations/voluntaryexits, operations/blstoexec), SlashingPool
      (operations/slashings).

    ** How the parts interact

    The epoch transition writes justified and finalized checkpoints into the state and
    computes the unrealized ones, which the fork choice receives with each block; the
    fork choice is driven by attestations, ticks of the slot clock and balances of the
    justified state, prunes at finality and answers [Head].  The slasher consumes
    indexed attestations.  Exits of the registry reach the fork choice only through
    balances; slashed validators through [InsertSlashedIndex].  The setters of the state
    record dirty indices, from which the field tries recompute the root of a list that
    the multi-value slice stores.  Committees and proposers are read off the active
    validators by the shuffle, once per seed, and cached for all states.  Blocks take exits,
    credential changes and slashings from the pools, which check them against the state
    first; requests of the execution layer fill the queues of the state, and the epoch
    transition empties them into balances and the registry.  The validator client is a
    separate process: it publishes a message only after its slashing-protection database
    has accepted it.

    ** What is proved

    - Fork choice: [Head] returns the LMD-GHOST head with proposer boost, over weights
      that a specification computes from the votes, the justified balances and the boosted
      block before the call; every operation keeps the store a tree
      whose index is exact; vote accounting is exact; pruning and removal delete exactly
      a subtree; ancestor queries and optimistic validation follow the ancestor relation.
    - Finality: the Go code refines the pseudocode of the protocol; a finalized epoch and
      its successor had two thirds of the balance; checkpoints never move back; the
      one-pass unrealized checkpoints are those the transition would set.
    - Registry: inactivity ejections respect the quorum floor; the exit queue schedules
      each exit at the earliest epoch with enough churn; the shared [ExitInfo] describes
      the state; ejection for inactivity needs six hours of missed epochs
      less one epoch, as the schedule of slot times measures them; with a base reward
      factor of zero the rewards change no balance.
    - Block operations: the withdrawals of a block are exactly those a specification of the
      queue and the sweep gives, balances cover them, and the sweep pays everybody in time; pending deposits with
      batched signatures are applied as one by one; an attestation credits exactly the
      validators its bits name and counts once; over any sequence of the operations of
      Electra blocks and epochs that touch balances or queues the supply grows only by
      deposits, less withdrawals, and by rewards for slashing validators too poor to pay them
      ([fixed_supply]); lookups in the shared validator map are exact while the
      registries grow in one order.
    - Pools: the pools of exits and credential changes are lists with one entry per
      validator; the pool of slashings stays sorted, offers each validator that can be slashed
      once and forgets nobody.
    - Shuffle: the list shuffle moves every element where the index shuffle says, and the
      inverse shuffle undoes it.  Multi-value slice: it refines one list per object, as long
      as objects are copied only onto new ones.
      Field tries: incremental leaves equal full ones, and whatever states copy, write
      and hash in whatever order, the root a state reports is that of its own balances.
    - Committees: every sequence of requests about states whose seeds determine their
      active validators is answered as by the specification without a cache; the committees of an epoch divide its active validators, and everybody asked
      for gets the duty of the committee it is in; the search for a proposer ends, and the
      cached proposers are those of the search, for any number of slots per epoch.
    - Merkle tries: inserting leaves gives the root and items of the trie generated from
      them, proofs of all but the empty trie verify, and two proofs of one length under one
      root and position are the same or give a collision; the zero hashes are
      right; the two Merkleizations of encoding/ssz agree.
    - Slashing protection: over the filesystem database handlers that run one after another
      never publish two slashable messages, and neither do interleaved ones with one role per
      key; over the complete database the attestations published are not slashable, however
      calls and the batch writer interleave, fail or stop, if a key is checked only when its
      earlier records are written; the complete database is EIP-3076 exactly for slots within
      the weak subjectivity period, and the minimal one is stricter; an import protects what
      it lists; the batch writer loses nothing.
    - Slasher: during the first epochs of the history a surround vote is detected, and
      reported votes are offences; double votes of a batch are found.
    - Clock: slots tile time under a schedule of slot durations, [At] inverts
      [StartTime] and always terminates; checked arithmetic errs exactly on overflow; the
      cached square root is exact.
    - Where the code does not do what it says, a theorem shows it on a concrete input:
      [surround_vote_missed_past_history], [quorum_floor_counts_exiting],
      [electra_registry_ignores_inactivity], [prune_leaves_incompatible_child],
      [HighestReceivedBlockDelay_ignores_schedule], [StartTime_wraps_silently],
      [CachedSquareRoot_overflow_panics], [interleaved_roles_lose_a_block],
      [pruned_slot_can_be_signed_twice], [early_notification_publishes_slashable],
      [flush_before_subscribe_waits], [null_block_ends_import], [empty_trie_proof_fails],
      [ejection_before_six_hours], [fulu_past_proposer_is_current],
      [ClearCache_keeps_proposers], [forked_registries_mix_keys].

    ** Bounds and fuel

    Loops that are not structural take fuel, and the theorems show that what the callers
    pass is enough.  [newton_fuel] is 65: each Newton step from above at least halves the
    distance in the bit length of a [uint64].  [round_fuel] is 256, the rounds of the
    shuffle are a byte.  [fuelOf] is one more than the nodes of the heap, which bounds
    the height of the tree.  [update_fuel] is two more than the epochs of a chunk,
    [apply_fuel] two more than twice the chunks of the history.  The packing of balances
    runs at most four rounds.  Merkleization takes the length of its layer, which halves;
    [merge_fuel] is 66, since a shift by 64 or more stops the merge.  The loops of the pools
    take one or two more than the nodes or entries, [searchLoop] one more than the slice.
    Pruning of proposals takes the number of keys, one of which every round deletes.
    The search for a proposer has no bound in the code; [search_returns] shows
    that the number of active validators is enough once one has the full balance.

    ** Parameters

    SHA-256 ([hashfunc], [hash]; theorems that need more than its type ask for 32-byte
    digests, and the collision is a conclusion), the number of processors that splits a
    hashing job ([GOMAXPROCS]), YAML ([Yaml] with [YamlLaws]), the buckets of bbolt
    ([KVBucket] with [KVBucketLaws]), the LRU cache ([LRU] with [LRULaws]), each with an
    instance that satisfies its laws, what the beacon node and the signer answer the
    client, the bit vectors of go-bitfield ([Bitvector4] with
    [Bitvector4Laws], and an instance that satisfies them), the slasher's database and
    [HashTreeRoot] of a slashing are code outside the repository or generated; they are
    arguments of the definitions that use them.  The proposer is an argument of
    [SlashValidator], [RewardProposer] and [ProcessSyncAggregate], whose committee and parsing
    of BLS keys are arguments too.  Signatures are predicates that are arguments;
    of the batch of deposit signatures only [DepositSignatureLaws] is assumed, that it
    accepts nothing invalid.  The bit lists of
    go-bitfield are the class [Bitlist] with [BitlistLaws], which lists of booleans satisfy.  [HashTreeRoot] of withdrawals and deposit data is an argument.
    That two states with the same seed have the same active validators,
    which the cache relies on, is the hypothesis [stands_for] or [seed_determines_active] of
    the theorems on committees.

    ** Not modelled

    The drivers of slots and blocks, headers, randao, execution payloads, the pending
    attestations of phase 0, and the signatures and SSZ roots they need
    (third-party cryptography, generated code); deposits before Electra; the pools of
    attestations and sync committees; calls of the pools that interleave while the exit
    pool releases its lock; the root of the state container and of the fields
    whose elements are SSZ containers; networking, RPC, the beacon database,
    execution-engine client, key managers, command line: I/O around the logic above.
    Failing system calls, and failing transactions outside the batch writer; pruning of attestations (it deletes under a
    moving bbolt cursor), migrations and export of the validator's databases.
    The choice of sync committees.  Requests for one seed that run at the same time and wait for each
    other.  Goroutines that feed the slasher and the fork choice, tickers and metrics.
    [IntegerSquareRoot], whose seed is a floating-point square root.  The phase 0
    attestation matching of the epoch precompute. *)
From stdpp Require Export base gmap list strings sorting.
From Stdlib Require Export ZArith Lia.

Open Scope Z_scope.

(** ** Go results

    A Go function of type [(T, error)] that can also panic has three outcomes.
    The value that accompanies a non-nil error is never read by the callers
    that are modelled, so [Err] carries the error only.  Messages added by
    [errors.Wrap]/[fmt.Errorf] around a sentinel error are dropped: the
    sentinel is what callers test. *)
Inductive goerr : Type :=
  | ErrOverflow | ErrDivByZero | ErrMulOverflow | ErrAddOverflow | ErrSubUnderflow
  | errSlotOverflow | ErrOutOfBounds | ErrNilNode | errInvalidParentRoot
  | errUnknownFinalizedRoot | errUnknownJustifiedRoot | errInvalidOptimisticStatus
  | errInvalidNilCheckpoint | errInvalidUnrealizedJustifiedEpoch
  | errInvalidUnrealizedFinalizedEpoch | errUnknownCommonAncestor
  | errContext | errHeadNotViable | errBalances | errExecution | errMessage
  | ErrValidatorAlreadyExited | errNotSupported | ErrNilParticipation
  | errSignAttestation | errSignProposal | errLocalProtection | errUnmarshal
  | errSaveHistory | errDoubleVote | errSurroundingVote | errSurroundedVote.

#[export] Instance goerr_eq_dec : EqDecision goerr.
Proof. solve_decision. Defined.

Inductive gores (A : Type) : Type :=
  | Ok (a : A)
  | Err (e : goerr)
  | Panic
  | OutOfFuel.
Arguments Ok {A} a.
Arguments Err {A} e.
Arguments Panic {A}.
Arguments OutOfFuel {A}.

#[export] Instance gores_ret : MRet gores := λ A a, Ok a.
#[export] Instance gores_bind : MBind gores := λ A B k m,
  match m with
  | Ok a => k a
  | Err e => Err e
  | Panic => Panic
  | OutOfFuel => OutOfFuel
  end.

(** [must m] is Go's [res, err := m; if err != nil { panic(...) }]. *)
Definition must {A} (m : gores A) : gores A :=
  match m with Err _ => Panic | r => r end.

Definition is_ok {A} (m : gores A) : bool :=
  match m with Ok _ => true | _ => false end.

Lemma bind_Ok_inv {A B} (m : gores A) (k : A → gores B) b :
  m ≫= k = Ok b → ∃ a, m = Ok a ∧ k a = Ok b.
Proof. destruct m; simpl; intros; simplify_eq; eauto. Qed.

Lemma must_Ok {A} (m : gores A) a : must m = Ok a ↔ m = Ok a.
Proof. destruct m; simpl; naive_solver. Qed.

(** ** Go code that mutates memory

    [M S A] is a computation over a state [S] (the objects the Go code
    mutates through pointers).  As in Go, an error or a panic does not undo the
    mutations made before it: the state is returned with every outcome. *)
Definition M (S A : Type) : Type := S → gores A * S.

#[export] Instance M_ret {S} : MRet (M S) := λ A a s, (Ok a, s).
#[export] Instance M_bind {S} : MBind (M S) := λ A B k m s,
  match m s with
  | (Ok a, s') => k a s'
  | (Err e, s') => (Err e, s')
  | (Panic, s') => (Panic, s')
  | (OutOfFuel, s') => (OutOfFuel, s')
  end.
Definition mfail {S A} (e : goerr) : M S A := λ s, (Err e, s).
Definition mpanic {S A} : M S A := λ s, (Panic, s).
Definition mstuck {S A} : M S A := λ s, (OutOfFuel, s).
Definition mget {S} : M S S := λ s, (Ok s, s).
Definition mmodify {S} (f : S → S) : M S unit := λ s, (Ok tt, f s).
Definition mlift {S A} (r : gores A) : M S A := λ s, (r, s).

(** [for _, x := range xs { body }]: a [for] loop over a slice, the slice
    header evaluated once. *)
Fixpoint mfor {S A} (xs : list A) (body : A → M S unit) : M S unit :=
  match xs with
  | [] => mret tt
  | x :: xs' => body x;; mfor xs' body
  end.

(** The same with a local variable that the body updates. *)
Fixpoint mfold {S A B} (xs : list A) (acc : B) (body : B → A → M S B) : M S B :=
  match xs with
  | [] => mret acc
  | x :: xs' => acc' ← body acc x; mfold xs' acc' body
  end.

Lemma M_bind_Ok {S A B} (m : M S A) (k : A → M S B) s a s' :
  m s = (Ok a, s') → (m ≫= k) s = k a s'.
Proof. intros H. unfold mbind, M_bind. by rewrite H. Qed.

Lemma M_bind_Ok_inv {S A B} (m : M S A) (k : A → M S B) s b s' :
  (m ≫= k) s = (Ok b, s') → ∃ a s1, m s = (Ok a, s1) ∧ k a s1 = (Ok b, s').
Proof.
  unfold mbind, M_bind. destruct (m s) as [[] s1] eqn:?; intros; simplify_eq; eauto.
Qed.

(** Loop invariants: [I done acc s] holds when the elements [done] of [g <$> ts]
    have been visited; every iteration succeeds and carries it one element on. *)
Lemma mfold_invariant {S A B T} (g : T → A) (body : B → A → M S B)
    (I : list T → B → S → Prop) ts acc s :
  I [] acc s →
  (∀ done t rest acc s, ts = done ++ t :: rest → I done acc s →
     ∃ acc' s', body acc (g t) s = (Ok acc', s') ∧ I (done ++ [t]) acc' s') →
  ∃ acc' s', mfold (g <$> ts) acc body s = (Ok acc', s') ∧ I ts acc' s'.
Proof.
  intros H0 Hstep.
  cut (∀ rest done acc s, ts = done ++ rest → I done acc s →
    ∃ acc' s', mfold (g <$> rest) acc body s = (Ok acc', s') ∧ I ts acc' s').
  { intros H. by apply (H ts [] acc s). }
  clear H0 acc s. intros rest. induction rest as [|t rest IH]; intros done acc s Hts HI; simpl.
  - rewrite app_nil_r in Hts. subst. by exists acc, s.
  - destruct (Hstep done t rest acc s Hts HI) as (acc1 & s1 & Hb & HI1).
    erewrite M_bind_Ok by done. apply (IH (done ++ [t])); [|done].
    by rewrite <-app_assoc.
Qed.

Lemma mfor_mfold {S A} (xs : list A) (body : A → M S unit) s :
  mfor xs body s = mfold xs tt (λ _ x, body x) s.
Proof.
  revert s. induction xs as [|x xs IH]; intros s; [done|]. simpl.
  unfold mbind, M_bind. destruct (body x s) as [[[]| | |] s']; auto.
Qed.

Lemma mfor_invariant {S A T} (g : T → A) (body : A → M S unit)
    (I : list T → S → Prop) ts s :
  I [] s →
  (∀ done t rest s, ts = done ++ t :: rest → I done s →
     ∃ s', body (g t) s = (Ok tt, s') ∧ I (done ++ [t]) s') →
  ∃ s', mfor (g <$> ts) body s = (Ok tt, s') ∧ I ts s'.
Proof.
  intros H0 Hstep. rewrite mfor_mfold.
  destruct (mfold_invariant g (λ _ x, body x) (λ d (_ : unit) s, I d s) ts tt s H0)
    as ([] & s' & Hs' & HI); [|by exists s'].
  intros done t rest [] s1 Hts HI. destruct (Hstep done t rest s1 Hts HI) as (s' & ? & ?).
  by exists tt, s'.
Qed.

(** Loops over indices. *)
Lemma mfor_seq {S} (body : nat → M S unit) (I : nat → S → Prop) n s :
  I 0%nat s →
  (∀ i s, (i < n)%nat → I i s → ∃ s', body i s = (Ok tt, s') ∧ I (Datatypes.S i) s') →
  ∃ s', mfor (seq 0 n) body s = (Ok tt, s') ∧ I n s'.
Proof.
  intros H0 Hstep.
  cut (∀ k i s, (i + k = n)%nat → I i s → ∃ s', mfor (seq i k) body s = (Ok tt, s') ∧ I n s').
  { intros H. by apply (H n 0%nat). }
  clear H0 s. induction k as [|k IH]; intros i s Hk HI; simpl.
  - replace n with i by lia. by exists s.
  - destruct (Hstep i s) as (s1 & Hrun & HI1); [lia|done|].
    erewrite M_bind_Ok by exact Hrun. apply IH; [lia|done].
Qed.

(** A property of the outcome of [m ≫= k]: either [m] succeeds, or its failure is
    the outcome. *)
Lemma M_bind_cases {S A B} (Φ : gores B * S → Prop) (m : M S A) (k : A → M S B) s :
  (∀ a s', m s = (Ok a, s') → Φ (k a s')) →
  (∀ (r : gores B) s', (m s).2 = s' → is_ok (m s).1 = false → is_ok r = false → Φ (r, s')) →
  Φ ((m ≫= k) s).
Proof.
  intros HOk Hfail. unfold mbind, M_bind. destruct (m s) as [[] s'] eqn:?; auto.
Qed.

(** [preserves P m]: whatever the outcome of [m], an error or a panic included,
    [P] holds of the state it leaves if it held before. *)
Definition preserves {S A} (P : S → Prop) (m : M S A) : Prop := ∀ s, P s → P (m s).2.

Section preserves.
Context {S : Type} (P : S → Prop).
Implicit Types s : S.
Lemma preserves_ret {A} (a : A) : preserves P (mret a).
Proof. by intros s. Qed.
Lemma preserves_fail {A} e : preserves P (@mfail S A e).
Proof. by intros s. Qed.
Lemma preserves_panic {A} : preserves P (@mpanic S A).
Proof. by intros s. Qed.
Lemma preserves_stuck {A} : preserves P (@mstuck S A).
Proof. by intros s. Qed.
Lemma preserves_get : preserves P mget.
Proof. by intros s. Qed.
Lemma preserves_lift {A} (r : gores A) : preserves P (mlift r).
Proof. by intros s. Qed.
Lemma preserves_modify f : (∀ s, P s → P (f s)) → preserves P (mmodify f).
Proof. intros Hf s. apply Hf. Qed.
Lemma preserves_bind {A B} (m : M S A) (k : A → M S B) :
  preserves P m → (∀ a, preserves P (k a)) → preserves P (m ≫= k).
Proof.
  intros Hm Hk s Hs. specialize (Hm s Hs). unfold mbind, M_bind.
  destruct (m s) as [[] s']; simpl in *; [by apply Hk|done..].
Qed.
Lemma preserves_if {A} (b : bool) (m1 m2 : M S A) :
  preserves P m1 → preserves P m2 → preserves P (if b then m1 else m2).
Proof. by destruct b. Qed.
Lemma preserves_mfold {A B} (xs : list A) (acc : B) (body : B → A → M S B) :
  (∀ acc x, preserves P (body acc x)) → preserves P (mfold xs acc body).
Proof.
  intros Hb. revert acc. induction xs as [|x xs IH]; intros acc; simpl;
    [apply preserves_ret|]. apply preserves_bind; auto.
Qed.
Lemma preserves_mfor {A} (xs : list A) (body : A → M S unit) :
  (∀ x, preserves P (body x)) → preserves P (mfor xs body).
Proof.
  intros Hb. induction xs as [|x xs IH]; simpl; [apply preserves_ret|].
  apply preserves_bind; auto.
Qed.
End preserves.

(** The same for a program that ends in another invariant [Q], implied by [P]. *)
Lemma preserves_then {S A B} (P Q : S → Prop) (m : M S A) (k : A → M S B) s :
  (∀ s, P s → Q s) → preserves P m → P s →
  (∀ a s', m s = (Ok a, s') → P s' → Q (k a s').2) → Q ((m ≫= k) s).2.
Proof.
  intros HPQ Hm Hs Hk. specialize (Hm s Hs). unfold mbind, M_bind.
  destruct (m s) as [[] s'] eqn:Heq; simpl in *; auto.
Qed.

(** Symbolic execution of a program towards a property [Φ] of the state it leaves, whatever
    its outcome: a read that fails leaves the state as it is. *)
Lemma get_post {S B} (Φ : S → Prop) (k : S → M S B) s : Φ (k s s).2 → Φ ((mget ≫= k) s).2.
Proof. done. Qed.
Lemma lift_post {S A B} (Φ : S → Prop) (r : gores A) (k : A → M S B) s :
  Φ s → (∀ a, r = Ok a → Φ (k a s).2) → Φ ((mlift r ≫= k) s).2.
Proof. intros Hs Hk. unfold mbind, M_bind, mlift. destruct r; auto. Qed.
Lemma bind_post {S A B} (Φ : S → Prop) (m : M S A) (k : A → M S B) s :
  (is_ok (m s).1 = false → Φ (m s).2) → (∀ a s', m s = (Ok a, s') → Φ (k a s').2) → Φ ((m ≫= k) s).2.
Proof. intros Hfail Hk. unfold mbind, M_bind. destruct (m s) as [[] s']; auto. Qed.
Lemma mfor_post {S A} (Φ : S → Prop) (xs : list A) (body : A → M S unit) s :
  Φ s → (∀ x s, x ∈ xs → Φ s → Φ (body x s).2) → Φ (mfor xs body s).2.
Proof.
  revert s. induction xs as [|x xs IH]; intros s Hs Hb; [done|]. cbn [mfor]. apply bind_post.
  - intros _. apply Hb; [set_solver|done].
  - intros a s' Heq. apply IH; [|set_solver]. change s' with ((Ok a, s') : gores unit * S).2. rewrite <-Heq.
    apply Hb; [set_solver|done].
Qed.

(** Steps over reads and tests; [Φ s] must be in the context. *)
Ltac mwalk :=
  repeat first
    [ apply get_post; cbv beta
    | apply lift_post; [assumption|intros ? ?; cbv beta]
    | match goal with
      | |- _ ((match ?x with _ => _ end) _).2 => destruct x eqn:?
      end
    | assumption ].

(** [mloop I as H] applies the invariant [I] to the loop that runs next. *)
Tactic Notation "mloop" constr(I) "as" simple_intropattern(H) :=
  match goal with
  | |- context [mbind _ (mfold (?g <$> ?ts) ?acc ?body) ?s] =>
      cut (∃ acc' s', mfold (g <$> ts) acc body s = (Ok acc', s') ∧ I ts acc' s');
      [intros H | apply (mfold_invariant g body I)]
  | |- context [mbind _ (mfor (?g <$> ?ts) ?body) ?s] =>
      cut (∃ s', mfor (g <$> ts) body s = (Ok tt, s') ∧ I ts s');
      [intros H | apply (mfor_invariant g body I)]
  end.

(** ** Machine integers *)
Abbreviation two16 := 65536.
Abbreviation two63 := 9223372036854775808.
Abbreviation two64 := 18446744073709551616.
Abbreviation MaxUint64 := 18446744073709551615.
Abbreviation MaxInt64 := 9223372036854775807.
Abbreviation MinInt64 := (-9223372036854775808).

(** A Go [uint64]/[int64] value is a [Z] in the type's range; arithmetic wraps. *)
Definition is_u64 (z : Z) : Prop := 0 ≤ z < two64.
Definition is_i64 (z : Z) : Prop := MinInt64 ≤ z ≤ MaxInt64.
#[export] Instance is_u64_dec z : Decision (is_u64 z).
Proof. unfold is_u64. apply _. Defined.
#[export] Instance is_i64_dec z : Decision (is_i64 z).
Proof. unfold is_i64. apply _. Defined.
Definition u64 (z : Z) : Z := z mod two64.
Definition i64 (z : Z) : Z := (z + two63) mod two64 - two63.
Definition u32 (z : Z) : Z := z mod 4294967296.
Definition u16 (z : Z) : Z := z mod two16.
Definition u8 (z : Z) : Z := z mod 256.

Notation "a +64 b" := (u64 (a + b)) (at level 50, left associativity) : Z_scope.
Notation "a -64 b" := (u64 (a - b)) (at level 50, left associativity) : Z_scope.
Notation "a *64 b" := (u64 (a * b)) (at level 40, left associativity) : Z_scope.

Lemma u64_range z : is_u64 (u64 z).
Proof. unfold is_u64, u64. pose proof (Z.mod_pos_bound z two64). lia. Qed.

Lemma u64_small z : is_u64 z → u64 z = z.
Proof. unfold is_u64, u64. intros. apply Z.mod_small. lia. Qed.

Lemma i64_range z : is_i64 (i64 z).
Proof. unfold is_i64, i64. pose proof (Z.mod_pos_bound (z + two63) two64). lia. Qed.

Lemma i64_small z : is_i64 z → i64 z = z.
Proof.
  unfold is_i64, i64. intros. rewrite Z.mod_small; lia.
Qed.

Lemma u64_add_l a b : u64 (u64 a + b) = u64 (a + b).
Proof. unfold u64. apply Zplus_mod_idemp_l. Qed.
Lemma u64_add_r a b : u64 (a + u64 b) = u64 (a + b).
Proof. unfold u64. apply Zplus_mod_idemp_r. Qed.
Lemma u64_idem a : u64 (u64 a) = u64 a.
Proof. unfold u64. apply Zmod_mod. Qed.
Lemma i64_add_r a b : i64 (a + i64 b) = i64 (a + b).
Proof.
  unfold i64. f_equal.
  replace (a + ((b + two63) mod two64 - two63) + two63)
    with (a + (b + two63) mod two64) by lia.
  rewrite Zplus_mod_idemp_r. f_equal; lia.
Qed.

#[global] Arguments u64 : simpl never.
#[global] Arguments i64 : simpl never.

Create HintDb go.
#[export] Hint Resolve u64_range i64_range : go.
Create Rewrite HintDb u64.
#[export] Hint Rewrite u64_add_l u64_add_r u64_idem : u64.

(** [u64_solve] reduces wrapped arithmetic whose operands are in range. *)
Ltac u64_solve :=
  unfold is_u64, is_i64 in *;
  repeat (rewrite u64_small by (unfold is_u64; lia));
  try lia.

(** ** Finite sums *)
Fixpoint sum_to (n : nat) (g : nat → Z) : Z :=
  match n with O => 0 | S m => sum_to m g + g m end.

Lemma sum_to_ext n g g' : (∀ i, (i < n)%nat → g i = g' i) → sum_to n g = sum_to n g'.
Proof. induction n as [|n IH]; intros H; simpl; [done|]. rewrite IH, H by auto with lia. done. Qed.

Lemma sum_to_add n g g' : sum_to n (λ i, g i + g' i) = sum_to n g + sum_to n g'.
Proof. induction n as [|n IH]; simpl; [done|]. rewrite IH. lia. Qed.

Lemma sum_to_sub n g g' : sum_to n (λ i, g i - g' i) = sum_to n g - sum_to n g'.
Proof. induction n as [|n IH]; simpl; [done|]. rewrite IH. lia. Qed.

Lemma sum_to_le n g g' : (∀ i, (i < n)%nat → g i ≤ g' i) → sum_to n g ≤ sum_to n g'.
Proof.
  induction n as [|n IH]; intros H; simpl; [done|].
  pose proof (H n ltac:(lia)). pose proof (IH ltac:(auto with lia)). lia.
Qed.

Lemma sum_to_0 n : sum_to n (λ _, 0) = 0.
Proof. induction n; simpl; lia. Qed.

Lemma sum_to_nonneg n g : (∀ i, (i < n)%nat → 0 ≤ g i) → 0 ≤ sum_to n g.
Proof. intros H. rewrite <-(sum_to_0 n). by apply sum_to_le. Qed.

Lemma sum_to_prefix n k g : (k < n)%nat → (∀ i, (i < n)%nat → 0 ≤ g i) →
  sum_to k g + g k ≤ sum_to n g.
Proof.
  induction n as [|n IH]; intros Hk Hg; [lia|]. simpl.
  destruct (decide (k = n)) as [->|]; [lia|].
  pose proof (IH ltac:(lia) ltac:(auto with lia)). pose proof (Hg n ltac:(lia)). lia.
Qed.

Lemma sum_to_zero_at n k g : (k < n)%nat →
  sum_to n (λ i, if decide (i = k) then 0 else g i) = sum_to n g - g k.
Proof.
  intros Hk. induction n as [|n IH]; [lia|]. simpl. destruct (decide (n = k)) as [->|].
  - rewrite (sum_to_ext k _ g); [lia|]. intros i Hi. by rewrite decide_False by lia.
  - rewrite IH by lia. lia.
Qed.

Create HintDb preserves.
#[export] Hint Resolve preserves_ret preserves_fail preserves_panic preserves_stuck
  preserves_get preserves_lift preserves_modify preserves_if preserves_mfold preserves_mfor
  : preserves.

(** Walks through a program whose every step keeps an invariant; leaves the
    steps the hint database does not know. *)
Ltac preserve :=
  repeat first
    [ apply preserves_bind; [|intros ?]
    | solve [auto with preserves]
    | progress intros
    | apply preserves_if
    | apply preserves_mfold
    | apply preserves_mfor
    | match goal with |- preserves _ (match ?x with _ => _ end) => destruct x eqn:? end ].

(** ** Sums over lists of integers

    The arithmetic of balances: a list's sum, and how an update, an append and a removal
    change it. *)
Definition sumZ (l : list Z) : Z := foldr Z.add 0 l.
Definition sumBy {A} (f : A → Z) (l : list A) : Z := sumZ (f <$> l).

Lemma sumZ_cons x l : sumZ (x :: l) = x + sumZ l.
Proof. done. Qed.
Lemma sumZ_app l k : sumZ (l ++ k) = sumZ l + sumZ k.
Proof. induction l as [|x l IH]; simpl; [done|]. unfold sumZ in *. simpl. lia. Qed.
Lemma sumBy_app {A} (f : A → Z) l k : sumBy f (l ++ k) = sumBy f l + sumBy f k.
Proof. unfold sumBy. by rewrite fmap_app, sumZ_app. Qed.
Lemma sumBy_nil {A} (f : A → Z) : sumBy f [] = 0.
Proof. done. Qed.
Lemma sumBy_cons {A} (f : A → Z) x l : sumBy f (x :: l) = f x + sumBy f l.
Proof. done. Qed.
Lemma sumBy_take_drop {A} (f : A → Z) n l : sumBy f l = sumBy f (take n l) + sumBy f (drop n l).
Proof. by rewrite <-sumBy_app, take_drop. Qed.

Lemma sumZ_insert l i x y : l !! i = Some x → sumZ (<[i := y]> l) = sumZ l - x + y.
Proof.
  revert i. induction l as [|z l IH]; intros [|i] Hi; simplify_eq/=; unfold sumZ in *; simpl; [lia|].
  rewrite IH by done. lia.
Qed.
Lemma sumBy_ext {A} (f g : A → Z) l : (∀ x, x ∈ l → f x = g x) → sumBy f l = sumBy g l.
Proof.
  induction l as [|x l IH]; intros Hfg; [done|]. rewrite !sumBy_cons, Hfg, IH by set_solver. done.
Qed.
Lemma sumBy_add {A} (f g : A → Z) l : sumBy (λ x, f x + g x) l = sumBy f l + sumBy g l.
Proof. induction l as [|x l IH]; rewrite ?sumBy_nil, ?sumBy_cons; [done|]. lia. Qed.
Lemma sumBy_nonneg {A} (f : A → Z) l : Forall (λ x, 0 ≤ f x) l → 0 ≤ sumBy f l.
Proof. induction 1; rewrite ?sumBy_nil, ?sumBy_cons; lia. Qed.
Lemma sumZ_nonneg l : Forall (λ x, 0 ≤ x) l → 0 ≤ sumZ l.
Proof. induction 1; unfold sumZ in *; simpl; lia. Qed.
Lemma sumZ_lookup_le l i x : Forall (λ x, 0 ≤ x) l → l !! i = Some x → x ≤ sumZ l.
Proof.
  intros Hl. revert i. induction Hl as [|y l Hy Hl IH]; intros [|i] Hi; simplify_eq/=.
  - pose proof (sumZ_nonneg l Hl). unfold sumZ in *. simpl. lia.
  - specialize (IH i Hi). unfold sumZ in *. simpl. lia.
Qed.
(** A sum is at most its length times a bound of its terms. *)
Lemma sumZ_bound l b : Forall (λ x, x ≤ b) l → sumZ l ≤ Z.of_nat (length l) * b.
Proof. induction 1; unfold sumZ in *; simpl; lia. Qed.

(** ** Entries by position: [ent l i] is 0 outside the list *)
Definition ent (l : list Z) (i : Z) : Z := if i <? 0 then 0 else default 0 (l !! Z.to_nat i).
Lemma ent_lookup l i x : 0 ≤ i → l !! Z.to_nat i = Some x → ent l i = x.
Proof. intros Hi Hx. unfold ent. destruct (Z.ltb_spec i 0); [lia|]. by rewrite Hx. Qed.
Lemma ent_insert l i j x : 0 ≤ i < Z.of_nat (length l) → ent (<[Z.to_nat i := x]> l) j = if i =? j then x else ent l j.
Proof.
  intros Hi. unfold ent. destruct (Z.ltb_spec j 0), (Z.eqb_spec i j); try lia; subst.
  - by rewrite list_lookup_insert_eq by lia.
  - by rewrite list_lookup_insert_ne by lia.
Qed.
Lemma ent_outside l i : ¬ (0 ≤ i < Z.of_nat (length l)) → ent l i = 0.
Proof.
  unfold ent. intros Hi. destruct (Z.ltb_spec i 0); [done|]. by rewrite lookup_ge_None_2 by lia.
Qed.
Lemma list_eq_ent l k : length l = length k → (∀ i, 0 ≤ i < Z.of_nat (length l) → ent l i = ent k i) → l = k.
Proof.
  intros Hlen Hl. apply (list_eq_same_length l k _ eq_refl); [lia|]. intros i x y Hi Hx Hy.
  specialize (Hl (Z.of_nat i)). rewrite (ent_lookup l _ x), (ent_lookup k _ y) in Hl;
    rewrite ?Nat2Z.id; auto; try lia; apply Hl; lia.
Qed.

(** ** A [uint64] accumulator *)
Lemma foldl_u64_sum {A} (p : A → bool) (f : A → Z) l acc :
  foldl (λ total x, if p x then total +64 f x else total) (u64 acc) l =
  u64 (acc + sumBy (λ x, if p x then f x else 0) l).
Proof.
  revert acc. induction l as [|x l IH]; intros acc; [by rewrite sumBy_nil, Z.add_0_r|].
  rewrite sumBy_cons. cbn [foldl]. destruct (p x); [rewrite u64_add_l|]; rewrite IH; f_equal; lia.
Qed.
