(* ===== verification/MathHelper.v ===== *)
(** * math/math_helper.go

    Overflow-checked 64-bit arithmetic, powers of two, and the cached Newton
    square root that base rewards are computed with.  [bits.Add64],
    [bits.Sub64], [bits.Mul64] and [bits.Div64] of Go's standard library are
    written out as carry/borrow/high word of the exact result. *)
From S2P Require Import Prelude.

(** ** Checked arithmetic *)

(** [bits.Mul64]: high and low word of the 128-bit product. *)
Definition bits_Mul64 (a b : Z) : Z * Z := ((a * b) / two64, u64 (a * b)).
Definition bits_Add64 (a b carry : Z) : Z * Z :=
  (u64 (a + b + carry), (a + b + carry) / two64).
Definition bits_Sub64 (a b borrow : Z) : Z * Z :=
  (u64 (a - b - borrow), if a - b - borrow <? 0 then 1 else 0).
(** [bits.Div64(0, lo, y)] with [y ≠ 0]. *)
Definition bits_Div64 (lo y : Z) : Z * Z := (lo / y, lo mod y).

Definition Mul64 (a b : Z) : gores Z :=
  let '(overflows, val) := bits_Mul64 a b in
  if overflows >? 0 then Err ErrMulOverflow else Ok val.

Definition Div64 (a b : Z) : gores Z :=
  if b =? 0 then Err ErrDivByZero else Ok (bits_Div64 a b).1.

Definition Add64 (a b : Z) : gores Z :=
  let '(res, carry) := bits_Add64 a b 0 in
  if carry >? 0 then Err ErrAddOverflow else Ok res.

Definition Sub64 (a b : Z) : gores Z :=
  let '(res, borrow) := bits_Sub64 a b 0 in
  if borrow >? 0 then Err ErrSubUnderflow else Ok res.

Definition Mod64 (a b : Z) : gores Z :=
  if b =? 0 then Err ErrDivByZero else Ok (bits_Div64 a b).2.

Definition Int (u : Z) : gores Z :=
  if u >? MaxInt64 then Err ErrOverflow else Ok (i64 u).

Fixpoint AddInt_loop (sum : Z) (i : list Z) : gores Z :=
  match i with
  | [] => Ok sum
  | ii :: i' =>
      if (ii >? 0) && (sum >? i64 (MaxInt64 - ii)) then Err ErrOverflow
      else if (ii <? 0) && (sum <? i64 (MinInt64 - ii)) then Err ErrOverflow
      else AddInt_loop (i64 (sum + ii)) i'
  end.

Definition AddInt (i : list Z) : gores Z := AddInt_loop 0 i.

(** Go's [/] and [%] on [int] truncate towards zero. *)
Definition CeilDiv8 (n : Z) : Z :=
  let ret := Z.quot n 8 in
  if Z.rem n 8 >? 0 then i64 (ret + 1) else ret.

Definition IsPowerOf2 (n : Z) : bool :=
  negb (n =? 0) && (Z.land n (n -64 1) =? 0).

Definition PowerOf2 (n : Z) : gores Z :=
  if n >=? 64 then Panic else Ok (u64 (Z.shiftl 1 n)).

(** [big.Int.BitLen] is the number of bits of the absolute value. *)
Definition BitLen (b : Z) : Z := if b =? 0 then 0 else Z.log2 (Z.abs b) + 1.
Definition IsValidUint256 (bi : Z) : bool := (bi >=? 0) && (BitLen bi <=? 256).

(** ** The cached square root *)

(** The package variable [cachedSquareRoot]. *)
Record SquareRootCache := { squareRoot : Z; cachedBalance : Z }.

Definition initialCache : SquareRootCache :=
  {| squareRoot := 126491106; cachedBalance := 15999999897103236 |}.

(** The [for] loop; [balance / 0] is Go's run-time panic.  The cache field is
    written in every iteration. *)
Fixpoint newton (fuel : nat) (balance val : Z) : M SquareRootCache Z :=
  match fuel with
  | O => mstuck
  | S fuel' =>
      c ← mget;
      let x := ((squareRoot c +64 val) / 2) in
      mmodify (λ c, {| squareRoot := x; cachedBalance := cachedBalance c |});;
      if x =? 0 then mpanic
      else
        let val := balance / x in
        if x <=? val then mret x else newton fuel' balance val
  end.

(** 65 iterations are enough for every 64-bit input ([CachedSquareRoot_correct]). *)
Definition newton_fuel : nat := 65%nat.

Definition CachedSquareRoot (balance : Z) : M SquareRootCache Z :=
  if balance =? 0 then mret 0
  else
    c ← mget;
    if balance =? cachedBalance c then mret (squareRoot c)
    else
      mmodify (λ c, {| squareRoot := squareRoot c; cachedBalance := balance |});;
      if squareRoot c =? 0 then mpanic
      else newton newton_fuel balance (balance / squareRoot c).

(** ** Lemmas the other components use *)

Lemma Add64_cases a b : is_u64 a → is_u64 b →
  Add64 a b = if a + b <? two64 then Ok (a + b) else Err ErrAddOverflow.
Proof.
  unfold is_u64, Add64, bits_Add64. intros Ha Hb.
  rewrite Z.add_0_r. destruct (Z.ltb_spec (a + b) two64).
  - rewrite Z.div_small by lia. by rewrite u64_small by (unfold is_u64; lia).
  - assert (1 ≤ (a + b) / two64) by (apply Z.div_le_lower_bound; lia).
    by destruct (Z.gtb_spec ((a + b) / two64) 0); [|lia].
Qed.

Lemma Sub64_cases a b : is_u64 a → is_u64 b →
  Sub64 a b = if b <=? a then Ok (a - b) else Err ErrSubUnderflow.
Proof.
  unfold is_u64, Sub64, bits_Sub64. intros Ha Hb. rewrite Z.sub_0_r.
  destruct (Z.leb_spec b a), (Z.ltb_spec (a - b) 0); try lia; simpl; [|done].
  by rewrite u64_small by (unfold is_u64; lia).
Qed.

Lemma Mul64_cases a b : is_u64 a → is_u64 b →
  Mul64 a b = if a * b <? two64 then Ok (a * b) else Err ErrMulOverflow.
Proof.
  unfold is_u64, Mul64, bits_Mul64. intros Ha Hb.
  destruct (Z.ltb_spec (a * b) two64).
  - rewrite Z.div_small by nia. by rewrite u64_small by (unfold is_u64; nia).
  - assert (1 ≤ (a * b) / two64) by (apply Z.div_le_lower_bound; lia).
    by destruct (Z.gtb_spec ((a * b) / two64) 0); [|lia].
Qed.

Lemma Div64_cases a b : Div64 a b = if b =? 0 then Err ErrDivByZero else Ok (a / b).
Proof. done. Qed.

Lemma Mod64_cases a b : Mod64 a b = if b =? 0 then Err ErrDivByZero else Ok (a mod b).
Proof. done. Qed.

Lemma land_pred_pow2 n : 0 < n → Z.land n (n - 1) = 0 ↔ ∃ k, 0 ≤ k ∧ n = 2 ^ k.
Proof.
  intros Hn. split.
  - intros Hland. exists (Z.log2 n). split; [apply Z.log2_nonneg|].
    destruct (Z.log2_spec n Hn) as [Hlo Hhi].
    destruct (decide (n = 2 ^ Z.log2 n)) as [|Hne]; [done|exfalso].
    assert (Hlog : Z.log2 (n - 1) = Z.log2 n).
    { apply Z.log2_unique; [apply Z.log2_nonneg|lia]. }
    assert (0 < 2 ^ Z.log2 n) by (apply Z.pow_pos_nonneg; [lia|apply Z.log2_nonneg]).
    assert (Hbit : Z.testbit (Z.land n (n - 1)) (Z.log2 n) = true).
    { rewrite Z.land_spec, Z.bit_log2 by done. rewrite <- Hlog.
      by rewrite Z.bit_log2 by lia. }
    by rewrite Hland, Z.bits_0 in Hbit.
  - intros (k & Hk & ->).
    replace (2 ^ k - 1) with (Z.ones k) by (rewrite Z.ones_equiv; lia).
    rewrite Z.land_ones by done. by rewrite Z_mod_same_full.
Qed.

(** One Newton step from [x > 0] never goes below the integer root, and halves
    the distance to it when above. *)
Lemma newton_step_lower b x : 0 ≤ b → 0 < x → Z.sqrt b ≤ (x + b / x) / 2.
Proof.
  intros Hb Hx. set (r := Z.sqrt b).
  destruct (Z.sqrt_spec b Hb) as [Hlo _]. fold r in Hlo.
  apply Z.div_le_lower_bound; [lia|].
  pose proof (Z.sqrt_nonneg b). fold r in H.
  destruct (Z.le_gt_cases (2 * r - x) 0) as [|Hpos].
  { pose proof (Z.div_pos b x). lia. }
  assert (2 * r - x ≤ b / x); [|lia].
  apply Z.div_le_lower_bound; [lia|].
  pose proof (Z.square_nonneg (r - x)). nia.
Qed.

Lemma newton_step_upper b x : 0 ≤ b → Z.sqrt b < x →
  (x + b / x) / 2 - Z.sqrt b ≤ (x - Z.sqrt b) / 2.
Proof.
  intros Hb Hx. set (r := Z.sqrt b) in *.
  destruct (Z.sqrt_spec b Hb) as [_ Hhi]. fold r in Hhi.
  pose proof (Z.sqrt_nonneg b). fold r in H.
  assert (b / x < r + 1) by (apply Z.div_lt_upper_bound; nia).
  apply Z.le_trans with ((x + r) / 2 - r); [|].
  - apply Z.sub_le_mono_r, Z.div_le_mono; lia.
  - replace (x + r) with ((x - r) + r * 2) by lia. rewrite Z.div_add by lia. lia.
Qed.

Lemma newton_stop b x : 0 ≤ b → 0 < x → Z.sqrt b ≤ x →
  (x <=? b / x) = true ↔ x = Z.sqrt b.
Proof.
  intros Hb Hx Hle. rewrite Z.leb_le. destruct (Z.sqrt_spec b Hb) as [Hlo Hhi].
  split.
  - intros Hv. assert (x * x ≤ b).
    { pose proof (Z.mul_div_le b x Hx). nia. }
    assert (x ≤ Z.sqrt b); [|lia]. apply Z.sqrt_le_square; lia.
  - intros ->. apply Z.div_le_lower_bound; lia.
Qed.

Definition cache_ok (c : SquareRootCache) : Prop :=
  squareRoot c = Z.sqrt (cachedBalance c) ∧ 1 ≤ cachedBalance c < two64.

Lemma sqrt_u64_bound b : 0 ≤ b < two64 → 0 ≤ Z.sqrt b < 4294967296.
Proof.
  intros Hb. split; [apply Z.sqrt_nonneg|].
  apply Z.sqrt_lt_square; lia.
Qed.

Lemma newton_unfold n b val c :
  newton (S n) b val c =
  (let x := ((squareRoot c +64 val) / 2) in
   let c' := {| squareRoot := x; cachedBalance := cachedBalance c |} in
   if x =? 0 then (Panic, c')
   else if x <=? b / x then (Ok x, c') else newton n b (b / x) c').
Proof. simpl. unfold mbind, M_bind. simpl. by repeat case_match. Qed.

(** The loop, started in the region where it contracts. *)
Lemma newton_converges n b x0 val c :
  1 ≤ b < two64 → squareRoot c = x0 →
  Z.sqrt b ≤ (x0 + val) / 2 < two63 → 0 ≤ x0 → 0 ≤ val →
  x0 + val < two64 →
  (x0 + val) / 2 - Z.sqrt b < 2 ^ (Z.of_nat n) →
  newton (S n) b val c
    = (Ok (Z.sqrt b), {| squareRoot := Z.sqrt b; cachedBalance := cachedBalance c |}).
Proof.
  revert x0 val c. induction n as [|n IH]; intros x0 val c Hb Hc Hx Hx0 Hval Hov Hd;
    rewrite newton_unfold, Hc, (u64_small (x0 + val)) by (unfold is_u64; lia);
    cbv zeta;
    set (x := (x0 + val) / 2) in *;
    assert (1 ≤ Z.sqrt b) by (apply Z.sqrt_le_square; lia);
    (destruct (Z.eqb_spec x 0); [lia|]);
    pose proof (newton_stop b x ltac:(lia) ltac:(lia) ltac:(lia)) as Hstop.
  - assert (x = Z.sqrt b) as Hxe by lia.
    rewrite (proj2 Hstop Hxe). by rewrite Hxe.
  - destruct (x <=? b / x) eqn:Hle.
    { assert (x = Z.sqrt b) as -> by tauto. done. }
    assert (x ≠ Z.sqrt b) by (intros Heq; apply Hstop in Heq; congruence).
    pose proof (newton_step_lower b x ltac:(lia) ltac:(lia)).
    pose proof (newton_step_upper b x ltac:(lia) ltac:(lia)).
    assert ((x - Z.sqrt b) / 2 < 2 ^ Z.of_nat n).
    { apply Z.div_lt_upper_bound; [lia|]. rewrite Nat2Z.inj_succ, Z.pow_succ_r in Hd; lia. }
    assert (b / x < x) by (apply Z.leb_gt; done).
    pose proof (Z.div_pos b x).
    erewrite (IH x (b / x)); simpl; try done; try lia.
    assert ((x + b / x) / 2 ≤ x) by (apply Z.div_le_upper_bound; lia). lia.
Qed.

Lemma cache_ok_initial : cache_ok initialCache.
Proof. unfold cache_ok. split; [by vm_compute | simpl; lia]. Qed.

Lemma CachedSquareRoot_hit b c :
  b ≠ 0 → b = cachedBalance c → CachedSquareRoot b c = (Ok (squareRoot c), c).
Proof.
  intros Hb Heq. unfold CachedSquareRoot. destruct (Z.eqb_spec b 0); [done|].
  unfold mbind, M_bind, mget. rewrite Heq, Z.eqb_refl. done.
Qed.

Lemma CachedSquareRoot_miss b c :
  b ≠ 0 → b ≠ cachedBalance c → squareRoot c ≠ 0 →
  CachedSquareRoot b c
    = newton newton_fuel b (b / squareRoot c)
        {| squareRoot := squareRoot c; cachedBalance := b |}.
Proof.
  intros Hb Hne Hr. unfold CachedSquareRoot. destruct (Z.eqb_spec b 0); [done|].
  unfold mbind, M_bind, mget, mmodify.
  destruct (Z.eqb_spec b (cachedBalance c)); [done|].
  destruct (Z.eqb_spec (squareRoot c) 0); done.
Qed.

(** ** Theorems *)

(** For every balance below [MaxUint64] and every cache state the program
    can be in, [CachedSquareRoot] terminates and returns the integer square
    root, without overflow or division by zero, and leaves the cache holding
    the root of the balance it stores. *)
Theorem CachedSquareRoot_correct b c :
  cache_ok c → 0 ≤ b < MaxUint64 →
  ∃ c', CachedSquareRoot b c = (Ok (Z.sqrt b), c') ∧ cache_ok c'.
Proof.
  intros [Hroot Hbal] Hb.
  destruct (decide (b = 0)) as [->|Hb0]; [by exists c|].
  destruct (decide (b = cachedBalance c)) as [->|Hne].
  { exists c. rewrite CachedSquareRoot_hit by done. by rewrite Hroot. }
  pose proof (sqrt_u64_bound (cachedBalance c) ltac:(lia)).
  assert (1 ≤ squareRoot c) by (rewrite Hroot; apply Z.sqrt_le_square; lia).
  rewrite CachedSquareRoot_miss by lia.
  pose proof (newton_step_lower b (squareRoot c) ltac:(lia) ltac:(lia)).
  pose proof (Z.div_pos b (squareRoot c) ltac:(lia) ltac:(lia)).
  assert (squareRoot c + b / squareRoot c < two64).
  { destruct (decide (squareRoot c = 1)) as [->|]; [rewrite Z.div_1_r; lia|].
    assert (b / squareRoot c ≤ b / 2) by (apply Z.div_le_compat_l; lia).
    assert (b / 2 < two63) by (apply Z.div_lt_upper_bound; lia). lia. }
  assert ((squareRoot c + b / squareRoot c) / 2 < two63)
    by (apply Z.div_lt_upper_bound; lia).
  pose proof (Z.sqrt_nonneg b).
  eexists. unfold newton_fuel.
  rewrite (newton_converges 64 b (squareRoot c)); try done; try lia.
  split; [done|]. unfold cache_ok; simpl. lia.
Qed.

Lemma CachedSquareRoot_correct_witness :
  CachedSquareRoot 32000000000 initialCache
    = (Ok 178885, {| squareRoot := 178885; cachedBalance := 32000000000 |}) ∧
  ∃ c', CachedSquareRoot 32000000000 initialCache = (Ok 178885, c') ∧ cache_ok c'.
Proof.
  split; [by vm_compute|].
  apply (CachedSquareRoot_correct 32000000000 initialCache cache_ok_initial). lia.
Defined.

(** The one input the previous theorem excludes is a real fault: after a
    balance of 1, 2 or 3 was cached, a balance of [MaxUint64] makes the first
    Newton step wrap to zero and the next division panic. *)
Theorem CachedSquareRoot_overflow_panics b :
  1 ≤ b ≤ 3 →
  (CachedSquareRoot MaxUint64 {| squareRoot := Z.sqrt b; cachedBalance := b |}).1 = Panic.
Proof.
  intros Hb. assert (b = 1 ∨ b = 2 ∨ b = 3) as [-> | [-> | ->]] by lia; done.
Qed.

Lemma CachedSquareRoot_overflow_panics_witness :
  (CachedSquareRoot MaxUint64 (CachedSquareRoot 1 initialCache).2).1 = Panic.
Proof.
  exact (CachedSquareRoot_overflow_panics 1 ltac:(lia)).
Defined.

(** [IsPowerOf2] decides exactly the 64 powers of two of the type, and
    [PowerOf2] enumerates them, panicking from 64 on. *)
Theorem IsPowerOf2_PowerOf2 n : is_u64 n →
  (IsPowerOf2 n = true ↔ ∃ k, 0 ≤ k < 64 ∧ PowerOf2 k = Ok n).
Proof.
  unfold is_u64. intros Hn.
  assert (Hpow : ∀ k, 0 ≤ k < 64 → PowerOf2 k = Ok (2 ^ k)).
  { intros k Hk. unfold PowerOf2. destruct (Z.geb_spec k 64); [lia|].
    rewrite Z.shiftl_mul_pow2, Z.mul_1_l by lia. rewrite u64_small; [done|].
    unfold is_u64. change two64 with (2 ^ 64).
    split; [apply Z.pow_nonneg|apply Z.pow_lt_mono_r]; lia. }
  unfold IsPowerOf2. rewrite andb_true_iff, negb_true_iff, Z.eqb_neq, Z.eqb_eq.
  split.
  - intros [Hn0 Hl]. rewrite u64_small in Hl by (unfold is_u64; lia).
    apply land_pred_pow2 in Hl as (k & Hk & ->); [|lia].
    assert (k < 64).
    { apply (Z.pow_lt_mono_r_iff 2); [lia..|]. change (2 ^ 64) with two64. lia. }
    exists k. by rewrite Hpow by lia.
  - intros (k & Hk & Heq). rewrite Hpow in Heq by done. simplify_eq.
    assert (0 < 2 ^ k) by (apply Z.pow_pos_nonneg; lia).
    split; [lia|]. rewrite u64_small by (unfold is_u64; lia).
    apply land_pred_pow2; [lia|]. exists k. lia.
Qed.

Lemma IsPowerOf2_PowerOf2_witness :
  IsPowerOf2 65536 = true ↔ ∃ k, 0 ≤ k < 64 ∧ PowerOf2 k = Ok 65536.
Proof. apply (IsPowerOf2_PowerOf2 65536). unfold is_u64. lia. Defined.

(** The partial sums [AddInt] runs through. *)
Fixpoint partial_sums (acc : Z) (l : list Z) : list Z :=
  match l with [] => [] | x :: l' => (acc + x) :: partial_sums (acc + x) l' end.

Lemma AddInt_loop_spec l sum :
  is_i64 sum → Forall is_i64 l →
  AddInt_loop sum l =
    if decide (Forall is_i64 (partial_sums sum l))
    then Ok (sum + foldr Z.add 0 l) else Err ErrOverflow.
Proof.
  revert sum. induction l as [|x l IH]; intros sum Hs Hl;
    cbn [AddInt_loop partial_sums foldr].
  { rewrite decide_True by constructor. by rewrite Z.add_0_r. }
  apply Forall_cons in Hl as [Hx Hl].
  destruct (decide (is_i64 (sum + x))) as [Hin|Hout]; unfold is_i64 in Hs, Hx.
  - assert ((x >? 0) && (sum >? i64 (MaxInt64 - x)) = false) as ->.
    { unfold is_i64 in Hin. destruct (Z.gtb_spec x 0); [|done]. simpl.
      rewrite i64_small by (unfold is_i64; lia). rewrite Z.gtb_ltb. apply Z.ltb_ge. lia. }
    assert ((x <? 0) && (sum <? i64 (MinInt64 - x)) = false) as ->.
    { unfold is_i64 in Hin. destruct (Z.ltb_spec x 0); [|done]. simpl.
      rewrite i64_small by (unfold is_i64; lia). apply Z.ltb_ge. lia. }
    rewrite i64_small, IH by done.
    destruct (decide (Forall is_i64 (partial_sums (sum + x) l))) as [HF|HF];
      destruct (decide (Forall is_i64 (_ :: _))) as [HC|HC]; try done.
    + f_equal. lia.
    + destruct HC. by constructor.
    + by inversion HC.
  - destruct (decide (Forall is_i64 (_ :: _))) as [HC|_]; [by inversion HC|].
    destruct (Z.gtb_spec x 0); simpl.
    + rewrite i64_small by (unfold is_i64; lia).
      destruct (Z.gtb_spec sum (MaxInt64 - x)); [done|]. destruct Hout. unfold is_i64; lia.
    + destruct (Z.ltb_spec x 0); simpl.
      * rewrite i64_small by (unfold is_i64; lia).
        destruct (Z.ltb_spec sum (MinInt64 - x)); [done|]. destruct Hout. unfold is_i64; lia.
      * destruct Hout. unfold is_i64; lia.
Qed.

(** [AddInt] returns the exact sum when no partial sum leaves the [int]
    range, and [ErrOverflow] otherwise: it never returns a wrapped value. *)
Theorem AddInt_exact l : Forall is_i64 l →
  AddInt l = if decide (Forall is_i64 (partial_sums 0 l))
             then Ok (foldr Z.add 0 l) else Err ErrOverflow.
Proof.
  intros Hl. unfold AddInt. rewrite AddInt_loop_spec; [done| |done].
  unfold is_i64; lia.
Qed.

Lemma AddInt_exact_witness :
  AddInt [MaxInt64; 1] = Err ErrOverflow ∧ AddInt [MaxInt64; -1; 1] = Ok MaxInt64.
Proof.
  split; (rewrite AddInt_exact; [by vm_compute|]);
    repeat constructor; unfold is_i64; lia.
Defined.
