(* ===== verification/Primitives.v ===== *)
(** * consensus-types/primitives: slots, epochs, validator indices

    [Slot], [Epoch] and [ValidatorIndex] are Go types over [uint64]; their
    values are [Z] in the range of [is_u64].  A [SafeX] method returns an error,
    the plain [X] method panics on the same condition.  The SSZ methods call the
    fastssz package and are not modelled. *)
From S2P Require Import Prelude MathHelper.

Module Slot.

Definition SafeMul (s x : Z) : gores Z := Mul64 s x.
Definition Mul (s x : Z) : gores Z := must (SafeMul s x).
Definition MulSlot (s x : Z) : gores Z := Mul s x.
Definition SafeMulSlot (s x : Z) : gores Z := SafeMul s x.

Definition SafeDiv (s x : Z) : gores Z := Div64 s x.
Definition Div (s x : Z) : gores Z := must (SafeDiv s x).
Definition DivSlot (s x : Z) : gores Z := Div s x.
Definition SafeDivSlot (s x : Z) : gores Z := SafeDiv s x.

Definition SafeAdd (s x : Z) : gores Z := Add64 s x.
Definition Add (s x : Z) : gores Z := must (SafeAdd s x).
Definition AddSlot (s x : Z) : gores Z := Add s x.
Definition SafeAddSlot (s x : Z) : gores Z := SafeAdd s x.

Definition SafeSub (s x : Z) : gores Z := Sub64 s x.
Definition Sub (s x : Z) : gores Z := must (SafeSub s x).
Definition SubSlot (s x : Z) : gores Z := Sub s x.
Definition SafeSubSlot (s x : Z) : gores Z := SafeSub s x.

Definition FlooredSubSlot (s x : Z) : Z := if s <? x then 0 else s -64 x.

Definition SafeMod (s x : Z) : gores Z := Mod64 s x.
Definition Mod (s x : Z) : gores Z := must (SafeMod s x).
Definition ModSlot (s x : Z) : gores Z := Mod s x.
Definition SafeModSlot (s x : Z) : gores Z := SafeMod s x.

End Slot.

Module Epoch.

Definition MaxEpoch (a b : Z) : Z := if a >? b then a else b.

Definition SafeMul (e x : Z) : gores Z := Mul64 e x.
Definition Mul (e x : Z) : gores Z := must (SafeMul e x).
Definition SafeDiv (e x : Z) : gores Z := Div64 e x.
Definition Div (e x : Z) : gores Z := must (SafeDiv e x).
Definition SafeAdd (e x : Z) : gores Z := Add64 e x.
Definition Add (e x : Z) : gores Z := must (SafeAdd e x).
Definition AddEpoch (e x : Z) : gores Z := Add e x.
Definition SafeAddEpoch (e x : Z) : gores Z := SafeAdd e x.
Definition SafeSub (e x : Z) : gores Z := Sub64 e x.
Definition Sub (e x : Z) : gores Z := must (SafeSub e x).
Definition SafeMod (e x : Z) : gores Z := Mod64 e x.
Definition Mod (e x : Z) : gores Z := must (SafeMod e x).

End Epoch.

Module ValidatorIndex.

Definition Div (v x : Z) : gores Z := if x =? 0 then Panic else Ok (v / x).
Definition Add (v x : Z) : Z := v +64 x.
Definition Sub (v x : Z) : gores Z := if v <? x then Panic else Ok (v -64 x).
(** Go's [%] panics on a zero divisor. *)
Definition Mod (v x : Z) : gores Z := if x =? 0 then Panic else Ok (v mod x).

End ValidatorIndex.

(** ** Interface: checked 64-bit arithmetic

    What a client of the checked operations relies on: each operation is exact
    on its domain and fails outside of it.  [Slot] and [Epoch] both discharge
    it, so a client proved against the class does not look at the bit-level
    code of math_helper.go. *)
Class CheckedU64 (add sub mul div modulo : Z → Z → gores Z) : Prop := {
  checked_add a b : is_u64 a → is_u64 b →
    add a b = if a + b <? two64 then Ok (a + b) else Err ErrAddOverflow;
  checked_sub a b : is_u64 a → is_u64 b →
    sub a b = if b <=? a then Ok (a - b) else Err ErrSubUnderflow;
  checked_mul a b : is_u64 a → is_u64 b →
    mul a b = if a * b <? two64 then Ok (a * b) else Err ErrMulOverflow;
  checked_div a b : div a b = if b =? 0 then Err ErrDivByZero else Ok (a / b);
  checked_mod a b : modulo a b = if b =? 0 then Err ErrDivByZero else Ok (a mod b);
}.

#[export] Instance slot_checked :
  CheckedU64 Slot.SafeAdd Slot.SafeSub Slot.SafeMul Slot.SafeDiv Slot.SafeMod.
Proof.
  split; [apply Add64_cases | apply Sub64_cases | apply Mul64_cases | done..].
Qed.

#[export] Instance epoch_checked :
  CheckedU64 Epoch.SafeAdd Epoch.SafeSub Epoch.SafeMul Epoch.SafeDiv Epoch.SafeMod.
Proof.
  split; [apply Add64_cases | apply Sub64_cases | apply Mul64_cases | done..].
Qed.

Section checked_clients.
Context (add sub mul div modulo : Z → Z → gores Z).
Context {HC : CheckedU64 add sub mul div modulo}.

(** Addition and subtraction undo each other wherever the first succeeds. *)
Lemma checked_add_sub a b c : is_u64 a → is_u64 b →
  add a b = Ok c → sub c b = Ok a.
Proof.
  intros Ha Hb. rewrite checked_add by done.
  destruct (Z.ltb_spec (a + b) two64); [|done]. intros [= <-].
  rewrite checked_sub by (unfold is_u64 in *; lia).
  unfold is_u64 in *. destruct (Z.leb_spec b (a + b)); [|lia]. f_equal. lia.
Qed.

(** Quotient and remainder rebuild the dividend, with no overflow. *)
Lemma checked_divmod a b q r : is_u64 a → is_u64 b →
  div a b = Ok q → modulo a b = Ok r →
  ∃ p, mul b q = Ok p ∧ add p r = Ok a.
Proof.
  unfold is_u64. intros Ha Hb. rewrite checked_div, checked_mod.
  destruct (Z.eqb_spec b 0); [done|]. intros [= <-] [= <-].
  pose proof (Z.div_mod a b ltac:(lia)). pose proof (Z.mod_pos_bound a b ltac:(lia)).
  pose proof (Z.div_pos a b ltac:(lia) ltac:(lia)).
  assert (a / b ≤ a) by (apply Z.div_le_upper_bound; nia).
  exists (b * (a / b)). rewrite checked_mul by (unfold is_u64; lia).
  destruct (Z.ltb_spec (b * (a / b)) two64); [|lia]. split; [done|].
  rewrite checked_add by (unfold is_u64; lia).
  destruct (Z.ltb_spec (b * (a / b) + a mod b) two64); [|lia]. f_equal. lia.
Qed.

Lemma checked_result_u64 a b c : is_u64 a → is_u64 b →
  add a b = Ok c ∨ sub a b = Ok c ∨ mul a b = Ok c ∨ div a b = Ok c ∨ modulo a b = Ok c →
  is_u64 c.
Proof.
  unfold is_u64. intros Ha Hb.
  rewrite checked_add, checked_sub, checked_mul, checked_div, checked_mod by done.
  destruct (Z.ltb_spec (a + b) two64), (Z.leb_spec b a), (Z.ltb_spec (a * b) two64),
    (Z.eqb_spec b 0); intros Hc; destruct_or! Hc; simplify_eq; try nia;
    first [ pose proof (Z.mod_pos_bound a b ltac:(lia)); lia
          | pose proof (Z.div_pos a b ltac:(lia) ltac:(lia));
            assert (a / b ≤ a) by (apply Z.div_le_upper_bound; nia); lia ].
Qed.
End checked_clients.

Lemma must_if_Ok {A} (b : bool) (x : A) e :
  must (if b then Ok x else Err e) = if b then Ok x else Panic.
Proof. by destruct b. Qed.

(** ** Theorems *)

(** The slot and epoch methods never return a wrapped value: on every pair
    of operands of the type a [Safe] method returns the exact result when it
    fits, the matching error otherwise, and the panicking method panics exactly
    when its [Safe] twin errs. *)
Theorem primitives_checked a b : is_u64 a → is_u64 b →
  (Slot.Add a b = if a + b <? two64 then Ok (a + b) else Panic) ∧
  (Slot.Sub a b = if b <=? a then Ok (a - b) else Panic) ∧
  (Slot.Mul a b = if a * b <? two64 then Ok (a * b) else Panic) ∧
  (Slot.Div a b = if b =? 0 then Panic else Ok (a / b)) ∧
  (Slot.Mod a b = if b =? 0 then Panic else Ok (a mod b)) ∧
  (Slot.FlooredSubSlot a b = Z.max 0 (a - b)) ∧
  (Epoch.Add a b = Slot.Add a b) ∧ (Epoch.Sub a b = Slot.Sub a b) ∧
  (Epoch.Mul a b = Slot.Mul a b) ∧ (Epoch.Div a b = Slot.Div a b) ∧
  (Epoch.Mod a b = Slot.Mod a b) ∧ (Epoch.MaxEpoch a b = Z.max a b) ∧
  (∀ r e, (Slot.SafeAdd a b = Ok r → Slot.SafeSub r b = Ok a) ∧
          (Slot.SafeAdd a b = Err e → two64 ≤ a + b)).
Proof.
  intros Ha Hb.
  pose proof (@checked_add _ _ _ _ _ slot_checked a b Ha Hb) as Hadd. pose proof (@checked_sub _ _ _ _ _ slot_checked a b Ha Hb) as Hsub.
  pose proof (@checked_mul _ _ _ _ _ slot_checked a b Ha Hb) as Hmul.
  unfold Slot.Add, Slot.Sub, Slot.Mul, Slot.Div, Slot.Mod, Slot.SafeDiv, Slot.SafeMod.
  rewrite Hadd, Hsub, Hmul, !must_if_Ok, Div64_cases, Mod64_cases.
  repeat split; try done; try (by destruct (b =? 0)).
  - unfold Slot.FlooredSubSlot. unfold is_u64 in *.
    destruct (Z.ltb_spec a b); [lia|]. rewrite u64_small by (unfold is_u64; lia). lia.
  - unfold Epoch.Add. change Epoch.SafeAdd with Slot.SafeAdd. by rewrite Hadd, must_if_Ok.
  - unfold Epoch.Sub. change Epoch.SafeSub with Slot.SafeSub. by rewrite Hsub, must_if_Ok.
  - unfold Epoch.Mul. change Epoch.SafeMul with Slot.SafeMul. by rewrite Hmul, must_if_Ok.
  - unfold Epoch.MaxEpoch. destruct (Z.gtb_spec a b); lia.
  - intros Hr. eapply checked_add_sub; [exact slot_checked|..]; try done. by rewrite Hadd.
  - destruct (Z.ltb_spec (a + b) two64); [done|lia].
Qed.

Lemma primitives_checked_witness :
  Slot.Add MaxUint64 1 = Panic ∧ Slot.Sub 3 5 = Panic ∧ Slot.Mul 4294967296 4294967296 = Panic
  ∧ Epoch.Add 7 8 = Ok 15.
Proof.
  assert (is_u64 MaxUint64 ∧ is_u64 1 ∧ is_u64 3 ∧ is_u64 5 ∧ is_u64 4294967296)
    as (? & ? & ? & ? & ?) by (unfold is_u64; lia).
  destruct (primitives_checked MaxUint64 1) as (-> & _); [done..|].
  destruct (primitives_checked 3 5) as (_ & -> & _); [done..|].
  destruct (primitives_checked 4294967296 4294967296) as (_ & _ & -> & _); [done..|].
  done.
Defined.
