(* ===== verification/Config.v ===== *)
(** * config/params/config.go: the parts of the chain configuration the core reads

    [params.BeaconConfig()] is a process-wide value that is fixed before the
    services start; here it is a record passed implicitly.  A [time.Duration] is
    an [int64] count of nanoseconds, so conversions from [uint64] and products
    wrap as in Go. *)
From S2P Require Import Prelude.

Class BeaconChainConfig := {
  SlotsPerEpoch : Z;
  SecondsPerSlot : Z;
  SlotDurationMilliseconds : Z;
  SlotTimeForkOneSlot : Z;
  SlotTimeForkOneMillis : Z;
  SlotTimeForkTwoSlot : Z;
  SlotTimeForkTwoMillis : Z;
  GenesisEpoch : Z;
  FarFutureEpoch : Z;
  EpochsPerEth1VotingPeriod : Z;
  EpochsPerSyncCommitteePeriod : Z;
  AltairForkEpoch : Z;
  BellatrixForkEpoch : Z;
  CapellaForkEpoch : Z;
  DenebForkEpoch : Z;
  ElectraForkEpoch : Z;
  FuluForkEpoch : Z;
  GloasForkEpoch : Z;
  ProposerScoreBoost : Z;
  ReorgHeadWeightThreshold : Z;
  ReorgParentWeightThreshold : Z;
  ReorgMaxEpochsSinceFinalization : Z;
  AttestationDueBPS : Z;
  AggregateDueBPS : Z;
  SyncMessageDueBPS : Z;
  ContributionDueBPS : Z;
  AttestationDueBPSGloas : Z;
  AggregateDueBPSGloas : Z;
  SyncMessageDueBPSGloas : Z;
  ContributionDueBPSGloas : Z;
  AttestationOffsetMs : Z;
  AggregationOffsetMs : Z;
  ShuffleRoundCount : Z;
}.

(** [time.Millisecond], [time.Second] in nanoseconds; [params.BasisPoints]. *)
Abbreviation Millisecond := 1000000.
Abbreviation Second := 1000000000.
Definition BasisPoints : Z := 10000.

(** [time.Duration(x)] of a [uint64], and [*] on durations. *)
Definition toDuration (x : Z) : Z := i64 x.
Definition mulDuration (a b : Z) : Z := i64 (a * b).

Record SlotTimeSegment := { StartSlot : Z; DurationMillis : Z }.

Section config.
Context `{cfg : BeaconChainConfig}.

Definition SlotDurationMillis : Z :=
  if SlotDurationMilliseconds >? 0 then SlotDurationMilliseconds
  else SecondsPerSlot *64 1000.

Definition SlotDuration : Z := mulDuration (toDuration SlotDurationMillis) Millisecond.

(** [slotDuration/time.Millisecond] is a truncating [int64] division, the
    conversion to [uint64] wraps. *)
Definition slotFraction (slotDuration bp : Z) : Z :=
  let ms := (bp *64 u64 (Z.quot slotDuration Millisecond)) / BasisPoints in
  mulDuration (toDuration ms) Millisecond.

Definition SlotComponentDuration (bp : Z) : Z := slotFraction SlotDuration bp.

Definition dutyDue (slotDuration epoch overrideMs bp bpGloas : Z) : Z :=
  if overrideMs >? 0 then mulDuration (toDuration overrideMs) Millisecond
  else slotFraction slotDuration (if epoch >=? GloasForkEpoch then bpGloas else bp).

Definition AttestationDue (slotDuration epoch : Z) : Z :=
  dutyDue slotDuration epoch AttestationOffsetMs AttestationDueBPS AttestationDueBPSGloas.
Definition AggregationDue (slotDuration epoch : Z) : Z :=
  dutyDue slotDuration epoch AggregationOffsetMs AggregateDueBPS AggregateDueBPSGloas.
Definition SyncMessageDue (slotDuration epoch : Z) : Z :=
  dutyDue slotDuration epoch AttestationOffsetMs SyncMessageDueBPS SyncMessageDueBPSGloas.
Definition ContributionDue (slotDuration epoch : Z) : Z :=
  dutyDue slotDuration epoch AggregationOffsetMs ContributionDueBPS ContributionDueBPSGloas.

(** One iteration of the loop of [SlotTimeSchedule]: [segs] is never empty. *)
Definition addSegment (segs : list SlotTimeSegment) (s : SlotTimeSegment)
    : list SlotTimeSegment :=
  if (StartSlot s =? 0) || (DurationMillis s =? 0) then segs
  else match last segs with
       | Some l => if StartSlot s <=? StartSlot l then segs else segs ++ [s]
       | None => segs
       end.

Definition SlotTimeSchedule : list SlotTimeSegment :=
  foldl addSegment [{| StartSlot := 0; DurationMillis := SlotDurationMillis |}]
    [{| StartSlot := SlotTimeForkOneSlot; DurationMillis := SlotTimeForkOneMillis |};
     {| StartSlot := SlotTimeForkTwoSlot; DurationMillis := SlotTimeForkTwoMillis |}].

(** The body of the two nested loops of [ValidateDutyOffsets]. *)
Definition dutyOffsetsOk (seg : SlotTimeSegment) (epoch : Z) : gores unit :=
  let slotDuration := mulDuration (toDuration (DurationMillis seg)) Millisecond in
  let att := AttestationDue slotDuration epoch in
  let agg := AggregationDue slotDuration epoch in
  if att >=? slotDuration then Err errMessage
  else if agg >=? slotDuration then Err errMessage
  else if att >=? agg then Err errMessage
  else Ok tt.

Fixpoint forall_ok {A} (xs : list A) (f : A → gores unit) : gores unit :=
  match xs with [] => Ok tt | x :: xs' => f x;; forall_ok xs' f end.

Definition ValidateDutyOffsets : gores unit :=
  if (AttestationOffsetMs =? 0) && (AggregationOffsetMs =? 0) then Ok tt
  else
    let epochs := 0 ::
      (if negb (GloasForkEpoch =? FarFutureEpoch) && (GloasForkEpoch >? 0)
       then [GloasForkEpoch] else []) in
    forall_ok SlotTimeSchedule (λ seg, forall_ok epochs (dutyOffsetsOk seg)).

(** ** The schedule is never empty, starts at slot 0 and strictly ascends *)

Definition seg_lt (a b : SlotTimeSegment) : Prop := StartSlot a < StartSlot b.

Lemma addSegment_shape segs s :
  addSegment segs s = segs ∨
  (addSegment segs s = segs ++ [s] ∧ DurationMillis s ≠ 0 ∧
   ∃ l, last segs = Some l ∧ seg_lt l s).
Proof.
  unfold addSegment. destruct (Z.eqb_spec (StartSlot s) 0); [by left|].
  destruct (Z.eqb_spec (DurationMillis s) 0); [by left|]. simpl.
  destruct (last segs) as [l|] eqn:Hl; [|by left].
  destruct (Z.leb_spec (StartSlot s) (StartSlot l)); [by left|]. right.
  split_and!; eauto.
Qed.

Lemma schedule_cases :
  let s0 := {| StartSlot := 0; DurationMillis := SlotDurationMillis |} in
  SlotTimeSchedule = [s0] ∨
  (∃ s1, SlotTimeSchedule = [s0; s1] ∧ DurationMillis s1 ≠ 0 ∧ seg_lt s0 s1) ∨
  (∃ s1 s2, SlotTimeSchedule = [s0; s1; s2] ∧ DurationMillis s1 ≠ 0 ∧
            DurationMillis s2 ≠ 0 ∧ seg_lt s0 s1 ∧ seg_lt s1 s2).
Proof.
  intros s0. unfold SlotTimeSchedule. cbn [foldl]. fold s0.
  set (a := {| StartSlot := SlotTimeForkOneSlot; DurationMillis := _ |}).
  set (b := {| StartSlot := SlotTimeForkTwoSlot; DurationMillis := _ |}).
  destruct (addSegment_shape [s0] a) as [->|(-> & Ha & l & [= <-] & Hl)].
  - destruct (addSegment_shape [s0] b) as [->|(-> & Hb & l' & Hl' & Hlt)];
      simpl in *; simplify_eq; eauto 10.
  - destruct (addSegment_shape ([s0] ++ [a]) b) as [->|(-> & Hb & l' & Hl' & Hlt)];
      simpl in *; simplify_eq; eauto 15.
Qed.

End config.

(** Mainnet values of the modelled fields (config/params/mainnet_config.go). *)
Definition mainnet_config : BeaconChainConfig := {|
  SlotsPerEpoch := 32; SecondsPerSlot := 12; SlotDurationMilliseconds := 12000;
  SlotTimeForkOneSlot := 0; SlotTimeForkOneMillis := 0;
  SlotTimeForkTwoSlot := 0; SlotTimeForkTwoMillis := 0;
  GenesisEpoch := 0; FarFutureEpoch := MaxUint64;
  EpochsPerEth1VotingPeriod := 64; EpochsPerSyncCommitteePeriod := 256;
  AltairForkEpoch := 74240; BellatrixForkEpoch := 144896; CapellaForkEpoch := 194048;
  DenebForkEpoch := 269568; ElectraForkEpoch := 364032; FuluForkEpoch := 411392;
  GloasForkEpoch := MaxUint64; ProposerScoreBoost := 40;
  ReorgHeadWeightThreshold := 20; ReorgParentWeightThreshold := 160;
  ReorgMaxEpochsSinceFinalization := 2;
  AttestationDueBPS := 3333; AggregateDueBPS := 6667; SyncMessageDueBPS := 3333;
  ContributionDueBPS := 6667; AttestationDueBPSGloas := 2500; AggregateDueBPSGloas := 5000;
  SyncMessageDueBPSGloas := 2500; ContributionDueBPSGloas := 5000;
  AttestationOffsetMs := 0; AggregationOffsetMs := 0; ShuffleRoundCount := 90
|}.
