(* ===== verification/SlotTime.v ===== *)
(** * time/slots/slottime.go: the slot clock

    The slot-to-time mapping is piecewise linear (a chain may schedule changes
    of the slot duration).  A [time.Time] is its exact number of nanoseconds; a
    [time.Duration] is an [int64].  [Time.Sub] saturates at the ends of the
    [int64] range, as the standard library documents.  A reading of the clock is
    an argument ([now]).  beacon-chain/core/time/slot_epoch.go is here too. *)
From S2P Require Import Prelude MathHelper Primitives Config.

(** [Time.Sub], [Time.Unix], [Time.Truncate(time.Second)]. *)
Definition timeSub (t u : Z) : Z := Z.max MinInt64 (Z.min MaxInt64 (t - u)).
Definition timeUnix (t : Z) : Z := t / Second.
Definition truncateSecond (t : Z) : Z := t - t mod Second.

(** [for i, x := range xs { if p(i, x) { idx = i } }]: the last index that
    satisfies the test, [idx] when none does. *)
Fixpoint lastIdx {A} (p : nat → A → bool) (i idx : nat) (xs : list A) : nat :=
  match xs with
  | [] => idx
  | x :: xs' => lastIdx p (S i) (if p i x then i else idx) xs'
  end.

(** [MaxSlotBuffer] *)
Definition MaxSlotBuffer : Z := 128.

(** runtime/version/fork.go *)
Definition version_Phase0 : Z := 0.
Definition version_Altair : Z := 1.
Definition version_Bellatrix : Z := 2.
Definition version_Capella : Z := 3.
Definition version_Deneb : Z := 4.
Definition version_Electra : Z := 5.
Definition version_Fulu : Z := 6.
Definition version_Gloas : Z := 7.

Section slottime.
Context `{cfg : BeaconChainConfig}.

(** ** Epoch arithmetic *)

Definition AbsoluteValueSlotDifference (x y : Z) : gores Z :=
  if x >? y then Slot.SubSlot x y else Slot.SubSlot y x.

Definition ToEpoch (slot : Z) : gores Z := Slot.DivSlot slot SlotsPerEpoch.

Definition ToForkVersion (slot : Z) : gores Z :=
  epoch ← ToEpoch slot;
  Ok (if epoch >=? FuluForkEpoch then version_Fulu
      else if epoch >=? ElectraForkEpoch then version_Electra
      else if epoch >=? DenebForkEpoch then version_Deneb
      else if epoch >=? CapellaForkEpoch then version_Capella
      else if epoch >=? BellatrixForkEpoch then version_Bellatrix
      else if epoch >=? AltairForkEpoch then version_Altair
      else version_Phase0).

Definition EpochStart (epoch : Z) : gores Z :=
  match Slot.SafeMul SlotsPerEpoch epoch with
  | Err _ => Err errSlotOverflow
  | r => r
  end.

Definition UnsafeEpochStart (epoch : Z) : gores Z := must (EpochStart epoch).

Definition EpochEnd (epoch : Z) : gores Z :=
  if epoch =? MaxUint64 then Err errSlotOverflow
  else slot ← EpochStart (epoch +64 1); Ok (slot -64 1).

(** Go's [%] on [uint64] panics on a zero divisor. *)
Definition remSlot (slot n : Z) : gores Z :=
  if n =? 0 then Panic else Ok (slot mod n).

Definition IsEpochStart (slot : Z) : gores bool :=
  r ← remSlot slot SlotsPerEpoch; Ok (r =? 0).
Definition IsEpochEnd (slot : Z) : gores bool := IsEpochStart (slot +64 1).
Definition SinceEpochStarts (slot : Z) : gores Z := remSlot slot SlotsPerEpoch.

Definition RoundUpToNearestEpoch (slot : Z) : gores Z :=
  r ← remSlot slot SlotsPerEpoch;
  if negb (r =? 0) then Ok ((slot -64 r) +64 SlotsPerEpoch) else Ok slot.

Definition PrevSlot (slot : Z) : gores Z := if slot >? 0 then Slot.Sub slot 1 else Ok 0.

Definition SyncCommitteePeriod (e : Z) : gores Z :=
  if EpochsPerSyncCommitteePeriod =? 0 then Panic else Ok (e / EpochsPerSyncCommitteePeriod).

Definition SyncCommitteePeriodStartEpoch (e : Z) : gores Z :=
  p ← SyncCommitteePeriod e; Mul64 p EpochsPerSyncCommitteePeriod.

Definition MaxSafeEpoch : gores Z :=
  if SlotsPerEpoch =? 0 then Panic else Ok (MaxUint64 / SlotsPerEpoch -64 1).

Definition SafeEpochStartOrMax (e : Z) : gores Z :=
  me ← MaxSafeEpoch;
  if e >? me then UnsafeEpochStart me else UnsafeEpochStart e.

(** beacon-chain/core/time/slot_epoch.go, over the slot of the state. *)
Definition CurrentEpoch (stateSlot : Z) : gores Z := ToEpoch stateSlot.
Definition PrevEpoch (stateSlot : Z) : gores Z :=
  currentEpoch ← CurrentEpoch stateSlot;
  if currentEpoch =? 0 then Ok 0 else Ok (currentEpoch -64 1).
Definition NextEpoch (stateSlot : Z) : gores Z := e ← ToEpoch stateSlot; Ok (e +64 1).

Definition CanUpgradeTo (forkEpoch slot : Z) : gores bool :=
  epochStart ← IsEpochStart slot;
  e ← ToEpoch slot;
  Ok (epochStart && (e =? forkEpoch)).
Definition CanUpgradeToAltair : Z → gores bool := CanUpgradeTo AltairForkEpoch.
Definition CanUpgradeToBellatrix : Z → gores bool := CanUpgradeTo BellatrixForkEpoch.
Definition CanUpgradeToCapella : Z → gores bool := CanUpgradeTo CapellaForkEpoch.
Definition CanUpgradeToDeneb : Z → gores bool := CanUpgradeTo DenebForkEpoch.
Definition CanUpgradeToElectra : Z → gores bool := CanUpgradeTo ElectraForkEpoch.
Definition CanUpgradeToFulu : Z → gores bool := CanUpgradeTo FuluForkEpoch.

Definition CanProcessEpoch (stateSlot : Z) : gores bool :=
  r ← remSlot (stateSlot +64 1) SlotsPerEpoch; Ok (r =? 0).

(** ** Piecewise slot timing *)

(** The duration of a segment's slots, [time.Duration(ms) * time.Millisecond]. *)
Definition segDuration (s : SlotTimeSegment) : Z :=
  mulDuration (toDuration (DurationMillis s)) Millisecond.

(** The loop of [segmentOffsets] from segment [prev], which begins at [off]. *)
Fixpoint offsetsFrom (off : Z) (prev : SlotTimeSegment) (rest : list SlotTimeSegment)
    : list Z :=
  match rest with
  | [] => [off]
  | s :: rest' =>
      let span := StartSlot s -64 StartSlot prev in
      let off' := i64 (off + mulDuration
                     (mulDuration (toDuration span) (toDuration (DurationMillis prev)))
                     Millisecond) in
      off :: offsetsFrom off' s rest'
  end.

Definition segmentOffsets : list SlotTimeSegment * list Z :=
  let segments := SlotTimeSchedule in
  (segments, match segments with [] => [] | s :: rest => offsetsFrom 0 s rest end).

Definition SlotDurationAt (slot : Z) : gores Z :=
  match SlotTimeSchedule with
  | [] => Panic
  | s0 :: _ =>
      Ok (foldl (λ d s, if slot >=? StartSlot s then segDuration s else d)
            (segDuration s0) SlotTimeSchedule)
  end.

Definition StartTime (genesis slot : Z) : gores Z :=
  let '(segments, offsets) := segmentOffsets in
  let idx := lastIdx (λ _ s, slot >=? StartSlot s) 0 0 segments in
  match segments !! idx, offsets !! idx with
  | Some s, Some off =>
      let within := slot -64 StartSlot s in
      ms ← Slot.SafeMul within (DurationMillis s);
      Ok (genesis + i64 (off + mulDuration (toDuration ms) Millisecond))
  | _, _ => Panic
  end.

Definition UnsafeStartTime (genesis slot : Z) : gores Z := must (StartTime genesis slot).

Definition At (genesis tm : Z) : gores Z :=
  if tm <? genesis then Ok 0
  else
    let elapsed := timeSub tm genesis in
    let '(segments, offsets) := segmentOffsets in
    let idx := lastIdx (λ _ off, elapsed >=? off) 0 0 offsets in
    match segments !! idx, offsets !! idx with
    | Some s, Some off =>
        let d := segDuration s in
        if d =? 0 then Panic
        else Ok (StartSlot s +64 u64 (Z.quot (i64 (elapsed - off)) d))
    | _, _ => Panic
    end.

Definition CurrentSlot (genesis now : Z) : gores Z := At genesis now.

Definition EpochsSinceGenesis (genesis now : Z) : gores Z :=
  s ← CurrentSlot genesis now;
  if SlotsPerEpoch =? 0 then Panic else Ok (s / SlotsPerEpoch).

Definition Duration (start end_ : Z) : gores Z :=
  if end_ <? start then Ok 0 else At start end_.

Definition DivideSlotBy (timesPerSlot : Z) : Z :=
  if timesPerSlot =? 0 then 0 else i64 (Z.quot SlotDuration timesPerSlot).
Definition MultiplySlotBy (times : Z) : Z := mulDuration SlotDuration times.

Definition ValidateClock (slot genesis now : Z) : gores unit :=
  cur ← CurrentSlot genesis now;
  maxPossibleSlot ← Slot.Add cur MaxSlotBuffer;
  if slot >? maxPossibleSlot then Err errMessage else Ok tt.

(** [now1] is the clock reading inside [ValidateClock], [now2] the one after. *)
Definition VerifyTime (genesis slot timeTolerance now1 now2 : Z) : gores unit :=
  slotTime ← StartTime genesis slot;
  _ ← ValidateClock slot genesis now1;
  let diff := timeSub slotTime now2 in
  if diff >? timeTolerance then Err errMessage else Ok tt.

Definition VotingPeriodStartTime (genesis slot : Z) : gores Z :=
  slots ← Slot.Mul SlotsPerEpoch EpochsPerEth1VotingPeriod;
  m ← Slot.ModSlot slot slots;
  match StartTime (i64 genesis * Second) (slot -64 m) with
  | Ok start => Ok (u64 (timeUnix start))
  | Err _ => Ok MaxUint64
  | Panic => Panic
  | OutOfFuel => OutOfFuel
  end.

Definition SinceSlotStart (s genesis timestamp : Z) : gores Z :=
  limit ← StartTime genesis s;
  if timestamp <? limit then Err errMessage else Ok (timeSub timestamp limit).

Definition AttestationDueAt (slot : Z) : gores Z :=
  d ← SlotDurationAt slot; e ← ToEpoch slot; Ok (AttestationDue d e).
Definition AggregationDueAt (slot : Z) : gores Z :=
  d ← SlotDurationAt slot; e ← ToEpoch slot; Ok (AggregationDue d e).
Definition SyncMessageDueAt (slot : Z) : gores Z :=
  d ← SlotDurationAt slot; e ← ToEpoch slot; Ok (SyncMessageDue d e).
Definition ContributionDueAt (slot : Z) : gores Z :=
  d ← SlotDurationAt slot; e ← ToEpoch slot; Ok (ContributionDue d e).

Definition WithinVotingWindow (genesis slot now : Z) : gores bool :=
  start ← UnsafeStartTime genesis slot;
  due ← AttestationDueAt slot;
  Ok (timeSub now start <? due).

(** [now1] is read by [CurrentSlot], [now2] by [time.Now().Unix()]. *)
Definition SecondsUntilNextEpochStart (genesis now1 now2 : Z) : gores Z :=
  currentSlot ← CurrentSlot genesis now1;
  e ← ToEpoch currentSlot;
  firstSlotOfNextEpoch ← EpochStart (e +64 1);
  nextEpochStartTime ← StartTime genesis firstSlotOfNextEpoch;
  _ ← IsEpochStart currentSlot;
  Ok (u64 (timeUnix nextEpochStartTime - timeUnix now2)).

(** ** The exact mapping

    Unbounded-integer description of the schedule, from segment [s], which
    begins [off] nanoseconds after genesis, through the later segments [rest]. *)
Definition dur (s : SlotTimeSegment) : Z := DurationMillis s * Millisecond.

Definition next_off (off : Z) (s s' : SlotTimeSegment) : Z :=
  off + (StartSlot s' - StartSlot s) * dur s.

Fixpoint start_from (off : Z) (s : SlotTimeSegment) (rest : list SlotTimeSegment)
    (slot : Z) : Z :=
  match rest with
  | [] => off + (slot - StartSlot s) * dur s
  | s' :: rest' =>
      if slot >=? StartSlot s' then start_from (next_off off s s') s' rest' slot
      else off + (slot - StartSlot s) * dur s
  end.

Fixpoint dur_from (s : SlotTimeSegment) (rest : list SlotTimeSegment) (slot : Z) : Z :=
  match rest with
  | [] => dur s
  | s' :: rest' => if slot >=? StartSlot s' then dur_from s' rest' slot else dur s
  end.

Fixpoint at_from (off : Z) (s : SlotTimeSegment) (rest : list SlotTimeSegment)
    (e : Z) : Z :=
  match rest with
  | [] => StartSlot s + (e - off) / dur s
  | s' :: rest' =>
      if e >=? next_off off s s' then at_from (next_off off s s') s' rest' e
      else StartSlot s + (e - off) / dur s
  end.

(** Segments ascend, durations are positive, and every boundary is
    representable as an [int64] offset from genesis. *)
Fixpoint fits (off : Z) (s : SlotTimeSegment) (rest : list SlotTimeSegment) : Prop :=
  0 < DurationMillis s ∧ dur s ≤ MaxInt64 ∧ 0 ≤ StartSlot s < two64 ∧
  0 ≤ off ≤ MaxInt64 ∧
  match rest with
  | [] => True
  | s' :: rest' => StartSlot s < StartSlot s' ∧ fits (next_off off s s') s' rest'
  end.

#[export] Instance fits_dec off s rest : Decision (fits off s rest).
Proof. revert off s. induction rest; intros off s; simpl; apply _. Defined.

Definition schedule_ok : Prop :=
  match SlotTimeSchedule with [] => False | s :: rest => fits 0 s rest end.
#[export] Instance schedule_ok_dec : Decision schedule_ok.
Proof. unfold schedule_ok. destruct SlotTimeSchedule; apply _. Defined.

(** Nanoseconds from genesis to the start of a slot. *)
Definition slot_offset (slot : Z) : Z :=
  match SlotTimeSchedule with [] => 0 | s :: rest => start_from 0 s rest slot end.

(** ** Facts on the exact mapping *)

Lemma fits_head off s rest : fits off s rest →
  0 < dur s ≤ MaxInt64 ∧ 0 ≤ StartSlot s < two64 ∧ 0 ≤ off ≤ MaxInt64.
Proof. destruct rest; simpl; unfold dur; intros (? & ? & ? & ? & _); lia. Qed.

Lemma start_from_step off s rest slot :
  fits off s rest →
  start_from off s rest (slot + 1) = start_from off s rest slot + dur_from s rest slot.
Proof.
  revert off s. induction rest as [|s' rest IH]; intros off s Hf; simpl; [lia|].
  destruct Hf as (_ & _ & _ & _ & Hlt & Hf).
  destruct (Z.geb_spec slot (StartSlot s')).
  - destruct (Z.geb_spec (slot + 1) (StartSlot s')); [|lia]. by apply IH.
  - destruct (Z.geb_spec (slot + 1) (StartSlot s')); [|lia..].
    assert (slot + 1 = StartSlot s') as Heq by lia. rewrite Heq.
    assert (Hs : ∀ off s rest, fits off s rest → start_from off s rest (StartSlot s) = off).
    { clear. intros off s [|s' rest] Hf; simpl; [lia|].
      destruct Hf as (_ & _ & _ & _ & ? & _).
      destruct (Z.geb_spec (StartSlot s) (StartSlot s')); lia. }
    rewrite Hs by done. unfold next_off. nia.
Qed.

Lemma dur_from_pos off s rest slot : fits off s rest → 0 < dur_from s rest slot ≤ MaxInt64.
Proof.
  revert off s. induction rest as [|s' rest IH]; intros off s Hf; simpl.
  - by destruct (fits_head _ _ _ Hf).
  - pose proof (fits_head _ _ _ Hf). destruct Hf as (_ & _ & _ & _ & _ & Hf).
    destruct (slot >=? StartSlot s'); [by eapply IH|lia].
Qed.

Lemma start_from_lower off s rest slot :
  fits off s rest → StartSlot s ≤ slot → off ≤ start_from off s rest slot.
Proof.
  revert off s. induction rest as [|s' rest IH]; intros off s Hf Hle; simpl.
  - pose proof (fits_head _ _ _ Hf). nia.
  - pose proof (fits_head _ _ _ Hf). destruct Hf as (_ & _ & _ & _ & Hlt & Hf).
    destruct (Z.geb_spec slot (StartSlot s')); [|nia].
    etrans; [|by apply IH]. unfold next_off. nia.
Qed.

Lemma start_from_mono off s rest a b :
  fits off s rest → StartSlot s ≤ a → a ≤ b →
  start_from off s rest a + (b - a) ≤ start_from off s rest b.
Proof.
  intros Hf Ha Hab. replace b with (a + Z.of_nat (Z.to_nat (b - a))) by lia.
  induction (Z.to_nat (b - a)) as [|n IH].
  { rewrite Z.add_0_r. lia. }
  rewrite Nat2Z.inj_succ.
  replace (a + Z.succ (Z.of_nat n)) with (a + Z.of_nat n + 1) by lia.
  rewrite start_from_step by done.
  pose proof (dur_from_pos off s rest (a + Z.of_nat n) Hf). lia.
Qed.

(** [at_from] inverts [start_from]. *)
Lemma at_from_spec off s rest e :
  fits off s rest → off ≤ e →
  StartSlot s ≤ at_from off s rest e ∧
  start_from off s rest (at_from off s rest e) ≤ e <
    start_from off s rest (at_from off s rest e) + dur_from s rest (at_from off s rest e).
Proof.
  assert (Hlast : ∀ off s e, 0 < dur s → off ≤ e →
    StartSlot s ≤ StartSlot s + (e - off) / dur s ∧
    off + (StartSlot s + (e - off) / dur s - StartSlot s) * dur s ≤ e <
    off + (StartSlot s + (e - off) / dur s - StartSlot s) * dur s + dur s).
  { clear. intros off s e Hd He.
    pose proof (Z.div_pos (e - off) (dur s) ltac:(lia) Hd).
    pose proof (Z.div_mod (e - off) (dur s) ltac:(lia)).
    pose proof (Z.mod_pos_bound (e - off) (dur s) Hd). split; nia. }
  revert off s. induction rest as [|s' rest IH]; intros off s Hf He; simpl.
  - apply Hlast; [|done]. pose proof (fits_head _ _ _ Hf). lia.
  - pose proof (fits_head _ _ _ Hf). destruct Hf as (_ & _ & _ & _ & Hlt & Hf).
    destruct (Z.geb_spec e (next_off off s s')).
    + destruct (IH (next_off off s s') s' Hf) as [Hge Hin]; [lia|].
      destruct (Z.geb_spec (at_from (next_off off s s') s' rest e) (StartSlot s')); [|lia].
      split; [lia|done].
    + destruct (Hlast off s e) as [Hge Hin]; [lia..|].
      unfold next_off in *.
      destruct (Z.geb_spec (StartSlot s + (e - off) / dur s) (StartSlot s')); [nia|].
      split; [lia|done].
Qed.

Lemma at_from_unique off s rest e slot :
  fits off s rest → off ≤ e → StartSlot s ≤ slot →
  start_from off s rest slot ≤ e < start_from off s rest slot + dur_from s rest slot →
  at_from off s rest e = slot.
Proof.
  intros Hf He Hs Hin. destruct (at_from_spec off s rest e Hf He) as [Hge Hat].
  set (a := at_from off s rest e) in *.
  destruct (Z.lt_trichotomy a slot) as [Hlt|[Heq|Hgt]]; [|done|].
  - pose proof (start_from_mono off s rest (a + 1) slot Hf ltac:(lia) ltac:(lia)).
    rewrite start_from_step in H by done. lia.
  - pose proof (start_from_mono off s rest (slot + 1) a Hf ltac:(lia) ltac:(lia)).
    rewrite start_from_step in H by done. lia.
Qed.

(** ** The code computes the exact mapping *)

Lemma lastIdx_none {A} (p : nat → A → bool) i idx xs :
  (∀ k x, xs !! k = Some x → p (i + k)%nat x = false) → lastIdx p i idx xs = idx.
Proof.
  revert i idx. induction xs as [|x xs IH]; intros i idx Hp; simpl; [done|].
  rewrite <- (Nat.add_0_r i) at 2. rewrite (Hp 0%nat x) by done.
  apply IH. intros k y Hy. replace (S i + k)%nat with (i + S k)%nat by lia. by apply Hp.
Qed.

Lemma segDuration_dur s : 0 < DurationMillis s → dur s ≤ MaxInt64 → segDuration s = dur s.
Proof.
  unfold segDuration, mulDuration, toDuration, dur. intros ??.
  rewrite (i64_small (DurationMillis s)) by (unfold is_i64; lia).
  by rewrite i64_small by (unfold is_i64; lia).
Qed.

Lemma next_off_code off s s' rest :
  fits off s (s' :: rest) →
  i64 (off + mulDuration (mulDuration (toDuration (StartSlot s' -64 StartSlot s))
                            (toDuration (DurationMillis s))) Millisecond)
  = next_off off s s'.
Proof.
  intros (Hd & Hdm & Hs & Ho & Hlt & Hf). apply fits_head in Hf as (_ & Hs' & Ho').
  unfold next_off, dur, mulDuration, toDuration in *.
  rewrite u64_small by (unfold is_u64; lia).
  set (span := StartSlot s' - StartSlot s) in *.
  assert (0 < span * DurationMillis s * 1000000 ≤ MaxInt64) by nia.
  assert (span ≤ span * DurationMillis s) by nia.
  rewrite (i64_small span), (i64_small (DurationMillis s)),
    (i64_small (span * DurationMillis s)) by (unfold is_i64; nia).
  rewrite (i64_small (_ * _ * _)) by (unfold is_i64; lia).
  rewrite i64_small by (unfold is_i64; lia). lia.
Qed.

Lemma fits_above off s rest k x :
  fits off s rest → rest !! k = Some x → StartSlot s < StartSlot x.
Proof.
  revert off s k. induction rest as [|s' rest IH]; intros off s [|k] Hf Hk; try done;
    destruct Hf as (_ & _ & _ & _ & Hlt & Hf); simpl in Hk; simplify_eq; [done|].
  specialize (IH _ _ _ Hf Hk). lia.
Qed.

(** [sk], [offk]: the segment a slot lies in and where it begins. *)
Definition located (s : SlotTimeSegment) (rest : list SlotTimeSegment) (off : Z)
    (k : nat) (sk : SlotTimeSegment) (offk : Z) : Prop :=
  (s :: rest) !! k = Some sk ∧ offsetsFrom off s rest !! k = Some offk ∧
  0 < DurationMillis sk ∧ dur sk ≤ MaxInt64 ∧ 0 ≤ StartSlot sk < two64 ∧
  0 ≤ offk ≤ MaxInt64.

Lemma located_here s rest off : fits off s rest → located s rest off 0 s off.
Proof.
  intros Hf. unfold located. destruct rest; simpl in *;
    destruct Hf as (? & ? & ? & ? & _); split_and!; try done; lia.
Qed.

Lemma located_there s s' rest off k sk offk :
  fits off s (s' :: rest) → located s' rest (next_off off s s') k sk offk →
  located s (s' :: rest) off (S k) sk offk.
Proof.
  intros Hf (Hk & Ho & H). unfold located. simpl.
  rewrite (next_off_code off s s' rest) by done. split_and!; try done; apply H.
Qed.

Lemma locate_slot off s rest slot i :
  fits off s rest → StartSlot s ≤ slot →
  ∃ k sk offk, lastIdx (λ _ s, slot >=? StartSlot s) (S i) i rest = (i + k)%nat ∧
    located s rest off k sk offk ∧ StartSlot sk ≤ slot ∧
    start_from off s rest slot = offk + (slot - StartSlot sk) * dur sk ∧
    dur_from s rest slot = dur sk.
Proof.
  revert off s i. induction rest as [|s' rest IH]; intros off s i Hf Hle.
  { exists 0%nat, s, off. split_and!; try done; try (simpl; lia). by apply located_here. }
  pose proof Hf as (_ & _ & _ & _ & Hlt & Hf'). simpl.
  destruct (Z.geb_spec slot (StartSlot s')) as [Hge|Hlt'].
  - destruct (IH (next_off off s s') s' (S i) Hf' ltac:(lia))
      as (k & sk & offk & Hidx & Hloc & Hrest).
    exists (S k), sk, offk. split_and!; [rewrite Hidx; lia|by apply located_there|apply Hrest..].
  - exists 0%nat, s, off. split_and!; try done; try (by apply located_here).
    rewrite Nat.add_0_r. apply lastIdx_none. intros k x Hx.
    pose proof (fits_above _ _ _ _ _ Hf' Hx). destruct (Z.geb_spec slot (StartSlot x)); [lia|done].
Qed.

Lemma offsets_above off s rest k x :
  fits off s rest → offsetsFrom off s rest !! k = Some x → off ≤ x.
Proof.
  revert off s k. induction rest as [|s' rest IH]; intros off s [|k] Hf Hk;
    simpl in Hk; simplify_eq; try lia.
  rewrite (next_off_code off s s' rest) in Hk by done.
  pose proof (fits_head _ _ _ Hf).
  destruct Hf as (_ & _ & _ & _ & Hlt & Hf). specialize (IH _ _ _ Hf Hk).
  unfold next_off in IH. nia.
Qed.

Lemma offsetsFrom_head off s rest : ∃ l, offsetsFrom off s rest = off :: l.
Proof. destruct rest; simpl; eauto. Qed.

Lemma locate_time off s rest e i :
  fits off s rest → off ≤ e →
  ∃ k sk offk, lastIdx (λ _ o, e >=? o) i i (offsetsFrom off s rest) = (i + k)%nat ∧
    located s rest off k sk offk ∧ offk ≤ e ∧
    at_from off s rest e = StartSlot sk + (e - offk) / dur sk.
Proof.
  revert off s i. induction rest as [|s' rest IH]; intros off s i Hf Hle.
  { exists 0%nat, s, off. simpl. destruct (Z.geb_spec e off); [|lia].
    split_and!; try done; try lia. by apply (located_here s [] off). }
  pose proof Hf as (_ & _ & _ & _ & Hlt & Hf'). simpl.
  rewrite (next_off_code off s s' rest) by done.
  destruct (Z.geb_spec e off); [|lia].
  destruct (Z.geb_spec e (next_off off s s')) as [Hge|Hlt'].
  - destruct (IH (next_off off s s') s' (S i) Hf' ltac:(lia))
      as (k & sk & offk & Hidx & Hloc & Hrest).
    exists (S k), sk, offk.
    split_and!; [|by apply located_there|apply Hrest..].
    destruct (offsetsFrom_head (next_off off s s') s' rest) as [l Hl].
    rewrite Hl in Hidx |- *. simpl in *.
    destruct (Z.geb_spec e (next_off off s s')); [|lia]. rewrite Hidx. lia.
  - exists 0%nat, s, off. split_and!; try done; try (by apply located_here).
    rewrite Nat.add_0_r. apply lastIdx_none. intros k x Hx.
    pose proof (offsets_above _ _ _ _ _ Hf' Hx). destruct (Z.geb_spec e x); [lia|done].
Qed.

Lemma schedule_head : ∃ rest,
  SlotTimeSchedule = {| StartSlot := 0; DurationMillis := SlotDurationMillis |} :: rest.
Proof.
  destruct schedule_cases as [->|[(s1 & -> & _)|(s1 & s2 & -> & _)]]; eauto.
Qed.

(** [StartTime], whenever the slot begins within [int64] nanoseconds of genesis. *)
Lemma StartTime_exact genesis slot :
  schedule_ok → 0 ≤ slot → slot_offset slot ≤ MaxInt64 →
  StartTime genesis slot = Ok (genesis + slot_offset slot).
Proof.
  unfold schedule_ok, slot_offset, StartTime, segmentOffsets.
  destruct schedule_head as [rest ->]. set (s0 := {| StartSlot := 0; DurationMillis := _ |}).
  intros Hf Hs Hmax. simpl. destruct (Z.geb_spec slot 0); [|lia].
  destruct (locate_slot 0 s0 rest slot 0 Hf) as
    (k & sk & offk & -> & (Hk & Ho & Hd & Hdm & Hss & Hoff) & Hle & Heq & _); [simpl; lia|].
  rewrite Nat.add_0_l, Hk, Ho. rewrite Heq in Hmax |- *. unfold dur in *.
  rewrite u64_small by (unfold is_u64; nia).
  unfold Slot.SafeMul. rewrite Mul64_cases by (unfold is_u64; nia).
  destruct (Z.ltb_spec ((slot - StartSlot sk) * DurationMillis sk) two64); [|nia].
  simpl. unfold mulDuration, toDuration.
  rewrite (i64_small ((slot - StartSlot sk) * DurationMillis sk)) by (unfold is_i64; nia).
  rewrite (i64_small (_ * _ * _)) by (unfold is_i64; nia).
  rewrite i64_small by (unfold is_i64; nia). f_equal. lia.
Qed.

Definition elapsed_slot (e : Z) : Z :=
  match SlotTimeSchedule with [] => 0 | s :: rest => at_from 0 s rest e end.

(** [At], for instants within [int64] nanoseconds of genesis. *)
Lemma At_exact genesis tm :
  schedule_ok → genesis ≤ tm ≤ genesis + MaxInt64 →
  At genesis tm = Ok (u64 (elapsed_slot (tm - genesis))).
Proof.
  unfold schedule_ok, elapsed_slot, At, segmentOffsets.
  destruct schedule_head as [rest ->]. set (s0 := {| StartSlot := 0; DurationMillis := _ |}).
  intros Hf Htm. destruct (Z.ltb_spec tm genesis); [lia|].
  assert (timeSub tm genesis = tm - genesis) as -> by (unfold timeSub; lia).
  destruct (locate_time 0 s0 rest (tm - genesis) 0 Hf) as
    (k & sk & offk & -> & (Hk & Ho & Hd & Hdm & Hss & Hoff) & Hle & Heq); [lia|].
  rewrite Nat.add_0_l, Hk, Ho, Heq, segDuration_dur by done. unfold dur in *.
  destruct (Z.eqb_spec (DurationMillis sk * 1000000) 0); [lia|].
  rewrite i64_small by (unfold is_i64; lia).
  rewrite Z.quot_div_nonneg by lia. by rewrite u64_add_r.
Qed.

Lemma SlotDurationAt_exact slot :
  schedule_ok → 0 ≤ slot →
  SlotDurationAt slot =
    Ok (match SlotTimeSchedule with [] => 0 | s :: rest => dur_from s rest slot end).
Proof.
  unfold schedule_ok, SlotDurationAt.
  destruct schedule_head as [rest ->]. set (s0 := {| StartSlot := 0; DurationMillis := _ |}).
  intros Hf Hs. f_equal. simpl. destruct (Z.geb_spec slot 0); [|lia]. clear H.
  assert (Hle : StartSlot s0 ≤ slot) by (simpl; lia).
  revert Hf Hle. generalize 0 at 1. generalize s0. clear s0 Hs.
  induction rest as [|s' rest IH]; intros s off Hf Hle; cbn [foldl dur_from].
  { destruct Hf as (? & ? & _). by apply segDuration_dur. }
  pose proof Hf as (? & ? & _ & _ & Hlt & Hf').
  destruct (Z.geb_spec slot (StartSlot s')); [by eapply IH|].
  rewrite <- segDuration_dur by done.
  assert (Hab : ∀ k x, rest !! k = Some x → slot < StartSlot x).
  { intros k x Hx. pose proof (fits_above _ _ _ _ _ Hf' Hx). lia. }
  clear -Hab. induction rest as [|x rest IH]; [done|]. cbn [foldl].
  assert (slot < StartSlot x) by (by apply (Hab 0%nat)).
  destruct (Z.geb_spec slot (StartSlot x)); [lia|].
  apply IH. intros k y Hy. by apply (Hab (S k)).
Qed.

(** Each slot starts the duration of its predecessor after it. *)
Lemma slot_offset_step slot :
  schedule_ok → 0 ≤ slot →
  slot_offset (slot + 1) = slot_offset slot + match SlotDurationAt slot with Ok d => d | _ => 0 end.
Proof.
  intros Hok Hs. rewrite SlotDurationAt_exact by done. unfold schedule_ok, slot_offset in *.
  destruct SlotTimeSchedule; [done|]. by apply start_from_step.
Qed.

(** A slot lasts a positive number of whole milliseconds. *)
Lemma SlotDurationAt_millis slot d :
  schedule_ok → 0 ≤ slot → SlotDurationAt slot = Ok d → 0 < d ∧ d mod Millisecond = 0.
Proof.
  intros Hok Hs. rewrite SlotDurationAt_exact by done. intros [= <-]. unfold schedule_ok in Hok.
  destruct SlotTimeSchedule as [|s rest]; [done|]. split; [by eapply dur_from_pos|].
  clear Hok. revert s. induction rest as [|s' rest IH]; intros s; simpl; [by apply Z.mod_mul|].
  destruct (_ >=? _); [apply IH|by apply Z.mod_mul].
Qed.

Lemma EpochStart_nonneg e start : EpochStart e = Ok start → 0 ≤ start.
Proof.
  unfold EpochStart, Slot.SafeMul, Mul64, bits_Mul64. repeat case_match; intros; simplify_eq; try done.
  all: eapply u64_range.
Qed.
End slottime.

(** ** Theorems *)

Section slottime_theorems.
Context `{cfg : BeaconChainConfig}.

(** Slots tile the time line.  Slot 0 starts at genesis and each slot starts
    exactly one slot duration of the schedule after its predecessor, for every
    slot that starts within the [int64] nanosecond range. *)
Theorem StartTime_tiles genesis slot :
  schedule_ok → 0 ≤ slot → slot_offset (slot + 1) ≤ MaxInt64 →
  StartTime genesis 0 = Ok genesis ∧
  ∃ st d, StartTime genesis slot = Ok st ∧ SlotDurationAt slot = Ok d ∧
          StartTime genesis (slot + 1) = Ok (st + d) ∧ 0 < d.
Proof.
  intros Hok Hs Hmax. pose proof Hok as Hf. unfold schedule_ok in Hf.
  rewrite SlotDurationAt_exact by done.
  assert (Hsteps : slot_offset 0 = 0 ∧ slot_offset (slot + 1) = slot_offset slot +
    (match SlotTimeSchedule with [] => 0 | s :: rest => dur_from s rest slot end) ∧
    0 < (match SlotTimeSchedule with [] => 0 | s :: rest => dur_from s rest slot end)).
  { unfold slot_offset. destruct schedule_head as [rest Heq]. rewrite Heq in *.
    split_and!; [|by apply start_from_step|by eapply dur_from_pos].
    destruct rest as [|s' rest]; simpl; [lia|].
    destruct Hf as (_ & _ & _ & _ & Hlt & _). simpl in Hlt.
    destruct (Z.geb_spec 0 (StartSlot s')); [lia|lia]. }
  destruct Hsteps as (H0 & H1 & Hpos).
  split.
  { rewrite StartTime_exact by (done || lia). rewrite H0. f_equal. lia. }
  eexists _, _. rewrite !StartTime_exact by (done || lia). split_and!; try done.
  f_equal. lia.
Qed.

(** C40: [At] is the inverse of [StartTime].  For every instant from genesis on
    (within the [int64] range) it returns the one slot whose start is at or
    before the instant and whose end is after it: no instant falls in a gap or
    in two slots, also across a scheduled change of the slot duration. *)
Theorem At_StartTime_inverse genesis tm slot :
  schedule_ok → genesis ≤ tm ≤ genesis + MaxInt64 → is_u64 slot →
  slot_offset slot ≤ MaxInt64 →
  (At genesis tm = Ok slot ↔
   ∃ st d, StartTime genesis slot = Ok st ∧ SlotDurationAt slot = Ok d ∧ st ≤ tm < st + d).
Proof.
  intros Hok Htm Hs Hmax. pose proof Hok as Hf. unfold schedule_ok in Hf.
  unfold is_u64 in Hs.
  rewrite At_exact, StartTime_exact, SlotDurationAt_exact by (done || lia).
  unfold elapsed_slot, slot_offset in *. destruct schedule_head as [rest Heq].
  rewrite Heq in *. set (s0 := {| StartSlot := 0; DurationMillis := _ |}) in *.
  destruct (at_from_spec 0 s0 rest (tm - genesis) Hf ltac:(lia)) as [Hge Hin].
  pose proof (start_from_mono 0 s0 rest (StartSlot s0) _ Hf ltac:(lia) Hge) as Hmono.
  pose proof (start_from_lower 0 s0 rest (StartSlot s0) Hf ltac:(lia)) as Hlow.
  simpl in Hge, Hmono, Hlow.
  rewrite u64_small by (unfold is_u64; lia). split.
  - intros [= <-]. eexists _, _. split_and!; [done..|lia|lia].
  - intros (st & d & [= <-] & [= <-] & Hr). f_equal.
    apply at_from_unique; try done; simpl; lia.
Qed.

(** [At] is total on such instants: it always returns a slot, and never a
    slot that starts after the instant. *)
Theorem At_total genesis tm :
  schedule_ok → genesis ≤ tm ≤ genesis + MaxInt64 →
  ∃ slot st d, At genesis tm = Ok slot ∧ is_u64 slot ∧
    StartTime genesis slot = Ok st ∧ SlotDurationAt slot = Ok d ∧ st ≤ tm < st + d.
Proof.
  intros Hok Htm. pose proof Hok as Hf. unfold schedule_ok in Hf.
  rewrite At_exact by (done || lia). unfold elapsed_slot.
  destruct schedule_head as [rest Heq].
  set (s0 := {| StartSlot := 0; DurationMillis := _ |}) in *.
  rewrite Heq in Hf |- *.
  destruct (at_from_spec 0 s0 rest (tm - genesis) Hf ltac:(lia)) as [Hge Hin].
  pose proof (start_from_mono 0 s0 rest (StartSlot s0) _ Hf ltac:(lia) Hge) as Hmono.
  pose proof (start_from_lower 0 s0 rest (StartSlot s0) Hf ltac:(lia)) as Hlow.
  simpl in Hge, Hmono, Hlow.
  rewrite u64_small by (unfold is_u64; lia).
  set (slot := at_from 0 s0 rest (tm - genesis)) in *.
  exists slot, (genesis + slot_offset slot), (dur_from s0 rest slot).
  rewrite StartTime_exact; [|done|lia|unfold slot_offset; rewrite Heq; lia].
  rewrite SlotDurationAt_exact by (done || lia). unfold slot_offset. rewrite Heq.
  split_and!; try done; try lia. unfold is_u64; lia.
Qed.

(** The loop of [ValidateDutyOffsets]. *)
Lemma forall_ok_Ok {A} (xs : list A) f x : forall_ok xs f = Ok tt → x ∈ xs → f x = Ok tt.
Proof.
  induction xs as [|y xs IH]; simpl; intros H Hin; [by apply elem_of_nil in Hin|].
  apply bind_Ok_inv in H as ([] & Hy & Hxs).
  apply elem_of_cons in Hin as [->|Hin]; [done|by apply IH].
Qed.

Lemma dutyOffsetsOk_Ok seg epoch : dutyOffsetsOk seg epoch = Ok tt →
  AttestationDue (segDuration seg) epoch < AggregationDue (segDuration seg) epoch ∧
  AggregationDue (segDuration seg) epoch < segDuration seg.
Proof.
  unfold dutyOffsetsOk. fold (segDuration seg).
  repeat (case_match; [done|]). intros _. rewrite Z.geb_leb, Z.leb_gt in *. lia.
Qed.

(** Duties depend on the epoch only through the side of the Gloas fork it is on. *)
Lemma duty_epoch_rep d e :
  (∀ e', (e >=? GloasForkEpoch) = (e' >=? GloasForkEpoch) →
   AttestationDue d e = AttestationDue d e' ∧ AggregationDue d e = AggregationDue d e').
Proof. intros e' He. unfold AttestationDue, AggregationDue, dutyDue. by rewrite He. Qed.

Lemma SlotDurationAt_seg slot d : SlotDurationAt slot = Ok d →
  ∃ seg, seg ∈ SlotTimeSchedule ∧ d = segDuration seg.
Proof.
  unfold SlotDurationAt. destruct SlotTimeSchedule as [|s0 rest] eqn:Heq; [done|].
  intros [= <-].
  assert (Hgen : ∀ l a, a ∈ s0 :: rest → (∀ x, x ∈ l → x ∈ s0 :: rest) → ∃ seg,
    seg ∈ s0 :: rest ∧
    foldl (λ d s, if slot >=? StartSlot s then segDuration s else d) (segDuration a) l
      = segDuration seg).
  { induction l as [|x l IH]; intros a Ha Hl; simpl; [by exists a|].
    destruct (slot >=? StartSlot x); (apply IH;
      [try done; apply Hl; left | intros y Hy; apply Hl; by right]). }
  apply (Hgen (s0 :: rest) s0); set_solver.
Qed.

(** A configuration that [ValidateDutyOffsets] accepts with an override set
    keeps the intra-slot order everywhere: in every slot of the schedule (short
    or long, before or after Gloas) attestations are due before aggregates and
    aggregates before the slot ends. *)
Theorem ValidateDutyOffsets_sound slot epoch d att agg :
  ValidateDutyOffsets = Ok tt →
  AttestationOffsetMs ≠ 0 ∨ AggregationOffsetMs ≠ 0 →
  is_u64 GloasForkEpoch →
  ToEpoch slot = Ok epoch → is_u64 epoch → epoch < FarFutureEpoch →
  SlotDurationAt slot = Ok d →
  AttestationDueAt slot = Ok att → AggregationDueAt slot = Ok agg →
  att < agg < d.
Proof.
  intros Hval Hset Hg Hep Hu Hfar Hd Hatt Hagg.
  unfold AttestationDueAt in Hatt. unfold AggregationDueAt in Hagg.
  rewrite Hd, Hep in Hatt, Hagg. simpl in Hatt, Hagg. simplify_eq.
  destruct (SlotDurationAt_seg _ _ Hd) as (seg & Hseg & ->).
  unfold ValidateDutyOffsets in Hval.
  assert ((AttestationOffsetMs =? 0) && (AggregationOffsetMs =? 0) = false) as Hb.
  { apply andb_false_iff. rewrite !Z.eqb_neq. tauto. }
  rewrite Hb in Hval. apply (forall_ok_Ok _ _ seg) in Hval; [|done].
  assert (Hrep : ∃ e', dutyOffsetsOk seg e' = Ok tt ∧
    (epoch >=? GloasForkEpoch) = (e' >=? GloasForkEpoch)).
  { destruct (Z.geb_spec epoch GloasForkEpoch) as [Hge|Hlt].
    - destruct (decide (GloasForkEpoch = 0)) as [Hz|Hnz].
      + exists 0. split; [by apply (forall_ok_Ok _ _ 0) in Hval; [|left]|].
        by rewrite Hz.
      + exists GloasForkEpoch. split; [|by rewrite Z.geb_leb, Z.leb_refl].
        apply (forall_ok_Ok _ _ GloasForkEpoch) in Hval; [done|].
        unfold is_u64 in *.
        destruct (Z.eqb_spec GloasForkEpoch FarFutureEpoch); [lia|].
        destruct (Z.gtb_spec GloasForkEpoch 0); [|lia]. right. left.
    - exists 0. split; [by apply (forall_ok_Ok _ _ 0) in Hval; [|left]|].
      unfold is_u64 in *. symmetry. rewrite Z.geb_leb. apply Z.leb_gt. lia. }
  destruct Hrep as (e' & Hok & He').
  destruct (duty_epoch_rep (segDuration seg) epoch e' He') as [-> ->].
  apply dutyOffsetsOk_Ok in Hok. lia.
Qed.

(** Epochs partition the slots.  For a positive [SlotsPerEpoch], a slot
    belongs to epoch [e] exactly when it lies between [EpochStart e] and
    [EpochEnd e]; both succeed up to [MaxSafeEpoch], and [EpochStart] reports
    an overflow instead of wrapping beyond the range. *)
Theorem epoch_partition slot e :
  0 < SlotsPerEpoch < two64 → is_u64 slot → is_u64 e →
  (∀ me, MaxSafeEpoch = Ok me → e ≤ me →
   ∃ lo hi, EpochStart e = Ok lo ∧ EpochEnd e = Ok hi ∧
            (ToEpoch slot = Ok e ↔ lo ≤ slot ≤ hi)) ∧
  (EpochStart e = if SlotsPerEpoch * e <? two64 then Ok (SlotsPerEpoch * e)
                  else Err errSlotOverflow).
Proof.
  unfold is_u64. intros Hn Hs He.
  assert (Hst : ∀ e, 0 ≤ e < two64 → EpochStart e =
    if SlotsPerEpoch * e <? two64 then Ok (SlotsPerEpoch * e) else Err errSlotOverflow).
  { intros e' He'. unfold EpochStart, Slot.SafeMul.
    rewrite Mul64_cases by (unfold is_u64; lia). by destruct (_ <? _). }
  split; [|by apply Hst]. intros me. unfold MaxSafeEpoch.
  destruct (Z.eqb_spec SlotsPerEpoch 0); [lia|]. intros [= <-] Hle.
  assert (Hn0 : 0 < SlotsPerEpoch) by lia.
  pose proof (Z.mul_div_le MaxUint64 SlotsPerEpoch Hn0).
  assert (1 ≤ MaxUint64 / SlotsPerEpoch) by (apply Z.div_le_lower_bound; lia).
  assert (MaxUint64 / SlotsPerEpoch ≤ MaxUint64) by (apply Z.div_le_upper_bound; nia).
  rewrite u64_small in Hle by (unfold is_u64; lia).
  assert (SlotsPerEpoch * (e + 1) ≤ MaxUint64) by nia.
  exists (SlotsPerEpoch * e), (SlotsPerEpoch * (e + 1) - 1).
  unfold EpochEnd. destruct (Z.eqb_spec e MaxUint64); [nia|].
  rewrite (u64_small (e + 1)) by (unfold is_u64; nia).
  rewrite !Hst by nia.
  destruct (Z.ltb_spec (SlotsPerEpoch * e) two64); [|nia].
  destruct (Z.ltb_spec (SlotsPerEpoch * (e + 1)) two64); [|nia]. simpl.
  rewrite u64_small by (unfold is_u64; nia).
  split_and!; try done.
  unfold ToEpoch, Slot.DivSlot, Slot.Div, Slot.SafeDiv. rewrite Div64_cases.
  destruct (Z.eqb_spec SlotsPerEpoch 0); [lia|]. simpl.
  assert (Hn1 : SlotsPerEpoch ≠ 0) by lia.
  pose proof (Z.div_mod slot SlotsPerEpoch Hn1).
  pose proof (Z.mod_pos_bound slot SlotsPerEpoch Hn0).
  split; [intros [= <-]; lia|]. intros Hr. f_equal. nia.
Qed.
End slottime_theorems.

(** A LightChain-style schedule: 12 s slots, 3 s from slot 100 on, 2 s from
    slot 200 on, with absolute duty offsets. *)
Definition lightchain_config : BeaconChainConfig := {|
  SlotsPerEpoch := 32; SecondsPerSlot := 12; SlotDurationMilliseconds := 12000;
  SlotTimeForkOneSlot := 100; SlotTimeForkOneMillis := 3000;
  SlotTimeForkTwoSlot := 200; SlotTimeForkTwoMillis := 2000;
  GenesisEpoch := 0; FarFutureEpoch := MaxUint64;
  EpochsPerEth1VotingPeriod := 64; EpochsPerSyncCommitteePeriod := 256;
  AltairForkEpoch := 0; BellatrixForkEpoch := 0; CapellaForkEpoch := 0;
  DenebForkEpoch := 0; ElectraForkEpoch := 0; FuluForkEpoch := 5;
  GloasForkEpoch := 20; ProposerScoreBoost := 40;
  ReorgHeadWeightThreshold := 20; ReorgParentWeightThreshold := 160;
  ReorgMaxEpochsSinceFinalization := 2;
  AttestationDueBPS := 3333; AggregateDueBPS := 6667; SyncMessageDueBPS := 3333;
  ContributionDueBPS := 6667; AttestationDueBPSGloas := 2500; AggregateDueBPSGloas := 5000;
  SyncMessageDueBPSGloas := 2500; ContributionDueBPSGloas := 5000;
  AttestationOffsetMs := 900; AggregationOffsetMs := 1500; ShuffleRoundCount := 90
|}.

Lemma StartTime_tiles_witness :
  let cfg := lightchain_config in
  StartTime 5 0 = Ok 5 ∧
  ∃ st d, StartTime 5 99 = Ok st ∧ SlotDurationAt 99 = Ok d ∧
          StartTime 5 (99 + 1) = Ok (st + d) ∧ 0 < d.
Proof.
  apply (StartTime_tiles (cfg := lightchain_config) 5 99);
    [by apply (@bool_decide_unpack _ (@schedule_ok_dec lightchain_config)); vm_compute | lia | by vm_compute].
Defined.

Lemma At_StartTime_inverse_witness :
  let cfg := lightchain_config in
  At 0 (1201 * Second) = Ok 100 ↔
  ∃ st d, StartTime 0 100 = Ok st ∧ SlotDurationAt 100 = Ok d ∧ st ≤ 1201 * Second < st + d.
Proof.
  apply (At_StartTime_inverse (cfg := lightchain_config) 0 (1201 * Second) 100);
    [by apply (@bool_decide_unpack _ (@schedule_ok_dec lightchain_config)); vm_compute | lia | unfold is_u64; lia | by vm_compute].
Defined.

Lemma At_total_witness :
  let cfg := lightchain_config in
  ∃ slot st d, At 0 (1503 * Second) = Ok slot ∧ is_u64 slot ∧
    StartTime 0 slot = Ok st ∧ SlotDurationAt slot = Ok d ∧ st ≤ 1503 * Second < st + d.
Proof.
  apply (At_total (cfg := lightchain_config) 0 (1503 * Second));
    [by apply (@bool_decide_unpack _ (@schedule_ok_dec lightchain_config)); vm_compute | lia].
Defined.

Lemma ValidateDutyOffsets_sound_witness : (900000000 < 1500000000 < 2000000000)%Z.
Proof.
  apply (ValidateDutyOffsets_sound (cfg := lightchain_config) 250 7);
    try (by vm_compute); try (by left); unfold is_u64; simpl; lia.
Defined.

Lemma epoch_partition_witness :
  let cfg := mainnet_config in
  ∃ lo hi, EpochStart 3 = Ok lo ∧ EpochEnd 3 = Ok hi ∧ (ToEpoch 100 = Ok 3 ↔ lo ≤ 100 ≤ hi).
Proof.
  destruct (epoch_partition (cfg := mainnet_config) 100 3) as [H _];
    [simpl; lia | unfold is_u64; lia | unfold is_u64; lia |].
  apply (H 576460752303423486); [by vm_compute | lia].
Defined.

(** Outside that range [StartTime] does not report an error, against its
    comment ("returns an error if the product of the slot duration * slot
    overflows int64"): the [uint64] product of milliseconds is checked, the
    [int64] product of nanoseconds wraps.  On mainnet, slot 2^30 "starts" more
    than a century before genesis. *)
Theorem StartTime_wraps_silently :
  let cfg := mainnet_config in
  ∃ st, StartTime 0 (2 ^ 30) = Ok st ∧ st < - 100 * 365 * 86400 * Second ∧
        slot_offset (2 ^ 30) = 2 ^ 30 * 12 * Second.
Proof. exists (-5561842185709551616). split_and!; by vm_compute. Qed.
