(* ===== verification/Shuffle.v ===== *)
(** * beacon-chain/core/helpers/shuffle.go: the swap-or-not shuffle

    The SHA-256 hasher (crypto/hash over a third-party implementation) is the
    parameter [hashfunc], from a byte string to the 32 bytes of the digest; a
    byte is a [Z].  [ComputeShuffledIndex] moves one index through the rounds,
    [innerShuffleList] swaps the elements of the whole list in place; the loops of
    both are modelled as written, the list's with its cached byte and digest. *)
From S2P Require Import Prelude Config.

Definition maxShuffleListSize : Z := Z.shiftl 1 40.

(** [binary.LittleEndian.PutUint32] and [PutUint64]: the bytes written. *)
Fixpoint le_bytes (k : nat) (x : Z) : list Z :=
  match k with O => [] | S k' => u8 x :: le_bytes k' (Z.shiftr x 8) end.

(** [binary.LittleEndian.Uint64] and [bytesutil.FromBytes8] *)
Fixpoint le_int (bs : list Z) : Z :=
  match bs with [] => 0 | b :: bs' => b + 256 * le_int bs' end.
Definition leUint64 (x : list Z) : Z := u64 (le_int (take 8 x)).
Definition FromBytes8 (x : list Z) : Z := if (length x <? 8)%nat then 0 else leUint64 x.

(** [slice.SplitOffset] *)
Definition SplitOffset (listSize chunks index : Z) : gores Z :=
  if chunks =? 0 then Panic else Ok ((listSize *64 index) / chunks).

(** [l[start:end]]: out-of-range or inverted bounds panic. *)
Definition subslice {A} (l : list A) (start end_ : Z) : gores (list A) :=
  if (start <=? end_) && (end_ <=? Z.of_nat (length l)) && (0 <=? start)
  then Ok (take (Z.to_nat (end_ - start)) (drop (Z.to_nat start) l)) else Panic.

Fixpoint SplitIndices_loop {A} (l : list A) (n : Z) (idxs : list nat) : gores (list (list A)) :=
  match idxs with
  | [] => Ok []
  | i :: idxs' =>
      start ← SplitOffset (Z.of_nat (length l)) n (Z.of_nat i);
      end_ ← SplitOffset (Z.of_nat (length l)) n (Z.of_nat i +64 1);
      piece ← subslice l start end_;
      divided ← SplitIndices_loop l n idxs';
      Ok (piece :: divided)
  end.
Definition SplitIndices {A} (l : list A) (n : Z) : gores (list (list A)) :=
  SplitIndices_loop l n (seq 0 (Z.to_nat n)).

Section shuffle.
Context `{cfg : BeaconChainConfig}.
Context (hashfunc : list Z → list Z).

(** [source[(position&0xff)>>3]] and [(byteV >> (position & 0x7)) & 0x1] *)
Definition byteAt (source : list Z) (position : Z) : Z :=
  nth (Z.to_nat (Z.shiftr (Z.land position 255) 3)) source 0.
Definition bitOf (byteV position : Z) : Z := Z.land (Z.shiftr byteV (Z.land position 7)) 1.

Definition pivotOf (seed : list Z) (round indexCount : Z) : Z :=
  FromBytes8 (take 8 (hashfunc (seed ++ [round]))) mod indexCount.

(** The body of the loop of [ComputeShuffledIndex] up to the update of [index]. *)
Definition shuffleRound (seed : list Z) (indexCount round index : Z) : Z :=
  let pivot := pivotOf seed round indexCount in
  let flip := ((pivot +64 indexCount) -64 index) mod indexCount in
  let position := Z.max flip index in
  let posBuffer := le_bytes 8 (Z.shiftr position 8) in
  let source := hashfunc (seed ++ [round] ++ take 4 posBuffer) in
  let byteV := byteAt source position in
  if bitOf byteV position =? 1 then flip else index.

Fixpoint roundLoop (fuel : nat) (seed : list Z) (indexCount : Z) (shuffle : bool)
    (rounds round index : Z) : gores Z :=
  match fuel with
  | O => OutOfFuel
  | S fuel' =>
      let index := shuffleRound seed indexCount round index in
      if shuffle then
        let round := u8 (round + 1) in
        if round =? rounds then Ok index
        else roundLoop fuel' seed indexCount shuffle rounds round index
      else if round =? 0 then Ok index
      else roundLoop fuel' seed indexCount shuffle rounds (u8 (round - 1)) index
  end.

(** A round counter is a byte: 256 rounds at most. *)
Definition round_fuel : nat := 256.

Definition ComputeShuffledIndex (index indexCount : Z) (seed : list Z) (shuffle : bool) : gores Z :=
  if ShuffleRoundCount =? 0 then Ok index
  else if index >=? indexCount then Err errMessage
  else if indexCount >? maxShuffleListSize then Err errMessage
  else
    let rounds := u8 ShuffleRoundCount in
    let round := if shuffle then 0 else u8 (rounds - 1) in
    roundLoop round_fuel seed indexCount shuffle rounds round index.

Definition ShuffledIndex (index indexCount : Z) (seed : list Z) : gores Z :=
  ComputeShuffledIndex index indexCount seed true.
Definition UnShuffledIndex (index indexCount : Z) (seed : list Z) : gores Z :=
  ComputeShuffledIndex index indexCount seed false.

(** ** The list *)

(** [input[i], input[j] = input[j], input[i]] *)
Definition swap (l : list Z) (i j : Z) : gores (list Z) :=
  match l !! Z.to_nat i, l !! Z.to_nat j with
  | Some x, Some y => Ok (<[Z.to_nat j := x]> (<[Z.to_nat i := y]> l))
  | _, _ => Panic
  end.

(** [buf] without its last four bytes, [seed ++ [r]], is constant in a round. *)
Definition swapOrNot (buf : list Z) (byteV i : Z) (input : list Z) (j : Z) (source : list Z)
    : gores (list Z * Z * list Z) :=
  let source := if Z.land j 255 =? 255 then hashfunc (buf ++ le_bytes 4 (u32 (Z.shiftr j 8)))
                else source in
  let byteV := if Z.land j 7 =? 7 then byteAt source j else byteV in
  if bitOf byteV j =? 1 then
    input ← swap input i j;
    Ok (input, byteV, source)
  else Ok (input, byteV, source).

(** [for i, j := i0, j0; i < mirror; i, j = i+1, j-1 { ... }] *)
Fixpoint swapLoop (fuel : nat) (buf : list Z) (mirror i j : Z)
    (input : list Z) (byteV : Z) (source : list Z) : gores (list Z) :=
  if i <? mirror then
    match fuel with
    | O => OutOfFuel
    | S fuel' =>
        '(input, byteV, source) ← swapOrNot buf byteV i input j source;
        swapLoop fuel' buf mirror (i +64 1) (j -64 1) input byteV source
    end
  else Ok input.

(** One round over the list: the pairs mirrored around half the pivot, then those
    mirrored around the middle of the rest. *)
Definition listRound (seed : list Z) (listSize r : Z) (input : list Z) : gores (list Z) :=
  let buf := seed ++ [r] in
  let pivot := leUint64 (take 8 (hashfunc buf)) mod listSize in
  let mirror := Z.shiftr (pivot +64 1) 1 in
  let source := hashfunc (buf ++ le_bytes 4 (u32 (Z.shiftr pivot 8))) in
  let byteV := byteAt source pivot in
  input ← swapLoop (length input) buf mirror 0 pivot input byteV source;
  let mirror := Z.shiftr ((pivot +64 listSize) +64 1) 1 in
  let end_ := listSize -64 1 in
  let source := hashfunc (buf ++ le_bytes 4 (u32 (Z.shiftr end_ 8))) in
  let byteV := byteAt source end_ in
  swapLoop (length input) buf mirror (pivot +64 1) end_ input byteV source.

Fixpoint listLoop (fuel : nat) (seed : list Z) (listSize : Z) (shuffle : bool)
    (rounds r : Z) (input : list Z) : gores (list Z) :=
  match fuel with
  | O => OutOfFuel
  | S fuel' =>
      input ← listRound seed listSize r input;
      if shuffle then
        let r := u8 (r + 1) in
        if r =? rounds then Ok input else listLoop fuel' seed listSize shuffle rounds r input
      else if r =? 0 then Ok input
      else listLoop fuel' seed listSize shuffle rounds (u8 (r - 1)) input
  end.

Definition innerShuffleList (input : list Z) (seed : list Z) (shuffle : bool) : gores (list Z) :=
  if (length input <=? 1)%nat then Ok input
  else if Z.of_nat (length input) >? maxShuffleListSize then Err errMessage
  else
    let rounds := u8 ShuffleRoundCount in
    if rounds =? 0 then Ok input
    else
      let r := if shuffle then 0 else u8 (rounds - 1) in
      listLoop round_fuel seed (Z.of_nat (length input)) shuffle rounds r input.

Definition ShuffleList (input : list Z) (seed : list Z) : gores (list Z) :=
  innerShuffleList input seed true.
Definition UnshuffleList (input : list Z) (seed : list Z) : gores (list Z) :=
  innerShuffleList input seed false.

End shuffle.
