(* ===== verification/ShuffleFacts.v ===== *)
(** * The shuffle is a permutation, and the list version agrees with the index one

    A round sends an index to itself or to its mirror image around the pivot, the
    choice being a bit that depends on the pair only: it is an involution.  The
    list version visits each pair once and caches the digest and the byte the bits
    come from. *)
From S2P Require Import Prelude Config Shuffle.

Lemma le_bytes_mod k x : le_bytes k (x mod 2 ^ (8 * Z.of_nat k)) = le_bytes k x.
Proof.
  revert x. induction k as [|k IH]; intros x; [done|]. cbn [le_bytes].
  replace (2 ^ (8 * Z.of_nat (S k))) with (2 ^ (8 * Z.of_nat k) * 256)
    by (rewrite Nat2Z.inj_succ, <-Z.add_1_r, Z.mul_add_distr_l, Z.pow_add_r by lia; done).
  assert (0 < 2 ^ (8 * Z.of_nat k)) as Hpos by (apply Z.pow_pos_nonneg; lia).
  rewrite (Z.mul_comm _ 256). f_equal.
  - unfold u8. apply Z.mod_mod_divide. apply Z.divide_factor_l.
  - rewrite <-(IH (Z.shiftr x 8)). f_equal. rewrite !Z.shiftr_div_pow2 by lia. change (2 ^ 8) with 256.
    rewrite Z.rem_mul_r by lia. rewrite Z.add_comm, Z.mul_comm, Z.div_add_l by lia.
    rewrite (Z.div_small (x mod 256)) by (apply Z.mod_pos_bound; lia). lia.
Qed.

Section facts.
Context `{cfg : BeaconChainConfig}.
Context (hashfunc : list Z → list Z).
Context (digest_size : ∀ x, length (hashfunc x) = 32%nat).
Context (seed : list Z) (n : Z) (Hn : 0 < n ≤ maxShuffleListSize).

Abbreviation step := (shuffleRound hashfunc seed n).
Abbreviation pivot r := (pivotOf hashfunc seed r n).

Lemma max_size : maxShuffleListSize = 1099511627776.
Proof. reflexivity. Qed.

Lemma pivot_range r : 0 ≤ pivot r < n.
Proof. apply Z.mod_pos_bound. lia. Qed.

(** The mirror image of [i] in round [r], and the bit of the pair. *)
Definition flip (r i : Z) : Z := if i <=? pivot r then pivot r - i else pivot r + n - i.
Definition bit (r pos : Z) : bool :=
  bitOf (byteAt (hashfunc (seed ++ [r] ++ le_bytes 4 (Z.shiftr pos 8))) pos) pos =? 1.

Lemma flip_code r i : 0 ≤ i < n → ((pivot r +64 n) -64 i) mod n = flip r i.
Proof.
  intros Hi. pose proof (pivot_range r) as Hp. rewrite max_size in Hn.
  rewrite (u64_small (pivot r + n)) by (unfold is_u64; lia).
  rewrite u64_small by (unfold is_u64; lia). unfold flip.
  destruct (Z.leb_spec i (pivot r)).
  - replace (pivot r + n - i) with (pivot r - i + 1 * n) by lia. rewrite Z.mod_add by lia.
    apply Z.mod_small. lia.
  - apply Z.mod_small. lia.
Qed.

Lemma flip_range r i : 0 ≤ i < n → 0 ≤ flip r i < n.
Proof.
  intros Hi. pose proof (pivot_range r). unfold flip. destruct (Z.leb_spec i (pivot r)); lia.
Qed.

Lemma flip_flip r i : 0 ≤ i < n → flip r (flip r i) = i.
Proof.
  intros Hi. pose proof (pivot_range r). unfold flip.
  destruct (Z.leb_spec i (pivot r)).
  - rewrite (proj2 (Z.leb_le _ _)) by lia. lia.
  - rewrite (proj2 (Z.leb_gt _ _)) by lia. lia.
Qed.

Lemma step_spec r i : 0 ≤ i < n →
  step r i = if bit r (Z.max (flip r i) i) then flip r i else i.
Proof. intros Hi. unfold shuffleRound. rewrite flip_code by done. done. Qed.

Lemma step_range r i : 0 ≤ i < n → 0 ≤ step r i < n.
Proof. intros Hi. rewrite step_spec by done. destruct (bit _ _); [by apply flip_range|done]. Qed.

Lemma step_step r i : 0 ≤ i < n → step r (step r i) = i.
Proof.
  intros Hi. pose proof (flip_range r i Hi). rewrite (step_spec r i) by done.
  destruct (bit r (Z.max (flip r i) i)) eqn:Hb.
  - rewrite step_spec, flip_flip, Z.max_comm, Hb by done. done.
  - by rewrite step_spec, Hb.
Qed.

(** ** The rounds of one index *)
Definition steps (l : list Z) (i : Z) : Z := foldl (λ i r, step r i) i l.

Lemma steps_range l i : 0 ≤ i < n → 0 ≤ steps l i < n.
Proof. revert i. induction l as [|r l IH]; intros i Hi; [done|]. apply IH, step_range, Hi. Qed.

Lemma steps_reverse l i : 0 ≤ i < n → steps (reverse l) (steps l i) = i.
Proof.
  revert i. induction l as [|r l IH]; intros i Hi; [done|].
  rewrite reverse_cons. unfold steps in *. rewrite foldl_app. simpl.
  rewrite IH by (by apply step_range). by apply step_step.
Qed.

(** Rounds [r], [r+1], ... *)
Definition rounds_from (r : Z) (k : nat) : list Z := (λ j, r + Z.of_nat j) <$> seq 0 k.

Lemma rounds_from_S r k : rounds_from r (S k) = r :: rounds_from (r + 1) k.
Proof.
  unfold rounds_from. cbn [seq]. rewrite fmap_cons. f_equal; [lia|].
  rewrite <-seq_shift, <-list_fmap_compose. apply list_fmap_ext. intros ? j _. simpl. lia.
Qed.

Lemma rounds_from_snoc r k : rounds_from r (S k) = rounds_from r k ++ [r + Z.of_nat k].
Proof. unfold rounds_from. rewrite seq_S, fmap_app. done. Qed.

Lemma roundLoop_up fuel R r k i : 0 ≤ r → r + Z.of_nat (S k) = R → R < 256 → (k < fuel)%nat →
  roundLoop hashfunc fuel seed n true R r i = Ok (steps (rounds_from r (S k)) i).
Proof.
  revert r k i. induction fuel as [|fuel IH]; intros r k i Hr HR H256 Hf; [lia|].
  cbn [roundLoop]. rewrite rounds_from_S. cbn [steps foldl]. unfold u8. rewrite (Z.mod_small (r + 1)) by lia.
  destruct k as [|k].
  - rewrite (proj2 (Z.eqb_eq _ _)) by lia. done.
  - rewrite (proj2 (Z.eqb_neq _ _)) by lia. apply IH; lia.
Qed.

Lemma roundLoop_down fuel R k i : Z.of_nat k < 256 → (k < fuel)%nat →
  roundLoop hashfunc fuel seed n false R (Z.of_nat k) i = Ok (steps (reverse (rounds_from 0 (S k))) i).
Proof.
  revert k i. induction fuel as [|fuel IH]; intros k i H256 Hf; [lia|].
  cbn [roundLoop]. rewrite rounds_from_snoc, reverse_snoc, Z.add_0_l. cbn [steps foldl].
  destruct k as [|k].
  - done.
  - rewrite (proj2 (Z.eqb_neq _ _)) by lia. unfold u8.
    replace (Z.of_nat (S k) - 1) with (Z.of_nat k) by lia. rewrite Z.mod_small by lia.
    rewrite IH by lia. done.
Qed.

(** ** One round over the list *)
Definition source_for (r pos : Z) : list Z := hashfunc (seed ++ [r] ++ le_bytes 4 (Z.shiftr pos 8)).

(** The cached digest and byte are those of position [j], or are refreshed there. *)
Definition cached (r j byteV : Z) (source : list Z) : Prop :=
  (Z.land j 255 ≠ 255 → source = source_for r j) ∧
  (Z.land j 7 ≠ 7 → byteV = byteAt (source_for r j) j).

Lemma land_255 j : 0 ≤ j → Z.land j 255 = j mod 256.
Proof. intros. change 255 with (Z.ones 8). by rewrite Z.land_ones. Qed.
Lemma land_7 j : 0 ≤ j → Z.land j 7 = j mod 8.
Proof. intros. change 7 with (Z.ones 3). by rewrite Z.land_ones. Qed.

Lemma cached_next r j : 1 ≤ j → cached r (j - 1) (byteAt (source_for r j) j) (source_for r j).
Proof.
  intros Hj. unfold cached, byteAt, source_for.
  rewrite !land_255, !land_7, !Z.shiftr_div_pow2 by lia. change (2 ^ 8) with 256. change (2 ^ 3) with 8.
  assert ((j - 1) mod 256 ≠ 255 → (j - 1) / 256 = j / 256) as H1
    by (Z.to_euclidean_division_equations; lia).
  assert ((j - 1) mod 8 ≠ 7 → (j - 1) mod 256 ≠ 255 ∧ (j - 1) mod 256 / 8 = j mod 256 / 8) as H2
    by (Z.to_euclidean_division_equations; lia).
  split; [intros H; by rewrite H1|]. intros H. destruct (H2 H) as [H3 H4]. by rewrite H1, H4.
Qed.

Lemma le_bytes_u32 x : le_bytes 4 (u32 x) = le_bytes 4 x.
Proof. exact (le_bytes_mod 4 x). Qed.

Definition get (l : list Z) (x : Z) : option Z := l !! Z.to_nat x.

Lemma swap_get l i j : 0 ≤ i → i < j → j < Z.of_nat (length l) →
  ∃ l', swap l i j = Ok l' ∧ length l' = length l ∧
    ∀ x, 0 ≤ x → get l' x = get l (if x =? i then j else if x =? j then i else x).
Proof.
  intros Hi Hij Hj. unfold swap, get.
  destruct (lookup_lt_is_Some_2 l (Z.to_nat i)) as [a Ha]; [lia|].
  destruct (lookup_lt_is_Some_2 l (Z.to_nat j)) as [b Hb]; [lia|]. rewrite Ha, Hb.
  eexists. split; [done|]. split; [by rewrite !length_insert|]. intros x Hx.
  destruct (Z.eqb_spec x i) as [->|Hxi].
  - rewrite list_lookup_insert_ne by lia. by rewrite list_lookup_insert_eq, Hb by lia.
  - destruct (Z.eqb_spec x j) as [->|Hxj].
    + by rewrite list_lookup_insert_eq, Ha by (rewrite length_insert; lia).
    + by rewrite !list_lookup_insert_ne by lia.
Qed.

Lemma swapOrNot_spec r byteV i input j source :
  cached r j byteV source → 0 ≤ i → i < j → j < Z.of_nat (length input) →
  ∃ input', swapOrNot hashfunc (seed ++ [r]) byteV i input j source =
      Ok (input', byteAt (source_for r j) j, source_for r j) ∧
    length input' = length input ∧
    ∀ x, 0 ≤ x → get input' x =
      get input (if bit r j then if x =? i then j else if x =? j then i else x else x).
Proof.
  intros [Hs Hb] Hi Hij Hj. unfold swapOrNot. rewrite <-app_assoc, le_bytes_u32.
  fold (source_for r j).
  replace (if Z.land j 255 =? 255 then source_for r j else source) with (source_for r j)
    by (destruct (Z.eqb_spec (Z.land j 255) 255); [done|by rewrite Hs]).
  replace (if Z.land j 7 =? 7 then byteAt (source_for r j) j else byteV) with (byteAt (source_for r j) j)
    by (destruct (Z.eqb_spec (Z.land j 7) 7); [done|by rewrite Hb]).
  change (bitOf (byteAt (source_for r j) j) j =? 1) with (bit r j). destruct (bit r j).
  - destruct (swap_get input i j Hi Hij Hj) as (l' & -> & Hlen & Hget). by exists l'.
  - by exists input.
Qed.

(** Where the element that ends at [x] comes from, when the pairs [(i, c-i)],
    ..., [(m-1, c-m+1)] have been visited. *)
Definition mirrored (r c i m x : Z) : Z :=
  if ((i <=? x) && (x <? m)) || ((c - m <? x) && (x <=? c - i))
  then if bit r (Z.max (c - x) x) then c - x else x
  else x.

Lemma mirrored_cases r c i m x :
  (i ≤ x < m ∨ c - m < x ≤ c - i) ∧ mirrored r c i m x = (if bit r (Z.max (c - x) x) then c - x else x) ∨
  ¬ (i ≤ x < m ∨ c - m < x ≤ c - i) ∧ mirrored r c i m x = x.
Proof.
  unfold mirrored. destruct (Z.leb_spec i x), (Z.ltb_spec x m), (Z.ltb_spec (c - m) x),
    (Z.leb_spec x (c - i)); cbn [andb orb]; first [left; split; [lia|done] | right; split; [lia|done]].
Qed.

Lemma mirrored_outside r c i m x : ¬ (i ≤ x < m ∨ c - m < x ≤ c - i) → mirrored r c i m x = x.
Proof. intros H. destruct (mirrored_cases r c i m x) as [[? _]|[_ ?]]; done. Qed.

Lemma mirrored_inside r c i m x : i ≤ x < m ∨ c - m < x ≤ c - i →
  mirrored r c i m x = if bit r (Z.max (c - x) x) then c - x else x.
Proof. intros H. destruct (mirrored_cases r c i m x) as [[_ ?]|[? _]]; done. Qed.

Lemma mirrored_nonneg r c i m x : 0 ≤ x → 0 ≤ i → 2 * m ≤ c + 1 → 0 ≤ mirrored r c i m x.
Proof.
  intros Hx Hi Hm. destruct (mirrored_cases r c i m x) as [[H ->]|[H ->]]; [|done].
  destruct (bit _ _); lia.
Qed.

Lemma mirrored_range r c i m x : 2 * m ≤ c + 1 → i ≤ x ≤ c - i → i ≤ mirrored r c i m x ≤ c - i.
Proof.
  intros Hm Hx. destruct (mirrored_cases r c i m x) as [[H ->]|[H ->]]; [|done].
  destruct (bit _ _); lia.
Qed.

(** Visiting [(i, c-i)] first and the pairs inside it afterwards. *)
Lemma mirrored_step r i j m x : i < m → 2 * m ≤ i + j + 1 →
  (let y := mirrored r (i + j) (i + 1) m x in
   if bit r j then if y =? i then j else if y =? j then i else y else y) = mirrored r (i + j) i m x.
Proof.
  intros Him Hm. cbv zeta.
  destruct (decide (i + 1 ≤ x ≤ j - 1)) as [Hin|Hout].
  - pose proof (mirrored_range r (i + j) (i + 1) m x ltac:(lia) ltac:(lia)) as Hr.
    rewrite (proj2 (Z.eqb_neq _ i)), (proj2 (Z.eqb_neq _ j)) by lia.
    transitivity (mirrored r (i + j) (i + 1) m x); [by destruct (bit r j)|].
    destruct (mirrored_cases r (i + j) (i + 1) m x) as [[H ->]|[H ->]].
    + symmetry. apply mirrored_inside. lia.
    + symmetry. apply mirrored_outside. lia.
  - rewrite (mirrored_outside r (i + j) (i + 1) m x) by lia.
    destruct (Z.eqb_spec x i) as [->|Hxi]; [|destruct (Z.eqb_spec x j) as [->|Hxj]].
    + rewrite mirrored_inside by lia. replace (i + j - i) with j by lia. by rewrite Z.max_l by lia.
    + rewrite mirrored_inside by lia. replace (i + j - j) with i by lia. by rewrite Z.max_r by lia.
    + rewrite mirrored_outside by lia. by destruct (bit r j).
Qed.

Lemma swapLoop_spec fuel r m i j c input byteV source :
  cached r j byteV source → c = i + j → 0 ≤ i → 2 * m ≤ c + 1 →
  j < Z.of_nat (length input) → Z.of_nat (length input) ≤ maxShuffleListSize → m - i ≤ Z.of_nat fuel →
  ∃ out, swapLoop hashfunc fuel (seed ++ [r]) m i j input byteV source = Ok out ∧
    length out = length input ∧
    ∀ x, 0 ≤ x → get out x = get input (mirrored r c i m x).
Proof.
  rewrite max_size. revert i j input byteV source.
  induction fuel as [|fuel IH]; intros i j input byteV source Hc -> Hi Hm Hj Hmax Hf; cbn [swapLoop].
  - rewrite (proj2 (Z.ltb_ge _ _)) by lia. exists input. split_and!; [done|done|]. intros x Hx.
    by rewrite mirrored_outside by lia.
  - destruct (Z.ltb_spec i m) as [Him|Him].
    2: { exists input. split_and!; [done|done|]. intros x Hx.
         by rewrite mirrored_outside by lia. }
    destruct (swapOrNot_spec r byteV i input j source) as (l1 & -> & Hl1 & Hg1); [done|lia|lia|lia|].
    cbn [mbind gores_bind].
    rewrite (u64_small (i + 1)) by (unfold is_u64; lia). rewrite (u64_small (j - 1)) by (unfold is_u64; lia).
    destruct (IH (i + 1) (j - 1) l1 (byteAt (source_for r j) j) (source_for r j)) as (out & -> & Hl & Hg);
      [apply cached_next; lia|lia|lia|lia|lia|lia|lia|].
    exists out. split_and!; [done|congruence|]. intros x Hx.
    rewrite Hg by done.
    assert (0 ≤ mirrored r (i + j) (i + 1) m x) as Hx' by (apply mirrored_nonneg; lia).
    rewrite Hg1 by done. f_equal. apply mirrored_step; lia.
Qed.

Lemma mirrored_flip r c i m x : 0 ≤ x < n → c - m ≤ m → i ≤ x ≤ c - i → flip r x = c - x →
  mirrored r c i m x = step r x.
Proof.
  intros Hx Hm Hi Hflip. rewrite step_spec by done. rewrite Hflip.
  destruct (mirrored_cases r c i m x) as [[H ->]|[H ->]]; [done|].
  destruct (bit _ _); lia.
Qed.

Lemma cached_now r j : cached r j (byteAt (source_for r j) j) (source_for r j).
Proof. done. Qed.

Lemma listRound_spec r input : Z.of_nat (length input) = n →
  ∃ out, listRound hashfunc seed n r input = Ok out ∧ length out = length input ∧
    ∀ x, 0 ≤ x < n → get out x = get input (step r x).
Proof.
  intros Hlen. pose proof (pivot_range r) as Hp. pose proof Hn as Hn'. rewrite max_size in Hn'.
  unfold listRound.
  replace (leUint64 (take 8 (hashfunc (seed ++ [r]))) mod n) with (pivot r)
    by (unfold pivotOf, FromBytes8; rewrite length_take, digest_size; done).
  rewrite (u64_small (pivot r + 1)), (u64_small (pivot r + n)) by (unfold is_u64; lia).
  rewrite (u64_small (pivot r + n + 1)), (u64_small (n - 1)) by (unfold is_u64; lia).
  rewrite !le_bytes_u32, <-!app_assoc, !Z.shiftr_div_pow2 by lia. change (2 ^ 1) with 2.
  rewrite <-!Z.shiftr_div_pow2 by lia. fold (source_for r (pivot r)) (source_for r (n - 1)).
  set (m1 := (pivot r + 1) / 2). set (m2 := (pivot r + n + 1) / 2).
  assert (2 * m1 ≤ pivot r + 1 ≤ 2 * m1 + 1) as Hm1 by (subst m1; Z.to_euclidean_division_equations; lia).
  assert (2 * m2 ≤ pivot r + n + 1 ≤ 2 * m2 + 1) as Hm2 by (subst m2; Z.to_euclidean_division_equations; lia).
  destruct (swapLoop_spec (length input) r m1 0 (pivot r) (pivot r) input _ _ (cached_now r (pivot r)))
    as (l1 & -> & Hl1 & Hg1); [lia..|]. cbn [mbind gores_bind].
  destruct (swapLoop_spec (length l1) r m2 (pivot r + 1) (n - 1) (pivot r + n) l1 _ _ (cached_now r (n - 1)))
    as (out & -> & Hl & Hg); [lia..|].
  exists out. split_and!; [done|congruence|]. intros x Hx. rewrite Hg by lia.
  rewrite Hg1 by (apply mirrored_nonneg; lia). f_equal.
  destruct (decide (x ≤ pivot r)) as [Hle|Hgt].
  - rewrite (mirrored_outside r (pivot r + n)) by lia. apply mirrored_flip; [lia..|].
    unfold flip. by rewrite (proj2 (Z.leb_le _ _)).
  - assert (flip r x = pivot r + n - x) as Hflip by (unfold flip; by rewrite (proj2 (Z.leb_gt _ _)) by lia).
    rewrite (mirrored_flip r (pivot r + n)) by (done || lia).
    apply mirrored_outside. rewrite step_spec, Hflip by done. destruct (bit _ _); lia.
Qed.

(** ** All the rounds of the list *)
Definition rearranged (out input : list Z) (f : Z → Z) : Prop :=
  length out = length input ∧ ∀ x, 0 ≤ x < n → get out x = get input (f x).

Lemma listLoop_up fuel R r k input : Z.of_nat (length input) = n →
  0 ≤ r → r + Z.of_nat (S k) = R → R < 256 → (k < fuel)%nat →
  ∃ out, listLoop hashfunc fuel seed n true R r input = Ok out ∧
    rearranged out input (steps (reverse (rounds_from r (S k)))).
Proof.
  revert r k input. induction fuel as [|fuel IH]; intros r k input Hlen Hr HR H256 Hf; [lia|].
  cbn [listLoop]. destruct (listRound_spec r input Hlen) as (l1 & -> & Hl1 & Hg1). cbn [mbind gores_bind].
  rewrite rounds_from_S, reverse_cons. unfold u8. rewrite (Z.mod_small (r + 1)) by lia.
  destruct k as [|k].
  - rewrite (proj2 (Z.eqb_eq _ _)) by lia. by exists l1.
  - rewrite (proj2 (Z.eqb_neq _ _)) by lia.
    destruct (IH (r + 1) k l1) as (out & -> & Hl & Hg); [lia..|]. exists out. split; [done|].
    split; [congruence|]. intros x Hx. rewrite Hg by done. rewrite Hg1 by (by apply steps_range).
    unfold steps. by rewrite foldl_snoc.
Qed.

Lemma listLoop_down fuel R k input : Z.of_nat (length input) = n → Z.of_nat k < 256 → (k < fuel)%nat →
  ∃ out, listLoop hashfunc fuel seed n false R (Z.of_nat k) input = Ok out ∧
    rearranged out input (steps (rounds_from 0 (S k))).
Proof.
  revert k input. induction fuel as [|fuel IH]; intros k input Hlen H256 Hf; [lia|].
  cbn [listLoop]. destruct (listRound_spec (Z.of_nat k) input Hlen) as (l1 & -> & Hl1 & Hg1).
  cbn [mbind gores_bind]. rewrite rounds_from_snoc, Z.add_0_l. destruct k as [|k].
  - by exists l1.
  - rewrite (proj2 (Z.eqb_neq _ _)) by lia. unfold u8.
    replace (Z.of_nat (S k) - 1) with (Z.of_nat k) by lia. rewrite Z.mod_small by lia.
    destruct (IH k l1) as (out & -> & Hl & Hg); [lia..|]. exists out. split; [done|].
    split; [congruence|]. intros x Hx. rewrite Hg by done. rewrite Hg1 by (by apply steps_range).
    unfold steps. by rewrite foldl_snoc.
Qed.

(** ** The two directions *)
Context (Hrounds : 0 < ShuffleRoundCount < 256).
Definition all_rounds : list Z := rounds_from 0 (Z.to_nat ShuffleRoundCount).
Definition direction (shuffle : bool) : list Z := if shuffle then all_rounds else reverse all_rounds.

Lemma direction_inverse shuffle i : 0 ≤ i < n → steps (direction (negb shuffle)) (steps (direction shuffle) i) = i.
Proof.
  intros Hi. destruct shuffle; simpl; [by apply steps_reverse|].
  rewrite <-(reverse_involutive all_rounds) at 1. by apply steps_reverse.
Qed.

Lemma all_rounds_S : all_rounds = rounds_from 0 (S (Z.to_nat (ShuffleRoundCount - 1))).
Proof. unfold all_rounds. f_equal. lia. Qed.

Lemma ComputeShuffledIndex_spec i shuffle : 0 ≤ i < n →
  ComputeShuffledIndex hashfunc i n seed shuffle = Ok (steps (direction shuffle) i).
Proof.
  intros Hi. unfold ComputeShuffledIndex. pose proof max_size.
  rewrite (proj2 (Z.eqb_neq _ _)) by lia. rewrite Z.geb_leb, (proj2 (Z.leb_gt _ _)) by lia.
  rewrite Z.gtb_ltb, (proj2 (Z.ltb_ge _ _)) by lia. unfold u8. rewrite (Z.mod_small ShuffleRoundCount) by lia.
  unfold direction. rewrite all_rounds_S. destruct shuffle.
  - apply roundLoop_up; unfold round_fuel; lia.
  - rewrite Z.mod_small by lia.
    rewrite <-(Z2Nat.id (ShuffleRoundCount - 1)) at 1 by lia. apply roundLoop_down; unfold round_fuel; lia.
Qed.

Lemma innerShuffleList_spec input shuffle : Z.of_nat (length input) = n →
  ∃ out, innerShuffleList hashfunc input seed shuffle = Ok out ∧
    rearranged out input (steps (direction (negb shuffle))).
Proof.
  intros Hlen. unfold innerShuffleList. destruct (Nat.leb_spec (length input) 1) as [H1|H1].
  { exists input. split; [done|]. split; [done|]. intros x Hx. f_equal.
    pose proof (steps_range (direction (negb shuffle)) x Hx). lia. }
  rewrite Z.gtb_ltb, (proj2 (Z.ltb_ge _ _)) by lia.
  unfold u8. rewrite (Z.mod_small ShuffleRoundCount) by lia. rewrite (proj2 (Z.eqb_neq _ _)) by lia.
  rewrite Hlen. unfold direction. rewrite all_rounds_S. destruct shuffle; cbn [negb].
  - apply listLoop_up; unfold round_fuel; lia.
  - rewrite Z.mod_small by lia.
    pose proof (listLoop_down round_fuel ShuffleRoundCount (Z.to_nat (ShuffleRoundCount - 1)) input) as H.
    rewrite Z2Nat.id in H by lia. apply H; unfold round_fuel; lia.
Qed.

Lemma steps_seqZ_perm shuffle : steps (direction shuffle) <$> seqZ 0 n ≡ₚ seqZ 0 n.
Proof.
  assert (∀ i, 0 ≤ i < n → steps (direction shuffle) (steps (direction (negb shuffle)) i) = i) as Hback
    by (intros i Hi; pose proof (direction_inverse (negb shuffle) i Hi) as H; by rewrite negb_involutive in H).
  apply NoDup_Permutation.
  - apply NoDup_fmap_2_strong; [|apply NoDup_seqZ].
    intros i j Hi%elem_of_seqZ Hj%elem_of_seqZ Heq.
    rewrite <-(direction_inverse shuffle i), Heq by lia. apply direction_inverse. lia.
  - apply NoDup_seqZ.
  - intros x. rewrite list_elem_of_fmap. setoid_rewrite elem_of_seqZ. split.
    + intros (y & -> & Hy). pose proof (steps_range (direction shuffle) y). lia.
    + intros Hx. exists (steps (direction (negb shuffle)) x). rewrite Hback by lia. split; [done|].
      pose proof (steps_range (direction (negb shuffle)) x). lia.
Qed.

Lemma as_fmap (l : list Z) : Z.of_nat (length l) = n → l = (λ x, default 0 (get l x)) <$> seqZ 0 n.
Proof.
  intros Hlen. apply list_eq_same_length with (length l); [rewrite length_fmap, length_seqZ; lia|done|].
  intros k x y Hk Hx Hy. apply list_lookup_fmap_Some in Hy as (z & -> & [-> _]%lookup_seqZ).
  unfold get. replace (Z.to_nat (0 + Z.of_nat k)) with k by lia. by rewrite Hx.
Qed.

Lemma rearranged_perm out input shuffle : Z.of_nat (length input) = n →
  rearranged out input (steps (direction shuffle)) → out ≡ₚ input.
Proof.
  intros Hlen [Hl Hg]. rewrite (as_fmap out), (as_fmap input) by congruence.
  rewrite <-(steps_seqZ_perm shuffle) at 2. rewrite <-list_fmap_compose.
  apply reflexive_eq, list_fmap_ext. intros k x Hx%lookup_seqZ. simpl. by rewrite Hg by lia.
Qed.

Lemma rearranged_inverse out input back shuffle : Z.of_nat (length input) = n →
  rearranged out input (steps (direction shuffle)) →
  rearranged back out (steps (direction (negb shuffle))) → back = input.
Proof.
  intros Hlen [Hl Hg] [Hl' Hg']. apply list_eq_same_length with (length input); [done|congruence|].
  intros k x y Hk Hx Hy. assert (0 ≤ Z.of_nat k < n) as Hr by lia.
  specialize (Hg' _ Hr). rewrite Hg in Hg' by (by apply steps_range).
  pose proof (direction_inverse (negb shuffle) _ Hr) as Hinv. rewrite negb_involutive in Hinv.
  rewrite Hinv in Hg'. unfold get in Hg'. rewrite Nat2Z.id in Hg'. congruence.
Qed.

End facts.

(** ** Splitting a list *)
Section split.
Context {A : Type} (l : list A) (n : Z).
Context (Hn : 0 < n) (Hsize : Z.of_nat (length l) * n < 2 ^ 64).

Definition offset (i : nat) : nat := Z.to_nat (Z.of_nat (length l) * Z.of_nat i / n).

Lemma offset_S i : (offset i ≤ offset (S i))%nat.
Proof. unfold offset. apply Z2Nat.inj_le; try (apply Z.div_pos; lia). apply Z.div_le_mono; lia. Qed.

Lemma offset_le i : Z.of_nat i ≤ n → (offset i ≤ length l)%nat.
Proof.
  intros Hi. unfold offset. apply Nat2Z.inj_le. rewrite Z2Nat.id by (apply Z.div_pos; lia).
  apply Z.div_le_upper_bound; nia.
Qed.

Lemma SplitOffset_spec i : Z.of_nat i ≤ n →
  SplitOffset (Z.of_nat (length l)) n (Z.of_nat i) = Ok (Z.of_nat (offset i)).
Proof.
  intros Hi. unfold SplitOffset, offset. rewrite (proj2 (Z.eqb_neq _ _)) by lia.
  rewrite u64_small by (unfold is_u64; nia). rewrite Z2Nat.id by (apply Z.div_pos; lia). done.
Qed.

Definition piece (i : nat) : list A := take (offset (S i) - offset i) (drop (offset i) l).

Lemma SplitIndices_loop_spec k m : n < 2 ^ 64 → Z.of_nat (k + m) ≤ n →
  SplitIndices_loop l n (seq k m) = Ok (piece <$> seq k m).
Proof.
  intros H64. revert k. induction m as [|m IH]; intros k Hkm; [done|]. cbn [seq SplitIndices_loop].
  rewrite u64_small by (unfold is_u64; lia).
  replace (Z.of_nat k + 1) with (Z.of_nat (S k)) by lia. rewrite !SplitOffset_spec by lia.
  cbn [mbind gores_bind].
  pose proof (offset_S k). pose proof (offset_le (S k) ltac:(lia)).
  unfold subslice. rewrite !(proj2 (Z.leb_le _ _)) by lia. cbn [andb mbind gores_bind].
  rewrite IH by lia. cbn [mbind gores_bind]. rewrite fmap_cons. unfold piece at 2.
  rewrite Nat2Z.id. do 3 f_equal. lia.
Qed.

Lemma pieces_concat k m : mjoin (piece <$> seq k m) = take (offset (k + m) - offset k) (drop (offset k) l).
Proof.
  revert k. induction m as [|m IH]; intros k.
  { by rewrite Nat.add_0_r, Nat.sub_diag. }
  cbn [seq]. rewrite fmap_cons. cbn [mjoin list_join]. rewrite IH. unfold piece at 1.
  assert (offset (S k) ≤ offset (S k + m))%nat as Hle
    by (clear IH; induction m; [rewrite Nat.add_0_r; lia|rewrite Nat.add_succ_r; pose proof (offset_S (S k + m)); lia]).
  pose proof (offset_S k). replace (k + S m)%nat with (S k + m)%nat by lia.
  replace (drop (offset (S k)) l) with (drop (offset (S k) - offset k) (drop (offset k) l))
    by (rewrite drop_drop; f_equal; lia).
  rewrite take_take_drop. f_equal. lia.
Qed.

Lemma piece_length i : Z.of_nat i < n →
  Z.of_nat (length (piece i)) = Z.of_nat (length l) / n ∨
  Z.of_nat (length (piece i)) = Z.of_nat (length l) / n + 1.
Proof.
  intros Hi. unfold piece. rewrite length_take, length_drop. pose proof (offset_le (S i) ltac:(lia)).
  pose proof (offset_S i). rewrite Nat.min_l by lia.
  rewrite Nat2Z.inj_sub by done. unfold offset. rewrite !Z2Nat.id by (apply Z.div_pos; lia).
  rewrite Nat2Z.inj_succ. set (L := Z.of_nat (length l)). replace (L * Z.succ (Z.of_nat i)) with (L * Z.of_nat i + L) by lia.
  pose proof (Z.div_mod (L * Z.of_nat i) n ltac:(lia)). pose proof (Z.mod_pos_bound (L * Z.of_nat i) n ltac:(lia)).
  pose proof (Z.div_mod L n ltac:(lia)). pose proof (Z.mod_pos_bound L n ltac:(lia)).
  pose proof (Z.div_mod (L * Z.of_nat i + L) n ltac:(lia)).
  pose proof (Z.mod_pos_bound (L * Z.of_nat i + L) n ltac:(lia)). nia.
Qed.
End split.

(** Where [innerShuffleList] finds the element of a position. *)
Lemma innerShuffleList_positions `{cfg : BeaconChainConfig} (hashfunc : list Z → list Z)
    (seed input : list Z) (shuffle : bool) :
  (∀ x, length (hashfunc x) = 32%nat) → 0 < ShuffleRoundCount < 256 →
  Z.of_nat (length input) ≤ maxShuffleListSize →
  ∃ out, innerShuffleList hashfunc input seed shuffle = Ok out ∧ out ≡ₚ input ∧
    ∀ x, (x < length input)%nat → ∃ y, 
      ComputeShuffledIndex hashfunc (Z.of_nat x) (Z.of_nat (length input)) seed (negb shuffle) = Ok y ∧
      out !! x = input !! Z.to_nat y.
Proof.
  intros Hh Hr Hn. destruct (decide (length input = 0)%nat) as [H0|H0].
  { destruct input; [|done]. exists []. split_and!; [done|done|]. intros x Hx. simpl in Hx. lia. }
  destruct (innerShuffleList_spec hashfunc Hh seed _ ltac:(split; [|exact Hn]; lia) Hr input shuffle eq_refl)
    as (out & Hout & Hrr). exists out. split_and!; [done|by eapply rearranged_perm; try done; lia|].
  intros x Hx. eexists. split; [apply ComputeShuffledIndex_spec; lia|].
  destruct Hrr as [_ Hg]. specialize (Hg (Z.of_nat x) ltac:(lia)). unfold get in Hg.
  by rewrite Nat2Z.id in Hg.
Qed.

(** ** Properties *)

(** For every hash function and a configured number of rounds between
    1 and 255, [ShuffledIndex] is total on [0, indexCount), stays inside, and
    [UnShuffledIndex] undoes it; and the other way round.  So both are bijections. *)
Theorem ComputeShuffledIndex_inverse `{cfg : BeaconChainConfig} (hashfunc : list Z → list Z)
    (seed : list Z) (i n : Z) (shuffle : bool) :
  0 < ShuffleRoundCount < 256 → 0 ≤ i < n → n ≤ maxShuffleListSize →
  ∃ j, ComputeShuffledIndex hashfunc i n seed shuffle = Ok j ∧ 0 ≤ j < n ∧
    ComputeShuffledIndex hashfunc j n seed (negb shuffle) = Ok i.
Proof.
  intros Hr Hi Hn. exists (steps hashfunc seed n (direction shuffle) i).
  assert (0 ≤ steps hashfunc seed n (direction shuffle) i < n) by (apply steps_range; lia).
  split_and!; try lia.
  - by apply ComputeShuffledIndex_spec; try lia.
  - rewrite ComputeShuffledIndex_spec by lia. f_equal. apply direction_inverse; lia.
Qed.

(** C18: the optimised list shuffle agrees with the index shuffle at every position:
    the element that [ShuffleList] leaves at position [x] was at the position
    [UnShuffledIndex] gives for [x] (and dually for [UnshuffleList]); the result is
    a permutation of the input. *)
Theorem innerShuffleList_agrees `{cfg : BeaconChainConfig} (hashfunc : list Z → list Z)
    (seed input : list Z) (shuffle : bool) :
  (∀ x, length (hashfunc x) = 32%nat) → 0 < ShuffleRoundCount < 256 →
  Z.of_nat (length input) ≤ maxShuffleListSize →
  ∃ out, innerShuffleList hashfunc input seed shuffle = Ok out ∧ out ≡ₚ input ∧
    ∀ x, (x < length input)%nat → ∃ y, 
      ComputeShuffledIndex hashfunc (Z.of_nat x) (Z.of_nat (length input)) seed (negb shuffle) = Ok y ∧
      out !! x = input !! Z.to_nat y.
Proof. apply innerShuffleList_positions. Qed.

(** [UnshuffleList] undoes [ShuffleList] and [ShuffleList] undoes [UnshuffleList]. *)
Theorem innerShuffleList_roundtrip `{cfg : BeaconChainConfig} (hashfunc : list Z → list Z)
    (seed input : list Z) (shuffle : bool) :
  (∀ x, length (hashfunc x) = 32%nat) → 0 < ShuffleRoundCount < 256 →
  Z.of_nat (length input) ≤ maxShuffleListSize →
  ∃ out, innerShuffleList hashfunc input seed shuffle = Ok out ∧
    innerShuffleList hashfunc out seed (negb shuffle) = Ok input.
Proof.
  intros Hh Hr Hn. destruct (decide (length input = 0)%nat) as [H0|H0].
  { destruct input; [|done]. by exists []. }
  set (n := Z.of_nat (length input)). assert (0 < n ≤ maxShuffleListSize) as Hn' by lia.
  destruct (innerShuffleList_spec hashfunc Hh seed n Hn' Hr input shuffle eq_refl) as (out & Hout & Hrr).
  destruct (innerShuffleList_spec hashfunc Hh seed n Hn' Hr out (negb shuffle)) as (back & Hback & Hrr');
    [by rewrite (proj1 Hrr)|].
  exists out. split; [done|]. rewrite Hback. f_equal.
  by eapply (rearranged_inverse hashfunc seed n Hn'); [done| |].
Qed.

(** When [len(l)*n] fits a [uint64], [SplitIndices] cuts [l] into [n]
    consecutive pieces: joined they are [l] again, and the sizes differ by at most
    one. *)
Theorem SplitIndices_partition {A} (l : list A) (n : Z) :
  0 < n < 2 ^ 64 → Z.of_nat (length l) * n < 2 ^ 64 →
  ∃ divided, SplitIndices l n = Ok divided ∧ Z.of_nat (length divided) = n ∧ mjoin divided = l ∧
    ∀ p, p ∈ divided → Z.of_nat (length p) = Z.of_nat (length l) / n ∨
                       Z.of_nat (length p) = Z.of_nat (length l) / n + 1.
Proof.
  intros Hn Hsize. eexists. split; [apply SplitIndices_loop_spec; lia|].
  split_and!.
  - rewrite length_fmap, length_seq. lia.
  - rewrite pieces_concat by lia. simpl. unfold offset. rewrite Z2Nat.id by lia.
    rewrite Z.div_mul, Z.mul_0_r, Zdiv_0_l, Nat2Z.id by lia. rewrite drop_0. apply take_ge. lia.
  - intros p (i & -> & Hi%elem_of_seq)%list_elem_of_fmap. apply piece_length; lia.
Qed.

(** ** The theorems at concrete inputs *)
Definition ex_hash (x : list Z) : list Z :=
  (λ k, u8 (foldl (λ a b, (a * 31 + b * 17 + 7) mod 65521) k x / 8)) <$> seqZ 1 32.
Definition ex_seed : list Z := seqZ 40 32.

Lemma ComputeShuffledIndex_inverse_witness :
  let C := @ComputeShuffledIndex mainnet_config ex_hash in
  ∃ j, C 3 100 ex_seed true = Ok j ∧ 0 ≤ j < 100 ∧ C j 100 ex_seed false = Ok 3.
Proof.
  apply (@ComputeShuffledIndex_inverse mainnet_config ex_hash ex_seed 3 100 true); vm_compute; done.
Defined.

Lemma innerShuffleList_agrees_witness :
  ∃ out, @innerShuffleList mainnet_config ex_hash (seqZ 100 50) ex_seed true = Ok out ∧
    out ≡ₚ seqZ 100 50 ∧ 
    ∀ x, (x < 50)%nat → ∃ y, 
      @ComputeShuffledIndex mainnet_config ex_hash (Z.of_nat x) 50 ex_seed false = Ok y ∧
      out !! x = seqZ 100 50 !! Z.to_nat y.
Proof.
  apply (@innerShuffleList_agrees mainnet_config ex_hash ex_seed (seqZ 100 50) true);
    [intros x; unfold ex_hash; by rewrite length_fmap|vm_compute; done|vm_compute; done].
Defined.

Lemma innerShuffleList_roundtrip_witness :
  ∃ out, @innerShuffleList mainnet_config ex_hash (seqZ 100 50) ex_seed true = Ok out ∧
    @innerShuffleList mainnet_config ex_hash out ex_seed false = Ok (seqZ 100 50).
Proof.
  apply (@innerShuffleList_roundtrip mainnet_config ex_hash ex_seed (seqZ 100 50) true);
    [intros x; unfold ex_hash; by rewrite length_fmap|vm_compute; done|vm_compute; done].
Defined.

Lemma SplitIndices_partition_witness :
  ∃ divided, SplitIndices (seqZ 0 10) 4 = Ok divided ∧ Z.of_nat (length divided) = 4 ∧
    mjoin divided = seqZ 0 10 ∧
    ∀ p, p ∈ divided → Z.of_nat (length p) = 2 ∨ Z.of_nat (length p) = 3.
Proof. apply (SplitIndices_partition (seqZ 0 10) 4); vm_compute; done. Defined.

(** The shuffle of a concrete list. *)
Example ShuffleList_moves :
  @ShuffleList mainnet_config ex_hash (seqZ 0 10) ex_seed = Ok [2; 0; 5; 4; 9; 7; 3; 8; 1; 6].
Proof. vm_compute. reflexivity. Qed.
