(* ===== verification/MVSlice.v ===== *)
(** * container/multi-value-slice: one slice shared by many objects

    A [Slice] holds the original (shared) items, the values that single objects
    have put in their place (individual items) and the values objects have
    appended; an object is known by its [Id].  Every method of the Go type takes
    the lock for its whole body, so each is one atomic step here.  The pointers
    [*MultiValueItem] and [*Value] have a single owner each (the map entry, the
    slice cell or the item that holds them), so items are plain values.  Ids and
    indices are [uint64]s, lengths are Go [int]s; both are [Z].  The lengths of
    slices that exist in memory never reach 2^63. *)
From S2P Require Import Prelude.

Definition Id : Type := Z.

Record Value (V : Type) := { val : V; ids : list Id }.
Arguments val {V} v.
Arguments ids {V} v.
Arguments Build_Value {V} val ids.

Record MultiValueItem (V : Type) := { Values : list (Value V) }.
Arguments Values {V} m.
Arguments Build_MultiValueItem {V} Values.

Record Slice (V : Type) := {
  sharedItems : list V;
  individualItems : gmap Z (MultiValueItem V);
  appendedItems : list (MultiValueItem V);
  cachedLengths : gmap Id Z
}.
Arguments sharedItems {V} s.
Arguments individualItems {V} s.
Arguments appendedItems {V} s.
Arguments cachedLengths {V} s.
Arguments Build_Slice {V} _ _ _ _.

Definition len {A} (l : list A) : Z := Z.of_nat (length l).

(** [slices.Index], and [containsId] *)
Fixpoint containsId (ids : list Id) (wanted : Id) : option nat :=
  match ids with
  | [] => None
  | x :: ids' => if x =? wanted then Some 0%nat else S <$> containsId ids' wanted
  end.
Definition hasId (ids : list Id) (wanted : Id) : bool :=
  match containsId ids wanted with Some _ => true | None => false end.

(** [s[i] = s[len(s)-1]; s = s[:len(s)-1]] *)
Definition deleteElemFromSlice {T} (s : list T) (i : nat) : list T :=
  match last s with
  | Some x => take (length s - 1) (<[i := x]> s)
  | None => s
  end.

(** [s[i] = x] *)
Definition assign {T} (s : list T) (i : Z) (x : T) : gores (list T) :=
  if (0 <=? i) && (i <? len s) then Ok (<[Z.to_nat i := x]> s) else Panic.

Section mvslice.
Context {V : Type} `{EqDecision V}.
Context (zero : V).   (* the zero value of [V], which [make] fills a slice with *)

(** ** Loops over the values of one item *)

(** [for _, v := range item.Values { if containsId(v.ids, id) ... v.val ... break } }] *)
Fixpoint findVal (vs : list (Value V)) (id : Id) : option V :=
  match vs with
  | [] => None
  | v :: vs' => if hasId (ids v) id then Some (val v) else findVal vs' id
  end.

(** The loop of [Copy] over one item, with [found] at its end. *)
Fixpoint copyVal (vs : list (Value V)) (src dst : Id) : list (Value V) * bool :=
  match vs with
  | [] => ([], false)
  | v :: vs' =>
      if hasId (ids v) src then (Build_Value (val v) (ids v ++ [dst]) :: vs', true)
      else let '(vs', found) := copyVal vs' src dst in (v :: vs', found)
  end.

(** The first value that has [id], with the index of both. *)
Fixpoint findIndex (vs : list (Value V)) (id : Id) : option (nat * Value V * nat) :=
  match vs with
  | [] => None
  | v :: vs' =>
      match containsId (ids v) id with
      | Some foundIndex => Some (0%nat, v, foundIndex)
      | None => '(vi, w, fi) ← findIndex vs' id; Some (S vi, w, fi)
      end
  end.

(** The loop of [Detach], [updateOriginalItem] and [updateAppendedItem] that takes
    [id] off the value that has it, with [found]. *)
Definition removeVal (vs : list (Value V)) (id : Id) : list (Value V) * bool :=
  match findIndex vs id with
  | Some (vi, v, foundIndex) =>
      if (length (ids v) =? 1)%nat then (deleteElemFromSlice vs vi, true)
      else (<[vi := Build_Value (val v) (deleteElemFromSlice (ids v) foundIndex)]> vs, true)
  | None => (vs, false)
  end.

(** The [newValue] loop: join an equal value or add one. *)
Fixpoint addVal (vs : list (Value V)) (x : V) (id : Id) : list (Value V) :=
  match vs with
  | [] => [Build_Value x [id]]
  | v :: vs' =>
      if decide (val v = x) then Build_Value (val v) (ids v ++ [id]) :: vs'
      else v :: addVal vs' x id
  end.

Definition single (x : V) (id : Id) : MultiValueItem V := Build_MultiValueItem [Build_Value x [id]].

(** ** The methods of [Slice] *)
Definition Init (items : list V) : Slice V := Build_Slice items ∅ [] ∅.

Definition Len (s : Slice V) (obj : Id) : Z :=
  match cachedLengths s !! obj with Some l => l | None => len (sharedItems s) end.

Fixpoint copyAppended (items : list (MultiValueItem V)) (src dst : Id) : list (MultiValueItem V) :=
  match items with
  | [] => []
  | item :: items' =>
      let '(vs, found) := copyVal (Values item) src dst in
      Build_MultiValueItem vs :: (if found then copyAppended items' src dst else items')
  end.

Definition Copy (s : Slice V) (src dst : Id) : Slice V :=
  Build_Slice (sharedItems s)
    ((λ item, Build_MultiValueItem (copyVal (Values item) src dst).1) <$> individualItems s)
    (copyAppended (appendedItems s) src dst)
    (match cachedLengths s !! src with
     | Some srcLen => <[dst := srcLen]> (cachedLengths s)
     | None => cachedLengths s
     end).

(** [for i, item := range s.sharedItems], from index [i] on *)
Fixpoint fillOriginalItems (s : Slice V) (obj : Id) (shared : list V) (i : Z) (items : list V)
    : gores (list V) :=
  match shared with
  | [] => Ok items
  | item :: shared' =>
      let x := match individualItems s !! i with
               | None => item
               | Some ind => match findVal (Values ind) obj with Some v => v | None => item end
               end in
      items ← assign items i x;
      fillOriginalItems s obj shared' (i + 1) items
  end.

Fixpoint fillAppendedItems (apps : list (MultiValueItem V)) (obj : Id) (i : Z) (result : list V)
    : gores (list V) :=
  match apps with
  | [] => Ok result
  | item :: apps' =>
      match findVal (Values item) obj with
      | Some v => result ← assign result i v; fillAppendedItems apps' obj (i + 1) result
      | None => Ok result
      end
  end.

(** The method [Value]: all items of the object. *)
Definition ValueOf (s : Slice V) (obj : Id) : gores (list V) :=
  match cachedLengths s !! obj with
  | Some l =>
      result ← fillOriginalItems s obj (sharedItems s) 0 (replicate (Z.to_nat l) zero);
      fillAppendedItems (appendedItems s) obj (len (sharedItems s)) result
  | None => fillOriginalItems s obj (sharedItems s) 0 (replicate (length (sharedItems s)) zero)
  end.

(** An index expression of Go on a slice. *)
Definition index_at {T} (l : list T) (i : Z) : gores T :=
  match l !! Z.to_nat i with Some x => Ok x | None => Panic end.

Definition At (s : Slice V) (obj : Id) (index : Z) : gores V :=
  if index >=? len (sharedItems s) + len (appendedItems s) then Err ErrOutOfBounds
  else if index <? len (sharedItems s) then
    match individualItems s !! index with
    | None => index_at (sharedItems s) index
    | Some ind =>
        match findVal (Values ind) obj with
        | Some v => Ok v
        | None => index_at (sharedItems s) index
        end
    end
  else
    item ← index_at (appendedItems s) (index - len (sharedItems s));
    match findVal (Values item) obj with
    | Some v => Ok v
    | None => Err ErrOutOfBounds
    end.

Definition with_individual (s : Slice V) (index : Z) (vs : list (Value V)) : Slice V :=
  Build_Slice (sharedItems s) (<[index := Build_MultiValueItem vs]> (individualItems s))
    (appendedItems s) (cachedLengths s).
Definition with_appended (s : Slice V) (apps : list (MultiValueItem V)) : Slice V :=
  Build_Slice (sharedItems s) (individualItems s) apps (cachedLengths s).
Definition with_length (s : Slice V) (obj : Id) (l : Z) : Slice V :=
  Build_Slice (sharedItems s) (individualItems s) (appendedItems s) (<[obj := l]> (cachedLengths s)).

Definition updateOriginalItem (obj : Id) (index : Z) (x : V) : M (Slice V) unit :=
  s ← mget;
  let ind := individualItems s !! index in
  match ind with
  | Some item => mmodify (λ s, with_individual s index (removeVal (Values item) obj).1)
  | None => mret tt
  end;;
  s ← mget;
  shared ← mlift (index_at (sharedItems s) index);
  if decide (x = shared) then mret tt
  else match individualItems s !! index with
       | None => mmodify (λ s, with_individual s index (Values (single x obj)))
       | Some item => mmodify (λ s, with_individual s index (addVal (Values item) x obj))
       end.

Definition updateAppendedItem (obj : Id) (index : Z) (x : V) : M (Slice V) unit :=
  s ← mget;
  let k := index - len (sharedItems s) in
  item ← mlift (index_at (appendedItems s) k);
  let '(vs, found) := removeVal (Values item) obj in
  if found then
    mmodify (λ s, with_appended s
      (<[Z.to_nat k := Build_MultiValueItem (addVal vs x obj)]> (appendedItems s)))
  else mfail ErrOutOfBounds.

Definition UpdateAt (obj : Id) (index : Z) (x : V) : M (Slice V) unit :=
  s ← mget;
  if index >=? len (sharedItems s) + len (appendedItems s) then mfail ErrOutOfBounds
  else if index <? len (sharedItems s) then updateOriginalItem obj index x
  else updateAppendedItem obj index x.

(** The loop of [Append] over the appended items: the first one without a value of
    the object gets it; [None] when there is none. *)
Fixpoint appendLoop (items : list (MultiValueItem V)) (obj : Id) (x : V)
    : option (list (MultiValueItem V)) :=
  match items with
  | [] => None
  | item :: items' =>
      match findVal (Values item) obj with
      | Some _ => items' ← appendLoop items' obj x; Some (item :: items')
      | None => Some (Build_MultiValueItem (addVal (Values item) x obj) :: items')
      end
  end.

Definition Append (s : Slice V) (obj : Id) (x : V) : Slice V :=
  if (length (appendedItems s) =? 0)%nat then
    with_length (with_appended s (appendedItems s ++ [single x obj])) obj (len (sharedItems s) + 1)
  else
    match appendLoop (appendedItems s) obj x with
    | Some apps =>
        with_length (with_appended s apps) obj
          (match cachedLengths s !! obj with Some l => l + 1 | None => len (sharedItems s) + 1 end)
    | None =>
        with_length (with_appended s (appendedItems s ++ [single x obj])) obj
          (default 0 (cachedLengths s !! obj) + 1)
    end.

(** What [Detach] leaves of one individual item; [None] deletes the map entry. *)
Definition detachItem (obj : Id) (item : MultiValueItem V) : option (MultiValueItem V) :=
  match findIndex (Values item) obj with
  | Some (_, v, _) =>
      if (length (ids v) =? 1)%nat && (length (Values item) =? 1)%nat then None
      else Some (Build_MultiValueItem (removeVal (Values item) obj).1)
  | None => Some item
  end.

Fixpoint detachAppended (items : list (MultiValueItem V)) (obj : Id) : list (MultiValueItem V) :=
  match items with
  | [] => []
  | item :: items' =>
      let '(vs, found) := removeVal (Values item) obj in
      Build_MultiValueItem vs :: (if found then detachAppended items' obj else items')
  end.

Definition Detach (s : Slice V) (obj : Id) : Slice V :=
  Build_Slice (sharedItems s) (omap (detachItem obj) (individualItems s))
    (detachAppended (appendedItems s) obj) (delete obj (cachedLengths s)).

(** ** Statistics *)
Record MultiValueStatistics := {
  TotalIndividualElements : Z; TotalAppendedElements : Z;
  TotalIndividualElemReferences : Z; TotalAppendedElemReferences : Z }.

Definition refs (item : MultiValueItem V) : Z :=
  foldl (λ n v, n + len (ids v)) 0 (Values item).
Definition totalRefs (items : list (MultiValueItem V)) : Z :=
  foldl (λ n item, n + refs item) 0 items.
Definition StatisticsOf (s : Slice V) : MultiValueStatistics :=
  {| TotalIndividualElements := Z.of_nat (size (individualItems s));
     TotalAppendedElements := len (appendedItems s);
     TotalIndividualElemReferences := totalRefs ((map_to_list (individualItems s)).*2);
     TotalAppendedElemReferences := totalRefs (appendedItems s) |}.

Definition fragmentationLimit : Z := 50000.
Definition IsFragmented (s : Slice V) : bool :=
  let stats := StatisticsOf s in
  TotalIndividualElemReferences stats + TotalAppendedElemReferences stats >=? fragmentationLimit.

(** ** Reset: a new slice whose shared items are those of the object *)

(** [for i, ind := range s.individualItems], in the order [order] the runtime
    picks. *)
Fixpoint resetIndividual (order : list (Z * MultiValueItem V)) (obj : Id) (items : list V)
    : gores (list V) :=
  match order with
  | [] => Ok items
  | (i, ind) :: order' =>
      match findVal (Values ind) obj with
      | Some v => items ← assign items i v; resetIndividual order' obj items
      | None => resetIndividual order' obj items
      end
  end.

(** The loop over the appended items with its [found := true]: an item without
    values does not end it. *)
Fixpoint resetAppended (apps : list (MultiValueItem V)) (obj : Id) (index : Z) (items : list V)
    : gores (list V) :=
  match apps with
  | [] => Ok items
  | app :: apps' =>
      match findVal (Values app) obj with
      | Some v => items ← assign items index v; resetAppended apps' obj (index + 1) items
      | None => match Values app with
                | [] => resetAppended apps' obj index items
                | _ => Ok items
                end
      end
  end.

(** [copy(items, s.sharedItems)] *)
Definition copy_into {T} (items from : list T) : list T :=
  take (length items) from ++ drop (length from) items.

Definition Reset (order : list (Z * MultiValueItem V)) (s : Slice V) (obj : Id) : gores (Slice V) :=
  let l := match cachedLengths s !! obj with Some l => l | None => len (sharedItems s) end in
  let items := copy_into (replicate (Z.to_nat l) zero) (sharedItems s) in
  items ← resetIndividual order obj items;
  items ← resetAppended (appendedItems s) obj (len (sharedItems s)) items;
  Ok (Init items).

End mvslice.

(** ** A plain slice behind the same interface *)
Record EmptyMVSlice (V : Type) := { fullSlice : list V }.
Arguments fullSlice {V} e.
Arguments Build_EmptyMVSlice {V} fullSlice.

Definition EmptyLen {V} (e : EmptyMVSlice V) (obj : Id) : Z := len (fullSlice e).
Definition EmptyAt {V} (e : EmptyMVSlice V) (obj : Id) (index : Z) : gores V :=
  if index >=? len (fullSlice e) then Err ErrOutOfBounds else index_at (fullSlice e) index.
Definition EmptyValue {V} (e : EmptyMVSlice V) (obj : Id) : gores (list V) := Ok (fullSlice e).

Definition BuildEmptyCompositeSlice {V} (values : list V) : EmptyMVSlice V :=
  Build_EmptyMVSlice values.
