(* ===== verification/MVSliceFacts.v ===== *)
(** * The multi-value slice gives each object a list of its own

    [view s id] is the list the object [id] sees.  An item is abstracted by its
    table from ids to values; the loops over values are permutations of the
    association list behind it, so the order [deleteElemFromSlice] leaves does not
    matter.  [inv] is the invariant of the structure; every method keeps it and acts
    on the views as the same operation on plain lists. *)
From S2P Require Import Prelude MVSlice.

(** ** Lists *)
Lemma containsId_Some l x i : containsId l x = Some i → l !! i = Some x.
Proof.
  revert i. induction l as [|y l IH]; intros i; simpl; [done|].
  destruct (Z.eqb_spec y x); [intros; by simplify_eq|].
  destruct (containsId l x) as [j|]; intros; simplify_eq/=. by apply IH.
Qed.

Lemma containsId_None l x : containsId l x = None ↔ x ∉ l.
Proof.
  induction l as [|y l IH]; simpl; [split; [by intros _ ?%not_elem_of_nil|done]|].
  rewrite not_elem_of_cons. destruct (Z.eqb_spec y x); [naive_solver|].
  destruct (containsId l x) as [j|]; simpl; naive_solver.
Qed.

Lemma deleteElem_perm {T} (l : list T) i x : l !! i = Some x → l ≡ₚ x :: deleteElemFromSlice l i.
Proof.
  intros Hi. apply list_elem_of_split_length in Hi as (l1 & l2 & -> & ->).
  unfold deleteElemFromSlice. destruct l2 as [|y l2 _] using rev_ind.
  - rewrite last_snoc, length_app, insert_app_r_alt by lia. rewrite Nat.sub_diag. simpl.
    replace (length l1 + 1 - 1)%nat with (length l1) by lia. rewrite take_app_length. 
    by rewrite Permutation_app_comm.
  - rewrite app_comm_cons, app_assoc, last_snoc, length_app. simpl.
    rewrite <-app_assoc, <-app_comm_cons. rewrite insert_app_r_alt by lia. rewrite Nat.sub_diag. simpl.
    assert (take (length (l1 ++ x :: l2) + 1 - 1) (l1 ++ y :: l2 ++ [y]) = l1 ++ y :: l2) as ->
      by (rewrite app_comm_cons, app_assoc; apply take_app_length'; rewrite !length_app; simpl; lia).
    rewrite <-Permutation_middle. by rewrite <-Permutation_cons_append.
Qed.

Section item.
Context {V : Type} `{EqDecision V}.
Implicit Types vs : list (Value V).

(** ** One item *)
Definition pairs vs : list (Id * V) := vs ≫= λ w, (λ x, (x, val w)) <$> ids w.
Definition table vs : gmap Id V := list_to_map (pairs vs).
Definition item_ok vs : Prop := NoDup (pairs vs).*1.

Lemma pairs_cons w vs : pairs (w :: vs) = ((λ x, (x, val w)) <$> ids w) ++ pairs vs.
Proof. done. Qed.

Lemma pairs_app vs vs' : pairs (vs ++ vs') = pairs vs ++ pairs vs'.
Proof. apply bind_app. Qed.

Lemma same_value_lookup (l : list Id) (v : V) (m : gmap Id V) id :
  (list_to_map ((λ x, (x, v)) <$> l) ∪ m) !! id = if hasId l id then Some v else m !! id.
Proof.
  unfold hasId. induction l as [|x l IH]; [by rewrite fmap_nil, list_to_map_nil, (left_id_L ∅ (∪))|].
  rewrite fmap_cons, list_to_map_cons, <-insert_union_l. cbn [containsId].
  destruct (Z.eqb_spec x id) as [->|Hne]; [by rewrite lookup_insert_eq|].
  rewrite lookup_insert_ne by done. rewrite IH. by destruct (containsId l id).
Qed.

Lemma findVal_table vs id : findVal vs id = table vs !! id.
Proof.
  induction vs as [|w vs IH]; [done|]. cbn [findVal]. unfold table in *.
  by rewrite pairs_cons, list_to_map_app, same_value_lookup, IH.
Qed.

Lemma table_perm vs vs' : item_ok vs → pairs vs ≡ₚ pairs vs' → item_ok vs' ∧ table vs' = table vs.
Proof.
  unfold item_ok, table. intros Hok Hp. split; [by rewrite <-Hp|]. symmetry. by apply list_to_map_proper.
Qed.

Lemma table_cons vs vs' id x : item_ok vs → table vs !! id = None → pairs vs' ≡ₚ (id, x) :: pairs vs →
  item_ok vs' ∧ table vs' = <[id := x]> (table vs).
Proof.
  intros Hok Hid Hp. assert (NoDup (((id, x) :: pairs vs).*1)) as Hnd.
  { rewrite fmap_cons. apply NoDup_cons. split; [|done]. by apply not_elem_of_list_to_map_2. }
  split; [unfold item_ok; by rewrite Hp|]. unfold table. symmetry. rewrite <-list_to_map_cons.
  by apply list_to_map_proper.
Qed.

Lemma table_uncons vs vs' id x : item_ok vs → pairs vs ≡ₚ (id, x) :: pairs vs' →
  item_ok vs' ∧ table vs' = delete id (table vs).
Proof.
  unfold item_ok. intros Hok Hp. assert (NoDup (((id, x) :: pairs vs').*1)) as Hnd by (by rewrite <-Hp).
  pose proof Hnd as Hnd'. rewrite fmap_cons in Hnd'. apply NoDup_cons in Hnd' as [Hnin Hnd']. split; [done|].
  unfold table. rewrite (list_to_map_proper _ _ Hok Hp), list_to_map_cons.
  rewrite delete_insert_id; [done|]. by apply not_elem_of_list_to_map_1.
Qed.

Lemma addVal_perm vs x id : pairs (addVal vs x id) ≡ₚ (id, x) :: pairs vs.
Proof.
  induction vs as [|w vs IH]; [done|]. cbn [addVal]. destruct (decide (val w = x)) as [<-|Hne].
  - rewrite !pairs_cons. simpl. rewrite fmap_app, <-app_assoc. simpl. by rewrite Permutation_middle.
  - rewrite !pairs_cons, IH. by rewrite Permutation_middle.
Qed.

Lemma copyVal_spec vs src dst :
  match table vs !! src with
  | Some v => ∃ vs', copyVal vs src dst = (vs', true) ∧ pairs vs' ≡ₚ (dst, v) :: pairs vs
  | None => copyVal vs src dst = (vs, false)
  end.
Proof.
  rewrite <-findVal_table. induction vs as [|w vs IH]; [done|]. cbn [findVal copyVal].
  destruct (hasId (ids w) src).
  - eexists. split; [done|]. rewrite !pairs_cons. simpl. rewrite fmap_app, <-app_assoc. simpl.
    by rewrite Permutation_middle.
  - destruct (findVal vs src) as [v|].
    + destruct IH as (vs' & -> & Hp). eexists. split; [done|]. rewrite !pairs_cons, Hp.
      by rewrite Permutation_middle.
    + by rewrite IH.
Qed.

Lemma findIndex_spec vs id :
  match findIndex vs id with
  | Some (vi, w, fi) => vs !! vi = Some w ∧ ids w !! fi = Some id ∧ findVal vs id = Some (val w)
  | None => findVal vs id = None
  end.
Proof.
  induction vs as [|w vs IH]; [done|]. cbn [findVal findIndex]. unfold hasId.
  destruct (containsId (ids w) id) as [fi|] eqn:Hc; [by apply containsId_Some in Hc|].
  destruct (findIndex vs id) as [[[vi w'] fi]|]; done.
Qed.

Lemma pairs_perm vs vs' : vs ≡ₚ vs' → pairs vs ≡ₚ pairs vs'.
Proof. intros Hp. unfold pairs. by rewrite Hp. Qed.

Lemma removeVal_spec vs id :
  match table vs !! id with
  | Some v => ∃ vs', removeVal vs id = (vs', true) ∧ pairs vs ≡ₚ (id, v) :: pairs vs'
  | None => removeVal vs id = (vs, false)
  end.
Proof.
  rewrite <-findVal_table. unfold removeVal. pose proof (findIndex_spec vs id) as H.
  destruct (findIndex vs id) as [[[vi w] fi]|]; [|by rewrite H].
  destruct H as (Hvi & Hfi & ->). destruct (Nat.eqb_spec (length (ids w)) 1) as [H1|H1].
  - eexists. split; [done|]. rewrite (pairs_perm _ _ (deleteElem_perm _ _ _ Hvi)), pairs_cons.
    destruct (ids w) as [|y [|? ?]]; simplify_eq/=. destruct fi; by simplify_eq/=.
  - eexists. split; [done|]. 
    apply list_elem_of_split_length in Hvi as (l1 & l2 & -> & ->).
    rewrite insert_app_r_alt, Nat.sub_diag by lia. cbn [insert list_insert].
    rewrite !pairs_app, !pairs_cons. cbn [ids val].
    rewrite (deleteElem_perm _ _ _ Hfi) at 1. rewrite fmap_cons. cbn [app]. by rewrite <-Permutation_middle.
Qed.

(** The three loops on tables. *)
Lemma removeVal_table vs id : item_ok vs →
  item_ok (removeVal vs id).1 ∧ table (removeVal vs id).1 = delete id (table vs) ∧
  (removeVal vs id).2 = bool_decide (is_Some (table vs !! id)).
Proof.
  intros Hok. pose proof (removeVal_spec vs id) as H. destruct (table vs !! id) as [v|] eqn:Hid.
  - destruct H as (vs' & -> & Hp). destruct (table_uncons vs vs' id v Hok Hp). split_and!; [done|done|]. symmetry. by apply bool_decide_eq_true_2.
  - rewrite H. split_and!; [done|by rewrite delete_id|]. symmetry; apply bool_decide_eq_false_2; by inversion 1.
Qed.

Lemma addVal_table vs x id : item_ok vs → table vs !! id = None →
  item_ok (addVal vs x id) ∧ table (addVal vs x id) = <[id := x]> (table vs).
Proof. intros Hok Hid. eapply table_cons; [done|done|apply addVal_perm]. Qed.

Lemma copyVal_table vs src dst : item_ok vs → table vs !! dst = None →
  item_ok (copyVal vs src dst).1 ∧
  table (copyVal vs src dst).1 = partial_alter (λ _, table vs !! src) dst (table vs) ∧
  (copyVal vs src dst).2 = bool_decide (is_Some (table vs !! src)).
Proof.
  intros Hok Hdst. pose proof (copyVal_spec vs src dst) as H. destruct (table vs !! src) as [v|] eqn:Hid.
  - destruct H as (vs' & -> & Hp). destruct (table_cons vs vs' dst v Hok Hdst Hp). split_and!; [done|done|]. symmetry. by apply bool_decide_eq_true_2.
  - rewrite H. split_and!; [done| |symmetry; apply bool_decide_eq_false_2; by inversion 1].
    symmetry. by apply partial_alter_id.
Qed.
End item.

(** ** The appended items as columns: what object [id] has at position [k] *)
Section columns.
Context {V : Type} `{EqDecision V}.
Implicit Types items : list (MultiValueItem V).

Definition col items (id : Id) (k : nat) : option V := it ← items !! k; table (Values it) !! id.
Definition items_ok items : Prop := Forall (λ it, item_ok (Values it)) items.
Definition gap_free items : Prop := ∀ id k, is_Some (col items id (S k)) → is_Some (col items id k).

Fixpoint app_view items (id : Id) : list V :=
  match items with
  | [] => []
  | it :: items' =>
      match table (Values it) !! id with Some v => v :: app_view items' id | None => [] end
  end.

Lemma gap_none items id j k : gap_free items → col items id j = None → (j ≤ k)%nat → col items id k = None.
Proof.
  intros Hg Hj Hle. induction Hle as [|k Hle IH]; [done|].
  destruct (col items id (S k)) eqn:Hk; [|done]. destruct (Hg id k); [by rewrite Hk|congruence].
Qed.

Lemma gap_free_tail it items : gap_free (it :: items) → gap_free items.
Proof. intros Hg id k. apply (Hg id (S k)). Qed.

Lemma app_view_lookup items id k : gap_free items → app_view items id !! k = col items id k.
Proof.
  revert k. induction items as [|it items IH]; intros k Hg; [done|]. cbn [app_view].
  destruct (table (Values it) !! id) as [v|] eqn:Ht.
  - destruct k as [|k]; [done|]. simpl. apply IH. by eapply gap_free_tail.
  - rewrite (gap_none (it :: items) id 0 k); [done|done|done|lia].
Qed.

Lemma app_view_ext items items' id id' : gap_free items → gap_free items' →
  (∀ k, col items id k = col items' id' k) → app_view items id = app_view items' id'.
Proof. intros H1 H2 He. apply list_eq. intros k. by rewrite !app_view_lookup, He. Qed.

Lemma app_view_nil items id : gap_free items → app_view items id = [] ↔ ∀ k, col items id k = None.
Proof.
  intros Hg. split; [intros Hnil k; by rewrite <-app_view_lookup, Hnil|].
  intros Hn. apply list_eq. intros k. by rewrite app_view_lookup, Hn.
Qed.

Lemma col_length items id : gap_free items → ∀ k, (k < length (app_view items id))%nat ↔ is_Some (col items id k).
Proof. intros Hg k. by rewrite <-app_view_lookup, lookup_lt_is_Some. Qed.

Lemma app_view_le items id : (length (app_view items id) ≤ length items)%nat.
Proof.
  induction items as [|it items IH]; simpl; [done|]. destruct (_ !! id); simpl; lia.
Qed.

(** *** [Copy] *)
Lemma copyAppended_spec items src dst : items_ok items → gap_free items → (∀ k, col items dst k = None) →
  items_ok (copyAppended items src dst) ∧
  ∀ x k, col (copyAppended items src dst) x k = if decide (x = dst) then col items src k else col items x k.
Proof.
  induction items as [|it items IH]; intros Hok Hg Hdst.
  { split; [done|]. intros x k. by case_decide. }
  apply Forall_cons in Hok as [Hit Hok]. cbn [copyAppended].
  destruct (copyVal_table (Values it) src dst Hit (Hdst 0%nat)) as (Hok' & Ht & Hf).
  destruct (copyVal (Values it) src dst) as [vs found]. simpl in *.
  destruct (IH Hok (gap_free_tail _ _ Hg) (λ k, Hdst (S k))) as [IHok IHcol].
  split; [constructor; [done|by destruct found]|].
  intros x [|k].
  - unfold col. simpl. rewrite Ht. destruct (decide (x = dst)) as [->|Hne].
    + by rewrite lookup_partial_alter_eq.
    + by rewrite lookup_partial_alter_ne.
  - change (col (Build_MultiValueItem vs :: ?l) x (S k)) with (col l x k).
    change (col (it :: items) ?i (S k)) with (col items i k).
    destruct found; [apply IHcol|]. case_decide as Hx; [|done]. subst x.
    symmetry in Hf. apply bool_decide_eq_false in Hf. rewrite <-eq_None_not_Some in Hf.
    rewrite (Hdst (S k) : col items dst k = None). symmetry.
    by apply (gap_none (it :: items) src 0 (S k)); [|done|lia].
Qed.

(** *** [Detach] *)
Lemma detachAppended_spec items obj : items_ok items → gap_free items →
  items_ok (detachAppended items obj) ∧
  ∀ x k, col (detachAppended items obj) x k = if decide (x = obj) then None else col items x k.
Proof.
  induction items as [|it items IH]; intros Hok Hg.
  { split; [done|]. intros x k. by case_decide. }
  apply Forall_cons in Hok as [Hit Hok]. cbn [detachAppended].
  destruct (removeVal_table (Values it) obj Hit) as (Hok' & Ht & Hf).
  destruct (removeVal (Values it) obj) as [vs found]. simpl in *.
  destruct (IH Hok (gap_free_tail _ _ Hg)) as [IHok IHcol].
  split; [constructor; [done|by destruct found]|].
  intros x [|k].
  - unfold col. simpl. rewrite Ht. destruct (decide (x = obj)) as [->|Hne].
    + by rewrite lookup_delete_eq.
    + by rewrite lookup_delete_ne.
  - change (col (Build_MultiValueItem vs :: ?l) x (S k)) with (col l x k).
    change (col (it :: items) ?i (S k)) with (col items i k).
    destruct found; [apply IHcol|]. case_decide as Hx; [|done]. subst x.
    symmetry in Hf. apply bool_decide_eq_false in Hf. rewrite <-eq_None_not_Some in Hf.
    by apply (gap_none (it :: items) obj 0 (S k)); [|done|lia].
Qed.

(** *** [Append] and [UpdateAt]: one cell of one column is written *)
Definition writes (items apps : list (MultiValueItem V)) (obj : Id) (n : nat) (v : V) : Prop :=
  items_ok apps ∧
  ∀ x k, col apps x k = if decide (x = obj ∧ k = n) then Some v else col items x k.

Lemma single_col (v : V) obj x k :
  col [single v obj] x k = if decide (x = obj ∧ k = 0%nat) then Some v else None.
Proof.
  unfold col. destruct k as [|k]; simpl; [|by rewrite decide_False by naive_solver].
  unfold table. simpl. destruct (decide (x = obj)) as [->|Hne].
  - rewrite lookup_insert_eq. by rewrite decide_True.
  - rewrite lookup_insert_ne by done. by rewrite decide_False by naive_solver.
Qed.

Lemma single_ok (v : V) obj : item_ok (Values (single v obj)).
Proof. apply NoDup_singleton. Qed.

Lemma snoc_writes items v obj : items_ok items → writes items (items ++ [single v obj]) obj (length items) v.
Proof.
  intros Hok. split; [apply Forall_app; split; [done|by apply Forall_singleton, single_ok]|]. intros x k.
  destruct (decide (k < length items)%nat) as [Hlt|Hge].
  - unfold col. rewrite lookup_app_l by done. by rewrite decide_False by lia.
  - trans (col [single v obj] x (k - length items)).
    { unfold col. by rewrite lookup_app_r by lia. }
    rewrite single_col. destruct (decide (x = obj ∧ k = length items)) as [[-> ->]|Hne].
    + by rewrite decide_True by (split; [done|lia]).
    + rewrite decide_False by (intros [-> ?]; apply Hne; split; [done|lia]).
      unfold col. by rewrite lookup_ge_None_2 by lia.
Qed.

Lemma appendLoop_spec items obj v : items_ok items → gap_free items →
  match appendLoop items obj v with
  | Some apps => writes items apps obj (length (app_view items obj)) v
  | None => length (app_view items obj) = length items
  end.
Proof.
  induction items as [|it items IH]; intros Hok Hg; [done|].
  apply Forall_cons in Hok as [Hit Hok]. cbn [appendLoop app_view]. rewrite findVal_table.
  destruct (table (Values it) !! obj) as [w|] eqn:Ht.
  - specialize (IH Hok (gap_free_tail _ _ Hg)). destruct (appendLoop items obj v) as [apps|]; simpl; [|by f_equal].
    destruct IH as [IHok IHcol]. split; [by constructor|]. intros x [|k].
    + by rewrite decide_False by naive_solver.
    + change (col (it :: ?l) x (S k)) with (col l x k). rewrite IHcol. by repeat case_decide; naive_solver.
  - destruct (addVal_table (Values it) v obj Hit Ht) as [Hok' Ht'].
    split; [by constructor|]. intros x [|k].
    + unfold col. simpl. rewrite Ht'. destruct (decide (x = obj)) as [->|Hne].
      * rewrite lookup_insert_eq. by rewrite decide_True.
      * rewrite lookup_insert_ne by done. by rewrite decide_False by naive_solver.
    + by rewrite decide_False by naive_solver.
Qed.

Lemma writes_gap_free items apps obj n v : gap_free items → (n ≤ length (app_view items obj))%nat →
  writes items apps obj n v → gap_free apps.
Proof.
  intros Hg Hn [_ Hcol] x k. rewrite !Hcol. destruct (decide (x = obj ∧ k = n)); [done|].
  destruct (decide (x = obj ∧ S k = n)) as [[-> <-]|_]; [|apply Hg].
  intros _. apply col_length; [done|lia].
Qed.

Lemma writes_other items apps obj n v x : gap_free items → gap_free apps → writes items apps obj n v →
  x ≠ obj → app_view apps x = app_view items x.
Proof.
  intros Hg Hg' [_ Hcol] Hx. apply app_view_ext; [done|done|]. intros k. rewrite Hcol.
  by rewrite decide_False by naive_solver.
Qed.

Lemma writes_append items apps obj v : gap_free items → gap_free apps →
  writes items apps obj (length (app_view items obj)) v →
  app_view apps obj = app_view items obj ++ [v].
Proof.
  intros Hg Hg' [_ Hcol]. apply list_eq. intros k. rewrite app_view_lookup, Hcol by done.
  destruct (decide (obj = obj ∧ k = _)) as [[_ ->]|Hne].
  - by rewrite lookup_app_r, Nat.sub_diag by lia.
  - destruct (decide (k < length (app_view items obj))%nat).
    + rewrite lookup_app_l by done. by rewrite app_view_lookup.
    + rewrite lookup_ge_None_2 by (rewrite length_app; simpl; naive_solver lia).
      rewrite <-app_view_lookup by done. apply lookup_ge_None_2. lia.
Qed.

Lemma writes_update items apps obj n v : gap_free items → gap_free apps →
  writes items apps obj n v → (n < length (app_view items obj))%nat →
  app_view apps obj = <[n := v]> (app_view items obj).
Proof.
  intros Hg Hg' [_ Hcol] Hn. apply list_eq. intros k. rewrite app_view_lookup, Hcol by done.
  destruct (decide (obj = obj ∧ k = n)) as [[_ ->]|Hne].
  - by rewrite list_lookup_insert_eq.
  - rewrite list_lookup_insert_ne by naive_solver. by rewrite app_view_lookup.
Qed.

Lemma replace_writes items n it obj v : items_ok items → items !! n = Some it →
  writes items (<[n := Build_MultiValueItem (addVal (removeVal (Values it) obj).1 v obj)]> items) obj n v.
Proof.
  intros Hok Hn. pose proof (Forall_lookup_1 _ _ _ _ Hok Hn) as Hit. simpl in Hit.
  destruct (removeVal_table (Values it) obj Hit) as (Hok1 & Ht1 & _).
  destruct (addVal_table (removeVal (Values it) obj).1 v obj Hok1) as [Hok2 Ht2].
  { by rewrite Ht1, lookup_delete_eq. }
  split; [by apply Forall_insert|]. intros x k. unfold col.
  destruct (decide (k = n)) as [->|Hk].
  - rewrite list_lookup_insert_eq by (by eapply lookup_lt_Some). rewrite Hn. simpl. rewrite Ht2, Ht1.
    destruct (decide (x = obj)) as [->|Hx].
    + by rewrite lookup_insert_eq, decide_True.
    + rewrite lookup_insert_ne, lookup_delete_ne by done. by rewrite decide_False by naive_solver.
  - rewrite list_lookup_insert_ne by done. by rewrite decide_False by naive_solver.
Qed.
End columns.

(** ** The slice *)
Section slice.
Context {V : Type} `{EqDecision V} (zero : V).
Implicit Types s : Slice V.

Definition ind_at s (i : Z) (id : Id) : option V :=
  it ← individualItems s !! i; table (Values it) !! id.

(** The list that object [id] sees. *)
Definition originals s (id : Id) : list V :=
  imap (λ i x, default x (ind_at s (Z.of_nat i) id)) (sharedItems s).
Definition view s (id : Id) : list V := originals s id ++ app_view (appendedItems s) id.

Record inv s : Prop := {
  inv_item : ∀ i it, individualItems s !! i = Some it → item_ok (Values it) ∧ 0 ≤ i < len (sharedItems s);
  inv_items : items_ok (appendedItems s);
  inv_gap : gap_free (appendedItems s);
  inv_cached : ∀ id, match cachedLengths s !! id with
    | Some l => l = len (sharedItems s) + len (app_view (appendedItems s) id)
    | None => app_view (appendedItems s) id = []
    end
}.

(** [id] has no value of its own: it was never written, or was detached. *)
Definition fresh s (id : Id) : Prop :=
  cachedLengths s !! id = None ∧ (∀ i, ind_at s i id = None) ∧ ∀ k, col (appendedItems s) id k = None.

Lemma originals_length s id : length (originals s id) = length (sharedItems s).
Proof. apply length_imap. Qed.

Lemma originals_ext s s' id id' : sharedItems s = sharedItems s' →
  (∀ i, ind_at s i id = ind_at s' i id') → originals s id = originals s' id'.
Proof. intros Hs He. unfold originals. rewrite Hs. apply imap_ext. intros i x _. by rewrite He. Qed.

Lemma fresh_view s id : inv s → fresh s id → view s id = sharedItems s.
Proof.
  intros Hinv (_ & Hind & Hcol). unfold view, originals.
  rewrite (proj2 (app_view_nil _ id (inv_gap _ Hinv)) Hcol), app_nil_r.
  apply list_eq. intros k. rewrite list_lookup_imap, Hind. simpl. by destruct (_ !! k).
Qed.

Lemma Init_inv (items : list V) : inv (Init items).
Proof.
  split; simpl; [by intros ? ?; rewrite lookup_empty|constructor| |].
  - intros id k. unfold col. by rewrite lookup_nil.
  - intros id. by rewrite lookup_empty.
Qed.
Lemma Init_fresh (items : list V) id : fresh (Init items) id.
Proof. split_and!; [apply lookup_empty| |]; intros k; unfold ind_at, col; simpl; by rewrite ?lookup_empty, ?lookup_nil. Qed.

(** *** Reading *)
Lemma Len_spec s id : inv s → Len s id = len (view s id).
Proof.
  intros Hinv. unfold Len, len, view. rewrite length_app, originals_length.
  pose proof (inv_cached s Hinv id) as H. destruct (cachedLengths s !! id) as [l|].
  - rewrite H. unfold len. lia.
  - rewrite H. simpl. lia.
Qed.

Lemma ind_val s i id x :
  match individualItems s !! i with
  | None => x
  | Some ind => match findVal (Values ind) id with Some v => v | None => x end
  end = default x (ind_at s i id).
Proof.
  unfold ind_at. destruct (individualItems s !! i) as [it|]; simpl; [|done].
  rewrite findVal_table. by destruct (table _ !! id).
Qed.

Lemma assign_middle {T} (pre post : list T) y x : assign (pre ++ y :: post) (len pre) x = Ok (pre ++ x :: post).
Proof.
  unfold assign, len. rewrite (proj2 (Z.leb_le _ _)) by lia.
  rewrite (proj2 (Z.ltb_lt _ _)) by (rewrite length_app; simpl; lia). simpl.
  by rewrite Nat2Z.id, insert_app_r_alt, Nat.sub_diag by lia.
Qed.

Lemma fillOriginalItems_spec s obj shared pre mid post : length mid = length shared →
  fillOriginalItems s obj shared (len pre) (pre ++ mid ++ post) =
  Ok (pre ++ imap (λ j x, default x (ind_at s (len pre + Z.of_nat j) obj)) shared ++ post).
Proof.
  revert pre mid. induction shared as [|x shared IH]; intros pre mid Hm.
  { destruct mid; [|done]. done. }
  destruct mid as [|y mid]; simplify_eq/=. rewrite ind_val, assign_middle. cbn [mbind gores_bind].
  set (v := default x _). replace (len pre + 1) with (len (pre ++ [v])) by (unfold len; rewrite length_app; simpl; lia).
  replace (pre ++ v :: mid ++ post) with ((pre ++ [v]) ++ mid ++ post) by (by rewrite <-app_assoc).
  rewrite IH by done. f_equal. rewrite <-app_assoc. simpl. f_equal.
  rewrite Z.add_0_r. fold v. f_equal. f_equal. apply imap_ext. intros j w _. simpl. f_equal. f_equal.
  unfold len. rewrite length_app. simpl. lia.
Qed.

Lemma fillOriginalItems_all s obj post :
  fillOriginalItems s obj (sharedItems s) 0 (replicate (length (sharedItems s)) zero ++ post) =
  Ok (originals s obj ++ post).
Proof. apply (fillOriginalItems_spec s obj (sharedItems s) []), length_replicate. Qed.

Lemma fillAppendedItems_spec apps obj pre mid : (length (app_view apps obj) ≤ length mid)%nat →
  fillAppendedItems (V := V) apps obj (len pre) (pre ++ mid) =
  Ok (pre ++ app_view apps obj ++ drop (length (app_view apps obj)) mid).
Proof.
  revert pre mid. induction apps as [|it apps IH]; intros pre mid Hm; [done|].
  cbn [fillAppendedItems app_view] in *. rewrite findVal_table.
  destruct (table (Values it) !! obj) as [v|]; [|done].
  destruct mid as [|y mid]; simpl in Hm; [lia|]. rewrite assign_middle. cbn [mbind gores_bind].
  replace (len pre + 1) with (len (pre ++ [v])) by (unfold len; rewrite length_app; simpl; lia).
  replace (pre ++ v :: mid) with ((pre ++ [v]) ++ mid) by (by rewrite <-app_assoc).
  rewrite IH by lia. simpl. by rewrite <-app_assoc.
Qed.

Lemma resetAppended_fill apps obj i items : gap_free apps →
  resetAppended (V := V) apps obj i items = fillAppendedItems apps obj i items.
Proof.
  revert i items. induction apps as [|it apps IH]; intros i items Hg; [done|].
  cbn [resetAppended fillAppendedItems]. rewrite findVal_table.
  pose proof (gap_free_tail _ _ Hg) as Hg'. destruct (table (Values it) !! obj) as [v|] eqn:Ht.
  - destruct (assign items i v); simpl; [by apply IH|done..].
  - assert (col (it :: apps) obj 0 = None) as H0 by done.
    destruct (Values it); [|done]. rewrite IH by done. destruct apps as [|it' apps]; [done|].
    cbn [fillAppendedItems]. rewrite findVal_table.
    change (table (Values it') !! obj) with (col (it :: it' :: apps) obj 1).
    by rewrite (gap_none _ obj 0 1) by (done || lia).
Qed.

Lemma ValueOf_spec s obj : inv s → ValueOf zero s obj = Ok (view s obj).
Proof.
  intros Hinv. unfold ValueOf, view. pose proof (inv_cached s Hinv obj) as Hl.
  destruct (cachedLengths s !! obj) as [l|].
  - subst l. replace (Z.to_nat (len (sharedItems s) + len (app_view (appendedItems s) obj)))
      with (length (sharedItems s) + length (app_view (appendedItems s) obj))%nat by (unfold len; lia).
    rewrite replicate_add.
    rewrite fillOriginalItems_all. cbn [mbind gores_bind].
    replace (len (sharedItems s)) with (len (originals s obj)) by (unfold len; by rewrite originals_length).
    rewrite fillAppendedItems_spec by (rewrite length_replicate; lia).
    rewrite drop_ge by (rewrite length_replicate; lia). by rewrite app_nil_r.
  - by rewrite Hl, <-(app_nil_r (replicate _ _)), fillOriginalItems_all.
Qed.

Definition lookup_or_err (l : list V) (i : Z) : gores V :=
  match l !! Z.to_nat i with Some v => Ok v | None => Err ErrOutOfBounds end.

Lemma view_original s id i : 0 ≤ i < len (sharedItems s) →
  ∃ x, sharedItems s !! Z.to_nat i = Some x ∧ view s id !! Z.to_nat i = Some (default x (ind_at s i id)).
Proof.
  intros Hi. unfold len in Hi. destruct (lookup_lt_is_Some_2 (sharedItems s) (Z.to_nat i)) as [x Hx]; [lia|].
  exists x. split; [done|]. unfold view. rewrite lookup_app_l by (rewrite originals_length; lia).
  unfold originals. rewrite list_lookup_imap, Hx. simpl. by rewrite Z2Nat.id by lia.
Qed.

Lemma view_appended s id i : inv s → len (sharedItems s) ≤ i →
  view s id !! Z.to_nat i = col (appendedItems s) id (Z.to_nat (i - len (sharedItems s))).
Proof.
  intros Hinv Hi. unfold len in *. unfold view. rewrite lookup_app_r by (rewrite originals_length; lia).
  rewrite originals_length, app_view_lookup by apply Hinv. f_equal. lia.
Qed.

Lemma At_spec s obj i : inv s → 0 ≤ i → At s obj i = lookup_or_err (view s obj) i.
Proof.
  intros Hinv Hi. unfold At, lookup_or_err. rewrite Z.geb_leb.
  destruct (Z.leb_spec (len (sharedItems s) + len (appendedItems s)) i) as [Hge|Hlt].
  { rewrite view_appended by (done || unfold len in *; lia). unfold col.
    by rewrite lookup_ge_None_2 by (unfold len in *; lia). }
  destruct (Z.ltb_spec i (len (sharedItems s))) as [Ho|Ha].
  - destruct (view_original s obj i) as (x & Hx & ->); [done|]. unfold index_at. rewrite Hx.
    rewrite <-ind_val. destruct (individualItems s !! i) as [it|]; [|done].
    by destruct (findVal (Values it) obj).
  - rewrite view_appended by done. unfold index_at, col.
    destruct (lookup_lt_is_Some_2 (appendedItems s) (Z.to_nat (i - len (sharedItems s)))) as [it ->];
      [unfold len in *; lia|]. cbn [mbind gores_bind option_bind]. rewrite findVal_table. done.
Qed.
End slice.

(** ** The multi-value slice refines one plain list per object

    Every method of [Slice] that writes changes the list of one object and leaves
    the lists of all others alone; sequences of calls are simulated by a reference
    machine in which each object owns its list. *)
Section writing.
Context {V : Type} `{EqDecision V} (zero : V).
Implicit Types s : Slice V.

(** [s'] is [s] where the object [obj] sees [l]. *)
Record changes s s' (obj : Id) (l : list V) : Prop := {
  ch_inv : inv s';
  ch_shared : sharedItems s' = sharedItems s;
  ch_view : view s' obj = l;
  ch_other : ∀ y, y ≠ obj → view s' y = view s y;
  ch_fresh : ∀ y, y ≠ obj → fresh s y → fresh s' y
}.

(** Appended items and a cached length replaced. *)
Lemma appended_changes s apps n x obj c : inv s →
  writes (appendedItems s) apps obj n x → (n ≤ length (app_view (appendedItems s) obj))%nat →
  (∀ y, y ≠ obj → c !! y = cachedLengths s !! y) →
  (∃ l, c !! obj = Some l ∧ l = len (sharedItems s) + len (app_view apps obj)) →
  changes s (Build_Slice (sharedItems s) (individualItems s) apps c) obj
    (originals s obj ++ app_view apps obj).
Proof.
  intros Hinv Hw Hn Hc (l & Hl & ->). pose proof (inv_gap s Hinv) as Hg.
  pose proof (writes_gap_free _ _ _ _ _ Hg Hn Hw) as Hg'.
  split; simpl; [|done|done| |].
  - split; simpl; [apply Hinv|apply Hw|done|]. intros y. destruct (decide (y = obj)) as [->|Hy]; [by rewrite Hl|].
    rewrite Hc by done. rewrite (writes_other _ _ _ _ _ y Hg Hg' Hw Hy). apply Hinv.
  - intros y Hy. unfold view. simpl. by rewrite (writes_other _ _ _ _ _ y Hg Hg' Hw Hy).
  - intros y Hy (Hf1 & Hf2 & Hf3). split_and!; simpl; [by rewrite Hc|done|].
    intros k. rewrite (proj2 Hw). by rewrite decide_False by naive_solver.
Qed.

Lemma Append_shape s obj x : inv s → ∃ apps,
  writes (appendedItems s) apps obj (length (app_view (appendedItems s) obj)) x ∧
  Append s obj x = with_length (with_appended s apps) obj
    (len (sharedItems s) + len (app_view (appendedItems s) obj) + 1).
Proof.
  intros Hinv. unfold Append. pose proof (inv_cached s Hinv obj) as Hc.
  pose proof (snoc_writes _ x obj (inv_items s Hinv)) as Hsnoc.
  pose proof (appendLoop_spec _ obj x (inv_items s Hinv) (inv_gap s Hinv)) as Hloop.
  destruct (Nat.eqb_spec (length (appendedItems s)) 0) as [H0|H0].
  - exists (appendedItems s ++ [single x obj]). destruct (appendedItems s); [|done]. split; [done|].
    unfold len at 3. simpl. by rewrite Z.add_0_r.
  - destruct (appendLoop (appendedItems s) obj x) as [apps|].
    + exists apps. split; [done|]. f_equal. destruct (cachedLengths s !! obj) as [l|].
      * by subst l.
      * rewrite Hc. unfold len at 3. simpl. lia.
    + exists (appendedItems s ++ [single x obj]). rewrite Hloop. split; [done|]. f_equal.
      destruct (cachedLengths s !! obj) as [l|]; simpl; [by subst l|].
      rewrite Hc in Hloop. simpl in Hloop. lia.
Qed.

Lemma Append_spec s obj x : inv s → changes s (Append s obj x) obj (view s obj ++ [x]).
Proof.
  intros Hinv. destruct (Append_shape s obj x Hinv) as (apps & Hw & ->).
  pose proof (inv_gap s Hinv) as Hg. pose proof (writes_gap_free _ _ _ _ _ Hg (le_n _) Hw) as Hg'.
  pose proof (writes_append _ _ _ _ Hg Hg' Hw) as Hview.
  unfold view. rewrite <-app_assoc, <-Hview. unfold with_length, with_appended. simpl.
  eapply appended_changes; try done.
  - intros y Hy. by apply lookup_insert_ne.
  - eexists. split; [apply lookup_insert_eq|]. rewrite Hview. unfold len. rewrite length_app. simpl. lia.
Qed.

(** One individual item replaced. *)
Lemma individual_changes s i vs obj x : inv s → 0 ≤ i < len (sharedItems s) → item_ok vs →
  (∀ y, y ≠ obj → table vs !! y = ind_at s i y) →
  (∀ w, sharedItems s !! Z.to_nat i = Some w → default w (table vs !! obj) = x) →
  changes s (with_individual s i vs) obj (<[Z.to_nat i := x]> (view s obj)).
Proof.
  intros Hinv Hi Hok Hother Hobj.
  assert (∀ y j, ind_at (with_individual s i vs) j y = if decide (j = i) then table vs !! y else ind_at s j y) as Hind.
  { intros y j. unfold ind_at. simpl. case_decide; subst; [by rewrite lookup_insert_eq|by rewrite lookup_insert_ne]. }
  assert (∀ y, y ≠ obj → ∀ j, ind_at (with_individual s i vs) j y = ind_at s j y) as Hsame.
  { intros y Hy j. rewrite Hind. case_decide; subst; auto. }
  split; simpl; [|done| | |].
  - split; simpl; [|apply Hinv..]. intros j it. rewrite lookup_insert_Some.
    intros [[<- <-]|[_ Hj]]; [done|]. by apply (inv_item s Hinv).
  - unfold view. simpl. rewrite insert_app_l by (rewrite originals_length; unfold len in Hi; lia). f_equal.
    apply list_eq. intros k. unfold originals. simpl. rewrite list_lookup_imap.
    destruct (decide (k = Z.to_nat i)) as [->|Hk].
    + destruct (lookup_lt_is_Some_2 (sharedItems s) (Z.to_nat i)) as [w Hw]; [unfold len in Hi; lia|].
      rewrite list_lookup_insert_eq by (rewrite length_imap; unfold len in Hi; lia). rewrite Hw. simpl.
      rewrite Hind, Z2Nat.id by lia. rewrite decide_True by done. f_equal. by apply Hobj.
    + rewrite list_lookup_insert_ne, list_lookup_imap by done. destruct (_ !! k); [|done]. simpl.
      rewrite Hind. by rewrite decide_False by lia.
  - intros y Hy. unfold view. f_equal. apply originals_ext; [done|]. by apply Hsame.
  - intros y Hy (Hf1 & Hf2 & Hf3). split_and!; [done| |done]. intros j. by rewrite Hsame.
Qed.

Lemma updateOriginalItem_spec s obj i x : inv s → 0 ≤ i < len (sharedItems s) →
  ∃ s', updateOriginalItem obj i x s = (Ok tt, s') ∧ changes s s' obj (<[Z.to_nat i := x]> (view s obj)).
Proof.
  intros Hinv Hi. unfold updateOriginalItem, mbind, M_bind, mget, mmodify, mlift, mret, M_ret.
  destruct (lookup_lt_is_Some_2 (sharedItems s) (Z.to_nat i)) as [w Hw]; [unfold len in Hi; lia|].
  destruct (individualItems s !! i) as [it|] eqn:Hit.
  - destruct (inv_item s Hinv i it Hit) as [Hok _].
    destruct (removeVal_table (Values it) obj Hok) as (Hok1 & Ht1 & _).
    set (vs := (removeVal (Values it) obj).1) in *. cbn [sharedItems with_individual index_at].
    unfold index_at. rewrite Hw.
    assert (∀ y, y ≠ obj → table vs !! y = ind_at s i y) as Hother.
    { intros y Hy. unfold ind_at. rewrite Hit, Ht1. simpl. by apply lookup_delete_ne. }
    destruct (decide (x = w)) as [->|Hne].
    + eexists. split; [done|]. apply individual_changes; [done|done|done|done|].
      intros w' Hw'. simplify_eq. by rewrite Ht1, lookup_delete_eq.
    + cbn [individualItems with_individual]. rewrite lookup_insert_eq. cbn [Values].
      destruct (addVal_table vs x obj Hok1) as [Hok2 Ht2]; [by rewrite Ht1, lookup_delete_eq|].
      eexists. split; [done|]. unfold with_individual. simpl. rewrite insert_insert_eq.
      apply (individual_changes s i (addVal vs x obj)); [done|done|done| |].
      * intros y Hy. rewrite Ht2, lookup_insert_ne by done. by apply Hother.
      * intros w' Hw'. by rewrite Ht2, lookup_insert_eq.
  - unfold index_at. rewrite Hw. destruct (decide (x = w)) as [->|Hne].
    + eexists. split; [done|]. split; [done|done| |done|done]. 
      rewrite list_insert_id; [done|]. destruct (view_original s obj i Hi) as (w' & Hw' & ->).
      simplify_eq. unfold ind_at. by rewrite Hit.
    + rewrite Hit. eexists. split; [done|]. apply individual_changes; [done|done|apply single_ok| |].
      * intros y Hy. unfold ind_at. rewrite Hit. simpl. unfold table. simpl. by rewrite lookup_insert_ne.
      * intros w' Hw'. unfold table. simpl. by rewrite lookup_insert_eq.
Qed.

Lemma updateAppendedItem_spec s obj i x : inv s → len (sharedItems s) ≤ i < len (sharedItems s) + len (appendedItems s) →
  if decide (i < len (view s obj))
  then ∃ s', updateAppendedItem obj i x s = (Ok tt, s') ∧ changes s s' obj (<[Z.to_nat i := x]> (view s obj))
  else updateAppendedItem obj i x s = (Err ErrOutOfBounds, s).
Proof.
  intros Hinv Hi. unfold updateAppendedItem, mbind, M_bind, mget, mmodify, mlift, mret, M_ret, mfail, index_at.
  set (k := Z.to_nat (i - len (sharedItems s))).
  destruct (lookup_lt_is_Some_2 (appendedItems s) k) as [it Hit]; [subst k; unfold len in *; lia|]. rewrite Hit.
  pose proof (Forall_lookup_1 _ _ _ _ (inv_items s Hinv) Hit) as Hok. simpl in Hok.
  pose proof (replace_writes _ _ _ obj x (inv_items s Hinv) Hit) as Hw.
  destruct (removeVal_table (Values it) obj Hok) as (_ & _ & Hf).
  destruct (removeVal (Values it) obj) as [vs found]. simpl in *.
  pose proof (inv_gap s Hinv) as Hg. pose proof (col_length _ obj Hg k) as Hk. unfold col in Hk. rewrite Hit in Hk.
  simpl in Hk. case_decide as Hlt; unfold view, len in Hlt; rewrite length_app, originals_length in Hlt.
  - assert (k < length (app_view (appendedItems s) obj))%nat as Hk' by (subst k; unfold len in *; lia).
    rewrite bool_decide_eq_true_2 in Hf by (by apply Hk). subst found. eexists. split; [done|].
    pose proof (writes_gap_free _ _ _ _ _ Hg (Nat.lt_le_incl _ _ Hk') Hw) as Hg'.
    pose proof (writes_update _ _ _ _ _ Hg Hg' Hw Hk') as Hupd.
    replace (<[Z.to_nat i := x]> (view s obj)) with
      (originals s obj ++ app_view (<[k := Build_MultiValueItem (addVal vs x obj)]> (appendedItems s)) obj).
    + unfold with_appended. eapply appended_changes; [done|done|lia|done|].
      rewrite Hupd. unfold len. rewrite length_insert.
      pose proof (inv_cached s Hinv obj) as Hc. destruct (cachedLengths s !! obj); [eauto|].
      rewrite Hc in Hk'. simpl in Hk'. lia.
    + rewrite Hupd. unfold view. rewrite insert_app_r_alt by (rewrite originals_length; unfold len in Hi; lia).
      f_equal. f_equal. rewrite originals_length. subst k. unfold len in *. lia.
  - rewrite bool_decide_eq_false_2 in Hf; [by subst found|]. rewrite <-Hk. subst k. unfold len in *. lia.
Qed.

Lemma UpdateAt_spec s obj i x : inv s → 0 ≤ i →
  if decide (i < len (view s obj))
  then ∃ s', UpdateAt obj i x s = (Ok tt, s') ∧ changes s s' obj (<[Z.to_nat i := x]> (view s obj))
  else UpdateAt obj i x s = (Err ErrOutOfBounds, s).
Proof.
  intros Hinv Hi. unfold UpdateAt, mbind, M_bind, mget. rewrite Z.geb_leb.
  pose proof (app_view_le (appendedItems s) obj) as Hle.
  assert (len (view s obj) = len (sharedItems s) + len (app_view (appendedItems s) obj)) as Hlen
    by (unfold view, len; rewrite length_app, originals_length; lia).
  destruct (Z.leb_spec (len (sharedItems s) + len (appendedItems s)) i).
  { rewrite decide_False; [done|]. unfold len in *. lia. }
  destruct (Z.ltb_spec i (len (sharedItems s))).
  - rewrite decide_True by (unfold len in *; lia). by apply updateOriginalItem_spec.
  - by apply updateAppendedItem_spec.
Qed.

(** *** [Copy] *)
Lemma Copy_ind s src dst i x : inv s → fresh s dst →
  ind_at (Copy s src dst) i x = if decide (x = dst) then ind_at s i src else ind_at s i x.
Proof.
  intros Hinv (_ & Hf & _). specialize (Hf i). unfold ind_at in *. simpl. rewrite lookup_fmap.
  destruct (individualItems s !! i) as [it|] eqn:Hit; simpl in *; [|by case_decide].
  destruct (copyVal_table (Values it) src dst) as (_ & -> & _); [by eapply inv_item|done|].
  case_decide; subst; [by rewrite lookup_partial_alter_eq|by rewrite lookup_partial_alter_ne].
Qed.

Lemma Copy_spec s src dst : inv s → fresh s dst →
  changes s (Copy s src dst) dst (view s src) ∧ (fresh s src → fresh (Copy s src dst) dst).
Proof.
  intros Hinv Hfresh. pose proof Hfresh as (Hf1 & Hf2 & Hf3). pose proof (inv_gap s Hinv) as Hg.
  destruct (copyAppended_spec _ src dst (inv_items s Hinv) Hg Hf3) as [Hok Hcol].
  assert (gap_free (copyAppended (appendedItems s) src dst)) as Hg'
    by (intros x k; rewrite !Hcol; case_decide; apply Hg).
  assert (∀ x, app_view (copyAppended (appendedItems s) src dst) x =
    app_view (appendedItems s) (if decide (x = dst) then src else x)) as Happ
    by (intros x; apply app_view_ext; [done|done|]; intros k; rewrite Hcol; by case_decide).
  assert (∀ x, cachedLengths (Copy s src dst) !! x =
    cachedLengths s !! (if decide (x = dst) then src else x)) as Hcached.
  { intros x. simpl. destruct (cachedLengths s !! src) as [l|] eqn:Hs; case_decide; subst;
      rewrite ?lookup_insert_eq, ?lookup_insert_ne by done; congruence. }
  assert (∀ x, view (Copy s src dst) x = view s (if decide (x = dst) then src else x)) as Hview.
  { intros x. unfold view. rewrite (Happ x : app_view (appendedItems (Copy s src dst)) x = _). f_equal.
    apply originals_ext; [done|]. intros i. rewrite Copy_ind by done. by case_decide. }
  assert (∀ x, fresh s (if decide (x = dst) then src else x) → fresh (Copy s src dst) x) as Hfr.
  { intros x (H1 & H2 & H3). split_and!; [by rewrite Hcached| |].
    - intros i. rewrite Copy_ind by done. revert H2. case_decide; auto.
    - intros k. simpl. rewrite Hcol. revert H3. case_decide; auto. }
  split.
  - split; [|done|rewrite Hview; by rewrite decide_True| |].
    + split; [|done|done|].
      * intros i it. simpl. rewrite lookup_fmap_Some. intros (it' & <- & Hit).
        destruct (inv_item s Hinv i it' Hit). split; [|done]. apply copyVal_table; [done|].
        specialize (Hf2 i). unfold ind_at in Hf2. by rewrite Hit in Hf2.
      * intros x. rewrite Hcached. rewrite (Happ x : app_view (appendedItems (Copy s src dst)) x = _).
        apply Hinv.
    + intros y Hy. rewrite Hview. by rewrite decide_False.
    + intros y Hy Hfy. apply Hfr. by rewrite decide_False.
  - intros Hfs. apply Hfr. by rewrite decide_True.
Qed.

(** *** [Detach] *)
Lemma detachItem_table obj (it : MultiValueItem V) : item_ok (Values it) →
  match detachItem obj it with
  | Some it' => item_ok (Values it') ∧ table (Values it') = delete obj (table (Values it))
  | None => delete obj (table (Values it)) = ∅
  end.
Proof.
  intros Hok. destruct (removeVal_table (Values it) obj Hok) as (Hok' & Ht & _).
  unfold detachItem, removeVal in *. pose proof (findIndex_spec (Values it) obj) as H.
  destruct (findIndex (Values it) obj) as [[[vi w] fi]|]; [|by split].
  destruct H as (Hvi & _). destruct (length (ids w) =? 1)%nat; simpl in *; [|done].
  destruct (Nat.eqb_spec (length (Values it)) 1) as [H1|H1]; simpl; [|done].
  rewrite <-Ht. pose proof (Permutation_length (deleteElem_perm _ _ _ Hvi)) as Hl. simpl in Hl.
  by destruct (deleteElemFromSlice (Values it) vi); [|simpl in Hl; lia].
Qed.

Lemma Detach_ind s obj i x : inv s →
  ind_at (Detach s obj) i x = if decide (x = obj) then None else ind_at s i x.
Proof.
  intros Hinv. unfold ind_at. simpl. rewrite lookup_omap.
  destruct (individualItems s !! i) as [it|] eqn:Hit; simpl; [|by case_decide].
  pose proof (detachItem_table obj it (proj1 (inv_item s Hinv i it Hit))) as H.
  assert ((detachItem obj it ≫= λ it', table (Values it') !! x) = delete obj (table (Values it)) !! x) as ->.
  { destruct (detachItem obj it); simpl; [by destruct H as [_ ->]|by rewrite H]. }
  case_decide; subst; [by rewrite lookup_delete_eq|by rewrite lookup_delete_ne].
Qed.

Lemma Detach_spec s obj : inv s →
  changes s (Detach s obj) obj (sharedItems s) ∧ fresh (Detach s obj) obj.
Proof.
  intros Hinv. pose proof (inv_gap s Hinv) as Hg.
  destruct (detachAppended_spec _ obj (inv_items s Hinv) Hg) as [Hok Hcol].
  assert (gap_free (detachAppended (appendedItems s) obj)) as Hg'
    by (intros x k; rewrite !Hcol; case_decide; [by intros []|apply Hg]).
  assert (∀ x, x ≠ obj → app_view (detachAppended (appendedItems s) obj) x = app_view (appendedItems s) x) as Happ
    by (intros x Hx; apply app_view_ext; [done|done|]; intros k; rewrite Hcol; by rewrite decide_False).
  assert (fresh (Detach s obj) obj) as Hf.
  { split_and!; [apply lookup_delete_eq| |].
    - intros i. rewrite Detach_ind by done. by rewrite decide_True.
    - intros k. simpl. rewrite Hcol. by rewrite decide_True. }
  assert (inv (Detach s obj)) as Hinv'.
  { split; [|done|done|].
    - intros i it. simpl. rewrite lookup_omap. intros (it0 & Hit & Hd)%bind_Some.
      destruct (inv_item s Hinv i it0 Hit) as [Hok0 ?]. split; [|done].
      pose proof (detachItem_table obj it0 Hok0) as Hdt. rewrite Hd in Hdt. apply Hdt.
    - intros x. simpl. destruct (decide (x = obj)) as [->|Hx].
      + rewrite lookup_delete_eq. apply app_view_nil; [done|]. apply Hf.
      + rewrite lookup_delete_ne by done. rewrite Happ by done. apply Hinv. }
  split; [|done]. split; [done|done|by apply (fresh_view (Detach s obj))| |].
  - intros y Hy. unfold view. simpl. rewrite Happ by done. f_equal.
    apply originals_ext; [done|]. intros i. rewrite Detach_ind by done. by rewrite decide_False.
  - intros y Hy (Hf1 & Hf2 & Hf3). split_and!; [simpl; by rewrite lookup_delete_ne| |].
    + intros i. rewrite Detach_ind by done. by rewrite decide_False.
    + intros k. simpl. rewrite Hcol. by rewrite decide_False.
Qed.

(** *** [Reset] *)
Lemma resetIndividual_spec order obj (items : list V) :
  NoDup order.*1 → Forall (λ p, 0 ≤ p.1 < len items) order →
  ∃ out, resetIndividual order obj items = Ok out ∧ length out = length items ∧
    ∀ k x, items !! k = Some x → out !! k = Some (default x
      (it ← (list_to_map order : gmap Z (MultiValueItem V)) !! Z.of_nat k; table (Values it) !! obj)).
Proof.
  revert items. induction order as [|[i it] order IH]; intros items Hnd Hr; simpl.
  { exists items. split_and!; [done|done|]. intros k x Hx. by rewrite lookup_empty. }
  apply NoDup_cons in Hnd as [Hnin Hnd]. apply Forall_cons in Hr as [Hi Hr]. simpl in *.
  apply not_elem_of_list_to_map_1 in Hnin. rewrite findVal_table.
  destruct (table (Values it) !! obj) as [v|] eqn:Ht.
  - unfold assign. rewrite (proj2 (Z.leb_le _ _)), (proj2 (Z.ltb_lt _ _)) by lia. cbn [andb mbind gores_bind].
    destruct (IH (<[Z.to_nat i := v]> items) Hnd) as (out & -> & Hlen & Hout).
    { unfold len in *. by rewrite length_insert. }
    exists out. rewrite length_insert in Hlen. split_and!; [done|done|]. intros k x Hx.
    destruct (decide (Z.of_nat k = i)) as [<-|Hne].
    + rewrite (Hout k v), Hnin, lookup_insert_eq. 2: { rewrite Nat2Z.id. apply list_lookup_insert_eq. by eapply lookup_lt_Some. }
      simpl. by rewrite Ht.
    + rewrite (Hout k x). 2: { rewrite list_lookup_insert_ne by lia. done. } by rewrite lookup_insert_ne.
  - destruct (IH items Hnd Hr) as (out & -> & Hlen & Hout). exists out. split_and!; [done|done|].
    intros k x Hx. rewrite (Hout k x Hx). destruct (decide (Z.of_nat k = i)) as [<-|Hne].
    + rewrite Hnin, lookup_insert_eq. simpl. by rewrite Ht.
    + by rewrite lookup_insert_ne.
Qed.

Lemma Reset_spec s obj order : inv s → order ≡ₚ map_to_list (individualItems s) →
  Reset zero order s obj = Ok (Init (view s obj)).
Proof.
  intros Hinv Hperm. unfold Reset. set (a := length (app_view (appendedItems s) obj)).
  assert (Z.to_nat (match cachedLengths s !! obj with Some l => l | None => len (sharedItems s) end) =
    length (sharedItems s) + a)%nat as ->.
  { pose proof (inv_cached s Hinv obj) as Hc. unfold a. destruct (cachedLengths s !! obj); [subst|rewrite Hc];
      unfold len in *; simpl; lia. }
  assert (copy_into (replicate (length (sharedItems s) + a) zero) (sharedItems s) =
    sharedItems s ++ replicate a zero) as ->.
  { unfold copy_into. rewrite length_replicate, take_ge by lia. f_equal. rewrite drop_replicate. f_equal. lia. }
  assert (NoDup order.*1) as Hnd by (rewrite Hperm; apply NoDup_fst_map_to_list).
  destruct (resetIndividual_spec order obj (sharedItems s ++ replicate a zero)) as (out & -> & Hlen & Hout).
  { done. }
  { rewrite Hperm. apply Forall_forall. intros [i it] Hin%elem_of_map_to_list.
    destruct (inv_item s Hinv i it Hin). simpl. unfold len in *. rewrite length_app. lia. }
  cbn [mbind gores_bind]. rewrite length_app, length_replicate in Hlen.
  assert (out = originals s obj ++ replicate a zero) as ->.
  { apply list_eq. intros k. destruct (decide (k < length out)%nat) as [Hk|Hk].
    2: { rewrite !lookup_ge_None_2; [done| |lia]. rewrite length_app, originals_length, length_replicate. lia. }
    destruct (lookup_lt_is_Some_2 (sharedItems s ++ replicate a zero) k) as [x Hx];
      [rewrite length_app, length_replicate; lia|].
    rewrite (Hout k x Hx). rewrite (list_to_map_proper _ _ Hnd Hperm).
    rewrite list_to_map_to_list. fold (ind_at s (Z.of_nat k) obj).
    apply lookup_app_Some in Hx as [Hx|[Hge Hx]].
    - rewrite lookup_app_l by (rewrite originals_length; by eapply lookup_lt_Some).
      unfold originals. by rewrite list_lookup_imap, Hx.
    - rewrite lookup_app_r by (by rewrite originals_length). rewrite originals_length, Hx. f_equal.
      unfold ind_at. destruct (individualItems s !! Z.of_nat k) as [it|] eqn:Hit; [|done].
      destruct (inv_item s Hinv _ _ Hit). unfold len in *. lia. }
  rewrite resetAppended_fill by apply Hinv.
  replace (len (sharedItems s)) with (len (originals s obj)) by (unfold len; by rewrite originals_length).
  rewrite fillAppendedItems_spec by (rewrite length_replicate; done). cbn [mbind gores_bind].
  rewrite drop_ge by (rewrite length_replicate; done). by rewrite app_nil_r.
Qed.
End writing.
