(* ===== verification/MVSliceTheorems.v ===== *)
(** * Properties of the multi-value slice

    The reference machine [ref_exec] keeps one plain list per object.  Runs of the
    multi-value slice give the outcomes of the reference machine.  The interface
    [MultiValueSlice] that the state's field tries read is a class with its laws;
    [Slice] and [EmptyMVSlice] are its instances. *)
From S2P Require Import Prelude MVSlice MVSliceFacts.

(** ** The reference machine *)
Section reference.
Context {V : Type} `{EqDecision V} (zero : V) (base : list V).

Inductive op : Type :=
  | OpLen (obj : Id) | OpAt (obj : Id) (index : Z) | OpValue (obj : Id)
  | OpUpdateAt (obj : Id) (index : Z) (x : V) | OpAppend (obj : Id) (x : V)
  | OpCopy (src dst : Id) | OpDetach (obj : Id).
Inductive out : Type :=
  | Done | Number (n : Z) | Item (x : V) | Items (l : list V).

(** A call on the multi-value slice. *)
Definition exec (o : op) (s : Slice V) : gores out * Slice V :=
  match o with
  | OpLen obj => (Ok (Number (Len s obj)), s)
  | OpAt obj i => (x ← At s obj i; Ok (Item x), s)
  | OpValue obj => (l ← ValueOf zero s obj; Ok (Items l), s)
  | OpUpdateAt obj i x => let '(r, s') := UpdateAt obj i x s in (_ ← r; Ok Done, s')
  | OpAppend obj x => (Ok Done, Append s obj x)
  | OpCopy src dst => (Ok Done, Copy s src dst)
  | OpDetach obj => (Ok Done, Detach s obj)
  end.

(** Objects without an entry see [base]. *)
Abbreviation owned := (gmap Id (list V)).
Definition read (m : owned) (obj : Id) : list V := default base (m !! obj).

(** The same call when every object has its list; [None] when the caller breaks the
    contract of [Copy] (the destination has values of its own). *)
Definition ref_exec (o : op) (m : owned) : option (gores out * owned) :=
  match o with
  | OpLen obj => Some (Ok (Number (len (read m obj))), m)
  | OpAt obj i => Some (x ← lookup_or_err (read m obj) i; Ok (Item x), m)
  | OpValue obj => Some (Ok (Items (read m obj)), m)
  | OpUpdateAt obj i x =>
      if decide (i < len (read m obj)) then Some (Ok Done, <[obj := <[Z.to_nat i := x]> (read m obj)]> m)
      else Some (Err ErrOutOfBounds, m)
  | OpAppend obj x => Some (Ok Done, <[obj := read m obj ++ [x]]> m)
  | OpCopy src dst =>
      match m !! dst with
      | Some _ => None
      | None => Some (Ok Done, match m !! src with Some l => <[dst := l]> m | None => m end)
      end
  | OpDetach obj => Some (Ok Done, delete obj m)
  end.

(** Indices are [uint64]s. *)
Definition op_ok (o : op) : Prop :=
  match o with OpAt _ i | OpUpdateAt _ i _ => 0 ≤ i | _ => True end.

Fixpoint run (ops : list op) (s : Slice V) : list (gores out) * Slice V :=
  match ops with
  | [] => ([], s)
  | o :: ops' => let '(r, s) := exec o s in let '(rs, s) := run ops' s in (r :: rs, s)
  end.
Fixpoint ref_run (ops : list op) (m : owned) : option (list (gores out) * owned) :=
  match ops with
  | [] => Some ([], m)
  | o :: ops' => '(r, m) ← ref_exec o m; '(rs, m) ← ref_run ops' m; Some (r :: rs, m)
  end.

(** The simulation relation. *)
Record represents (m : owned) (s : Slice V) : Prop := {
  rep_inv : inv s;
  rep_shared : sharedItems s = base;
  rep_view : ∀ obj, view s obj = read m obj;
  rep_fresh : ∀ obj, m !! obj = None → fresh s obj
}.

Lemma represents_changes m s s' obj l : represents m s → changes s s' obj l → represents (<[obj := l]> m) s'.
Proof.
  intros Hr Hc. split.
  - apply Hc.
  - rewrite (ch_shared _ _ _ _ Hc). apply Hr.
  - intros y. unfold read. destruct (decide (y = obj)) as [->|Hy].
    + rewrite lookup_insert_eq. apply Hc.
    + rewrite lookup_insert_ne by done. rewrite (ch_other _ _ _ _ Hc) by done. apply Hr.
  - intros y. rewrite lookup_insert_None. intros [Hy Hne]. apply Hc; [done|]. by apply Hr.
Qed.

Lemma exec_simulates o m s r m' : represents m s → op_ok o → ref_exec o m = Some (r, m') →
  ∃ s', exec o s = (r, s') ∧ represents m' s'.
Proof.
  intros Hr Hok Href. pose proof (rep_inv _ _ Hr) as Hinv.
  destruct o as [obj|obj i|obj|obj i x|obj x|src dst|obj]; simpl in *; simplify_eq.
  - exists s. by rewrite Len_spec, (rep_view _ _ Hr).
  - exists s. by rewrite At_spec, (rep_view _ _ Hr).
  - exists s. by rewrite ValueOf_spec, (rep_view _ _ Hr).
  - pose proof (UpdateAt_spec s obj i x Hinv Hok) as H. rewrite (rep_view _ _ Hr) in H.
    case_decide; simplify_eq.
    + destruct H as (s' & -> & Hc). exists s'. split; [done|]. by eapply represents_changes.
    + rewrite H. by exists s.
  - eexists. split; [done|]. eapply represents_changes; [done|]. rewrite <-(rep_view _ _ Hr). by apply Append_spec.
  - destruct (m !! dst) eqn:Hdst; simplify_eq.
    destruct (Copy_spec s src dst Hinv (rep_fresh _ _ Hr _ Hdst)) as [Hc Hf].
    eexists. split; [done|]. rewrite (rep_view _ _ Hr) in Hc. unfold read in Hc. 
    destruct (m !! src) as [l|] eqn:Hsrc; [by eapply represents_changes|]. simpl in Hc.
    specialize (Hf (rep_fresh _ _ Hr _ Hsrc)). split; [apply Hc|rewrite (ch_shared _ _ _ _ Hc); apply Hr| |].
    + intros y. destruct (decide (y = dst)) as [->|Hy].
      * unfold read. rewrite Hdst. apply Hc.
      * rewrite (ch_other _ _ _ _ Hc) by done. apply Hr.
    + intros y Hy. destruct (decide (y = dst)) as [->|]; [done|]. apply Hc; [done|]. by apply Hr.
  - destruct (Detach_spec s obj Hinv) as [Hc Hf]. eexists. split; [done|]. split.
    + apply Hc.
    + rewrite (ch_shared _ _ _ _ Hc). apply Hr.
    + intros y. unfold read. destruct (decide (y = obj)) as [->|Hy].
      * rewrite lookup_delete_eq. rewrite (ch_view _ _ _ _ Hc). apply Hr.
      * rewrite lookup_delete_ne by done. rewrite (ch_other _ _ _ _ Hc) by done. apply Hr.
    + intros y. destruct (decide (y = obj)) as [->|Hy]; [done|]. rewrite lookup_delete_ne by done.
      intros Hy'. apply Hc; [done|]. by apply Hr.
Qed.

Lemma run_simulates ops m s rs m' : represents m s → Forall op_ok ops → ref_run ops m = Some (rs, m') →
  ∃ s', run ops s = (rs, s') ∧ represents m' s'.
Proof.
  revert m s rs. induction ops as [|o ops IH]; intros m s rs Hr Hok Href; simpl in *; simplify_eq; [by exists s|].
  apply Forall_cons in Hok as [Ho Hok].
  apply bind_Some in Href as ([r m1] & H1 & Href). apply bind_Some in Href as ([rs' m2] & H2 & Href). simplify_eq.
  destruct (exec_simulates o m s r m1 Hr Ho H1) as (s1 & -> & Hr1).
  destruct (IH m1 s1 rs' Hr1 Hok H2) as (s2 & -> & Hr2). by exists s2.
Qed.

Lemma Init_represents : represents ∅ (Init base).
Proof.
  split; [apply Init_inv|done| |by intros; apply Init_fresh].
  intros obj. unfold read. rewrite lookup_empty. simpl. apply fresh_view; [apply Init_inv|apply Init_fresh].
Qed.
End reference.
Arguments op V : clear implicits.
Arguments out V : clear implicits.

(** ** The interface the field tries read *)
Class MultiValueSlice (S V : Type) := {
  mv_ok : S → Prop;
  mv_Len : S → Id → Z;
  mv_At : S → Id → Z → gores V;
  mv_Value : S → Id → gores (list V)
}.
Class MultiValueSliceLaws (S V : Type) `{MultiValueSlice S V} := {
  mv_items : S → Id → list V;
  mv_Value_law : ∀ s obj, mv_ok s → mv_Value s obj = Ok (mv_items s obj);
  mv_Len_law : ∀ s obj, mv_ok s → mv_Len s obj = len (mv_items s obj);
  mv_At_law : ∀ s obj i, mv_ok s → 0 ≤ i → mv_At s obj i = lookup_or_err (mv_items s obj) i
}.

#[export] Instance Slice_interface {V} `{EqDecision V} (zero : V) : MultiValueSlice (Slice V) V :=
  {| mv_ok := inv; mv_Len := Len; mv_At := At; mv_Value := ValueOf zero |}.
#[export] Instance Slice_laws {V} `{EqDecision V} (zero : V) :
  @MultiValueSliceLaws (Slice V) V (Slice_interface zero).
Proof.
  refine {| mv_items := view : Slice V → Id → list V |}; simpl.
  - intros. by apply ValueOf_spec.
  - intros. by apply Len_spec.
  - intros. by apply At_spec.
Defined.

#[export] Instance EmptyMVSlice_interface {V} : MultiValueSlice (EmptyMVSlice V) V :=
  {| mv_ok _ := True; mv_Len := EmptyLen; mv_At := EmptyAt; mv_Value := EmptyValue |}.
#[export] Instance EmptyMVSlice_laws {V} : MultiValueSliceLaws (EmptyMVSlice V) V.
Proof.
  refine {| mv_items := λ (e : EmptyMVSlice V) (_ : Id), fullSlice e |}; simpl; [done|done|].
  intros e obj i _ Hi. unfold EmptyAt, lookup_or_err, index_at. rewrite Z.geb_leb.
  destruct (Z.leb_spec (len (fullSlice e)) i); [by rewrite lookup_ge_None_2 by (unfold len in *; lia)|].
  destruct (lookup_lt_is_Some_2 (fullSlice e) (Z.to_nat i)) as [x ->]; [unfold len in *; lia|done].
Defined.

(** ** Properties *)

(** C2: for every sequence of calls (with [uint64] indices, copying only onto objects
    that have no values of their own), starting from [Init base], the multi-value
    slice returns, call by call, what the reference machine returns in which each
    object has a list of its own, errors included; and afterwards every object sees
    its reference list. *)
Theorem mvslice_refines {V} `{EqDecision V} (zero : V) (base : list V) ops rs m :
  Forall op_ok ops → ref_run base ops ∅ = Some (rs, m) →
  ∃ s, run zero ops (Init base) = (rs, s) ∧ ∀ obj, ValueOf zero s obj = Ok (read base m obj).
Proof.
  intros Hok Href. destruct (run_simulates zero base ops ∅ (Init base) rs m (Init_represents base) Hok Href)
    as (s & Hrun & Hr). exists s. split; [done|]. intros obj.
  rewrite ValueOf_spec by apply Hr. by rewrite (rep_view _ _ _ Hr).
Qed.

(** [UpdateAt] on a structure that satisfies the invariant: inside the bounds of
    the object it succeeds, the object sees the new value at that index, every other
    object sees what it saw, and the invariant holds again; outside it is an error
    and the structure is unchanged. *)
Theorem UpdateAt_isolated {V} `{EqDecision V} (s : Slice V) (obj : Id) (i : Z) (x : V) :
  inv s → 0 ≤ i →
  (i < len (view s obj) ∧ ∃ s', UpdateAt obj i x s = (Ok tt, s') ∧ inv s' ∧
     view s' obj = <[Z.to_nat i := x]> (view s obj) ∧ ∀ y, y ≠ obj → view s' y = view s y) ∨
  (len (view s obj) ≤ i ∧ UpdateAt obj i x s = (Err ErrOutOfBounds, s)).
Proof.
  intros Hinv Hi. pose proof (UpdateAt_spec s obj i x Hinv Hi) as H. case_decide.
  - left. split; [done|]. destruct H as (s' & Hs' & []). by exists s'.
  - right. split; [lia|done].
Qed.

(** [Reset] gives a fresh structure whose shared items are what the object saw,
    whatever order the map of individual items is iterated in. *)
Theorem Reset_any_order {V} `{EqDecision V} (zero : V) (s : Slice V) (obj : Id) order :
  inv s → order ≡ₚ map_to_list (individualItems s) →
  ∃ s', Reset zero order s obj = Ok s' ∧ inv s' ∧ ∀ y, view s' y = view s obj.
Proof.
  intros Hinv Hp. exists (Init (view s obj)). split; [by apply Reset_spec|]. split; [apply Init_inv|].
  intros y. apply (fresh_view (Init _)); [apply Init_inv|apply Init_fresh].
Qed.

(** ** The theorems at concrete inputs *)
Definition ex_ops : list (op Z) :=
  [OpUpdateAt 1 0 20; OpCopy 1 2; OpAppend 2 7; OpUpdateAt 2 0 30; OpAppend 1 7; OpUpdateAt 1 3 8;
   OpAt 1 3; OpAt 2 3; OpAt 3 3; OpLen 2; OpUpdateAt 1 0 10; OpValue 1; OpDetach 2; OpValue 2; OpCopy 1 2;
   OpValue 2; OpUpdateAt 2 9 1].
Definition ex_outs : list (gores (out Z)) := default [] (fst <$> ref_run [10; 11; 12] ex_ops ∅).

Lemma mvslice_refines_witness :
  ex_outs !! 11%nat = Some (Ok (Items [10; 11; 12; 8])) ∧
  ∃ s, run 0 ex_ops (Init [10; 11; 12]) = (ex_outs, s) ∧
    ∀ obj, ValueOf 0 s obj =
      Ok (read [10; 11; 12] (default ∅ (snd <$> ref_run [10; 11; 12] ex_ops ∅)) obj).
Proof.
  split; [vm_compute; reflexivity|].
  apply (mvslice_refines 0 [10; 11; 12] ex_ops); [repeat constructor; done|vm_compute; reflexivity].
Defined.

(** The side condition is needed: an object with a value of its own keeps it when an object
    with another value (20 here) is copied onto it. *)
Example copy_onto_own_values :
  let ops := [OpUpdateAt 2 0 30; OpUpdateAt 1 0 20; OpCopy 1 2; OpAt 2 0] in
  (run 0 ops (Init [10; 11; 12])).1 = [Ok Done; Ok Done; Ok Done; Ok (Item 30)] ∧
  ref_run [10; 11; 12] ops ∅ = None.
Proof. split; vm_compute; reflexivity. Qed.

Definition ex_slice : Slice Z := Append (Init [10; 11; 12]) 5 7.
Lemma ex_slice_inv : inv ex_slice.
Proof. apply Append_spec, Init_inv. Qed.

Lemma UpdateAt_isolated_witness :
  (3 < len (view ex_slice 5) ∧ ∃ s', UpdateAt 5 3 9 ex_slice = (Ok tt, s') ∧ inv s' ∧
     view s' 5 = <[3%nat := 9]> (view ex_slice 5) ∧ ∀ y, y ≠ 5 → view s' y = view ex_slice y) ∨
  (len (view ex_slice 5) ≤ 3 ∧ UpdateAt 5 3 9 ex_slice = (Err ErrOutOfBounds, ex_slice)).
Proof. apply (UpdateAt_isolated ex_slice 5 3 9); [exact ex_slice_inv|done]. Defined.

Lemma Reset_any_order_witness :
  ∃ s', Reset 0 [] ex_slice 5 = Ok s' ∧ inv s' ∧ ∀ y, view s' y = view ex_slice 5.
Proof. apply (Reset_any_order 0 ex_slice 5 []); [exact ex_slice_inv|vm_compute; done]. Defined.
