(* ===== verification/FieldTrieHelpers.v ===== *)
(** * beacon-chain/state/fieldtrie/field_trie_helpers.go: leaves of the field tries

    The converters that read a multi-value slice: the block, state and randao roots
    ([handle32ByteMVslice]) and the balances, four to a 32-byte chunk
    ([handleBalanceMVSlice], with [PackUint64IntoChunks] of
    beacon-chain/state/stateutil/validator_root.go).  They are proved against the
    interface [MultiValueSlice] and its laws, not against an implementation: the
    leaves recomputed for single indices are those of the conversion of the whole
    list.  A chunk is a list of 32 bytes. *)
From S2P Require Import Prelude Shuffle MVSlice MVSliceFacts MVSliceTheorems.

(** [types.Balances.ElemsInChunk()] *)
Definition ElemsInChunk : Z := 4.

(** [binary.LittleEndian.PutUint64(chunk[pos:pos+8], v)] *)
Definition putUint64 (chunk : list Z) (pos : nat) (v : Z) : gores (list Z) :=
  if (pos + 8 <=? length chunk)%nat
  then Ok (take pos chunk ++ le_bytes 8 v ++ drop (pos + 8) chunk) else Panic.

Definition zero_chunk : list Z := replicate 32 0.

(** ** PackUint64IntoChunks *)
Fixpoint packLoop (vals : list Z) (idx : nat) (chunkList : list (list Z)) : gores (list (list Z)) :=
  match vals with
  | [] => Ok chunkList
  | b :: vals' =>
      let chunkIdx := (idx / 4)%nat in
      let idxInChunk := (idx mod 4)%nat in
      let chunkPos := (idxInChunk * 8)%nat in
      match chunkList !! chunkIdx with
      | None => Panic
      | Some chunk =>
          chunk ← putUint64 chunk chunkPos b;
          packLoop vals' (S idx) (<[chunkIdx := chunk]> chunkList)
      end
  end.

Definition PackUint64IntoChunks (vals : list Z) : gores (list (list Z)) :=
  let numOfChunks := (length vals / 4)%nat in
  let numOfChunks := if (length vals mod 4 =? 0)%nat then numOfChunks else S numOfChunks in
  packLoop vals 0 (replicate numOfChunks zero_chunk).

Section converters.
Context {S V : Type} `{MultiValueSlice S V}.

(** ** handle32ByteMVslice: [idx > uint64(totalLen)-1] is an error *)
Fixpoint rootsLoop (mv : S) (st : Id) (totalLen : Z) (indices : list Z) : gores (list V) :=
  match indices with
  | [] => Ok []
  | idx :: indices' =>
      if idx >? (u64 totalLen -64 1) then Err errMessage
      else
        val ← mv_At mv st idx;
        roots ← rootsLoop mv st totalLen indices';
        Ok (val :: roots)
  end.

Definition handle32ByteMVslice (mv : S) (st : Id) (indices : list Z) (convertAll : bool) : gores (list V) :=
  if convertAll then mv_Value mv st
  else
    let totalLen := mv_Len mv st in
    if totalLen >? 0 then rootsLoop mv st totalLen indices else Ok [].
End converters.

Section balances.
Context {S : Type} `{MultiValueSlice S Z}.

(** [for i, j := 0, startGroup; j < startGroup+numOfElems; i, j = i+sizeOfElem, j+1] *)
Fixpoint chunkLoop (fuel : nat) (mv : S) (st : Id) (totalLen end_ : Z) (i : nat) (j : Z) (chunk : list Z)
    : gores (list Z) :=
  if j <? end_ then
    match fuel with
    | O => OutOfFuel
    | Datatypes.S fuel' =>
        wantedVal ← (if j <? u64 totalLen then mv_At mv st j else Ok 0);
        chunk ← putUint64 chunk i wantedVal;
        chunkLoop fuel' mv st totalLen end_ (i + 8) (j +64 1) chunk
    end
  else Ok chunk.

(** At most [numOfElems] = 4 rounds of the inner loop. *)
Fixpoint balancesLoop (mv : S) (st : Id) (totalLen : Z) (indices : list Z) : gores (list (list Z)) :=
  match indices with
  | [] => Ok []
  | idx :: indices' =>
      let startIdx := idx / ElemsInChunk in
      let startGroup := startIdx *64 ElemsInChunk in
      chunk ← chunkLoop 4 mv st totalLen (startGroup +64 ElemsInChunk) 0 startGroup zero_chunk;
      roots ← balancesLoop mv st totalLen indices';
      Ok (chunk :: roots)
  end.

Definition handleBalanceMVSlice (mv : S) (st : Id) (indices : list Z) (convertAll : bool)
    : gores (list (list Z)) :=
  if convertAll then (val ← mv_Value mv st; PackUint64IntoChunks val)
  else
    let totalLen := mv_Len mv st in
    if totalLen >? 0 then balancesLoop mv st totalLen indices else Ok [].
End balances.

(** ** Chunks *)
Definition chunk4 (a b c d : Z) : list Z := le_bytes 8 a ++ le_bytes 8 b ++ le_bytes 8 c ++ le_bytes 8 d.
Definition item (vals : list Z) (i : nat) : Z := default 0 (vals !! i).
(** The [k]th chunk of a list of balances. *)
Definition chunk_of (vals : list Z) (k : nat) : list Z :=
  chunk4 (item vals (4 * k)) (item vals (4 * k + 1)) (item vals (4 * k + 2)) (item vals (4 * k + 3)).
Definition chunk_count (n : nat) : nat := ((n + 3) / 4)%nat.

Lemma put_chunk4 a b c d v :
  putUint64 (chunk4 a b c d) 0 v = Ok (chunk4 v b c d) ∧ putUint64 (chunk4 a b c d) 8 v = Ok (chunk4 a v c d) ∧
  putUint64 (chunk4 a b c d) 16 v = Ok (chunk4 a b v d) ∧ putUint64 (chunk4 a b c d) 24 v = Ok (chunk4 a b c v).
Proof. split_and!; reflexivity. Qed.

Lemma item_snoc vals v i : item (vals ++ [v]) i = if decide (i = length vals) then v else item vals i.
Proof.
  unfold item. case_decide as Hi; [subst; by rewrite lookup_app_r, Nat.sub_diag by lia|].
  destruct (decide (i < length vals)%nat); [by rewrite lookup_app_l|].
  rewrite !lookup_ge_None_2; rewrite ?length_app; simpl; done || lia.
Qed.

Lemma chunk_of_other vals v k : k ≠ (length vals / 4)%nat → chunk_of (vals ++ [v]) k = chunk_of vals k.
Proof.
  intros Hk. unfold chunk_of. rewrite !item_snoc.
  pose proof (Nat.div_mod (length vals) 4 ltac:(lia)). pose proof (Nat.mod_upper_bound (length vals) 4 ltac:(lia)).
  by rewrite !decide_False by lia.
Qed.

Lemma chunk_of_put vals v : let n := length vals in
  putUint64 (chunk_of vals (n / 4)) (n mod 4 * 8) v = Ok (chunk_of (vals ++ [v]) (n / 4)).
Proof.
  intros n. pose proof (Nat.div_mod n 4 ltac:(lia)) as Hd. pose proof (Nat.mod_upper_bound n 4 ltac:(lia)) as Hm.
  unfold chunk_of. rewrite !item_snoc. fold n. set (k := (n / 4)%nat) in *.
  destruct (put_chunk4 (item vals (4 * k)) (item vals (4 * k + 1)) (item vals (4 * k + 2)) (item vals (4 * k + 3)) v)
    as (P0 & P1 & P2 & P3).
  assert (n mod 4 = 0 ∨ n mod 4 = 1 ∨ n mod 4 = 2 ∨ n mod 4 = 3)%nat as [Hr|[Hr|[Hr|Hr]]] by lia; rewrite Hr in *.
  - rewrite decide_True by lia. rewrite !decide_False by lia. exact P0.
  - rewrite (decide_False (P := (4 * k = n)%nat)), (decide_True (P := (4 * k + 1 = n)%nat)) by lia.
    rewrite !decide_False by lia. exact P1.
  - rewrite (decide_False (P := (4 * k = n)%nat)), (decide_False (P := (4 * k + 1 = n)%nat)),
      (decide_True (P := (4 * k + 2 = n)%nat)) by lia. rewrite !decide_False by lia. exact P2.
  - rewrite (decide_False (P := (4 * k = n)%nat)), (decide_False (P := (4 * k + 1 = n)%nat)),
      (decide_False (P := (4 * k + 2 = n)%nat)) by lia. rewrite !decide_True by lia. exact P3.
Qed.

Lemma packLoop_spec rest vals count : (chunk_count (length (vals ++ rest)) ≤ count)%nat →
  packLoop rest (length vals) (chunk_of vals <$> seq 0 count) = Ok (chunk_of (vals ++ rest) <$> seq 0 count).
Proof.
  revert vals. induction rest as [|v rest IH]; intros vals Hc; [by rewrite app_nil_r|]. cbn [packLoop].
  assert (length vals / 4 < count)%nat as Hlt.
  { unfold chunk_count in Hc. rewrite length_app in Hc. cbn [length] in Hc.
    eapply Nat.lt_le_trans; [|exact Hc].
    replace (length vals + S (length rest) + 3)%nat with (length vals + length rest + 1 * 4)%nat by lia.
    rewrite Nat.div_add by lia. pose proof (Nat.Div0.div_le_mono (length vals) (length vals + length rest) 4). lia. }
  rewrite list_lookup_fmap, lookup_seq_lt by done. cbn [fmap option_fmap option_map Nat.add].
  rewrite chunk_of_put. cbn [mbind gores_bind].
  replace (<[(length vals / 4)%nat := chunk_of (vals ++ [v]) (length vals / 4)]> (chunk_of vals <$> seq 0 count))
    with (chunk_of (vals ++ [v]) <$> seq 0 count).
  - replace (Datatypes.S (length vals)) with (length (vals ++ [v])) by (rewrite length_app; simpl; lia).
    rewrite IH by (rewrite <-app_assoc; done). by rewrite <-app_assoc.
  - apply list_eq. intros k. destruct (decide (k = (length vals / 4)%nat)) as [->|Hk].
    + rewrite list_lookup_insert_eq by (by rewrite length_fmap, length_seq).
      by rewrite list_lookup_fmap, lookup_seq_lt by done.
    + rewrite list_lookup_insert_ne by done. rewrite !list_lookup_fmap.
      destruct (seq 0 count !! k) eqn:Hs; [|done]. apply lookup_seq in Hs as [-> _]. simpl.
      by rewrite chunk_of_other.
Qed.

Lemma PackUint64IntoChunks_spec vals :
  PackUint64IntoChunks vals = Ok (chunk_of vals <$> seq 0 (chunk_count (length vals))).
Proof.
  unfold PackUint64IntoChunks. set (c := if (length vals mod 4 =? 0)%nat then _ else _).
  assert (c = chunk_count (length vals)) as ->.
  { subst c. unfold chunk_count. pose proof (Nat.div_mod (length vals) 4 ltac:(lia)) as Hd.
    pose proof (Nat.mod_upper_bound (length vals) 4 ltac:(lia)).
    destruct (Nat.eqb_spec (length vals mod 4) 0) as [H0|H0].
    - apply (Nat.div_unique _ 4 _ 3); lia.
    - apply (Nat.div_unique _ 4 _ (length vals mod 4 - 1)); lia. }
  replace (replicate (chunk_count (length vals)) zero_chunk)
    with (chunk_of [] <$> seq 0 (chunk_count (length vals))).
  - by rewrite (packLoop_spec vals []).
  - symmetry. apply replicate_as_elem_of. split; [by rewrite length_fmap, length_seq|].
    by intros x (k & -> & _)%list_elem_of_fmap.
Qed.

(** ** The converters against the interface *)
Section converter_facts.
Context {S : Type} `{MultiValueSliceLaws S Z}.

Definition in_memory (mv : S) (st : Id) : Prop := len (mv_items mv st) < 2 ^ 62.

Lemma At_or_zero mv st j : mv_ok mv → in_memory mv st → 0 ≤ j →
  (if j <? u64 (mv_Len mv st) then mv_At mv st j else Ok 0) = Ok (item (mv_items mv st) (Z.to_nat j)).
Proof.
  intros Hok Hm Hj. rewrite mv_Len_law by done. unfold in_memory, len in *.
  rewrite u64_small by (unfold is_u64; lia). unfold item. destruct (Z.ltb_spec j (Z.of_nat (length (mv_items mv st)))) as [Hlt|Hge].
  - rewrite mv_At_law by done. unfold lookup_or_err.
    destruct (lookup_lt_is_Some_2 (mv_items mv st) (Z.to_nat j)) as [x ->]; [lia|done].
  - by rewrite lookup_ge_None_2 by lia.
Qed.

Lemma chunkLoop_spec mv st k : mv_ok mv → in_memory mv st → Z.of_nat k < 2 ^ 61 →
  chunkLoop 4 mv st (mv_Len mv st) (4 * Z.of_nat k + 4) 0 (4 * Z.of_nat k) zero_chunk =
  Ok (chunk_of (mv_items mv st) k).
Proof.
  intros Hok Hm Hk.
  assert (∀ j, (j < 4)%nat → (4 * Z.of_nat k + Z.of_nat j) +64 1 = 4 * Z.of_nat k + Z.of_nat (Datatypes.S j)) as Hnext
    by (intros j Hj; rewrite u64_small by (unfold is_u64; lia); lia).
  assert (∀ j, (j < 4)%nat → (if 4 * Z.of_nat k + Z.of_nat j <? u64 (mv_Len mv st)
      then mv_At mv st (4 * Z.of_nat k + Z.of_nat j) else Ok 0) = Ok (item (mv_items mv st) (4 * k + j))) as Hval
    by (intros j Hj; rewrite At_or_zero by (done || lia); do 2 f_equal; lia).
  assert (∀ j, (j < 4)%nat → (4 * Z.of_nat k + Z.of_nat j <? 4 * Z.of_nat k + 4) = true) as Hin
    by (intros j Hj; apply Z.ltb_lt; lia).
  change zero_chunk with (chunk4 0 0 0 0).
  transitivity (chunkLoop 4 mv st (mv_Len mv st) (4 * Z.of_nat k + 4) 0 (4 * Z.of_nat k + Z.of_nat 0) (chunk4 0 0 0 0));
    [f_equal; lia|].
  unfold chunk_of. set (it := item (mv_items mv st)) in *. cbn [chunkLoop].
  rewrite Hin, Hval, Hnext by lia. cbn [mbind gores_bind]. rewrite (proj1 (put_chunk4 _ _ _ _ _)).
  rewrite Hin, Hval, Hnext by lia. cbn [mbind gores_bind Nat.add]. rewrite (proj1 (proj2 (put_chunk4 _ _ _ _ _))).
  rewrite Hin, Hval, Hnext by lia. cbn [mbind gores_bind Nat.add]. rewrite (proj1 (proj2 (proj2 (put_chunk4 _ _ _ _ _)))).
  rewrite Hin, Hval, Hnext by lia. cbn [mbind gores_bind Nat.add]. rewrite (proj2 (proj2 (proj2 (put_chunk4 _ _ _ _ _)))).
  rewrite (proj2 (Z.ltb_ge _ _)) by lia. by rewrite Nat.add_0_r.
Qed.

Lemma balancesLoop_spec mv st indices : mv_ok mv → in_memory mv st → Forall (λ i, 0 ≤ i < 2 ^ 62) indices →
  balancesLoop mv st (mv_Len mv st) indices = Ok ((λ i, chunk_of (mv_items mv st) (Z.to_nat (i / 4))) <$> indices).
Proof.
  intros Hok Hm. induction 1 as [|i indices Hi _ IH]; [done|]. cbn [balancesLoop]. unfold ElemsInChunk.
  pose proof (Z.div_pos i 4 ltac:(lia) ltac:(lia)). pose proof (Z.mul_div_le i 4 ltac:(lia)).
  rewrite (u64_small (i / 4 * 4)) by (unfold is_u64; lia).
  rewrite (u64_small (i / 4 * 4 + 4)) by (unfold is_u64; lia).
  replace (i / 4 * 4) with (4 * Z.of_nat (Z.to_nat (i / 4))) by lia.
  rewrite chunkLoop_spec by (done || lia). rewrite IH. done.
Qed.
End converter_facts.

Section root_facts.
Context {S V : Type} `{MultiValueSliceLaws S V}.

Lemma rootsLoop_spec mv st indices : mv_ok mv → 0 < len (mv_items mv st) < 2 ^ 62 → Forall (λ i, 0 ≤ i) indices →
  rootsLoop mv st (mv_Len mv st) indices =
    match mapM (λ i, mv_items mv st !! Z.to_nat i) indices with
    | Some roots => Ok roots
    | None => Err errMessage
    end.
Proof.
  intros Hok Hl. unfold len in Hl. induction 1 as [|i indices Hi _ IH]; [done|]. cbn [rootsLoop].
  rewrite mv_Len_law in IH |- * by done. unfold len in *.
  rewrite (u64_small (Z.of_nat _)) by (unfold is_u64; lia).
  rewrite u64_small by (unfold is_u64; lia). rewrite Z.gtb_ltb. cbn [mapM].
  destruct (Z.ltb_spec (Z.of_nat (length (mv_items mv st)) - 1) i) as [Hgt|Hle].
  - by rewrite lookup_ge_None_2 by lia.
  - rewrite mv_At_law by done. unfold lookup_or_err.
    destruct (lookup_lt_is_Some_2 (mv_items mv st) (Z.to_nat i)) as [x ->]; [lia|]. cbn [mbind gores_bind option_bind].
    rewrite IH. by destruct (mapM _ indices).
Qed.
End root_facts.

(** ** Properties *)

(** For any implementation of the multi-value interface, the balance leaves
    recomputed for single indices ([convertAll] false) are the leaves at those
    positions of the conversion of the whole list ([convertAll] true): each index
    [i] gives chunk [i/4] of [PackUint64IntoChunks]. *)
Theorem handleBalanceMVSlice_incremental {S} `{MultiValueSliceLaws S Z} (mv : S) (st : Id) (indices : list Z) :
  mv_ok mv → in_memory mv st → Forall (λ i, 0 ≤ i < len (mv_items mv st)) indices →
  ∃ leaves roots, handleBalanceMVSlice mv st [] true = Ok leaves ∧
    handleBalanceMVSlice mv st indices false = Ok roots ∧ 
    Forall2 (λ i root, leaves !! Z.to_nat (i / 4) = Some root) indices roots.
Proof.
  intros Hok Hm Hi. unfold handleBalanceMVSlice. rewrite mv_Value_law by done. cbn [mbind gores_bind].
  rewrite PackUint64IntoChunks_spec.
  assert (len (mv_items mv st) = 0 ∨ 0 < len (mv_items mv st)) as [Hz|Hpos] by (unfold len; lia).
  { rewrite mv_Len_law, Hz by done. eexists _, []. split_and!; [done|done|].
    destruct Hi as [|i indices Hi _]; [constructor|lia]. }
  eexists _, _. split; [done|]. split.
  { rewrite Z.gtb_ltb, (proj2 (Z.ltb_lt _ _)) by (by rewrite mv_Len_law).
    apply balancesLoop_spec; [done|done|]. eapply Forall_impl; [done|]. unfold in_memory in Hm. simpl. lia. }
  induction Hi as [|i indices Hi _ IH]; [constructor|]. rewrite fmap_cons. constructor; [|done].
  rewrite list_lookup_fmap, lookup_seq_lt; [done|]. unfold chunk_count, len in *.
  apply Nat2Z.inj_lt. rewrite Nat2Z.inj_div, Z2Nat.id by (apply Z.div_pos; lia).
  rewrite Nat2Z.inj_add. Z.to_euclidean_division_equations. lia.
Qed.

(** [handle32ByteMVslice] on single indices: on an empty list it returns no
    roots; otherwise the roots at the indices, and an error when one of them is
    outside the list. *)
Theorem handle32ByteMVslice_indices {S V} `{MultiValueSliceLaws S V} (mv : S) (st : Id) (indices : list Z) :
  mv_ok mv → len (mv_items mv st) < 2 ^ 62 → Forall (λ i, 0 ≤ i) indices →
  handle32ByteMVslice mv st indices true = Ok (mv_items mv st) ∧
  handle32ByteMVslice mv st indices false =
    if decide (mv_items mv st = []) then Ok []
    else match mapM (λ i, mv_items mv st !! Z.to_nat i) indices with
         | Some roots => Ok roots
         | None => Err errMessage
         end.
Proof.
  intros Hok Hl Hi. unfold handle32ByteMVslice. split; [by apply mv_Value_law|].
  rewrite mv_Len_law by done. case_decide as Hnil; [by rewrite Hnil|].
  assert (0 < len (mv_items mv st)) by (unfold len; destruct (mv_items mv st); simpl; done || lia).
  rewrite Z.gtb_ltb, (proj2 (Z.ltb_lt _ _)) by done. rewrite <-mv_Len_law by done.
  by apply rootsLoop_spec.
Qed.

(** ** The theorems at concrete inputs *)
Definition ex_balances : Slice Z := Append (Append (Init [1; 2; 3]) 5 300) 5 70000.
Lemma ex_balances_ok : inv ex_balances.
Proof. apply Append_spec, Append_spec, Init_inv. Qed.

Lemma handleBalanceMVSlice_incremental_witness :
  let I := Slice_interface 0 in
  ∃ leaves roots, handleBalanceMVSlice ex_balances 5 [] true = Ok leaves ∧
    handleBalanceMVSlice ex_balances 5 [4; 1] false = Ok roots ∧ 
    Forall2 (λ i root, leaves !! Z.to_nat (i / 4) = Some root) [4; 1] roots.
Proof.
  apply (handleBalanceMVSlice_incremental (H0 := Slice_laws 0) ex_balances 5 [4; 1]);
    [exact ex_balances_ok|vm_compute; done|repeat constructor; vm_compute; done].
Defined.

Lemma handle32ByteMVslice_indices_witness :
  handle32ByteMVslice (V := Z) (BuildEmptyCompositeSlice [7; 8]) 0 [1; 2] false = Err errMessage ∧
  handle32ByteMVslice (V := Z) (BuildEmptyCompositeSlice [7; 8]) 0 [1; 2] true = Ok [7; 8].
Proof.
  destruct (handle32ByteMVslice_indices (S := EmptyMVSlice Z) (BuildEmptyCompositeSlice [7; 8]) 0 [1; 2])
    as [H1 H2]; [done|vm_compute; done|repeat constructor; done|]. split; [exact H2|exact H1].
Defined.
