(* ===== verification/Sha256.v ===== *)
(** * SHA-256

    FIPS 180-4, executable: an instance of the hash function that the Merkle tries take as
    a parameter, used to check the table of zero hashes and to evaluate the tries on
    concrete items. *)
From S2P Require Import Prelude.

Module Sha256.
Definition word (z : Z) : Z := Z.land z 4294967295.
Definition rotr (n x : Z) : Z := Z.lor (Z.shiftr x n) (word (Z.shiftl x (32 - n))).
Definition xor3 (a b c : Z) : Z := Z.lxor (Z.lxor a b) c.
Definition choose (x y z : Z) : Z := Z.lxor (Z.land x y) (Z.land (4294967295 - x) z).
Definition majority (x y z : Z) : Z := xor3 (Z.land x y) (Z.land x z) (Z.land y z).

(** The fractional parts of the cube roots of the first 64 primes. *)
Definition round_constants : list Z := [
   1116352408; 1899447441; 3049323471; 3921009573; 961987163; 1508970993; 2453635748; 2870763221;
   3624381080; 310598401; 607225278; 1426881987; 1925078388; 2162078206; 2614888103; 3248222580;
   3835390401; 4022224774; 264347078; 604807628; 770255983; 1249150122; 1555081692; 1996064986;
   2554220882; 2821834349; 2952996808; 3210313671; 3336571891; 3584528711; 113926993; 338241895;
   666307205; 773529912; 1294757372; 1396182291; 1695183700; 1986661051; 2177026350; 2456956037;
   2730485921; 2820302411; 3259730800; 3345764771; 3516065817; 3600352804; 4094571909; 275423344;
   430227734; 506948616; 659060556; 883997877; 958139571; 1322822218; 1537002063; 1747873779;
   1955562222; 2024104815; 2227730452; 2361852424; 2428436474; 2756734187; 3204031479; 3329325298].
(** The fractional parts of the square roots of the first 8 primes. *)
Definition initial : list Z := [
   1779033703; 3144134277; 1013904242; 2773480762; 1359893119; 2600822924; 528734635; 1541459225].

Definition be_word (bs : list Z) : Z := foldl (λ acc b, 256 * acc + b) 0 bs.
Definition word_bytes (z : Z) : list Z := [Z.shiftr z 24; u8 (Z.shiftr z 16); u8 (Z.shiftr z 8); u8 z].

(** The message schedule, newest word first. *)
Fixpoint extend (n : nat) (ws : list Z) : list Z :=
  match n with
  | O => ws
  | S n' =>
      let w i := nth i ws 0 in
      let s0 := xor3 (rotr 7 (w 14%nat)) (rotr 18 (w 14%nat)) (Z.shiftr (w 14%nat) 3) in
      let s1 := xor3 (rotr 17 (w 1%nat)) (rotr 19 (w 1%nat)) (Z.shiftr (w 1%nat) 10) in
      extend n' (word (w 15%nat + s0 + w 6%nat + s1) :: ws)
  end.

Definition round (st : list Z) (kw : Z * Z) : list Z :=
  match st with
  | [a; b; c; d; e; f; g; h] =>
      let t1 := h + xor3 (rotr 6 e) (rotr 11 e) (rotr 25 e) + choose e f g + kw.1 + kw.2 in
      let t2 := xor3 (rotr 2 a) (rotr 13 a) (rotr 22 a) + majority a b c in
      [word (t1 + t2); a; b; c; word (d + t1); e; f; g]
  | _ => st
  end.

Fixpoint words (n : nat) (bs : list Z) : list Z :=
  match n with O => [] | S n' => be_word (take 4 bs) :: words n' (drop 4 bs) end.

Definition compress (st : list Z) (block : list Z) : list Z :=
  let schedule := reverse (extend 48 (reverse (words 16 block))) in
  zip_with (λ x y, word (x + y)) st (foldl round st (zip round_constants schedule)).

Fixpoint blocks (n : nat) (bs : list Z) : list (list Z) :=
  match n with O => [] | S n' => take 64 bs :: blocks n' (drop 64 bs) end.

Definition padded (msg : list Z) : list Z :=
  let n := length msg in
  let zeros := ((119 - n mod 64) mod 64)%nat in
  msg ++ [128] ++ replicate zeros 0 ++ word_bytes (Z.shiftr (8 * Z.of_nat n) 32) ++ word_bytes (word (8 * Z.of_nat n)).

Definition sha256 (msg : list Z) : list Z :=
  let p := padded msg in
  mjoin (word_bytes <$> foldl compress initial (blocks (length p / 64) p)).

Lemma round_length st kw : length st = 8%nat → length (round st kw) = 8%nat.
Proof. intros H. do 9 (destruct st as [|? st]; [done|try done]). Qed.
Lemma rounds_length kws st : length st = 8%nat → length (foldl round st kws) = 8%nat.
Proof. revert st. induction kws as [|kw kws IH]; intros st Hst; [done|]. apply IH. by apply round_length. Qed.
Lemma compress_length st block : length st = 8%nat → length (compress st block) = 8%nat.
Proof. intros Hst. unfold compress. rewrite length_zip_with, rounds_length by done. lia. Qed.
Lemma sha256_length msg : length (sha256 msg) = 32%nat.
Proof.
  unfold sha256. generalize (blocks (length (padded msg) / 64) (padded msg)). intros bs.
  assert (length (foldl compress initial bs) = 8%nat) as H8.
  { assert (∀ st, length st = 8%nat → length (foldl compress st bs) = 8%nat) as H; [|by apply H].
    induction bs as [|b bs IH]; intros st Hst; [done|]. apply IH. by apply compress_length. }
  revert H8. generalize (foldl compress initial bs). intros st H. do 9 (destruct st as [|? st]; [done|try done]).
Qed.

(** The digest of the empty message and of the three bytes abc. *)
Example sha256_empty : take 8 (sha256 []) = [227; 176; 196; 66; 152; 252; 28; 20].
Proof. vm_compute. reflexivity. Qed.
Example sha256_abc : take 8 (sha256 [97; 98; 99]) = [186; 120; 22; 191; 143; 1; 207; 234].
Proof. vm_compute. reflexivity. Qed.
End Sha256.
