(* ===== verification/MerkleTrie.v ===== *)
(** * Merkle tries: container/trie/sparse_merkle.go and state/stateutil/trie_helpers.go

    [SparseMerkleTrie] is the trie of deposits; the functions of trie_helpers.go build and
    update the layers of the field tries a beacon state keeps.  A node is a list of bytes;
    SHA-256 (crypto/hash over a third-party implementation) is the parameter [hash].  The
    code replaces the [*[32]byte] pointers of a layer and never writes through one, so a
    layer is a list of values.  Indices are checked to be non-negative at the entry points
    and are [nat] inside the loops. *)
From S2P Require Import Prelude MathHelper Shuffle MVSlice ZeroHashes.

Abbreviation Root := (list Z).
Abbreviation Layers := (list (list Root)).

(** ** encoding/bytesutil and encoding/ssz *)
Definition PadTo (b : list Z) (size : nat) : list Z :=
  if (size <=? length b)%nat then b else b ++ replicate (size - length b) 0.
Definition ToBytes32 (x : list Z) : Root := take 32 (PadTo x 32).

(** [mask_k = ^uint64((1 << (1 << k)) - 1)] *)
Definition depthMask (k : Z) : Z := MaxUint64 - (Z.shiftl 1 (Z.shiftl 1 k) - 1).
Definition depthStep (vo : Z * Z) (k : Z) : Z * Z :=
  let '(v, out) := vo in
  if negb (Z.land v (depthMask k) =? 0) then (Z.shiftr v (Z.shiftl 1 k), Z.lor out (Z.shiftl 1 k)) else (v, out).
(** In the last of the six steps [v] is no longer needed and is not shifted. *)
Definition Depth (v : Z) : Z :=
  if v <=? 1 then 0
  else
    let '(v, out) := foldl depthStep (v -64 1, 0) [5; 4; 3; 2; 1] in
    let out := if negb (Z.land v (depthMask 0) =? 0) then Z.lor out 1 else out in
    u8 (out + 1).

(** [layers[i]] and [layer[j]]: out of range panics. *)
Definition at_ {A} (l : list A) (i : nat) : gores A := match l !! i with Some x => Ok x | None => Panic end.
Definition zeroHash (i : nat) : gores Root := at_ ZeroHashes i.

Section trie.
Context (hash : list Z → Root).

Definition MixInLength (root : Root) (length : list Z) : Root := hash (root ++ length).

(** [binary.LittleEndian.PutUint64(enc[:], n)] into 32 zero bytes *)
Definition encodeCount (n : Z) : Root := le_bytes 8 n ++ replicate 24 0.

(** ** SparseMerkleTrie *)
Record SparseMerkleTrie := mkTrie {
  depth : nat;
  branches : Layers;
  originalItems : list (list Z) }.

(** [for j := 0; j < len(layer); j += 2 { hash(layer[j] ++ layer[j+1]) }] *)
Fixpoint hashPairs (layer : list Root) : gores (list Root) :=
  match layer with
  | [] => Ok []
  | [_] => Panic
  | a :: b :: layer' => updatedValues ← hashPairs layer'; Ok (hash (a ++ b) :: updatedValues)
  end.

Fixpoint generateLoop (n i : nat) (layer : list Root) : gores Layers :=
  match n with
  | O => Ok [layer]
  | S n' =>
      layer ← (if (length layer mod 2 =? 1)%nat then z ← zeroHash i; Ok (layer ++ [z]) else Ok layer : gores (list Root));
      updatedValues ← hashPairs layer;
      layers ← generateLoop n' (S i) updatedValues;
      Ok (layer :: layers)
  end.

Definition GenerateTrieFromItems (items : list (list Z)) (depth : Z) : gores SparseMerkleTrie :=
  if (length items =? 0)%nat then Err errMessage
  else if depth >=? 63 then Err errMessage
  else
    layers ← generateLoop (Z.to_nat depth) 0 (ToBytes32 <$> items);
    Ok (mkTrie (Z.to_nat depth) layers items).

Definition NewTrie (depth : Z) : gores SparseMerkleTrie := GenerateTrieFromItems [replicate 32 0] depth.

Definition validate (m : SparseMerkleTrie) : gores unit :=
  match last (branches m) with
  | None => Err errMessage
  | Some l =>
      if (length l =? 0)%nat then Err errMessage
      else if (length (branches m) <=? depth m)%nat then Err errMessage
      else if (63 <=? depth m)%nat then Err errMessage
      else Ok tt
  end.

(** The Merkle root of the trie, [m.branches[len(m.branches)-1][0]]. *)
Definition trieRoot (m : SparseMerkleTrie) : gores Root :=
  match last (branches m) with Some l => at_ l 0 | None => Panic end.

Definition HashTreeRoot (m : SparseMerkleTrie) : gores Root :=
  let depositCount := len (originalItems m) in
  let depositCount :=
    match originalItems m with
    | [item] => if bool_decide (ZeroHashes !! 0%nat = Some item) then 0 else depositCount
    | _ => depositCount
    end in
  root ← trieRoot m;
  Ok (hash (root ++ encodeCount depositCount)).

Definition NumOfItems (m : SparseMerkleTrie) : Z :=
  match originalItems m with
  | [item] => if bool_decide (item = replicate 32 0) then 0 else len (originalItems m)
  | _ => len (originalItems m)
  end.

(** [for index >= len(layer) { layer = append(layer, ZeroHashes[0]) }] *)
Definition padLeaves (layer : list Root) (index : nat) : gores (list Root) :=
  z ← zeroHash 0; Ok (layer ++ replicate (S index - length layer) z).

(** The walk from a leaf to the top in [Insert]: [n] layers above layer [i]. *)
Fixpoint insertLoop (n i : nat) (layers : Layers) (currentIndex : nat) (root : Root) : gores (Root * Layers) :=
  match n with
  | O => Ok (root, layers)
  | S n' =>
      let isLeft := (currentIndex mod 2 =? 0)%nat in
      let neighborIdx := Nat.lxor currentIndex 1 in
      layer ← at_ layers i;
      neighbor ← (if (length layer <=? neighborIdx)%nat then zeroHash i else at_ layer neighborIdx);
      let root := if isLeft then hash (root ++ neighbor) else hash (neighbor ++ root) in
      let parentIdx := (currentIndex / 2)%nat in
      above ← at_ layers (S i);
      let above := if (length above =? 0)%nat || (length above <=? parentIdx)%nat then above ++ [root]
                   else <[parentIdx := root]> above in
      insertLoop n' (S i) (<[S i := above]> layers) parentIdx root
  end.

Definition Insert (m : SparseMerkleTrie) (item : list Z) (index : Z) : gores SparseMerkleTrie :=
  if index <? 0 then Err errMessage
  else
    let index := Z.to_nat index in
    leaves ← at_ (branches m) 0;
    leaves ← padLeaves leaves index;
    let someItem := ToBytes32 item in
    let layers := <[0%nat := <[index := someItem]> leaves]> (branches m) in
    let items := if (length (originalItems m) <=? index)%nat then originalItems m ++ [someItem]
                 else <[index := someItem]> (originalItems m) in
    '(_, layers) ← insertLoop (depth m) 0 layers index (ToBytes32 item);
    Ok (mkTrie (depth m) layers items).

Fixpoint proofLoop (n i : nat) (layers : Layers) (merkleIndex : nat) : gores (list Root) :=
  match n with
  | O => Ok []
  | S n' =>
      let subIndex := Nat.lxor (merkleIndex / 2 ^ i) 1 in
      layer ← at_ layers i;
      item ← (if (subIndex <? length layer)%nat then x ← at_ layer subIndex; Ok (ToBytes32 x) else zeroHash i : gores Root);
      proof ← proofLoop n' (S i) layers merkleIndex;
      Ok (item :: proof)
  end.

Definition MerkleProof (m : SparseMerkleTrie) (index : Z) : gores (list Root) :=
  if index <? 0 then Err errMessage
  else
    leaves ← at_ (branches m) 0;
    if index >=? len leaves then Err errMessage
    else
      proof ← proofLoop (depth m) 0 (branches m) (Z.to_nat index);
      Ok (proof ++ [encodeCount (len (originalItems m))]).

Fixpoint verifyLoop (merkleIndex : Z) (node : Root) (proof : list (list Z)) : Root :=
  match proof with
  | [] => node
  | p :: proof' =>
      let node := if Z.land merkleIndex 1 =? 1 then hash (p ++ node) else hash (node ++ p) in
      verifyLoop (merkleIndex / 2) node proof'
  end.

(** With [depth = MaxUint64] the length test passes for an empty proof and [proof[0]]
    panics. *)
Definition VerifyMerkleProofWithDepth (root item : list Z) (merkleIndex : Z) (proof : list (list Z)) (depth : Z)
    : gores bool :=
  if negb (len proof =? depth +64 1) then Ok false
  else
    match proof with
    | [] => Panic
    | _ => Ok (bool_decide (root = verifyLoop merkleIndex (ToBytes32 item) proof))
    end.

Definition VerifyMerkleProof (root item : list Z) (merkleIndex : Z) (proof : list (list Z)) : gores bool :=
  if (length proof =? 0)%nat then Ok false
  else VerifyMerkleProofWithDepth root item merkleIndex proof (len proof - 1).

Fixpoint ProofFromMerkleLayers_loop (layers : Layers) (currentIndex : nat) : gores (list Root) :=
  match layers with
  | [] | [_] => Ok []
  | layer :: layers' =>
      neighbor ← at_ layer (Nat.lxor currentIndex 1);
      proof ← ProofFromMerkleLayers_loop layers' (currentIndex / 2);
      Ok (neighbor :: proof)
  end.
Definition ProofFromMerkleLayers (layers : Layers) (startingLeafIndex : nat) : gores (list Root) :=
  ProofFromMerkleLayers_loop layers startingLeafIndex.

(** ** crypto/hash/htr *)

(** [gohashtree.Hash(digests, chunks)]: the digests of the pairs of chunks, an error on an
    odd number of chunks; [VectorizedSha256] panics on the error. *)
Definition minSliceSizeToParallelize : nat := 5000.

Fixpoint hashGroups (k : nat) (groupSize : nat) (inputList : list Root) : gores (list Root) :=
  match k with
  | O => hashPairs inputList
  | S k' =>
      group ← hashPairs (take (2 * groupSize) inputList);
      rest ← hashGroups k' groupSize (drop (2 * groupSize) inputList);
      Ok (group ++ rest)
  end.

(** [GOMAXPROCS] is [runtime.GOMAXPROCS(0)], at least 1: that many groups of pairs are
    hashed, all but the last by goroutines that write disjoint parts of the output. *)
Definition VectorizedSha256 (GOMAXPROCS : nat) (inputList : list Root) : gores (list Root) :=
  if (length inputList <? minSliceSizeToParallelize)%nat then hashPairs inputList
  else
    let n := (GOMAXPROCS - 1)%nat in
    let groupSize := (length inputList / (2 * (n + 1)))%nat in
    hashGroups n groupSize inputList.
End trie.

Lemma ToBytes32_length x : length (ToBytes32 x) = 32%nat.
Proof.
  unfold ToBytes32, PadTo. rewrite length_take. destruct (Nat.leb_spec 32 (length x)); [lia|].
  rewrite length_app, length_replicate. lia.
Qed.

Lemma ToBytes32_id x : length x = 32%nat → ToBytes32 x = x.
Proof. intros Hx. unfold ToBytes32, PadTo. by rewrite Hx, Nat.leb_refl, take_ge by lia. Qed.
