(* ===== verification/TrieHelpers.v ===== *)
(** * beacon-chain/state/stateutil/trie_helpers.go: the layers of a field trie

    A field trie keeps all layers of the Merkle tree of a field of the state.
    [ReturnTrieLayer] and [ReturnTrieLayerVariable] build them, [RecomputeFromLayer] and
    [RecomputeFromLayerVariable] recompute the branches above the leaves that changed.  The
    Go functions update the layers in place and return them; here the layers are passed
    and returned. *)
From S2P Require Import Prelude MathHelper Shuffle MVSlice ZeroHashes MerkleTrie.

Section helpers.
Context (hash : list Z → Root) (GOMAXPROCS : nat).

(** [for len(hashLayer) > 1 && i < len(layers)]: at most as many rounds as layers. *)
Fixpoint merkleizeLoop (fuel i : nat) (layers : Layers) (hashLayer : list Root) : gores (Layers * list Root) :=
  if (1 <? length hashLayer)%nat && (i <? length layers)%nat then
    match fuel with
    | O => OutOfFuel
    | S fuel' =>
        if negb (IsPowerOf2 (len hashLayer)) then Err errMessage
        else
          hashLayer ← VectorizedSha256 hash GOMAXPROCS hashLayer;
          merkleizeLoop fuel' (S i) (<[i := hashLayer]> layers) hashLayer
    end
  else Ok (layers, hashLayer).

Definition MerkleizeTrieLeaves (layers : Layers) (hashLayer : list Root) : gores (Layers * list Root) :=
  merkleizeLoop (length layers) 1 layers hashLayer.

Definition ReturnTrieLayer (elements : list Root) (length_ : Z) : gores Layers :=
  match elements with
  | [leaf] => Ok [[leaf]]
  | _ =>
      let layers := <[0%nat := elements]> (replicate (S (Z.to_nat (Depth length_))) []) in
      '(layers, _) ← MerkleizeTrieLeaves layers elements;
      Ok layers
  end.

(** [n] layers above layer [i], whose nodes are [elements]. *)
Fixpoint variableLoop (n i : nat) (elements : list Root) : gores Layers :=
  match n with
  | O => Ok [elements]
  | S n' =>
      padded ← (if (length elements mod 2 =? 1)%nat then z ← zeroHash i; Ok (elements ++ [z])
                else Ok elements : gores (list Root));
      above ← VectorizedSha256 hash GOMAXPROCS padded;
      layers ← variableLoop n' (S i) above;
      Ok (elements :: layers)
  end.

Definition ReturnTrieLayerVariable (elements : list Root) (length_ : Z) : gores Layers :=
  let depth := Z.to_nat (Depth length_) in
  if (length elements =? 0)%nat then zerohash ← zeroHash depth; Ok (replicate depth [] ++ [[zerohash]])
  else variableLoop depth 0 elements.

(** The walk of [recomputeRootFromLayer]: a missing neighbour is 32 zero bytes. *)
Fixpoint recomputeLoop (n i : nat) (layers : Layers) (currentIndex : nat) (root : Root) : gores (Root * Layers) :=
  match n with
  | O => Ok (root, layers)
  | S n' =>
      let isLeft := (currentIndex mod 2 =? 0)%nat in
      let neighborIdx := Nat.lxor currentIndex 1 in
      layer ← at_ layers i;
      neighbor ← (if negb (length layer =? 0)%nat && (neighborIdx <? length layer)%nat
                  then at_ layer neighborIdx else Ok (replicate 32 0));
      let root := if isLeft then hash (root ++ neighbor) else hash (neighbor ++ root) in
      let parentIdx := (currentIndex / 2)%nat in
      above ← at_ layers (S i);
      above ← (if (length above =? 0)%nat then Ok (above ++ [root])
               else if (parentIdx <? length above)%nat then Ok (<[parentIdx := root]> above) else Panic
               : gores (list Root));
      recomputeLoop n' (S i) (<[S i := above]> layers) parentIdx root
  end.

Definition recomputeRootFromLayer (idx : nat) (layers : Layers) (chunks : list Root) : gores (Root * Layers) :=
  root ← at_ chunks idx;
  let layers := <[0%nat := chunks]> layers in
  '(root, layers) ← recomputeLoop (length layers - 1) 0 layers idx root;
  layer0 ← at_ layers 0;
  match layer0 with
  | [leaf] => Ok (leaf, layers)
  | _ => Ok (root, layers)
  end.

(** [for i, idx := range changedIdx { layer[0][idx] = &changedLeaves[i] }] *)
Fixpoint setLeaves (changedIdx : list Z) (changedLeaves : list Root) (leaves : list Root) : gores (list Root) :=
  match changedIdx with
  | [] => Ok leaves
  | idx :: changedIdx' =>
      match changedLeaves with
      | [] => Panic
      | leaf :: changedLeaves' =>
          if (Z.to_nat idx <? length leaves)%nat
          then setLeaves changedIdx' changedLeaves' (<[Z.to_nat idx := leaf]> leaves) else Panic
      end
  end.

Fixpoint recomputeEach (changedIdx : list Z) (root : Root) (layer : Layers) (leaves : list Root)
    : gores (Root * Layers) :=
  match changedIdx with
  | [] => Ok (root, layer)
  | idx :: changedIdx' =>
      ii ← Int idx;
      '(root, layer) ← recomputeRootFromLayer (Z.to_nat ii) layer leaves;
      recomputeEach changedIdx' root layer leaves
  end.

Definition RecomputeFromLayer (changedLeaves : list Root) (changedIdx : list Z) (layer : Layers)
    : gores (Root * Layers) :=
  match layer with
  | [] => Panic
  | leaves :: above =>
      leaves ← setLeaves changedIdx changedLeaves leaves;
      let layer := leaves :: above in
      root ← at_ leaves 0;
      match last changedIdx with
      | None => Ok (root, layer)
      | Some maxChangedIndex =>
          let changedIdx :=
            if (i64 (maxChangedIndex +64 2) =? len leaves) && negb (maxChangedIndex mod 2 =? 0)
            then changedIdx ++ [maxChangedIndex +64 1] else changedIdx in
          recomputeEach changedIdx root layer leaves
      end
  end.

(** The walk of [recomputeRootFromLayerVariable]: a missing neighbour is a zero hash. *)
Fixpoint recomputeVariableLoop (n i : nat) (layers : Layers) (currentIndex : nat) (root : Root)
    : gores (Root * Layers) :=
  match n with
  | O => Ok (root, layers)
  | S n' =>
      let isLeft := (currentIndex mod 2 =? 0)%nat in
      let neighborIdx := Nat.lxor currentIndex 1 in
      layer ← at_ layers i;
      neighbor ← (if (length layer <=? neighborIdx)%nat then zeroHash i else at_ layer neighborIdx);
      let root := if isLeft then hash (root ++ neighbor) else hash (neighbor ++ root) in
      let parentIdx := (currentIndex / 2)%nat in
      above ← at_ layers (S i);
      let above := if (length above =? 0)%nat || (length above <=? parentIdx)%nat then above ++ [root]
                   else <[parentIdx := root]> above in
      recomputeVariableLoop n' (S i) (<[S i := above]> layers) parentIdx root
  end.

Definition recomputeRootFromLayerVariable (idx : nat) (item : Root) (layers : Layers) : gores (Root * Layers) :=
  leaves ← at_ layers 0;
  leaves ← padLeaves leaves idx;
  let layers := <[0%nat := <[idx := item]> leaves]> layers in
  recomputeVariableLoop (length layers - 1) 0 layers idx item.

Fixpoint recomputeVariableEach (changedIdx : list Z) (changedLeaves : list Root) (root : Root) (layer : Layers)
    : gores (Root * Layers) :=
  match changedIdx with
  | [] => Ok (root, layer)
  | idx :: changedIdx' =>
      ii ← Int idx;
      match changedLeaves with
      | [] => Panic
      | leaf :: changedLeaves' =>
          '(root, layer) ← recomputeRootFromLayerVariable (Z.to_nat ii) leaf layer;
          recomputeVariableEach changedIdx' changedLeaves' root layer
      end
  end.

Definition RecomputeFromLayerVariable (changedLeaves : list Root) (changedIdx : list Z) (layer : Layers)
    : gores (Root * Layers) :=
  if (length changedIdx =? 0)%nat then
    leaves ← at_ layer 0; root ← at_ leaves 0; Ok (root, layer)
  else
    match last layer with
    | None => Panic
    | Some top => root ← at_ top 0; recomputeVariableEach changedIdx changedLeaves root layer
    end.

Definition AddInMixin (root : Root) (length : Z) : Root := MixInLength hash root (encodeCount length).
End helpers.
