(* ===== verification/SszMerkleize.v ===== *)
(** * encoding/ssz: Merkle roots of vectors and lists

    merkleize.go ([Merkleize] with one node per level, [MerkleizeVector] layer by layer,
    their SSZ wrappers), helpers.go ([BitwiseMerkleize], [PackByChunk]) and slice_root.go.
    SHA-256 is the parameter [hash]; [HashTreeRoot] of an element is generated code and an
    argument.  A [32]byte is a list of 32 bytes. *)
From S2P Require Import Prelude MathHelper Shuffle MVSlice ZeroHashes MerkleTrie.

Section ssz.
Context (hash : list Z → Root) (GOMAXPROCS : nat).

(** [copy(dst, src)] *)
Definition copyInto {A} (dst src : list A) : list A :=
  take (length dst) src ++ drop (length src) dst.

(** hashers.go: [Combi] of a [HasherFunc] over [hash] *)
Definition Combi (a b : Root) : Root := hash (a ++ b).

(** ** Merkleize *)

(** The loop of [merge]: [tmp] is read, [j] and [h] change.  A shift by 64 or more gives 0,
    so [j] stops at 64 at the latest. *)
Fixpoint mergeLoop (fuel : nat) (count : Z) (depth : nat) (tmp : list Root) (i : Z) (j : nat) (h : Root)
    : gores (nat * Root) :=
  match fuel with
  | O => OutOfFuel
  | S fuel' =>
      if Z.land i (u64 (Z.shiftl 1 (Z.of_nat j))) =? 0 then
        if (i =? count) && (j <? depth)%nat then
          z ← zeroHash j; mergeLoop fuel' count depth tmp i (S j) (Combi h z)
        else Ok (j, h)
      else
        t ← at_ tmp j; mergeLoop fuel' count depth tmp i (S j) (Combi t h)
  end.
Definition merge_fuel : nat := 66.

Definition merge (count : Z) (depth : nat) (tmp : list Root) (i : Z) (h : Root) : gores (list Root * Root) :=
  '(j, h) ← mergeLoop merge_fuel count depth tmp i 0 h;
  _ ← at_ tmp j;
  Ok (<[j := h]> tmp, h).

Fixpoint mergeLeaves (leaf : nat → list Z) (count : Z) (depth : nat) (idxs : list nat) (tmp : list Root) (h : Root)
    : gores (list Root * Root) :=
  match idxs with
  | [] => Ok (tmp, h)
  | i :: idxs' =>
      '(tmp, h) ← merge count depth tmp (Z.of_nat i) (copyInto h (leaf i));
      mergeLeaves leaf count depth idxs' tmp h
  end.

(** [for j := depth; j < limitDepth; j++ { tmp[j+1] = Combi(tmp[j], ZeroHashes[j]) }] *)
Fixpoint padLoop (n j : nat) (tmp : list Root) : gores (list Root) :=
  match n with
  | O => Ok tmp
  | S n' =>
      t ← at_ tmp j; z ← zeroHash j; _ ← at_ tmp (S j);
      padLoop n' (S j) (<[S j := Combi t z]> tmp)
  end.

Definition Merkleize (count : nat) (limit : Z) (leaf : nat → list Z) : gores Root :=
  let c := Z.of_nat count in
  let zero := replicate 32 0 in
  if c >? limit then Panic
  else if limit =? 0 then Ok zero
  else if limit =? 1 then Ok (if (count =? 1)%nat then copyInto zero (leaf 0%nat) else zero)
  else
    let depth := Z.to_nat (Depth c) in
    let limitDepth := Z.to_nat (Depth limit) in
    let tmp := replicate (S limitDepth) zero in
    '(tmp, h) ← mergeLeaves leaf c depth (seq 0 count) tmp zero;
    tmp ← (if negb (u64 (Z.shiftl 1 (Z.of_nat depth)) =? c) then
             z ← zeroHash 0; '(tmp, _) ← merge c depth tmp c (copyInto h z); Ok tmp
           else Ok tmp : gores (list Root));
    tmp ← padLoop (limitDepth - depth) depth tmp;
    at_ tmp limitDepth.

(** ** MerkleizeVector and its callers *)
Fixpoint vectorLoop (n i : nat) (elements : list Root) : gores (list Root) :=
  match n with
  | O => Ok elements
  | S n' =>
      padded ← (if (length elements mod 2 =? 1)%nat then z ← zeroHash i; Ok (elements ++ [z])
                else Ok elements : gores (list Root));
      above ← VectorizedSha256 hash GOMAXPROCS padded;
      vectorLoop n' (S i) above
  end.
Definition MerkleizeVector (elements : list Root) (length_ : Z) : gores Root :=
  let depth := Z.to_nat (Depth length_) in
  if (length elements =? 0)%nat then zeroHash depth
  else elements ← vectorLoop depth 0 elements; at_ elements 0.

Definition BitwiseMerkleize (chunks : list Root) (count limit : Z) : gores Root :=
  if count >? limit then Err errMessage else MerkleizeVector chunks limit.

Section elements.
Context {T : Type} (HashTreeRoot : T → gores Root).

Fixpoint hashElements (elements : list T) : gores (list Root) :=
  match elements with
  | [] => Ok []
  | el :: elements' => r ← HashTreeRoot el; roots ← hashElements elements'; Ok (r :: roots)
  end.

Definition MerkleizeVectorSSZ (elements : list T) (length_ : Z) : gores Root :=
  roots ← hashElements elements; MerkleizeVector roots length_.
Definition MerkleizeListSSZ (elements : list T) (limit : Z) : gores Root :=
  body ← MerkleizeVectorSSZ elements limit;
  Ok (hash (body ++ encodeCount (len elements))).

Definition SliceRoot (slice : list T) (limit : Z) : gores Root :=
  if len slice >? limit then Err errMessage
  else
    roots ← hashElements slice;
    sliceRoot ← BitwiseMerkleize roots (len roots) limit;
    Ok (MixInLength hash sliceRoot (encodeCount (len slice))).
End elements.

(** Chunks of 32 bytes, the last one padded with zeros; [fuel] is the number of bytes. *)
Fixpoint chunkify (fuel : nat) (bs : list Z) : list Root :=
  match fuel, bs with
  | S fuel', _ :: _ => ToBytes32 (take 32 bs) :: chunkify fuel' (drop 32 bs)
  | _, _ => []
  end.
Definition PackByChunk (serializedItems : list (list Z)) : list Root :=
  match serializedItems with
  | [] => [replicate 32 0]
  | item :: _ =>
      if (length item =? 32)%nat then ToBytes32 <$> serializedItems
      else
        let orderedItems := concat serializedItems in
        match orderedItems with
        | [] => [replicate 32 0]
        | _ => chunkify (length orderedItems) orderedItems
        end
  end.
Definition MerkleizeByteSliceSSZ (input : list Z) : gores Root :=
  let numChunks := ((length input + 31) / 32)%nat in
  if (numChunks =? 0)%nat then Err errMessage
  else MerkleizeVector ((λ i, copyInto (replicate 32 0) (drop (32 * i) input)) <$> seq 0 numChunks) (Z.of_nat numChunks).
Definition ByteSliceRoot (slice : list Z) (maxLength : Z) : gores Root :=
  let chunkedRoots := PackByChunk [slice] in
  let maxRootLength := (maxLength +64 31) / 32 in
  bytesRoot ← BitwiseMerkleize chunkedRoots (len chunkedRoots) maxRootLength;
  Ok (MixInLength hash bytesRoot (encodeCount (len slice))).
End ssz.
