(* ===== verification/MerkleTheorems.v ===== *)
(** * The deposit trie: roots and proofs

    A trie that is generated from items and then extended in order has the root of the
    trie generated from all its items; its proofs verify; and two proofs for one position
    under one root are proofs of the same item, or exhibit a collision of the hash. *)
From S2P Require Import Prelude MathHelper Shuffle MVSlice ZeroHashes Sha256 MerkleTrie TrieHelpers.
From Stdlib Require Import ZifyNat.

(** ** What the layers of a Merkle trie hold

    [node leaf d j] is the [j]th node at height [d] of the infinite binary tree over
    [leaf].  [tracks leaf depth layers] says that the layers hold the nodes of that tree,
    a missing node standing for a zero hash: it is what the constructors establish and
    what the walk from a changed leaf to the top keeps. *)
Local Ltac Zify.zify_post_hook ::= Z.to_euclidean_division_equations.

Definition zh (i : nat) : Root := nth i ZeroHashes [].
Lemma zeroHash_Ok i : (i < 100)%nat → zeroHash i = Ok (zh i).
Proof.
  intros Hi. unfold zeroHash, at_, zh. destruct (ZeroHashes !! i) as [z|] eqn:Hz.
  - by rewrite (nth_lookup_Some _ _ _ _ Hz).
  - apply lookup_ge_None in Hz. rewrite ZeroHashes_length in Hz. lia.
Qed.

Lemma at_Some {A} (l : list A) i x : l !! i = Some x → at_ l i = Ok x.
Proof. unfold at_. by intros ->. Qed.

Definition set_leaf (leaf : nat → Root) (k : nat) (x : Root) (j : nat) : Root := if decide (j = k) then x else leaf j.

(** ** Positions *)
Lemma pow2_S i k : (k / 2 ^ S i = k / 2 ^ i / 2)%nat.
Proof. rewrite Nat.pow_succ_r', Nat.mul_comm, Nat.Div0.div_div. done. Qed.

Lemma lxor_double q : Nat.lxor (2 * q) 1 = (2 * q + 1)%nat ∧ Nat.lxor (2 * q + 1) 1 = (2 * q)%nat.
Proof.
  assert (∀ m, Nat.testbit 1 (S m) = false) as H1 by (intros m; apply Nat.bits_0).
  split; apply Nat.bits_inj; intros [|m]; rewrite Nat.lxor_spec;
    rewrite ?Nat.testbit_even_0, ?Nat.testbit_odd_0, ?Nat.testbit_even_succ', ?Nat.testbit_odd_succ', ?H1;
    by rewrite ?xorb_false_r.
Qed.
Lemma sibling cur : (cur mod 2 = 0 ∧ Nat.lxor cur 1 = cur + 1 ∧ cur = 2 * (cur / 2))%nat ∨
  (cur mod 2 = 1 ∧ Nat.lxor cur 1 = cur - 1 ∧ cur = 2 * (cur / 2) + 1)%nat.
Proof.
  destruct (lxor_double (cur / 2)) as [He Ho]. destruct (decide (cur mod 2 = 0)%nat) as [H0|H0]; [left|right].
  - replace (2 * (cur / 2))%nat with cur in He, Ho by lia. split_and!; lia.
  - replace (2 * (cur / 2) + 1)%nat with cur in He, Ho by lia. split_and!; lia.
Qed.
Lemma sibling_parent cur : (Nat.lxor cur 1 / 2 = cur / 2)%nat.
Proof. destruct (sibling cur) as [(? & -> & ?)|(? & -> & ?)]; lia. Qed.
Lemma sibling_ne cur : Nat.lxor cur 1 ≠ cur.
Proof. destruct (sibling cur) as [(? & -> & ?)|(? & -> & ?)]; lia. Qed.

Section facts.
Context (hash : list Z → Root).

(** ** The tree *)
Fixpoint node (leaf : nat → Root) (d j : nat) : Root :=
  match d with
  | O => leaf j
  | S d' => hash (node leaf d' (2 * j) ++ node leaf d' (2 * j + 1))
  end.

(** The hash of a node from one of its children and the sibling of that child. *)
Definition combine (cur : nat) (x y : Root) : Root :=
  if (cur mod 2 =? 0)%nat then hash (x ++ y) else hash (y ++ x).
Lemma node_parent leaf d cur :
  node leaf (S d) (cur / 2) = combine cur (node leaf d cur) (node leaf d (Nat.lxor cur 1)).
Proof.
  unfold combine. cbn [node]. destruct (sibling cur) as [(-> & -> & Hc)|(-> & -> & Hc)]; cbn [Nat.eqb].
  - by rewrite <-Hc.
  - rewrite <-Hc. by replace (2 * (cur / 2))%nat with (cur - 1)%nat by lia.
Qed.

Lemma node_ext leaf leaf' d j : (∀ k, (k / 2 ^ d = j)%nat → leaf k = leaf' k) → node leaf d j = node leaf' d j.
Proof.
  revert j. induction d as [|d IH]; intros j Hl; cbn [node].
  - apply Hl. change (2 ^ 0)%nat with 1%nat. by rewrite Nat.div_1_r.
  - f_equal. f_equal; apply IH; intros k Hk; apply Hl; rewrite pow2_S, Hk; lia.
Qed.
Lemma node_set_other leaf k x d j : j ≠ (k / 2 ^ d)%nat → node (set_leaf leaf k x) d j = node leaf d j.
Proof. intros Hj. apply node_ext. intros k' <-. unfold set_leaf. case_decide; [by subst|done]. Qed.

(** ** Layers *)
Definition holds (leaf : nat → Root) (i : nat) (layer : list Root) : Prop :=
  ∀ j, default (zh i) (layer !! j) = node leaf i j.

Record tracks (leaf : nat → Root) (depth : nat) (layers : Layers) : Prop := {
  tracks_depth : (depth < 100)%nat;
  tracks_length : length layers = S depth;
  tracks_nodes i layer : layers !! i = Some layer → holds leaf i layer;
  tracks_above i layer above : layers !! i = Some layer → layers !! S i = Some above →
    (length layer / 2 ≤ length above)%nat;
  tracks_top top : layers !! depth = Some top → (0 < length top)%nat }.

Lemma tracks_root leaf depth layers : tracks leaf depth layers →
  ∃ top, last layers = Some top ∧ layers !! depth = Some top ∧ at_ top 0 = Ok (node leaf depth 0).
Proof.
  intros Ht. destruct (lookup_lt_is_Some_2 layers depth) as [top Htop]; [rewrite (tracks_length _ _ _ Ht); lia|].
  exists top. split_and!; [by rewrite last_lookup, (tracks_length _ _ _ Ht)|done|].
  pose proof (tracks_nodes _ _ _ Ht _ _ Htop 0%nat) as Hn. pose proof (tracks_top _ _ _ Ht _ Htop).
  destruct top as [|r top]; [simpl in *; lia|]. simpl in Hn. subst r. done.
Qed.

(** ** The walk from a leaf to the top *)
Section walk.
Context (leaf : nat → Root) (k : nat) (x : Root) (depth : nat).

(** After the walk has set the layers up to [i]. *)
Record walking (i : nat) (layers : Layers) : Prop := {
  w_length : length layers = S depth;
  w_nodes i' layer : layers !! i' = Some layer →
    holds (if decide (i' ≤ i)%nat then set_leaf leaf k x else leaf) i' layer;
  w_above i' layer above : i' ≠ i → layers !! i' = Some layer → layers !! S i' = Some above →
    (length layer / 2 ≤ length above)%nat;
  w_here layer above : layers !! i = Some layer → layers !! S i = Some above →
    (k / 2 ^ S i ≤ length above)%nat ∧ (length layer / 2 ≤ length above `max` S (k / 2 ^ S i))%nat;
  w_top top : layers !! depth = Some top → (0 < length top)%nat }.

(** Setting a node of a layer, or adding it at its end. *)
Definition put_node (above : list Root) (p : nat) (r : Root) : list Root :=
  if (length above =? 0)%nat || (length above <=? p)%nat then above ++ [r] else <[p := r]> above.
Lemma put_node_length above p r : (p ≤ length above)%nat → length (put_node above p r) = (length above `max` S p)%nat.
Proof.
  intros Hp. unfold put_node. destruct (Nat.eqb_spec (length above) 0), (Nat.leb_spec (length above) p);
    cbn [orb]; rewrite ?length_app, ?length_insert; simpl; lia.
Qed.
Lemma put_node_lookup above p r j : (p ≤ length above)%nat →
  put_node above p r !! j = if decide (j = p) then Some r else above !! j.
Proof.
  intros Hp. unfold put_node. destruct (Nat.leb_spec (length above) p) as [Hle|Hgt].
  - rewrite orb_true_r. assert (p = length above) as -> by lia. case_decide as Hj; [subst; by rewrite lookup_app_r, Nat.sub_diag by lia|].
    destruct (decide (j < length above)%nat); [by rewrite lookup_app_l|].
    rewrite !lookup_ge_None_2; rewrite ?length_app; simpl; done || lia.
  - rewrite (proj2 (Nat.eqb_neq _ _)) by lia. cbn [orb].
    case_decide as Hj; [subst; by apply list_lookup_insert_eq|by apply list_lookup_insert_ne].
Qed.

Lemma walking_step i layers layer above : (i < depth)%nat → walking i layers →
  layers !! i = Some layer → layers !! S i = Some above →
  walking (S i) (<[S i := put_node above (k / 2 ^ S i) (node (set_leaf leaf k x) (S i) (k / 2 ^ S i))]> layers).
Proof.
  intros Hi Hw Hl Ha. destruct (w_here _ _ Hw _ _ Hl Ha) as [Hp Hlen].
  set (p := (k / 2 ^ S i)%nat) in *. set (r := node _ _ p).
  assert (S i < length layers)%nat as Hin by (apply lookup_lt_is_Some; eauto).
  pose proof (put_node_length above p r Hp) as Hpl.
  split.
  - rewrite length_insert. apply Hw.
  - intros i' layer' [(He & <- & _)|[Hne Hl']]%list_lookup_insert_Some.
    + subst i'. rewrite decide_True by lia. intros j. rewrite put_node_lookup by done. case_decide as Hj; [by subst|].
      rewrite node_set_other by done. pose proof (w_nodes _ _ Hw _ _ Ha j) as Hj'. by rewrite decide_False in Hj' by lia.
    + pose proof (w_nodes _ _ Hw _ _ Hl') as Hh. by repeat case_decide; try lia.
  - intros i' layer' above' Hne [(He & <- & _)|[Hn1 Hl']]%list_lookup_insert_Some; [lia|].
    intros [(He & <- & _)|[Hn2 Ha']]%list_lookup_insert_Some.
    + assert (i' = i) as -> by lia. simplify_eq. rewrite Hpl. lia.
    + destruct (decide (i' = i)) as [->|Hi']; [simplify_eq; lia|]. by apply (w_above _ _ Hw i').
  - intros layer' above' [(_ & <- & _)|[Hn1 _]]%list_lookup_insert_Some; [|lia].
    intros [(He & _ & _)|[_ Ha']]%list_lookup_insert_Some; [lia|].
    pose proof (w_above _ _ Hw (S i) _ _ ltac:(lia) Ha Ha'). rewrite (pow2_S (S i)). fold p. rewrite Hpl. lia.
  - intros top [(He & <- & _)|[_ Ht]]%list_lookup_insert_Some; [rewrite Hpl; lia|]. by apply Hw.
Qed.

Lemma insertLoop_walks n i layers : (depth < 100)%nat → (i + n = depth)%nat → walking i layers →
  ∃ layers', insertLoop hash n i layers (k / 2 ^ i) (node (set_leaf leaf k x) i (k / 2 ^ i)) =
      Ok (node (set_leaf leaf k x) depth (k / 2 ^ depth), layers') ∧
    walking depth layers' ∧ ∀ i', (i' ≤ i)%nat → layers' !! i' = layers !! i'.
Proof.
  intros Hd. revert i layers. induction n as [|n IH]; intros i layers Hin Hw.
  { assert (i = depth) as -> by lia. by exists layers. }
  destruct (lookup_lt_is_Some_2 layers i) as [layer Hl]; [rewrite (w_length _ _ Hw); lia|].
  destruct (lookup_lt_is_Some_2 layers (S i)) as [above Ha]; [rewrite (w_length _ _ Hw); lia|].
  cbn [insertLoop]. rewrite (at_Some _ _ _ Hl). cbn [mbind gores_bind].
  assert ((if (length layer <=? Nat.lxor (k / 2 ^ i) 1)%nat then zeroHash i else at_ layer (Nat.lxor (k / 2 ^ i) 1)) =
    Ok (node (set_leaf leaf k x) i (Nat.lxor (k / 2 ^ i) 1))) as ->.
  { pose proof (w_nodes _ _ Hw _ _ Hl (Nat.lxor (k / 2 ^ i) 1)) as Hn. rewrite decide_True in Hn by lia. rewrite <-Hn.
    destruct (Nat.leb_spec (length layer) (Nat.lxor (k / 2 ^ i) 1)) as [Hge|Hlt].
    - by rewrite lookup_ge_None_2, zeroHash_Ok by lia.
    - destruct (lookup_lt_is_Some_2 layer _ Hlt) as [y Hy]. by rewrite (at_Some _ _ _ Hy), Hy. }
  cbn [mbind gores_bind]. rewrite (at_Some _ _ _ Ha). cbn [mbind gores_bind]. rewrite <-pow2_S.
  destruct (IH (S i) _ ltac:(lia) (walking_step i layers layer above ltac:(lia) Hw Hl Ha)) as (layers' & Hrun & Hw' & Hsame).
  exists layers'. split_and!; [|done|].
  - etrans; [|exact Hrun]. pose proof (node_parent (set_leaf leaf k x) i (k / 2 ^ i)) as Hp.
    unfold combine in Hp. rewrite <-pow2_S in Hp. rewrite Hp. done.
  - intros i' Hi'. rewrite Hsame by lia. apply list_lookup_insert_ne. lia.
Qed.
End walk.

(** Setting leaf [k] of a trie whose leaves are [leaves], by one walk. *)
Definition set_leaves (leaves : list Root) (k : nat) (x : Root) : list Root :=
  <[k := x]> (leaves ++ replicate (S k - length leaves) (zh 0)).
Lemma set_leaves_length leaves k x : length (set_leaves leaves k x) = (length leaves `max` S k)%nat.
Proof. unfold set_leaves. rewrite length_insert, length_app, length_replicate. lia. Qed.
Lemma set_leaves_holds leaf leaves k x : holds leaf 0 leaves → holds (set_leaf leaf k x) 0 (set_leaves leaves k x).
Proof.
  intros Hh j. cbn [node]. unfold set_leaves, set_leaf. case_decide as Hj.
  - subst. by rewrite list_lookup_insert_eq by (rewrite length_app, length_replicate; lia).
  - rewrite list_lookup_insert_ne by done. specialize (Hh j). cbn [node] in Hh. rewrite <-Hh.
    destruct (decide (j < length leaves)%nat); [by rewrite lookup_app_l|].
    rewrite lookup_app_r, (lookup_ge_None_2 leaves) by lia. 
    destruct (replicate _ _ !! _) as [z|] eqn:Hz; [|done]. by apply lookup_replicate in Hz as [-> _].
Qed.

Lemma insert_tracks leaf depth layers leaves k x : tracks leaf depth layers → layers !! 0%nat = Some leaves →
  (k ≤ length leaves)%nat →
  ∃ layers', insertLoop hash depth 0 (<[0%nat := set_leaves leaves k x]> layers) k x =
      Ok (node (set_leaf leaf k x) depth (k / 2 ^ depth), layers') ∧
    tracks (set_leaf leaf k x) depth layers' ∧ layers' !! 0%nat = Some (set_leaves leaves k x).
Proof.
  intros Ht H0 Hk. pose proof (tracks_length _ _ _ Ht) as Hlen.
  destruct (insertLoop_walks leaf k x depth depth 0 (<[0%nat := set_leaves leaves k x]> layers))
    as (layers' & Hrun & Hw & Hsame); [apply Ht|lia| |].
  - split.
    + by rewrite length_insert.
    + intros i' layer [(He & <- & _)|[Hne Hl]]%list_lookup_insert_Some.
      * subst. rewrite decide_True by lia. by apply set_leaves_holds, Ht.
      * rewrite decide_False by lia. by apply Ht.
    + intros i' layer above Hne [(He & _ & _)|[_ Hl]]%list_lookup_insert_Some; [lia|].
      intros [(He & _ & _)|[_ Ha]]%list_lookup_insert_Some; [lia|]. by eapply Ht.
    + intros layer above [(_ & <- & _)|[Hn _]]%list_lookup_insert_Some; [|done].
      intros [(He & _ & _)|[_ Ha]]%list_lookup_insert_Some; [lia|]. pose proof (tracks_above _ _ _ Ht _ _ _ H0 Ha).
      rewrite set_leaves_length. change (2 ^ 1)%nat with 2%nat. lia.
    + intros top [(He & <- & _)|[_ Htop]]%list_lookup_insert_Some; [rewrite set_leaves_length; lia|]. by apply Ht.
  - exists layers'. split_and!.
    + rewrite <-Hrun. unfold set_leaf. change (2 ^ 0)%nat with 1%nat. rewrite Nat.div_1_r. cbn [node]. by rewrite decide_True.
    + split; [apply Ht|by rewrite (w_length _ _ _ _ _ _ Hw)| | |].
      * intros i layer Hl. pose proof (w_nodes _ _ _ _ _ _ Hw _ _ Hl) as Hh. rewrite decide_True in Hh; [done|].
        apply lookup_lt_Some in Hl. rewrite (w_length _ _ _ _ _ _ Hw) in Hl. lia.
      * intros i layer above Hl Ha. eapply (w_above _ _ _ _ _ _ Hw); [|done|done].
        apply lookup_lt_Some in Ha. rewrite (w_length _ _ _ _ _ _ Hw) in Ha. lia.
      * apply Hw.
    + rewrite Hsame by lia. apply list_lookup_insert_eq. lia.
Qed.

(** ** Hashing a layer *)
Lemma hashPairs_spec n l : length l = (2 * n)%nat → ∃ up, hashPairs hash l = Ok up ∧ length up = n ∧
  ∀ j a b, l !! (2 * j)%nat = Some a → l !! (2 * j + 1)%nat = Some b → up !! j = Some (hash (a ++ b)).
Proof.
  revert l. induction n as [|n IH]; intros l Hl.
  { apply nil_length_inv in Hl as ->. by exists []. }
  destruct l as [|a [|b l]]; [simpl in Hl; lia..|]. destruct (IH l) as (up & Hup & Hlen & Hat); [simpl in Hl; lia|].
  exists (hash (a ++ b) :: up). cbn [hashPairs]. rewrite Hup. split_and!; [done|simpl; lia|].
  intros [|j] a' b'; [by intros [= <-] [= <-]|].
  replace (2 * S j)%nat with (S (S (2 * j))) by lia. replace (S (S (2 * j)) + 1)%nat with (S (S (2 * j + 1))) by lia.
  apply Hat.
Qed.
Lemma hashPairs_odd n l : length l = (2 * n + 1)%nat → hashPairs hash l = Panic.
Proof.
  revert l. induction n as [|n IH]; intros l Hl; [by destruct l as [|? []]|].
  destruct l as [|a [|b l]]; [simpl in Hl; lia..|]. cbn [hashPairs]. rewrite IH; [done|simpl in Hl; lia].
Qed.
Lemma hashPairs_app n l l' : length l = (2 * n)%nat →
  hashPairs hash (l ++ l') = (up ← hashPairs hash l; up' ← hashPairs hash l'; Ok (up ++ up')).
Proof.
  revert l. induction n as [|n IH]; intros l Hl.
  { apply nil_length_inv in Hl as ->. cbn. by destruct (hashPairs hash l'). }
  destruct l as [|a [|b l]]; [simpl in Hl; lia..|]. cbn [hashPairs app]. rewrite IH by (simpl in Hl; lia).
  destruct (hashPairs hash l); [|done..]. cbn. by destruct (hashPairs hash l').
Qed.

Lemma hashGroups_pairs k g l : (2 * g * k ≤ length l)%nat → hashGroups hash k g l = hashPairs hash l.
Proof.
  revert l. induction k as [|k IH]; intros l Hl; [done|]. cbn [hashGroups]. rewrite IH by (rewrite length_drop; nia).
  symmetry. rewrite <-(take_drop (2 * g) l) at 1. by rewrite (hashPairs_app g) by (rewrite length_take; nia).
Qed.

(** Splitting the work does not change the digests. *)
Lemma VectorizedSha256_pairs procs l : VectorizedSha256 hash procs l = hashPairs hash l.
Proof.
  unfold VectorizedSha256. destruct (_ <? _)%nat; [done|]. apply hashGroups_pairs.
  generalize (procs - 1)%nat. intros n. pose proof (Nat.Div0.mul_div_le (length l) (2 * (n + 1))).
  set (q := (length l / (2 * (n + 1)))%nat) in *. nia.
Qed.

(** ** Building the layers *)
Definition zero_hashes_ok : Prop := ∀ i, (i < 99)%nat → hash (zh i ++ zh i) = zh (S i).

Lemma holds_pad leaf i layer : holds leaf i layer → holds leaf i (layer ++ [zh i]).
Proof.
  intros Hh j. rewrite <-Hh. destruct (decide (j < length layer)%nat); [by rewrite lookup_app_l|].
  rewrite lookup_app_r, (lookup_ge_None_2 layer) by lia. by destruct (j - length layer)%nat.
Qed.

Lemma holds_above leaf i n layer : zero_hashes_ok → (i < 99)%nat → holds leaf i layer → length layer = (2 * n)%nat →
  ∃ up, hashPairs hash layer = Ok up ∧ length up = n ∧ holds leaf (S i) up.
Proof.
  intros Hz Hi Hh Hl. destruct (hashPairs_spec n layer Hl) as (up & Hup & Hlen & Hat). exists up. split_and!; [done..|].
  intros j. cbn [node]. rewrite <-!Hh. destruct (decide (j < n)%nat) as [Hj|Hj].
  - destruct (lookup_lt_is_Some_2 layer (2 * j)) as [a Ha]; [lia|].
    destruct (lookup_lt_is_Some_2 layer (2 * j + 1)) as [b Hb]; [lia|]. by rewrite (Hat j a b Ha Hb), Ha, Hb.
  - rewrite !lookup_ge_None_2 by lia. symmetry. by apply Hz.
Qed.

(** [n] layers from layer [i] on. *)
Record built (leaf : nat → Root) (n i : nat) (layers : Layers) : Prop := {
  b_length : length layers = S n;
  b_nodes k layer : layers !! k = Some layer → holds leaf (i + k) layer ∧ (0 < length layer)%nat;
  b_above k layer above : layers !! k = Some layer → layers !! S k = Some above → (length layer / 2 ≤ length above)%nat }.

Lemma built_cons leaf n i layer above layers : holds leaf i layer → (0 < length layer)%nat →
  (length layer / 2 ≤ length above)%nat → layers !! 0%nat = Some above → built leaf n (S i) layers →
  built leaf (S n) i (layer :: layers).
Proof.
  intros Hh Hpos Ha H0 Hb. split.
  - simpl. by rewrite (b_length _ _ _ _ Hb).
  - intros [|k] l; simpl; [intros [= <-]; by rewrite Nat.add_0_r|]. intros Hl. rewrite Nat.add_succ_r. by apply Hb.
  - intros [|k] l l'; simpl; [intros [= <-]; rewrite H0; by intros [= <-]|]. apply Hb.
Qed.

Lemma built_tracks leaf depth layers : (depth < 100)%nat → built leaf depth 0 layers → tracks leaf depth layers.
Proof. intros Hd Hb. split; [done|apply Hb|intros; by apply Hb|apply Hb|]. intros top Ht. by eapply Hb. Qed.

(** The layer with a zero hash added when its length is odd. *)
Lemma pad_even leaf i layer : (i < 100)%nat → holds leaf i layer → (0 < length layer)%nat →
  ∃ padded m, (if (length layer mod 2 =? 1)%nat then z ← zeroHash i; Ok (layer ++ [z]) else Ok layer) =
      (Ok padded : gores (list Root)) ∧ holds leaf i padded ∧ length padded = (2 * m)%nat ∧ (0 < m)%nat ∧
    (length layer ≤ length padded)%nat ∧ take (length layer) padded = layer.
Proof.
  intros Hi Hh Hpos. destruct (Nat.eqb_spec (length layer mod 2) 1) as [Ho|Ho].
  - rewrite zeroHash_Ok by lia. exists (layer ++ [zh i]), (length layer / 2 + 1)%nat.
    split_and!; [done|by apply holds_pad|rewrite ?length_app; cbn [length]; lia..|by rewrite take_app_length].
  - exists layer, (length layer / 2)%nat. split_and!; [done|done|lia..|by rewrite take_ge].
Qed.

Lemma generateLoop_built leaf n i layer : zero_hashes_ok → (i + n < 100)%nat → holds leaf i layer → (0 < length layer)%nat →
  ∃ layers layer', generateLoop hash n i layer = Ok layers ∧ built leaf n i layers ∧
    layers !! 0%nat = Some layer' ∧ (length layer ≤ length layer')%nat ∧ take (length layer) layer' = layer.
Proof.
  intros Hz. revert i layer. induction n as [|n IH]; intros i layer Hi Hh Hpos; cbn [generateLoop].
  - exists [layer], layer. split_and!; [done| |done|done|by rewrite take_ge].
    split; [done| |]; intros [|k] l; intros; simplify_list_eq. by rewrite Nat.add_0_r.
  - destruct (pad_even leaf i layer ltac:(lia) Hh Hpos) as (padded & m & -> & Hp & Hm & Hm0 & Hle & Htake).
    cbn [mbind gores_bind]. destruct (holds_above leaf i m padded Hz ltac:(lia) Hp Hm) as (up & -> & Hup & Hhup).
    cbn [mbind gores_bind]. destruct (IH (S i) up ltac:(lia) Hhup ltac:(lia)) as (layers & up' & -> & Hb & H0 & Hl' & _).
    cbn [mbind gores_bind]. exists (padded :: layers), padded. split_and!; [done| |done|done|done].
    eapply built_cons; [done|lia| |done|done]. lia.
Qed.

Lemma variableLoop_built leaf procs n i layer : zero_hashes_ok → (i + n < 100)%nat → holds leaf i layer →
  (0 < length layer)%nat →
  ∃ layers, variableLoop hash procs n i layer = Ok layers ∧ built leaf n i layers ∧ layers !! 0%nat = Some layer.
Proof.
  intros Hz. revert i layer. induction n as [|n IH]; intros i layer Hi Hh Hpos; cbn [variableLoop].
  - exists [layer]. split_and!; [done| |done].
    split; [done| |]; intros [|k] l; intros; simplify_list_eq. by rewrite Nat.add_0_r.
  - destruct (pad_even leaf i layer ltac:(lia) Hh Hpos) as (padded & m & -> & Hp & Hm & Hm0 & Hle & Htake).
    cbn [mbind gores_bind]. rewrite VectorizedSha256_pairs.
    destruct (holds_above leaf i m padded Hz ltac:(lia) Hp Hm) as (up & -> & Hup & Hhup).
    cbn [mbind gores_bind]. destruct (IH (S i) up ltac:(lia) Hhup ltac:(lia)) as (layers & -> & Hb & H0).
    cbn [mbind gores_bind]. exists (layer :: layers). split_and!; [done| |done].
    eapply built_cons; [done|lia| |done|done]. lia.
Qed.
End facts.

Local Ltac Zify.zify_post_hook ::= Z.to_euclidean_division_equations.

Lemma ZeroHashes_32 i : (i < 100)%nat → length (zh i) = 32%nat.
Proof.
  intros Hi. assert (Forall (λ z, length z = 32%nat) ZeroHashes) as Hall.
  { apply (bool_decide_eq_true_1 _). vm_compute. reflexivity. }
  rewrite Forall_lookup in Hall. unfold zh. apply (Hall i).
  destruct (nth_lookup_or_length ZeroHashes i []) as [H|H]; [done|]. rewrite ZeroHashes_length in H. lia.
Qed.
Lemma zh_0 : zh 0 = replicate 32 0.
Proof. vm_compute. reflexivity. Qed.

(** The root the deposit contract computes: the tree over the items, mixed with their
    number. *)
Definition items_leaf (items : list (list Z)) (j : nat) : Root := default (zh 0) ((ToBytes32 <$> items) !! j).
Definition item_count (items : list (list Z)) : Z :=
  match items with [item] => if bool_decide (item = replicate 32 0) then 0 else 1 | _ => len items end.
Definition put_item (items : list (list Z)) (index : nat) (item : list Z) : list (list Z) :=
  if (length items <=? index)%nat then items ++ [ToBytes32 item] else <[index := ToBytes32 item]> items.

Section trie.
Context (hash : list Z → Root).
Definition deposit_root (items : list (list Z)) (depth : nat) : Root :=
  hash (node hash (items_leaf items) depth 0 ++ encodeCount (item_count items)).

(** ** The invariant *)
Record trie_ok (m : SparseMerkleTrie) : Prop := {
  ok_depth : (depth m < 63)%nat;
  ok_tracks : tracks hash (items_leaf (originalItems m)) (depth m) (branches m);
  ok_items : (0 < length (originalItems m))%nat;
  ok_leaves leaves : branches m !! 0%nat = Some leaves → (length (originalItems m) ≤ length leaves)%nat }.

Lemma node_leaf_ext leaf leaf' d j : (∀ k, leaf k = leaf' k) → node hash leaf d j = node hash leaf' d j.
Proof. intros Hl. apply node_ext. auto. Qed.
Lemma tracks_ext leaf leaf' d layers : (∀ k, leaf k = leaf' k) → tracks hash leaf d layers → tracks hash leaf' d layers.
Proof.
  intros Hl Ht. split; try apply Ht. intros i layer Hi j. rewrite (tracks_nodes _ _ _ _ Ht _ _ Hi j).
  by apply node_leaf_ext.
Qed.

Lemma items_leaf_put items index item : (index ≤ length items)%nat →
  ∀ k, set_leaf (items_leaf items) index (ToBytes32 item) k = items_leaf (put_item items index item) k.
Proof.
  intros Hi k. unfold set_leaf, items_leaf, put_item.
  destruct (Nat.leb_spec (length items) index) as [Hle|Hgt].
  - assert (index = length items) as -> by lia. rewrite fmap_app. csimpl.
    case_decide as Hk; [subst; rewrite lookup_app_r, length_fmap, Nat.sub_diag by (rewrite length_fmap; lia)|].
    { symmetry. apply ToBytes32_id, ToBytes32_length. }
    destruct (decide (k < length items)%nat); [by rewrite lookup_app_l by (by rewrite length_fmap)|].
    rewrite !lookup_ge_None_2; rewrite ?length_app, ?length_fmap; simpl; done || lia.
  - rewrite list_fmap_insert. case_decide as Hk.
    + subst. rewrite list_lookup_insert_eq by (by rewrite length_fmap). symmetry. apply ToBytes32_id, ToBytes32_length.
    + by rewrite list_lookup_insert_ne.
Qed.

Lemma put_item_length items index item : (index ≤ length items)%nat →
  length (put_item items index item) = (length items `max` S index)%nat.
Proof.
  intros Hi. unfold put_item. destruct (Nat.leb_spec (length items) index); rewrite ?length_app, ?length_insert; simpl; lia.
Qed.

Lemma Generate_ok items d : zero_hashes_ok hash → (0 < length items)%nat → 0 ≤ d < 63 →
  ∃ m, GenerateTrieFromItems hash items d = Ok m ∧ trie_ok m ∧ originalItems m = items ∧ depth m = Z.to_nat d.
Proof.
  intros Hz Hi Hd. unfold GenerateTrieFromItems. rewrite (proj2 (Nat.eqb_neq _ _)) by lia.
  rewrite Z.geb_leb, (proj2 (Z.leb_gt _ _)) by lia.
  destruct (generateLoop_built hash (items_leaf items) (Z.to_nat d) 0 (ToBytes32 <$> items) Hz)
    as (layers & leaves & -> & Hb & H0 & Hle & _); [lia|by intros j|by rewrite length_fmap|].
  cbn [mbind gores_bind]. eexists. split_and!; [done| |done|done]. split; cbn; [lia|apply built_tracks; [lia|done]|done|].
  intros leaves'. rewrite H0. intros [= <-]. by rewrite length_fmap in Hle.
Qed.

Lemma Insert_ok m item index : trie_ok m → 0 ≤ index ≤ len (originalItems m) →
  ∃ m', Insert hash m item index = Ok m' ∧ trie_ok m' ∧ depth m' = depth m ∧
    originalItems m' = put_item (originalItems m) (Z.to_nat index) item.
Proof.
  intros Hm Hi. unfold len in Hi. pose proof (ok_tracks _ Hm) as Ht. unfold Insert.
  rewrite (proj2 (Z.ltb_ge _ _)) by lia. set (k := Z.to_nat index) in *. assert (k ≤ length (originalItems m))%nat as Hk by lia.
  destruct (lookup_lt_is_Some_2 (branches m) 0) as [leaves Hl]; [rewrite (tracks_length _ _ _ _ Ht); lia|].
  pose proof (ok_leaves _ Hm _ Hl) as Hle. rewrite (at_Some _ _ _ Hl). cbn [mbind gores_bind].
  unfold padLeaves. rewrite zeroHash_Ok by lia. cbn [mbind gores_bind].
  destruct (insert_tracks hash _ _ _ leaves k (ToBytes32 item) Ht Hl) as (layers & Hrun & Ht' & Hl0); [lia|].
  unfold set_leaves in Hrun. rewrite Hrun. cbn [mbind gores_bind]. fold (put_item (originalItems m) k item).
  eexists. split_and!; [done| |done|done]. split; cbn [depth branches originalItems].
  - apply Hm.
  - eapply tracks_ext; [by apply items_leaf_put|done].
  - rewrite put_item_length by done. lia.
  - rewrite Hl0. intros ? [= <-]. rewrite set_leaves_length, put_item_length by done. lia.
Qed.

Lemma HashTreeRoot_ok m : trie_ok m → HashTreeRoot hash m = Ok (deposit_root (originalItems m) (depth m)).
Proof.
  intros Hm. unfold HashTreeRoot, trieRoot. destruct (tracks_root _ _ _ _ (ok_tracks _ Hm)) as (top & -> & _ & ->).
  cbn [mbind gores_bind]. unfold deposit_root, item_count. do 5 f_equal. destruct (originalItems m) as [|item [|]]; [done| |done].
  change (ZeroHashes !! 0%nat) with (Some (zh 0)). rewrite zh_0.
  apply (f_equal (λ b : bool, if b then 0 else 1)). apply bool_decide_ext. naive_solver.
Qed.

(** ** Proofs *)
Lemma proofLoop_ok leaf n i layers index : (∀ x, length (hash x) = 32%nat) → (∀ j, length (leaf j) = 32%nat) →
  (i + n < 100)%nat → tracks hash leaf (i + n) layers →
  ∃ proof, proofLoop n i layers index = Ok proof ∧ length proof = n ∧
    verifyLoop hash (Z.of_nat (index / 2 ^ i)) (node hash leaf i (index / 2 ^ i)) proof =
      node hash leaf (i + n) (index / 2 ^ (i + n)).
Proof.
  intros Hh Hleaf. assert (∀ d j, length (node hash leaf d j) = 32%nat) as Hnode by (intros []; cbn; auto).
  revert i. induction n as [|n IH]; intros i Hi Ht; cbn [proofLoop].
  { exists []. by rewrite Nat.add_0_r. }
  set (c := (index / 2 ^ i)%nat). destruct (lookup_lt_is_Some_2 layers i) as [layer Hl]; [rewrite (tracks_length _ _ _ _ Ht); lia|].
  rewrite (at_Some _ _ _ Hl). cbn [mbind gores_bind].
  assert ((if (Nat.lxor c 1 <? length layer)%nat then x ← at_ layer (Nat.lxor c 1); Ok (ToBytes32 x) else zeroHash i) =
    Ok (node hash leaf i (Nat.lxor c 1))) as ->.
  { pose proof (tracks_nodes _ _ _ _ Ht _ _ Hl (Nat.lxor c 1)) as Hn. rewrite <-Hn.
    destruct (Nat.ltb_spec (Nat.lxor c 1) (length layer)) as [Hlt|Hge].
    - destruct (lookup_lt_is_Some_2 layer _ Hlt) as [y Hy]. rewrite (at_Some _ _ _ Hy), Hy. cbn. rewrite ToBytes32_id; [done|].
      rewrite Hy in Hn. cbn in Hn. by rewrite Hn.
    - by rewrite lookup_ge_None_2, zeroHash_Ok by lia. }
  cbn [mbind gores_bind]. rewrite Nat.add_succ_r in Ht |- *.
  destruct (IH (S i) ltac:(lia) Ht) as (proof & -> & Hlen & Hv). eexists. split_and!; [done|simpl; lia|].
  cbn [verifyLoop]. etrans; [|exact Hv]. rewrite pow2_S. fold c. rewrite node_parent. unfold combine.
  f_equal; [change 2 with (Z.of_nat 2); by rewrite <-Nat2Z.inj_div|].
  change (Z.land (Z.of_nat c) 1) with (Z.land (Z.of_nat c) (Z.ones 1)). rewrite Z.land_ones by lia. change (2 ^ 1) with 2.
  destruct (Nat.eqb_spec (c mod 2) 0); [rewrite (proj2 (Z.eqb_neq _ _)) by lia|rewrite (proj2 (Z.eqb_eq _ _)) by lia]; done.
Qed.

Lemma verifyLoop_snoc index x proof c : 0 ≤ index < 2 ^ Z.of_nat (length proof) →
  verifyLoop hash index x (proof ++ [c]) = hash (verifyLoop hash index x proof ++ c).
Proof.
  revert index x. induction proof as [|p proof IH]; intros index x Hi; cbn [verifyLoop app].
  - change (2 ^ Z.of_nat (length [])) with 1 in Hi. by assert (index = 0) as -> by lia.
  - apply IH. cbn [length] in Hi. rewrite Nat2Z.inj_succ, Z.pow_succ_r in Hi by lia. lia.
Qed.

(** What [verifyLoop] hashes. *)
Fixpoint hashed (merkleIndex : Z) (x : Root) (proof : list (list Z)) : list (list Z) :=
  match proof with
  | [] => []
  | p :: proof' =>
      let block := if Z.land merkleIndex 1 =? 1 then p ++ x else x ++ p in
      block :: hashed (merkleIndex / 2) (hash block) proof'
  end.
Definition collision (inputs inputs' : list (list Z)) : Prop :=
  ∃ x y, x ∈ inputs ∧ y ∈ inputs' ∧ x ≠ y ∧ hash x = hash y.

Lemma verifyLoop_binds index a b p q : (∀ x, length (hash x) = 32%nat) → length a = length b → length p = length q →
  verifyLoop hash index a p = verifyLoop hash index b q →
  (a = b ∧ p = q) ∨ collision (hashed index a p) (hashed index b q).
Proof.
  intros Hh. revert index a b q. induction p as [|x p IH]; intros index a b [|y q] Hab Hpq Hv; try done; [by left|].
  cbn [verifyLoop hashed] in *.
  set (blk := if Z.land index 1 =? 1 then x ++ a else a ++ x). set (blk' := if Z.land index 1 =? 1 then y ++ b else b ++ y).
  assert (verifyLoop hash (index / 2) (hash blk) p = verifyLoop hash (index / 2) (hash blk') q) as Hv'.
  { subst blk blk'. by destruct (Z.land index 1 =? 1). }
  destruct (IH (index / 2) (hash blk) (hash blk') q ltac:(by rewrite !Hh) ltac:(by injection Hpq) Hv') as [[He ->]|(u & v & Hu & Hw & Hne & Heq)].
  - destruct (decide (blk = blk')) as [Hb|Hb].
    + left. subst blk blk'. destruct (Z.land index 1 =? 1).
      * apply app_inj_2 in Hb as [-> ->]; done.
      * apply app_inj_1 in Hb as [-> ->]; done.
    + right. exists blk, blk'. split_and!; [by left|by left|done|done].
  - right. exists u, v. split_and!; [by right|by right|done|done].
Qed.
End trie.

(** ** Properties *)

(** A sequence of insertions, each at the position of an item or just after the last. *)
Fixpoint inserts (hash : list Z → Root) (m : SparseMerkleTrie) (ops : list (list Z * Z)) : gores SparseMerkleTrie :=
  match ops with
  | [] => Ok m
  | (item, index) :: ops' => m ← Insert hash m item index; inserts hash m ops'
  end.
Fixpoint in_order (items : list (list Z)) (ops : list (list Z * Z)) : Prop :=
  match ops with
  | [] => True
  | (item, index) :: ops' => 0 ≤ index ≤ len items ∧ in_order (put_item items (Z.to_nat index) item) ops'
  end.
Definition put_items (items : list (list Z)) (ops : list (list Z * Z)) : list (list Z) :=
  foldl (λ items op, put_item items (Z.to_nat op.2) op.1) items ops.

Lemma inserts_ok hash m ops : trie_ok hash m → in_order (originalItems m) ops →
  ∃ m', inserts hash m ops = Ok m' ∧ trie_ok hash m' ∧ depth m' = depth m ∧
    originalItems m' = put_items (originalItems m) ops.
Proof.
  revert m. induction ops as [|[item index] ops IH]; intros m Hm Ho; [by exists m|]. destruct Ho as [Hi Ho].
  cbn [inserts]. destruct (Insert_ok hash m item index Hm Hi) as (m1 & -> & Hm1 & Hd & Hitems). cbn [mbind gores_bind].
  rewrite <-Hitems in Ho. destruct (IH m1 Hm1 Ho) as (m' & -> & Hm' & Hd' & Hi'). exists m'.
  split_and!; [done|done|by rewrite Hd'|]. by rewrite Hi', Hitems.
Qed.

(** C17: a trie generated from items and extended by any sequence of insertions, each over
    an existing item or at the next position, never fails and always has the root of the
    trie generated from scratch out of its current items, which is the root the deposit
    contract defines: the Merkle root of the items padded with zeroes, hashed with their
    number. *)
Theorem Insert_agrees_with_Generate (hash : list Z → Root) items d ops :
  zero_hashes_ok hash → (0 < length items)%nat → 0 ≤ d < 63 → in_order items ops →
  ∃ m m' m'', GenerateTrieFromItems hash items d = Ok m ∧ inserts hash m ops = Ok m' ∧
    originalItems m' = put_items items ops ∧ GenerateTrieFromItems hash (originalItems m') d = Ok m'' ∧
    HashTreeRoot hash m' = HashTreeRoot hash m'' ∧
    HashTreeRoot hash m' = Ok (deposit_root hash (put_items items ops) (Z.to_nat d)).
Proof.
  intros Hz Hi Hd Ho. destruct (Generate_ok hash items d Hz Hi Hd) as (m & HG & Hm & Hitems & Hdep).
  rewrite <-Hitems in Ho. destruct (inserts_ok hash m ops Hm Ho) as (m' & Hrun & Hm' & Hd' & Hi').
  destruct (Generate_ok hash (originalItems m') d Hz (ok_items _ _ Hm') Hd) as (m'' & HG' & Hm'' & Hi'' & Hd'').
  exists m, m', m''. rewrite !HashTreeRoot_ok by done. rewrite Hi'', Hd'', Hd', Hdep. rewrite Hitems in Hi'.
  rewrite Hi' in HG' |- *. split_and!; done.
Qed.

(** C26: every proof a trie hands out verifies: in a trie reached by in-order insertions that
    is not the empty trie, [MerkleProof] of any item inside the capacity of the trie
    succeeds and [VerifyMerkleProof] accepts it against [HashTreeRoot]. *)
Theorem MerkleProof_verifies (hash : list Z → Root) items d ops index item :
  zero_hashes_ok hash → (∀ x, length (hash x) = 32%nat) → (0 < length items)%nat → 0 ≤ d < 63 → in_order items ops →
  put_items items ops !! Z.to_nat index = Some item → 0 ≤ index < 2 ^ d → put_items items ops ≠ [replicate 32 0] →
  ∃ m m' proof root, GenerateTrieFromItems hash items d = Ok m ∧ inserts hash m ops = Ok m' ∧
    MerkleProof m' index = Ok proof ∧ HashTreeRoot hash m' = Ok root ∧
    VerifyMerkleProof hash root item index proof = Ok true.
Proof.
  intros Hz Hh Hi Hd Ho Hitem Hidx Hne. destruct (Generate_ok hash items d Hz Hi Hd) as (m & HG & Hm & Hitems & Hdep).
  rewrite <-Hitems in Ho. destruct (inserts_ok hash m ops Hm Ho) as (m' & Hrun & Hm' & Hd' & Hi').
  rewrite Hitems in Hi'. pose proof (ok_tracks _ _ Hm') as Ht. set (leaf := items_leaf (originalItems m')) in *.
  destruct (proofLoop_ok hash leaf (depth m') 0 (branches m') (Z.to_nat index) Hh) as (proof & Hp & Hlen & Hv);
    [|pose proof (ok_depth _ _ Hm'); lia|done|].
  { intros j. unfold leaf, items_leaf. rewrite list_lookup_fmap.
    destruct (originalItems m' !! j); [apply ToBytes32_length|apply ZeroHashes_32; lia]. }
  exists m, m'. destruct (lookup_lt_is_Some_2 (branches m') 0) as [leaves Hl]; [rewrite (tracks_length _ _ _ _ Ht); lia|].
  pose proof (ok_leaves _ _ Hm' _ Hl) as Hle. unfold MerkleProof. rewrite (proj2 (Z.ltb_ge _ _)) by lia.
  rewrite (at_Some _ _ _ Hl). cbn [mbind gores_bind]. rewrite Z.geb_leb, (proj2 (Z.leb_gt _ _))
    by (rewrite <-Hi' in Hitem; apply lookup_lt_Some in Hitem; unfold len; lia).
  rewrite Hp. cbn [mbind gores_bind]. eexists _, _. split_and!; [done|done|done|by apply HashTreeRoot_ok|].
  unfold VerifyMerkleProof, VerifyMerkleProofWithDepth, len. rewrite length_app, Hlen. cbn [length].
  rewrite (proj2 (Nat.eqb_neq _ _)) by lia. pose proof (ok_depth _ _ Hm').
  rewrite u64_small, (proj2 (Z.eqb_eq _ _)) by (unfold is_u64; lia). cbn [negb].
  destruct (proof ++ _) as [|p ps] eqn:Hps; [by apply app_eq_nil in Hps as [_ [=]]|]. rewrite <-Hps. f_equal.
  apply bool_decide_eq_true. unfold deposit_root.
  assert (ToBytes32 item = leaf (Z.to_nat index)) as ->.
  { unfold leaf, items_leaf. by rewrite Hi', list_lookup_fmap, Hitem. }
  cbn [Nat.add] in Hv. change (2 ^ 0)%nat with 1%nat in Hv. rewrite Nat.div_1_r, Z2Nat.id in Hv by lia.
  cbn [node] in Hv. rewrite verifyLoop_snoc, Hv by (rewrite ?Hlen, ?Hd', ?Hdep, ?Z2Nat.id; lia).
  rewrite Hd', Hdep, Nat.div_small by (apply Nat2Z.inj_lt; rewrite Nat2Z.inj_pow, !Z2Nat.id; lia).
  do 3 f_equal. unfold item_count, len. rewrite Hi'. destruct (put_items items ops) as [|x [|]]; [done| |done].
  by rewrite bool_decide_false by congruence.
Qed.

(** C27: a root commits to its items: when two proofs of the same length verify at the same
    index against the same root, they are the same proof of the same item (as the 32 bytes
    that are hashed), or two different blocks that the two verifications hash have the same
    digest. *)
Theorem VerifyMerkleProof_binds (hash : list Z → Root) root a b index p q :
  (∀ x, length (hash x) = 32%nat) → length p = length q →
  VerifyMerkleProof hash root a index p = Ok true → VerifyMerkleProof hash root b index q = Ok true →
  (ToBytes32 a = ToBytes32 b ∧ p = q) ∨
  collision hash (hashed hash index (ToBytes32 a) p) (hashed hash index (ToBytes32 b) q).
Proof.
  intros Hh Hpq Ha Hb. assert (∀ x r, VerifyMerkleProof hash root x index r = Ok true →
    root = verifyLoop hash index (ToBytes32 x) r) as Hroot.
  { intros x r. unfold VerifyMerkleProof, VerifyMerkleProofWithDepth. destruct (length r =? 0)%nat; [done|].
    destruct (negb _); [done|]. destruct r; [done|]. intros [= H]. by apply bool_decide_eq_true_1 in H. }
  apply verifyLoop_binds; [done|by rewrite !ToBytes32_length|done|]. rewrite <-(Hroot _ _ Ha). auto.
Qed.

Lemma sha256_zero_hashes : zero_hashes_ok Sha256.sha256.
Proof.
  assert (forallb (λ p, bool_decide (Sha256.sha256 (p.1 ++ p.1) = p.2)) (zip ZeroHashes (tail ZeroHashes)) = true) as Hall
    by (vm_compute; reflexivity).
  intros i Hi. rewrite forallb_forall in Hall. unfold zh.
  destruct (lookup_lt_is_Some_2 ZeroHashes i) as [z Hz]; [rewrite ZeroHashes_length; lia|].
  destruct (lookup_lt_is_Some_2 ZeroHashes (S i)) as [z' Hz']; [rewrite ZeroHashes_length; lia|].
  rewrite (nth_lookup_Some _ _ _ _ Hz), (nth_lookup_Some _ _ _ _ Hz').
  assert (zip ZeroHashes (tail ZeroHashes) !! i = Some (z, z')) as Hp.
  { apply lookup_zip_with_Some. exists z, z'. split_and!; [done|done|]. by rewrite lookup_tail. }
  apply (bool_decide_eq_true_1 _). apply (Hall (z, z')). apply list_elem_of_In. by eapply list_elem_of_lookup_2.
Qed.

(** The 100 entries of the table [ZeroHashes] are right for SHA-256: the first is 32
    zero bytes and entry [i] is the root of the tree of depth [i] whose leaves are all
    zero. *)
Theorem ZeroHashes_are_zero_roots :
  length ZeroHashes = 100%nat ∧
  ∀ i z j, ZeroHashes !! i = Some z → z = node Sha256.sha256 (λ _, replicate 32 0) i j.
Proof.
  split; [apply ZeroHashes_length|]. intros i z j Hz.
  assert (i < 100)%nat as Hi by (rewrite <-ZeroHashes_length; apply lookup_lt_is_Some; eauto).
  apply (nth_lookup_Some _ _ [] _) in Hz. subst z. fold (zh i). revert j. induction i as [|i IH]; intros j; [apply zh_0|].
  cbn [node]. rewrite <-!IH by lia. symmetry. apply sha256_zero_hashes. lia.
Qed.

(** ** Witnesses *)
Definition ex_items : list (list Z) := [[1]; [2]; [3]].
Definition ex_ops : list (list Z * Z) := [([4], 3); ([5], 4); ([20], 1)].
Lemma ex_in_order : in_order ex_items ex_ops.
Proof. repeat split; vm_compute; discriminate. Qed.

Lemma Insert_agrees_with_Generate_witness :
  ∃ m m' m'', GenerateTrieFromItems Sha256.sha256 ex_items 3 = Ok m ∧ inserts Sha256.sha256 m ex_ops = Ok m' ∧
    originalItems m' = put_items ex_items ex_ops ∧ GenerateTrieFromItems Sha256.sha256 (originalItems m') 3 = Ok m'' ∧
    HashTreeRoot Sha256.sha256 m' = HashTreeRoot Sha256.sha256 m'' ∧
    HashTreeRoot Sha256.sha256 m' = Ok (deposit_root Sha256.sha256 (put_items ex_items ex_ops) (Z.to_nat 3)).
Proof.
  apply Insert_agrees_with_Generate; [apply sha256_zero_hashes|unfold ex_items; simpl; lia|lia|apply ex_in_order].
Defined.

Lemma MerkleProof_verifies_witness :
  ∃ m m' proof root, GenerateTrieFromItems Sha256.sha256 ex_items 3 = Ok m ∧ inserts Sha256.sha256 m ex_ops = Ok m' ∧
    MerkleProof m' 4 = Ok proof ∧ HashTreeRoot Sha256.sha256 m' = Ok root ∧
    VerifyMerkleProof Sha256.sha256 root (ToBytes32 [5]) 4 proof = Ok true.
Proof.
  apply MerkleProof_verifies; [apply sha256_zero_hashes|apply Sha256.sha256_length|unfold ex_items; simpl; lia|lia|
    apply ex_in_order|vm_compute; reflexivity|lia|vm_compute; discriminate].
Defined.

(** With a hash that does not distinguish its inputs two different items verify. *)
Definition ex_flat (x : list Z) : Root := replicate 32 0.
Lemma VerifyMerkleProof_binds_witness :
  VerifyMerkleProof ex_flat (replicate 32 0) [9] 1 [replicate 32 7] = Ok true ∧
  VerifyMerkleProof ex_flat (replicate 32 0) [8] 1 [replicate 32 7] = Ok true ∧
  collision ex_flat (hashed ex_flat 1 (ToBytes32 [9]) [replicate 32 7]) (hashed ex_flat 1 (ToBytes32 [8]) [replicate 32 7]).
Proof.
  split; [vm_compute; reflexivity|]. split; [vm_compute; reflexivity|].
  destruct (VerifyMerkleProof_binds ex_flat (replicate 32 0) [9] [8] 1 [replicate 32 7] [replicate 32 7]) as [[H _]|H];
    [reflexivity|reflexivity|vm_compute; reflexivity|vm_compute; reflexivity| |exact H].
  exfalso. vm_compute in H. discriminate H.
Defined.

(** The trie of [NewTrie] holds one zero item that [HashTreeRoot] counts as none and
    [MerkleProof] as one: its proof does not verify against its root. *)
Theorem empty_trie_proof_fails :
  (m ← NewTrie Sha256.sha256 3; proof ← MerkleProof m 0; root ← HashTreeRoot Sha256.sha256 m;
   VerifyMerkleProof Sha256.sha256 root (replicate 32 0) 0 proof) = Ok false.
Proof. vm_compute. reflexivity. Qed.
