(* ===== verification/TrieFacts.v ===== *)
(** * What the functions of trie_helpers.go compute

    [Depth] is the ceiling of the binary logarithm.  The functions for variable-sized
    fields establish and keep [tracks]; those for fixed-sized fields establish and keep
    [complete], where every layer is full. *)
From S2P Require Import Prelude MathHelper Shuffle MVSlice ZeroHashes MerkleTrie TrieHelpers MerkleTheorems.
From Stdlib Require Import ZifyNat.
Local Ltac Zify.zify_post_hook ::= Z.to_euclidean_division_equations.

(** ** Depth *)
Lemma land_mask v n : 0 ≤ v < two64 → 0 ≤ n ≤ 64 → Z.land v (two64 - 2 ^ n) = 2 ^ n * (v / 2 ^ n).
Proof.
  intros Hv Hn. replace (two64 - 2 ^ n) with (Z.shiftl (Z.ones (64 - n)) n).
  - apply Z.bits_inj'. intros i Hi. rewrite Z.land_spec, (Z.mul_comm (2 ^ n)), <-Z.shiftl_mul_pow2, <-Z.shiftr_div_pow2 by lia.
    rewrite !Z.shiftl_spec by done. destruct (Z.ltb_spec i n).
    + rewrite !(Z.testbit_neg_r _ (i - n)) by lia. by rewrite andb_false_r.
    + rewrite Z.shiftr_spec by lia. replace (i - n + n) with i by lia. rewrite Z.testbit_ones_nonneg by lia.
      destruct (Z.ltb_spec (i - n) (64 - n)); [by rewrite andb_true_r|]. rewrite andb_false_r. symmetry.
      rewrite <-(Z.mod_small v (2 ^ 64)) by done. apply Z.mod_pow2_bits_high. lia.
  - rewrite Z.shiftl_mul_pow2, Z.ones_equiv by lia. change two64 with (2 ^ 64).
    replace (2 ^ 64) with (2 ^ (64 - n) * 2 ^ n) by (rewrite <-Z.pow_add_r by lia; f_equal; lia). lia.
Qed.

(** [w] has been shifted right by [out] so far; the next step tests for [2^k] bits. *)
Record depth_inv (w k v out : Z) : Prop := {
  d_out : 0 ≤ out ≤ 64 - 2 ^ k;
  d_mult : out mod 2 ^ k = 0;
  d_v : v = w / 2 ^ out;
  d_range : 1 ≤ v < 2 ^ 2 ^ k }.

Lemma lor_step k out : 0 ≤ k ≤ 5 → 0 ≤ out < 64 → out mod 2 ^ (k + 1) = 0 → Z.lor out (2 ^ k) = out + 2 ^ k.
Proof.
  intros Hk Ho Hm.
  assert (forallb (λ k, forallb (λ o, implb (o mod 2 ^ (k + 1) =? 0) (Z.lor o (2 ^ k) =? o + 2 ^ k)) (seqZ 0 64)) (seqZ 0 6) = true)
    as Hall by (vm_compute; reflexivity).
  rewrite forallb_forall in Hall. specialize (Hall k ltac:(apply list_elem_of_In, elem_of_seqZ; lia)).
  rewrite forallb_forall in Hall. specialize (Hall out ltac:(apply list_elem_of_In, elem_of_seqZ; lia)). simpl in Hall.
  rewrite Hm in Hall. by apply Z.eqb_eq.
Qed.

Lemma depthStep_inv w k v out : 0 ≤ k ≤ 5 → 1 ≤ w < two64 → depth_inv w (k + 1) v out →
  ∃ v' out', depthStep (v, out) k = (v', out') ∧ depth_inv w k v' out'.
Proof.
  intros Hk Hw [Ho Hm Hv Hr]. unfold depthStep, depthMask. rewrite !Z.shiftl_1_l.
  assert (2 ^ (k + 1) = 2 * 2 ^ k) as H2 by (rewrite Z.pow_add_r by lia; lia).
  assert (1 ≤ 2 ^ k ≤ 2 ^ 5) as H5 by (split; [apply (Z.pow_le_mono_r 2 0)|apply Z.pow_le_mono_r]; lia).
  rewrite H2 in Ho, Hr. change (2 ^ 5) with 32 in H5.
  assert (v ≤ w) as Hvw by (rewrite Hv; apply Z.div_le_upper_bound; [lia|]; pose proof (Z.pow_pos_nonneg 2 out); nia).
  replace (MaxUint64 - (2 ^ 2 ^ k - 1)) with (two64 - 2 ^ 2 ^ k) by lia. rewrite land_mask by lia.
  pose proof (Z.pow_pos_nonneg 2 (2 ^ k) ltac:(lia) ltac:(lia)) as Hpos.
  replace (2 * 2 ^ k) with (2 ^ k + 2 ^ k) in Hr by lia. rewrite Z.pow_add_r in Hr by lia.
  assert (out mod 2 ^ k = 0) as Hm'.
  { apply Z.mod_divide; [lia|]. apply Z.mod_divide in Hm; [|lia]. rewrite H2 in Hm. destruct Hm as [c ->]. exists (c * 2). lia. }
  destruct (Z.eqb_spec (2 ^ 2 ^ k * (v / 2 ^ 2 ^ k)) 0) as [Hz|Hz]; cbn [negb].
  - eexists _, _. split; [done|]. split; [lia|done|done|]. apply Z.mul_eq_0 in Hz as [?|Hz]; [lia|].
    pose proof (Z.mod_pos_bound v (2 ^ 2 ^ k) Hpos). pose proof (Z.div_mod v (2 ^ 2 ^ k)). lia.
  - eexists _, _. split; [done|]. rewrite lor_step by (done || lia). rewrite Z.shiftr_div_pow2 by lia. split.
    + lia.
    + rewrite Z.add_mod, Hm', Z.mod_same by lia. by rewrite Z.mod_0_l by lia.
    + rewrite Hv, Z.div_div, <-Z.pow_add_r by lia. done.
    + split; [|apply Z.div_lt_upper_bound; lia]. pose proof (Z.div_pos v (2 ^ 2 ^ k)). nia.
Qed.

Lemma Depth_log2_up v : 0 ≤ v < two64 → Depth v = Z.log2_up v.
Proof.
  intros Hv. unfold Depth. destruct (Z.leb_spec v 1) as [H1|H1].
  { assert (v = 0 ∨ v = 1) as [->| ->] by lia; done. }
  rewrite u64_small by (unfold is_u64; lia). set (w := v - 1).
  assert (depth_inv w 6 w 0) as I6.
  { split; [done|done|by rewrite Z.div_1_r|]. subst w. change (2 ^ 2 ^ 6) with two64. lia. }
  unfold foldl.
  destruct (depthStep_inv w 5 _ _ ltac:(lia) ltac:(lia) I6) as (v5 & o5 & -> & I5).
  destruct (depthStep_inv w 4 _ _ ltac:(lia) ltac:(lia) I5) as (v4 & o4 & -> & I4).
  destruct (depthStep_inv w 3 _ _ ltac:(lia) ltac:(lia) I4) as (v3 & o3 & -> & I3).
  destruct (depthStep_inv w 2 _ _ ltac:(lia) ltac:(lia) I3) as (v2 & o2 & -> & I2).
  destruct (depthStep_inv w 1 _ _ ltac:(lia) ltac:(lia) I2) as (v1 & o1 & -> & I1).
  destruct (depthStep_inv w 0 _ _ ltac:(lia) ltac:(lia) I1) as (v0 & o0 & Hs & [Ho _ Hd Hr]). unfold depthStep in Hs.
  assert ((if negb (Z.land v1 (depthMask 0) =? 0) then Z.lor o1 1 else o1) = o0) as ->
    by (destruct (negb _); by injection Hs).
  change (2 ^ 2 ^ 0) with 2 in Hr. change (2 ^ 0) with 1 in Ho. unfold u8. rewrite Z.mod_small by lia.
  rewrite Z.log2_up_eqn by lia. rewrite <-Z.add_1_r. f_equal. symmetry. apply Z.log2_unique; [lia|].
  replace (Z.pred v) with w by lia. pose proof (Z.pow_pos_nonneg 2 o0 ltac:(lia) ltac:(lia)).
  pose proof (Z.div_mod w (2 ^ o0)). pose proof (Z.mod_pos_bound w (2 ^ o0)). rewrite Z.pow_succ_r by lia. nia.
Qed.

Lemma Depth_bounds v : 0 ≤ v < two64 → 0 ≤ Depth v ≤ 64 ∧ v ≤ 2 ^ Depth v.
Proof.
  intros Hv. rewrite Depth_log2_up by done. pose proof (Z.log2_up_nonneg v).
  destruct (decide (v ≤ 0)) as [H0|H0]; [rewrite Z.log2_up_eqn0 by lia; split; [lia|]; change (2 ^ 0) with 1; lia|].
  split; [|by apply Z.log2_log2_up_spec; lia]. split; [done|]. apply Z.log2_up_le_pow2; [lia|]. change (2 ^ 64) with two64. lia.
Qed.

(** ** Variable-sized fields *)
Section variable.
Context (hash : list Z → Root) (procs : nat).

Definition leaves_of (leaves : list Root) (j : nat) : Root := default (zh 0) (leaves !! j).

(** The layers of a trie over [leaves]. *)
Definition trie_over (leaves : list Root) (depth : nat) (layers : Layers) : Prop :=
  tracks hash (leaves_of leaves) depth layers ∧ layers !! 0%nat = Some leaves.

Lemma tracks_empty depth : zero_hashes_ok hash → (depth < 100)%nat →
  tracks hash (leaves_of []) depth (replicate depth [] ++ [[zh depth]]).
Proof.
  intros Hz Hd. assert (∀ i j, (i < 100)%nat → zh i = node hash (leaves_of []) i j) as Hn.
  { induction i as [|i IH]; intros j Hi; [done|]. cbn [node]. rewrite <-!IH by lia. symmetry. apply Hz. lia. }
  assert (∀ i layer, (replicate depth [] ++ [[zh depth]]) !! i = Some layer →
    (i < depth)%nat ∧ layer = [] ∨ i = depth ∧ layer = [zh depth]) as Hcases.
  { intros i layer [Hl|[Hge Hl]]%lookup_app_Some; [left; by apply lookup_replicate in Hl as [-> ?]|right].
    rewrite length_replicate in *. apply list_lookup_singleton_Some in Hl as [? <-]. split; [lia|done]. }
  split; [done|rewrite length_app, length_replicate; simpl; lia| | |].
  - intros i layer Hl j. destruct (Hcases _ _ Hl) as [[Hi ->]|[-> ->]]; [apply Hn; lia|].
    destruct j; [by apply Hn|]. by apply Hn.
  - intros i layer above Hl Ha. destruct (Hcases _ _ Hl) as [[_ ->]|[-> ->]], (Hcases _ _ Ha) as [[? ->]|[? ->]]; simpl; lia.
  - intros top Ht. destruct (Hcases _ _ Ht) as [[? _]|[_ ->]]; simpl; lia.
Qed.

Lemma ReturnTrieLayerVariable_ok leaves n : zero_hashes_ok hash → 0 ≤ n < two64 →
  ∃ layers, ReturnTrieLayerVariable hash procs leaves n = Ok layers ∧ tracks hash (leaves_of leaves) (Z.to_nat (Depth n)) layers ∧
    (leaves = [] ∧ layers !! 0%nat = Some (if decide (Depth n = 0) then [zh 0] else []) ∨ leaves ≠ [] ∧ layers !! 0%nat = Some leaves).
Proof.
  intros Hz Hn. pose proof (Depth_bounds n Hn) as [Hd _]. unfold ReturnTrieLayerVariable.
  destruct (Nat.eqb_spec (length leaves) 0) as [H0|H0].
  - apply nil_length_inv in H0 as ->. rewrite zeroHash_Ok by lia. cbn [mbind gores_bind]. eexists. split_and!; [done| |].
    + apply tracks_empty; [done|lia].
    + left. split; [done|]. case_decide as Hc; [by rewrite Hc|].
      destruct (Z.to_nat (Depth n)) eqn:E; [lia|done].
  - destruct (variableLoop_built hash (leaves_of leaves) procs (Z.to_nat (Depth n)) 0 leaves Hz) as (layers & -> & Hb & Hl);
      [lia|by intros j|lia|]. eexists. split_and!; [done|apply built_tracks; [lia|done]|]. right. by destruct leaves.
Qed.

Lemma recomputeVariableLoop_insert n i layers cur root :
  recomputeVariableLoop hash n i layers cur root = insertLoop hash n i layers cur root.
Proof. reflexivity. Qed.

Lemma leaves_of_set leaves k x : (k ≤ length leaves)%nat →
  ∀ j, set_leaf (leaves_of leaves) k x j = leaves_of (set_leaves leaves k x) j.
Proof.
  intros Hk j. pose proof (set_leaves_holds hash (leaves_of leaves) leaves k x) as H. symmetry. apply H. by intros i.
Qed.

(** One leaf changes, or is added at the end. *)
Lemma recomputeRootFromLayerVariable_ok leaf depth layers leaves k x :
  tracks hash leaf depth layers → layers !! 0%nat = Some leaves → (k ≤ length leaves)%nat → (k < 2 ^ depth)%nat →
  ∃ layers', recomputeRootFromLayerVariable hash k x layers = Ok (node hash (set_leaf leaf k x) depth 0, layers') ∧
    tracks hash (set_leaf leaf k x) depth layers' ∧ layers' !! 0%nat = Some (set_leaves leaves k x).
Proof.
  intros Ht Hl Hk Hcap. destruct (insert_tracks hash leaf depth layers leaves k x Ht Hl Hk) as (layers' & Hrun & Ht' & Hl').
  exists layers'. split_and!; [|done|done]. unfold recomputeRootFromLayerVariable. rewrite (at_Some _ _ _ Hl).
  cbn [mbind gores_bind]. unfold padLeaves. rewrite zeroHash_Ok by lia. cbn [mbind gores_bind].
  rewrite length_insert, (tracks_length _ _ _ _ Ht), recomputeVariableLoop_insert. replace (S depth - 1)%nat with depth by lia.
  fold (set_leaves leaves k x). rewrite Hrun. by rewrite Nat.div_small by done.
Qed.

(** Each changed index is that of a leaf or just after the last one. *)
Fixpoint no_gap (n : nat) (idxs : list Z) : Prop :=
  match idxs with
  | [] => True
  | i :: idxs' => 0 ≤ i ≤ Z.of_nat n ∧ no_gap (n `max` S (Z.to_nat i)) idxs'
  end.
Definition set_all (leaf : nat → Root) (idxs : list Z) (xs : list Root) : nat → Root :=
  foldl (λ leaf ix, set_leaf leaf (Z.to_nat ix.1) ix.2) leaf (zip idxs xs).

Lemma recomputeVariableEach_ok depth idxs xs : length xs = length idxs → (depth ≤ 64)%nat →
  Forall (λ i, 0 ≤ i < 2 ^ Z.of_nat depth ∧ i ≤ MaxInt64) idxs → ∀ leaf layers leaves,
  tracks hash leaf depth layers → layers !! 0%nat = Some leaves → no_gap (length leaves) idxs →
  ∃ layers' leaves', recomputeVariableEach hash idxs xs (node hash leaf depth 0) layers =
      Ok (node hash (set_all leaf idxs xs) depth 0, layers') ∧
    tracks hash (set_all leaf idxs xs) depth layers' ∧ layers' !! 0%nat = Some leaves' ∧
    length leaves' = foldl (λ n i, (n `max` S (Z.to_nat i))%nat) (length leaves) idxs.
Proof.
  intros Hxs Hdep Hall. revert xs Hxs. induction Hall as [|i idxs [Hi Hi'] Hall IH]; intros xs Hxs leaf layers leaves Ht Hl Hg.
  { exists layers, leaves. by destruct xs. }
  destruct xs as [|x xs]; [done|]. destruct Hg as [Hik Hg]. cbn [recomputeVariableEach]. unfold Int.
  rewrite Z.gtb_ltb, (proj2 (Z.ltb_ge _ _)) by lia. cbn [mbind gores_bind]. rewrite i64_small by (unfold is_i64; lia).
  destruct (recomputeRootFromLayerVariable_ok leaf depth layers leaves (Z.to_nat i) x Ht Hl) as (layers1 & -> & Ht1 & Hl1);
    [lia|apply Nat2Z.inj_lt; rewrite Nat2Z.inj_pow; lia|]. cbn [mbind gores_bind].
  destruct (IH xs ltac:(by injection Hxs) _ _ _ Ht1 Hl1) as (layers' & leaves' & Hrun & Ht' & Hl' & Hlen); [by rewrite set_leaves_length|].
  exists layers', leaves'. split_and!; [exact Hrun|done|done|]. rewrite Hlen. cbn [foldl]. by rewrite set_leaves_length.
Qed.
End variable.

(** ** Fixed-sized fields *)
Section fixed.
Context (hash : list Z → Root) (procs : nat).

(** All layers are full and hold the nodes of the tree over [leaf], except above the
    leaves in [pending]. *)
Record nearly (leaf : nat → Root) (d : nat) (pending : list nat) (layers : Layers) : Prop := {
  n_length : length layers = S d;
  n_size i layer : layers !! i = Some layer → length layer = (2 ^ (d - i))%nat;
  n_nodes i layer j : layers !! i = Some layer → (j < 2 ^ (d - i))%nat →
    i = 0%nat ∨ Forall (λ k, (k / 2 ^ i)%nat ≠ j) pending → layer !! j = Some (node hash leaf i j) }.
Definition complete (leaf : nat → Root) (d : nat) (layers : Layers) : Prop := nearly leaf d [] layers.

Lemma pow2_half m : (0 < m)%nat → (2 ^ m = 2 * 2 ^ (m - 1))%nat.
Proof. intros Hm. destruct m; [lia|]. by rewrite Nat.pow_succ_r', Nat.sub_1_r. Qed.

Lemma IsPowerOf2_pow k : (k < 64)%nat → IsPowerOf2 (Z.of_nat (2 ^ k)) = true.
Proof.
  intros Hk. assert (0 < 2 ^ Z.of_nat k < two64) as Hp.
  { split; [lia|]. change two64 with (2 ^ 64). apply Z.pow_lt_mono_r; lia. }
  rewrite Nat2Z.inj_pow. apply IsPowerOf2_PowerOf2; [unfold is_u64; lia|]. exists (Z.of_nat k). split; [lia|].
  unfold PowerOf2. destruct (Z.geb_spec (Z.of_nat k) 64); [lia|]. rewrite Z.shiftl_mul_pow2, Z.mul_1_l by lia.
  by rewrite u64_small by (unfold is_u64; lia).
Qed.

(** Layers up to [i] are built; the rest is empty. *)
Record building (leaf : nat → Root) (d i : nat) (layers : Layers) : Prop := {
  g_length : length layers = S d;
  g_nodes i' layer : (i' ≤ i)%nat → layers !! i' = Some layer →
    length layer = (2 ^ (d - i'))%nat ∧ ∀ j, (j < 2 ^ (d - i'))%nat → layer !! j = Some (node hash leaf i' j) }.

Lemma building_step leaf d i layers layer : (i < d)%nat → building leaf d i layers → layers !! i = Some layer →
  ∃ up, hashPairs hash layer = Ok up ∧ building leaf d (S i) (<[S i := up]> layers) ∧ length up = (2 ^ (d - S i))%nat.
Proof.
  intros Hi Hb Hl. destruct (g_nodes _ _ _ _ Hb i layer ltac:(lia) Hl) as [Hlen Hat].
  rewrite pow2_half in Hlen by lia. destruct (hashPairs_spec hash _ _ Hlen) as (up & Hup & Hul & Hua).
  replace (d - i - 1)%nat with (d - S i)%nat in * by lia.
  exists up. split_and!; [done| |done]. split; [rewrite length_insert; apply Hb|].
  intros i' layer' Hi' [(He & <- & _)|[Hne Hl']]%list_lookup_insert_Some.
  - subst i'. split; [done|]. intros j Hj. cbn [node].
    assert (2 ^ (d - i) = 2 * 2 ^ (d - S i))%nat as Hp by (rewrite pow2_half by lia; do 2 f_equal; lia).
    apply Hua; apply Hat; lia.
  - apply Hb; [lia|done].
Qed.

Lemma merkleizeLoop_ok leaf d r i fuel layers layer : (d < 64)%nat → (i + r = d)%nat → (r ≤ fuel)%nat →
  building leaf d i layers → layers !! i = Some layer →
  ∃ layers' top, merkleizeLoop hash procs fuel (S i) layers layer = Ok (layers', top) ∧ building leaf d d layers'.
Proof.
  intros Hd. revert i fuel layers layer. induction r as [|r IH]; intros i fuel layers layer Hir Hf Hb Hl;
    destruct (g_nodes _ _ _ _ Hb i layer ltac:(lia) Hl) as [Hlen _].
  - assert (i = d) as -> by lia. exists layers, layer. split; [|done]. rewrite Nat.sub_diag in Hlen.
    destruct fuel; simpl; by rewrite Hlen.
  - destruct fuel as [|fuel]; [lia|]. cbn [merkleizeLoop]. 
    assert (2 ^ (d - i) = 2 * 2 ^ (d - S i))%nat as Hp by (rewrite pow2_half by lia; do 2 f_equal; lia).
    pose proof (Nat.pow_nonzero 2 (d - S i) ltac:(lia)).
    rewrite (proj2 (Nat.ltb_lt _ _)), (proj2 (Nat.ltb_lt _ _)) by (rewrite ?(g_length _ _ _ _ Hb); lia). cbn [andb].
    unfold len. rewrite Hlen, IsPowerOf2_pow by lia. cbn [negb]. rewrite VectorizedSha256_pairs.
    destruct (building_step leaf d i layers layer ltac:(lia) Hb Hl) as (up & -> & Hb' & Hul). cbn [mbind gores_bind].
    apply IH; [lia|lia|done|]. apply list_lookup_insert_eq. rewrite (g_length _ _ _ _ Hb). lia.
Qed.

Lemma leaves_of_lookup leaves j : (j < length leaves)%nat → leaves !! j = Some (leaves_of leaves j).
Proof. intros Hj. unfold leaves_of. by destruct (lookup_lt_is_Some_2 leaves j Hj) as [x ->]. Qed.

Lemma ReturnTrieLayer_ok leaves d : (d < 64)%nat → length leaves = (2 ^ d)%nat →
  ∃ layers, ReturnTrieLayer hash procs leaves (Z.of_nat (2 ^ d)) = Ok layers ∧ complete (leaves_of leaves) d layers.
Proof.
  intros Hd Hlen. assert (Depth (Z.of_nat (2 ^ d)) = Z.of_nat d) as HD.
  { rewrite Nat2Z.inj_pow, Depth_log2_up by (split; [lia|]; change two64 with (2 ^ 64); apply Z.pow_lt_mono_r; lia).
    apply Z.log2_up_pow2. lia. }
  assert (∀ layers, building (leaves_of leaves) d d layers → complete (leaves_of leaves) d layers) as Hdone.
  { intros layers Hb. split; [apply Hb| |].
    - intros i layer Hl. apply (g_nodes _ _ _ _ Hb); [|done]. apply lookup_lt_Some in Hl. rewrite (g_length _ _ _ _ Hb) in Hl. lia.
    - intros i layer j Hl Hj _. apply (g_nodes _ _ _ _ Hb i layer); [|done|done].
      apply lookup_lt_Some in Hl. rewrite (g_length _ _ _ _ Hb) in Hl. lia. }
  unfold ReturnTrieLayer. rewrite HD, Nat2Z.id.
  assert (building (leaves_of leaves) d 0 (<[0%nat := leaves]> (replicate (S d) []))) as Hb0.
  { split; [by rewrite length_insert, length_replicate|]. intros i' layer Hi'. assert (i' = 0%nat) as -> by lia.
    rewrite list_lookup_insert_eq by (rewrite length_replicate; lia). intros [= <-]. rewrite Nat.sub_0_r. split; [done|].
    intros j Hj. apply leaves_of_lookup. lia. }
  destruct (merkleizeLoop_ok _ d d 0 (S d) _ leaves Hd ltac:(lia) ltac:(lia) Hb0) as (layers & top & Hrun & Hb).
  { apply list_lookup_insert_eq. rewrite length_replicate. lia. }
  destruct leaves as [|x [|y leaves]].
  - simpl in Hlen. pose proof (Nat.pow_nonzero 2 d). lia.
  - exists [[x]]. split; [done|]. assert (d = 0%nat) as ->.
    { destruct d; [done|]. rewrite Nat.pow_succ_r' in Hlen. simpl length in Hlen. lia. }
    cbn in Hrun. injection Hrun as <- <-. by apply Hdone.
  - exists layers. split; [|by apply Hdone]. unfold MerkleizeTrieLeaves. rewrite length_insert, length_replicate, Hrun. done.
Qed.

(** ** Recomputing the branches above changed leaves *)
Section branch.
Context (leaf : nat → Root) (d k : nat) (pending : list nat) (Hk : (k < 2 ^ d)%nat).

(** The walk from leaf [k] has reached layer [i]. *)
Record midway (i : nat) (layers : Layers) : Prop := {
  m_length : length layers = S d;
  m_size i' layer : layers !! i' = Some layer → length layer = (2 ^ (d - i'))%nat;
  m_nodes i' layer j : layers !! i' = Some layer → (j < 2 ^ (d - i'))%nat →
    i' = 0%nat ∨ Forall (λ k', (k' / 2 ^ i')%nat ≠ j) (if decide (i' ≤ i)%nat then pending else k :: pending) →
    layer !! j = Some (node hash leaf i' j) }.

(** The node the walk carries is right unless a pending leaf is below it. *)
Definition carries (i : nat) (root : Root) : Prop :=
  i = 0%nat ∨ Forall (λ k', (k' / 2 ^ i)%nat ≠ (k / 2 ^ i)%nat) pending → root = node hash leaf i (k / 2 ^ i).

Lemma branch_range i : (i ≤ d)%nat → (k / 2 ^ i < 2 ^ (d - i))%nat.
Proof.
  intros Hi. apply Nat.Div0.div_lt_upper_bound. rewrite <-Nat.pow_add_r. by replace (i + (d - i))%nat with d by lia.
Qed.
Lemma sibling_range i : (i < d)%nat → (Nat.lxor (k / 2 ^ i) 1 < 2 ^ (d - i))%nat.
Proof.
  intros Hi. pose proof (branch_range i ltac:(lia)). rewrite (pow2_half (d - i)) in * by lia.
  destruct (sibling (k / 2 ^ i)) as [(? & -> & ?)|(? & -> & ?)]; lia.
Qed.

Lemma midway_step i layers above x : (i < d)%nat → midway i layers → layers !! S i = Some above → carries (S i) x →
  midway (S i) (<[S i := <[(k / 2 ^ S i)%nat := x]> above]> layers).
Proof.
  intros Hi Hm Ha Hx. pose proof (m_size _ _ Hm _ _ Ha) as Hsize. pose proof (branch_range (S i) ltac:(lia)) as Hr. split.
  - rewrite length_insert. apply Hm.
  - intros i' layer [(He & <- & _)|[_ Hl]]%list_lookup_insert_Some; [subst; by rewrite length_insert|by apply Hm].
  - intros i' layer j [(He & <- & _)|[Hne Hl]]%list_lookup_insert_Some Hj.
    + subst i'. rewrite decide_True by lia. intros [?|Hp]; [done|].
      destruct (decide (j = k / 2 ^ S i)%nat) as [->|Hne].
      * rewrite list_lookup_insert_eq by lia. f_equal. apply Hx. by right.
      * rewrite list_lookup_insert_ne by done. apply (m_nodes _ _ Hm (S i) above j Ha Hj). right.
        rewrite decide_False by lia. constructor; [done|exact Hp].
    + intros Hp. apply (m_nodes _ _ Hm i' layer j Hl Hj). destruct Hp as [?|Hp]; [by left|right].
      by repeat case_decide; try lia.
Qed.

Lemma carries_step i layers layer root : (i < d)%nat → midway i layers → layers !! i = Some layer → carries i root →
  ∃ neighbor, layer !! Nat.lxor (k / 2 ^ i) 1 = Some neighbor ∧ carries (S i) (combine hash (k / 2 ^ i) root neighbor).
Proof.
  intros Hi Hm Hl Hroot. pose proof (m_size _ _ Hm _ _ Hl) as Hsize. pose proof (sibling_range i Hi) as Hsib.
  destruct (lookup_lt_is_Some_2 layer (Nat.lxor (k / 2 ^ i) 1)) as [nb Hnb]; [lia|]. exists nb. split; [done|].
  intros [?|Hp]; [done|]. rewrite pow2_S, node_parent. f_equal.
  - apply Hroot. right. eapply Forall_impl; [exact Hp|]. intros k' Hk' He. apply Hk'. by rewrite !pow2_S, He.
  - rewrite (m_nodes _ _ Hm i layer _ Hl Hsib) in Hnb; [by injection Hnb|]. right. rewrite decide_True by lia.
    eapply Forall_impl; [exact Hp|]. intros k' Hk' He. apply Hk'. by rewrite !pow2_S, He, sibling_parent.
Qed.

Lemma recomputeLoop_ok n i layers root : (i + n = d)%nat → midway i layers → carries i root →
  ∃ root' layers', recomputeLoop hash n i layers (k / 2 ^ i) root = Ok (root', layers') ∧ midway d layers' ∧
    carries d root' ∧ layers' !! 0%nat = layers !! 0%nat.
Proof.
  revert i layers root. induction n as [|n IH]; intros i layers root Hin Hm Hc.
  { assert (i = d) as -> by lia. by exists root, layers. }
  destruct (lookup_lt_is_Some_2 layers i) as [layer Hl]; [rewrite (m_length _ _ Hm); lia|].
  destruct (lookup_lt_is_Some_2 layers (S i)) as [above Ha]; [rewrite (m_length _ _ Hm); lia|].
  destruct (carries_step i layers layer root ltac:(lia) Hm Hl Hc) as (nb & Hnb & Hc').
  cbn [recomputeLoop]. rewrite (at_Some _ _ _ Hl). cbn [mbind gores_bind].
  pose proof (lookup_lt_Some _ _ _ Hnb) as Hlt.
  rewrite (proj2 (Nat.eqb_neq (length layer) 0)), (proj2 (Nat.ltb_lt _ _)) by lia.
  cbn [negb andb]. rewrite (at_Some _ _ _ Hnb), (at_Some _ _ _ Ha). cbn [mbind gores_bind].
  pose proof (m_size _ _ Hm _ _ Ha) as Hsize. pose proof (branch_range (S i) ltac:(lia)) as Hr.
  pose proof (Nat.pow_nonzero 2 (d - S i) ltac:(lia)). rewrite <-pow2_S.
  rewrite (proj2 (Nat.eqb_neq (length above) 0)), (proj2 (Nat.ltb_lt _ _)) by lia. cbn [mbind gores_bind].
  destruct (IH (S i) _ _ ltac:(lia) (midway_step i layers above _ ltac:(lia) Hm Ha Hc') Hc') as (root' & layers' & Hrun & Hm' & Hcd & H0).
  exists root', layers'. split_and!; [exact Hrun|done|done|]. rewrite H0. by apply list_lookup_insert_ne.
Qed.
End branch.

Lemma recomputeRootFromLayer_ok leaf d k pending layers leaves : (k < 2 ^ d)%nat →
  nearly leaf d (k :: pending) layers → layers !! 0%nat = Some leaves →
  ∃ root layers', recomputeRootFromLayer hash k layers leaves = Ok (root, layers') ∧ nearly leaf d pending layers' ∧
    (pending = [] → root = node hash leaf d 0) ∧ layers' !! 0%nat = Some leaves.
Proof.
  intros Hk Hn Hl. unfold recomputeRootFromLayer. pose proof (n_size _ _ _ _ Hn _ _ Hl) as Hsize. rewrite Nat.sub_0_r in Hsize.
  assert (leaves !! k = Some (leaf k)) as Hleaf.
  { apply (n_nodes _ _ _ _ Hn 0 leaves k Hl); [by rewrite Nat.sub_0_r|by left]. }
  rewrite (at_Some _ _ _ Hleaf). cbn [mbind gores_bind]. rewrite list_insert_id by done. rewrite (n_length _ _ _ _ Hn).
  replace (S d - 1)%nat with d by lia.
  destruct (recomputeLoop_ok leaf d k pending Hk d 0 layers (leaf k)) as (root & layers' & Hrun & Hm & Hc & H0); [done| | |].
  - split; [apply Hn|apply Hn|]. intros i' layer j Hl' Hj Hp. apply (n_nodes _ _ _ _ Hn i' layer j Hl' Hj).
    destruct Hp as [?|Hp]; [by left|]. destruct i'; [by left|]. right. by rewrite decide_False in Hp by lia.
  - intros _. change (2 ^ 0)%nat with 1%nat. by rewrite Nat.div_1_r.
  - change (2 ^ 0)%nat with 1%nat in Hrun. rewrite Nat.div_1_r in Hrun. rewrite Hrun. rewrite Hl in H0.
    cbn [mbind gores_bind]. rewrite (at_Some _ _ _ H0). cbn [mbind gores_bind].
    assert (nearly leaf d pending layers') as Hn'.
    { split; [apply Hm|apply Hm|]. intros i' layer j Hl' Hj Hp. apply (m_nodes _ _ _ _ _ _ Hm i' layer j Hl' Hj).
      pose proof (lookup_lt_Some _ _ _ Hl') as Hi'. rewrite (m_length _ _ _ _ _ _ Hm) in Hi'. by rewrite decide_True by lia. }
    assert (pending = [] → root = node hash leaf d 0) as Hroot.
    { intros ->. rewrite Hc by (by right). by rewrite Nat.div_small. }
    destruct leaves as [|x [|y leaves]].
    + eexists _, _. split_and!; [done|done|done|done].
    + eexists _, _. split_and!; [done|done| |done]. intros _. assert (d = 0%nat) as ->.
      { destruct d; [done|]. rewrite Nat.pow_succ_r' in Hsize. simpl length in Hsize. pose proof (Nat.pow_nonzero 2 d). lia. }
      assert (k = 0)%nat as -> by (change (2 ^ 0)%nat with 1%nat in Hk; lia). by injection Hleaf.
    + eexists _, _. split_and!; [done|done|done|done].
Qed.

Lemma nearly_weaken leaf d pending pending' layers : pending ⊆ pending' → nearly leaf d pending layers →
  nearly leaf d pending' layers.
Proof.
  intros Hsub Hn. split; [apply Hn|apply Hn|]. intros i layer j Hl Hj Hp. apply (n_nodes _ _ _ _ Hn i layer j Hl Hj).
  destruct Hp as [?|Hp]; [by left|right]. rewrite Forall_forall in *. auto.
Qed.

Lemma recomputeEach_ok leaf d idxs layers leaves root : (d ≤ 62)%nat → Forall (λ i, 0 ≤ i < 2 ^ Z.of_nat d) idxs →
  nearly leaf d (Z.to_nat <$> idxs) layers → layers !! 0%nat = Some leaves → (idxs = [] → root = node hash leaf d 0) →
  ∃ layers', recomputeEach hash idxs root layers leaves = Ok (node hash leaf d 0, layers') ∧ complete leaf d layers'.
Proof.
  intros Hd Hall. revert root layers. induction Hall as [|i idxs Hi Hall IH]; intros root layers Hn Hl Hroot; cbn [recomputeEach].
  { rewrite Hroot by done. by exists layers. }
  assert (2 ^ Z.of_nat d ≤ 2 ^ 62) by (apply Z.pow_le_mono_r; lia). unfold Int.
  rewrite Z.gtb_ltb, (proj2 (Z.ltb_ge _ _)) by lia. cbn [mbind gores_bind]. rewrite i64_small by (unfold is_i64; lia).
  rewrite fmap_cons in Hn.
  destruct (recomputeRootFromLayer_ok leaf d (Z.to_nat i) (Z.to_nat <$> idxs) layers leaves) as (r & layers1 & -> & Hn1 & Hr & Hl1);
    [apply Nat2Z.inj_lt; rewrite Nat2Z.inj_pow; lia|done|done|].
  cbn [mbind gores_bind]. apply IH; [done|done|]. intros ->. by apply Hr.
Qed.

Lemma set_all_notin leaf idxs xs j : length xs = length idxs → j ∉ (Z.to_nat <$> idxs) → set_all leaf idxs xs j = leaf j.
Proof.
  revert leaf xs. induction idxs as [|i idxs IH]; intros leaf [|x xs] Hlen Hj; try done.
  rewrite fmap_cons in Hj. apply not_elem_of_cons in Hj as [Hne Hj].
  unfold set_all. cbn [zip_with foldl]. etrans; [apply (IH (set_leaf leaf (Z.to_nat i) x) xs); [by injection Hlen|done]|].
  unfold set_leaf. by rewrite decide_False.
Qed.

Lemma setLeaves_ok idxs xs : length xs = length idxs → ∀ leaf leaves, Forall (λ i, (Z.to_nat i < length leaves)%nat) idxs →
  (∀ j, (j < length leaves)%nat → leaves !! j = Some (leaf j)) →
  ∃ leaves', setLeaves idxs xs leaves = Ok leaves' ∧ length leaves' = length leaves ∧
    ∀ j, (j < length leaves)%nat → leaves' !! j = Some (set_all leaf idxs xs j).
Proof.
  revert xs. induction idxs as [|i idxs IH]; intros [|x xs] Hlen leaf leaves Hall Hl; try done; [by exists leaves|].
  apply Forall_cons in Hall as [Hi Hall]. cbn [setLeaves]. rewrite (proj2 (Nat.ltb_lt _ _)) by done.
  destruct (IH xs ltac:(by injection Hlen) (set_leaf leaf (Z.to_nat i) x) (<[Z.to_nat i := x]> leaves)) as (leaves' & -> & Hlen' & Hat).
  - by rewrite length_insert.
  - intros j. rewrite length_insert. intros Hj. unfold set_leaf. case_decide as Hji; [subst; by apply list_lookup_insert_eq|].
    rewrite list_lookup_insert_ne by done. auto.
  - rewrite length_insert in *. by exists leaves'.
Qed.

(** Recomputing a fixed-sized trie gives the trie of the changed leaves. *)
Lemma RecomputeFromLayer_ok leaf d layers idxs xs : (d ≤ 62)%nat → complete leaf d layers → idxs ≠ [] →
  length xs = length idxs → Forall (λ i, 0 ≤ i < 2 ^ Z.of_nat d) idxs →
  ∃ layers', RecomputeFromLayer hash xs idxs layers = Ok (node hash (set_all leaf idxs xs) d 0, layers') ∧
    complete (set_all leaf idxs xs) d layers'.
Proof.
  intros Hd Hc Hne Hlen Hall. assert (2 ^ Z.of_nat d ≤ 2 ^ 62) by (apply Z.pow_le_mono_r; lia).
  destruct layers as [|leaves above]; [by pose proof (n_length _ _ _ _ Hc)|].
  pose proof (n_size _ _ _ _ Hc 0 leaves eq_refl) as Hsize. rewrite Nat.sub_0_r in Hsize.
  assert (Z.of_nat (length leaves) = 2 ^ Z.of_nat d) as HsizeZ by (by rewrite Hsize, Nat2Z.inj_pow).
  destruct (setLeaves_ok idxs xs Hlen leaf leaves) as (leaves' & Hset & Hlen' & Hat).
  { eapply Forall_impl; [done|]. cbn. lia. }
  { intros j Hj. apply (n_nodes _ _ _ _ Hc 0 leaves j eq_refl); [rewrite Nat.sub_0_r; lia|by left]. }
  cbn [RecomputeFromLayer]. rewrite Hset. cbn [mbind gores_bind]. pose proof (Nat.pow_nonzero 2 d ltac:(lia)).
  rewrite (at_Some leaves' 0 _ (Hat 0%nat ltac:(lia))). cbn [mbind gores_bind].
  assert (nearly (set_all leaf idxs xs) d (Z.to_nat <$> idxs) (leaves' :: above)) as Hn.
  { split; [apply (n_length _ _ _ _ Hc)| |].
    - intros [|i] layer Hl; [injection Hl as <-; rewrite Nat.sub_0_r; lia|]. by apply (n_size _ _ _ _ Hc (S i)).
    - intros [|i] layer j Hl Hj Hp; [injection Hl as <-; apply Hat; rewrite Nat.sub_0_r in Hj; lia|].
      destruct Hp as [?|Hp]; [done|]. rewrite (n_nodes _ _ _ _ Hc (S i) layer j Hl Hj) by (by right). f_equal.
      apply node_ext. intros k Hkj. rewrite set_all_notin; [done|done|]. rewrite Forall_forall in Hp.
      intros Hin. by apply (Hp k). }
  destruct (last idxs) as [mx|] eqn:Hlast; [|by apply last_None in Hlast].
  assert (mx ∈ idxs) as Hmx by (by apply last_Some_elem_of). rewrite Forall_forall in Hall. pose proof (Hall _ Hmx) as Hmx'.
  destruct ((i64 (mx +64 2) =? len leaves') && negb (mx mod 2 =? 0)) eqn:Hextra.
  - apply andb_true_iff in Hextra as [He _]. apply Z.eqb_eq in He. unfold len in He.
    rewrite u64_small, i64_small in He by (unfold is_u64, is_i64; lia).
    rewrite u64_small by (unfold is_u64; lia). apply recomputeEach_ok with (leaves := leaves'); [done| | |done|].
    + apply Forall_app. split; [by apply Forall_forall|]. constructor; [lia|constructor].
    + eapply nearly_weaken; [|exact Hn]. rewrite fmap_app. set_solver.
    + intros Hnil. by apply app_eq_nil in Hnil as [_ [=]].
  - apply recomputeEach_ok with (leaves := leaves'); [done|by apply Forall_forall|done|done|done].
Qed.
End fixed.
