(* ===== verification/FieldTrie.v ===== *)
(** * beacon-chain/state/fieldtrie/field_trie.go and the root selectors of state-native

    A [FieldTrie] is the cached Merkle trie of one field of the beacon state; states share
    it after a copy and take it over or copy it before they update it.  [elements] is what
    the code passes as [any]: its length and [fieldConverters] on it, with the converters of
    FieldTrieHelpers.v for root vectors and balances.  The counter behind
    [stateutil.Reference] belongs to one trie and is a field of it; tries live in a heap,
    since states refer to them by pointer.  The list root of stateutil, which
    computes the same root from scratch, is here too. *)
From S2P Require Import Prelude MathHelper Shuffle MVSlice MVSliceTheorems FieldTrieHelpers ZeroHashes MerkleTrie TrieHelpers SszMerkleize.

(** ** Types *)
Inductive DataType := BasicArray | CompositeArray | CompressedArray.
#[export] Instance DataType_eq_dec : EqDecision DataType.
Proof. solve_decision. Defined.
(** The fields that have a trie. *)
Inductive FieldIndex := BlockRoots | StateRoots | Eth1DataVotes | Validators | Balances | RandaoMixes
  | PreviousEpochAttestations | CurrentEpochAttestations.
#[export] Instance FieldIndex_eq_dec : EqDecision FieldIndex.
Proof. solve_decision. Defined.

Definition fieldMap (f : FieldIndex) : DataType :=
  match f with
  | BlockRoots | StateRoots | RandaoMixes => BasicArray
  | Eth1DataVotes | Validators | PreviousEpochAttestations | CurrentEpochAttestations => CompositeArray
  | Balances => CompressedArray
  end.

Definition FieldElemsInChunk (f : FieldIndex) : gores Z :=
  match f with Balances => Ok ElemsInChunk | _ => Err errMessage end.

Record Elements := mkElements {
  elemLen : Z;
  fieldConverters : list Z → bool → gores (list Root) }.

Definition rootElements {S} `{MultiValueSlice S Root} (mv : S) (st : Id) : Elements :=
  mkElements (mv_Len mv st) (handle32ByteMVslice mv st).
Definition balanceElements {S} `{MultiValueSlice S Z} (mv : S) (st : Id) : Elements :=
  mkElements (mv_Len mv st) (handleBalanceMVSlice mv st).

Record FieldTrie := mkFieldTrie {
  refs : Z;
  fieldLayers : Layers;
  field : FieldIndex;
  dataType : DataType;
  length_ : Z;
  numOfElems : Z;
  isTransferred : bool }.
Definition set_layers (l : Layers) (f : FieldTrie) : FieldTrie :=
  mkFieldTrie (refs f) l (field f) (dataType f) (length_ f) (numOfElems f) (isTransferred f).
Definition set_numOfElems (n : Z) (f : FieldTrie) : FieldTrie :=
  mkFieldTrie (refs f) (fieldLayers f) (field f) (dataType f) (length_ f) n (isTransferred f).
Definition set_refs (n : Z) (f : FieldTrie) : FieldTrie :=
  mkFieldTrie n (fieldLayers f) (field f) (dataType f) (length_ f) (numOfElems f) (isTransferred f).

(** ** stateutil/reference.go *)
Definition AddRef (f : FieldTrie) : FieldTrie := set_refs (refs f +64 1) f.
Definition MinusRef (f : FieldTrie) : FieldTrie := if refs f >? 0 then set_refs (refs f - 1) f else f.

Section fieldtrie.
Context (hash : list Z → Root) (GOMAXPROCS : nat).

(** ** Roots from scratch: stateutil *)
Definition ValidatorRegistryLimit : Z := 1099511627776.
Definition ValidatorLimitForBalancesChunks : Z := ((ValidatorRegistryLimit *64 8) +64 31) / 32.

Definition Uint64ListRootWithRegistryLimit (balances : list Z) : gores Root :=
  balancesChunks ← PackUint64IntoChunks balances;
  balancesRootsRoot ← BitwiseMerkleize hash GOMAXPROCS balancesChunks (len balancesChunks) ValidatorLimitForBalancesChunks;
  Ok (MixInLength hash balancesRootsRoot (encodeCount (len balances))).

(** ** FieldTrie *)
Definition validateElements (f : FieldIndex) (fieldInfo : DataType) (elements : Elements) (length_ : Z) : gores unit :=
  length_ ← (if decide (fieldInfo = CompressedArray) then comLength ← FieldElemsInChunk f; Ok (length_ *64 comLength)
             else Ok length_ : gores Z);
  if u64 (elemLen elements) >? length_ then Err errMessage else Ok tt.

Definition NewFieldTrie (f : FieldIndex) (fieldInfo : DataType) (elements : option Elements) (length_ : Z) : gores FieldTrie :=
  match elements with
  | None => Ok (mkFieldTrie 1 [] f fieldInfo length_ 0 false)
  | Some elements =>
      fieldRoots ← fieldConverters elements [] true;
      validateElements f fieldInfo elements length_;;
      layers ← (match fieldInfo with
                | BasicArray => ReturnTrieLayer hash GOMAXPROCS fieldRoots length_
                | CompositeArray | CompressedArray => ReturnTrieLayerVariable hash GOMAXPROCS fieldRoots length_
                end);
      Ok (mkFieldTrie 1 layers f fieldInfo length_ (elemLen elements) false)
  end.

Definition Empty (f : FieldTrie) : bool := (length (fieldLayers f) =? 0)%nat || isTransferred f.

Definition TrieRoot (f : FieldTrie) : gores Root :=
  if Empty f then Err errMessage
  else
    match last (fieldLayers f) with
    | None | Some [] => Err errMessage
    | Some (trieRoot :: _) =>
        match dataType f with
        | BasicArray => Ok trieRoot
        | CompositeArray => leaves ← at_ (fieldLayers f) 0; Ok (AddInMixin hash trieRoot (len leaves))
        | CompressedArray => Ok (AddInMixin hash trieRoot (numOfElems f))
        end
    end.

Definition validateIndices (f : FieldTrie) (idxs : list Z) : gores unit :=
  length_ ← (if decide (dataType f = CompressedArray) then comLength ← FieldElemsInChunk (field f); Ok (length_ f *64 comLength)
             else Ok (length_ f) : gores Z);
  if forallb (λ idx, idx <? length_) idxs then Ok tt else Err errMessage.

(** The duplicates of a chunk are removed before it is inserted. *)
Fixpoint compressIndices (numOfElems : Z) (seen : list Z) (indices : list Z) (fieldRoots : list Root)
    : gores (list Z * list Root) :=
  match indices with
  | [] => Ok ([], [])
  | idx :: indices' =>
      let startIdx := idx / numOfElems in
      if bool_decide (startIdx ∈ seen) then compressIndices numOfElems seen indices' (tail fieldRoots)
      else
        match fieldRoots with
        | [] => Panic
        | root :: fieldRoots' =>
            '(newIndices, newRoots) ← compressIndices numOfElems (startIdx :: seen) indices' fieldRoots';
            Ok (startIdx :: newIndices, root :: newRoots)
        end
  end.

(** [root, f.fieldLayers, err = ...]: on an error the layers become nil. *)
Definition storeLayers (r : gores (Root * Layers)) : M FieldTrie Root :=
  match r with
  | Ok (root, layers) => mmodify (set_layers layers);; mret root
  | Err e => mmodify (set_layers []);; mfail e
  | Panic => mpanic
  | OutOfFuel => mstuck
  end.

Definition RecomputeTrie (indices : list Z) (elements : Elements) : M FieldTrie Root :=
  f ← mget;
  if (length indices =? 0)%nat then mlift (TrieRoot f)
  else
    fieldRoots ← mlift (fieldConverters elements indices false);
    mlift (validateIndices f indices);;
    mmodify (set_numOfElems (elemLen elements));;
    f ← mget;
    match dataType f with
    | BasicArray => storeLayers (RecomputeFromLayer hash fieldRoots indices (fieldLayers f))
    | CompositeArray =>
        fieldRoot ← storeLayers (RecomputeFromLayerVariable hash fieldRoots indices (fieldLayers f));
        f ← mget;
        leaves ← mlift (at_ (fieldLayers f) 0);
        mret (AddInMixin hash fieldRoot (len leaves))
    | CompressedArray =>
        numOfElems_ ← mlift (FieldElemsInChunk (field f));
        '(newIndices, newRoots) ← mlift (compressIndices numOfElems_ [] indices fieldRoots);
        fieldRoot ← storeLayers (RecomputeFromLayerVariable hash newRoots newIndices (fieldLayers f));
        mret (AddInMixin hash fieldRoot (numOfElems f))
    end.

Definition CopyTrie (f : FieldTrie) : FieldTrie :=
  if (length (fieldLayers f) =? 0)%nat then mkFieldTrie 1 [] (field f) (dataType f) (length_ f) (numOfElems f) false
  else mkFieldTrie 1 (fieldLayers f) (field f) (dataType f) (length_ f) (numOfElems f) (isTransferred f).

(** The new trie and what is left of the old one. *)
Definition TransferTrie (f : FieldTrie) : FieldTrie * FieldTrie :=
  if (length (fieldLayers f) =? 0)%nat
  then (mkFieldTrie 1 [] (field f) (dataType f) (length_ f) (numOfElems f) false, f)
  else (mkFieldTrie 1 (fieldLayers f) (field f) (dataType f) (length_ f) (numOfElems f) false,
        mkFieldTrie (refs f) [] (field f) (dataType f) (length_ f) (numOfElems f) true).
End fieldtrie.
