(* ===== verification/FieldTrieFacts.v ===== *)
(** * Field tries against roots from scratch

    The trie of the balances holds the tree over the chunks of the list, whether it was
    built from all balances or updated at the indices that changed; [MerkleizeVector]
    computes the root of the same tree. *)
From S2P Require Import Prelude MathHelper Shuffle MVSlice MVSliceFacts MVSliceTheorems FieldTrieHelpers ZeroHashes MerkleTrie TrieHelpers SszMerkleize MerkleTheorems TrieFacts FieldTrie.
From Stdlib Require Import ZifyNat.
Local Ltac Zify.zify_post_hook ::= Z.to_euclidean_division_equations.

(** ** Indices of leaves *)
Lemma no_gap_sorted m idxs : StronglySorted Z.lt idxs → ∀ n, Forall (λ c, 0 ≤ c < Z.of_nat m) idxs →
  (∀ c, Z.of_nat n ≤ c < Z.of_nat m → c ∈ idxs) → no_gap n idxs.
Proof.
  induction 1 as [|i idxs Hs IH Hall]; intros n Hr Hcov; [done|]. apply Forall_cons in Hr as [Hi Hr]. cbn [no_gap].
  assert (i ≤ Z.of_nat n) as Hin.
  { destruct (decide (i ≤ Z.of_nat n)) as [?|Hgt]; [done|]. exfalso.
    specialize (Hcov (Z.of_nat n) ltac:(lia)). apply elem_of_cons in Hcov as [?|Hin]; [lia|].
    rewrite Forall_forall in Hall. apply Hall in Hin. lia. }
  split; [lia|]. apply IH; [done|]. intros c Hc. assert (c ∈ i :: idxs) as Hin' by (apply Hcov; lia).
  apply elem_of_cons in Hin' as [->|?]; [lia|done].
Qed.

Lemma max_fold m idxs : ∀ n, (n ≤ m)%nat → Forall (λ c, 0 ≤ c < Z.of_nat m) idxs →
  (∀ c, Z.of_nat n ≤ c < Z.of_nat m → c ∈ idxs) → foldl (λ n i, (n `max` S (Z.to_nat i))%nat) n idxs = m.
Proof.
  induction idxs as [|i idxs IH]; intros n Hn Hr Hcov.
  - simpl. destruct (decide (n < m)%nat); [|lia]. specialize (Hcov (Z.of_nat n) ltac:(lia)). by apply elem_of_nil in Hcov.
  - apply Forall_cons in Hr as [Hi Hr]. apply (IH (n `max` S (Z.to_nat i))%nat); [lia|done|].
    intros c Hc. specialize (Hcov c ltac:(lia)). apply elem_of_cons in Hcov as [->|?]; [lia|done].
Qed.

Lemma set_all_map (f leaf : nat → Root) idxs j :
  set_all leaf idxs (f <$> (Z.to_nat <$> idxs)) j = if decide (j ∈ Z.to_nat <$> idxs) then f j else leaf j.
Proof.
  revert leaf. induction idxs as [|i idxs IH]; intros leaf; [done|]. unfold set_all in *. cbn [fmap list_fmap zip_with foldl].
  etrans; [apply IH|]. unfold set_leaf. cbn [fst snd].
  destruct (decide (j ∈ Z.to_nat <$> idxs)) as [Hin|Hin]; [by rewrite decide_True by (by right)|].
  destruct (decide (j = Z.to_nat i)) as [->|Hne]; [by rewrite decide_True by (by left)|].
  rewrite decide_False; [done|]. by apply not_elem_of_cons.
Qed.

(** ** compressIndices *)
Lemma compressIndices_ok (f : nat → Root) indices seen : Forall (λ i, 0 ≤ i) indices → Sorted Z.le indices →
  (∀ c i, c ∈ seen → i ∈ indices → c ≤ i / 4) →
  ∃ ni, compressIndices 4 seen indices ((λ i, f (Z.to_nat (i / 4))) <$> indices) = Ok (ni, f <$> (Z.to_nat <$> ni)) ∧
    StronglySorted Z.lt ni ∧ (∀ c, c ∈ ni ↔ (c ∉ seen) ∧ ∃ i, i ∈ indices ∧ c = i / 4).
Proof.
  intros Hpos Hsort. apply (Sorted_StronglySorted _) in Hsort. revert seen Hpos.
  induction Hsort as [|i indices Hs IH Hall]; intros seen Hpos Hseen.
  { exists []. split_and!; [done|constructor|]. intros c. split; [by intros ?%elem_of_nil|]. intros (_ & i & ?%elem_of_nil & _). done. }
  apply Forall_cons in Hpos as [Hi Hpos]. rewrite Forall_forall in Hall. cbn [fmap list_fmap compressIndices].
  case_bool_decide as Hin.
  - cbn [tail]. destruct (IH seen Hpos) as (ni & -> & Hni & Hmem); [intros; apply Hseen; [done|by right]|].
    exists ni. split_and!; [done|done|]. intros c. rewrite Hmem. set_solver.
  - destruct (IH (i / 4 :: seen) Hpos) as (ni & -> & Hni & Hmem).
    { intros c i' [->|Hc]%elem_of_cons Hi'; [|apply Hseen; [done|by right]].
      specialize (Hall _ Hi'). apply Z.div_le_mono; lia. }
    cbn [mbind gores_bind]. exists (i / 4 :: ni). split_and!; [done| |].
    + constructor; [done|]. apply Forall_forall. intros c (Hc & i' & Hi' & ->)%Hmem.
      apply not_elem_of_cons in Hc as [Hne _]. specialize (Hall _ Hi'). pose proof (Z.div_le_mono i i' 4). lia.
    + intros c. rewrite elem_of_cons, Hmem, not_elem_of_cons. destruct (decide (c = i / 4)) as [->|Hne]; set_solver.
Qed.

(** ** Chunks of balances *)
Definition chunks (vals : list Z) : list Root := chunk_of vals <$> seq 0 (chunk_count (length vals)).

Lemma item_beyond vals i : (length vals ≤ i)%nat → item vals i = 0.
Proof. intros Hi. unfold item. by rewrite lookup_ge_None_2. Qed.
Lemma chunk_beyond vals k : (chunk_count (length vals) ≤ k)%nat → chunk_of vals k = zh 0.
Proof.
  unfold chunk_count. intros Hk. unfold chunk_of. rewrite !item_beyond by lia. rewrite zh_0. vm_compute. reflexivity.
Qed.
Lemma leaves_of_chunks vals j : leaves_of (chunks vals) j = chunk_of vals j.
Proof.
  unfold leaves_of, chunks. rewrite list_lookup_fmap. destruct (decide (j < chunk_count (length vals))%nat) as [Hj|Hj].
  - by rewrite lookup_seq_lt by done.
  - rewrite lookup_seq_ge by lia. symmetry. apply chunk_beyond. lia.
Qed.
Lemma chunks_length vals : length (chunks vals) = chunk_count (length vals).
Proof. unfold chunks. by rewrite length_fmap, length_seq. Qed.
Lemma chunk_same vals vals' k : (∀ i, (i / 4 = k)%nat → vals !! i = vals' !! i) → chunk_of vals k = chunk_of vals' k.
Proof. intros He. unfold chunk_of, item. rewrite !He by lia. done. Qed.

(** The depth of the trie of balances, 38. *)
Definition balancesDepth : nat := Z.to_nat (Depth ValidatorLimitForBalancesChunks).
Lemma balancesDepth_eq : balancesDepth = 38%nat.
Proof. vm_compute. reflexivity. Qed.
Lemma limit_depth : Z.to_nat (Depth ValidatorLimitForBalancesChunks) = balancesDepth.
Proof. reflexivity. Qed.
Opaque balancesDepth.

Section balances.
Context (hash : list Z → Root) (procs : nat) (Hz : zero_hashes_ok hash).

(** The root of the list: the tree over the chunks, with the length. *)
Definition balance_root (vals : list Z) : Root := AddInMixin hash (node hash (chunk_of vals) balancesDepth 0) (len vals).

Record holds_balances (vals : list Z) (t : FieldTrie) : Prop := {
  hb_tracks : tracks hash (chunk_of vals) balancesDepth (fieldLayers t);
  hb_leaves leaves : fieldLayers t !! 0%nat = Some leaves → length leaves = chunk_count (length vals);
  hb_count : numOfElems t = len vals;
  hb_field : field t = Balances;
  hb_type : dataType t = CompressedArray;
  hb_length : length_ t = ValidatorLimitForBalancesChunks;
  hb_own : isTransferred t = false }.

Lemma TrieRoot_balances vals t : holds_balances vals t → TrieRoot hash t = Ok (balance_root vals).
Proof.
  intros Ht. unfold TrieRoot, Empty. rewrite (tracks_length _ _ _ _ (hb_tracks _ _ Ht)), (hb_own _ _ Ht). cbn [Nat.eqb orb].
  destruct (tracks_root _ _ _ _ (hb_tracks _ _ Ht)) as (top & -> & _ & Htop). destruct top as [|r top]; [done|].
  rewrite (hb_type _ _ Ht), (hb_count _ _ Ht). unfold at_ in Htop. cbn [lookup list_lookup] in Htop. by simplify_eq.
Qed.

Lemma vectorLoop_variable n i l layers : variableLoop hash procs n i l = Ok layers →
  ∃ top, last layers = Some top ∧ vectorLoop hash procs n i l = Ok top.
Proof.
  revert i l layers. induction n as [|n IH]; intros i l layers; cbn [variableLoop vectorLoop].
  { intros [= <-]. by exists l. }
  destruct (if (length l mod 2 =? 1)%nat then _ else _) as [padded| | |]; try done. cbn [mbind gores_bind].
  destruct (VectorizedSha256 _ _ _) as [above| | |]; try done. cbn [mbind gores_bind].
  destruct (variableLoop hash procs n (S i) above) as [rest| | |] eqn:Hrest; try done. intros [= <-].
  destruct (IH _ _ _ Hrest) as (top & Htop & ->). exists top. split; [|done].
  destruct rest; [done|]. by rewrite last_cons_cons.
Qed.

(** The root of a vector of chunks with a limit is the root of the padded tree. *)
Lemma MerkleizeVector_node elements limit : 0 ≤ limit < two64 →
  MerkleizeVector hash procs elements limit = Ok (node hash (leaves_of elements) (Z.to_nat (Depth limit)) 0).
Proof.
  intros Hl. pose proof (Depth_bounds limit Hl) as [Hd _]. unfold MerkleizeVector.
  destruct (ReturnTrieLayerVariable_ok hash procs elements limit Hz Hl) as (layers & Hrun & Ht & _).
  unfold ReturnTrieLayerVariable in Hrun. destruct (tracks_root _ _ _ _ Ht) as (top & Hlast & _ & Htop).
  destruct (Nat.eqb_spec (length elements) 0) as [H0|H0].
  - rewrite zeroHash_Ok in Hrun |- * by lia. injection Hrun as <-. rewrite last_snoc in Hlast. injection Hlast as <-. done.
  - destruct (vectorLoop_variable _ _ _ _ Hrun) as (top' & Hlast' & ->). cbn [mbind gores_bind]. congruence.
Qed.

Lemma Uint64ListRoot_balances vals : len vals ≤ ValidatorRegistryLimit →
  Uint64ListRootWithRegistryLimit hash procs vals = Ok (balance_root vals).
Proof.
  intros Hv. unfold Uint64ListRootWithRegistryLimit. rewrite PackUint64IntoChunks_spec. cbn [mbind gores_bind].
  fold (chunks vals). unfold BitwiseMerkleize. rewrite Z.gtb_ltb, (proj2 (Z.ltb_ge _ _)).
  - rewrite MerkleizeVector_node by done. cbn [mbind gores_bind]. rewrite limit_depth. unfold balance_root, AddInMixin.
    rewrite (node_leaf_ext hash _ _ _ _ (leaves_of_chunks vals)). done.
  - unfold len. rewrite chunks_length. unfold len, ValidatorRegistryLimit in Hv. unfold chunk_count.
    change ValidatorLimitForBalancesChunks with 274877906944. lia.
Qed.

Context {S : Type} `{MultiValueSliceLaws S Z}.

Lemma NewFieldTrie_balances (mv : S) (st : Id) : mv_ok mv → len (mv_items mv st) ≤ ValidatorRegistryLimit →
  ∃ t, NewFieldTrie hash procs Balances CompressedArray (Some (balanceElements mv st)) ValidatorLimitForBalancesChunks = Ok t ∧
    holds_balances (mv_items mv st) t ∧ refs t = 1.
Proof.
  intros Hok Hlen. set (vals := mv_items mv st) in *. unfold NewFieldTrie, balanceElements, fieldConverters, handleBalanceMVSlice.
  rewrite mv_Value_law by done. cbn [mbind gores_bind]. fold vals. rewrite PackUint64IntoChunks_spec. cbn [mbind gores_bind].
  fold (chunks vals). unfold validateElements. rewrite decide_True by done. cbn [FieldElemsInChunk mbind gores_bind elemLen].
  rewrite mv_Len_law by done. fold vals. change (ValidatorLimitForBalancesChunks *64 ElemsInChunk) with ValidatorRegistryLimit.
  rewrite u64_small by (unfold is_u64, len, ValidatorRegistryLimit in *; lia).
  rewrite Z.gtb_ltb, (proj2 (Z.ltb_ge _ _)) by done. cbn [mbind gores_bind].
  destruct (ReturnTrieLayerVariable_ok hash procs (chunks vals) ValidatorLimitForBalancesChunks Hz ltac:(done))
    as (layers & -> & Ht & Hl). rewrite limit_depth in Ht. cbn [mbind gores_bind]. eexists. split_and!; [done| |done].
  split; cbn [fieldLayers numOfElems field dataType length_ isTransferred]; try done.
  - eapply tracks_ext; [|done]. apply leaves_of_chunks.
  - intros leaves. rewrite <-chunks_length. destruct Hl as [[-> ->]|[_ ->]]; [|by intros [= <-]].
    rewrite decide_False by (by vm_compute). by intros [= <-].
Qed.

(** Every position where the two lists differ is in [indices]. *)
Definition covers (indices : list Z) (snap vals : list Z) : Prop :=
  ∀ i, snap !! i ≠ vals !! i → Z.of_nat i ∈ indices.

Lemma covers_chunk indices snap vals k : covers indices snap vals → (∀ i, i ∈ indices → i / 4 ≠ Z.of_nat k) →
  chunk_of snap k = chunk_of vals k.
Proof.
  intros Hc Hi. apply chunk_same. intros i Hik. destruct (decide (snap !! i = vals !! i)) as [|Hne]; [done|].
  destruct (Hi _ (Hc _ Hne)). lia.
Qed.

Lemma convert_balances (mv : S) (st : Id) indices : mv_ok mv → len (mv_items mv st) ≤ ValidatorRegistryLimit →
  Forall (λ i, 0 ≤ i < len (mv_items mv st)) indices → indices ≠ [] →
  handleBalanceMVSlice mv st indices false = Ok ((λ i, chunk_of (mv_items mv st) (Z.to_nat (i / 4))) <$> indices).
Proof.
  intros Hok Hlen Hi Hne. unfold handleBalanceMVSlice, ValidatorRegistryLimit in *.
  assert (0 < len (mv_items mv st)) as Hpos by (destruct Hi; [done|lia]).
  rewrite Z.gtb_ltb, (proj2 (Z.ltb_lt _ _)) by (by rewrite mv_Len_law).
  apply balancesLoop_spec; [done|unfold in_memory; lia|]. eapply Forall_impl; [done|]. cbn. lia.
Qed.

(** The update of the layers at the chunks of [indices]. *)
Lemma update_chunks snap vals layers leaves indices ni : (length snap ≤ length vals)%nat → len vals ≤ ValidatorRegistryLimit →
  tracks hash (chunk_of snap) balancesDepth layers → layers !! 0%nat = Some leaves →
  length leaves = chunk_count (length snap) → covers indices snap vals → Forall (λ i, 0 ≤ i < len vals) indices →
  StronglySorted Z.lt ni → (∀ c, c ∈ ni ↔ ∃ i, i ∈ indices ∧ c = i / 4) → ni ≠ [] →
  ∃ layers', RecomputeFromLayerVariable hash (chunk_of vals <$> (Z.to_nat <$> ni)) ni layers =
      Ok (node hash (chunk_of vals) balancesDepth 0, layers') ∧ tracks hash (chunk_of vals) balancesDepth layers' ∧
    ∀ leaves, layers' !! 0%nat = Some leaves → length leaves = chunk_count (length vals).
Proof.
  intros Hgrow Hlen Ht Hl Hll Hcov Hi Hs Hmem Hne. unfold len, ValidatorRegistryLimit in Hlen.
  assert (Forall (λ c, 0 ≤ c < Z.of_nat (chunk_count (length vals))) ni) as Hr.
  { apply Forall_forall. intros c (i & Hin & ->)%Hmem. rewrite Forall_forall in Hi. specialize (Hi _ Hin).
    unfold chunk_count, len in *. lia. }
  assert (∀ c, Z.of_nat (length leaves) ≤ c < Z.of_nat (chunk_count (length vals)) → c ∈ ni) as Hnew.
  { intros c Hc. apply Hmem. exists (4 * c). rewrite Hll in Hc. unfold chunk_count in *. split; [|lia].
    replace (4 * c) with (Z.of_nat (Z.to_nat (4 * c))) by lia. apply Hcov. rewrite lookup_ge_None_2 by lia.
    destruct (lookup_lt_is_Some_2 vals (Z.to_nat (4 * c))) as [x ->]; [lia|done]. }
  unfold RecomputeFromLayerVariable. rewrite (proj2 (Nat.eqb_neq _ _)) by (by intros ?%nil_length_inv).
  destruct (tracks_root _ _ _ _ Ht) as (top & -> & _ & ->). cbn [mbind gores_bind]. pose proof balancesDepth_eq as Hbd.
  destruct (recomputeVariableEach_ok hash balancesDepth ni (chunk_of vals <$> (Z.to_nat <$> ni))
    ltac:(by rewrite !length_fmap) ltac:(lia)) with (leaf := chunk_of snap) (layers := layers) (leaves := leaves)
    as (layers' & leaves' & -> & Ht' & Hl' & Hll'); [|done|done|by eapply no_gap_sorted|].
  { eapply Forall_impl; [exact Hr|]. rewrite Hbd. intros c Hc. change (2 ^ Z.of_nat 38) with 274877906944. unfold chunk_count in Hc. lia. }
  assert (∀ j, set_all (chunk_of snap) ni (chunk_of vals <$> (Z.to_nat <$> ni)) j = chunk_of vals j) as Hset.
  { intros j. rewrite set_all_map. case_decide as Hj; [done|]. eapply covers_chunk; [done|]. intros i Hin He. apply Hj.
    apply list_elem_of_fmap. exists (i / 4). split; [lia|]. apply Hmem. eauto. }
  exists layers'. split_and!.
  - by rewrite (node_leaf_ext hash _ _ _ _ Hset).
  - by eapply tracks_ext.
  - intros ?. rewrite Hl'. intros [= <-]. rewrite Hll'. apply max_fold; [|done|done]. rewrite Hll. unfold chunk_count. lia.
Qed.

Lemma RecomputeTrie_balances (mv : S) (st : Id) snap indices t : let vals := mv_items mv st in
  mv_ok mv → len vals ≤ ValidatorRegistryLimit → holds_balances snap t → (length snap ≤ length vals)%nat →
  Sorted Z.le indices → Forall (λ i, 0 ≤ i < len vals) indices → covers indices snap vals →
  ∃ t', RecomputeTrie hash indices (balanceElements mv st) t = (Ok (balance_root vals), t') ∧
    holds_balances vals t' ∧ refs t' = refs t.
Proof.
  intros vals Hok Hlen Ht Hgrow Hsort Hi Hcov. unfold RecomputeTrie.
  destruct (decide (indices = [])) as [->|Hne].
  { assert (snap = vals) as ->.
    { apply list_eq. intros i. destruct (decide (snap !! i = vals !! i)) as [|Hn]; [done|]. by apply Hcov, elem_of_nil in Hn. }
    exists t. split_and!; [|done|done]. by rewrite <-(TrieRoot_balances _ _ Ht). }
  cbn [mbind M_bind mget]. unfold mbind, M_bind, mget. rewrite (proj2 (Nat.eqb_neq _ _)) by (by intros ?%nil_length_inv).
  unfold mlift, balanceElements. cbn [fieldConverters elemLen]. rewrite convert_balances by done. fold vals.
  unfold validateIndices. rewrite (hb_type _ _ Ht), (hb_field _ _ Ht), (hb_length _ _ Ht), decide_True by done.
  cbn [FieldElemsInChunk mbind gores_bind]. change (ValidatorLimitForBalancesChunks *64 ElemsInChunk) with ValidatorRegistryLimit.
  assert (forallb (λ idx, idx <? ValidatorRegistryLimit) indices = true) as ->.
  { apply forallb_forall. intros i Hin%list_elem_of_In. rewrite Forall_forall in Hi. specialize (Hi _ Hin). apply Z.ltb_lt. lia. }
  unfold mmodify. cbn [set_numOfElems dataType field fieldLayers numOfElems]. rewrite (hb_type _ _ Ht), (hb_field _ _ Ht).
  cbn [FieldElemsInChunk]. change ElemsInChunk with 4.
  destruct (compressIndices_ok (chunk_of vals) indices []) as (ni & -> & Hs & Hmem);
    [eapply Forall_impl; [done|]; cbn; lia|done|by intros c i ?%elem_of_nil|].
  assert (∀ c, c ∈ ni ↔ ∃ i, i ∈ indices ∧ c = i / 4) as Hmem'.
  { intros c. rewrite Hmem. split; [by intros [_ ?]|]. intros ?. split; [apply not_elem_of_nil|done]. }
  assert (ni ≠ []) as Hnn.
  { intros ->. destruct indices as [|i indices]; [done|]. assert (i / 4 ∈ []) as []%elem_of_nil.
    apply Hmem'. exists i. split; [by left|done]. }
  destruct (lookup_lt_is_Some_2 (fieldLayers t) 0) as [leaves Hl]; [rewrite (tracks_length _ _ _ _ (hb_tracks _ _ Ht)); lia|].
  destruct (update_chunks snap vals (fieldLayers t) leaves indices ni Hgrow Hlen (hb_tracks _ _ Ht) Hl (hb_leaves _ _ Ht _ Hl)
    Hcov Hi Hs Hmem' Hnn) as (layers' & -> & Ht' & Hl').
  eexists. split_and!; [| |].
  - unfold storeLayers, mbind, M_bind, mmodify, mret, M_ret. unfold balance_root. rewrite mv_Len_law by done. reflexivity.
  - split; cbn [set_layers set_numOfElems fieldLayers numOfElems field dataType length_ isTransferred]; try apply Ht; try done.
  - done.
Qed.
End balances.
