(* ===== verification/StateTrie.v ===== *)
(** * state-native/state_trie.go: the balances trie shared by the copies of a state

    The part of every beacon state that the root of its balances depends on: the list
    (a multi-value slice in the code, which MVSliceTheorems.v proves to be a list per
    state), the indices written since the trie was last brought up to date, the flag that
    asks for a new trie, and the pointer to the field trie, which copies of a state share.
    Tries live in a heap. *)
From S2P Require Import Prelude MathHelper Shuffle MVSlice MVSliceFacts MVSliceTheorems FieldTrieHelpers ZeroHashes MerkleTrie TrieHelpers SszMerkleize FieldTrie.

Record FieldState := mkState {
  vals : list Z;
  dirtyIndices : list Z;
  rebuildTrie : bool;
  leavesPtr : nat }.

Record World := mkWorld {
  tries : list FieldTrie;
  states : gmap Id FieldState }.

Definition getState (b : Id) : M World FieldState := w ← mget;
  match states w !! b with Some fs => mret fs | None => mpanic end.
Definition putState (b : Id) (fs : FieldState) : M World unit :=
  mmodify (λ w, mkWorld (tries w) (<[b := fs]> (states w))).
Definition getTrie (p : nat) : M World FieldTrie := w ← mget; mlift (at_ (tries w) p).
Definition modTrie (p : nat) (f : FieldTrie → FieldTrie) : M World unit :=
  mmodify (λ w, mkWorld (alter f p (tries w)) (states w)).
Definition allocTrie (t : FieldTrie) : M World nat := w ← mget;
  mmodify (λ w, mkWorld (tries w ++ [t]) (states w));; mret (length (tries w)).

Definition setPtr (p : nat) (fs : FieldState) : FieldState := mkState (vals fs) (dirtyIndices fs) (rebuildTrie fs) p.
Definition setDirty (l : list Z) (fs : FieldState) : FieldState := mkState (vals fs) l (rebuildTrie fs) (leavesPtr fs).
Definition setRebuild (r : bool) (fs : FieldState) : FieldState := mkState (vals fs) (dirtyIndices fs) r (leavesPtr fs).
Definition setVals (l : list Z) (fs : FieldState) : FieldState := mkState l (dirtyIndices fs) (rebuildTrie fs) (leavesPtr fs).

(** container/slice: the first occurrence of every value *)
Fixpoint SetUint64_loop (intMap : gset Z) (a : list Z) : list Z :=
  match a with
  | [] => []
  | idx :: a' => if bool_decide (idx ∈ intMap) then SetUint64_loop intMap a' else idx :: SetUint64_loop ({[idx]} ∪ intMap) a'
  end.
Definition SetUint64 (a : list Z) : list Z := SetUint64_loop ∅ a.

Definition indicesLimit : Z := 20000.

Definition addDirtyIndices (indices : list Z) (fs : FieldState) : FieldState :=
  if rebuildTrie fs then fs
  else
    let fs := if len (dirtyIndices fs) + len indices >? indicesLimit then setDirty (SetUint64 (dirtyIndices fs)) fs else fs in
    if len (dirtyIndices fs) + len indices >? indicesLimit then setDirty [] (setRebuild true fs)
    else setDirty (dirtyIndices fs ++ indices) fs.

(** ** setters_validator.go *)
Definition UpdateBalancesAtIndex (b : Id) (idx val : Z) : M World unit :=
  fs ← getState b;
  if (Z.to_nat idx <? length (vals fs))%nat
  then putState b (addDirtyIndices [idx] (setVals (<[Z.to_nat idx := val]> (vals fs)) fs))
  else mfail ErrOutOfBounds.
Definition AppendBalance (b : Id) (bal : Z) : M World unit :=
  fs ← getState b;
  let fs := setVals (vals fs ++ [bal]) fs in
  putState b (addDirtyIndices [u64 (len (vals fs) - 1)] fs).
Definition SetBalances (b : Id) (val : list Z) : M World unit :=
  fs ← getState b;
  putState b (setRebuild true (setVals val fs)).

(** The part of [Copy] about this field: [dst] gets the list, its own copy of the dirty
    indices, the flag and a reference to the same trie. *)
Definition CopyState (b dst : Id) : M World unit :=
  fs ← getState b;
  putState dst fs;;
  modTrie (leavesPtr fs) AddRef.

(** [finalizerCleanup]: the reference of this trie is not released. *)
Definition finalizerCleanup (b : Id) : M World unit :=
  mmodify (λ w, mkWorld (tries w) (delete b (states w))).

Definition CopyAllTries (b : Id) : M World unit :=
  fs ← getState b;
  fieldTrie ← getTrie (leavesPtr fs);
  if refs fieldTrie >? 1 then
    modTrie (leavesPtr fs) MinusRef;;
    fieldTrie ← getTrie (leavesPtr fs);
    p ← allocTrie (CopyTrie fieldTrie);
    putState b (setPtr p fs)
  else mret tt.

Section selector.
Context (hash : list Z → Root) (GOMAXPROCS : nat).

Definition elementsOf (b : Id) (fs : FieldState) : Elements := balanceElements (BuildEmptyCompositeSlice (vals fs)) b.

Definition resetFieldTrie (b : Id) (length_ : Z) : M World unit :=
  fs ← getState b;
  fTrie ← mlift (NewFieldTrie hash GOMAXPROCS Balances (fieldMap Balances) (Some (elementsOf b fs)) length_);
  p ← allocTrie fTrie;
  putState b (setDirty [] (setPtr p fs)).

Definition currentTrieRoot (b : Id) : M World Root :=
  fs ← getState b; t ← getTrie (leavesPtr fs); mlift (TrieRoot hash t).

(** [fTrie.RecomputeTrie(...)]: the trie is updated in place. *)
Definition recomputeAt (p : nat) (indices : list Z) (el : Elements) : M World Root := λ w,
  match tries w !! p with
  | None => (Panic, w)
  | Some t => let '(r, t') := RecomputeTrie hash indices el t in (r, mkWorld (<[p := t']> (tries w)) (states w))
  end.

Definition recomputeFieldTrie (b : Id) : M World Root :=
  fs ← getState b;
  fTrie ← getTrie (leavesPtr fs);
  if Empty fTrie then
    resetFieldTrie b (length_ fTrie);;
    modTrie (leavesPtr fs) MinusRef;;
    currentTrieRoot b
  else
    (if refs fTrie >? 1 then
       p ← allocTrie (TransferTrie fTrie).1;
       modTrie (leavesPtr fs) (λ t, MinusRef (TransferTrie t).2);;
       putState b (setPtr p fs)
     else mret tt);;
    fs ← getState b;
    let sorted := merge_sort Z.le (SetUint64 (dirtyIndices fs)) in
    putState b (setDirty sorted fs);;
    root ← recomputeAt (leavesPtr fs) sorted (elementsOf b fs);
    putState b (setDirty [] fs);;
    mret root.

Definition balancesRootSelector (b : Id) : M World Root :=
  fs ← getState b;
  if rebuildTrie fs then
    resetFieldTrie b ValidatorLimitForBalancesChunks;;
    fs ← getState b;
    putState b (setRebuild false fs);;
    currentTrieRoot b
  else recomputeFieldTrie b.
End selector.

(** A state as the constructors of state_trie.go leave it: no trie yet, to be rebuilt. *)
Definition initialWorld (b : Id) (balances : list Z) : World :=
  mkWorld [mkFieldTrie 1 [] Balances BasicArray 0 0 false] {[b := mkState balances [] true 0%nat]}.
