(* ===== verification/StateTrieTheorems.v ===== *)
(** * The cached root of the balances is right in every state

    Whatever the interleaving of writes, copies, finalizations and root computations
    over states that share tries, [balancesRootSelector] returns the root of the state's
    own balances, as [Uint64ListRootWithRegistryLimit] computes it from scratch. *)
From S2P Require Import Prelude MathHelper Shuffle MVSlice MVSliceFacts MVSliceTheorems FieldTrieHelpers ZeroHashes Sha256 MerkleTrie TrieHelpers SszMerkleize MerkleTheorems TrieFacts FieldTrie FieldTrieFacts StateTrie.

(** ** SetUint64 and the dirty indices *)
Lemma elem_of_SetUint64_loop seen l x : x ∈ SetUint64_loop seen l ↔ x ∈ l ∧ x ∉ seen.
Proof.
  revert seen. induction l as [|y l IH]; intros seen; cbn [SetUint64_loop]; [set_solver|].
  case_bool_decide as Hy; [rewrite IH; set_solver|]. rewrite elem_of_cons, IH. destruct (decide (x = y)); set_solver.
Qed.
Lemma elem_of_SetUint64 l x : x ∈ SetUint64 l ↔ x ∈ l.
Proof. unfold SetUint64. rewrite elem_of_SetUint64_loop. set_solver. Qed.

Definition sorted_dirty (fs : FieldState) : list Z := merge_sort Z.le (SetUint64 (dirtyIndices fs)).
Lemma elem_of_sorted_dirty fs x : x ∈ sorted_dirty fs ↔ x ∈ dirtyIndices fs.
Proof. unfold sorted_dirty. by rewrite merge_sort_Permutation, elem_of_SetUint64. Qed.
Lemma sorted_dirty_sorted fs : Sorted Z.le (sorted_dirty fs).
Proof. apply (Sorted_merge_sort Z.le). Qed.

(** ** References *)
Definition count (p : nat) (m : gmap Id FieldState) : nat := size (filter (λ kv : Id * FieldState, leavesPtr kv.2 = p) m).
Definition points (p : nat) (fs : FieldState) : nat := if decide (leavesPtr fs = p) then 1 else 0.

Lemma count_insert_new p m b fs : m !! b = None → count p (<[b := fs]> m) = (count p m + points p fs)%nat.
Proof.
  intros Hb. unfold count, points. rewrite map_filter_insert. cbn. case_decide.
  - rewrite map_size_insert_None; [lia|]. apply map_lookup_filter_None. by left.
  - rewrite delete_id by done. lia.
Qed.
Lemma count_delete p m b fs : m !! b = Some fs → (count p (delete b m) + points p fs = count p m)%nat.
Proof.
  intros Hb. rewrite <-(insert_delete_id m b fs Hb) at 2. rewrite count_insert_new; [done|apply lookup_delete_eq].
Qed.
Lemma count_insert_old p m b fs fs' : m !! b = Some fs → (count p (<[b := fs']> m) + points p fs = count p m + points p fs')%nat.
Proof.
  intros Hb. rewrite <-insert_delete_eq, count_insert_new by apply lookup_delete_eq. pose proof (count_delete p m b fs Hb). lia.
Qed.
Lemma count_two p m b b' fs fs' : b ≠ b' → m !! b = Some fs → m !! b' = Some fs' → leavesPtr fs = p → leavesPtr fs' = p →
  (2 ≤ count p m)%nat.
Proof.
  intros Hne Hb Hb' Hp Hp'. pose proof (count_delete p m b fs Hb). pose proof (count_delete p (delete b m) b' fs') as H'.
  rewrite lookup_delete_ne in H' by done. specialize (H' Hb'). unfold points in *. rewrite !decide_True in * by done. lia.
Qed.

Section world.
Context (hash : list Z → Root) (procs : nat) (Hz : zero_hashes_ok hash).

(** ** The invariant *)
Definition fits (l : list Z) : Prop := len l ≤ ValidatorRegistryLimit.

(** The trie can serve the state: it is gone, or it holds a list that differs from the
    state's only at dirty indices. *)
Record usable (t : FieldTrie) (fs : FieldState) : Prop := {
  u_field : field t = Balances;
  u_type : dataType t = CompressedArray;
  u_length : length_ t = ValidatorLimitForBalancesChunks;
  u_dirty : Forall (λ i, 0 ≤ i < len (vals fs)) (dirtyIndices fs);
  u_layers : Empty t = true ∨ ∃ snap, holds_balances hash snap t ∧ (length snap ≤ length (vals fs))%nat ∧
    covers (dirtyIndices fs) snap (vals fs) }.

Definition state_ok (ts : list FieldTrie) (fs : FieldState) : Prop :=
  fits (vals fs) ∧ ∃ t, ts !! leavesPtr fs = Some t ∧ (rebuildTrie fs = true ∨ usable t fs).

Record world_ok (w : World) : Prop := {
  wo_state b fs : states w !! b = Some fs → state_ok (tries w) fs;
  wo_refs p t : tries w !! p = Some t → Z.of_nat (count p (states w)) ≤ refs t < two64 }.

Lemma usable_refs n t fs : usable t fs → usable (set_refs n t) fs.
Proof.
  intros [? ? ? ? Hl]. split; [done..|]. destruct Hl as [?|(snap & Hs & ?)]; [by left|right]. exists snap. split; [|done].
  destruct Hs. by split.
Qed.

(** ** Writes *)
Lemma addDirty_ok t fs fs' i : usable t fs → leavesPtr fs' = leavesPtr fs → rebuildTrie fs = false →
  rebuildTrie fs' = false → dirtyIndices fs' = dirtyIndices fs → 0 ≤ i < len (vals fs') → len (vals fs) ≤ len (vals fs') →
  (∀ k, vals fs !! k ≠ vals fs' !! k → i = Z.of_nat k) →
  rebuildTrie (addDirtyIndices [i] fs') = true ∨ usable t (addDirtyIndices [i] fs').
Proof.
  intros Hu Hp Hr Hr' Hd Hi Hgrow Hone. unfold addDirtyIndices. rewrite Hr'.
  set (fs1 := if len (dirtyIndices fs') + len [i] >? indicesLimit then setDirty (SetUint64 (dirtyIndices fs')) fs' else fs').
  assert (vals fs1 = vals fs' ∧ ∀ x, x ∈ dirtyIndices fs1 ↔ x ∈ dirtyIndices fs) as [Hv Hmem].
  { subst fs1. rewrite <-Hd. destruct (_ >? _); cbn; [|done]. split; [done|]. intros x. apply elem_of_SetUint64. }
  clearbody fs1. destruct (len (dirtyIndices fs1) + len [i] >? indicesLimit); [by left|right]. destruct Hu as [? ? ? Hdirty Hl]. split; cbn [setDirty vals dirtyIndices]; try done.
  - rewrite Hv. apply Forall_app. split; [|by constructor]. apply Forall_forall. intros x Hx%Hmem.
    rewrite Forall_forall in Hdirty. specialize (Hdirty _ Hx). lia.
  - destruct Hl as [?|(snap & Hs & Hlen & Hcov)]; [by left|right]. exists snap. unfold len in *.
    split_and!; [done|rewrite Hv; lia|]. rewrite Hv. intros k Hk. apply elem_of_app.
    destruct (decide (vals fs !! k = vals fs' !! k)) as [He|He]; [left|right; apply list_elem_of_singleton; symmetry; by apply Hone].
    apply Hmem, Hcov. by rewrite He.
Qed.

Lemma addDirty_fields l fs : vals (addDirtyIndices l fs) = vals fs ∧ leavesPtr (addDirtyIndices l fs) = leavesPtr fs ∧
  (rebuildTrie fs = true → addDirtyIndices l fs = fs).
Proof. unfold addDirtyIndices. destruct (rebuildTrie fs); [done|]. repeat destruct (_ >? _); done. Qed.

Lemma write_ok w b fs fs' : world_ok w → states w !! b = Some fs → leavesPtr fs' = leavesPtr fs →
  state_ok (tries w) fs' → world_ok (mkWorld (tries w) (<[b := fs']> (states w))).
Proof.
  intros Hw Hb Hp Hs. split; cbn [states tries].
  - intros b' fs1 [(-> & ->)|[_ Hb']]%lookup_insert_Some; [done|by eapply Hw].
  - intros p t Ht. pose proof (count_insert_old p _ b fs fs' Hb) as Hc. pose proof (wo_refs _ Hw p t Ht).
    unfold points in Hc. rewrite Hp in Hc. lia.
Qed.

Lemma dirty_write_ok w b fs vs i : world_ok w → states w !! b = Some fs → fits vs → 0 ≤ i < len vs →
  len (vals fs) ≤ len vs → (∀ k, vals fs !! k ≠ vs !! k → i = Z.of_nat k) →
  world_ok (mkWorld (tries w) (<[b := addDirtyIndices [i] (setVals vs fs)]> (states w))).
Proof.
  intros Hw Hb Hf Hi Hgrow Hone. destruct (addDirty_fields [i] (setVals vs fs)) as (Hv & Hp & Hr).
  eapply write_ok; [done|done|by rewrite Hp|]. destruct (wo_state _ Hw _ _ Hb) as [_ (t & Ht & Hu)]. split; [by rewrite Hv|].
  exists t. split; [by rewrite Hp|]. destruct (rebuildTrie fs) eqn:Hrb; [left; by rewrite Hr|].
  destruct Hu as [?|Hu]; [done|]. by eapply addDirty_ok.
Qed.

(** ** Root computations *)
Lemma holds_usable vs t p rb : holds_balances hash vs t → usable t (mkState vs [] rb p).
Proof.
  intros Ht. split; cbn; try apply Ht; [constructor|]. right. exists vs. split_and!; [done|done|]. by intros k Hk.
Qed.

(** State [b] moves to a new trie; the old tries may be released or emptied. *)
Lemma move_ok w b fs fs' t ts' : world_ok w → states w !! b = Some fs → vals fs' = vals fs → leavesPtr fs' = length (tries w) →
  rebuildTrie fs' = true ∨ usable t fs' → refs t = 1 → length ts' = length (tries w) →
  (∀ p t0, tries w !! p = Some t0 → ∃ t1, ts' !! p = Some t1 ∧
    (∀ b' fs1, b' ≠ b → states w !! b' = Some fs1 → leavesPtr fs1 = p → usable t0 fs1 → usable t1 fs1) ∧
    refs t0 - Z.of_nat (points p fs) ≤ refs t1 < two64) →
  world_ok (mkWorld (ts' ++ [t]) (<[b := fs']> (states w))).
Proof.
  intros Hw Hb Hv Hp' Hu' Hrt Hlen Hold. split; cbn [states tries].
  - intros b' fs1 [(-> & <-)|[Hne Hb']]%lookup_insert_Some.
    + split; [rewrite Hv; apply (wo_state _ Hw _ _ Hb)|]. exists t. rewrite Hp'.
      split; [by rewrite lookup_app_r, Hlen, Nat.sub_diag by lia|done].
    + destruct (wo_state _ Hw _ _ Hb') as [Hf (t0 & Ht0 & Hu)]. split; [done|].
      destruct (Hold _ _ Ht0) as (t1 & Ht1 & Hu1 & _). exists t1. split; [by apply lookup_app_l_Some|].
      destruct Hu as [?|Hu]; [by left|right]. by eapply Hu1.
  - intros p t1 Hp. pose proof (count_insert_old p _ b fs fs' Hb) as Hc.
    unfold points in Hc at 2. rewrite Hp' in Hc. apply lookup_app_Some in Hp as [Hp|[Hge Hp]].
    + pose proof (lookup_lt_Some _ _ _ Hp) as Hlt. rewrite decide_False in Hc by lia.
      destruct (lookup_lt_is_Some_2 (tries w) p) as [t0 Ht0]; [lia|]. destruct (Hold _ _ Ht0) as (t1' & Ht1 & _ & Hr).
      pose proof (wo_refs _ Hw _ _ Ht0). simplify_eq. lia.
    + apply list_lookup_singleton_Some in Hp as [Hp <-]. assert (p = length (tries w)) as -> by lia.
      rewrite decide_True in Hc by done. assert (count (length (tries w)) (states w) = 0)%nat as H0.
      { apply map_size_empty_iff, map_empty. intros b'. apply map_lookup_filter_None.
        destruct (states w !! b') as [fs1|] eqn:Hb'; [right|by left]. intros ? [= <-]. cbn.
        destruct (wo_state _ Hw _ _ Hb') as [_ (t0 & Ht0 & _)]. apply lookup_lt_Some in Ht0. lia. }
      rewrite Hrt. unfold points in Hc. destruct (decide _); lia.
Qed.

Lemma fresh_ok w b fs t rb ts' : world_ok w → states w !! b = Some fs → holds_balances hash (vals fs) t → refs t = 1 →
  length ts' = length (tries w) →
  (∀ p t0, tries w !! p = Some t0 → ∃ t1, ts' !! p = Some t1 ∧
    (∀ b' fs1, b' ≠ b → states w !! b' = Some fs1 → leavesPtr fs1 = p → usable t0 fs1 → usable t1 fs1) ∧
    refs t0 - Z.of_nat (points p fs) ≤ refs t1 < two64) →
  world_ok (mkWorld (ts' ++ [t]) (<[b := mkState (vals fs) [] rb (length (tries w))]> (states w))).
Proof. intros Hw Hb Ht Hr Hlen Hold. eapply move_ok; try done. right. by apply holds_usable. Qed.

(** State [b] is the only one that refers to its trie, which is updated in place. *)
Lemma inplace_ok w b fs t t' : world_ok w → states w !! b = Some fs → tries w !! leavesPtr fs = Some t → refs t ≤ 1 →
  holds_balances hash (vals fs) t' → refs t' = refs t →
  world_ok (mkWorld (<[leavesPtr fs := t']> (tries w)) (<[b := mkState (vals fs) [] (rebuildTrie fs) (leavesPtr fs)]> (states w))).
Proof.
  intros Hw Hb Ht Hr Hh Hr'. pose proof (wo_refs _ Hw _ _ Ht) as Hrefs. split; cbn [states tries].
  - intros b' fs1 [(-> & <-)|[Hne Hb']]%lookup_insert_Some.
    + split; [apply (wo_state _ Hw _ _ Hb)|]. exists t'. cbn [leavesPtr].
      split; [apply list_lookup_insert_eq; by eapply lookup_lt_Some|]. right. by apply holds_usable.
    + destruct (wo_state _ Hw _ _ Hb') as [Hf (t0 & Ht0 & Hu)]. split; [done|]. exists t0. split; [|done].
      rewrite list_lookup_insert_ne; [done|]. intros He. pose proof (count_two _ _ b b' fs fs1 ltac:(done) Hb Hb' eq_refl ltac:(done)). lia.
  - intros p t1 Hp. pose proof (count_insert_old p _ b fs (mkState (vals fs) [] (rebuildTrie fs) (leavesPtr fs)) Hb) as Hc.
    assert (Z.of_nat (count p (states w)) ≤ refs t1 < two64) as Hle.
    { apply list_lookup_insert_Some in Hp as [(<- & <- & _)|[_ Hp]]; [by rewrite Hr'|by apply Hw]. }
    unfold points in Hc. cbn [leavesPtr] in Hc. lia.
Qed.

Lemma fresh_trie vs (b : Id) : fits vs → ∃ t,
  NewFieldTrie hash procs Balances (fieldMap Balances) (Some (elementsOf b (mkState vs [] false 0))) ValidatorLimitForBalancesChunks = Ok t ∧
  holds_balances hash vs t ∧ refs t = 1.
Proof.
  intros Hf. destruct (NewFieldTrie_balances hash procs Hz (BuildEmptyCompositeSlice vs) b) as (t & HN & Ht & Hr);
    [done|exact Hf|]. exists t. split_and!; [exact HN|exact Ht|exact Hr].
Qed.

Lemma resetFieldTrie_run w b fs : states w !! b = Some fs → fits (vals fs) →
  ∃ t, resetFieldTrie hash procs b ValidatorLimitForBalancesChunks w =
    (Ok tt, mkWorld (tries w ++ [t]) (<[b := mkState (vals fs) [] (rebuildTrie fs) (length (tries w))]> (states w))) ∧
    holds_balances hash (vals fs) t ∧ refs t = 1.
Proof.
  intros Hb Hf. destruct (fresh_trie (vals fs) b Hf) as (t & HN & Ht & Hr). exists t. split; [|done].
  unfold resetFieldTrie, getState, allocTrie, putState, mbind, M_bind, mget, mmodify, mlift. rewrite Hb. cbn [mret M_ret].
  unfold elementsOf in *. cbn [vals] in HN. by rewrite HN.
Qed.

Lemma currentTrieRoot_run w b fs t : states w !! b = Some fs → tries w !! leavesPtr fs = Some t →
  holds_balances hash (vals fs) t → currentTrieRoot hash b w = (Ok (balance_root hash (vals fs)), w).
Proof.
  intros Hb Ht Hh. unfold currentTrieRoot, getState, getTrie, mbind, M_bind, mget, mlift. rewrite Hb. cbn [mret M_ret].
  by rewrite (at_Some _ _ _ Ht), (TrieRoot_balances _ _ _ Hh).
Qed.

Lemma recomputeAt_run w b fs t snap : tries w !! leavesPtr fs = Some t → fits (vals fs) → holds_balances hash snap t →
  (length snap ≤ length (vals fs))%nat → Forall (λ i, 0 ≤ i < len (vals fs)) (dirtyIndices fs) →
  covers (dirtyIndices fs) snap (vals fs) →
  ∃ t', recomputeAt hash (leavesPtr fs) (sorted_dirty fs) (elementsOf b fs) w =
      (Ok (balance_root hash (vals fs)), mkWorld (<[leavesPtr fs := t']> (tries w)) (states w)) ∧
    holds_balances hash (vals fs) t' ∧ refs t' = refs t.
Proof.
  intros Ht Hf Hs Hlen Hd Hc.
  destruct (RecomputeTrie_balances hash (BuildEmptyCompositeSlice (vals fs)) b snap (sorted_dirty fs) t)
    as (t' & Hrun & Ht' & Hr); [done|done|done|done|apply sorted_dirty_sorted| | |].
  - apply Forall_forall. intros i Hi%elem_of_sorted_dirty. rewrite Forall_forall in Hd. by apply Hd.
  - intros k Hk. apply elem_of_sorted_dirty. by apply Hc.
  - exists t'. split_and!; [|done|done]. unfold recomputeAt, elementsOf. by rewrite Ht, Hrun.
Qed.

(** The lists of the states are untouched. *)
Definition same_vals (w w' : World) : Prop := ∀ b, vals <$> states w' !! b = vals <$> states w !! b.
Lemma same_vals_insert w ts b fs fs' : states w !! b = Some fs → vals fs' = vals fs →
  same_vals w (mkWorld ts (<[b := fs']> (states w))).
Proof.
  intros Hb Hv b'. cbn [states]. destruct (decide (b = b')) as [<-|Hne].
  - rewrite lookup_insert_eq, Hb. cbn. by rewrite Hv.
  - by rewrite lookup_insert_ne.
Qed.

Definition root_ok (w : World) (b : Id) (vs : list Z) (m : M World Root) : Prop :=
  ∃ w', m w = (Ok (balance_root hash vs), w') ∧ world_ok w' ∧ same_vals w w'.

Lemma selector_rebuild w b fs : world_ok w → states w !! b = Some fs → rebuildTrie fs = true →
  root_ok w b (vals fs) (balancesRootSelector hash procs b).
Proof.
  intros Hw Hb Hrb. destruct (resetFieldTrie_run w b fs Hb) as (t & Hrun & Ht & Hr); [by eapply Hw|].
  set (fs' := mkState (vals fs) [] false (length (tries w))).
  exists (mkWorld (tries w ++ [t]) (<[b := fs']> (states w))). split_and!; [| |by apply (same_vals_insert _ _ _ fs)].
  - unfold balancesRootSelector. erewrite M_bind_Ok by (unfold getState, mbind, M_bind, mget; by rewrite Hb). rewrite Hrb.
    erewrite M_bind_Ok by exact Hrun.
    erewrite M_bind_Ok by (unfold getState, mbind, M_bind, mget; cbn [states]; by rewrite lookup_insert_eq).
    erewrite M_bind_Ok by (unfold putState, mmodify; cbn [states tries]; by rewrite insert_insert_eq).
    rewrite (currentTrieRoot_run _ b fs' t); [done|cbn; by rewrite lookup_insert_eq| |done].
    cbn. by rewrite lookup_app_r, Nat.sub_diag by lia.
  - apply fresh_ok; [done|done|done|done|done|]. intros p t0 Ht0. exists t0.
    pose proof (wo_refs _ Hw _ _ Ht0). split_and!; [done|done|lia|lia].
Qed.

Lemma MinusRef_lower t : 0 ≤ refs t → refs t - 1 ≤ refs (MinusRef t) ≤ refs t.
Proof. intros Ht. unfold MinusRef. destruct (Z.gtb_spec (refs t) 0); cbn; lia. Qed.
Lemma MinusRef_usable t fs : usable t fs → usable (MinusRef t) fs.
Proof. unfold MinusRef. destruct (_ >? _); [apply usable_refs|done]. Qed.

(** Releasing a trie. *)
Lemma release_old w b fs p : world_ok w → states w !! b = Some fs → p = leavesPtr fs →
  ∀ q t0, tries w !! q = Some t0 → ∃ t1, alter MinusRef p (tries w) !! q = Some t1 ∧
    (∀ b' fs1, b' ≠ b → states w !! b' = Some fs1 → leavesPtr fs1 = q → usable t0 fs1 → usable t1 fs1) ∧
    refs t0 - Z.of_nat (points q fs) ≤ refs t1 < two64.
Proof.
  intros Hw Hb -> q t0 Ht0. pose proof (wo_refs _ Hw _ _ Ht0). unfold points. case_decide as Hq.
  - subst q. exists (MinusRef t0). rewrite list_lookup_alter_eq, Ht0. pose proof (MinusRef_lower t0 ltac:(lia)).
    split_and!; [done|intros; by apply MinusRef_usable|lia..].
  - exists t0. rewrite list_lookup_alter_ne by done. split_and!; [done|done|lia..].
Qed.

Lemma alter_app_l {A} (f : A → A) p l l' : (p < length l)%nat → alter f p (l ++ l') = alter f p l ++ l'.
Proof. revert p. induction l as [|x l IH]; intros [|p] Hp; simpl in *; [lia|lia|done|]. f_equal. apply IH. lia. Qed.

Lemma selector_empty w b fs t : world_ok w → states w !! b = Some fs → rebuildTrie fs = false →
  tries w !! leavesPtr fs = Some t → usable t fs → Empty t = true →
  root_ok w b (vals fs) (balancesRootSelector hash procs b).
Proof.
  intros Hw Hb Hrb Ht Hu He. destruct (resetFieldTrie_run w b fs Hb) as (t' & Hrun & Ht' & Hr); [by eapply Hw|].
  rewrite Hrb in Hrun. set (fs' := mkState (vals fs) [] false (length (tries w))) in *.
  exists (mkWorld (alter MinusRef (leavesPtr fs) (tries w) ++ [t']) (<[b := fs']> (states w))).
  split_and!; [| |by apply (same_vals_insert _ _ _ fs)].
  - unfold balancesRootSelector. erewrite M_bind_Ok by (unfold getState, mbind, M_bind, mget; by rewrite Hb). rewrite Hrb.
    unfold recomputeFieldTrie. erewrite M_bind_Ok by (unfold getState, mbind, M_bind, mget; by rewrite Hb).
    erewrite M_bind_Ok by (unfold getTrie, mbind, M_bind, mget, mlift; by rewrite (at_Some _ _ _ Ht)). rewrite He, (u_length _ _ Hu).
    erewrite M_bind_Ok by exact Hrun. erewrite M_bind_Ok by (unfold modTrie, mmodify; reflexivity). cbn [tries states].
    rewrite alter_app_l by (by eapply lookup_lt_Some).
    rewrite (currentTrieRoot_run _ b fs' t'); [done|cbn; by rewrite lookup_insert_eq| |done].
    cbn. by rewrite lookup_app_r, length_alter, Nat.sub_diag by (rewrite length_alter; lia).
  - apply fresh_ok; [done|done|done|done|by rewrite length_alter|]. by apply release_old.
Qed.

(** What is left of a trie that was taken over serves any state, since it is empty. *)
Lemma transferred_usable t fs : Empty t = false → usable t fs → usable (MinusRef (TransferTrie t).2) fs.
Proof.
  intros He Hu. unfold Empty in He. apply orb_false_iff in He as [Hl _]. unfold TransferTrie. rewrite Hl. cbn [snd].
  apply MinusRef_usable. destruct Hu as [? ? ? ? _]. split; [done..|by left].
Qed.
Lemma transfer_refs t : refs (TransferTrie t).2 = refs t.
Proof. unfold TransferTrie. by destruct (_ =? _)%nat. Qed.
Lemma transfer_holds snap t : holds_balances hash snap t → holds_balances hash snap (TransferTrie t).1 ∧ refs (TransferTrie t).1 = 1.
Proof.
  intros Hs. unfold TransferTrie. pose proof (tracks_length _ _ _ _ (hb_tracks _ _ _ Hs)) as Hl.
  destruct (Nat.eqb_spec (length (fieldLayers t)) 0) as [H0|_]; [lia|]. split; [|done]. destruct Hs. by split.
Qed.

(** The last part of [recomputeFieldTrie], on a trie that only [b] refers to. *)
Definition finishRecompute (b : Id) : M World Root :=
  fs ← getState b;
  let sorted := merge_sort Z.le (SetUint64 (dirtyIndices fs)) in
  putState b (setDirty sorted fs);;
  root ← recomputeAt hash (leavesPtr fs) sorted (elementsOf b fs);
  putState b (setDirty [] fs);;
  mret root.

Lemma finish_run w b fs t snap : states w !! b = Some fs → tries w !! leavesPtr fs = Some t → fits (vals fs) →
  holds_balances hash snap t → (length snap ≤ length (vals fs))%nat →
  Forall (λ i, 0 ≤ i < len (vals fs)) (dirtyIndices fs) → covers (dirtyIndices fs) snap (vals fs) →
  ∃ t', finishRecompute b w = (Ok (balance_root hash (vals fs)),
      mkWorld (<[leavesPtr fs := t']> (tries w)) (<[b := setDirty [] fs]> (states w))) ∧
    holds_balances hash (vals fs) t' ∧ refs t' = refs t.
Proof.
  intros Hb Ht Hf Hs Hlen Hd Hc.
  destruct (recomputeAt_run (mkWorld (tries w) (<[b := setDirty (sorted_dirty fs) fs]> (states w))) b fs t snap Ht Hf Hs Hlen Hd Hc)
    as (t' & Hrun & Ht' & Hr). exists t'. split; [|done]. unfold finishRecompute.
  erewrite M_bind_Ok by (unfold getState, mbind, M_bind, mget; by rewrite Hb). cbn zeta. fold (sorted_dirty fs).
  erewrite M_bind_Ok by (unfold putState, mmodify; reflexivity). erewrite M_bind_Ok by exact Hrun.
  erewrite M_bind_Ok by (unfold putState, mmodify; reflexivity). cbn [tries states]. by rewrite insert_insert_eq.
Qed.

Lemma selector_transfer w b fs t snap : world_ok w → states w !! b = Some fs → rebuildTrie fs = false →
  tries w !! leavesPtr fs = Some t → usable t fs → Empty t = false → 1 < refs t →
  holds_balances hash snap t → (length snap ≤ length (vals fs))%nat → covers (dirtyIndices fs) snap (vals fs) →
  root_ok w b (vals fs) (balancesRootSelector hash procs b).
Proof.
  intros Hw Hb Hrb Ht Hu He Hr Hs Hlen Hc. destruct (transfer_holds snap t Hs) as [Hs1 Hr1].
  set (f := λ t, MinusRef (TransferTrie t).2). set (q := length (tries w)). set (fs1 := setPtr q fs).
  set (w1 := mkWorld (alter f (leavesPtr fs) (tries w) ++ [(TransferTrie t).1]) (<[b := fs1]> (states w))).
  pose proof (lookup_lt_Some _ _ _ Ht) as Hlt.
  destruct (finish_run w1 b fs1 (TransferTrie t).1 snap) as (t' & Hrun & Ht' & Hr');
    [by apply lookup_insert_eq| |apply (wo_state _ Hw _ _ Hb)|done|done|apply Hu|done|].
  { cbn. by rewrite lookup_app_r, length_alter, Nat.sub_diag by (rewrite length_alter; unfold q; lia). }
  eexists. split_and!; [| |].
  - unfold balancesRootSelector. erewrite M_bind_Ok by (unfold getState, mbind, M_bind, mget; by rewrite Hb). rewrite Hrb.
    unfold recomputeFieldTrie. erewrite M_bind_Ok by (unfold getState, mbind, M_bind, mget; by rewrite Hb).
    erewrite M_bind_Ok by (unfold getTrie, mbind, M_bind, mget, mlift; by rewrite (at_Some _ _ _ Ht)). rewrite He.
    erewrite M_bind_Ok; [exact Hrun|]. rewrite Z.gtb_ltb, (proj2 (Z.ltb_lt _ _)) by done.
    unfold allocTrie, modTrie, putState, mbind, M_bind, mget, mmodify, mret, M_ret. cbn [tries states].
    by rewrite alter_app_l by done.
  - subst w1. cbn [tries states]. rewrite insert_insert_eq.
    rewrite insert_app_r_alt by (rewrite length_alter; cbn; unfold q; lia). rewrite length_alter. cbn [leavesPtr fs1 setPtr].
    replace (q - length (tries w))%nat with 0%nat by (unfold q; lia). cbn [insert list_insert].
    change (setDirty [] fs1) with (mkState (vals fs) [] (rebuildTrie fs) (length (tries w))).
    apply fresh_ok; [done|done|exact Ht'|by rewrite Hr'|by rewrite length_alter|].
    intros p t0 Ht0. pose proof (wo_refs _ Hw _ _ Ht0). unfold points. case_decide as Hp.
    + subst p. rewrite Ht in Ht0. injection Ht0 as <-. exists (f t). rewrite list_lookup_alter_eq, Ht.
      pose proof (MinusRef_lower (TransferTrie t).2 ltac:(rewrite transfer_refs; lia)) as Hm. rewrite transfer_refs in Hm.
      split_and!; [done|intros; by apply transferred_usable|unfold f; lia..].
    + exists t0. rewrite list_lookup_alter_ne by done. split_and!; [done|done|lia..].
  - subst w1. cbn [tries states]. rewrite insert_insert_eq. by apply (same_vals_insert _ _ _ fs).
Qed.

Lemma selector_inplace w b fs t snap : world_ok w → states w !! b = Some fs → rebuildTrie fs = false →
  tries w !! leavesPtr fs = Some t → usable t fs → Empty t = false → refs t ≤ 1 →
  holds_balances hash snap t → (length snap ≤ length (vals fs))%nat → covers (dirtyIndices fs) snap (vals fs) →
  root_ok w b (vals fs) (balancesRootSelector hash procs b).
Proof.
  intros Hw Hb Hrb Ht Hu He Hr Hs Hlen Hc.
  destruct (finish_run w b fs t snap Hb Ht (proj1 (wo_state _ Hw _ _ Hb)) Hs Hlen (u_dirty _ _ Hu) Hc) as (t' & Hrun & Ht' & Hr').
  eexists (mkWorld _ (<[b := setDirty [] fs]> (states w))). split_and!; [|by eapply inplace_ok|by apply (same_vals_insert _ _ _ fs)].
  unfold balancesRootSelector. erewrite M_bind_Ok by (unfold getState, mbind, M_bind, mget; by rewrite Hb). rewrite Hrb.
  unfold recomputeFieldTrie. erewrite M_bind_Ok by (unfold getState, mbind, M_bind, mget; by rewrite Hb).
  erewrite M_bind_Ok by (unfold getTrie, mbind, M_bind, mget, mlift; by rewrite (at_Some _ _ _ Ht)). rewrite He.
  erewrite M_bind_Ok; [exact Hrun|]. by rewrite Z.gtb_ltb, (proj2 (Z.ltb_ge _ _)) by done.
Qed.

Lemma selector_ok w b fs : world_ok w → states w !! b = Some fs →
  root_ok w b (vals fs) (balancesRootSelector hash procs b).
Proof.
  intros Hw Hb. destruct (rebuildTrie fs) eqn:Hrb; [by apply selector_rebuild|].
  destruct (wo_state _ Hw _ _ Hb) as [_ (t & Ht & [?|Hu])]; [by rewrite Hrb in *|].
  destruct (Empty t) eqn:He; [by eapply selector_empty|].
  destruct (u_layers _ _ Hu) as [?|(snap & Hs & Hlen & Hc)]; [congruence|].
  destruct (decide (refs t ≤ 1)); [by eapply selector_inplace|]. eapply selector_transfer; [done..| |done|done|done]. lia.
Qed.

(** ** All histories *)
Inductive reach : World → Prop :=
  | reach_init b balances : fits balances → reach (initialWorld b balances)
  | reach_update w b idx v : reach w → 0 ≤ idx → reach (UpdateBalancesAtIndex b idx v w).2
  | reach_append w b bal : reach w → (∀ fs, states w !! b = Some fs → len (vals fs) < ValidatorRegistryLimit) →
      reach (AppendBalance b bal w).2
  | reach_set w b balances : reach w → fits balances → reach (SetBalances b balances w).2
  | reach_copy w b dst : reach w → states w !! dst = None →
      (∀ fs t, states w !! b = Some fs → tries w !! leavesPtr fs = Some t → refs t < MaxUint64) →
      reach (CopyState b dst w).2
  | reach_finalize w b : reach w → reach (finalizerCleanup b w).2
  | reach_copy_tries w b : reach w → reach (CopyAllTries b w).2
  | reach_root w b : reach w → reach (balancesRootSelector hash procs b w).2.

Lemma getState_None {A} w b (k : FieldState → M World A) : states w !! b = None → (getState b ≫= k) w = (Panic, w).
Proof. intros Hb. unfold getState, mbind, M_bind, mget. by rewrite Hb. Qed.
Lemma getState_Some {A} w b fs (k : FieldState → M World A) : states w !! b = Some fs → (getState b ≫= k) w = k fs w.
Proof. intros Hb. unfold getState, mbind, M_bind, mget. by rewrite Hb. Qed.

Lemma update_reach w b idx v : world_ok w → 0 ≤ idx → world_ok (UpdateBalancesAtIndex b idx v w).2.
Proof.
  intros Hw Hi. unfold UpdateBalancesAtIndex. destruct (states w !! b) as [fs|] eqn:Hb; [|by rewrite getState_None].
  rewrite (getState_Some _ _ _ _ Hb). destruct (Nat.ltb_spec (Z.to_nat idx) (length (vals fs))) as [Hlt|]; [|done].
  destruct (wo_state _ Hw _ _ Hb) as [Hf _]. unfold fits, len in *.
  apply dirty_write_ok; [done|done|unfold fits, len..|]; rewrite ?length_insert; try lia.
  intros k Hk. destruct (decide (k = Z.to_nat idx)) as [->|Hne]; [lia|]. by rewrite list_lookup_insert_ne in Hk by done.
Qed.

Lemma append_reach w b bal : world_ok w → (∀ fs, states w !! b = Some fs → len (vals fs) < ValidatorRegistryLimit) →
  world_ok (AppendBalance b bal w).2.
Proof.
  intros Hw Hroom. unfold AppendBalance. destruct (states w !! b) as [fs|] eqn:Hb; [|by rewrite getState_None].
  rewrite (getState_Some _ _ _ _ Hb). specialize (Hroom fs eq_refl). cbn zeta. cbn [vals setVals].
  unfold len in *. rewrite length_app. cbn [length]. rewrite u64_small by (unfold is_u64, ValidatorRegistryLimit in *; lia).
  apply dirty_write_ok; [done|done|unfold fits, len..|]; rewrite ?length_app; cbn [length]; try lia.
  intros k Hk. destruct (decide (k < length (vals fs))%nat) as [Hlt|Hge]; [by rewrite lookup_app_l in Hk|].
  rewrite lookup_app_r, lookup_ge_None_2 in Hk by lia. destruct (k - length (vals fs))%nat eqn:E; [lia|done].
Qed.

Lemma copy_reach w b dst : world_ok w → states w !! dst = None →
  (∀ fs t, states w !! b = Some fs → tries w !! leavesPtr fs = Some t → refs t < MaxUint64) → world_ok (CopyState b dst w).2.
Proof.
  intros Hw Hd Hmax. unfold CopyState. destruct (states w !! b) as [fs|] eqn:Hb; [|by rewrite getState_None].
  rewrite (getState_Some _ _ _ _ Hb). destruct (wo_state _ Hw _ _ Hb) as [Hf (t & Ht & Hu)]. specialize (Hmax fs t eq_refl Ht).
  pose proof (wo_refs _ Hw _ _ Ht) as Hrefs. assert (refs (AddRef t) = refs t + 1) as Hadd.
  { unfold AddRef. cbn. apply u64_small. unfold is_u64. lia. }
  assert (∀ fs1, state_ok (tries w) fs1 → state_ok (alter AddRef (leavesPtr fs) (tries w)) fs1) as Hkeep.
  { intros fs1 [Hf1 (t1 & Ht1 & Hu1)]. split; [done|]. destruct (decide (leavesPtr fs1 = leavesPtr fs)) as [Hp|Hp].
    - rewrite Hp in *. exists (AddRef t1). rewrite list_lookup_alter_eq, Ht1. split; [done|].
      destruct Hu1; [by left|right; by apply usable_refs].
    - exists t1. by rewrite list_lookup_alter_ne by done. }
  unfold putState, modTrie, mbind, M_bind, mmodify. cbn [snd tries states]. split; cbn [states tries].
  - intros b' fs1 [(-> & <-)|[_ Hb']]%lookup_insert_Some; apply Hkeep; by eapply Hw.
  - intros p t1 Hp. rewrite count_insert_new by done. unfold points. case_decide as Hpf.
    + subst p. rewrite list_lookup_alter_eq, Ht in Hp. injection Hp as <-. lia.
    + rewrite list_lookup_alter_ne in Hp by done. pose proof (wo_refs _ Hw _ _ Hp). lia.
Qed.

Lemma CopyTrie_usable t fs : usable t fs → usable (CopyTrie t) fs.
Proof.
  intros [? ? ? ? Hl]. unfold CopyTrie. destruct (length (fieldLayers t) =? 0)%nat eqn:E; split; try done; [by left|].
  unfold Empty in *. cbn. destruct Hl as [?|(snap & Hs & ?)]; [by left|right]. exists snap. split; [|done]. destruct Hs. by split.
Qed.

Lemma copy_tries_reach w b : world_ok w → world_ok (CopyAllTries b w).2.
Proof.
  intros Hw. unfold CopyAllTries. destruct (states w !! b) as [fs|] eqn:Hb; [|by rewrite getState_None].
  rewrite (getState_Some _ _ _ _ Hb). destruct (wo_state _ Hw _ _ Hb) as [Hf (t & Ht & Hu)].
  erewrite M_bind_Ok by (unfold getTrie, mbind, M_bind, mget, mlift; by rewrite (at_Some _ _ _ Ht)).
  destruct (refs t >? 1); [|done]. erewrite M_bind_Ok by (unfold modTrie, mmodify; reflexivity).
  erewrite M_bind_Ok by (unfold getTrie, mbind, M_bind, mget, mlift; cbn [tries];
    erewrite at_Some by (rewrite list_lookup_alter_eq, Ht; reflexivity); reflexivity).
  unfold allocTrie, putState, mbind, M_bind, mget, mmodify, mret, M_ret. cbn [snd tries states].
  apply move_ok with (fs := fs); [done|done|done|cbn; by rewrite length_alter| | |by rewrite length_alter|by apply release_old].
  - destruct Hu as [?|Hu]; [by left|right]. apply CopyTrie_usable, MinusRef_usable. destruct Hu. by split.
  - unfold CopyTrie. by destruct (_ =? _)%nat.
Qed.

Lemma reach_ok w : reach w → world_ok w.
Proof.
  induction 1 as [b balances Hf|w b idx v _ IH Hi|w b bal _ IH Hr|w b l _ IH Hf|w b dst _ IH Hd Hm|w b _ IH|w b _ IH|w b _ IH].
  - split; cbn [initialWorld states tries].
    + intros b' fs [<- <-]%lookup_singleton_Some. split; [done|]. eexists. split; [done|by left].
    + intros p t [-> <-]%list_lookup_singleton_Some. cbn [refs]. unfold count.
      pose proof (map_size_filter (λ kv : Id * FieldState, leavesPtr kv.2 = 0%nat) {[b := mkState balances [] true 0%nat]}) as Hs.
      rewrite map_size_singleton in Hs. lia.
  - by apply update_reach.
  - by apply append_reach.
  - unfold SetBalances. destruct (states w !! b) as [fs|] eqn:Hb; [|by rewrite getState_None].
    rewrite (getState_Some _ _ _ _ Hb). destruct (wo_state _ IH _ _ Hb) as [_ (t & Ht & _)].
    eapply write_ok; [done|done|done|]. split; [done|]. exists t. split; [done|by left].
  - by apply copy_reach.
  - split; cbn [finalizerCleanup mmodify snd states tries].
    + intros b' fs Hb'%lookup_delete_Some. by eapply IH, Hb'.
    + intros p t Ht. pose proof (wo_refs _ IH _ _ Ht). destruct (states w !! b) as [fs|] eqn:Hb; [|by rewrite delete_id].
      pose proof (count_delete p _ b fs Hb). lia.
  - by apply copy_tries_reach.
  - destruct (states w !! b) as [fs|] eqn:Hb; [|unfold balancesRootSelector; by rewrite getState_None].
    destruct (selector_ok w b fs IH Hb) as (w' & -> & Hw' & _). done.
Qed.
End world.

(** C8: after any history of balance updates, appends and replacements, state copies,
    finalizations, trie copies and root computations over any number of states that share
    field tries, computing the root of the balances of any live state succeeds, returns
    exactly the SSZ list root that [Uint64ListRootWithRegistryLimit] computes from scratch
    from that state's own balances, and changes no state's balances: neither the cached
    layers, nor the dirty indices, nor the hand-over of a trie to another state can make
    the root stale. *)
Theorem balances_root_never_stale (hash : list Z → Root) procs w b fs :
  zero_hashes_ok hash → reach hash procs w → states w !! b = Some fs →
  ∃ root w', balancesRootSelector hash procs b w = (Ok root, w') ∧
    Uint64ListRootWithRegistryLimit hash procs (vals fs) = Ok root ∧ same_vals w w'.
Proof.
  intros Hz Hw Hb. apply reach_ok in Hw; [|done].
  destruct (selector_ok hash procs Hz w b fs Hw Hb) as (w' & Hrun & _ & Hs).
  exists (balance_root hash (vals fs)), w'. split_and!; [done| |done]. apply Uint64ListRoot_balances; [done|]. by eapply Hw.
Qed.

(** State 1 computes its root, is copied to state 2, and state 2 writes and takes the trie
    over; state 1 is left with an emptied trie. *)
Definition ex_w1 : World := (balancesRootSelector Sha256.sha256 4 1 (initialWorld 1 [10; 20; 30; 40; 50])).2.
Definition ex_w2 : World := (CopyState 1 2 ex_w1).2.
Definition ex_w3 : World := (UpdateBalancesAtIndex 2 4 99 ex_w2).2.
Definition ex_w4 : World := (balancesRootSelector Sha256.sha256 4 2 ex_w3).2.
Definition ex_fs : FieldState := mkState [10; 20; 30; 40; 50] [] false 1.

Lemma ex_reach : reach Sha256.sha256 4 ex_w4.
Proof.
  apply reach_root, reach_update; [apply reach_copy; [apply reach_root, reach_init; by vm_compute|by vm_compute|]|done].
  intros fs t Hfs Ht. assert (states ex_w1 !! 1 = Some ex_fs) as H1 by (vm_compute; reflexivity).
  change (states ex_w1 !! 1 = Some fs) in Hfs. rewrite H1 in Hfs. injection Hfs as <-. change (tries ex_w1 !! 1%nat = Some t) in Ht.
  assert (refs <$> tries ex_w1 !! 1%nat = Some 1) as H2 by (vm_compute; reflexivity).
  rewrite Ht in H2. injection H2 as ->. done.
Qed.

Lemma balances_root_never_stale_witness :
  ∃ root w', balancesRootSelector Sha256.sha256 4 1 ex_w4 = (Ok root, w') ∧
    Uint64ListRootWithRegistryLimit Sha256.sha256 4 (vals ex_fs) = Ok root ∧ same_vals ex_w4 w'.
Proof.
  apply balances_root_never_stale; [apply sha256_zero_hashes|apply ex_reach|vm_compute; reflexivity].
Defined.
