(* ===== verification/EpochConfig.v ===== *)
(** * config/params/config.go: the fields the epoch transition reads

    The same Go struct as in Config.v; the fields that only the balance, registry
    and reward code reads are a class of their own, so that slot timing and fork
    choice do not depend on them.  [quo] and [rem] are Go's [/] and [%] on
    [uint64], which panic on a zero divisor. *)
From S2P Require Import Prelude.

Class EpochConfig := {
  SlotsPerHistoricalRoot : Z;
  EffectiveBalanceIncrement : Z;
  MaxEffectiveBalance : Z;
  MaxEffectiveBalanceElectra : Z;
  MinActivationBalance : Z;
  EjectionBalance : Z;
  HysteresisQuotient : Z;
  HysteresisDownwardMultiplier : Z;
  HysteresisUpwardMultiplier : Z;
  MinPerEpochChurnLimit : Z;
  MinPerEpochChurnLimitElectra : Z;
  MaxPerEpochActivationChurnLimit : Z;
  MaxPerEpochActivationExitChurnLimit : Z;
  ChurnLimitQuotient : Z;
  MaxSeedLookahead : Z;
  MinValidatorWithdrawabilityDelay : Z;
  EpochsPerSlashingsVector : Z;
  InactivityScoreBias : Z;
  InactivityScoreRecoveryRate : Z;
  MinEpochsToInactivityPenalty : Z;
  InactivityPenaltyQuotient : Z;
  InactivityPenaltyQuotientAltair : Z;
  InactivityPenaltyQuotientBellatrix : Z;
  ProportionalSlashingMultiplier : Z;
  ProportionalSlashingMultiplierAltair : Z;
  ProportionalSlashingMultiplierBellatrix : Z;
  MinSlashingPenaltyQuotient : Z;
  MinSlashingPenaltyQuotientAltair : Z;
  MinSlashingPenaltyQuotientBellatrix : Z;
  MinSlashingPenaltyQuotientElectra : Z;
  ProposerRewardQuotient : Z;
  WhistleBlowerRewardQuotient : Z;
  WhistleBlowerRewardQuotientElectra : Z;
  BaseRewardFactor : Z;
  TimelySourceFlagIndex : Z;
  TimelyTargetFlagIndex : Z;
  TimelyHeadFlagIndex : Z;
  TimelySourceWeight : Z;
  TimelyTargetWeight : Z;
  TimelyHeadWeight : Z;
  WeightDenominator : Z
}.

Definition quo (a b : Z) : gores Z := if b =? 0 then Panic else Ok (a / b).
Definition rem (a b : Z) : gores Z := if b =? 0 then Panic else Ok (a mod b).

Lemma quo_pos a b : 0 < b → quo a b = Ok (a / b).
Proof. intros. unfold quo. destruct (Z.eqb_spec b 0); [lia|done]. Qed.
Lemma rem_pos a b : 0 < b → rem a b = Ok (a mod b).
Proof. intros. unfold rem. destruct (Z.eqb_spec b 0); [lia|done]. Qed.

(** Mainnet values (config/params/mainnet_config.go). *)
Definition mainnet_epoch_config : EpochConfig := {|
  SlotsPerHistoricalRoot := 8192; EffectiveBalanceIncrement := 1000000000;
  MaxEffectiveBalance := 32000000000; MaxEffectiveBalanceElectra := 2048000000000;
  MinActivationBalance := 32000000000; EjectionBalance := 16000000000;
  HysteresisQuotient := 4; HysteresisDownwardMultiplier := 1; HysteresisUpwardMultiplier := 5;
  MinPerEpochChurnLimit := 4; MinPerEpochChurnLimitElectra := 128000000000;
  MaxPerEpochActivationChurnLimit := 8; MaxPerEpochActivationExitChurnLimit := 256000000000;
  ChurnLimitQuotient := 65536; MaxSeedLookahead := 4; MinValidatorWithdrawabilityDelay := 256;
  EpochsPerSlashingsVector := 8192; InactivityScoreBias := 4; InactivityScoreRecoveryRate := 16;
  MinEpochsToInactivityPenalty := 4; InactivityPenaltyQuotient := 67108864;
  InactivityPenaltyQuotientAltair := 50331648; InactivityPenaltyQuotientBellatrix := 16777216;
  ProportionalSlashingMultiplier := 1; ProportionalSlashingMultiplierAltair := 2;
  ProportionalSlashingMultiplierBellatrix := 3; MinSlashingPenaltyQuotient := 128;
  MinSlashingPenaltyQuotientAltair := 64; MinSlashingPenaltyQuotientBellatrix := 32;
  MinSlashingPenaltyQuotientElectra := 4096; ProposerRewardQuotient := 8;
  WhistleBlowerRewardQuotient := 512; WhistleBlowerRewardQuotientElectra := 4096;
  BaseRewardFactor := 64; TimelySourceFlagIndex := 0; TimelyTargetFlagIndex := 1;
  TimelyHeadFlagIndex := 2; TimelySourceWeight := 14; TimelyTargetWeight := 26;
  TimelyHeadWeight := 14; WeightDenominator := 64
|}.

(** ** config/params/config.go: the fields the block operations read

    The same Go struct as in Config.v and EpochConfig.v: the limits of the withdrawal sweep
    and of the queues of Electra, and the prefixes of withdrawal credentials. *)
Class OperationsConfig := {
  BLSWithdrawalPrefixByte : Z;
  ETH1AddressWithdrawalPrefixByte : Z;
  CompoundingWithdrawalPrefixByte : Z;
  MaxWithdrawalsPerPayload : Z;
  MaxValidatorsPerWithdrawalsSweep : Z;
  MaxPendingPartialsPerWithdrawalsSweep : Z;
  PendingPartialWithdrawalsLimit : Z;
  PendingConsolidationsLimit : Z;
  MaxPendingDepositsPerEpoch : Z;
  MaxDeposits : Z;
  DepositContractTreeDepth : Z;
  FullExitRequestAmount : Z;
  UnsetDepositRequestsStartIndex : Z;
  ShardCommitteePeriod : Z;
  GenesisSlot : Z;
  ProposerWeight : Z;
  SyncRewardWeight : Z;
  SyncCommitteeSize : Z;
  SqrRootSlotsPerEpoch : Z;
  MinAttestationInclusionDelay : Z;
  MaxValidatorsPerCommittee : Z;
  MaxProposerSlashings : Z;
  MaxAttesterSlashings : Z;
  MaxAttesterSlashingsElectra : Z;
  MaxVoluntaryExits : Z;
  MaxBlsToExecutionChanges : Z
}.

(** Mainnet and minimal values (config/params/mainnet_config.go, minimal_config.go). *)
Definition mainnet_operations_config : OperationsConfig := {|
  BLSWithdrawalPrefixByte := 0; ETH1AddressWithdrawalPrefixByte := 1; CompoundingWithdrawalPrefixByte := 2;
  MaxWithdrawalsPerPayload := 16; MaxValidatorsPerWithdrawalsSweep := 16384;
  MaxPendingPartialsPerWithdrawalsSweep := 8; PendingPartialWithdrawalsLimit := 134217728;
  PendingConsolidationsLimit := 262144; MaxPendingDepositsPerEpoch := 16; MaxDeposits := 16;
  DepositContractTreeDepth := 32; FullExitRequestAmount := 0;
  UnsetDepositRequestsStartIndex := MaxUint64; ShardCommitteePeriod := 256; GenesisSlot := 0;
  ProposerWeight := 8; SyncRewardWeight := 2; SyncCommitteeSize := 512; SqrRootSlotsPerEpoch := 5; MinAttestationInclusionDelay := 1; MaxValidatorsPerCommittee := 2048;
  MaxProposerSlashings := 16; MaxAttesterSlashings := 2; MaxAttesterSlashingsElectra := 1;
  MaxVoluntaryExits := 16; MaxBlsToExecutionChanges := 16
|}.
Definition minimal_operations_config : OperationsConfig := {|
  BLSWithdrawalPrefixByte := 0; ETH1AddressWithdrawalPrefixByte := 1; CompoundingWithdrawalPrefixByte := 2;
  MaxWithdrawalsPerPayload := 4; MaxValidatorsPerWithdrawalsSweep := 16;
  MaxPendingPartialsPerWithdrawalsSweep := 2; PendingPartialWithdrawalsLimit := 64;
  PendingConsolidationsLimit := 64; MaxPendingDepositsPerEpoch := 16; MaxDeposits := 16;
  DepositContractTreeDepth := 32; FullExitRequestAmount := 0;
  UnsetDepositRequestsStartIndex := MaxUint64; ShardCommitteePeriod := 64; GenesisSlot := 0;
  ProposerWeight := 8; SyncRewardWeight := 2; SyncCommitteeSize := 32; SqrRootSlotsPerEpoch := 2; MinAttestationInclusionDelay := 1; MaxValidatorsPerCommittee := 2048;
  MaxProposerSlashings := 16; MaxAttesterSlashings := 2; MaxAttesterSlashingsElectra := 1;
  MaxVoluntaryExits := 16; MaxBlsToExecutionChanges := 16
|}.
