(* ===== verification/BeaconState.v ===== *)
(** * The beacon state and the helpers of the epoch transition

    beacon-chain/state/state-native (the fields, getters and setters the modelled code
    uses), and the predicates, balances and churn limits of beacon-chain/core/helpers
    (validators.go, rewards_penalties.go, validator_churn.go, block.go).

    The multi-value slices of the state (validators, balances, inactivity scores, block
    and state roots) are plain lists here, which is what MVSliceTheorems.v proves them to
    behave as.  Locks, dirty-field tracking and the trie are not part of the state.  Every
    getter returns a copy, so checkpoints and validators are values.  The balance and
    committee caches memoise [TotalActiveBalance] and [ActiveValidatorCount] and are left
    out: the definitions are what a miss computes.  A root is a number. *)
From S2P Require Import Prelude MathHelper Primitives Config SlotTime MVSlice EpochConfig.

(** ** Data *)
Record Validator := mkValidator {
  EffectiveBalance : Z;
  Slashed : bool;
  ActivationEligibilityEpoch : Z;
  ActivationEpoch : Z;
  ExitEpoch : Z;
  WithdrawableEpoch : Z;
  PublicKey : list Z;
  WithdrawalCredentials : list Z
}.

Record Checkpoint := mkCheckpoint { Epoch_ : Z; Root : Z }.
#[export] Instance Checkpoint_eq_dec : EqDecision Checkpoint.
Proof. solve_decision. Defined.

(** The queues of Electra. *)
Module PendingPartialWithdrawal.
Record t := mk { Index : Z; Amount : Z; WithdrawableEpoch : Z }.
End PendingPartialWithdrawal.
Module PendingDeposit.
Record t := mk {
  PublicKey : list Z;
  WithdrawalCredentials : list Z;
  Amount : Z;
  Signature : list Z;
  Slot : Z
}.
End PendingDeposit.
Module PendingConsolidation.
Record t := mk { SourceIndex : Z; TargetIndex : Z }.
End PendingConsolidation.
Record Eth1Data := mkEth1Data { DepositRoot : list Z; DepositCount : Z }.

(** [valIdxMap] is the map of the validator map handler, from a public key to an index. *)
Record BeaconState := mkState {
  version : Z;
  slot : Z;
  validators : list Validator;
  balances : list Z;
  slashings : list Z;
  inactivityScores : list Z;
  currentEpochParticipation : list Z;
  previousEpochParticipation : list Z;
  blockRoots : list Z;
  stateRoots : list Z;
  justificationBits : list Z;
  previousJustifiedCheckpoint : Checkpoint;
  currentJustifiedCheckpoint : Checkpoint;
  finalizedCheckpoint : Checkpoint;
  exitBalanceToConsume : Z;
  earliestExitEpoch : Z;
  consolidationBalanceToConsume : Z;
  earliestConsolidationEpoch : Z;
  randaoMixes : list (list Z);
  proposerLookahead : list Z;
  nextWithdrawalIndex : Z;
  nextWithdrawalValidatorIndex : Z;
  pendingPartialWithdrawals : list PendingPartialWithdrawal.t;
  pendingDeposits : list PendingDeposit.t;
  pendingConsolidations : list PendingConsolidation.t;
  depositBalanceToConsume : Z;
  depositRequestsStartIndex : Z;
  eth1DepositIndex : Z;
  eth1Data : Eth1Data;
  valIdxMap : gmap (list Z) Z
}.

Definition set_validators (validators' : list Validator) (s : BeaconState) : BeaconState :=
  mkState
    (version s) (slot s) validators' (balances s) (slashings s) (inactivityScores s)
    (currentEpochParticipation s) (previousEpochParticipation s) (blockRoots s) (stateRoots s)
    (justificationBits s) (previousJustifiedCheckpoint s) (currentJustifiedCheckpoint s)
    (finalizedCheckpoint s) (exitBalanceToConsume s) (earliestExitEpoch s)
    (consolidationBalanceToConsume s) (earliestConsolidationEpoch s)
    (randaoMixes s) (proposerLookahead s) (nextWithdrawalIndex s) (nextWithdrawalValidatorIndex s)
    (pendingPartialWithdrawals s) (pendingDeposits s) (pendingConsolidations s)
    (depositBalanceToConsume s) (depositRequestsStartIndex s) (eth1DepositIndex s)
    (eth1Data s) (valIdxMap s).
Definition set_balances (balances' : list Z) (s : BeaconState) : BeaconState :=
  mkState
    (version s) (slot s) (validators s) balances' (slashings s) (inactivityScores s)
    (currentEpochParticipation s) (previousEpochParticipation s) (blockRoots s) (stateRoots s)
    (justificationBits s) (previousJustifiedCheckpoint s) (currentJustifiedCheckpoint s)
    (finalizedCheckpoint s) (exitBalanceToConsume s) (earliestExitEpoch s)
    (consolidationBalanceToConsume s) (earliestConsolidationEpoch s)
    (randaoMixes s) (proposerLookahead s) (nextWithdrawalIndex s) (nextWithdrawalValidatorIndex s)
    (pendingPartialWithdrawals s) (pendingDeposits s) (pendingConsolidations s)
    (depositBalanceToConsume s) (depositRequestsStartIndex s) (eth1DepositIndex s)
    (eth1Data s) (valIdxMap s).
Definition set_slashings (slashings' : list Z) (s : BeaconState) : BeaconState :=
  mkState
    (version s) (slot s) (validators s) (balances s) slashings' (inactivityScores s)
    (currentEpochParticipation s) (previousEpochParticipation s) (blockRoots s) (stateRoots s)
    (justificationBits s) (previousJustifiedCheckpoint s) (currentJustifiedCheckpoint s)
    (finalizedCheckpoint s) (exitBalanceToConsume s) (earliestExitEpoch s)
    (consolidationBalanceToConsume s) (earliestConsolidationEpoch s)
    (randaoMixes s) (proposerLookahead s) (nextWithdrawalIndex s) (nextWithdrawalValidatorIndex s)
    (pendingPartialWithdrawals s) (pendingDeposits s) (pendingConsolidations s)
    (depositBalanceToConsume s) (depositRequestsStartIndex s) (eth1DepositIndex s)
    (eth1Data s) (valIdxMap s).
Definition set_inactivityScores (inactivityScores' : list Z) (s : BeaconState) : BeaconState :=
  mkState
    (version s) (slot s) (validators s) (balances s) (slashings s) inactivityScores'
    (currentEpochParticipation s) (previousEpochParticipation s) (blockRoots s) (stateRoots s)
    (justificationBits s) (previousJustifiedCheckpoint s) (currentJustifiedCheckpoint s)
    (finalizedCheckpoint s) (exitBalanceToConsume s) (earliestExitEpoch s)
    (consolidationBalanceToConsume s) (earliestConsolidationEpoch s)
    (randaoMixes s) (proposerLookahead s) (nextWithdrawalIndex s) (nextWithdrawalValidatorIndex s)
    (pendingPartialWithdrawals s) (pendingDeposits s) (pendingConsolidations s)
    (depositBalanceToConsume s) (depositRequestsStartIndex s) (eth1DepositIndex s)
    (eth1Data s) (valIdxMap s).
Definition set_justificationBits (justificationBits' : list Z) (s : BeaconState) : BeaconState :=
  mkState
    (version s) (slot s) (validators s) (balances s) (slashings s) (inactivityScores s)
    (currentEpochParticipation s) (previousEpochParticipation s) (blockRoots s) (stateRoots s)
    justificationBits' (previousJustifiedCheckpoint s) (currentJustifiedCheckpoint s)
    (finalizedCheckpoint s) (exitBalanceToConsume s) (earliestExitEpoch s)
    (consolidationBalanceToConsume s) (earliestConsolidationEpoch s)
    (randaoMixes s) (proposerLookahead s) (nextWithdrawalIndex s) (nextWithdrawalValidatorIndex s)
    (pendingPartialWithdrawals s) (pendingDeposits s) (pendingConsolidations s)
    (depositBalanceToConsume s) (depositRequestsStartIndex s) (eth1DepositIndex s)
    (eth1Data s) (valIdxMap s).
Definition set_previousJustified (previousJustifiedCheckpoint' : Checkpoint) (s : BeaconState) : BeaconState :=
  mkState
    (version s) (slot s) (validators s) (balances s) (slashings s) (inactivityScores s)
    (currentEpochParticipation s) (previousEpochParticipation s) (blockRoots s) (stateRoots s)
    (justificationBits s) previousJustifiedCheckpoint' (currentJustifiedCheckpoint s)
    (finalizedCheckpoint s) (exitBalanceToConsume s) (earliestExitEpoch s)
    (consolidationBalanceToConsume s) (earliestConsolidationEpoch s)
    (randaoMixes s) (proposerLookahead s) (nextWithdrawalIndex s) (nextWithdrawalValidatorIndex s)
    (pendingPartialWithdrawals s) (pendingDeposits s) (pendingConsolidations s)
    (depositBalanceToConsume s) (depositRequestsStartIndex s) (eth1DepositIndex s)
    (eth1Data s) (valIdxMap s).
Definition set_currentJustified (currentJustifiedCheckpoint' : Checkpoint) (s : BeaconState) : BeaconState :=
  mkState
    (version s) (slot s) (validators s) (balances s) (slashings s) (inactivityScores s)
    (currentEpochParticipation s) (previousEpochParticipation s) (blockRoots s) (stateRoots s)
    (justificationBits s) (previousJustifiedCheckpoint s) currentJustifiedCheckpoint'
    (finalizedCheckpoint s) (exitBalanceToConsume s) (earliestExitEpoch s)
    (consolidationBalanceToConsume s) (earliestConsolidationEpoch s)
    (randaoMixes s) (proposerLookahead s) (nextWithdrawalIndex s) (nextWithdrawalValidatorIndex s)
    (pendingPartialWithdrawals s) (pendingDeposits s) (pendingConsolidations s)
    (depositBalanceToConsume s) (depositRequestsStartIndex s) (eth1DepositIndex s)
    (eth1Data s) (valIdxMap s).
Definition set_finalized (finalizedCheckpoint' : Checkpoint) (s : BeaconState) : BeaconState :=
  mkState
    (version s) (slot s) (validators s) (balances s) (slashings s) (inactivityScores s)
    (currentEpochParticipation s) (previousEpochParticipation s) (blockRoots s) (stateRoots s)
    (justificationBits s) (previousJustifiedCheckpoint s) (currentJustifiedCheckpoint s)
    finalizedCheckpoint' (exitBalanceToConsume s) (earliestExitEpoch s)
    (consolidationBalanceToConsume s) (earliestConsolidationEpoch s)
    (randaoMixes s) (proposerLookahead s) (nextWithdrawalIndex s) (nextWithdrawalValidatorIndex s)
    (pendingPartialWithdrawals s) (pendingDeposits s) (pendingConsolidations s)
    (depositBalanceToConsume s) (depositRequestsStartIndex s) (eth1DepositIndex s)
    (eth1Data s) (valIdxMap s).
Definition set_exitChurn (exitBalanceToConsume' : Z) (earliestExitEpoch' : Z) (s : BeaconState) : BeaconState :=
  mkState
    (version s) (slot s) (validators s) (balances s) (slashings s) (inactivityScores s)
    (currentEpochParticipation s) (previousEpochParticipation s) (blockRoots s) (stateRoots s)
    (justificationBits s) (previousJustifiedCheckpoint s) (currentJustifiedCheckpoint s)
    (finalizedCheckpoint s) exitBalanceToConsume' earliestExitEpoch'
    (consolidationBalanceToConsume s) (earliestConsolidationEpoch s)
    (randaoMixes s) (proposerLookahead s) (nextWithdrawalIndex s) (nextWithdrawalValidatorIndex s)
    (pendingPartialWithdrawals s) (pendingDeposits s) (pendingConsolidations s)
    (depositBalanceToConsume s) (depositRequestsStartIndex s) (eth1DepositIndex s)
    (eth1Data s) (valIdxMap s).
Definition set_consolidationChurn (consolidationBalanceToConsume' : Z) (earliestConsolidationEpoch' : Z) (s : BeaconState) : BeaconState :=
  mkState
    (version s) (slot s) (validators s) (balances s) (slashings s) (inactivityScores s)
    (currentEpochParticipation s) (previousEpochParticipation s) (blockRoots s) (stateRoots s)
    (justificationBits s) (previousJustifiedCheckpoint s) (currentJustifiedCheckpoint s)
    (finalizedCheckpoint s) (exitBalanceToConsume s) (earliestExitEpoch s)
    consolidationBalanceToConsume' earliestConsolidationEpoch'
    (randaoMixes s) (proposerLookahead s) (nextWithdrawalIndex s) (nextWithdrawalValidatorIndex s)
    (pendingPartialWithdrawals s) (pendingDeposits s) (pendingConsolidations s)
    (depositBalanceToConsume s) (depositRequestsStartIndex s) (eth1DepositIndex s)
    (eth1Data s) (valIdxMap s).
Definition set_nextWithdrawalIndex (nextWithdrawalIndex' : Z) (s : BeaconState) : BeaconState :=
  mkState
    (version s) (slot s) (validators s) (balances s) (slashings s) (inactivityScores s)
    (currentEpochParticipation s) (previousEpochParticipation s) (blockRoots s) (stateRoots s)
    (justificationBits s) (previousJustifiedCheckpoint s) (currentJustifiedCheckpoint s)
    (finalizedCheckpoint s) (exitBalanceToConsume s) (earliestExitEpoch s)
    (consolidationBalanceToConsume s) (earliestConsolidationEpoch s)
    (randaoMixes s) (proposerLookahead s) nextWithdrawalIndex' (nextWithdrawalValidatorIndex s)
    (pendingPartialWithdrawals s) (pendingDeposits s) (pendingConsolidations s)
    (depositBalanceToConsume s) (depositRequestsStartIndex s) (eth1DepositIndex s)
    (eth1Data s) (valIdxMap s).
Definition set_nextWithdrawalValidatorIndex (nextWithdrawalValidatorIndex' : Z) (s : BeaconState) : BeaconState :=
  mkState
    (version s) (slot s) (validators s) (balances s) (slashings s) (inactivityScores s)
    (currentEpochParticipation s) (previousEpochParticipation s) (blockRoots s) (stateRoots s)
    (justificationBits s) (previousJustifiedCheckpoint s) (currentJustifiedCheckpoint s)
    (finalizedCheckpoint s) (exitBalanceToConsume s) (earliestExitEpoch s)
    (consolidationBalanceToConsume s) (earliestConsolidationEpoch s)
    (randaoMixes s) (proposerLookahead s) (nextWithdrawalIndex s) nextWithdrawalValidatorIndex'
    (pendingPartialWithdrawals s) (pendingDeposits s) (pendingConsolidations s)
    (depositBalanceToConsume s) (depositRequestsStartIndex s) (eth1DepositIndex s)
    (eth1Data s) (valIdxMap s).
Definition set_pendingPartialWithdrawals (pendingPartialWithdrawals' : list PendingPartialWithdrawal.t) (s : BeaconState) : BeaconState :=
  mkState
    (version s) (slot s) (validators s) (balances s) (slashings s) (inactivityScores s)
    (currentEpochParticipation s) (previousEpochParticipation s) (blockRoots s) (stateRoots s)
    (justificationBits s) (previousJustifiedCheckpoint s) (currentJustifiedCheckpoint s)
    (finalizedCheckpoint s) (exitBalanceToConsume s) (earliestExitEpoch s)
    (consolidationBalanceToConsume s) (earliestConsolidationEpoch s)
    (randaoMixes s) (proposerLookahead s) (nextWithdrawalIndex s) (nextWithdrawalValidatorIndex s)
    pendingPartialWithdrawals' (pendingDeposits s) (pendingConsolidations s)
    (depositBalanceToConsume s) (depositRequestsStartIndex s) (eth1DepositIndex s)
    (eth1Data s) (valIdxMap s).
Definition set_pendingDeposits (pendingDeposits' : list PendingDeposit.t) (s : BeaconState) : BeaconState :=
  mkState
    (version s) (slot s) (validators s) (balances s) (slashings s) (inactivityScores s)
    (currentEpochParticipation s) (previousEpochParticipation s) (blockRoots s) (stateRoots s)
    (justificationBits s) (previousJustifiedCheckpoint s) (currentJustifiedCheckpoint s)
    (finalizedCheckpoint s) (exitBalanceToConsume s) (earliestExitEpoch s)
    (consolidationBalanceToConsume s) (earliestConsolidationEpoch s)
    (randaoMixes s) (proposerLookahead s) (nextWithdrawalIndex s) (nextWithdrawalValidatorIndex s)
    (pendingPartialWithdrawals s) pendingDeposits' (pendingConsolidations s)
    (depositBalanceToConsume s) (depositRequestsStartIndex s) (eth1DepositIndex s)
    (eth1Data s) (valIdxMap s).
Definition set_pendingConsolidations (pendingConsolidations' : list PendingConsolidation.t) (s : BeaconState) : BeaconState :=
  mkState
    (version s) (slot s) (validators s) (balances s) (slashings s) (inactivityScores s)
    (currentEpochParticipation s) (previousEpochParticipation s) (blockRoots s) (stateRoots s)
    (justificationBits s) (previousJustifiedCheckpoint s) (currentJustifiedCheckpoint s)
    (finalizedCheckpoint s) (exitBalanceToConsume s) (earliestExitEpoch s)
    (consolidationBalanceToConsume s) (earliestConsolidationEpoch s)
    (randaoMixes s) (proposerLookahead s) (nextWithdrawalIndex s) (nextWithdrawalValidatorIndex s)
    (pendingPartialWithdrawals s) (pendingDeposits s) pendingConsolidations'
    (depositBalanceToConsume s) (depositRequestsStartIndex s) (eth1DepositIndex s)
    (eth1Data s) (valIdxMap s).
Definition set_depositBalanceToConsume (depositBalanceToConsume' : Z) (s : BeaconState) : BeaconState :=
  mkState
    (version s) (slot s) (validators s) (balances s) (slashings s) (inactivityScores s)
    (currentEpochParticipation s) (previousEpochParticipation s) (blockRoots s) (stateRoots s)
    (justificationBits s) (previousJustifiedCheckpoint s) (currentJustifiedCheckpoint s)
    (finalizedCheckpoint s) (exitBalanceToConsume s) (earliestExitEpoch s)
    (consolidationBalanceToConsume s) (earliestConsolidationEpoch s)
    (randaoMixes s) (proposerLookahead s) (nextWithdrawalIndex s) (nextWithdrawalValidatorIndex s)
    (pendingPartialWithdrawals s) (pendingDeposits s) (pendingConsolidations s)
    depositBalanceToConsume' (depositRequestsStartIndex s) (eth1DepositIndex s)
    (eth1Data s) (valIdxMap s).
Definition set_depositRequestsStartIndex (depositRequestsStartIndex' : Z) (s : BeaconState) : BeaconState :=
  mkState
    (version s) (slot s) (validators s) (balances s) (slashings s) (inactivityScores s)
    (currentEpochParticipation s) (previousEpochParticipation s) (blockRoots s) (stateRoots s)
    (justificationBits s) (previousJustifiedCheckpoint s) (currentJustifiedCheckpoint s)
    (finalizedCheckpoint s) (exitBalanceToConsume s) (earliestExitEpoch s)
    (consolidationBalanceToConsume s) (earliestConsolidationEpoch s)
    (randaoMixes s) (proposerLookahead s) (nextWithdrawalIndex s) (nextWithdrawalValidatorIndex s)
    (pendingPartialWithdrawals s) (pendingDeposits s) (pendingConsolidations s)
    (depositBalanceToConsume s) depositRequestsStartIndex' (eth1DepositIndex s)
    (eth1Data s) (valIdxMap s).
Definition set_eth1DepositIndex (eth1DepositIndex' : Z) (s : BeaconState) : BeaconState :=
  mkState
    (version s) (slot s) (validators s) (balances s) (slashings s) (inactivityScores s)
    (currentEpochParticipation s) (previousEpochParticipation s) (blockRoots s) (stateRoots s)
    (justificationBits s) (previousJustifiedCheckpoint s) (currentJustifiedCheckpoint s)
    (finalizedCheckpoint s) (exitBalanceToConsume s) (earliestExitEpoch s)
    (consolidationBalanceToConsume s) (earliestConsolidationEpoch s)
    (randaoMixes s) (proposerLookahead s) (nextWithdrawalIndex s) (nextWithdrawalValidatorIndex s)
    (pendingPartialWithdrawals s) (pendingDeposits s) (pendingConsolidations s)
    (depositBalanceToConsume s) (depositRequestsStartIndex s) eth1DepositIndex'
    (eth1Data s) (valIdxMap s).
Definition set_valIdxMap (valIdxMap' : gmap (list Z) Z) (s : BeaconState) : BeaconState :=
  mkState
    (version s) (slot s) (validators s) (balances s) (slashings s) (inactivityScores s)
    (currentEpochParticipation s) (previousEpochParticipation s) (blockRoots s) (stateRoots s)
    (justificationBits s) (previousJustifiedCheckpoint s) (currentJustifiedCheckpoint s)
    (finalizedCheckpoint s) (exitBalanceToConsume s) (earliestExitEpoch s)
    (consolidationBalanceToConsume s) (earliestConsolidationEpoch s)
    (randaoMixes s) (proposerLookahead s) (nextWithdrawalIndex s) (nextWithdrawalValidatorIndex s)
    (pendingPartialWithdrawals s) (pendingDeposits s) (pendingConsolidations s)
    (depositBalanceToConsume s) (depositRequestsStartIndex s) (eth1DepositIndex s)
    (eth1Data s) valIdxMap'.
Definition set_participation (current previous : list Z) (s : BeaconState) : BeaconState :=
  mkState
    (version s) (slot s) (validators s) (balances s) (slashings s) (inactivityScores s)
    current previous (blockRoots s) (stateRoots s)
    (justificationBits s) (previousJustifiedCheckpoint s) (currentJustifiedCheckpoint s)
    (finalizedCheckpoint s) (exitBalanceToConsume s) (earliestExitEpoch s)
    (consolidationBalanceToConsume s) (earliestConsolidationEpoch s)
    (randaoMixes s) (proposerLookahead s) (nextWithdrawalIndex s) (nextWithdrawalValidatorIndex s)
    (pendingPartialWithdrawals s) (pendingDeposits s) (pendingConsolidations s)
    (depositBalanceToConsume s) (depositRequestsStartIndex s) (eth1DepositIndex s)
    (eth1Data s) (valIdxMap s).

Definition set_activationEligibility (e : Z) (v : Validator) : Validator :=
  mkValidator (EffectiveBalance v) (Slashed v) e (ActivationEpoch v) (ExitEpoch v) (WithdrawableEpoch v)
    (PublicKey v) (WithdrawalCredentials v).
Definition set_activation (e : Z) (v : Validator) : Validator :=
  mkValidator (EffectiveBalance v) (Slashed v) (ActivationEligibilityEpoch v) e (ExitEpoch v) (WithdrawableEpoch v)
    (PublicKey v) (WithdrawalCredentials v).
Definition set_exit (exit withdrawable : Z) (v : Validator) : Validator :=
  mkValidator (EffectiveBalance v) (Slashed v) (ActivationEligibilityEpoch v) (ActivationEpoch v) exit withdrawable
    (PublicKey v) (WithdrawalCredentials v).
Definition set_slashed (withdrawable : Z) (v : Validator) : Validator :=
  mkValidator (EffectiveBalance v) true (ActivationEligibilityEpoch v) (ActivationEpoch v) (ExitEpoch v) withdrawable
    (PublicKey v) (WithdrawalCredentials v).
Definition set_effectiveBalance (b : Z) (v : Validator) : Validator :=
  mkValidator b (Slashed v) (ActivationEligibilityEpoch v) (ActivationEpoch v) (ExitEpoch v) (WithdrawableEpoch v)
    (PublicKey v) (WithdrawalCredentials v).
Definition set_withdrawalCredentials (c : list Z) (v : Validator) : Validator :=
  mkValidator (EffectiveBalance v) (Slashed v) (ActivationEligibilityEpoch v) (ActivationEpoch v) (ExitEpoch v) (WithdrawableEpoch v)
    (PublicKey v) c.

(** ** Getters and setters: [At] and [UpdateAt] of a multi-value slice *)
Definition list_at {A} (l : list A) (idx : Z) : gores A :=
  if idx >=? len l then Err ErrOutOfBounds else index_at l idx.

Definition ValidatorAtIndex (s : BeaconState) (idx : Z) : gores Validator := list_at (validators s) idx.
Definition BalanceAtIndex (s : BeaconState) (idx : Z) : gores Z := list_at (balances s) idx.
Definition BlockRootAtIndex (s : BeaconState) (idx : Z) : gores Z := list_at (blockRoots s) idx.
Definition StateRootAtIndex (s : BeaconState) (idx : Z) : gores Z := list_at (stateRoots s) idx.
Definition InactivityScores (s : BeaconState) : gores (list Z) :=
  if version s =? version_Phase0 then Err errNotSupported else Ok (inactivityScores s).
Definition NumValidators (s : BeaconState) : Z := len (validators s).

Definition UpdateValidatorAtIndex (idx : Z) (v : Validator) : M BeaconState unit := λ s,
  if idx >=? len (validators s) then (Err ErrOutOfBounds, s)
  else (Ok tt, set_validators (<[Z.to_nat idx := v]> (validators s)) s).
Definition UpdateBalancesAtIndex (idx val : Z) : M BeaconState unit := λ s,
  if idx >=? len (balances s) then (Err ErrOutOfBounds, s)
  else (Ok tt, set_balances (<[Z.to_nat idx := val]> (balances s)) s).
Definition UpdateSlashingsAtIndex (idx val : Z) : M BeaconState unit := λ s,
  if len (slashings s) <=? idx then (Err errMessage, s)
  else (Ok tt, set_slashings (<[Z.to_nat idx := val]> (slashings s)) s).

(** [for idx, val := range validators], the callbacks of [ReadFromEveryValidator]. *)
Definition enumerate {A} (l : list A) : list (Z * A) :=
  zip (seqZ 0 (len l)) l.

Section helpers.
Context `{cfg : BeaconChainConfig} `{ecfg : EpochConfig}.

(** ** helpers/validators.go *)
Definition checkValidatorActiveStatus (activationEpoch exitEpoch epoch : Z) : bool :=
  (activationEpoch <=? epoch) && (epoch <? exitEpoch).
Definition IsActiveValidator (v : Validator) (epoch : Z) : bool :=
  checkValidatorActiveStatus (ActivationEpoch v) (ExitEpoch v) epoch.
Definition IsActiveNonSlashedValidatorUsingTrie (v : Validator) (epoch : Z) : bool :=
  IsActiveValidator v epoch && negb (Slashed v).
Definition checkValidatorSlashable (activationEpoch withdrawableEpoch : Z) (slashed : bool) (epoch : Z) : bool :=
  let active := activationEpoch <=? epoch in
  let beforeWithdrawable := epoch <? withdrawableEpoch in
  beforeWithdrawable && active && negb slashed.
Definition IsSlashableValidator (v : Validator) (epoch : Z) : bool :=
  checkValidatorSlashable (ActivationEpoch v) (WithdrawableEpoch v) (Slashed v) epoch.

Definition ActiveValidatorCount (s : BeaconState) (epoch : Z) : Z :=
  len (filter (λ v, IsActiveValidator v epoch = true) (validators s)).

Definition ActivationExitEpoch (epoch : Z) : Z := (epoch +64 1) +64 MaxSeedLookahead.

Definition calculateChurnLimit (activeValidatorCount : Z) : gores Z :=
  churnLimit ← quo activeValidatorCount ChurnLimitQuotient;
  if churnLimit <? MinPerEpochChurnLimit then Ok MinPerEpochChurnLimit else Ok churnLimit.
Definition ValidatorActivationChurnLimit (activeValidatorCount : Z) : gores Z :=
  calculateChurnLimit activeValidatorCount.
Definition ValidatorExitChurnLimit (activeValidatorCount : Z) : gores Z :=
  calculateChurnLimit activeValidatorCount.
Definition ValidatorActivationChurnLimitDeneb (activeValidatorCount : Z) : gores Z :=
  limit ← calculateChurnLimit activeValidatorCount;
  if limit >? MaxPerEpochActivationChurnLimit then Ok MaxPerEpochActivationChurnLimit else Ok limit.

Definition isEligibleForActivationQueue (activationEligibilityEpoch effectiveBalance : Z) : bool :=
  (activationEligibilityEpoch =? FarFutureEpoch) && (effectiveBalance =? MaxEffectiveBalance).
Definition isEligibleForActivationQueueElectra (activationEligibilityEpoch effectiveBalance : Z) : bool :=
  (activationEligibilityEpoch =? FarFutureEpoch) && (effectiveBalance >=? MinActivationBalance).
Definition IsEligibleForActivationQueue (v : Validator) (currentEpoch : Z) : bool :=
  if currentEpoch >=? ElectraForkEpoch
  then isEligibleForActivationQueueElectra (ActivationEligibilityEpoch v) (EffectiveBalance v)
  else isEligibleForActivationQueue (ActivationEligibilityEpoch v) (EffectiveBalance v).
Definition isEligibleForActivation (activationEligibilityEpoch activationEpoch finalizedEpoch : Z) : bool :=
  (activationEligibilityEpoch <=? finalizedEpoch) && (activationEpoch =? FarFutureEpoch).
Definition IsEligibleForActivation (s : BeaconState) (v : Validator) : bool :=
  isEligibleForActivation (ActivationEligibilityEpoch v) (ActivationEpoch v) (Epoch_ (finalizedCheckpoint s)).

(** ** helpers/rewards_penalties.go *)
Definition sumActive (epoch : Z) (total : Z) (v : Validator) : Z :=
  if IsActiveValidator v epoch then total +64 EffectiveBalance v else total.

Definition TotalActiveBalance (s : BeaconState) : gores Z :=
  epoch ← ToEpoch (slot s);
  let total := foldl (sumActive epoch) 0 (validators s) in
  Ok (Z.max EffectiveBalanceIncrement total).

(** Indices outside the registry are skipped. *)
Fixpoint TotalBalance_loop (s : BeaconState) (indices : list Z) (total : Z) : Z :=
  match indices with
  | [] => total
  | idx :: indices' =>
      match ValidatorAtIndex s idx with
      | Ok v => TotalBalance_loop s indices' (total +64 EffectiveBalance v)
      | _ => TotalBalance_loop s indices' total
      end
  end.
Definition TotalBalance (s : BeaconState) (indices : list Z) : Z :=
  let total := TotalBalance_loop s indices 0 in
  if total <? EffectiveBalanceIncrement then EffectiveBalanceIncrement else total.

Definition IncreaseBalanceWithVal (currBalance delta : Z) : gores Z := Add64 currBalance delta.
Definition DecreaseBalanceWithVal (currBalance delta : Z) : Z :=
  if delta >? currBalance then 0 else currBalance -64 delta.
Definition IncreaseBalance (idx delta : Z) : M BeaconState unit :=
  s ← mget;
  balAtIdx ← mlift (BalanceAtIndex s idx);
  newBal ← mlift (IncreaseBalanceWithVal balAtIdx delta);
  UpdateBalancesAtIndex idx newBal.
Definition DecreaseBalance (idx delta : Z) : M BeaconState unit :=
  s ← mget;
  balAtIdx ← mlift (BalanceAtIndex s idx);
  UpdateBalancesAtIndex idx (DecreaseBalanceWithVal balAtIdx delta).

Definition FinalityDelay (prevEpoch finalizedEpoch : Z) : Z := prevEpoch -64 finalizedEpoch.
Definition IsInInactivityLeak (prevEpoch finalizedEpoch : Z) : bool :=
  FinalityDelay prevEpoch finalizedEpoch >? MinEpochsToInactivityPenalty.

(** ** helpers/validator_churn.go *)
Definition BalanceChurnLimit (activeBalance : Z) : gores Z :=
  q ← quo activeBalance ChurnLimitQuotient;
  let churn := Z.max MinPerEpochChurnLimitElectra q in
  r ← rem churn EffectiveBalanceIncrement;
  Ok (churn -64 r).
Definition ActivationExitChurnLimit (activeBalance : Z) : gores Z :=
  b ← BalanceChurnLimit activeBalance;
  Ok (Z.min MaxPerEpochActivationExitChurnLimit b).
Definition ConsolidationChurnLimit (activeBalance : Z) : gores Z :=
  b ← BalanceChurnLimit activeBalance;
  a ← ActivationExitChurnLimit activeBalance;
  Ok (b -64 a).

(** ** helpers/block.go *)
Definition BlockRootAtSlot (s : BeaconState) (slot' : Z) : gores Z :=
  if (MaxUint64 -64 slot') <? SlotsPerHistoricalRoot then Err errMessage
  else if (slot' >=? slot s) || (slot s >? slot' +64 SlotsPerHistoricalRoot) then Err errMessage
  else i ← rem slot' SlotsPerHistoricalRoot; BlockRootAtIndex s i.
Definition StateRootAtSlot (s : BeaconState) (slot' : Z) : gores Z :=
  if (slot' >=? slot s) || (slot s >? slot' +64 SlotsPerHistoricalRoot) then Err errMessage
  else i ← rem slot' SlotsPerHistoricalRoot; StateRootAtIndex s i.
Definition BlockRoot (s : BeaconState) (epoch : Z) : gores Z :=
  start ← EpochStart epoch; BlockRootAtSlot s start.
End helpers.

(** ** Bounded reads *)
Lemma list_at_Ok {A} (l : list A) i x : 0 ≤ i → l !! Z.to_nat i = Some x → list_at l i = Ok x.
Proof.
  intros Hi Hx. unfold list_at, index_at, len. pose proof (lookup_lt_Some _ _ _ Hx).
  destruct (Z.geb_spec i (Z.of_nat (length l))); [lia|]. by rewrite Hx.
Qed.
Lemma list_at_inv {A} (l : list A) i x : list_at l i = Ok x → i < len l ∧ l !! Z.to_nat i = Some x.
Proof.
  unfold list_at, index_at. rewrite Z.geb_leb. destruct (Z.leb_spec (len l) i); [done|].
  destruct (l !! Z.to_nat i) eqn:?; [|done]. intros [= <-]. auto.
Qed.
