(* ===== verification/Finality.v ===== *)
(** * beacon-chain/core/epoch/precompute/justification_finalization.go

    Casper FFG: the justification bits, the new justified and finalized checkpoints and
    the update of the state at an epoch transition, and the unrealized checkpoints.
    [Bitvector4] belongs to go-bitfield, which is not part of the repository: a bit vector
    is its bytes, the library's functions are the class [Bitvector4] and what the code
    relies on is [Bitvector4Laws].  The specification is the consensus-spec pseudocode
    quoted in the source, over four booleans. *)
From S2P Require Import Prelude MathHelper Primitives Config SlotTime MVSlice EpochConfig BeaconState.

Class Bitvector4 := {
  Shift : list Z → Z → list Z;
  SetBitAt : list Z → Z → bool → list Z;
  BitAt : list Z → Z → bool;
  Bytes : list Z → list Z
}.

(** A vector of four bits is one byte below 16. *)
Definition bits_wf (b : list Z) : Prop := ∃ x, b = [x] ∧ 0 ≤ x < 16.

Class Bitvector4Laws `(Bitvector4) : Prop := {
  Shift_wf b : bits_wf b → bits_wf (Shift b 1);
  Shift_at b i : bits_wf b → 0 ≤ i < 4 → BitAt (Shift b 1) i = (0 <? i) && BitAt b (i - 1);
  SetBitAt_wf b i v : bits_wf b → 0 ≤ i < 4 → bits_wf (SetBitAt b i v);
  SetBitAt_at b i j v : bits_wf b → 0 ≤ i < 4 → 0 ≤ j < 4 →
    BitAt (SetBitAt b i v) j = if i =? j then v else BitAt b j;
  Bytes_at b : bits_wf b → ∃ x, Bytes b = [x] ∧ 0 ≤ x < 256 ∧ ∀ i, 0 ≤ i < 4 → Z.testbit x i = BitAt b i
}.

(** precompute/type.go *)
Record Balance := mkBalance {
  ActiveCurrentEpoch : Z;
  ActivePrevEpoch : Z;
  CurrentEpochAttested : Z;
  CurrentEpochTargetAttested : Z;
  PrevEpochAttested : Z;
  PrevEpochTargetAttested : Z;
  PrevEpochHeadAttested : Z
}.

Section ffg.
Context `{cfg : BeaconChainConfig} `{ecfg : EpochConfig} `{bv : Bitvector4}.

Definition processJustificationBits (s : BeaconState)
    (totalActiveBalance prevEpochTargetBalance currEpochTargetBalance : Z) : list Z :=
  let newBits := Shift (justificationBits s) 1 in
  let newBits := if (3 *64 prevEpochTargetBalance) >=? (2 *64 totalActiveBalance)
                 then SetBitAt newBits 1 true else newBits in
  if (3 *64 currEpochTargetBalance) >=? (2 *64 totalActiveBalance)
  then SetBitAt newBits 0 true else newBits.

(** One of the four finalization rules. *)
Definition finalizes (justification mask : Z) (c : Checkpoint) (distance currentEpoch : Z) : bool :=
  (Z.land justification mask =? mask) && ((Epoch_ c +64 distance) =? currentEpoch).

Definition computeCheckpoints (s : BeaconState) (newBits : list Z) : gores (Checkpoint * Checkpoint) :=
  prevEpoch ← PrevEpoch (slot s);
  currentEpoch ← CurrentEpoch (slot s);
  let oldPrevJustifiedCheckpoint := previousJustifiedCheckpoint s in
  let oldCurrJustifiedCheckpoint := currentJustifiedCheckpoint s in
  let justified := currentJustifiedCheckpoint s in
  let finalized := finalizedCheckpoint s in
  justified ← (if BitAt newBits 0 && (currentEpoch >=? Epoch_ justified) then
                 blockRoot ← BlockRoot s currentEpoch; Ok (mkCheckpoint currentEpoch blockRoot)
               else if BitAt newBits 1 && (prevEpoch >=? Epoch_ justified) then
                 blockRoot ← BlockRoot s prevEpoch; Ok (mkCheckpoint prevEpoch blockRoot)
               else Ok justified : gores Checkpoint);
  if len newBits =? 0 then Err errMessage
  else
    justification ← index_at (Bytes newBits) 0;
    let finalized := if finalizes justification 14 oldPrevJustifiedCheckpoint 3 currentEpoch
                     then oldPrevJustifiedCheckpoint else finalized in
    let finalized := if finalizes justification 6 oldPrevJustifiedCheckpoint 2 currentEpoch
                     then oldPrevJustifiedCheckpoint else finalized in
    let finalized := if finalizes justification 7 oldCurrJustifiedCheckpoint 2 currentEpoch
                     then oldCurrJustifiedCheckpoint else finalized in
    let finalized := if finalizes justification 3 oldCurrJustifiedCheckpoint 1 currentEpoch
                     then oldCurrJustifiedCheckpoint else finalized in
    Ok (justified, finalized).

Definition weighJustificationAndFinalization (newBits : list Z) : M BeaconState unit :=
  s ← mget;
  '(jc, fc) ← mlift (computeCheckpoints s newBits);
  mmodify (set_previousJustified (currentJustifiedCheckpoint s));;
  mmodify (set_currentJustified jc);;
  mmodify (set_justificationBits newBits);;
  mmodify (set_finalized fc).

Definition ProcessJustificationAndFinalizationPreCompute (pBal : Balance) : M BeaconState unit :=
  canProcessSlot ← mlift (EpochStart 2);
  s ← mget;
  if slot s <=? canProcessSlot then mret tt
  else
    let newBits := processJustificationBits s (ActiveCurrentEpoch pBal)
                     (PrevEpochTargetAttested pBal) (CurrentEpochTargetAttested pBal) in
    weighJustificationAndFinalization newBits.

(** stateutil/unrealized_justification.go *)
Definition ensureLowerBound (activeCurrEpoch prevTargetAttested currTargetAttested : Z) : Z * Z * Z :=
  let ebi := EffectiveBalanceIncrement in
  (if ebi >? activeCurrEpoch then ebi else activeCurrEpoch,
   if ebi >? prevTargetAttested then ebi else prevTargetAttested,
   if ebi >? currTargetAttested then ebi else currTargetAttested).

(** [(flags >> index) & 1 == 1] on a byte *)
Definition flag_at (flags index : Z) : bool := Z.land (Z.shiftr flags index) 1 =? 1.

(** The body of the loop of [stateutil.UnrealizedCheckpointBalances] for validator [v] with
    participation bytes [cb] and [pb]; the three sums are (active, prevTarget, currentTarget). *)
Definition unrealizedStep (currentEpoch : Z) (acc : Z * Z * Z) (v : Validator) (cb pb : Z) : gores (Z * Z * Z) :=
  let '(activeBalance, prevTarget, currentTarget) := acc in
  let activeCurrent := (ActivationEpoch v <=? currentEpoch) && (currentEpoch <? ExitEpoch v) in
  activeBalance ← (if activeCurrent then Add64 activeBalance (EffectiveBalance v) else Ok activeBalance : gores Z);
  if Slashed v then Ok (activeBalance, prevTarget, currentTarget)
  else
    currentTarget ← (if activeCurrent && flag_at cb TimelyTargetFlagIndex
                     then Add64 currentTarget (EffectiveBalance v) else Ok currentTarget : gores Z);
    let activePrevious := (ActivationEpoch v <? currentEpoch) && (currentEpoch <=? ExitEpoch v) in
    prevTarget ← (if activePrevious && flag_at pb TimelyTargetFlagIndex
                  then Add64 prevTarget (EffectiveBalance v) else Ok prevTarget : gores Z);
    Ok (activeBalance, prevTarget, currentTarget).

Fixpoint unrealizedLoop (currentEpoch : Z) (acc : Z * Z * Z) (vs : list Validator) (cp pp : list Z)
    : gores (Z * Z * Z) :=
  match vs with
  | [] => Ok acc
  | v :: vs' =>
      match cp, pp with
      | cb :: cp', pb :: pp' =>
          acc ← unrealizedStep currentEpoch acc v cb pb; unrealizedLoop currentEpoch acc vs' cp' pp'
      | _, _ => Panic
      end
  end.

Definition UnrealizedCheckpointBalances (s : BeaconState) : gores (Z * Z * Z) :=
  if version s =? version_Phase0 then Err errNotSupported
  else
    currentEpoch ← CurrentEpoch (slot s);
    let cp := currentEpochParticipation s in
    let pp := previousEpochParticipation s in
    if (len cp <? NumValidators s) || (len pp <? NumValidators s) then Err errMessage
    else
      '(a, p, c) ← unrealizedLoop currentEpoch (0, 0, 0) (validators s) cp pp;
      Ok (ensureLowerBound a p c).

Definition UnrealizedCheckpoints (s : BeaconState) : gores (Checkpoint * Checkpoint) :=
  epoch ← ToEpoch (slot s);
  if epoch <=? GenesisEpoch +64 1 then Ok (currentJustifiedCheckpoint s, finalizedCheckpoint s)
  else
    '(activeBalance, prevTarget, currentTarget) ← UnrealizedCheckpointBalances s;
    computeCheckpoints s (processJustificationBits s activeBalance prevTarget currentTarget).
End ffg.

(** ** The specification: [weigh_justification_and_finalization] *)
Record FFG := mkFFG {
  bits : nat → bool;
  previous_justified : Checkpoint;
  current_justified : Checkpoint;
  finalized : Checkpoint
}.

Definition supermajority (target total : Z) : bool := 3 * target >=? 2 * total.

Section spec.
Context (block_root : Z → Z) (current_epoch total prev_target cur_target : Z).

Definition spec_bits (f : FFG) (i : nat) : bool :=
  match i with
  | O => supermajority cur_target total
  | S O => bits f 0 || supermajority prev_target total
  | S j => bits f j
  end.

Definition spec_justified (f : FFG) : Checkpoint :=
  if supermajority cur_target total then mkCheckpoint current_epoch (block_root current_epoch)
  else if supermajority prev_target total then mkCheckpoint (current_epoch - 1) (block_root (current_epoch - 1))
  else current_justified f.

Definition spec_finalized (f : FFG) : Checkpoint :=
  let b := spec_bits f in
  let p := previous_justified f in
  let c := current_justified f in
  let r := finalized f in
  let r := if b 1%nat && b 2%nat && b 3%nat && (Epoch_ p + 3 =? current_epoch) then p else r in
  let r := if b 1%nat && b 2%nat && (Epoch_ p + 2 =? current_epoch) then p else r in
  let r := if b 0%nat && b 1%nat && b 2%nat && (Epoch_ c + 2 =? current_epoch) then c else r in
  if b 0%nat && b 1%nat && (Epoch_ c + 1 =? current_epoch) then c else r.

Definition weigh (f : FFG) : FFG :=
  mkFFG (spec_bits f) (current_justified f) (spec_justified f) (spec_finalized f).
End spec.
