(* ===== verification/FinalityTheorems.v ===== *)
(** * Casper FFG: the epoch transition implements the specification

    [ProcessJustificationAndFinalizationPreCompute] refines the pseudocode
    [weigh_justification_and_finalization]; checkpoints never move back; and along any
    sequence of epoch transitions a finalized epoch and the one after it both had a
    supermajority. *)
From S2P Require Import Prelude MathHelper Primitives Config SlotTime MVSlice EpochConfig BeaconState Finality.

Section facts.
Context `{cfg : BeaconChainConfig} `{ecfg : EpochConfig} `{laws : Bitvector4Laws}.

(** The state stands at the last slot of epoch [e], with a full ring of block roots. *)
Record at_epoch_end (s : BeaconState) (e : Z) : Prop := {
  ae_spe : 2 ≤ SlotsPerEpoch;
  ae_ring : 2 * SlotsPerEpoch ≤ SlotsPerHistoricalRoot;
  ae_roots : len (blockRoots s) = SlotsPerHistoricalRoot;
  ae_epoch : 0 ≤ e;
  ae_slot : slot s = (e + 1) * SlotsPerEpoch - 1;
  ae_room : (e + 4) * SlotsPerEpoch + SlotsPerHistoricalRoot < two64;
  ae_bits : bits_wf (justificationBits s)
}.

Definition ffg_of (s : BeaconState) : FFG :=
  mkFFG (λ i, BitAt (justificationBits s) (Z.of_nat i)) (previousJustifiedCheckpoint s)
    (currentJustifiedCheckpoint s) (finalizedCheckpoint s).

(** The bits and the roots are compared as functions. *)
Definition ffg_equiv (f g : FFG) : Prop :=
  (∀ i, (i < 4)%nat → bits f i = bits g i) ∧ previous_justified f = previous_justified g ∧
  current_justified f = current_justified g ∧ finalized f = finalized g.

Definition root_at (s : BeaconState) (e : Z) : Z :=
  match BlockRoot s e with Ok r => r | _ => 0 end.

(** What holds of a state before the transition of epoch [e]. *)
Record ffg_inv (s : BeaconState) (e : Z) : Prop := {
  fi_finalized : 0 ≤ Epoch_ (finalizedCheckpoint s) ≤ Epoch_ (previousJustifiedCheckpoint s);
  fi_previous : Epoch_ (previousJustifiedCheckpoint s) ≤ Epoch_ (currentJustifiedCheckpoint s);
  fi_current : Epoch_ (currentJustifiedCheckpoint s) ≤ Z.max 0 (e - 1);
  fi_bit : BitAt (justificationBits s) 0 = true →
    currentJustifiedCheckpoint s = mkCheckpoint (e - 1) (root_at s (e - 1))
}.

Lemma ToEpoch_end s e : at_epoch_end s e → ToEpoch (slot s) = Ok e.
Proof.
  intros []. unfold ToEpoch, Slot.DivSlot, Slot.Div, Slot.SafeDiv. rewrite ae_slot0, Div64_cases.
  destruct (Z.eqb_spec SlotsPerEpoch 0); [lia|]. simpl. do 2 f_equal.
  symmetry. apply Z.div_unique with (SlotsPerEpoch - 1); lia.
Qed.

Lemma PrevEpoch_end s e : at_epoch_end s e → PrevEpoch (slot s) = Ok (Z.max 0 (e - 1)).
Proof.
  intros He. unfold PrevEpoch, CurrentEpoch. rewrite (ToEpoch_end s e) by done. simpl.
  destruct He. destruct (Z.eqb_spec e 0); f_equal; [lia|]. rewrite u64_small; [lia|unfold is_u64; nia].
Qed.

Lemma EpochStart_end s e e' : at_epoch_end s e → 0 ≤ e' ≤ e + 2 → EpochStart e' = Ok (SlotsPerEpoch * e').
Proof.
  intros [] He'. unfold EpochStart, Slot.SafeMul. rewrite Mul64_cases by (unfold is_u64; nia).
  destruct (Z.ltb_spec (SlotsPerEpoch * e') two64); [done|nia].
Qed.

(** The roots of the current and of the previous epoch are always in the ring. *)
Lemma BlockRoot_end s e e' : at_epoch_end s e → 0 ≤ e' → e - 1 ≤ e' ≤ e →
  BlockRoot s e' = Ok (root_at s e').
Proof.
  intros He H0 He'. unfold root_at. cut (∃ r, BlockRoot s e' = Ok r); [by intros [r ->]|].
  unfold BlockRoot. rewrite (EpochStart_end s e) by (done || lia). simpl.
  destruct He. unfold BlockRootAtSlot.
  assert (SlotsPerEpoch * (e - 1) ≤ SlotsPerEpoch * e' ≤ SlotsPerEpoch * e) as Hmul by nia.
  rewrite !u64_small by (unfold is_u64; nia).
  destruct (Z.ltb_spec (MaxUint64 - SlotsPerEpoch * e') SlotsPerHistoricalRoot); [nia|].
  destruct (Z.geb_spec (SlotsPerEpoch * e') (slot s)); [nia|].
  rewrite Z.gtb_ltb.
  destruct (Z.ltb_spec (SlotsPerEpoch * e' + SlotsPerHistoricalRoot) (slot s)); [nia|]. simpl.
  rewrite rem_pos by lia. simpl. unfold BlockRootAtIndex, list_at.
  assert (0 ≤ (SlotsPerEpoch * e') mod SlotsPerHistoricalRoot < SlotsPerHistoricalRoot) as Hm
    by (apply Z.mod_pos_bound; lia).
  rewrite ae_roots0. destruct (Z.geb_spec ((SlotsPerEpoch * e') mod SlotsPerHistoricalRoot) SlotsPerHistoricalRoot); [lia|].
  unfold index_at. unfold len in ae_roots0.
  destruct (lookup_lt_is_Some_2 (blockRoots s) (Z.to_nat ((SlotsPerEpoch * e') mod SlotsPerHistoricalRoot)))
    as [r ->]; [lia|]. by exists r.
Qed.

Abbreviation fits total prev cur :=
  (0 ≤ total ∧ 0 ≤ prev ∧ 0 ≤ cur ∧ 3 * total < two64 ∧ 3 * prev < two64 ∧ 3 * cur < two64).

Lemma processJustificationBits_spec s e total prev cur :
  at_epoch_end s e → fits total prev cur →
  bits_wf (processJustificationBits s total prev cur) ∧
  ∀ i, (i < 4)%nat →
    BitAt (processJustificationBits s total prev cur) (Z.of_nat i) = spec_bits total prev cur (ffg_of s) i.
Proof.
  intros [] (? & ? & ? & ? & ? & ?). unfold processJustificationBits.
  rewrite !u64_small by (unfold is_u64; lia).
  fold (supermajority prev total). fold (supermajority cur total).
  pose proof (Shift_wf _ ae_bits0) as Hs.
  set (b1 := if supermajority prev total then _ else _).
  assert (bits_wf b1 ∧ ∀ i, 0 ≤ i < 4 → BitAt b1 i =
            if (i =? 1) then BitAt (justificationBits s) 0 || supermajority prev total
            else (0 <? i) && BitAt (justificationBits s) (i - 1)) as [Hb1 Hb1at].
  { subst b1. destruct (supermajority prev total).
    - split; [by apply SetBitAt_wf|]. intros i Hi. rewrite SetBitAt_at, Shift_at by (done || lia).
      rewrite orb_true_r, (Z.eqb_sym 1 i). done.
    - split; [done|]. intros i Hi. rewrite Shift_at by (done || lia).
      destruct (Z.eqb_spec i 1) as [->|]; [by rewrite orb_false_r|done]. }
  assert (∀ b0, bits_wf b0 → (∀ i, 0 ≤ i < 4 → BitAt b0 i = if i =? 0 then supermajority cur total else BitAt b1 i) →
    bits_wf b0 ∧ ∀ i, (i < 4)%nat → BitAt b0 (Z.of_nat i) = spec_bits total prev cur (ffg_of s) i) as Hfin.
  { intros b0 Hb0 Hat. split; [done|]. intros i Hi. rewrite Hat, Hb1at by lia.
    destruct i as [|[|j]]; [done..|].
    destruct (Z.eqb_spec (Z.of_nat (S (S j))) 0); [lia|]. destruct (Z.eqb_spec (Z.of_nat (S (S j))) 1); [lia|].
    destruct (Z.ltb_spec 0 (Z.of_nat (S (S j)))); [|lia]. simpl. f_equal. lia. }
  apply Hfin; destruct (supermajority cur total) eqn:Hc; clear Hfin.
  - apply SetBitAt_wf; [done|lia].
  - done.
  - intros i Hi. rewrite SetBitAt_at by (done || lia). rewrite (Z.eqb_sym 0 i). done.
  - intros i Hi. rewrite Hb1at by lia. destruct (Z.eqb_spec i 0) as [->|]; [done|done].
Qed.

(** The four masks test the bits they name. *)
Lemma mask_test x mask : Z.land x mask = mask ↔ ∀ i, Z.testbit mask i = true → Z.testbit x i = true.
Proof.
  split.
  - intros <- i. rewrite Z.land_spec. by destruct (Z.testbit x i).
  - intros Hx. apply Z.bits_inj. intros i. rewrite Z.land_spec.
    destruct (Z.testbit mask i) eqn:Hm; [by rewrite Hx|by rewrite andb_false_r].
Qed.

Lemma nibble_test x mask : 0 ≤ mask < 16 →
  (Z.land x mask =? mask) =
    forallb (λ i, implb (Z.testbit mask i) (Z.testbit x i)) [0; 1; 2; 3].
Proof.
  intros Hmask. apply eq_true_iff_eq. rewrite Z.eqb_eq, mask_test, forallb_forall. split.
  - intros Hx i _. destruct (Z.testbit mask i) eqn:Hm; simpl; auto.
  - intros Hx i Hm. destruct (decide (0 ≤ i < 4)) as [Hi|Hi].
    + assert (In i [0; 1; 2; 3]) as Hin by (simpl; lia). specialize (Hx i Hin). by rewrite Hm in Hx.
    + destruct (decide (i < 0)); [by rewrite Z.testbit_neg_r in Hm by lia|].
      rewrite Z.bits_above_log2 in Hm; [done|lia|].
      destruct (decide (mask = 0)) as [->|]; [simpl; lia|]. apply Z.log2_lt_pow2; [lia|].
      apply Z.lt_le_trans with (2 ^ 4); [simpl; lia|]. apply Z.pow_le_mono_r; lia.
Qed.

Lemma finalizes_spec x b mask c d e :
  (∀ i, (i < 4)%nat → Z.testbit x (Z.of_nat i) = b i) → 0 ≤ mask < 16 →
  0 ≤ Epoch_ c → Epoch_ c + d < two64 → 0 ≤ d →
  finalizes x mask c d e =
    forallb (λ i, implb (Z.testbit mask (Z.of_nat i)) (b i)) [0; 1; 2; 3]%nat && (Epoch_ c + d =? e).
Proof.
  intros Hb Hm ? ? ?. unfold finalizes. rewrite nibble_test, u64_small by (done || unfold is_u64; lia).
  f_equal. simpl. rewrite <-!Hb by lia. done.
Qed.

Lemma computeCheckpoints_spec s e total prev cur :
  at_epoch_end s e → 2 ≤ e → ffg_inv s e → fits total prev cur →
  computeCheckpoints s (processJustificationBits s total prev cur) =
    Ok (spec_justified (root_at s) e total prev cur (ffg_of s), spec_finalized e total prev cur (ffg_of s)).
Proof.
  intros He He2 Hinv Hfits.
  destruct (processJustificationBits_spec s e total prev cur He Hfits) as [Hwf Hat].
  set (nb := processJustificationBits s total prev cur) in *.
  destruct (Bytes_at nb Hwf) as (x & Hbytes & _ & Hx). destruct Hwf as (y & Hnb & _).
  assert (∀ i, (i < 4)%nat → Z.testbit x (Z.of_nat i) = spec_bits total prev cur (ffg_of s) i) as Htest.
  { intros i Hi. rewrite Hx by lia. by apply Hat. }
  unfold computeCheckpoints. rewrite (PrevEpoch_end s e) by done. unfold CurrentEpoch.
  rewrite (ToEpoch_end s e) by done. simpl.
  pose proof (Hat 0%nat ltac:(lia)) as H0. pose proof (Hat 1%nat ltac:(lia)) as H1.
  change (Z.of_nat 0) with 0 in H0. change (Z.of_nat 1) with 1 in H1. simpl spec_bits in H0, H1.
  rewrite H0, H1, Z.max_r by lia. pose proof Hinv as [Hf Hp Hc Hbit].
  rewrite (BlockRoot_end s e e), (BlockRoot_end s e (e - 1)) by (done || lia). simpl.
  replace (if supermajority cur total && _ then _ else _ : gores Checkpoint)
    with (Ok (spec_justified (root_at s) e total prev cur (ffg_of s)) : gores Checkpoint).
  2: { unfold spec_justified. destruct (Z.geb_spec e (Epoch_ (currentJustifiedCheckpoint s))); [|lia].
       destruct (Z.geb_spec (e - 1) (Epoch_ (currentJustifiedCheckpoint s))); [|lia].
       rewrite !andb_true_r. destruct (supermajority cur total); [done|].
       destruct (supermajority prev total); [by rewrite orb_true_r|]. rewrite orb_false_r.
       change (Z.of_nat 0) with 0.
       destruct (BitAt (justificationBits s) 0); [|done]. simpl. by rewrite Hbit. }
  simpl. rewrite Hbytes. replace (len nb =? 0) with false by (by rewrite Hnb). simpl.
  assert (0 ≤ e < two64 - 4) as Hroom by (destruct He; unfold is_u64; nia).
  rewrite !(finalizes_spec x _ _ _ _ _ Htest) by lia. simpl. rewrite !andb_true_r.
  unfold spec_finalized. simpl. by rewrite !andb_assoc.
Qed.

Abbreviation fits_balance b := (fits (ActiveCurrentEpoch b) (PrevEpochTargetAttested b) (CurrentEpochTargetAttested b)).
Abbreviation weigh_balance s e b :=
  (weigh (root_at s) e (ActiveCurrentEpoch b) (PrevEpochTargetAttested b) (CurrentEpochTargetAttested b)).

(** The transition as an assignment: nothing happens in the first two epochs. *)
Lemma ProcessJustification_run s e b :
  at_epoch_end s e → ffg_inv s e → fits_balance b →
  ProcessJustificationAndFinalizationPreCompute b s =
    (Ok tt,
     if e <=? 1 then s
     else
       let f := weigh_balance s e b (ffg_of s) in
       set_finalized (finalized f)
         (set_justificationBits (processJustificationBits s (ActiveCurrentEpoch b)
            (PrevEpochTargetAttested b) (CurrentEpochTargetAttested b))
            (set_currentJustified (current_justified f)
               (set_previousJustified (previous_justified f) s)))).
Proof.
  intros He Hinv Hfits. unfold ProcessJustificationAndFinalizationPreCompute.
  unfold mbind at 1, M_bind, mlift. rewrite (EpochStart_end s e 2) by (destruct He; done || lia).
  cbn [mget]. unfold mbind at 1, M_bind, mget.
  destruct (Z.leb_spec e 1).
  - destruct (Z.leb_spec (slot s) (SlotsPerEpoch * 2)); [done|]. destruct He; nia.
  - destruct (Z.leb_spec (slot s) (SlotsPerEpoch * 2)); [destruct He; nia|].
    unfold weighJustificationAndFinalization, mbind, M_bind, mget, mlift.
    rewrite (computeCheckpoints_spec s e) by (done || lia). done.
Qed.

Lemma weigh_ordered s e b : 2 ≤ e → ffg_inv s e →
  let f := weigh_balance s e b (ffg_of s) in
  Epoch_ (finalizedCheckpoint s) ≤ Epoch_ (finalized f) ≤ Epoch_ (previous_justified f) ∧
  Epoch_ (previous_justified f) ≤ Epoch_ (current_justified f) ≤ e ∧
  Epoch_ (currentJustifiedCheckpoint s) ≤ Epoch_ (current_justified f).
Proof.
  intros He []. simpl. unfold spec_justified, spec_finalized. simpl.
  repeat match goal with |- context [if ?c then _ else _] => destruct c; simpl end; lia.
Qed.

(** C4: the epoch transition of the checkpoints refines the specification.  For a state at
    the last slot of epoch [e] whose checkpoints are ordered and balances whose triple fits
    a [uint64], [ProcessJustificationAndFinalizationPreCompute] always succeeds; in the
    first two epochs it changes nothing, later its justification bits, justified
    checkpoints and finalized checkpoint are those of the pseudocode
    [weigh_justification_and_finalization] of the consensus specification; registry,
    balances, slot and block roots stay as they were. *)
Theorem ProcessJustification_refines s e b :
  at_epoch_end s e → ffg_inv s e → fits_balance b →
  ∃ s', ProcessJustificationAndFinalizationPreCompute b s = (Ok tt, s') ∧
    ffg_equiv (ffg_of s') (if e <=? 1 then ffg_of s else weigh_balance s e b (ffg_of s)) ∧
    bits_wf (justificationBits s') ∧ slot s' = slot s ∧ validators s' = validators s ∧
    balances s' = balances s ∧ blockRoots s' = blockRoots s.
Proof.
  intros He Hinv Hfits. rewrite (ProcessJustification_run s e) by done. eexists. split; [done|].
  destruct (e <=? 1).
  - split_and!; try done. by destruct He.
  - destruct (processJustificationBits_spec s e _ _ _ He Hfits) as [Hwf Hat].
    split_and!; try done.
Qed.

(** Checkpoints stay ordered and never move back.  After the transition of epoch [e]
    the finalized checkpoint is at most the previous justified one, that at most the current
    justified one, and that at most [e]; the finalized and the current justified epochs are
    at least what they were. *)
Theorem checkpoints_monotone s e b :
  at_epoch_end s e → ffg_inv s e → fits_balance b →
  let s' := (ProcessJustificationAndFinalizationPreCompute b s).2 in
  Epoch_ (finalizedCheckpoint s) ≤ Epoch_ (finalizedCheckpoint s') ≤ Epoch_ (previousJustifiedCheckpoint s') ∧
  Epoch_ (previousJustifiedCheckpoint s') ≤ Epoch_ (currentJustifiedCheckpoint s') ≤ e ∧
  Epoch_ (currentJustifiedCheckpoint s) ≤ Epoch_ (currentJustifiedCheckpoint s').
Proof.
  intros He Hinv Hfits. rewrite (ProcessJustification_run s e) by done. simpl.
  pose proof (ae_epoch _ _ He). destruct (Z.leb_spec e 1); [destruct Hinv; lia|].
  apply (weigh_ordered s e b); [lia|done].
Qed.

(** ** Sequences of epoch transitions *)

(** The epochs whose target got a supermajority in the transition of epoch [e]. *)
Definition justified_now (e : Z) (b : Balance) : gset Z :=
  if e <=? 1 then ∅
  else (if supermajority (CurrentEpochTargetAttested b) (ActiveCurrentEpoch b) then {[e]} else ∅) ∪
       (if supermajority (PrevEpochTargetAttested b) (ActiveCurrentEpoch b) then {[e - 1]} else ∅).

(** [reach s e J]: [s] stands at the end of epoch [e] after a chain of transitions from
    genesis in which exactly the epochs [J] got a supermajority.  Between two transitions
    blocks may change anything but the checkpoints, and the block root of the epoch that
    ended stays in the ring. *)
Inductive reach : BeaconState → Z → gset Z → Prop :=
  | reach_genesis s e :
      at_epoch_end s e → Epoch_ (previousJustifiedCheckpoint s) = 0 →
      Epoch_ (currentJustifiedCheckpoint s) = 0 → Epoch_ (finalizedCheckpoint s) = 0 →
      (∀ i, (i < 4)%nat → bits (ffg_of s) i = false) → reach s e ∅
  | reach_step s e J b s1 s2 :
      reach s e J → fits_balance b →
      ProcessJustificationAndFinalizationPreCompute b s = (Ok tt, s1) →
      at_epoch_end s2 (e + 1) → root_at s2 e = root_at s e →
      justificationBits s2 = justificationBits s1 →
      previousJustifiedCheckpoint s2 = previousJustifiedCheckpoint s1 →
      currentJustifiedCheckpoint s2 = currentJustifiedCheckpoint s1 →
      finalizedCheckpoint s2 = finalizedCheckpoint s1 →
      reach s2 (e + 1) (J ∪ justified_now e b).

(** The bit of an epoch is set only if it got a supermajority. *)
Definition bits_inv (f : FFG) (e : Z) (J : gset Z) : Prop :=
  (∀ i, (i < 4)%nat → bits f i = true → e - 1 - Z.of_nat i ∈ J) ∧
  (Epoch_ (finalized f) = 0 ∨ (Epoch_ (finalized f) ∈ J ∧ Epoch_ (finalized f) + 1 ∈ J)).

Lemma spec_bits_inv f e J b : 2 ≤ e → bits_inv f e J →
  ∀ i, (i < 4)%nat →
    spec_bits (ActiveCurrentEpoch b) (PrevEpochTargetAttested b) (CurrentEpochTargetAttested b) f i = true →
    e - Z.of_nat i ∈ J ∪ justified_now e b.
Proof.
  intros He [Hb _] i Hi. unfold justified_now. destruct (Z.leb_spec e 1); [lia|].
  destruct i as [|[|j]]; simpl.
  - intros ->. rewrite Z.sub_0_r. set_solver.
  - rewrite orb_true_iff. intros [Hold| ->]; [|set_solver].
    specialize (Hb 0%nat ltac:(lia) Hold). rewrite Z.sub_0_r in Hb. set_solver.
  - intros Hold. specialize (Hb (S j) ltac:(lia) Hold).
    replace (e - Z.of_nat (S (S j))) with (e - 1 - Z.of_nat (S j)) by lia. set_solver.
Qed.

Lemma weigh_bits_inv root f e J b : 2 ≤ e → bits_inv f e J →
  bits_inv (weigh root e (ActiveCurrentEpoch b) (PrevEpochTargetAttested b) (CurrentEpochTargetAttested b) f)
    (e + 1) (J ∪ justified_now e b).
Proof.
  intros He Hinv. pose proof (spec_bits_inv f e J b He Hinv) as Hbits. split; simpl.
  - intros i Hi Hb. specialize (Hbits i Hi Hb). by replace (e + 1 - 1 - Z.of_nat i) with (e - Z.of_nat i) by lia.
  - destruct Hinv as [_ Hfin]. set (sb := spec_bits _ _ _ f) in *.
    assert (∀ i c, (i < 3)%nat → sb i = true → sb (S i) = true → Epoch_ c + Z.of_nat (S i) = e →
      Epoch_ c ∈ J ∪ justified_now e b ∧ Epoch_ c + 1 ∈ J ∪ justified_now e b) as Htwo.
    { intros i c Hi H1 H2 Hc. pose proof (Hbits i ltac:(lia) H1). pose proof (Hbits (S i) ltac:(lia) H2).
      split; [by replace (Epoch_ c) with (e - Z.of_nat (S i)) by lia|].
      by replace (Epoch_ c + 1) with (e - Z.of_nat i) by lia. }
    unfold spec_finalized. fold sb.
    assert (∀ c r (i : nat) (k : bool), (i < 3)%nat → (k = true → sb i = true ∧ sb (S i) = true) →
      (Epoch_ r = 0 ∨ Epoch_ r ∈ J ∪ justified_now e b ∧ Epoch_ r + 1 ∈ J ∪ justified_now e b) →
      let r' := if k && (Epoch_ c + Z.of_nat (S i) =? e) then c else r in
      Epoch_ r' = 0 ∨ Epoch_ r' ∈ J ∪ justified_now e b ∧ Epoch_ r' + 1 ∈ J ∪ justified_now e b) as Hrule.
    { intros c r i k Hi Hk Hr r'. subst r'. destruct k; [|done]. destruct Hk as [H1 H2]; [done|].
      simpl andb. destruct (Z.eqb_spec (Epoch_ c + Z.of_nat (S i)) e); [right; by apply (Htwo i)|done]. }
    apply (Hrule _ _ 0%nat); [lia|by rewrite andb_true_iff|].
    apply (Hrule _ _ 1%nat); [lia|rewrite !andb_true_iff; naive_solver|].
    apply (Hrule _ _ 1%nat); [lia|by rewrite andb_true_iff|].
    apply (Hrule _ _ 2%nat); [lia|rewrite !andb_true_iff; naive_solver|].
    destruct Hfin as [?|[? ?]]; [by left|right; set_solver].
Qed.

Lemma reach_inv s e J : reach s e J →
  at_epoch_end s e ∧ ffg_inv s e ∧ bits_inv (ffg_of s) e J ∧
  (e ≤ 2 → ∀ i, (i < 4)%nat → bits (ffg_of s) i = false).
Proof.
  induction 1 as [s e He Hp Hc Hf Hb|s e J b s1 s2 _ (He & Hinv & HJ & Hz) Hfits Hrun He2 Hroot Hbits Hp Hc Hf].
  - split_and!; [done| | |done].
    + split; try lia. intros Hbit. specialize (Hb 0%nat ltac:(lia)). simpl in Hb.
      change (Z.of_nat 0) with 0 in Hb. congruence.
    + split; [|by left]. intros i Hi. by rewrite Hb.
  - rewrite (ProcessJustification_run s e) in Hrun by done. pose proof (ae_epoch _ _ He) as He0.
    revert Hrun. destruct (Z.leb_spec e 1) as [He1|He1]; intros Hrun; injection Hrun as <-.
    + assert (ffg_of s2 = ffg_of s) as Heq by (unfold ffg_of; by rewrite Hbits, Hp, Hc, Hf).
      rewrite Heq. specialize (Hz ltac:(lia)). split_and!; [done| | |done].
      * destruct Hinv. split; rewrite ?Hp, ?Hc, ?Hf, ?Hbits; [lia..|].
        intros Hset. specialize (Hz 0%nat ltac:(lia)). simpl in Hz. change (Z.of_nat 0) with 0 in Hz. congruence.
      * destruct HJ as [_ HJ]. split; [|set_solver]. intros i Hi. by rewrite Hz.
    + destruct (processJustificationBits_spec s e _ _ _ He Hfits) as [Hwf Hat].
      pose proof (weigh_bits_inv (root_at s) (ffg_of s) e J b ltac:(lia) HJ) as [HJb HJf].
      simpl in Hbits, Hp, Hc, Hf. split_and!; [done| | |lia].
      * pose proof (weigh_ordered s e b ltac:(lia) Hinv) as Hord. simpl in Hord. pose proof (fi_finalized _ _ Hinv).
        split; rewrite ?Hp, ?Hc, ?Hf, ?Hbits; [lia..|]. intros Hbit.
        specialize (Hat 0%nat ltac:(lia)). simpl in Hat. change (Z.of_nat 0) with 0 in Hat.
        rewrite Hbit in Hat. unfold spec_justified. rewrite <-Hat. f_equal; [lia|].
        by replace (e + 1 - 1) with e by lia.
      * split; unfold ffg_of; simpl; rewrite ?Hf, ?Hbits; [|done].
        intros i Hi. rewrite Hat by done. by apply HJb.
Qed.

(** C10: a finalized epoch rests on two consecutive supermajorities.  Along any chain of epoch
    transitions from genesis, if an epoch other than 0 is finalized then its target got at
    least two thirds of the active balance, and so did the target of the next epoch. *)
Theorem finalized_supermajority s e J :
  reach s e J → Epoch_ (finalizedCheckpoint s) ≠ 0 →
  Epoch_ (finalizedCheckpoint s) ∈ J ∧ Epoch_ (finalizedCheckpoint s) + 1 ∈ J.
Proof. intros Hr Hne. by destruct (reach_inv s e J Hr) as (_ & _ & [_ [?|?]] & _). Qed.
End facts.

(** ** Witnesses: four bits in the low half of one byte *)
Definition low_nibble (b : list Z) : Z := match b with [x] => x | _ => 0 end.
#[local] Instance nibble : Bitvector4 := {|
  Shift b n := [Z.land (Z.shiftl (low_nibble b) n) 15];
  SetBitAt b i v := [if v then Z.setbit (low_nibble b) i else Z.clearbit (low_nibble b) i];
  BitAt b i := Z.testbit (low_nibble b) i;
  Bytes b := [low_nibble b]
|}.

Lemma below_16 x : 0 ≤ x < 16 → In x (seqZ 0 16).
Proof. intros. apply list_elem_of_In, elem_of_seqZ. lia. Qed.
Lemma below_4 x : 0 ≤ x < 4 → In x (seqZ 0 4).
Proof. intros. apply list_elem_of_In, elem_of_seqZ. lia. Qed.

Ltac cases_below H := simpl in H; repeat (destruct H as [<-|H]; [|]); [..|done].

#[local] Instance nibble_laws : Bitvector4Laws nibble.
Proof.
  split.
  - intros b (x & -> & Hx). eexists. split; [done|]. apply below_16 in Hx. cases_below Hx; vm_compute; done.
  - intros b i (x & -> & Hx) Hi. apply below_16 in Hx. apply below_4 in Hi. cases_below Hx; cases_below Hi; done.
  - intros b i v (x & -> & Hx) Hi. eexists. split; [done|]. apply below_16 in Hx. apply below_4 in Hi.
    cases_below Hx; cases_below Hi; destruct v; vm_compute; done.
  - intros b i j v (x & -> & Hx) Hi Hj. apply below_16 in Hx. apply below_4 in Hi. apply below_4 in Hj.
    cases_below Hx; cases_below Hi; cases_below Hj; destruct v; done.
  - intros b (x & -> & Hx). exists x. split_and!; [done|lia|lia|]. done.
Qed.

#[local] Existing Instance mainnet_config.
#[local] Existing Instance mainnet_epoch_config.

(** The end of epoch [e] with empty registry, roots equal to their index. *)
Definition ex_state (e : Z) (b : Z) (prev cur fin : Checkpoint) : BeaconState :=
  mkState version_Altair ((e + 1) * 32 - 1) [] [] [] [] [] [] (seqZ 0 8192) [] [b] prev cur fin 0 0 0 0 [] [] 0 0 [] [] []
    0 0 0 (mkEth1Data [] 0) ∅.
Definition ex_bal : Balance := mkBalance 90 90 60 60 80 80 80.

Definition ex_s2 : BeaconState := ex_state 2 0 (mkCheckpoint 0 0) (mkCheckpoint 0 0) (mkCheckpoint 0 0).
Definition ex_s3 : BeaconState := ex_state 3 3 (mkCheckpoint 0 0) (mkCheckpoint 2 64) (mkCheckpoint 0 0).
Definition ex_s4 : BeaconState := ex_state 4 7 (mkCheckpoint 2 64) (mkCheckpoint 3 96) (mkCheckpoint 2 64).

Lemma ex_at_end e b prev cur fin : 0 ≤ e < 1000 → 0 ≤ b < 16 → at_epoch_end (ex_state e b prev cur fin) e.
Proof.
  intros He Hb. split; change SlotsPerEpoch with 32; change SlotsPerHistoricalRoot with 8192;
    unfold ex_state; cbn [slot blockRoots justificationBits]; [lia..| |lia|lia|lia|by exists b].
  unfold len. rewrite length_seqZ. lia.
Qed.

Lemma ex_inv : ffg_inv ex_s3 3.
Proof. split; [vm_compute; done..|]. intros _. vm_compute. reflexivity. Qed.

Lemma ProcessJustification_refines_witness :
  at_epoch_end ex_s3 3 ∧ ffg_inv ex_s3 3 ∧
  ∃ s', ProcessJustificationAndFinalizationPreCompute ex_bal ex_s3 = (Ok tt, s') ∧
    finalizedCheckpoint s' = mkCheckpoint 2 64.
Proof.
  split; [apply ex_at_end; lia|]. split; [apply ex_inv|].
  destruct (ProcessJustification_refines ex_s3 3 ex_bal) as (s' & Hrun & (_ & _ & _ & Hf) & _);
    [apply ex_at_end; lia|apply ex_inv|vm_compute; done|].
  exists s'. split; [exact Hrun|exact Hf].
Defined.

Lemma checkpoints_monotone_witness :
  at_epoch_end ex_s3 3 ∧ ffg_inv ex_s3 3 ∧
  0 ≤ Epoch_ (finalizedCheckpoint (ProcessJustificationAndFinalizationPreCompute ex_bal ex_s3).2).
Proof.
  split; [apply ex_at_end; lia|]. split; [apply ex_inv|].
  destruct (checkpoints_monotone ex_s3 3 ex_bal) as ([? _] & _);
    [apply ex_at_end; lia|apply ex_inv|vm_compute; done|assumption].
Defined.

Lemma ex_reach2 : reach ex_s2 2 ∅.
Proof.
  apply reach_genesis; [exact (ex_at_end 2 0 _ _ _ ltac:(lia) ltac:(lia))|reflexivity|reflexivity|reflexivity|].
  intros i Hi. do 4 (destruct i as [|i]; [vm_compute; reflexivity|]). lia.
Qed.

Lemma ex_reach3 : reach ex_s3 3 (∅ ∪ justified_now 2 ex_bal).
Proof.
  apply (reach_step ex_s2 2 ∅ ex_bal (ProcessJustificationAndFinalizationPreCompute ex_bal ex_s2).2 ex_s3 ex_reach2);
    [vm_compute; done|vm_compute; reflexivity|exact (ex_at_end 3 3 _ _ _ ltac:(lia) ltac:(lia))|vm_compute; reflexivity..].
Qed.

Lemma ex_reach4 : reach ex_s4 4 (∅ ∪ justified_now 2 ex_bal ∪ justified_now 3 ex_bal).
Proof.
  apply (reach_step ex_s3 3 _ ex_bal (ProcessJustificationAndFinalizationPreCompute ex_bal ex_s3).2 ex_s4 ex_reach3);
    [vm_compute; done|vm_compute; reflexivity|exact (ex_at_end 4 7 _ _ _ ltac:(lia) ltac:(lia))|vm_compute; reflexivity..].
Qed.

Lemma finalized_supermajority_witness :
  reach ex_s4 4 (∅ ∪ justified_now 2 ex_bal ∪ justified_now 3 ex_bal) ∧
  2 ∈ (∅ ∪ justified_now 2 ex_bal ∪ justified_now 3 ex_bal : gset Z).
Proof.
  split; [apply ex_reach4|]. apply (finalized_supermajority ex_s4 4 _ ex_reach4). vm_compute. done.
Defined.
