(* ===== verification/EpochPrecompute.v ===== *)
(** * beacon-chain/core/altair/epoch_precompute.go and precompute/attestation.go

    The precomputed attesting records of an epoch, the inactivity scores, and the rewards
    and penalties.  The Go code fills [precompute.Validator] objects through a slice of
    pointers that nothing else refers to; here the slice is threaded as a value.  The
    fields of [precompute.Validator] that only phase 0 reads are left out.
    [CachedSquareRoot] keeps a process-wide cache, so the rewards run over the state and
    that cache. *)
From S2P Require Import Prelude MathHelper Primitives Config SlotTime MVSlice EpochConfig BeaconState Finality.

(** precompute/type.go: [Validator] *)
Record PreValidator := mkPre {
  IsSlashed : bool;
  IsWithdrawableCurrentEpoch : bool;
  IsActiveCurrentEpoch : bool;
  IsActivePrevEpoch : bool;
  IsCurrentEpochAttester : bool;
  IsCurrentEpochTargetAttester : bool;
  IsPrevEpochAttester : bool;
  IsPrevEpochSourceAttester : bool;
  IsPrevEpochTargetAttester : bool;
  IsPrevEpochHeadAttester : bool;
  CurrentEpochEffectiveBalance : Z;
  InactivityScore : Z;
  BeforeEpochTransitionBalance : Z;
  AfterEpochTransitionBalance : Z
}.

Definition set_current_flags (src tgt : bool) (v : PreValidator) : PreValidator :=
  mkPre (IsSlashed v) (IsWithdrawableCurrentEpoch v) (IsActiveCurrentEpoch v) (IsActivePrevEpoch v)
    (IsCurrentEpochAttester v || src || tgt) (IsCurrentEpochTargetAttester v || tgt)
    (IsPrevEpochAttester v) (IsPrevEpochSourceAttester v) (IsPrevEpochTargetAttester v)
    (IsPrevEpochHeadAttester v) (CurrentEpochEffectiveBalance v) (InactivityScore v)
    (BeforeEpochTransitionBalance v) (AfterEpochTransitionBalance v).
Definition set_prev_flags (src tgt head : bool) (v : PreValidator) : PreValidator :=
  mkPre (IsSlashed v) (IsWithdrawableCurrentEpoch v) (IsActiveCurrentEpoch v) (IsActivePrevEpoch v)
    (IsCurrentEpochAttester v) (IsCurrentEpochTargetAttester v)
    (IsPrevEpochAttester v || src || tgt) (IsPrevEpochSourceAttester v || src)
    (IsPrevEpochTargetAttester v || tgt) (IsPrevEpochHeadAttester v || head)
    (CurrentEpochEffectiveBalance v) (InactivityScore v)
    (BeforeEpochTransitionBalance v) (AfterEpochTransitionBalance v).
Definition set_score (score : Z) (v : PreValidator) : PreValidator :=
  mkPre (IsSlashed v) (IsWithdrawableCurrentEpoch v) (IsActiveCurrentEpoch v) (IsActivePrevEpoch v)
    (IsCurrentEpochAttester v) (IsCurrentEpochTargetAttester v) (IsPrevEpochAttester v)
    (IsPrevEpochSourceAttester v) (IsPrevEpochTargetAttester v) (IsPrevEpochHeadAttester v)
    (CurrentEpochEffectiveBalance v) score (BeforeEpochTransitionBalance v) (AfterEpochTransitionBalance v).
Definition set_transition (before after : Z) (v : PreValidator) : PreValidator :=
  mkPre (IsSlashed v) (IsWithdrawableCurrentEpoch v) (IsActiveCurrentEpoch v) (IsActivePrevEpoch v)
    (IsCurrentEpochAttester v) (IsCurrentEpochTargetAttester v) (IsPrevEpochAttester v)
    (IsPrevEpochSourceAttester v) (IsPrevEpochTargetAttester v) (IsPrevEpochHeadAttester v)
    (CurrentEpochEffectiveBalance v) (InactivityScore v) before after.

Record AttDelta := mkDelta {
  HeadReward : Z; SourceReward : Z; SourcePenalty : Z;
  TargetReward : Z; TargetPenalty : Z; InactivityPenalty : Z
}.

Section precompute.
Context `{cfg : BeaconChainConfig} `{ecfg : EpochConfig}.

(** ** [InitializePrecomputeValidators] *)

(** The callback for one validator; the accumulator is
    (bal.ActiveCurrentEpoch, bal.ActivePrevEpoch). *)
Definition initValidator (currentEpoch prevEpoch : Z) (v : Validator) (score : Z) (acc : Z * Z)
    : gores (PreValidator * (Z * Z)) :=
  let activeCur := IsActiveValidator v currentEpoch in
  let activePrev := IsActiveValidator v prevEpoch in
  cur ← (if activeCur then Add64 acc.1 (EffectiveBalance v) else Ok acc.1 : gores Z);
  prev ← (if activePrev then Add64 acc.2 (EffectiveBalance v) else Ok acc.2 : gores Z);
  Ok (mkPre (Slashed v) (currentEpoch >=? WithdrawableEpoch v) activeCur activePrev
        false false false false false false (EffectiveBalance v) score 0 0, (cur, prev)).

Fixpoint initLoop (currentEpoch prevEpoch : Z) (vs : list Validator) (scores : list Z) (acc : Z * Z)
    : gores (list PreValidator * (Z * Z)) :=
  match vs with
  | [] => Ok ([], acc)
  | v :: vs' =>
      match scores with
      | [] => Panic
      | score :: scores' =>
          '(pv, acc) ← initValidator currentEpoch prevEpoch v score acc;
          '(rest, acc) ← initLoop currentEpoch prevEpoch vs' scores' acc;
          Ok (pv :: rest, acc)
      end
  end.

Definition InitializePrecomputeValidators (s : BeaconState) : gores (list PreValidator * Balance) :=
  prevEpoch ← PrevEpoch (slot s);
  currentEpoch ← CurrentEpoch (slot s);
  scores ← InactivityScores s;
  if negb (NumValidators s =? len scores) then Err errMessage
  else
    '(vals, (cur, prev)) ← initLoop currentEpoch prevEpoch (validators s) scores (0, 0);
    Ok (vals, mkBalance cur prev 0 0 0 0 0).

(** ** [ProcessEpochParticipation] *)
Definition HasValidatorFlag (flag flagPosition : Z) : gores bool :=
  if flagPosition >? 7 then Err errMessage else Ok (flag_at flag flagPosition).

Definition markCurrent (v : PreValidator) (b : Z) : gores PreValidator :=
  src ← HasValidatorFlag b TimelySourceFlagIndex;
  tgt ← HasValidatorFlag b TimelyTargetFlagIndex;
  Ok (set_current_flags (src && IsActiveCurrentEpoch v) (tgt && IsActiveCurrentEpoch v) v).
Definition markPrev (v : PreValidator) (b : Z) : gores PreValidator :=
  src ← HasValidatorFlag b TimelySourceFlagIndex;
  tgt ← HasValidatorFlag b TimelyTargetFlagIndex;
  head ← HasValidatorFlag b TimelyHeadFlagIndex;
  Ok (set_prev_flags (src && IsActivePrevEpoch v) (tgt && IsActivePrevEpoch v) (head && IsActivePrevEpoch v) v).

(** [for i, b := range participation]: a byte beyond the registry panics, a validator
    beyond the bytes is left alone.  A byte that sets no flag of an active validator reads
    [vals[i]] only when a flag is set. *)
Fixpoint markLoop (mark : PreValidator → Z → gores PreValidator) (unmarked : Z → gores bool)
    (vals : list PreValidator) (participation : list Z) : gores (list PreValidator) :=
  match participation with
  | [] => Ok vals
  | b :: participation' =>
      match vals with
      | [] => skip ← unmarked b; if skip : bool then markLoop mark unmarked [] participation' else Panic
      | v :: vals' =>
          v ← mark v b;
          rest ← markLoop mark unmarked vals' participation';
          Ok (v :: rest)
      end
  end.

Definition noCurrentFlag (b : Z) : gores bool :=
  src ← HasValidatorFlag b TimelySourceFlagIndex;
  if src : bool then Ok false
  else tgt ← HasValidatorFlag b TimelyTargetFlagIndex; Ok (negb tgt).
Definition noPrevFlag (b : Z) : gores bool :=
  none ← noCurrentFlag b;
  if none : bool then head ← HasValidatorFlag b TimelyHeadFlagIndex; Ok (negb head) else Ok false.

(** precompute/attestation.go *)
Definition add_if (b : bool) (x acc : Z) : Z := if b then acc +64 x else acc.

Definition updateBalanceStep (stateVersion : Z) (bal : Balance) (v : PreValidator) : Balance :=
  if IsSlashed v then bal
  else
    let eb := CurrentEpochEffectiveBalance v in
    mkBalance (ActiveCurrentEpoch bal) (ActivePrevEpoch bal)
      (add_if (IsCurrentEpochAttester v) eb (CurrentEpochAttested bal))
      (add_if (IsCurrentEpochTargetAttester v) eb (CurrentEpochTargetAttested bal))
      (add_if ((stateVersion >=? version_Altair) && IsPrevEpochSourceAttester v) eb
         (add_if ((stateVersion =? version_Phase0) && IsPrevEpochAttester v) eb (PrevEpochAttested bal)))
      (add_if (IsPrevEpochTargetAttester v) eb (PrevEpochTargetAttested bal))
      (add_if (IsPrevEpochHeadAttester v) eb (PrevEpochHeadAttested bal)).

Definition atLeast (ebi x : Z) : Z := if ebi >? x then ebi else x.
Definition EnsureBalancesLowerBound (b : Balance) : Balance :=
  let ebi := EffectiveBalanceIncrement in
  mkBalance (atLeast ebi (ActiveCurrentEpoch b)) (atLeast ebi (ActivePrevEpoch b))
    (atLeast ebi (CurrentEpochAttested b)) (atLeast ebi (CurrentEpochTargetAttested b))
    (atLeast ebi (PrevEpochAttested b)) (atLeast ebi (PrevEpochTargetAttested b))
    (atLeast ebi (PrevEpochHeadAttested b)).

Definition UpdateBalance (vp : list PreValidator) (bBal : Balance) (stateVersion : Z) : Balance :=
  EnsureBalancesLowerBound (foldl (updateBalanceStep stateVersion) bBal vp).

Definition ProcessEpochParticipation (s : BeaconState) (bal : Balance) (vals : list PreValidator)
    : gores (list PreValidator * Balance) :=
  if version s =? version_Phase0 then Err errNotSupported
  else
    vals ← markLoop markCurrent noCurrentFlag vals (currentEpochParticipation s);
    vals ← markLoop markPrev noPrevFlag vals (previousEpochParticipation s);
    Ok (vals, UpdateBalance vals bal (version s)).

(** ** [ProcessInactivityScores] *)
Definition EligibleForRewards (v : PreValidator) : bool :=
  IsActivePrevEpoch v || (IsSlashed v && negb (IsWithdrawableCurrentEpoch v)).

(** The new score of an eligible validator. *)
Definition updateScore (leak : bool) (v : PreValidator) : gores Z :=
  score ← (if IsPrevEpochTargetAttester v && negb (IsSlashed v)
           then Ok (if InactivityScore v >? 0 then InactivityScore v -64 1 else InactivityScore v)
           else Add64 (InactivityScore v) InactivityScoreBias : gores Z);
  Ok (if leak then score else score -64 Z.min InactivityScoreRecoveryRate score).

Fixpoint scoresLoop (leak : bool) (vals : list PreValidator) (scores : list Z)
    : gores (list PreValidator * list Z) :=
  match vals with
  | [] => Ok ([], scores)
  | v :: vals' =>
      if negb (EligibleForRewards v) then
        '(vals', rest) ← scoresLoop leak vals' (tail scores);
        Ok (v :: vals', match scores with [] => [] | sc :: _ => sc :: rest end)
      else
        score ← updateScore leak v;
        match scores with
        | [] => Panic
        | _ :: scores' =>
            '(vals', rest) ← scoresLoop leak vals' scores';
            Ok (set_score score v :: vals', score :: rest)
        end
  end.

Definition ProcessInactivityScores (vals : list PreValidator) : M BeaconState (list PreValidator) :=
  s ← mget;
  currentEpoch ← mlift (CurrentEpoch (slot s));
  if currentEpoch =? GenesisEpoch then mret vals
  else
    scores ← mlift (InactivityScores s);
    prevEpoch ← mlift (PrevEpoch (slot s));
    let leak := IsInInactivityLeak prevEpoch (Epoch_ (finalizedCheckpoint s)) in
    '(vals, scores) ← mlift (scoresLoop leak vals scores);
    mmodify (set_inactivityScores scores);;
    mret vals.

(** ** Rewards and penalties *)
Definition StateInactivityPenaltyQuotient (s : BeaconState) : gores Z :=
  if version s >=? version_Bellatrix then Ok InactivityPenaltyQuotientBellatrix
  else if version s >=? version_Altair then Ok InactivityPenaltyQuotientAltair
  else if version s >=? version_Phase0 then Ok InactivityPenaltyQuotient
  else Err errNotSupported.

(** A reward for a flag: [baseReward * weight * (attested / increment) / (activeIncrement * denominator)]. *)
Definition flagReward (baseReward weight attested activeIncrement : Z) : gores Z :=
  a ← quo attested EffectiveBalanceIncrement;
  quo ((baseReward *64 weight) *64 a) (activeIncrement *64 WeightDenominator).
Definition flagPenalty (baseReward weight : Z) : gores Z :=
  quo (baseReward *64 weight) WeightDenominator.

Definition zeroDelta : AttDelta := mkDelta 0 0 0 0 0 0.

Definition attestationDelta (bal : Balance) (val : PreValidator)
    (baseRewardMultiplier inactivityDenominator : Z) (inactivityLeak : bool) : gores AttDelta :=
  let eligible := IsActivePrevEpoch val || (IsSlashed val && negb (IsWithdrawableCurrentEpoch val)) in
  if negb eligible || (ActiveCurrentEpoch bal =? 0) then Ok zeroDelta
  else
    let effectiveBalance := CurrentEpochEffectiveBalance val in
    increments ← quo effectiveBalance EffectiveBalanceIncrement;
    let baseReward := increments *64 baseRewardMultiplier in
    activeIncrement ← quo (ActiveCurrentEpoch bal) EffectiveBalanceIncrement;
    '(srcReward, srcPenalty) ←
      (if IsPrevEpochSourceAttester val && negb (IsSlashed val) then
         if negb inactivityLeak then
           r ← flagReward baseReward TimelySourceWeight (PrevEpochAttested bal) activeIncrement; Ok (r, 0)
         else Ok (0, 0)
       else p ← flagPenalty baseReward TimelySourceWeight; Ok (0, p) : gores (Z * Z));
    '(tgtReward, tgtPenalty) ←
      (if IsPrevEpochTargetAttester val && negb (IsSlashed val) then
         if negb inactivityLeak then
           r ← flagReward baseReward TimelyTargetWeight (PrevEpochTargetAttested bal) activeIncrement; Ok (r, 0)
         else Ok (0, 0)
       else p ← flagPenalty baseReward TimelyTargetWeight; Ok (0, p) : gores (Z * Z));
    headReward ←
      (if IsPrevEpochHeadAttester val && negb (IsSlashed val) && negb inactivityLeak
       then flagReward baseReward TimelyHeadWeight (PrevEpochHeadAttested bal) activeIncrement
       else Ok 0 : gores Z);
    inactivity ←
      (if negb (IsPrevEpochTargetAttester val) || IsSlashed val then
         n ← Mul64 effectiveBalance (InactivityScore val); quo n inactivityDenominator
       else Ok 0 : gores Z);
    Ok (mkDelta headReward srcReward srcPenalty tgtReward tgtPenalty inactivity).

Fixpoint deltasLoop (bal : Balance) (baseRewardMultiplier inactivityDenominator : Z) (leak : bool)
    (vals : list PreValidator) : gores (list AttDelta) :=
  match vals with
  | [] => Ok []
  | v :: vals' =>
      d ← attestationDelta bal v baseRewardMultiplier inactivityDenominator leak;
      ds ← deltasLoop bal baseRewardMultiplier inactivityDenominator leak vals';
      Ok (d :: ds)
  end.

Definition AttestationsDelta (s : BeaconState) (bal : Balance) (vals : list PreValidator)
    : M SquareRootCache (list AttDelta) :=
  prevEpoch ← mlift (PrevEpoch (slot s));
  let increment := EffectiveBalanceIncrement in
  root ← CachedSquareRoot (ActiveCurrentEpoch bal);
  baseRewardMultiplier ← mlift (quo (increment *64 BaseRewardFactor) root);
  let leak := IsInInactivityLeak prevEpoch (Epoch_ (finalizedCheckpoint s)) in
  inactivityPenaltyQuotient ← mlift (StateInactivityPenaltyQuotient s);
  let inactivityDenominator := InactivityScoreBias *64 inactivityPenaltyQuotient in
  mlift (deltasLoop bal baseRewardMultiplier inactivityDenominator leak vals).

(** The loop over the validators; [len(vals)], [len(balances)] and the number of deltas agree. *)
Fixpoint rewardsLoop (vals : list PreValidator) (deltas : list AttDelta) (balances : list Z)
    : gores (list PreValidator * list Z) :=
  match vals, deltas, balances with
  | v :: vals', d :: deltas', b :: balances' =>
      after ← IncreaseBalanceWithVal b ((HeadReward d +64 SourceReward d) +64 TargetReward d);
      let after := DecreaseBalanceWithVal after (SourcePenalty d +64 TargetPenalty d) in
      '(vals', rest) ← rewardsLoop vals' deltas' balances';
      Ok (set_transition b after v :: vals', after :: rest)
  | [], _, _ => Ok ([], balances)
  | _, _, _ => Panic
  end.

Definition ProcessRewardsAndPenaltiesPrecompute (bal : Balance) (vals : list PreValidator)
    : M (BeaconState * SquareRootCache) (list PreValidator) := λ '(s, c),
  match CurrentEpoch (slot s) with
  | Ok currentEpoch =>
      if currentEpoch =? GenesisEpoch then (Ok vals, (s, c))
      else if negb (len vals =? NumValidators s) || negb (len vals =? len (balances s)) then (Err errMessage, (s, c))
      else
        match AttestationsDelta s bal vals c with
        | (Ok deltas, c') =>
            match rewardsLoop vals deltas (balances s) with
            | Ok (vals, bs) => (Ok vals, (set_balances bs s, c'))
            | Err e => (Err e, (s, c')) | Panic => (Panic, (s, c')) | OutOfFuel => (OutOfFuel, (s, c'))
            end
        | (Err e, c') => (Err e, (s, c')) | (Panic, c') => (Panic, (s, c')) | (OutOfFuel, c') => (OutOfFuel, (s, c'))
        end
  | Err e => (Err e, (s, c)) | Panic => (Panic, (s, c)) | OutOfFuel => (OutOfFuel, (s, c))
  end.
End precompute.
