(* ===== verification/EpochPrecomputeTheorems.v ===== *)
(** * The precomputed balances: agreement, inactivity and fixed supply

    The one-pass balances of [UnrealizedCheckpoints] are those the epoch transition
    precomputes, so that the unrealized checkpoints are the ones the transition sets; and
    the rewards leave every balance alone when the base reward factor is zero. *)
From S2P Require Import Prelude MathHelper Primitives Config SlotTime MVSlice EpochConfig BeaconState Finality FinalityTheorems EpochPrecompute.

Section facts.
Context `{cfg : BeaconChainConfig} `{ecfg : EpochConfig}.

Lemma Add64_Ok_inv a b c : is_u64 a → is_u64 b → Add64 a b = Ok c → c = a + b ∧ is_u64 c.
Proof.
  intros Ha Hb. rewrite Add64_cases by done. destruct (Z.ltb_spec (a + b) two64); intros; simplify_eq.
  unfold is_u64 in *. lia.
Qed.

Lemma HasValidatorFlag_Ok_inv b i r : HasValidatorFlag b i = Ok r → r = flag_at b i.
Proof. unfold HasValidatorFlag. destruct (i >? 7); naive_solver. Qed.

(** [initValidator] adds the balance to the sums of the epochs it is active in. *)
Lemma initValidator_inv e p v sc a b pv a' b' :
  is_u64 a → is_u64 b → is_u64 (EffectiveBalance v) →
  initValidator e p v sc (a, b) = Ok (pv, (a', b')) →
  a' = (if IsActiveValidator v e then a + EffectiveBalance v else a) ∧
  b' = (if IsActiveValidator v p then b + EffectiveBalance v else b) ∧
  is_u64 a' ∧ is_u64 b' ∧
  pv = mkPre (Slashed v) (e >=? WithdrawableEpoch v) (IsActiveValidator v e) (IsActiveValidator v p)
         false false false false false false (EffectiveBalance v) sc 0 0.
Proof.
  intros Ha Hb Hv. unfold initValidator. simpl.
  destruct (IsActiveValidator v e), (IsActiveValidator v p); simpl;
    repeat (intros H; apply bind_Ok_inv in H as (? & ?%Add64_Ok_inv & H); [|done..]; revert H);
    intros; simplify_eq; naive_solver.
Qed.

Lemma markCurrent_inv v b v' : markCurrent v b = Ok v' →
  v' = set_current_flags (flag_at b TimelySourceFlagIndex && IsActiveCurrentEpoch v)
         (flag_at b TimelyTargetFlagIndex && IsActiveCurrentEpoch v) v.
Proof.
  unfold markCurrent. intros (? & ->%HasValidatorFlag_Ok_inv & H)%bind_Ok_inv.
  apply bind_Ok_inv in H as (? & ->%HasValidatorFlag_Ok_inv & H). naive_solver.
Qed.

Lemma markPrev_inv v b v' : markPrev v b = Ok v' →
  v' = set_prev_flags (flag_at b TimelySourceFlagIndex && IsActivePrevEpoch v)
         (flag_at b TimelyTargetFlagIndex && IsActivePrevEpoch v)
         (flag_at b TimelyHeadFlagIndex && IsActivePrevEpoch v) v.
Proof.
  unfold markPrev. intros (? & ->%HasValidatorFlag_Ok_inv & H)%bind_Ok_inv.
  apply bind_Ok_inv in H as (? & ->%HasValidatorFlag_Ok_inv & H).
  apply bind_Ok_inv in H as (? & ->%HasValidatorFlag_Ok_inv & H). naive_solver.
Qed.

Lemma active_previous v e : 1 ≤ e →
  (ActivationEpoch v <? e) && (e <=? ExitEpoch v) = IsActiveValidator v (e - 1).
Proof. intros. unfold IsActiveValidator, checkValidatorActiveStatus. lia. Qed.

Lemma Add64_fits a b : is_u64 a → is_u64 b → a + b < two64 → Add64 a b = Ok (a + b).
Proof. intros. rewrite Add64_cases by done. destruct (Z.ltb_spec (a + b) two64); [done|lia]. Qed.

(** One validator: the one-pass sums and the precomputed ones move together. *)
Lemma unrealizedStep_agrees ver e v sc cb pb a b p c bal pv a1 b1 pv1 pv2 :
  1 ≤ e → is_u64 (EffectiveBalance v) → is_u64 a → is_u64 b → 0 ≤ c ≤ a → 0 ≤ p ≤ b →
  CurrentEpochTargetAttested bal = c → PrevEpochTargetAttested bal = p →
  initValidator e (e - 1) v sc (a, b) = Ok (pv, (a1, b1)) →
  markCurrent pv cb = Ok pv1 → markPrev pv1 pb = Ok pv2 →
  let bal' := updateBalanceStep ver bal pv2 in
  unrealizedStep e (a, p, c) v cb pb = Ok (a1, PrevEpochTargetAttested bal', CurrentEpochTargetAttested bal') ∧
  is_u64 a1 ∧ is_u64 b1 ∧ 0 ≤ CurrentEpochTargetAttested bal' ≤ a1 ∧ 0 ≤ PrevEpochTargetAttested bal' ≤ b1.
Proof.
  intros He Hv Ha Hb Hc Hp Hbc Hbp Hinit H1%markCurrent_inv H2%markPrev_inv bal'.
  destruct (initValidator_inv _ _ _ _ _ _ _ _ _ Ha Hb Hv Hinit) as (Ha1 & Hb1 & Hua1 & Hub1 & ->).
  subst pv1 pv2. unfold unrealizedStep.
  change ((ActivationEpoch v <=? e) && (e <? ExitEpoch v)) with (IsActiveValidator v e).
  rewrite (active_previous v e He).
  assert ((if IsActiveValidator v e then Add64 a (EffectiveBalance v) else Ok a : gores Z) = Ok a1) as Hact.
  { destruct (IsActiveValidator v e); [|by subst]. subst a1. apply Add64_fits; [done..|]. apply Hua1. }
  rewrite Hact. simpl. subst bal'. unfold updateBalanceStep. simpl.
  unfold is_u64 in *. destruct (Slashed v); simpl.
  { rewrite Hbc, Hbp. split_and!; try done; destruct (IsActiveValidator v e), (IsActiveValidator v (e - 1)); lia. }
  rewrite !(andb_comm (flag_at _ _)).
  destruct (IsActiveValidator v e), (IsActiveValidator v (e - 1)); simpl;
    destruct (flag_at cb TimelyTargetFlagIndex), (flag_at pb TimelyTargetFlagIndex); simpl;
    unfold add_if; rewrite ?Hbc, ?Hbp, ?Add64_fits, ?u64_small by (unfold is_u64; lia); simpl;
    rewrite ?Add64_fits by (unfold is_u64; lia); simpl; split_and!; done || lia.
Qed.

#[local] Arguments unrealizedStep : simpl never.
#[local] Arguments updateBalanceStep : simpl never.

Lemma unrealizedLoop_agrees ver e vs : ∀ scores cp pp a b p c bal vals0 vals1 vals a' b',
  1 ≤ e → Forall (λ v, is_u64 (EffectiveBalance v)) vs →
  length cp = length vs → length pp = length vs →
  is_u64 a → is_u64 b → 0 ≤ c ≤ a → 0 ≤ p ≤ b →
  CurrentEpochTargetAttested bal = c → PrevEpochTargetAttested bal = p →
  initLoop e (e - 1) vs scores (a, b) = Ok (vals0, (a', b')) →
  markLoop markCurrent noCurrentFlag vals0 cp = Ok vals1 →
  markLoop markPrev noPrevFlag vals1 pp = Ok vals →
  let bal' := foldl (updateBalanceStep ver) bal vals in
  unrealizedLoop e (a, p, c) vs cp pp = Ok (a', PrevEpochTargetAttested bal', CurrentEpochTargetAttested bal').
Proof.
  induction vs as [|v vs IH]; intros [|sc scores] [|cb cp] [|pb pp] a b p c bal vals0 vals1 vals a' b'
    He Hvs Hcp Hpp Ha Hb Hc Hp Hbc Hbp Hinit H1 H2; try done.
  1,2: simplify_eq/=; by repeat match goal with H : Ok _ = Ok _ |- _ => injection H as <- end.
  simpl in Hinit. apply bind_Ok_inv in Hinit as ([pv [a1 b1]] & Hv & Hinit).
  apply bind_Ok_inv in Hinit as ([rest acc] & Hrest & Hinit). simplify_eq/=.
  apply bind_Ok_inv in H1 as (pv1 & Hm1 & H1). apply bind_Ok_inv in H1 as (rest1 & Hr1 & H1). simplify_eq/=.
  apply bind_Ok_inv in H2 as (pv2 & Hm2 & H2). apply bind_Ok_inv in H2 as (rest2 & Hr2 & H2). simplify_eq/=.
  apply Forall_cons in Hvs as [Hv0 Hvs].
  destruct (unrealizedStep_agrees ver e v sc cb pb _ _ _ _ bal _ _ _ _ _ He Hv0 Ha Hb Hc Hp eq_refl eq_refl Hv Hm1 Hm2)
    as (Hstep & ? & ? & ? & ?).
  rewrite Hstep. simpl. eapply IH; eauto.
Qed.

(** ** Rewards with a zero base reward factor *)
Lemma quo_0_l b r : quo 0 b = Ok r → r = 0.
Proof. unfold quo. destruct (Z.eqb_spec b 0); [done|]. intros; simplify_eq. by apply Z.div_0_l. Qed.

Lemma flagReward_zero w a i r : flagReward 0 w a i = Ok r → r = 0.
Proof.
  unfold flagReward. intros (? & _ & H)%bind_Ok_inv. revert H.
  change (0 * w) with 0. change (u64 0) with 0.
  rewrite Z.mul_0_l. apply quo_0_l.
Qed.
Lemma flagPenalty_zero w r : flagPenalty 0 w = Ok r → r = 0.
Proof. unfold flagPenalty. rewrite Z.mul_0_l, (u64_small 0) by done. apply quo_0_l. Qed.

Definition no_effect (d : AttDelta) : Prop :=
  HeadReward d = 0 ∧ SourceReward d = 0 ∧ TargetReward d = 0 ∧ SourcePenalty d = 0 ∧ TargetPenalty d = 0.

Lemma attestationDelta_zero bal v den leak d : attestationDelta bal v 0 den leak = Ok d → no_effect d.
Proof.
  unfold attestationDelta. destruct (_ || _); [intros; by simplify_eq|].
  intros (inc & _ & H)%bind_Ok_inv. revert H. rewrite Z.mul_0_r, (u64_small 0) by done.
  intros (act & _ & H)%bind_Ok_inv. apply bind_Ok_inv in H as ([sr sp] & Hs & H).
  apply bind_Ok_inv in H as ([tr tp] & Ht & H). apply bind_Ok_inv in H as (hr & Hh & H).
  apply bind_Ok_inv in H as (ip & _ & H). simplify_eq. unfold no_effect. simpl.
  repeat case_match;
    repeat match goal with
    | H : (_ ≫= _) = Ok _ |- _ => apply bind_Ok_inv in H as (? & ? & H)
    | H : flagReward 0 _ _ _ = Ok _ |- _ => apply flagReward_zero in H
    | H : flagPenalty 0 _ = Ok _ |- _ => apply flagPenalty_zero in H
    end; simplify_eq; done.
Qed.

Lemma deltasLoop_zero bal den leak vals ds : deltasLoop bal 0 den leak vals = Ok ds → Forall no_effect ds.
Proof.
  revert ds. induction vals as [|v vals IH]; intros ds; simpl; [intros; by simplify_eq|].
  intros (d & Hd & H)%bind_Ok_inv. apply bind_Ok_inv in H as (ds' & Hds & H). simplify_eq.
  constructor; eauto using attestationDelta_zero.
Qed.

Lemma rewardsLoop_zero vals : ∀ ds bs vals' bs', Forall no_effect ds → Forall is_u64 bs →
  rewardsLoop vals ds bs = Ok (vals', bs') → bs' = bs.
Proof.
  induction vals as [|v vals IH]; intros [|d ds] [|b bs] vals' bs' Hds Hbs; simpl; try (intros; by simplify_eq).
  apply Forall_cons in Hds as [(-> & -> & -> & -> & ->) Hds]. apply Forall_cons in Hbs as [Hb Hbs].
  repeat change (0 +64 0) with 0. unfold IncreaseBalanceWithVal.
  rewrite Add64_fits by (unfold is_u64 in *; lia). simpl. rewrite Z.add_0_r.
  intros ([vals1 rest] & Hrest & H)%bind_Ok_inv. simplify_eq. f_equal; [|by eapply IH].
  unfold DecreaseBalanceWithVal, is_u64 in *. rewrite Z.gtb_ltb. destruct (Z.ltb_spec b 0); [lia|].
  rewrite Z.sub_0_r. by apply u64_small.
Qed.

Lemma AttestationsDelta_zero s bal vals c ds c' : BaseRewardFactor = 0 →
  AttestationsDelta s bal vals c = (Ok ds, c') → Forall no_effect ds.
Proof.
  intros Hf. unfold AttestationsDelta. rewrite Hf, Z.mul_0_r, (u64_small 0) by done.
  intros (? & ? & _ & H)%M_bind_Ok_inv. apply M_bind_Ok_inv in H as (root & c1 & _ & H).
  apply M_bind_Ok_inv in H as (m & c2 & Hm & H). unfold mlift in Hm. injection Hm as Hm <-.
  apply quo_0_l in Hm as ->. apply M_bind_Ok_inv in H as (q & c3 & _ & H).
  unfold mlift in H. injection H as H _. by eapply deltasLoop_zero.
Qed.

(** When [BASE_REWARD_FACTOR] is zero rewards and penalties leave the state as it was, whatever
    the attesting records, the inactivity scores and the outcome. *)
Lemma rewards_leave_state s c bal vals :
  BaseRewardFactor = 0 → Forall is_u64 (balances s) →
  (ProcessRewardsAndPenaltiesPrecompute bal vals (s, c)).2.1 = s.
Proof.
  intros Hf Hbs. unfold ProcessRewardsAndPenaltiesPrecompute.
  destruct (CurrentEpoch (slot s)) as [e| | |]; [|done..]. destruct (e =? GenesisEpoch); [done|].
  destruct (_ || _); [done|]. destruct (AttestationsDelta s bal vals c) as [[ds| | |] c'] eqn:Hd; [|done..].
  destruct (rewardsLoop vals ds (balances s)) as [[vals' bs]| | |] eqn:Hr; [|done..]. simpl.
  rewrite (rewardsLoop_zero vals ds (balances s) vals' bs); [by destruct s| |done|done].
  by eapply AttestationsDelta_zero.
Qed.
End facts.

Section unrealized.
Context `{cfg : BeaconChainConfig} `{ecfg : EpochConfig} `{bv : Bitvector4}.

Lemma UnrealizedCheckpointBalances_agree s e vals0 bal0 vals bal :
  at_epoch_end s e → 1 ≤ e → version s ≠ version_Phase0 →
  Forall (λ v, is_u64 (EffectiveBalance v)) (validators s) →
  length (currentEpochParticipation s) = length (validators s) →
  length (previousEpochParticipation s) = length (validators s) →
  InitializePrecomputeValidators s = Ok (vals0, bal0) →
  ProcessEpochParticipation s bal0 vals0 = Ok (vals, bal) →
  UnrealizedCheckpointBalances s =
    Ok (ActiveCurrentEpoch bal, PrevEpochTargetAttested bal, CurrentEpochTargetAttested bal).
Proof.
  intros He He1 Hver Hvs Hcp Hpp Hinit Hpart. unfold InitializePrecomputeValidators in Hinit.
  rewrite (PrevEpoch_end s e He) in Hinit. unfold CurrentEpoch in Hinit. rewrite (ToEpoch_end s e He) in Hinit.
  simpl in Hinit. rewrite Z.max_r in Hinit by lia. apply bind_Ok_inv in Hinit as (scores & _ & Hinit).
  destruct (negb _); [done|]. apply bind_Ok_inv in Hinit as ([vs [a b]] & Hloop & Hinit). simplify_eq.
  unfold ProcessEpochParticipation in Hpart. destruct (Z.eqb_spec (version s) version_Phase0); [done|].
  apply bind_Ok_inv in Hpart as (vals1 & H1 & Hpart). apply bind_Ok_inv in Hpart as (vals2 & H2 & Hpart). simplify_eq.
  unfold UnrealizedCheckpointBalances. destruct (Z.eqb_spec (version s) version_Phase0); [done|].
  unfold CurrentEpoch. rewrite (ToEpoch_end s e He). simpl. unfold NumValidators, len. rewrite Hcp, Hpp.
  rewrite Z.ltb_irrefl. simpl.
  rewrite (unrealizedLoop_agrees (version s) e (validators s) scores _ _ 0 0 0 0 (mkBalance a b 0 0 0 0 0)
             vals0 vals1 vals a b); try done; try (unfold is_u64; lia).
  simpl. unfold UpdateBalance, EnsureBalancesLowerBound, atLeast. simpl.
  assert (∀ vs bal, ActiveCurrentEpoch (foldl (updateBalanceStep (version s)) bal vs) = ActiveCurrentEpoch bal) as Hact.
  { intros vs. induction vs as [|v vs IH]; intros bal'; [done|]. simpl. rewrite IH.
    unfold updateBalanceStep. by destruct (IsSlashed v). }
  by rewrite Hact.
Qed.

(** C34: the unrealized checkpoints are the ones the epoch transition realizes.  At the last
    slot of an epoch, on a state whose participation covers the registry, the one-pass
    [UnrealizedCheckpoints] returns exactly the justified and finalized checkpoints that
    [ProcessJustificationAndFinalizationPreCompute] puts in the state from the balances that
    [InitializePrecomputeValidators] and [ProcessEpochParticipation] precompute. *)
Theorem unrealized_is_realized s e vals0 bal0 vals bal s' :
  at_epoch_end s e → GenesisEpoch = 0 → version s ≠ version_Phase0 →
  Forall (λ v, is_u64 (EffectiveBalance v)) (validators s) →
  length (currentEpochParticipation s) = length (validators s) →
  length (previousEpochParticipation s) = length (validators s) →
  InitializePrecomputeValidators s = Ok (vals0, bal0) →
  ProcessEpochParticipation s bal0 vals0 = Ok (vals, bal) →
  ProcessJustificationAndFinalizationPreCompute bal s = (Ok tt, s') →
  UnrealizedCheckpoints s = Ok (currentJustifiedCheckpoint s', finalizedCheckpoint s').
Proof.
  intros He Hg Hver Hvs Hcp Hpp Hinit Hpart Hrun. unfold UnrealizedCheckpoints.
  rewrite (ToEpoch_end s e He), Hg. change (0 +64 1) with 1. simpl. revert Hrun.
  unfold ProcessJustificationAndFinalizationPreCompute.
  rewrite (M_bind_Ok _ _ _ (SlotsPerEpoch * 2) s) by (unfold mlift; by rewrite (EpochStart_end s e 2) by (destruct He; done || lia)).
  rewrite (M_bind_Ok _ _ _ s s) by done.
  destruct (Z.leb_spec e 1).
  - destruct (Z.leb_spec (slot s) (SlotsPerEpoch * 2)); [|destruct He; nia]. intros [= <-]. done.
  - destruct (Z.leb_spec (slot s) (SlotsPerEpoch * 2)); [destruct He; nia|].
    rewrite (UnrealizedCheckpointBalances_agree s e vals0 bal0 vals bal) by (done || lia). simpl.
    unfold weighJustificationAndFinalization. rewrite (M_bind_Ok _ _ _ s s) by done.
    intros ([jc fc] & s1 & Hc & Hrest)%M_bind_Ok_inv. unfold mlift in Hc. injection Hc as -> <-.
    unfold mbind, M_bind, mmodify in Hrest. by injection Hrest as <-.
Qed.
End unrealized.

(** ** Witnesses *)
#[local] Existing Instance mainnet_config.
#[local] Existing Instance mainnet_epoch_config.

Definition zero_factor : EpochConfig := {|
  SlotsPerHistoricalRoot := 8192; EffectiveBalanceIncrement := 1000000000;
  MaxEffectiveBalance := 32000000000; MaxEffectiveBalanceElectra := 2048000000000;
  MinActivationBalance := 32000000000; EjectionBalance := 16000000000;
  HysteresisQuotient := 4; HysteresisDownwardMultiplier := 1; HysteresisUpwardMultiplier := 5;
  MinPerEpochChurnLimit := 4; MinPerEpochChurnLimitElectra := 128000000000;
  MaxPerEpochActivationChurnLimit := 8; MaxPerEpochActivationExitChurnLimit := 256000000000;
  ChurnLimitQuotient := 65536; MaxSeedLookahead := 4; MinValidatorWithdrawabilityDelay := 256;
  EpochsPerSlashingsVector := 8192; InactivityScoreBias := 4; InactivityScoreRecoveryRate := 16;
  MinEpochsToInactivityPenalty := 4; InactivityPenaltyQuotient := 67108864;
  InactivityPenaltyQuotientAltair := 50331648; InactivityPenaltyQuotientBellatrix := 16777216;
  ProportionalSlashingMultiplier := 1; ProportionalSlashingMultiplierAltair := 2;
  ProportionalSlashingMultiplierBellatrix := 3; MinSlashingPenaltyQuotient := 128;
  MinSlashingPenaltyQuotientAltair := 64; MinSlashingPenaltyQuotientBellatrix := 32;
  MinSlashingPenaltyQuotientElectra := 4096; ProposerRewardQuotient := 8;
  WhistleBlowerRewardQuotient := 512; WhistleBlowerRewardQuotientElectra := 4096;
  BaseRewardFactor := 0; TimelySourceFlagIndex := 0; TimelyTargetFlagIndex := 1;
  TimelyHeadFlagIndex := 2; TimelySourceWeight := 14; TimelyTargetWeight := 26;
  TimelyHeadWeight := 14; WeightDenominator := 64 |}.

(** Three validators at the end of epoch 3, the last one inactive with a high score. *)
Definition ex_val (slashed : bool) : Validator := mkValidator 32000000000 slashed 0 0 MaxUint64 MaxUint64 [] [].
Definition ex_epoch3 : BeaconState :=
  mkState version_Altair 127 [ex_val false; ex_val false; ex_val false]
    [32000000001; 32000000002; 31000000000] [] [0; 0; 7200] [7; 7; 0] [7; 7; 0] (seqZ 0 8192) []
    [3] (mkCheckpoint 0 0) (mkCheckpoint 2 64) (mkCheckpoint 0 0) 0 0 0 0 [] [] 0 0 [] [] []
    0 0 0 (mkEth1Data [] 0) ∅.
Definition ex_pre : gores (list PreValidator * Balance) :=
  '(vals, bal) ← InitializePrecomputeValidators ex_epoch3; ProcessEpochParticipation ex_epoch3 bal vals.

Lemma unrealized_is_realized_witness :
  at_epoch_end ex_epoch3 3 ∧ UnrealizedCheckpoints (bv := nibble) ex_epoch3 = Ok (mkCheckpoint 3 96, mkCheckpoint 2 64).
Proof.
  assert (at_epoch_end ex_epoch3 3) as Hend.
  { split; [vm_compute; discriminate|vm_compute; discriminate|reflexivity|lia|reflexivity|reflexivity|].
    exists 3. split; [reflexivity|lia]. }
  split; [exact Hend|].
  assert (∃ vals0 bal0 vals bal, InitializePrecomputeValidators ex_epoch3 = Ok (vals0, bal0) ∧
            ProcessEpochParticipation ex_epoch3 bal0 vals0 = Ok (vals, bal) ∧
            (ProcessJustificationAndFinalizationPreCompute (bv := nibble) bal ex_epoch3).1 = Ok tt ∧
            currentJustifiedCheckpoint (ProcessJustificationAndFinalizationPreCompute (bv := nibble) bal ex_epoch3).2 = mkCheckpoint 3 96 ∧
            finalizedCheckpoint (ProcessJustificationAndFinalizationPreCompute (bv := nibble) bal ex_epoch3).2 = mkCheckpoint 2 64)
    as (vals0 & bal0 & vals & bal & Hinit & Hpart & Hok & Hjc & Hfc).
  { eexists _, _, _, _. split; [vm_compute; reflexivity|]. split; [vm_compute; reflexivity|].
    split_and!; vm_compute; reflexivity. }
  rewrite <-Hjc, <-Hfc.
  apply (unrealized_is_realized (bv := nibble) ex_epoch3 3 vals0 bal0 vals bal);
    [exact Hend|reflexivity|vm_compute; discriminate|repeat constructor; vm_compute; done|reflexivity|reflexivity
    |exact Hinit|exact Hpart|].
  rewrite <-Hok. by destruct (ProcessJustificationAndFinalizationPreCompute bal ex_epoch3).
Defined.
