(* ===== verification/Registry.v ===== *)
(** * Validator exits, slashings and the registry updates of an epoch

    beacon-chain/core/validators (validator.go, slashing.go), core/epoch/epoch_processing.go
    (inactivity ejection and its quorum floor, registry updates, slashings, effective
    balances), core/electra (registry_updates.go, churn.go) and
    state-native/setters_churn.go.  [ExitInfo] is an object that the exits of one epoch
    mutate in turn, so exits run over the state and that object; the callers modelled never
    pass a nil pointer.  The proposer of the slot depends on the RANDAO seed and on caches
    and is an argument of [SlashValidator]. *)
From S2P Require Import Prelude MathHelper Primitives Config SlotTime MVSlice EpochConfig BeaconState.

Record ExitInfo := mkExitInfo { HighestExitEpoch : Z; Churn : Z; TotalActiveBalance_ : Z }.

Definition onState {S A} (m : M BeaconState A) : M (BeaconState * S) A := λ '(s, x),
  let '(r, s') := m s in (r, (s', x)).
Definition setInfo (highest churn : Z) : M (BeaconState * ExitInfo) unit :=
  mmodify (λ '(s, ei), (s, mkExitInfo highest churn (TotalActiveBalance_ ei))).

Section registry.
Context `{cfg : BeaconChainConfig} `{ecfg : EpochConfig}.

(** ** validators/validator.go *)
Definition exitInfoStep (currentEpoch : Z) (ei : ExitInfo) (v : Validator) : ExitInfo :=
  let e := ExitEpoch v in
  let '(highest, churn) :=
    if negb (e =? FarFutureEpoch) then
      if e >? HighestExitEpoch ei then (e, 1)
      else if e =? HighestExitEpoch ei then (HighestExitEpoch ei, Churn ei +64 1)
      else (HighestExitEpoch ei, Churn ei)
    else (HighestExitEpoch ei, Churn ei) in
  mkExitInfo highest churn (sumActive currentEpoch (TotalActiveBalance_ ei) v).

Definition ExitInformation (s : BeaconState) : gores ExitInfo :=
  currentEpoch ← ToEpoch (slot s);
  let ei := foldl (exitInfoStep currentEpoch) (mkExitInfo 0 0 0) (validators s) in
  Ok (mkExitInfo (HighestExitEpoch ei) (Churn ei) (Z.max EffectiveBalanceIncrement (TotalActiveBalance_ ei))).

Definition initiateValidatorExitPreElectra : M (BeaconState * ExitInfo) unit :=
  '(s, ei) ← mget;
  currentEpoch ← mlift (CurrentEpoch (slot s));
  let exitableEpoch := ActivationExitEpoch currentEpoch in
  (if exitableEpoch >? HighestExitEpoch ei then setInfo exitableEpoch 0 else mret tt);;
  currentChurn ← mlift (ValidatorExitChurnLimit (ActiveValidatorCount s currentEpoch));
  '(_, ei) ← mget;
  if Churn ei >=? currentChurn then
    highest ← mlift (Epoch.SafeAdd (HighestExitEpoch ei) 1);
    setInfo highest 1
  else setInfo (HighestExitEpoch ei) (Churn ei +64 1).

(** state-native/setters_churn.go.  [ActivationExitChurnLimit] is the divisor. *)
Definition exitEpochAndUpdateChurn (totalActiveBalance exitBalance : Z) : M BeaconState Z :=
  s ← mget;
  currentEpoch ← mlift (ToEpoch (slot s));
  let earliest := Z.max (earliestExitEpoch s) (ActivationExitEpoch currentEpoch) in
  perEpochChurn ← mlift (ActivationExitChurnLimit totalActiveBalance);
  let toConsume := if earliestExitEpoch s <? earliest then perEpochChurn else exitBalanceToConsume s in
  '(earliest, toConsume) ←
    (if exitBalance >? toConsume then
       let balanceToProcess := exitBalance -64 toConsume in
       q ← mlift (quo (balanceToProcess -64 1) perEpochChurn);
       let additionalEpochs := q +64 1 in
       mret (earliest +64 additionalEpochs, toConsume +64 (additionalEpochs *64 perEpochChurn))
     else mret (earliest, toConsume) : M BeaconState (Z * Z));
  mmodify (set_exitChurn (toConsume -64 exitBalance) earliest);;
  mret earliest.

Definition ExitEpochAndUpdateChurnForTotalBal (totalActiveBalance exitBalance : Z) : M BeaconState Z :=
  s ← mget;
  if version s <? version_Electra then mfail errNotSupported
  else exitEpochAndUpdateChurn totalActiveBalance exitBalance.
Definition ExitEpochAndUpdateChurn (exitBalance : Z) : M BeaconState Z :=
  s ← mget;
  if version s <? version_Electra then mfail errNotSupported
  else
    activeBal ← mlift (TotalActiveBalance s);
    exitEpochAndUpdateChurn activeBal exitBalance.

(** [InitiateValidatorExit] and [InitiateValidatorExitForTotalBal] differ in [churn]. *)
Definition initiateExit (churn : Z → M BeaconState Z) (idx : Z) : M (BeaconState * ExitInfo) unit :=
  '(s, _) ← mget;
  validator ← mlift (ValidatorAtIndex s idx);
  if negb (ExitEpoch validator =? FarFutureEpoch) then mfail ErrValidatorAlreadyExited
  else
    (if version s <? version_Electra then initiateValidatorExitPreElectra
     else
       highest ← onState (churn (EffectiveBalance validator));
       '(_, ei) ← mget;
       setInfo highest (Churn ei));;
    '(_, ei) ← mget;
    withdrawable ← mlift (Epoch.SafeAddEpoch (HighestExitEpoch ei) MinValidatorWithdrawabilityDelay);
    onState (UpdateValidatorAtIndex idx (set_exit (HighestExitEpoch ei) withdrawable validator)).

Definition InitiateValidatorExit (idx : Z) : M (BeaconState * ExitInfo) unit :=
  initiateExit ExitEpochAndUpdateChurn idx.
Definition InitiateValidatorExitForTotalBal (idx totalActiveBalance : Z) : M (BeaconState * ExitInfo) unit :=
  initiateExit (ExitEpochAndUpdateChurnForTotalBal totalActiveBalance) idx.

(** [if err != nil && !errors.Is(err, ErrValidatorAlreadyExited) { return err }] *)
Definition ignoreExited {S} (m : M S unit) : M S unit := λ s,
  match m s with
  | (Err ErrValidatorAlreadyExited, s') => (Ok tt, s')
  | r => r
  end.

(** validators/slashing.go *)
Definition SlashingParamsPerVersion (v : Z) : gores (Z * Z * Z) :=
  if v >=? version_Electra then
    Ok (MinSlashingPenaltyQuotientElectra, ProposerRewardQuotient, WhistleBlowerRewardQuotientElectra)
  else if v >=? version_Bellatrix then
    Ok (MinSlashingPenaltyQuotientBellatrix, ProposerRewardQuotient, WhistleBlowerRewardQuotient)
  else if v >=? version_Altair then
    Ok (MinSlashingPenaltyQuotientAltair, ProposerRewardQuotient, WhistleBlowerRewardQuotient)
  else if v >=? version_Phase0 then
    Ok (MinSlashingPenaltyQuotient, ProposerRewardQuotient, WhistleBlowerRewardQuotient)
  else Err errMessage.

Definition SlashValidator (BeaconProposerIndex : BeaconState → gores Z) (slashedIdx : Z)
    : M (BeaconState * ExitInfo) unit :=
  '(_, ei) ← mget;
  ignoreExited (InitiateValidatorExitForTotalBal slashedIdx (TotalActiveBalance_ ei));;
  '(s, _) ← mget;
  currentEpoch ← mlift (ToEpoch (slot s));
  validator ← mlift (ValidatorAtIndex s slashedIdx);
  let maxWithdrawableEpoch := Epoch.MaxEpoch (WithdrawableEpoch validator) (currentEpoch +64 EpochsPerSlashingsVector) in
  onState (UpdateValidatorAtIndex slashedIdx (set_slashed maxWithdrawableEpoch validator));;
  i ← mlift (rem currentEpoch EpochsPerSlashingsVector);
  currentSlashing ← mlift (index_at (slashings s) i);
  onState (UpdateSlashingsAtIndex i (currentSlashing +64 EffectiveBalance validator));;
  '(slashingQuotient, proposerRewardQuotient, whistleblowerRewardQuotient) ← mlift (SlashingParamsPerVersion (version s));
  slashingPenalty ← mlift (Div64 (EffectiveBalance validator) slashingQuotient);
  onState (DecreaseBalance slashedIdx slashingPenalty);;
  '(s, _) ← mget;
  proposerIdx ← mlift (BeaconProposerIndex s);
  whistleblowerReward ← mlift (Div64 (EffectiveBalance validator) whistleblowerRewardQuotient);
  proposerReward ← mlift (Div64 whistleblowerReward proposerRewardQuotient);
  onState (IncreaseBalance proposerIdx proposerReward);;
  onState (IncreaseBalance proposerIdx (whistleblowerReward -64 proposerReward)).

(** The four index queries *)
Definition indicesWhere (p : Validator → bool) (vs : list Validator) : list Z :=
  fst <$> filter (λ iv, p iv.2 = true) (enumerate vs).
Definition ActivatedValidatorIndices (epoch : Z) (vs : list Validator) : list Z :=
  indicesWhere (λ v, (ActivationEpoch v <=? epoch) && (epoch <? ExitEpoch v)) vs.
Definition SlashedValidatorIndices (epoch : Z) (vs : list Validator) : list Z :=
  indicesWhere (λ v, (WithdrawableEpoch v =? Epoch.MaxEpoch (WithdrawableEpoch v) (epoch +64 EpochsPerSlashingsVector))
                     && Slashed v) vs.
Definition ExitedValidatorIndices (epoch : Z) (vs : list Validator) : list Z :=
  indicesWhere (λ v, (ExitEpoch v =? epoch) && (EffectiveBalance v >? EjectionBalance)) vs.
Definition EjectedValidatorIndices (epoch : Z) (vs : list Validator) : list Z :=
  indicesWhere (λ v, (ExitEpoch v =? epoch) && (EffectiveBalance v <=? EjectionBalance)) vs.

(** ** epoch/epoch_processing.go: inactivity ejection *)
Definition inactivityEjectionMinDowntimeSeconds : Z := 6 * 60 * 60.

(** When [EpochStart] fails its slot is 0; the failure is tested after the product. *)
Definition InactivityEjectionThreshold (epoch : Z) : gores Z :=
  let start := EpochStart epoch in
  d ← SlotDurationAt (match start with Ok s => s | _ => 0 end);
  let epochMillis := u64 (Z.quot d Millisecond) *64 SlotsPerEpoch in
  match start with
  | Panic => Panic
  | OutOfFuel => OutOfFuel
  | Err _ => Ok MaxUint64
  | Ok _ =>
      if (epochMillis =? 0) || (InactivityScoreBias =? 0) then Ok MaxUint64
      else
        let leakEpochs := (inactivityEjectionMinDowntimeSeconds *64 1000) / epochMillis in
        let leakEpochs := if leakEpochs =? 0 then 1 else leakEpochs in
        Ok (leakEpochs *64 InactivityScoreBias)
  end.

(** What the read-only pass over the validators collects. *)
Record RegistryScan := mkScan {
  eligibleForActivationQ : list Z;
  eligibleForActivation : list Z;
  eligibleForEjection : list Z;
  inactivityCandidates : list Z;
  activeCount : Z
}.

Definition scanStep (st : BeaconState) (currentEpoch inactivityThreshold : Z) (inactivityScores : list Z)
    (sc : RegistryScan) (iv : Z * Validator) : gores RegistryScan :=
  let '(idx, val) := iv in
  let isActive := IsActiveValidator val currentEpoch in
  let belowEjectionBalance := EffectiveBalance val <=? EjectionBalance in
  highInactivity ← (if len inactivityScores >? 0 then
                      score ← index_at inactivityScores idx; Ok (score >=? inactivityThreshold)
                    else Ok false : gores bool);
  Ok (mkScan
        (eligibleForActivationQ sc ++ (if IsEligibleForActivationQueue val currentEpoch then [idx] else []))
        (eligibleForActivation sc ++ (if IsEligibleForActivation st val then [idx] else []))
        (eligibleForEjection sc ++ (if isActive && belowEjectionBalance then [idx] else []))
        (inactivityCandidates sc ++
           (if isActive && negb belowEjectionBalance && highInactivity then [idx] else []))
        (activeCount sc + (if isActive then 1 else 0))).

Fixpoint scanLoop (st : BeaconState) (currentEpoch inactivityThreshold : Z) (inactivityScores : list Z)
    (sc : RegistryScan) (ivs : list (Z * Validator)) : gores RegistryScan :=
  match ivs with
  | [] => Ok sc
  | iv :: ivs' =>
      sc ← scanStep st currentEpoch inactivityThreshold inactivityScores sc iv;
      scanLoop st currentEpoch inactivityThreshold inactivityScores sc ivs'
  end.

(** The quorum floor: balance ejections, then inactivity ejections up to the capacity. *)
Definition applyQuorumFloor (sc : RegistryScan) : list Z :=
  if (length (inactivityCandidates sc) =? 0)%nat then eligibleForEjection sc
  else
    let floor := (2 * activeCount sc) / 3 in
    let floor := if floor <? 1 then 1 else floor in
    let capacity := activeCount sc - len (eligibleForEjection sc) - floor in
    let capacity := if capacity <? 0 then 0 else capacity in
    let candidates := if len (inactivityCandidates sc) >? capacity
                      then take (Z.to_nat capacity) (inactivityCandidates sc)
                      else inactivityCandidates sc in
    eligibleForEjection sc ++ candidates.

(** [v, err := st.ValidatorAtIndex(idx); v.X = ...; st.UpdateValidatorAtIndex(idx, v)] *)
Definition modifyValidator (f : Validator → Validator) (idx : Z) : M BeaconState unit :=
  st ← mget;
  v ← mlift (ValidatorAtIndex st idx);
  UpdateValidatorAtIndex idx (f v).

Definition ejectLoop (ejections : list Z) (ei : ExitInfo) : M BeaconState unit := λ st,
  let '(r, (st', _)) := mfor ejections (λ idx, ignoreExited (InitiateValidatorExit idx)) (st, ei) in (r, st').

(** sortable_indices.go: by activation eligibility epoch, then by index. *)
Definition sortLe (st : BeaconState) (i j : Z) : Prop :=
  match ValidatorAtIndex st i, ValidatorAtIndex st j with
  | Ok vi, Ok vj =>
      let a := ActivationEligibilityEpoch vi in
      let b := ActivationEligibilityEpoch vj in
      a < b ∨ a = b ∧ i ≤ j
  | _, _ => True
  end.
#[global] Instance sortLe_dec st i j : Decision (sortLe st i j).
Proof. unfold sortLe. destruct (ValidatorAtIndex st i), (ValidatorAtIndex st j); apply _. Defined.

Definition ProcessRegistryUpdates : M BeaconState unit :=
  st ← mget;
  currentEpoch ← mlift (CurrentEpoch (slot st));
  inactivityScores ← mlift (
    if version st >=? version_Altair then
      scores ← InactivityScores st;
      if (len scores >? 0) && negb (len scores =? NumValidators st) then Err errMessage else Ok scores
    else Ok [] : gores (list Z));
  inactivityThreshold ← mlift (InactivityEjectionThreshold currentEpoch);
  scan ← mlift (scanLoop st currentEpoch inactivityThreshold inactivityScores
                  (mkScan [] [] [] [] 0) (enumerate (validators st)));
  let ejections := applyQuorumFloor scan in
  mfor (eligibleForActivationQ scan) (modifyValidator (set_activationEligibility (currentEpoch +64 1)));;
  (if negb (length ejections =? 0)%nat then
     st ← mget;
     exitInfo ← mlift (ExitInformation st);
     ejectLoop ejections exitInfo
   else mret tt);;
  st ← mget;
  let activation := merge_sort (sortLe st) (eligibleForActivation scan) in
  let activeValidatorCount := ActiveValidatorCount st currentEpoch in
  churnLimit ← mlift (if version st >=? version_Deneb
                      then ValidatorActivationChurnLimitDeneb activeValidatorCount
                      else ValidatorActivationChurnLimit activeValidatorCount);
  let limit := Z.min churnLimit (len activation) in
  mfor (take (Z.to_nat limit) activation) (modifyValidator (set_activation (ActivationExitEpoch currentEpoch))).

(** ** electra/registry_updates.go *)
Definition electraEjects (currentEpoch : Z) (v : Validator) : bool :=
  (EffectiveBalance v <=? EjectionBalance) && IsActiveValidator v currentEpoch.

(** Every exit gets an [ExitInfo] of its own, which Electra does not read. *)
Definition ejectElectra (idx : Z) : M BeaconState unit := λ st,
  let '(r, (st', _)) := ignoreExited (InitiateValidatorExit idx) (st, mkExitInfo 0 0 0) in (r, st').

Definition ProcessRegistryUpdatesElectra : M BeaconState unit :=
  st ← mget;
  currentEpoch ← mlift (CurrentEpoch (slot st));
  let activationQ := indicesWhere (λ v, IsEligibleForActivationQueue v currentEpoch) (validators st) in
  let ejections := indicesWhere (electraEjects currentEpoch) (validators st) in
  let activation := indicesWhere (IsEligibleForActivation st) (validators st) in
  mfor activationQ (modifyValidator (set_activationEligibility (currentEpoch +64 1)));;
  mfor ejections ejectElectra;;
  mfor activation (modifyValidator (set_activation (ActivationExitEpoch currentEpoch))).

(** electra/churn.go *)
Definition ComputeConsolidationEpochAndUpdateChurn (consolidationBalance : Z) : M BeaconState Z :=
  s ← mget;
  (if version s <? version_Electra then mfail errNotSupported else mret tt);;
  currentEpoch ← mlift (ToEpoch (slot s));
  let earliest := Z.max (earliestConsolidationEpoch s) (ActivationExitEpoch currentEpoch) in
  activeBal ← mlift (TotalActiveBalance s);
  perEpochChurn ← mlift (ConsolidationChurnLimit activeBal);
  let toConsume := if earliestConsolidationEpoch s <? earliest then perEpochChurn
                   else consolidationBalanceToConsume s in
  '(earliest, toConsume) ←
    (if consolidationBalance >? toConsume then
       let balanceToProcess := consolidationBalance -64 toConsume in
       q ← mlift (Div64 (balanceToProcess -64 1) perEpochChurn);
       let additionalEpochs := q +64 1 in
       mret (earliest +64 additionalEpochs, toConsume +64 (additionalEpochs *64 perEpochChurn))
     else mret (earliest, toConsume) : M BeaconState (Z * Z));
  mmodify (set_consolidationChurn (toConsume -64 consolidationBalance) earliest);;
  mret earliest.

(** ** epoch/epoch_processing.go: slashings *)
Definition StateProportionalSlashingMultiplier (s : BeaconState) : gores Z :=
  if version s >=? version_Bellatrix then Ok ProportionalSlashingMultiplierBellatrix
  else if version s >=? version_Altair then Ok ProportionalSlashingMultiplierAltair
  else if version s >=? version_Phase0 then Ok ProportionalSlashingMultiplier
  else Err errNotSupported.

Fixpoint sumSlashings (total : Z) (slashings : list Z) : gores Z :=
  match slashings with
  | [] => Ok total
  | x :: slashings' => total ← Add64 total x; sumSlashings total slashings'
  end.

(** The penalty of one slashed validator. *)
Definition slashingPenaltyOf (ver minSlashing totalBalance perIncrement effectiveBalance : Z) : gores Z :=
  increments ← quo effectiveBalance EffectiveBalanceIncrement;
  if ver >=? version_Electra then Ok (perIncrement *64 increments)
  else q ← quo (increments *64 minSlashing) totalBalance; Ok (q *64 EffectiveBalanceIncrement).

(** The balances after the callback for each validator; a balance that is missing panics. *)
Fixpoint slashLoop (currentEpoch ver minSlashing totalBalance perIncrement : Z)
    (vs : list Validator) (bals : list Z) : gores (list Z) :=
  match vs with
  | [] => Ok bals
  | v :: vs' =>
      if Slashed v && ((currentEpoch +64 EpochsPerSlashingsVector / 2) =? WithdrawableEpoch v) then
        penalty ← slashingPenaltyOf ver minSlashing totalBalance perIncrement (EffectiveBalance v);
        match bals with
        | [] => Panic
        | b :: bals' =>
            rest ← slashLoop currentEpoch ver minSlashing totalBalance perIncrement vs' bals';
            Ok (DecreaseBalanceWithVal b penalty :: rest)
        end
      else
        rest ← slashLoop currentEpoch ver minSlashing totalBalance perIncrement vs' (tail bals);
        Ok (match bals with [] => [] | b :: _ => b :: rest end)
  end.

Definition ProcessSlashings : M BeaconState unit :=
  st ← mget;
  slashingMultiplier ← mlift (StateProportionalSlashingMultiplier st);
  currentEpoch ← mlift (CurrentEpoch (slot st));
  totalBalance ← mlift (TotalActiveBalance st);
  totalSlashing ← mlift (sumSlashings 0 (slashings st));
  let minSlashing := Z.min (totalSlashing *64 slashingMultiplier) totalBalance in
  perIncrement ← mlift (if version st >=? version_Electra
                        then t ← quo totalBalance EffectiveBalanceIncrement; quo minSlashing t
                        else Ok 0 : gores Z);
  bals ← mlift (slashLoop currentEpoch (version st) minSlashing totalBalance perIncrement
                  (validators st) (balances st));
  mmodify (set_balances bals).

Definition ProcessSlashingsReset : M BeaconState unit :=
  st ← mget;
  currentEpoch ← mlift (CurrentEpoch (slot st));
  let nextEpoch := currentEpoch +64 1 in
  slashedEpoch ← mlift (rem nextEpoch EpochsPerSlashingsVector);
  if negb (len (slashings st) =? EpochsPerSlashingsVector) then mfail errMessage
  else UpdateSlashingsAtIndex slashedEpoch 0.

(** ** epoch/epoch_processing.go: effective balances with hysteresis *)
Definition updateEffectiveBalance (downwardThreshold upwardThreshold balance : Z) (v : Validator) : gores Validator :=
  if ((balance +64 downwardThreshold) <? EffectiveBalance v) || ((EffectiveBalance v +64 upwardThreshold) <? balance) then
    r ← rem balance EffectiveBalanceIncrement;
    let effectiveBal := Z.min MaxEffectiveBalance (balance -64 r) in
    Ok (if negb (effectiveBal =? EffectiveBalance v) then set_effectiveBalance effectiveBal v else v)
  else Ok v.

(** The validators before an error keep their update. *)
Fixpoint effectiveLoop (down up : Z) (vs : list Validator) (bals : list Z) : gores unit * list Validator :=
  match vs with
  | [] => (Ok tt, [])
  | v :: vs' =>
      match bals with
      | [] => (Err errMessage, vs)
      | b :: bals' =>
          match updateEffectiveBalance down up b v with
          | Ok v' => let '(r, rest) := effectiveLoop down up vs' bals' in (r, v' :: rest)
          | Err e => (Err e, vs) | Panic => (Panic, vs) | OutOfFuel => (OutOfFuel, vs)
          end
      end
  end.

Definition applyEffective (down up : Z) : M BeaconState unit := λ st,
  let '(r, vs) := effectiveLoop down up (validators st) (balances st) in (r, set_validators vs st).

Definition ProcessEffectiveBalanceUpdates : M BeaconState unit :=
  hysteresisInc ← mlift (quo EffectiveBalanceIncrement HysteresisQuotient);
  let downwardThreshold := hysteresisInc *64 HysteresisDownwardMultiplier in
  let upwardThreshold := hysteresisInc *64 HysteresisUpwardMultiplier in
  applyEffective downwardThreshold upwardThreshold.
End registry.
