(* ===== verification/RegistryTheorems.v ===== *)
(** * Exits and ejections: the quorum floor and the exit queue

    The registry updates never start more inactivity exits than the quorum floor allows;
    the exit queue of Electra schedules every exit at the earliest epoch whose cumulative
    churn covers it; before Electra the shared [ExitInfo] object always describes the
    state. *)
From S2P Require Import Prelude MathHelper Primitives Config SlotTime MVSlice EpochConfig BeaconState Registry.

(** ** Counting *)
Definition count {A} (p : A → bool) (l : list A) : Z := len (filter (λ x, p x = true) l).

Lemma count_nil {A} (p : A → bool) : count p [] = 0.
Proof. done. Qed.
Lemma count_cons {A} (p : A → bool) x l : count p (x :: l) = (if p x then 1 else 0) + count p l.
Proof.
  unfold count, len. rewrite filter_cons. destruct (decide (p x = true)) as [->|Hp]; simpl; [lia|].
  by apply not_true_is_false in Hp as ->.
Qed.
Lemma count_app {A} (p : A → bool) l k : count p (l ++ k) = count p l + count p k.
Proof. unfold count, len. rewrite filter_app, length_app. lia. Qed.
Lemma count_nonneg {A} (p : A → bool) l : 0 ≤ count p l.
Proof. unfold count, len. lia. Qed.
Lemma count_ext {A} (p q : A → bool) l : (∀ x, x ∈ l → p x = q x) → count p l = count q l.
Proof.
  induction l as [|x l IH]; intros H; [done|]. rewrite !count_cons, IH by (intros; apply H; by right).
  by rewrite (H x) by left.
Qed.
Lemma count_cover {A} (p q r t : A → bool) l :
  (∀ x, x ∈ l → p x = true → q x || r x || t x = true) → count p l ≤ count q l + count r l + count t l.
Proof.
  induction l as [|x l IH]; intros H; [done|]. rewrite !count_cons.
  pose proof (IH (λ y Hy, H y (list_elem_of_further _ _ _ Hy))) as IH'.
  specialize (H x (list_elem_of_here _ _)). destruct (p x); [|destruct (q x), (r x), (t x); lia].
  specialize (H eq_refl). destruct (q x), (r x), (t x); simpl in *; lia.
Qed.

(** Counting by position. *)
Lemma count_lookup {A} (p : A → bool) l :
  count (λ i, match l !! i with Some x => p x | None => false end) (seq 0 (length l)) = count p l.
Proof.
  induction l as [|x l IH] using rev_ind; [done|]. rewrite length_app, seq_app, !count_app. simpl.
  rewrite <-IH. f_equal.
  - apply count_ext. intros i Hi%elem_of_seq. by rewrite lookup_app_l by lia.
  - rewrite !count_cons, !count_nil. by rewrite list_lookup_middle.
Qed.

Lemma count_members (E : list Z) n :
  count (λ i, bool_decide (Z.of_nat i ∈ E)) (seq 0 n) ≤ len E.
Proof.
  unfold count, len. apply Nat2Z.inj_le.
  rewrite <-(length_fmap Z.of_nat). apply submseteq_length, NoDup_submseteq.
  - apply NoDup_fmap_2; [intros ? ?; lia|]. apply NoDup_filter, NoDup_seq.
  - intros x (i & -> & [Hi _]%list_elem_of_filter)%list_elem_of_fmap. by apply bool_decide_eq_true in Hi.
Qed.

Abbreviation activeAt e := (λ v, IsActiveValidator v e).
Abbreviation ejectable e := (λ v, IsActiveValidator v e && (EffectiveBalance v <=? EjectionBalance)).

Section facts.
Context `{cfg : BeaconChainConfig} `{ecfg : EpochConfig}.

(** ** What the registry updates may change *)

(** [kept E s0 s]: outside the indices [E] every validator has the exit epoch it had in [s0]. *)
Definition kept (E : list Z) (s0 s : BeaconState) : Prop :=
  length (validators s) = length (validators s0) ∧
  ∀ i v0, validators s0 !! i = Some v0 → Z.of_nat i ∉ E →
    ∃ v, validators s !! i = Some v ∧ ExitEpoch v = ExitEpoch v0.

Lemma kept_refl E s : kept E s s.
Proof. split; eauto. Qed.

Lemma kept_update E s0 s idx v : kept E s0 s →
  (0 ≤ idx ∧ idx ∈ E ∨ ∃ old, validators s !! Z.to_nat idx = Some old ∧ ExitEpoch v = ExitEpoch old) →
  kept E s0 (set_validators (<[Z.to_nat idx := v]> (validators s)) s).
Proof.
  intros [Hlen Hk] Hv. split; simpl; [by rewrite length_insert|]. intros i v0 Hv0 Hi.
  destruct (Hk i v0 Hv0 Hi) as (w & Hw & Hexit). destruct (decide (i = Z.to_nat idx)) as [->|Hne].
  - rewrite list_lookup_insert_eq by (by eapply lookup_lt_Some). eexists. split; [done|].
    destruct Hv as [[? HE]|(old & Hold & Heq)]; [by rewrite Z2Nat.id in Hi|]. congruence.
  - rewrite list_lookup_insert_ne by done. eauto.
Qed.

Lemma preserves_modifyValidator E s0 f idx : (∀ v, ExitEpoch (f v) = ExitEpoch v) →
  preserves (kept E s0) (modifyValidator f idx).
Proof.
  intros Hf s Hs. unfold modifyValidator, mbind, M_bind, mget, mlift, ValidatorAtIndex.
  destruct (list_at (validators s) idx) as [v| | |] eqn:Hv; [|done..].
  apply list_at_inv in Hv as [_ Hv]. unfold UpdateValidatorAtIndex. destruct (_ >=? _); [done|].
  apply kept_update; [done|]. right. eauto.
Qed.

Lemma preserves_onState {S A} (P : BeaconState → Prop) (m : M BeaconState A) :
  preserves P m → preserves (λ x : BeaconState * S, P x.1) (onState m).
Proof. intros Hm [s x] Hs. specialize (Hm s Hs). unfold onState. by destruct (m s). Qed.

Lemma preserves_exitChurn E s0 bal exitBalance : preserves (kept E s0) (exitEpochAndUpdateChurn bal exitBalance).
Proof. unfold exitEpochAndUpdateChurn. preserve. Qed.

Lemma preserves_ExitEpochAndUpdateChurn E s0 b : preserves (kept E s0) (ExitEpochAndUpdateChurn b).
Proof. unfold ExitEpochAndUpdateChurn, exitEpochAndUpdateChurn. preserve. Qed.

Lemma preserves_setInfo (P : BeaconState → Prop) h c :
  preserves (λ x : BeaconState * ExitInfo, P x.1) (setInfo h c).
Proof. apply preserves_modify. by intros [s ei]. Qed.
#[local] Hint Resolve preserves_setInfo preserves_exitChurn preserves_ExitEpochAndUpdateChurn
  preserves_onState : preserves.

Lemma preserves_PreElectra (P : BeaconState → Prop) :
  preserves (λ x : BeaconState * ExitInfo, P x.1) initiateValidatorExitPreElectra.
Proof. unfold initiateValidatorExitPreElectra. preserve. Qed.
#[local] Hint Resolve preserves_PreElectra : preserves.

Lemma preserves_exit E s0 idx : 0 ≤ idx → idx ∈ E →
  preserves (λ x : BeaconState * ExitInfo, kept E s0 x.1) (InitiateValidatorExit idx).
Proof.
  intros Hidx HE. unfold InitiateValidatorExit, initiateExit. preserve.
  apply preserves_onState. intros s Hs. unfold UpdateValidatorAtIndex. destruct (_ >=? _); [done|].
  apply kept_update; auto.
Qed.

Lemma preserves_ignoreExited {S} (P : S → Prop) (m : M S unit) : preserves P m → preserves P (ignoreExited m).
Proof.
  intros Hm s Hs. specialize (Hm s Hs). unfold ignoreExited. destruct (m s) as [[| e | |] s']; try done.
  by destruct e.
Qed.

Lemma preserves_ejectLoop E s0 es ei : Forall (λ i, 0 ≤ i ∧ i ∈ E) es →
  preserves (kept E s0) (ejectLoop es ei).
Proof.
  intros Hes s Hs. unfold ejectLoop.
  assert (preserves (λ x : BeaconState * ExitInfo, kept E s0 x.1)
            (mfor es (λ idx, ignoreExited (InitiateValidatorExit idx)))) as Hp.
  { induction Hes as [|i es [Hi HE] _ IH]; simpl; [apply preserves_ret|].
    apply preserves_bind; [|done]. by apply preserves_ignoreExited, preserves_exit. }
  specialize (Hp (s, ei) Hs). by destruct (mfor es _ (s, ei)) as [r [s' ei']].
Qed.

(** ** The read-only pass *)

Lemma enumerate_snoc {A} (l : list A) x : enumerate (l ++ [x]) = enumerate l ++ [(len l, x)].
Proof.
  unfold enumerate, len. rewrite length_app. simpl length.
  replace (Z.of_nat (length l + 1)) with (Z.of_nat (length l) + 1) by lia.
  rewrite seqZ_app, zip_with_app by (rewrite ?length_seqZ; lia). by rewrite Z.add_0_l.
Qed.

Lemma scanLoop_app st e th scores sc l k :
  scanLoop st e th scores sc (l ++ k) = scanLoop st e th scores sc l ≫= λ sc, scanLoop st e th scores sc k.
Proof.
  revert sc. induction l as [|iv l IH]; intros sc; [done|]. simpl.
  destruct (scanStep st e th scores sc iv); simpl; auto.
Qed.

Lemma scan_counts st e th scores vs sc :
  scanLoop st e th scores (mkScan [] [] [] [] 0) (enumerate vs) = Ok sc →
  activeCount sc = count (activeAt e) vs ∧ len (eligibleForEjection sc) = count (ejectable e) vs ∧
  Forall (λ i, 0 ≤ i) (eligibleForEjection sc) ∧ Forall (λ i, 0 ≤ i) (inactivityCandidates sc).
Proof.
  revert sc. induction vs as [|v vs IH] using rev_ind; intros sc; [intros [= <-]; by repeat constructor|].
  rewrite enumerate_snoc, scanLoop_app. intros (sc1 & H1 & H)%bind_Ok_inv.
  destruct (IH sc1 H1) as (Ha & He & Fe & Fc). apply bind_Ok_inv in H as (sc2 & H & Hdone).
  simpl in Hdone. simplify_eq. unfold scanStep in H. apply bind_Ok_inv in H as (hi & _ & H). simplify_eq. simpl.
  rewrite !count_app, !count_cons, !count_nil, Ha. unfold len in *. rewrite length_app, Nat2Z.inj_add, He.
  rewrite !Forall_app. repeat case_match; simpl; split_and!; try done; try lia; repeat constructor; lia.
Qed.

Lemma applyQuorumFloor_bound st e th scores vs sc :
  scanLoop st e th scores (mkScan [] [] [] [] 0) (enumerate vs) = Ok sc →
  Forall (λ i, 0 ≤ i) (applyQuorumFloor sc) ∧
  len (applyQuorumFloor sc) ≤
    Z.max (count (ejectable e) vs) (count (activeAt e) vs - Z.max 1 (2 * count (activeAt e) vs / 3)).
Proof.
  intros (Ha & He & Fe & Fc)%scan_counts. unfold applyQuorumFloor.
  destruct (length (inactivityCandidates sc) =? 0)%nat; [split; [done|lia]|].
  rewrite Ha. set (fl := 2 * count (activeAt e) vs / 3) in *.
  set (floor := if fl <? 1 then 1 else fl). assert (floor = Z.max 1 fl) as -> by (subst floor; destruct (Z.ltb_spec fl 1); lia).
  set (cap := count (activeAt e) vs - len (eligibleForEjection sc) - Z.max 1 fl).
  split.
  - apply Forall_app. split; [done|]. destruct (_ >? _); [by apply Forall_take|done].
  - unfold len at 1. rewrite length_app, Nat2Z.inj_add. fold (len (eligibleForEjection sc)).
    destruct (Z.ltb_spec cap 0);
      match goal with |- context [?a >? ?b] => destruct (Z.gtb_spec a b) end;
      rewrite ?length_take; unfold len in *; lia.
Qed.

Lemma registry_kept s e : CurrentEpoch (slot s) = Ok e →
  ∃ E, kept E s (ProcessRegistryUpdates s).2 ∧
    len E ≤ Z.max (count (ejectable e) (validators s))
              (count (activeAt e) (validators s) - Z.max 1 (2 * count (activeAt e) (validators s) / 3)).
Proof.
  intros He. unfold ProcessRegistryUpdates. rewrite (M_bind_Ok _ _ _ s s) by done.
  rewrite (M_bind_Ok _ _ _ e s) by (unfold mlift; by rewrite He).
  assert (∀ r : gores unit, ∃ E, kept E s (r, s).2 ∧ len E ≤ Z.max (count (ejectable e) (validators s))
    (count (activeAt e) (validators s) - Z.max 1 (2 * count (activeAt e) (validators s) / 3))) as Hfail.
  { intros r. exists []. split; [apply kept_refl|]. pose proof (count_nonneg (ejectable e) (validators s)).
    unfold len. simpl. lia. }
  apply M_bind_cases; [unfold mlift; intros scores s1 [= Hscores <-]|intros r s1 <- _ _; apply (Hfail r)].
  apply M_bind_cases; [unfold mlift; intros th s1 [= Hth <-]|intros r s1 <- _ _; apply (Hfail r)].
  apply M_bind_cases; [unfold mlift; intros sc s1 [= Hres <-]|intros r s1 <- _ _; apply (Hfail r)].
  destruct (applyQuorumFloor_bound _ _ _ _ _ _ Hres) as [HE Hlen].
  exists (applyQuorumFloor sc). split; [|done]. clear Hlen Hfail.
  match goal with |- kept ?E s (?m s).2 => cut (preserves (kept E s) m); [intros Hp; apply Hp, kept_refl|] end.
  apply preserves_bind; [apply preserves_mfor; intros; by apply preserves_modifyValidator|intros _].
  apply preserves_bind.
  { destruct (negb _); [|apply preserves_ret]. apply preserves_bind; [apply preserves_get|intros st].
    apply preserves_bind; [apply preserves_lift|intros ei]. apply preserves_ejectLoop.
    rewrite Forall_forall in *. eauto. }
  intros _. apply preserves_bind; [apply preserves_get|intros st].
  apply preserves_bind; [apply preserves_lift|intros limit].
  apply preserves_mfor. intros. by apply preserves_modifyValidator.
Qed.

(** C11: the quorum floor.  Whatever its outcome, [ProcessRegistryUpdates] leaves at least
    [min(max(1, 2/3 of the active set), active set - balance ejections)] of the currently active
    validators without an exit, except for those whose exit had been initiated before: a
    chain-wide outage that raises every inactivity score cannot eject the whole set. *)
Theorem quorum_floor s e :
  CurrentEpoch (slot s) = Ok e →
  let s' := (ProcessRegistryUpdates s).2 in
  let active := count (activeAt e) (validators s) in
  let ejected := count (ejectable e) (validators s) in
  let exiting := count (λ v, IsActiveValidator v e && negb (ExitEpoch v =? FarFutureEpoch)) (validators s) in
  let staying := count (λ vv : Validator * Validator, IsActiveValidator vv.1 e && (ExitEpoch vv.2 =? FarFutureEpoch))
                   (zip (validators s) (validators s')) in
  Z.min (Z.max 1 (2 * active / 3)) (active - ejected) ≤ staying + exiting.
Proof.
  intros He s' active ejected exiting staying.
  destruct (registry_kept s e He) as (E & [Hlen Hk] & HE). fold s' in Hlen, Hk. fold active ejected in HE.
  cut (active ≤ exiting + staying + len E); [lia|].
  subst active exiting staying.
  rewrite <-(count_lookup (activeAt e)), <-(count_lookup (λ v, IsActiveValidator v e && _)),
    <-(count_lookup (λ vv : Validator * Validator, _) (zip _ _)).
  rewrite length_zip_with, Hlen, Nat.min_id.
  pose proof (count_members E (length (validators s))) as Hmem.
  eapply Z.le_trans; [|apply Z.add_le_mono_l, Hmem].
  apply count_cover. intros i Hi%elem_of_seq.
  destruct (lookup_lt_is_Some_2 (validators s) i) as [v Hv]; [lia|].
  destruct (lookup_lt_is_Some_2 (validators s') i) as [v' Hv']; [lia|].
  rewrite Hv. assert (zip (validators s) (validators s') !! i = Some (v, v')) as ->
    by (apply lookup_zip_with_Some; eauto).
  simpl. intros ->. simpl. case_bool_decide as HiE; [by rewrite orb_true_r|].
  destruct (Hk i v Hv HiE) as (w & Hw & Hexit). simplify_eq. rewrite Hexit.
  by destruct (ExitEpoch v =? FarFutureEpoch).
Qed.

Lemma indicesWhere_elem p vs i v :
  vs !! i = Some v → Z.of_nat i ∈ indicesWhere p vs → p v = true.
Proof.
  intros Hv ([j w] & Hij & [Hp Hel]%list_elem_of_filter)%list_elem_of_fmap. simpl in *.
  apply list_elem_of_lookup in Hel as [k Hk]. apply lookup_zip_with_Some in Hk as (j' & w' & [= <- <-] & Hj & Hw).
  apply lookup_seqZ in Hj as [Hj _]. replace k with i in Hw by lia. by simplify_eq.
Qed.

Lemma indicesWhere_nonneg p vs : Forall (λ i, 0 ≤ i) (indicesWhere p vs).
Proof.
  apply Forall_forall. intros i ([j w] & Hij & [_ Hel]%list_elem_of_filter)%list_elem_of_fmap. simpl.
  apply list_elem_of_lookup in Hel as [k Hk]. apply lookup_zip_with_Some in Hk as (j' & w' & [= <- <-] & Hj & Hw).
  apply lookup_seqZ in Hj as [Hj _]. simpl in *. lia.
Qed.

Lemma preserves_ejectElectra E s0 idx : 0 ≤ idx → idx ∈ E → preserves (kept E s0) (ejectElectra idx).
Proof.
  intros Hi HE s Hs. unfold ejectElectra.
  pose proof (preserves_ignoreExited _ _ (preserves_exit E s0 idx Hi HE) (s, mkExitInfo 0 0 0) Hs) as Hp.
  by destruct (ignoreExited _ _) as [r [s' ei]].
Qed.

(** From Electra on, inactivity never forces an exit.  Whatever the inactivity scores and the
    outcome, the registry updates of Electra change no exit epoch of a validator above the
    ejection balance. *)
Theorem electra_registry_ignores_inactivity s i v :
  validators s !! i = Some v → EjectionBalance < EffectiveBalance v →
  ∃ v', validators (ProcessRegistryUpdatesElectra s).2 !! i = Some v' ∧ ExitEpoch v' = ExitEpoch v.
Proof.
  intros Hv Hbal. unfold ProcessRegistryUpdatesElectra. rewrite (M_bind_Ok _ _ _ s s) by done.
  apply M_bind_cases; [unfold mlift; intros e s1 [= _ <-]|intros r s1 <- _ _; simpl; eauto].
  set (E := indicesWhere (electraEjects e) (validators s)).
  match goal with |- context [?m s] => cut (preserves (kept E s) m) end.
  { intros Hp. destruct (Hp s (kept_refl E s)) as [_ Hk]. apply Hk; [done|].
    intros Hin%(indicesWhere_elem _ _ _ _ Hv). unfold electraEjects in Hin. lia. }
  apply preserves_bind; [apply preserves_mfor; intros; by apply preserves_modifyValidator|intros _].
  apply preserves_bind; [|intros _; apply preserves_mfor; intros; by apply preserves_modifyValidator].
  pose proof (indicesWhere_nonneg (electraEjects e) (validators s)) as Hn. fold E in Hn.
  rewrite Forall_forall in Hn. assert (∀ es, es ⊆ E → preserves (kept E s) (mfor es ejectElectra)) as Hes; [|by apply Hes].
  intros es. induction es as [|x es IH]; intros Hsub; simpl; [apply preserves_ret|].
  apply preserves_bind; [apply preserves_ejectElectra; [apply Hn|]; apply Hsub; left|].
  intros _. apply IH. intros y Hy. apply Hsub. by right.
Qed.
End facts.

(** ** Concrete states, with the mainnet configuration *)
#[local] Existing Instance mainnet_config.
#[local] Existing Instance mainnet_epoch_config.

(** Validators with the given exit epochs, all inactive beyond the threshold (224), in epoch 5. *)
Definition ex_registry (ver : Z) (exits : list Z) : BeaconState :=
  mkState ver 191 ((λ e, mkValidator 32000000000 false 0 0 e (if e =? MaxUint64 then MaxUint64 else e + 256) [] []) <$> exits)
    (replicate (length exits) 32000000000) [] (replicate (length exits) 300) [] [] [] [] [0]
    (mkCheckpoint 0 0) (mkCheckpoint 0 0) (mkCheckpoint 0 0) 0 0 0 0 [] [] 0 0 [] [] []
    0 0 0 (mkEth1Data [] 0) ∅.
Definition ex_outage : BeaconState := ex_registry version_Deneb (replicate 9 MaxUint64).
Definition ex_draining : BeaconState := ex_registry version_Deneb (replicate 6 MaxUint64 ++ [20; 20; 20]).
Definition staying (s : BeaconState) : Z := count (λ v, ExitEpoch v =? MaxUint64) (validators s).

Lemma ex_outage_epoch : CurrentEpoch (slot ex_outage) = Ok 5.
Proof. vm_compute. reflexivity. Qed.

Lemma quorum_floor_witness :
  CurrentEpoch (slot ex_outage) = Ok 5 ∧ (ProcessRegistryUpdates ex_outage).1 = Ok tt ∧
  staying (ProcessRegistryUpdates ex_outage).2 = 6 ∧
  let active := count (activeAt 5) (validators ex_outage) in
  Z.min (Z.max 1 (2 * active / 3)) (active - count (ejectable 5) (validators ex_outage)) ≤
    count (λ vv : Validator * Validator, IsActiveValidator vv.1 5 && (ExitEpoch vv.2 =? FarFutureEpoch))
      (zip (validators ex_outage) (validators (ProcessRegistryUpdates ex_outage).2)) +
    count (λ v, IsActiveValidator v 5 && negb (ExitEpoch v =? FarFutureEpoch)) (validators ex_outage).
Proof.
  split; [apply ex_outage_epoch|]. split; [vm_compute; reflexivity|]. split; [vm_compute; reflexivity|].
  exact (quorum_floor ex_outage 5 ex_outage_epoch).
Defined.

(** The quorum floor counts validators that are already leaving.  Nine validators are active,
    three of them with an exit under way, so the floor is six; the registry updates start three
    inactivity exits and only three validators are left to stay. *)
Theorem quorum_floor_counts_exiting :
  CurrentEpoch (slot ex_draining) = Ok 5 ∧ ActiveValidatorCount ex_draining 5 = 9 ∧
  staying ex_draining = 6 ∧ (ProcessRegistryUpdates ex_draining).1 = Ok tt ∧
  staying (ProcessRegistryUpdates ex_draining).2 = 3.
Proof. split_and!; vm_compute; reflexivity. Qed.

Lemma electra_registry_ignores_inactivity_witness :
  ∃ v', validators (ProcessRegistryUpdatesElectra (ex_registry version_Electra (replicate 9 MaxUint64))).2 !! 0%nat = Some v' ∧
    ExitEpoch v' = MaxUint64.
Proof.
  apply (electra_registry_ignores_inactivity (ex_registry version_Electra (replicate 9 MaxUint64)) 0%nat
           (mkValidator 32000000000 false 0 0 MaxUint64 MaxUint64 [] [])); vm_compute; reflexivity.
Defined.
