(* ===== verification/ExitQueue.v ===== *)
(** * The exit queue

    From Electra on the queue is a budget of balance per epoch: a sequence of exits is
    scheduled at the earliest epochs whose cumulative churn covers the running total.
    Before Electra it is a count per epoch kept in [ExitInfo], which stays equal to what
    [ExitInformation] would compute from the state. *)
From S2P Require Import Prelude MathHelper Primitives Config SlotTime MVSlice EpochConfig BeaconState Registry RegistryTheorems.

Section electra.
Context `{cfg : BeaconChainConfig} `{ecfg : EpochConfig}.

(** Exits processed one after the other, with the epochs they get. *)
Fixpoint exits (totalActiveBalance : Z) (bs : list Z) : M BeaconState (list Z) :=
  match bs with
  | [] => mret []
  | b :: bs' =>
      e ← exitEpochAndUpdateChurn totalActiveBalance b;
      es ← exits totalActiveBalance bs';
      mret (e :: es)
  end.

(** The queue a state stands for in epoch [e]: the epoch the next exit may get, and what is
    left of the churn of that epoch. *)
Definition queueEpoch (s : BeaconState) (e : Z) : Z := Z.max (earliestExitEpoch s) (ActivationExitEpoch e).
Definition queueLeft (s : BeaconState) (e churn : Z) : Z :=
  if earliestExitEpoch s <? queueEpoch s e then churn else exitBalanceToConsume s.

(** ** The specification: the running total [S] exits at the first epoch that covers it *)
Definition spec_epoch (E0 B0 churn S : Z) : Z :=
  if S <=? B0 then E0 else E0 + (S - B0 - 1) / churn + 1.

Fixpoint running (S : Z) (bs : list Z) : list Z :=
  match bs with [] => [] | b :: bs' => (S + b) :: running (S + b) bs' end.

(** The balance that leaves up to epoch [x]. *)
Fixpoint leaving (x : Z) (bs es : list Z) : Z :=
  match bs, es with
  | b :: bs', e :: es' => (if e <=? x then b else 0) + leaving x bs' es'
  | _, _ => 0
  end.

Lemma spec_epoch_step E0 B0 churn S b : 0 < churn → 0 ≤ b →
  let E := spec_epoch E0 B0 churn S in
  let B := B0 + (E - E0) * churn - S in
  0 ≤ B →
  spec_epoch E0 B0 churn (S + b) = (if b <=? B then E else E + (b - B - 1) / churn + 1) ∧
  0 ≤ B0 + (spec_epoch E0 B0 churn (S + b) - E0) * churn - (S + b).
Proof.
  intros Hc Hb E B HB.
  assert (∀ T, 0 ≤ B0 + (spec_epoch E0 B0 churn T - E0) * churn - T) as Hcov.
  { intros T. unfold spec_epoch. destruct (Z.leb_spec T B0); [lia|].
    pose proof (Z.mul_succ_div_gt (T - B0 - 1) churn ltac:(lia)). nia. }
  split; [|apply Hcov]. subst B E. unfold spec_epoch in *.
  destruct (Z.leb_spec S B0).
  - replace (E0 - E0) with 0 in * by lia.
    destruct (Z.leb_spec (S + b) B0), (Z.leb_spec b (B0 + 0 * churn - S)); try lia.
    do 3 f_equal. lia.
  - set (q := (S - B0 - 1) / churn) in *.
    pose proof (Z.mul_div_le (S - B0 - 1) churn ltac:(lia)) as Hq1. fold q in Hq1.
    pose proof (Z.mul_succ_div_gt (S - B0 - 1) churn ltac:(lia)) as Hq2. fold q in Hq2.
    replace (E0 + q + 1 - E0) with (q + 1) in * by lia.
    destruct (Z.leb_spec (S + b) B0); [lia|].
    destruct (Z.leb_spec b (B0 + (q + 1) * churn - S)).
    + replace ((S + b - B0 - 1) / churn) with q; [lia|].
      apply Z.div_unique with (S + b - B0 - 1 - churn * q); lia.
    + replace (S + b - B0 - 1) with (b - (B0 + (q + 1) * churn - S) - 1 + (q + 1) * churn) by lia.
      rewrite Z.div_add by lia. lia.
Qed.

(** No schedule gives an epoch more than the churn left in it and the epochs before. *)
Lemma leaving_covered E0 B0 churn x bs : ∀ S, 0 < churn → Forall (λ b, 0 ≤ b) bs → E0 ≤ x →
  leaving x bs (spec_epoch E0 B0 churn <$> running S bs) + S ≤ Z.max S (B0 + (x - E0) * churn).
Proof.
  induction bs as [|b bs IH]; intros S Hc Hbs Hx; csimpl; [lia|].
  apply Forall_cons in Hbs as [Hb Hbs]. specialize (IH (S + b) Hc Hbs Hx).
  destruct (Z.leb_spec (spec_epoch E0 B0 churn (S + b)) x) as [Hle|Hgt].
  2: { unfold spec_epoch in Hgt. destruct (Z.leb_spec (S + b) B0); [lia|].
       pose proof (Z.mul_div_le (S + b - B0 - 1) churn ltac:(lia)) as Hq.
       assert ((x - E0) * churn ≤ (S + b - B0 - 1) / churn * churn) by (apply Z.mul_le_mono_nonneg_r; lia). lia. }
  assert (S + b ≤ B0 + (x - E0) * churn); [|lia].
  unfold spec_epoch in Hle. destruct (Z.leb_spec (S + b) B0); [nia|].
  pose proof (Z.mul_succ_div_gt (S + b - B0 - 1) churn ltac:(lia)).
  assert (((S + b - B0 - 1) / churn + 1) * churn ≤ (x - E0) * churn) by (apply Z.mul_le_mono_nonneg_r; lia). lia.
Qed.

(** ** One exit *)
Lemma exitEpoch_run s e total churn b :
  ToEpoch (slot s) = Ok e → ActivationExitChurnLimit total = Ok churn → 0 < churn → 0 ≤ b →
  let E := queueEpoch s e in
  let B := queueLeft s e churn in
  0 ≤ B → 0 ≤ E → B + b + 2 * churn < two64 → E + b + 2 < two64 →
  let E1 := if b <=? B then E else E + (b - B - 1) / churn + 1 in
  exitEpochAndUpdateChurn total b s =
    (Ok E1, set_exitChurn (B + (E1 - E) * churn - b) E1 s).
Proof.
  intros He Hl Hc Hb E B HB HE Hroom1 Hroom2 E1. unfold exitEpochAndUpdateChurn.
  rewrite (M_bind_Ok _ _ _ s s) by done. rewrite (M_bind_Ok _ _ _ e s) by (unfold mlift; by rewrite He).
  rewrite (M_bind_Ok _ _ _ churn s) by (unfold mlift; by rewrite Hl).
  fold (queueEpoch s e). fold (queueLeft s e churn). fold E B. subst E1.
  rewrite Z.gtb_ltb, Z.ltb_antisym. destruct (Z.leb_spec b B) as [Hle|Hgt]; simpl negb; cbv iota.
  - rewrite (M_bind_Ok _ _ _ (E, B) s) by done. unfold mbind, M_bind, mmodify, mret, M_ret.
    rewrite u64_small by (unfold is_u64; lia). do 3 f_equal. lia.
  - rewrite (u64_small (b - B)), (u64_small (b - B - 1)) by (unfold is_u64; lia).
    assert (0 ≤ (b - B - 1) / churn) as Hq0 by (apply Z.div_pos; lia).
    pose proof (Z.mul_div_le (b - B - 1) churn ltac:(lia)) as Hq.
    pose proof (Z.mul_succ_div_gt (b - B - 1) churn ltac:(lia)) as Hq2.
    rewrite quo_pos by lia. set (q := (b - B - 1) / churn) in *.
    assert (q ≤ churn * q) by nia. assert (churn ≤ (q + 1) * churn ≤ b - B - 1 + churn) by nia.
    unfold mbind, M_bind, mlift, mmodify, mret, M_ret.
    rewrite (u64_small (q + 1)), (u64_small ((q + 1) * churn)) by (unfold is_u64; lia).
    rewrite (u64_small (B + (q + 1) * churn)), (u64_small (B + (q + 1) * churn - b)), (u64_small (E + (q + 1)))
      by (unfold is_u64; lia).
    by replace (E + (q + 1)) with (E + q + 1) by lia; replace (E + q + 1 - E) with (q + 1) by lia.
Qed.

Lemma spec_epoch_bounds E0 B0 churn S : 0 < churn → 0 ≤ B0 → 0 ≤ S →
  let E := spec_epoch E0 B0 churn S in
  E0 ≤ E ≤ E0 + S ∧ B0 + (E - E0) * churn - S ≤ B0 + churn.
Proof.
  intros Hc HB0 HS. simpl. unfold spec_epoch. destruct (Z.leb_spec S B0); [nia|].
  pose proof (Z.mul_div_le (S - B0 - 1) churn ltac:(lia)).
  pose proof (Z.div_pos (S - B0 - 1) churn ltac:(lia) ltac:(lia)).
  pose proof (Z.div_le_upper_bound (S - B0 - 1) churn (S - B0 - 1) ltac:(lia) ltac:(nia)). nia.
Qed.

(** The queue after the exits [bs], when [S] has been scheduled before. *)
Lemma exits_run s0 e total churn E0 B0 bs : ∀ S s,
  ToEpoch (slot s0) = Ok e → slot s = slot s0 → validators s = validators s0 →
  ActivationExitChurnLimit total = Ok churn → 0 < churn →
  Forall (λ b, 0 ≤ b) bs → 0 ≤ B0 → 0 ≤ E0 → 0 ≤ S →
  queueEpoch s e = spec_epoch E0 B0 churn S →
  queueLeft s e churn = B0 + (queueEpoch s e - E0) * churn - S → 0 ≤ queueLeft s e churn →
  B0 + S + foldr Z.add 0 bs + 3 * churn < two64 → E0 + S + foldr Z.add 0 bs + 2 < two64 →
  ∃ s', exits total bs s = (Ok (spec_epoch E0 B0 churn <$> running S bs), s') ∧
    queueEpoch s' e = spec_epoch E0 B0 churn (S + foldr Z.add 0 bs) ∧
    queueLeft s' e churn = B0 + (queueEpoch s' e - E0) * churn - (S + foldr Z.add 0 bs) ∧
    validators s' = validators s0.
Proof.
  induction bs as [|b bs IH]; intros S s He Hslot Hval Hl Hc Hbs HB0 HE0 HS HE HB HBpos Hroom1 Hroom2.
  { exists s. simpl in *. rewrite Z.add_0_r. done. }
  apply Forall_cons in Hbs as [Hb Hbs]. cbn [foldr] in Hroom1, Hroom2.
  assert (0 ≤ foldr Z.add 0 bs) as Hsum by (clear -Hbs; induction Hbs; simpl; lia).
  destruct (spec_epoch_step E0 B0 churn S b Hc Hb) as [Hstep Hcov]; [rewrite <-HE, <-HB; done|].
  rewrite <-HE, <-HB in Hstep.
  destruct (spec_epoch_bounds E0 B0 churn S Hc HB0 HS) as [HEb HBb]. rewrite <-HE in HEb, HBb.
  pose proof (exitEpoch_run s e total churn b ltac:(by rewrite Hslot) Hl Hc Hb HBpos
                ltac:(lia) ltac:(lia) ltac:(lia)) as Hrun.
  rewrite <-Hstep in Hrun. set (E1 := spec_epoch E0 B0 churn (S + b)) in *.
  cbv zeta in Hrun. set (s1 := set_exitChurn (queueLeft s e churn + (E1 - queueEpoch s e) * churn - b) E1 s) in Hrun.
  assert (queueEpoch s e ≤ E1) as HE1.
  { rewrite Hstep. destruct (Z.leb_spec b (queueLeft s e churn)); [lia|].
    pose proof (Z.div_pos (b - queueLeft s e churn - 1) churn ltac:(lia) ltac:(lia)). lia. }
  assert (queueEpoch s1 e = E1) as HqE by (unfold queueEpoch in *; simpl; lia).
  assert (queueLeft s1 e churn = B0 + (E1 - E0) * churn - (S + b)) as HqB.
  { unfold queueLeft at 1. rewrite HqE. simpl. rewrite Z.ltb_irrefl. rewrite HB. lia. }
  destruct (IH (S + b) s1) as (s' & Hrest & HE' & HB' & Hv'); try done; try lia.
  exists s'. cbn [exits]. rewrite (M_bind_Ok _ _ _ _ _ Hrun), (M_bind_Ok _ _ _ _ _ Hrest).
  cbn [foldr]. rewrite Z.add_assoc. done.
Qed.

(** C35: the Electra exit queue is exact.  Exits of balances [bs] in one epoch are scheduled, in
    order, at the first epoch from [E0] on whose cumulative churn covers the running total,
    where [E0] and [B0] are the first possible epoch and what is left of its churn; the state
    records the last epoch and what is left of it; and up to any epoch [x] no more balance
    leaves than the churn of the epochs up to [x] allows. *)
Theorem exit_queue_exact s e total churn bs x :
  ToEpoch (slot s) = Ok e → ActivationExitChurnLimit total = Ok churn → 0 < churn →
  Forall (λ b, 0 ≤ b) bs →
  let E0 := queueEpoch s e in
  let B0 := queueLeft s e churn in
  0 ≤ B0 → 0 ≤ E0 → E0 ≤ x →
  B0 + foldr Z.add 0 bs + 3 * churn < two64 → E0 + foldr Z.add 0 bs + 2 < two64 →
  ∃ es s', exits total bs s = (Ok es, s') ∧
    es = spec_epoch E0 B0 churn <$> running 0 bs ∧
    leaving x bs es ≤ B0 + (x - E0) * churn ∧
    queueEpoch s' e = spec_epoch E0 B0 churn (foldr Z.add 0 bs) ∧
    queueLeft s' e churn = B0 + (queueEpoch s' e - E0) * churn - foldr Z.add 0 bs ∧
    validators s' = validators s.
Proof.
  intros He Hl Hc Hbs E0 B0 HB HE Hx Hroom1 Hroom2.
  pose proof (leaving_covered E0 B0 churn x bs 0 Hc Hbs Hx) as Hleave.
  destruct (exits_run s e total churn E0 B0 bs 0 s) as (s' & Hrun & HE' & HB' & Hv); try done; try lia.
  { unfold spec_epoch. destruct (Z.leb_spec 0 B0); [done|lia]. }
  eexists _, s'. split; [exact Hrun|]. split; [done|].
  split; [assert (0 ≤ (x - E0) * churn) by (apply Z.mul_nonneg_nonneg; lia); lia|]. rewrite HB', HE'. split_and!; done.
Qed.
End electra.

(** ** Before Electra: [ExitInfo] always describes the state *)
Section preElectra.
Context `{cfg : BeaconChainConfig} `{ecfg : EpochConfig}.

Abbreviation leaves v := (negb (ExitEpoch v =? FarFutureEpoch)).

(** The highest exit epoch, as a fold in the same order. *)
Definition highest (vs : list Validator) : Z :=
  foldl (λ h v, if leaves v then Z.max h (ExitEpoch v) else h) 0 vs.
Definition atHighest (h : Z) (v : Validator) : bool := leaves v && (ExitEpoch v =? h).

Lemma highest_snoc vs v : highest (vs ++ [v]) = if leaves v then Z.max (highest vs) (ExitEpoch v) else highest vs.
Proof. unfold highest. by rewrite foldl_app. Qed.

Lemma highest_bound vs h : 0 ≤ h → highest vs ≤ h ↔ Forall (λ v, leaves v = true → ExitEpoch v ≤ h) vs.
Proof.
  intros Hh. induction vs as [|v vs IH] using rev_ind; [by split; [constructor|]|].
  rewrite highest_snoc, Forall_app, Forall_singleton, <-IH. destruct (leaves v); simpl; [|naive_solver].
  split; [intros; split; [lia|intros; lia]|intros [? H2]; specialize (H2 eq_refl); lia].
Qed.

Lemma highest_nonneg vs : 0 ≤ highest vs.
Proof. induction vs as [|v vs IH] using rev_ind; [done|]. rewrite highest_snoc. destruct (leaves v); simpl; lia. Qed.

Lemma count_above vs h : highest vs < h → count (atHighest h) vs = 0.
Proof.
  intros Hh. assert (∀ v, v ∈ vs → atHighest h v = false) as Hno.
  { intros v Hv. unfold atHighest. destruct (leaves v) eqn:Hl; [|done]. simpl.
    assert (highest vs ≤ highest vs) as Hb by lia. apply highest_bound in Hb; [|apply highest_nonneg].
    rewrite Forall_forall in Hb. specialize (Hb v Hv Hl). lia. }
  rewrite (count_ext _ (λ _, false)) by done. clear. induction vs; [done|]. rewrite count_cons. lia.
Qed.

(** [ExitInformation] computes the highest exit epoch and how many validators have it. *)
Lemma exitInfo_fold e vs : len vs < two64 →
  let ei := foldl (exitInfoStep e) (mkExitInfo 0 0 0) vs in
  HighestExitEpoch ei = highest vs ∧ Churn ei = count (atHighest (highest vs)) vs ∧
  TotalActiveBalance_ ei = foldl (sumActive e) 0 vs.
Proof.
  induction vs as [|v vs IH] using rev_ind; intros Hlen; [done|].
  assert (len vs < two64) as Hlen' by (unfold len in *; rewrite length_app in Hlen; simpl in Hlen; lia).
  cbv zeta. rewrite !foldl_app. cbn [foldl]. destruct (IH Hlen') as (Hh & Hc & Ht). clear IH.
  set (ei := foldl (exitInfoStep e) (mkExitInfo 0 0 0) vs) in *. clearbody ei.
  unfold exitInfoStep. rewrite Hh, Hc, Ht, highest_snoc, count_app, count_cons, count_nil.
  assert (count (atHighest (highest vs)) vs ≤ len vs) as Hcl
    by (unfold count, len; pose proof (length_filter (λ x, atHighest (highest vs) x = true) vs); lia).
  pose proof (count_nonneg (atHighest (highest vs)) vs).
  assert (len vs + 1 < two64) as Hl1 by (unfold len in *; rewrite length_app in Hlen; simpl in Hlen; lia).
  assert (∀ h, atHighest h v = leaves v && (ExitEpoch v =? h)) as Hat by done. rewrite !Hat. clear Hat.
  destruct (leaves v) eqn:Hl; simpl.
  - rewrite Z.gtb_ltb. destruct (Z.ltb_spec (highest vs) (ExitEpoch v)).
    + rewrite Z.max_r by lia. rewrite count_above by lia. rewrite Z.eqb_refl. done.
    + rewrite Z.max_l by lia. destruct (Z.eqb_spec (ExitEpoch v) (highest vs)); simpl; split_and!; try done;
        [rewrite u64_small by (unfold is_u64; lia)|]; lia.
  - split_and!; try done. lia.
Qed.

(** Replacing one validator. *)
Lemma foldl_insert_same {A B} (f : B → A → B) (l : list A) i x y b :
  l !! i = Some x → (∀ b, f b y = f b x) → foldl f b (<[i := y]> l) = foldl f b l.
Proof.
  intros Hx Hf. rewrite <-(take_drop_middle l i x Hx) at 2. rewrite insert_take_drop by (by eapply lookup_lt_Some).
  rewrite !foldl_app. simpl. by rewrite Hf.
Qed.

Lemma count_insert {A} (p : A → bool) (l : list A) i x y : l !! i = Some x →
  count p (<[i := y]> l) = count p l - (if p x then 1 else 0) + (if p y then 1 else 0).
Proof.
  intros Hx. rewrite <-(take_drop_middle l i x Hx) at 2. rewrite insert_take_drop by (by eapply lookup_lt_Some).
  rewrite !count_app, !count_cons. lia.
Qed.

Lemma highest_insert vs i v v' : vs !! i = Some v → leaves v = false → leaves v' = true → 0 ≤ ExitEpoch v' →
  highest (<[i := v']> vs) = Z.max (highest vs) (ExitEpoch v').
Proof.
  intros Hv Hl Hl' H0. pose proof (highest_nonneg vs). pose proof (highest_nonneg (<[i := v']> vs)).
  assert (∀ h, 0 ≤ h → highest (<[i := v']> vs) ≤ h ↔ highest vs ≤ h ∧ ExitEpoch v' ≤ h) as Hiff.
  { intros h Hh. rewrite !highest_bound by done. rewrite !Forall_lookup. split.
    - intros Hall. split; [|apply (Hall i); [|done]; rewrite list_lookup_insert_eq; [done|by eapply lookup_lt_Some]].
      intros j w Hw Hlw. destruct (decide (i = j)) as [->|]; [congruence|].
      apply (Hall j); [by rewrite list_lookup_insert_ne|done].
    - intros [Hall Hv'] j w Hw Hlw. apply list_lookup_insert_Some in Hw as [(-> & -> & _)|[_ Hw]]; [done|].
      by apply (Hall j). }
  assert (highest vs ≤ highest (<[i := v']> vs) ∧ ExitEpoch v' ≤ highest (<[i := v']> vs)) by (apply Hiff; lia).
  assert (highest (<[i := v']> vs) ≤ Z.max (highest vs) (ExitEpoch v')) by (apply Hiff; lia). lia.
Qed.

Lemma preElectra_run s ei e limit :
  ToEpoch (slot s) = Ok e → ValidatorExitChurnLimit (ActiveValidatorCount s e) = Ok limit →
  let x := ActivationExitEpoch e in
  let h := Z.max x (HighestExitEpoch ei) in
  let c := if x >? HighestExitEpoch ei then 0 else Churn ei in
  initiateValidatorExitPreElectra (s, ei) =
    if c >=? limit
    then match Add64 h 1 with
         | Ok h1 => (Ok tt, (s, mkExitInfo h1 1 (TotalActiveBalance_ ei)))
         | Err er => (Err er, (s, mkExitInfo h c (TotalActiveBalance_ ei)))
         | Panic => (Panic, (s, mkExitInfo h c (TotalActiveBalance_ ei)))
         | OutOfFuel => (OutOfFuel, (s, mkExitInfo h c (TotalActiveBalance_ ei)))
         end
    else (Ok tt, (s, mkExitInfo h (c +64 1) (TotalActiveBalance_ ei))).
Proof.
  intros He Hlim x h c. unfold initiateValidatorExitPreElectra, mbind, M_bind, mget, mlift, CurrentEpoch.
  rewrite He. fold x. subst h c. rewrite Z.gtb_ltb. destruct (Z.ltb_spec (HighestExitEpoch ei) x).
  - rewrite Z.max_l by lia. simpl. rewrite Hlim. simpl. destruct (0 >=? limit); [|done].
    unfold Epoch.SafeAdd. by destruct (Add64 x 1).
  - rewrite Z.max_r by lia. simpl. rewrite Hlim. simpl. destruct (Churn ei >=? limit); [|by destruct ei].
    unfold Epoch.SafeAdd. destruct (Add64 (HighestExitEpoch ei) 1); by destruct ei.
Qed.

Lemma Add64_Ok_fits a b c : is_u64 a → is_u64 b → Add64 a b = Ok c → a + b < two64.
Proof. intros Ha Hb. rewrite Add64_cases by done. destruct (Z.ltb_spec (a + b) two64); done. Qed.

(** The configuration and the state are in range. *)
Record exit_ready (s : BeaconState) (e limit : Z) : Prop := {
  er_epoch : ToEpoch (slot s) = Ok e;
  er_version : version s < version_Electra;
  er_e : 0 ≤ e;
  er_seed : 0 ≤ MaxSeedLookahead;
  er_room : e + 1 + MaxSeedLookahead < MaxUint64;
  er_far : FarFutureEpoch = MaxUint64;
  er_delay : 1 ≤ MinValidatorWithdrawabilityDelay < two64;
  er_len : len (validators s) < MaxUint64;
  er_limit : ValidatorExitChurnLimit (ActiveValidatorCount s e) = Ok limit;
  er_one : 1 ≤ limit;
  er_exits : Forall (λ v, is_u64 (ExitEpoch v)) (validators s)
}.

Lemma highest_u64 vs : Forall (λ v, is_u64 (ExitEpoch v)) vs → highest vs ≤ MaxUint64.
Proof.
  intros Hvs. apply highest_bound; [done|]. eapply Forall_impl; [exact Hvs|]. simpl. unfold is_u64. lia.
Qed.

(** The two ways a validator can get its exit epoch, from the info that describes the state. *)
Lemma exit_slot vs h c limit h' c' :
  0 ≤ h → h ≤ MaxUint64 → highest vs ≤ h → 0 ≤ c < MaxUint64 → 1 ≤ limit →
  c = (if highest vs =? h then count (atHighest h) vs else 0) →
  ((c >=? limit) = true ∧ Add64 h 1 = Ok h' ∧ c' = 1 ∨ (c >=? limit) = false ∧ h' = h ∧ c' = c +64 1) →
  highest vs ≤ h' ∧ h ≤ h' ≤ MaxUint64 ∧ c' ≤ limit ∧ c' = count (atHighest h') vs + 1.
Proof.
  intros Hh0 Hh Hle Hc0 Hlim Hc [(Hge & Hadd & ->)|(Hlt & -> & ->)].
  - rewrite Add64_cases in Hadd by (unfold is_u64; lia).
    destruct (Z.ltb_spec (h + 1) two64); simplify_eq. rewrite count_above by lia. lia.
  - rewrite Z.geb_leb in Hlt. apply Z.leb_gt in Hlt. rewrite u64_small by (unfold is_u64; lia).
    destruct (Z.eqb_spec (highest vs) h) as [->|]; [lia|]. rewrite count_above by lia. lia.
Qed.

(** The information of a state in which one more validator leaves, at [h'] or later than all. *)
Lemma ExitInformation_exit s e i v h' w : ToEpoch (slot s) = Ok e → len (validators s) < MaxUint64 →
  validators s !! i = Some v → ExitEpoch v = FarFutureEpoch → 0 ≤ e < h' → h' < FarFutureEpoch →
  highest (validators s) ≤ h' →
  let s' := set_validators (<[i := set_exit h' w v]> (validators s)) s in
  count (atHighest h') (validators s') = count (atHighest h') (validators s) + 1 ∧
  ExitInformation s' = Ok (mkExitInfo h' (count (atHighest h') (validators s) + 1)
                             (Z.max EffectiveBalanceIncrement (foldl (sumActive e) 0 (validators s)))).
Proof.
  intros He Hlen Hv Hfar Hh0 Hh' Hle s'.
  assert (leaves v = false) as Hlv by (rewrite Hfar, Z.eqb_refl; done).
  assert (leaves (set_exit h' w v) = true) as Hlv' by (simpl; destruct (Z.eqb_spec h' FarFutureEpoch); [lia|done]).
  assert (count (atHighest h') (validators s') = count (atHighest h') (validators s) + 1) as Hcount.
  { simpl. rewrite (count_insert _ _ _ v) by done. unfold atHighest at 2 3. rewrite Hlv, Hlv'. simpl.
    rewrite Z.eqb_refl. lia. }
  split; [done|]. unfold ExitInformation. change (slot s') with (slot s). rewrite He.
  cbv beta iota zeta delta [mbind gores_bind].
  destruct (exitInfo_fold e (validators s')) as (Hh & Hc & Ht).
  { simpl. unfold len in *. rewrite length_insert. lia. }
  assert (highest (validators s') = h') as Hhi
    by (simpl; rewrite (highest_insert _ _ v) by (done || simpl; lia); simpl; lia).
  rewrite Hh, Hc, Ht, Hhi, Hcount. do 3 f_equal. simpl. apply (foldl_insert_same _ _ _ v); [done|].
  intros b. unfold sumActive, IsActiveValidator, checkValidatorActiveStatus. simpl. rewrite Hfar.
  destruct (Z.ltb_spec e h'), (Z.ltb_spec e FarFutureEpoch); done || lia.
Qed.

(** The exit information computed once serves all exits of the epoch.  Before Electra, if
    [ei] is the [ExitInformation] of the state and [InitiateValidatorExit] succeeds on them, the
    object it leaves is again exactly the [ExitInformation] of the new state; the exit is no
    earlier than [ActivationExitEpoch], and its epoch has no more exits than the churn limit. *)
Theorem exitInfo_in_sync s e limit ei idx s' ei' :
  exit_ready s e limit → 0 ≤ idx → ExitInformation s = Ok ei →
  InitiateValidatorExit idx (s, ei) = (Ok tt, (s', ei')) →
  ExitInformation s' = Ok ei' ∧ ActivationExitEpoch e ≤ HighestExitEpoch ei' ∧
  Churn ei' = count (atHighest (HighestExitEpoch ei')) (validators s') ∧ Churn ei' ≤ limit.
Proof.
  intros Hr Hidx Hei Hrun. pose proof Hr as []. unfold ExitInformation in Hei. rewrite er_epoch0 in Hei.
  simpl in Hei. destruct (exitInfo_fold e (validators s)) as (Hh & Hc & Ht); [lia|]. simplify_eq.
  unfold InitiateValidatorExit, initiateExit in Hrun.
  rewrite (M_bind_Ok _ _ _ (s, _) (s, _)) in Hrun by done.
  apply M_bind_Ok_inv in Hrun as (v & s1 & Hv & Hrun). unfold mlift in Hv. injection Hv as Hv <-.
  apply list_at_inv in Hv as [Hlt Hv]. destruct (Z.eqb_spec (ExitEpoch v) FarFutureEpoch) as [Hfar|]; [|done].
  simpl in Hrun. destruct (Z.ltb_spec (version s) version_Electra); [|lia].
  apply M_bind_Ok_inv in Hrun as ([] & [s1 ei1] & Hpre & Hrun).
  rewrite (preElectra_run s _ e limit er_epoch0 er_limit0) in Hpre. simpl in Hpre. rewrite Hh, Hc, Ht in Hpre.
  set (T := Z.max EffectiveBalanceIncrement _) in *. set (h := Z.max (ActivationExitEpoch e) _) in *.
  set (c := if ActivationExitEpoch e >? highest (validators s) then 0 else count (atHighest (highest (validators s))) (validators s)) in Hpre.
  assert (ActivationExitEpoch e = e + 1 + MaxSeedLookahead) as Hx
    by (unfold ActivationExitEpoch; rewrite !u64_small by (unfold is_u64; rewrite ?u64_small by (unfold is_u64; lia); lia); done).
  pose proof (highest_u64 _ er_exits0) as Hu. pose proof (highest_nonneg (validators s)) as Hn.
  assert (0 ≤ c < MaxUint64 ∧ c = (if highest (validators s) =? h then count (atHighest h) (validators s) else 0)) as [Hc0 Hceq].
  { pose proof (length_filter (λ x, atHighest (highest (validators s)) x = true) (validators s)).
    subst c h. rewrite Z.gtb_ltb. unfold len in er_len0.
    destruct (Z.ltb_spec (highest (validators s)) (ActivationExitEpoch e)).
    - destruct (Z.eqb_spec (highest (validators s)) (Z.max (ActivationExitEpoch e) (highest (validators s)))); lia.
    - rewrite Z.max_r, Z.eqb_refl by lia. unfold count, len. lia. }
  assert (∃ h' c', s1 = s ∧ ei1 = mkExitInfo h' c' T ∧
    ((c >=? limit) = true ∧ Add64 h 1 = Ok h' ∧ c' = 1 ∨ (c >=? limit) = false ∧ h' = h ∧ c' = c +64 1))
    as (h' & c' & -> & -> & Hslot).
  { destruct (c >=? limit); [destruct (Add64 h 1) eqn:Hadd; simplify_eq|simplify_eq]; eauto 10. }
  destruct (exit_slot (validators s) h c limit h' c') as (Hle & Hhh & Hcl & Hcc); try done; try (subst h; lia).
  rewrite (M_bind_Ok _ _ _ (s, _) (s, _)) in Hrun by done.
  apply M_bind_Ok_inv in Hrun as (w & [s2 ei2] & Hw & Hrun). unfold mlift in Hw. injection Hw as Hw <- <-.
  apply Add64_Ok_fits in Hw; [|unfold is_u64; lia..]. simpl in Hrun. unfold UpdateValidatorAtIndex in Hrun.
  destruct (Z.geb_spec idx (len (validators s))); [lia|]. injection Hrun as <- <-.
  destruct (ExitInformation_exit s e (Z.to_nat idx) v h' w) as [Hcnt Hinfo]; try done; try lia.
  cbn [HighestExitEpoch Churn]. rewrite Hcnt, Hinfo, Hcc. subst h. split_and!; try done; lia.
Qed.
End preElectra.

(** ** Witnesses, with the mainnet configuration *)
#[local] Existing Instance mainnet_config.
#[local] Existing Instance mainnet_epoch_config.

(** Ten balances of 32 ETH leave at 128 ETH an epoch. *)
Definition ex_queue : BeaconState := ex_registry version_Electra (replicate 3 MaxUint64).

Lemma exit_queue_exact_witness :
  ToEpoch (slot ex_queue) = Ok 5 ∧ ActivationExitChurnLimit 96000000000 = Ok 128000000000 ∧
  ∃ es s', exits 96000000000 (replicate 10 32000000000) ex_queue = (Ok es, s') ∧
    leaving 11 (replicate 10 32000000000) es ≤ 256000000000.
Proof.
  split; [vm_compute; reflexivity|]. split; [vm_compute; reflexivity|].
  destruct (exit_queue_exact ex_queue 5 96000000000 128000000000 (replicate 10 32000000000) 11)
    as (es & s' & Hrun & _ & Hleave & _);
    [vm_compute; reflexivity|vm_compute; reflexivity|vm_compute; reflexivity|apply Forall_replicate; vm_compute; discriminate
    |vm_compute; discriminate|vm_compute; discriminate|vm_compute; discriminate|vm_compute; reflexivity|vm_compute; reflexivity|].
  exists es, s'. split; [exact Hrun|exact Hleave].
Defined.

Definition ex_deneb : BeaconState := ex_registry version_Deneb [MaxUint64; 10; 10; MaxUint64].

Lemma ex_deneb_ready : exit_ready ex_deneb 5 4.
Proof.
  split; [vm_compute; reflexivity|vm_compute; reflexivity|lia|vm_compute; discriminate|vm_compute; reflexivity
    |reflexivity|vm_compute; split; [discriminate|reflexivity]|vm_compute; reflexivity|vm_compute; reflexivity|lia|].
  repeat constructor; vm_compute; (discriminate || reflexivity).
Qed.

Lemma exitInfo_in_sync_witness :
  exit_ready ex_deneb 5 4 ∧
  ExitInformation (InitiateValidatorExit 0 (ex_deneb, mkExitInfo 10 2 128000000000)).2.1 =
    Ok (InitiateValidatorExit 0 (ex_deneb, mkExitInfo 10 2 128000000000)).2.2.
Proof.
  split; [apply ex_deneb_ready|].
  apply (exitInfo_in_sync ex_deneb 5 4 (mkExitInfo 10 2 128000000000) 0);
    [apply ex_deneb_ready|lia|vm_compute; reflexivity|vm_compute; reflexivity].
Defined.
