(* ===== verification/Inactivity.v ===== *)
(** * How long a validator must be absent before it is ejected

    Connects the inactivity scores of epoch_precompute.go with the ejection threshold of
    epoch_processing.go: what the threshold means in time by the slot-time schedule. *)
From S2P Require Import Prelude MathHelper Primitives Config SlotTime MVSlice EpochConfig BeaconState Finality EpochPrecompute Registry.

Section downtime.
Context `{cfg : BeaconChainConfig} `{ecfg : EpochConfig}.

(** The validator attested its target in time in the epoch its score is updated for. *)
Definition attended (v : PreValidator) : bool := IsPrevEpochTargetAttester v && negb (IsSlashed v).

(** [score_run e missed sc]: the transitions up to the end of epoch [e] bring the score of a
    validator from 0 to [sc], whether the chain is leaking or not, and [missed] are the epochs
    in which it did not attest its target in time.  The transition at the end of an epoch
    judges the epoch before it; it may leave the validator out. *)
Inductive score_run : Z → list Z → Z → Prop :=
  | score_start e : 0 ≤ e → score_run e [] 0
  | score_skip e missed sc : score_run e missed sc → score_run (e + 1) missed sc
  | score_next e missed leak v sc :
      score_run e missed (InactivityScore v) → updateScore leak v = Ok sc →
      score_run (e + 1) (if attended v then missed else e :: missed) sc.

(** Nanoseconds that epoch [k] lasts by the slot-time schedule. *)
Definition epoch_time (k : Z) : Z :=
  slot_offset ((k + 1) * SlotsPerEpoch) - slot_offset (k * SlotsPerEpoch).

(** No slot before [s] is shorter than [d]. *)
Definition no_shorter_before (s d : Z) : Prop :=
  ∀ k, 0 ≤ k < s → ∃ d', SlotDurationAt k = Ok d' ∧ d ≤ d'.

Lemma updateScore_bound leak v sc :
  0 ≤ InactivityScore v → 0 ≤ InactivityScoreRecoveryRate → is_u64 InactivityScoreBias → is_u64 (InactivityScore v) →
  updateScore leak v = Ok sc →
  0 ≤ sc ≤ InactivityScore v + (if attended v then 0 else InactivityScoreBias) ∧ is_u64 sc.
Proof.
  intros H0 Hr Hb Hs. unfold updateScore. fold (attended v).
  set (first := if attended v then _ else _ : gores Z). intros (x & Hx & [= <-])%bind_Ok_inv.
  assert (0 ≤ x ≤ InactivityScore v + (if attended v then 0 else InactivityScoreBias) ∧ is_u64 x) as [Hxb Hxu].
  { subst first. destruct (attended v).
    - injection Hx as <-. unfold is_u64 in *. rewrite Z.gtb_ltb. destruct (Z.ltb_spec 0 (InactivityScore v)); [|lia].
      rewrite u64_small by (unfold is_u64; lia). lia.
    - rewrite Add64_cases in Hx by done. unfold is_u64 in *.
      destruct (Z.ltb_spec (InactivityScore v + InactivityScoreBias) two64); simplify_eq. lia. }
  destruct leak; [done|]. unfold is_u64 in *. rewrite u64_small by (unfold is_u64; lia). lia.
Qed.

(** A score is at most the bias of every missed epoch; missed epochs are past and distinct. *)
Lemma score_run_bound e missed sc :
  0 ≤ InactivityScoreRecoveryRate → is_u64 InactivityScoreBias →
  score_run e missed sc →
  0 ≤ sc ≤ len missed * InactivityScoreBias ∧ is_u64 sc ∧ 0 ≤ e ∧ NoDup missed ∧ Forall (λ k, 0 ≤ k < e) missed.
Proof.
  intros Hr Hb.
  assert (Hup : ∀ e missed, Forall (λ k, 0 ≤ k < e) missed → Forall (λ k, 0 ≤ k < e + 1) missed).
  { intros e' m Hm. eapply Forall_impl; [exact Hm|]. simpl. lia. }
  induction 1 as [e He|e missed sc _ (Hs & Hu & He & Hn & Ha)|e missed leak v sc _ (Hs & Hu & He & Hn & Ha) Hstep].
  - split_and!; try done; constructor.
  - split_and!; try done; try lia; by apply Hup.
  - apply updateScore_bound in Hstep as [? ?]; try done; [|lia].
    destruct (attended v).
    + split_and!; try done; try lia; by apply Hup.
    + unfold len in *. cbn [length]. rewrite Nat2Z.inj_succ, Z.mul_succ_l. split_and!; try done; try lia.
      * constructor; [|done]. intros Hin. eapply Forall_forall in Ha; [|exact Hin]. simpl in Ha. lia.
      * constructor; [lia|by apply Hup].
Qed.

(** [n] slots from [s] on, none shorter than [d], last at least [n * d]. *)
Lemma slots_last s (n : nat) d :
  schedule_ok → 0 ≤ s → no_shorter_before (s + Z.of_nat n) d →
  Z.of_nat n * d ≤ slot_offset (s + Z.of_nat n) - slot_offset s.
Proof.
  intros Hok Hs. induction n as [|n IH]; intros Hd; [rewrite Z.add_0_r; lia|].
  replace (s + Z.of_nat (S n)) with (s + Z.of_nat n + 1) in * by lia.
  rewrite slot_offset_step by (done || lia).
  destruct (Hd (s + Z.of_nat n) ltac:(lia)) as (d' & Hd' & Hle). rewrite Hd'. simpl.
  assert (no_shorter_before (s + Z.of_nat n) d) as Hd0 by (intros k Hk; apply Hd; lia).
  apply IH in Hd0. lia.
Qed.

(** Missed epochs last at least the epochs the threshold is computed from. *)
Lemma missed_last e d missed :
  schedule_ok → 0 < SlotsPerEpoch → no_shorter_before (e * SlotsPerEpoch) d →
  Forall (λ k, 0 ≤ k < e) missed →
  len missed * (d * SlotsPerEpoch) ≤ sumBy epoch_time missed.
Proof.
  intros Hok Hn Hd. unfold len. induction 1 as [|k missed Hk _ IH]; [done|].
  cbv beta in Hk. cbn [length]. rewrite sumBy_cons, Nat2Z.inj_succ, Z.mul_succ_l.
  assert (0 ≤ k * SlotsPerEpoch) as Hk0 by (apply Z.mul_nonneg_nonneg; lia).
  pose proof (slots_last (k * SlotsPerEpoch) (Z.to_nat SlotsPerEpoch) d Hok Hk0) as Hl.
  rewrite Z2Nat.id in Hl by lia.
  assert (k * SlotsPerEpoch + SlotsPerEpoch ≤ e * SlotsPerEpoch) as Hle by nia.
  assert (no_shorter_before (k * SlotsPerEpoch + SlotsPerEpoch) d) as Hd0 by (intros j Hj; apply Hd; lia).
  apply Hl in Hd0. unfold epoch_time at 1. replace ((k + 1) * SlotsPerEpoch) with (k * SlotsPerEpoch + SlotsPerEpoch) by lia. lia.
Qed.

(** The threshold counts the epochs of the current length that fit in six hours, rounded down. *)
Lemma threshold_epochs e start d th :
  EpochStart e = Ok start → SlotDurationAt start = Ok d →
  0 < d → d mod Millisecond = 0 → 0 < SlotsPerEpoch → d * SlotsPerEpoch ≤ MaxInt64 →
  0 < InactivityScoreBias < 4294967296 → InactivityEjectionThreshold e = Ok th →
  ∃ q, q * InactivityScoreBias ≤ th ∧ 6 * 60 * 60 * Second < (q + 1) * (d * SlotsPerEpoch).
Proof.
  intros Hs Hd Hd0 Hms Hn Hmax Hb Hth. unfold InactivityEjectionThreshold in Hth. rewrite Hs, Hd in Hth. cbn in Hth.
  pose proof (Z.div_mod d Millisecond ltac:(done)) as Hdm. rewrite Hms, Z.add_0_r in Hdm.
  rewrite Z.quot_div_nonneg in Hth by lia.
  set (ms := d / Millisecond) in *. assert (0 < ms) by lia.
  assert (ms * SlotsPerEpoch ≤ MaxInt64) by nia.
  rewrite (u64_small ms), (u64_small (ms * _)) in Hth by (unfold is_u64; nia).
  set (em := ms * SlotsPerEpoch) in *. assert (0 < em) by nia.
  destruct (Z.eqb_spec em 0); [lia|]. destruct (Z.eqb_spec InactivityScoreBias 0); [lia|]. cbn in Hth.
  change (inactivityEjectionMinDowntimeSeconds *64 1000) with 21600000 in Hth.
  pose proof (Z.mul_succ_div_gt 21600000 em ltac:(lia)) as Hdiv.
  pose proof (Z.div_pos 21600000 em ltac:(lia) ltac:(lia)) as Hpos.
  pose proof (Z.div_le_upper_bound 21600000 em 21600000 ltac:(lia) ltac:(nia)) as Hup.
  exists (21600000 / em). set (q := 21600000 / em) in *. set (leak := if q =? 0 then 1 else q) in Hth.
  assert (q ≤ leak ≤ 21600000) as Hleak by (subst leak; destruct (Z.eqb_spec q 0); lia).
  rewrite u64_small in Hth by (unfold is_u64; nia). simplify_eq. split; [nia|].
  rewrite Hdm. subst em. nia.
Qed.

(** C36: a forced exit for inactivity takes about six hours of missed epochs.  If the score of
    a validator, counted from 0, has reached the threshold of epoch [e], the epochs it missed
    are distinct, lie before [e] and last, by the slot-time schedule, more than six hours less
    one epoch of the length of [e], provided the schedule has made no slot before [e] shorter
    than the slots of [e]. *)
Theorem ejection_needs_downtime e start d th missed sc :
  schedule_ok → 0 < SlotsPerEpoch →
  EpochStart e = Ok start → SlotDurationAt start = Ok d → d * SlotsPerEpoch ≤ MaxInt64 →
  no_shorter_before (e * SlotsPerEpoch) d →
  0 ≤ InactivityScoreRecoveryRate → 0 < InactivityScoreBias < 4294967296 →
  InactivityEjectionThreshold e = Ok th → score_run e missed sc → th ≤ sc →
  NoDup missed ∧ Forall (λ k, 0 ≤ k < e) missed ∧
  6 * 60 * 60 * Second < sumBy epoch_time missed + d * SlotsPerEpoch.
Proof.
  intros Hok Hn Hs Hd Hmax Hshort Hr Hb Hth Hrun Hge.
  apply score_run_bound in Hrun as (Hsc & _ & He & Hnd & Hall); [|done|unfold is_u64; lia].
  split; [done|]. split; [done|].
  destruct (SlotDurationAt_millis start d) as [Hd0 Hms]; [done|by eapply EpochStart_nonneg|done|].
  destruct (threshold_epochs e start d th) as (q & Hq & Hsix); try done.
  pose proof (missed_last e d missed Hok Hn Hshort Hall) as Hlast.
  assert (q ≤ len missed) by nia. nia.
Qed.
End downtime.

#[local] Existing Instance mainnet_config.
#[local] Existing Instance mainnet_epoch_config.

(** An absent validator during a leak. *)
Definition ex_absent (score : Z) : PreValidator :=
  mkPre false false true true false false false false false false 32000000000 score 0 0.

Lemma ex_absent_run n : Z.of_nat n < 1000 → score_run (Z.of_nat n) (Z.of_nat <$> rev (seq 0 n)) (Z.of_nat n * 4).
Proof.
  induction n as [|n IH]; intros Hn; [by constructor|].
  replace (Z.of_nat (S n)) with (Z.of_nat n + 1) by lia. rewrite seq_S, rev_app_distr. cbn [rev app fmap list_fmap].
  apply (score_next (Z.of_nat n) _ true (ex_absent (Z.of_nat n * 4))); [apply IH; lia|].
  unfold updateScore. simpl. change InactivityScoreBias with 4.
  rewrite Add64_cases by (unfold is_u64; lia). destruct (Z.ltb_spec (Z.of_nat n * 4 + 4) two64); [|lia].
  simpl. f_equal. lia.
Qed.

Lemma mainnet_no_shorter s : no_shorter_before s (12 * Second).
Proof.
  intros k Hk. exists (12 * Second). split; [|lia].
  rewrite SlotDurationAt_exact; [reflexivity|by apply (@bool_decide_unpack _ (@schedule_ok_dec mainnet_config)); vm_compute|lia].
Qed.

Lemma ejection_needs_downtime_witness :
  InactivityEjectionThreshold 56 = Ok 224 ∧ score_run 56 (Z.of_nat <$> rev (seq 0 56)) 224 ∧
  6 * 60 * 60 * Second < sumBy epoch_time (Z.of_nat <$> rev (seq 0 56)) + 12 * Second * SlotsPerEpoch.
Proof.
  split; [vm_compute; reflexivity|]. split; [apply (ex_absent_run 56); lia|].
  apply (ejection_needs_downtime 56 1792 (12 * Second) 224 (Z.of_nat <$> rev (seq 0 56)) 224);
    [by apply (@bool_decide_unpack _ (@schedule_ok_dec mainnet_config)); vm_compute
    |vm_compute; reflexivity|vm_compute; reflexivity|vm_compute; reflexivity|vm_compute; discriminate
    |apply mainnet_no_shorter|vm_compute; discriminate|vm_compute; done|vm_compute; reflexivity
    |apply (ex_absent_run 56); lia|lia].
Defined.

(** The six hours are not a minimum: the threshold is rounded down to whole epochs.  With the
    epochs of mainnet a validator absent from genesis on reaches it after 56 missed epochs,
    which last less than six hours. *)
Theorem ejection_before_six_hours :
  ∃ missed sc, score_run 56 missed sc ∧ InactivityEjectionThreshold 56 = Ok sc ∧
    sumBy epoch_time missed = 56 * 384 * Second ∧ 56 * 384 * Second < 6 * 60 * 60 * Second.
Proof.
  exists (Z.of_nat <$> rev (seq 0 56)), 224. split; [apply (ex_absent_run 56); lia|].
  split_and!; vm_compute; reflexivity.
Qed.
