(* ===== verification/Slasher.v ===== *)
(** * beacon-chain/slasher: span chunks and surround-vote detection

    params.go, chunks.go, the attestation part of detect_attestations.go and the
    grouping and filtering of helpers.go.  For each validator the slasher keeps two
    arrays over the last [historyLength] epochs, the min spans and the max spans,
    cut into chunks of [chunkSize] epochs; a chunk on disk holds those of
    [validatorChunkSize] validators in one flat slice of [uint16] distances.

    The database (beacon-chain/db/slasherkv over bbolt) is the record
    [SlasherDatabase] of the calls made here.  A 32-byte root is the number its
    big-endian bytes spell, so that [bytes.Compare] is the order of numbers.
    [unifyAttWrapperVersion] rewrites the version of one of the two attestations;
    no other field depends on it, so wrappers are plain values. *)
From S2P Require Import Prelude Primitives Shuffle MVSlice.

(** ** params.go *)
Record Parameters := {
  chunkSize : Z;            (* C *)
  validatorChunkSize : Z;   (* K *)
  historyLength : Z         (* H *)
}.

Definition DefaultParams : Parameters :=
  {| chunkSize := 16; validatorChunkSize := 256; historyLength := 4096 |}.
Definition NewParams (chunkSize validatorChunkSize historyLength : Z) : Parameters :=
  Build_Parameters chunkSize validatorChunkSize historyLength.

Section params.
Context (p : Parameters).

Definition chunkIndex (epoch : Z) : gores Z :=
  e ← Epoch.Mod epoch (historyLength p); Epoch.Div e (chunkSize p).
Definition validatorChunkIndex (validatorIndex : Z) : gores Z :=
  ValidatorIndex.Div validatorIndex (validatorChunkSize p).
Definition firstEpoch (chunkIndex : Z) : Z := chunkIndex *64 chunkSize p.
Definition lastEpoch (chunkIndex : Z) : gores Z :=
  Epoch.Add (firstEpoch chunkIndex) (chunkSize p -64 1).
Definition chunkOffset (epoch : Z) : gores Z := Epoch.Mod epoch (chunkSize p).
Definition validatorOffset (validatorIndex : Z) : gores Z :=
  ValidatorIndex.Mod validatorIndex (validatorChunkSize p).
Definition cellIndex (validatorIndex epoch : Z) : gores Z :=
  validatorChunkOffset ← validatorOffset validatorIndex;
  chunkOffset ← chunkOffset epoch;
  Ok ((validatorChunkOffset *64 chunkSize p) +64 chunkOffset).

(** [ssz.MarshalUint64] appends the eight little-endian bytes. *)
Definition flatSliceID (validatorChunkIndex chunkIndex : Z) : gores (list Z) :=
  width ← Epoch.Div (historyLength p) (chunkSize p);
  w ← Epoch.Mul width validatorChunkIndex;
  id ← Epoch.Add w chunkIndex;
  Ok (le_bytes 8 id).

(** [for i := low; i < high; i++], the bounds being [uint64]s. *)
Definition ValidatorIndexesInChunk (validatorChunkIndex : Z) : list Z :=
  let low := validatorChunkIndex *64 validatorChunkSize p in
  let high := (validatorChunkIndex +64 1) *64 validatorChunkSize p in
  seqZ low (high - low).

(** ** chunks.go: cells *)
Definition epochDistance (epoch baseEpoch : Z) : gores Z :=
  if baseEpoch >? epoch then Err errMessage
  else d ← Epoch.Sub epoch baseEpoch; Ok (u16 d).

Definition requiredLen : Z := chunkSize p *64 validatorChunkSize p.

Definition chunkDataAtEpoch (chunk : list Z) (validatorIdx epoch : Z) : gores Z :=
  if negb (len chunk =? requiredLen) then Err errMessage
  else
    cellIdx ← cellIndex validatorIdx epoch;
    if cellIdx >=? len chunk then Err errMessage
    else
      distance ← index_at chunk cellIdx;
      Epoch.Add epoch distance.

Definition setChunkRawDistance (chunk : list Z) (validatorIdx epochInChunk distance : Z) : gores (list Z) :=
  cellIdx ← cellIndex validatorIdx epochInChunk;
  if cellIdx >=? len chunk then Err errMessage
  else assign chunk cellIdx distance.

Definition setChunkDataAtEpoch (chunk : list Z) (validatorIdx epochInChunk targetEpoch : Z) : gores (list Z) :=
  distance ← epochDistance targetEpoch epochInChunk;
  setChunkRawDistance chunk validatorIdx epochInChunk distance.

(** ** The two kinds of chunk *)
Inductive ChunkKind := MinSpan | MaxSpan.

Definition NeutralElement (kind : ChunkKind) : Z :=
  match kind with MinSpan => 65535 | MaxSpan => 0 end.

(** [EmptyMinSpanChunksSlice] and [EmptyMaxSpanChunksSlice] *)
Definition EmptyChunksSlice (kind : ChunkKind) : list Z :=
  replicate (Z.to_nat requiredLen) (NeutralElement kind).

(** [MinChunkSpansSliceFrom] and [MaxChunkSpansSliceFrom] *)
Definition ChunkSpansSliceFrom (chunk : list Z) : gores (list Z) :=
  if negb (len chunk =? requiredLen) then Err errMessage else Ok chunk.

(** *** [Update]: the data is mutated in place, also when an error ends the loop. *)
Definition mutate (r : gores (list Z)) : M (list Z) unit := λ data,
  match r with Ok data' => (Ok tt, data') | Err e => (Err e, data) | Panic => (Panic, data) | OutOfFuel => (OutOfFuel, data) end.

Definition minEpochOf (currentEpoch : Z) : Z :=
  if currentEpoch >? (historyLength p -64 1) then currentEpoch -64 (historyLength p -64 1) else 0.

Fixpoint minUpdateLoop (fuel : nat) (ci minEpoch validatorIndex epochInChunk newTargetEpoch : Z)
    : M (list Z) bool :=
  ci' ← mlift (chunkIndex epochInChunk);
  if (ci' =? ci) && (epochInChunk >=? minEpoch) then
    match fuel with
    | O => mstuck
    | S fuel' =>
        data ← mget;
        chunkTarget ← mlift (chunkDataAtEpoch data validatorIndex epochInChunk);
        if newTargetEpoch <? chunkTarget then
          mutate (setChunkDataAtEpoch data validatorIndex epochInChunk newTargetEpoch);;
          minUpdateLoop fuel' ci minEpoch validatorIndex
            (if epochInChunk >? 0 then epochInChunk -64 1 else epochInChunk) newTargetEpoch
        else mret false
    end
  else mret (epochInChunk >=? minEpoch).

Fixpoint maxUpdateLoop (fuel : nat) (ci currentEpoch validatorIndex epochInChunk newTargetEpoch : Z)
    : M (list Z) bool :=
  ci' ← mlift (chunkIndex epochInChunk);
  if (ci' =? ci) && (epochInChunk <=? currentEpoch) then
    match fuel with
    | O => mstuck
    | S fuel' =>
        data ← mget;
        chunkTarget ← mlift (chunkDataAtEpoch data validatorIndex epochInChunk);
        if newTargetEpoch >? chunkTarget then
          mutate (setChunkDataAtEpoch data validatorIndex epochInChunk newTargetEpoch);;
          maxUpdateLoop fuel' ci currentEpoch validatorIndex (epochInChunk +64 1) newTargetEpoch
        else mret false
    end
  else mret (epochInChunk <=? currentEpoch).

(** Every iteration leaves the chunk, stops, or stays at epoch 0 where the next one
    stops: [chunkSize] + 2 iterations are enough. *)
Definition update_fuel : nat := Z.to_nat (chunkSize p) + 2.

Definition Update (kind : ChunkKind) (chunkIndex currentEpoch validatorIndex startEpoch newTargetEpoch : Z)
    : M (list Z) bool :=
  match kind with
  | MinSpan => minUpdateLoop update_fuel chunkIndex (minEpochOf currentEpoch) validatorIndex startEpoch newTargetEpoch
  | MaxSpan => maxUpdateLoop update_fuel chunkIndex currentEpoch validatorIndex startEpoch newTargetEpoch
  end.

(** *** [StartEpoch] and [NextChunkStartEpoch] *)
Definition StartEpoch (kind : ChunkKind) (sourceEpoch currentEpoch : Z) : gores (option Z) :=
  match kind with
  | MinSpan =>
      if sourceEpoch =? 0 then Ok None
      else
        let difference := if currentEpoch >? historyLength p then currentEpoch -64 historyLength p else 0 in
        if sourceEpoch <=? difference then Ok None
        else epoch ← Epoch.Sub sourceEpoch 1; Ok (Some epoch)
  | MaxSpan =>
      if sourceEpoch >=? currentEpoch then Ok None
      else epoch ← Epoch.Add sourceEpoch 1; Ok (Some epoch)
  end.

Definition NextChunkStartEpoch (kind : ChunkKind) (startEpoch : Z) : gores Z :=
  match kind with
  | MinSpan =>
      prevChunkIdx ← chunkIndex startEpoch;
      lastEpoch (if prevChunkIdx >? 0 then prevChunkIdx -64 1 else prevChunkIdx)
  | MaxSpan => ci ← chunkIndex startEpoch; Ok (firstEpoch (ci +64 1))
  end.
End params.

(** ** Attestations *)
Inductive AttVersion := Phase0 | Electra.
#[export] Instance AttVersion_eq_dec : EqDecision AttVersion.
Proof. solve_decision. Defined.

Record IndexedAttestation := {
  Version : AttVersion; AttestingIndices : list Z; SourceEpoch : Z; TargetEpoch : Z }.
Record IndexedAttestationWrapper := { indexedAttestation : IndexedAttestation; DataRoot : Z }.
Record AttSlashing := { slashing_version : AttVersion;
  Attestation_1 : IndexedAttestation; Attestation_2 : IndexedAttestation }.

Definition toElectra (a : IndexedAttestation) : IndexedAttestation :=
  {| Version := Electra; AttestingIndices := AttestingIndices a;
     SourceEpoch := SourceEpoch a; TargetEpoch := TargetEpoch a |}.

Definition unifyAttWrapperVersion (w1 w2 : IndexedAttestationWrapper)
    : IndexedAttestationWrapper * IndexedAttestationWrapper :=
  if decide (Version (indexedAttestation w1) = Version (indexedAttestation w2)) then (w1, w2)
  else if decide (Version (indexedAttestation w1) ≠ Electra) then
    ({| indexedAttestation := toElectra (indexedAttestation w1); DataRoot := DataRoot w1 |}, w2)
  else (w1, {| indexedAttestation := toElectra (indexedAttestation w2); DataRoot := DataRoot w2 |}).

(** The slashing of two attestations, with the type assertions of the code: the one
    with the lower data root comes first. *)
Definition buildSlashing (existing incoming : IndexedAttestationWrapper) : gores AttSlashing :=
  let '(existing, incoming) := unifyAttWrapperVersion existing incoming in
  let version := Version (indexedAttestation existing) in
  if decide (Version (indexedAttestation incoming) ≠ version) then Err errMessage
  else if DataRoot existing >? DataRoot incoming
  then Ok (Build_AttSlashing version (indexedAttestation incoming) (indexedAttestation existing))
  else Ok (Build_AttSlashing version (indexedAttestation existing) (indexedAttestation incoming)).

Record SlasherDatabase := {
  AttestationRecordForValidator : Z → Z → gores (option IndexedAttestationWrapper);
  LoadSlasherChunks : ChunkKind → list (list Z) → gores (list (list Z) * list bool)
}.

Section service.
Context (p : Parameters) (db : SlasherDatabase).

(** [CheckSlashable] of a min chunk (the incoming vote surrounds) and of a max chunk
    (it is surrounded). *)
Definition CheckSlashable (kind : ChunkKind) (data : list Z) (validatorIdx : Z)
    (incoming : IndexedAttestationWrapper) : gores (option AttSlashing) :=
  let sourceEpoch := SourceEpoch (indexedAttestation incoming) in
  let targetEpoch := TargetEpoch (indexedAttestation incoming) in
  spanTarget ← chunkDataAtEpoch p data validatorIdx sourceEpoch;
  if (match kind with MinSpan => targetEpoch <=? spanTarget | MaxSpan => targetEpoch >=? spanTarget end)
  then Ok None
  else
    existing ← AttestationRecordForValidator db validatorIdx spanTarget;
    match existing with
    | None => Ok None
    | Some existing =>
        let existingSource := SourceEpoch (indexedAttestation existing) in
        if (match kind with MinSpan => existingSource <=? sourceEpoch | MaxSpan => existingSource >=? sourceEpoch end)
        then Ok None
        else slashing ← buildSlashing existing incoming; Ok (Some slashing)
    end.

(** ** Chunks in memory and on disk *)
Fixpoint chunkKeys (validatorChunkIndex : Z) (chunkIndexes : list Z) : gores (list (list Z)) :=
  match chunkIndexes with
  | [] => Ok []
  | ci :: cis =>
      key ← flatSliceID p validatorChunkIndex ci;
      keys ← chunkKeys validatorChunkIndex cis;
      Ok (key :: keys)
  end.

(** [for i := range rawChunks], with the lengths already checked. *)
Fixpoint initChunks (kind : ChunkKind) (cis : list Z) (raw : list (list Z)) (exists_ : list bool)
    (chunks : gmap Z (list Z)) : gores (gmap Z (list Z)) :=
  match cis, raw, exists_ with
  | ci :: cis, r :: raw, b :: exists_ =>
      chunk ← (if b then ChunkSpansSliceFrom p r else Ok (EmptyChunksSlice p kind) : gores (list Z));
      initChunks kind cis raw exists_ (<[ci := chunk]> chunks)
  | _, _, _ => Ok chunks
  end.

Definition loadChunksFromDisk (validatorChunkIndex : Z) (kind : ChunkKind) (chunkIndexes : list Z)
    : gores (gmap Z (list Z)) :=
  if (length chunkIndexes =? 0)%nat then Ok ∅
  else
    keys ← chunkKeys validatorChunkIndex chunkIndexes;
    '(raw, chunksExist) ← LoadSlasherChunks db kind keys;
    if negb (length raw =? length chunkIndexes)%nat then Err errMessage
    else if negb (length chunksExist =? length chunkIndexes)%nat then Err errMessage
    else initChunks kind chunkIndexes raw chunksExist ∅.

Definition getChunkFromDatabase (kind : ChunkKind) (validatorChunkIndex chunkIndex : Z) : gores (list Z) :=
  diskChunks ← loadChunksFromDisk validatorChunkIndex kind [chunkIndex];
  match diskChunks !! chunkIndex with Some chunk => Ok chunk | None => Err errMessage end.

(** The state of a batch: [chunksByChunkIdx]. *)
Abbreviation chunks := (gmap Z (list Z)).

Definition getChunk (kind : ChunkKind) (validatorChunkIndex ci : Z) (cs : chunks) : gores (list Z) :=
  match cs !! ci with
  | Some chunk => Ok chunk
  | None => getChunkFromDatabase kind validatorChunkIndex ci
  end.

(** [chunk.Update(...)] and [chunksByChunkIdx[chunkIndex] = chunk]: a chunk of the
    map is mutated in place, also when [Update] fails; a loaded one is stored only
    when it succeeds. *)
Definition updateChunk (kind : ChunkKind) (validatorChunkIndex ci currentEpoch validatorIndex startEpoch targetEpoch : Z)
    : M chunks bool := λ cs,
  match getChunk kind validatorChunkIndex ci cs with
  | Err e => (Err e, cs) | Panic => (Panic, cs) | OutOfFuel => (OutOfFuel, cs)
  | Ok data =>
      let '(r, data') := Update p kind ci currentEpoch validatorIndex startEpoch targetEpoch data in
      (r, match r, cs !! ci with Ok _, _ | _, Some _ => <[ci := data']> cs | _, None => cs end)
  end.

Fixpoint applyLoop (fuel : nat) (kind : ChunkKind) (validatorChunkIndex validatorIndex currentEpoch targetEpoch startEpoch : Z)
    : M chunks unit :=
  match fuel with
  | O => mstuck
  | S fuel' =>
      ci ← mlift (chunkIndex p startEpoch);
      keepGoing ← updateChunk kind validatorChunkIndex ci currentEpoch validatorIndex startEpoch targetEpoch;
      if keepGoing : bool then
        startEpoch ← mlift (NextChunkStartEpoch p kind startEpoch);
        applyLoop fuel' kind validatorChunkIndex validatorIndex currentEpoch targetEpoch startEpoch
      else mret tt
  end.

(** The loop visits a chunk at most twice: below epoch [historyLength] it walks the
    chunks once, and beyond it stops at the first chunk it has already written. *)
Definition apply_fuel : nat := Z.to_nat (2 * (historyLength p / chunkSize p)) + 2.

Definition applyAttestationForValidator (kind : ChunkKind) (attestation : IndexedAttestationWrapper)
    (validatorChunkIndex validatorIndex currentEpoch : Z) : M chunks (option AttSlashing) :=
  let sourceEpoch := SourceEpoch (indexedAttestation attestation) in
  let targetEpoch := TargetEpoch (indexedAttestation attestation) in
  ci ← mlift (chunkIndex p sourceEpoch);
  cs ← mget;
  data ← mlift (getChunk kind validatorChunkIndex ci cs);
  slashing ← mlift (CheckSlashable kind data validatorIndex attestation);
  match slashing with
  | Some _ => mret slashing
  | None =>
      startEpoch ← mlift (StartEpoch p kind sourceEpoch currentEpoch);
      match startEpoch with
      | None => mret None
      | Some startEpoch =>
          applyLoop apply_fuel kind validatorChunkIndex validatorIndex currentEpoch targetEpoch startEpoch;;
          mret None
      end
  end.
End service.
