(* ===== verification/SlasherService.v ===== *)
(** * beacon-chain/slasher: batches of attestations

    The filtering and grouping of helpers.go and the batch steps of
    detect_attestations.go: which epochs of the spans to refresh, the refresh with
    neutral elements, and the double votes inside a batch.  In [checkDoubleVotes] the
    wrappers are objects that [unifyAttWrapperVersion] mutates while the map of seen
    votes refers to them, so they live in a store, the batch itself, and are referred
    to by index.  [HashTreeRoot] of a slashing (generated SSZ code) and the database
    are parameters. *)
From S2P Require Import Prelude MathHelper Primitives Shuffle MVSlice Slasher.

(** ** helpers.go *)

(** [None] is a nil wrapper, or an attestation without data, source or target. *)
Definition validateAttestationIntegrity (w : option IndexedAttestationWrapper) : bool :=
  match w with
  | None => false
  | Some w =>
      let sourceEpoch := SourceEpoch (indexedAttestation w) in
      let targetEpoch := TargetEpoch (indexedAttestation w) in
      if (sourceEpoch =? 0) && (targetEpoch =? 0) then true else sourceEpoch <? targetEpoch
  end.

Section batch.
Context (p : Parameters).

Fixpoint filterAttestations (attWrappers : list (option IndexedAttestationWrapper)) (currentEpoch : Z)
    : list IndexedAttestationWrapper * list IndexedAttestationWrapper * Z :=
  match attWrappers with
  | [] => ([], [], 0)
  | w :: rest =>
      let '(valid, validInFuture, numDropped) := filterAttestations rest currentEpoch in
      match w with
      | Some a =>
          if negb (validateAttestationIntegrity w) then (valid, validInFuture, numDropped + 1)
          else if (SourceEpoch (indexedAttestation a) +64 historyLength p) <=? currentEpoch
          then (valid, validInFuture, numDropped + 1)
          else if TargetEpoch (indexedAttestation a) >? currentEpoch
          then (valid, a :: validInFuture, numDropped)
          else (a :: valid, validInFuture, numDropped)
      | None => (valid, validInFuture, numDropped + 1)
      end
  end.

Definition append_to {A} (k : Z) (a : A) (m : gmap Z (list A)) : gmap Z (list A) :=
  <[k := default [] (m !! k) ++ [a]]> m.

(** The set of validator chunk indexes of one attestation; the map behind it is
    iterated in any order, each key once. *)
Fixpoint validatorChunkIndexes (indices : list Z) : gores (gset Z) :=
  match indices with
  | [] => Ok ∅
  | i :: indices' =>
      ci ← validatorChunkIndex p i;
      s ← validatorChunkIndexes indices';
      Ok ({[ci]} ∪ s)
  end.

Fixpoint groupByValidatorChunkIndex_loop (atts : list IndexedAttestationWrapper)
    (grouped : gmap Z (list IndexedAttestationWrapper)) : gores (gmap Z (list IndexedAttestationWrapper)) :=
  match atts with
  | [] => Ok grouped
  | a :: atts' =>
      cis ← validatorChunkIndexes (AttestingIndices (indexedAttestation a));
      groupByValidatorChunkIndex_loop atts' (set_fold (λ ci m, append_to ci a m) grouped cis)
  end.
Definition groupByValidatorChunkIndex (atts : list IndexedAttestationWrapper)
    : gores (gmap Z (list IndexedAttestationWrapper)) := groupByValidatorChunkIndex_loop atts ∅.

Fixpoint groupByChunkIndex_loop (atts : list IndexedAttestationWrapper)
    (grouped : gmap Z (list IndexedAttestationWrapper)) : gores (gmap Z (list IndexedAttestationWrapper)) :=
  match atts with
  | [] => Ok grouped
  | a :: atts' =>
      ci ← chunkIndex p (SourceEpoch (indexedAttestation a));
      groupByChunkIndex_loop atts' (append_to ci a grouped)
  end.
Definition groupByChunkIndex (atts : list IndexedAttestationWrapper)
    : gores (gmap Z (list IndexedAttestationWrapper)) := groupByChunkIndex_loop atts ∅.

(** ** Refreshing the spans *)
Definition firstEpochToUpdate (latestEpochUpdatedForValidator : gmap Z Z) (validatorIndex currentEpoch : Z)
    : gores (option Z) :=
  let latest := default 0 (latestEpochUpdatedForValidator !! validatorIndex) in
  epochToUpdate ← Epoch.SafeAdd latest 1;
  let epochToUpdate := match latestEpochUpdatedForValidator !! validatorIndex with
                       | Some _ => epochToUpdate | None => 0 end in
  if latest =? currentEpoch then Ok None
  else if latest >? currentEpoch then Err errMessage
  else if (currentEpoch -64 epochToUpdate) >=? historyLength p
  then Ok (Some ((currentEpoch +64 1) -64 historyLength p))
  else Ok (Some epochToUpdate).

(** [for i := first; i <= currentEpoch; i++] *)
Definition epochs_from (first last : Z) : list Z := seqZ first (last - first + 1).

Fixpoint chunkIndexesOf (epochs : list Z) : gores (gset Z) :=
  match epochs with
  | [] => Ok ∅
  | e :: epochs' => ci ← chunkIndex p e; s ← chunkIndexesOf epochs'; Ok ({[ci]} ∪ s)
  end.

(** [minFirst] is [minFirstEpochToUpdate], nil at the start. *)
Fixpoint findNeededChunkIndexes (latest : gmap Z Z) (validatorIndexes : list Z) (currentEpoch : Z)
    (minFirst : option Z) (needed : gset Z) : gores (gset Z) :=
  match validatorIndexes with
  | [] => Ok needed
  | v :: rest =>
      first ← firstEpochToUpdate latest v currentEpoch;
      match first with
      | None => findNeededChunkIndexes latest rest currentEpoch minFirst needed
      | Some first =>
          if (match minFirst with Some m => m <=? first | None => false end)
          then findNeededChunkIndexes latest rest currentEpoch minFirst needed
          else
            cis ← chunkIndexesOf (epochs_from first currentEpoch);
            findNeededChunkIndexes latest rest currentEpoch (Some first) (needed ∪ cis)
      end
  end.

(** The neutral element written at one epoch, in the chunk of the map that holds it;
    the two nested loops of the code visit the epochs in this order. *)
Fixpoint neutralize (kind : ChunkKind) (v : Z) (epochs : list Z) (cs : gmap Z (list Z)) : gores (gmap Z (list Z)) :=
  match epochs with
  | [] => Ok cs
  | e :: epochs' =>
      ci ← chunkIndex p e;
      match cs !! ci with
      | None => Err errMessage
      | Some chunk =>
          chunk ← setChunkRawDistance p chunk v e (NeutralElement kind);
          neutralize kind v epochs' (<[ci := chunk]> cs)
      end
  end.

Fixpoint neutralizeAll (kind : ChunkKind) (latest : gmap Z Z) (vs : list Z) (currentEpoch : Z) (cs : gmap Z (list Z))
    : gores (gmap Z (list Z)) :=
  match vs with
  | [] => Ok cs
  | v :: vs' =>
      first ← firstEpochToUpdate latest v currentEpoch;
      match first with
      | None => neutralizeAll kind latest vs' currentEpoch cs
      | Some first =>
          cs ← neutralize kind v (epochs_from first currentEpoch) cs;
          neutralizeAll kind latest vs' currentEpoch cs
      end
  end.

Definition updatedChunkByChunkIndex (db : SlasherDatabase) (latest : gmap Z Z) (kind : ChunkKind)
    (currentEpoch validatorChunkIndex : Z) : gores (gmap Z (list Z)) :=
  let validatorIndexes := ValidatorIndexesInChunk p validatorChunkIndex in
  needed ← findNeededChunkIndexes latest validatorIndexes currentEpoch None ∅;
  cs ← loadChunksFromDisk p db validatorChunkIndex kind (elements needed);
  neutralizeAll kind latest validatorIndexes currentEpoch cs.
End batch.

(** ** Double votes *)
Record DoubleVoteState := {
  wrappers : list IndexedAttestationWrapper;       (* the objects of the batch *)
  seen : gmap (Z * Z) nat;                          (* existingAttWrappers *)
  slashings : gmap Z AttSlashing
}.

Section double.
Context (HashTreeRoot : AttSlashing → gores Z).

Definition reportDoubleVote (j i : nat) : M DoubleVoteState unit := λ s,
  match wrappers s !! j, wrappers s !! i with
  | Some existing, Some incoming =>
      let '(existing, incoming) := unifyAttWrapperVersion existing incoming in
      let ws := <[i := incoming]> (<[j := existing]> (wrappers s)) in
      let s := Build_DoubleVoteState ws (seen s) (slashings s) in
      match (slashing ← buildSlashing existing incoming;
             root ← HashTreeRoot slashing; Ok (root, slashing)) with
      | Ok (root, slashing) => (Ok tt, Build_DoubleVoteState ws (seen s) (<[root := slashing]> (slashings s)))
      | Err e => (Err e, s) | Panic => (Panic, s) | OutOfFuel => (OutOfFuel, s)
      end
  | _, _ => (Panic, s)
  end.

(** The body of the loop over the attesting indices of the [i]th attestation. *)
Definition checkValidator (i : nat) (target validatorIndex : Z) : M DoubleVoteState unit :=
  s ← mget;
  match seen s !! (validatorIndex, target) with
  | None => mmodify (λ s, Build_DoubleVoteState (wrappers s) (<[(validatorIndex, target) := i]> (seen s)) (slashings s))
  | Some j =>
      if decide (DataRoot <$> wrappers s !! j = DataRoot <$> wrappers s !! i) then mret tt
      else reportDoubleVote j i
  end.

Definition checkWrapper (i : nat) : M DoubleVoteState unit :=
  s ← mget;
  match wrappers s !! i with
  | None => mpanic
  | Some w =>
      mfor (AttestingIndices (indexedAttestation w))
        (checkValidator i (TargetEpoch (indexedAttestation w)))
  end.

(** The double votes of a batch with respect to each other: the first loop of
    [checkDoubleVotes]. *)
Definition checkBatch (ws : list IndexedAttestationWrapper) : gores unit * DoubleVoteState :=
  mfor (seq 0 (length ws)) checkWrapper (Build_DoubleVoteState ws ∅ ∅).

(** The second loop: double votes the database found. *)
Fixpoint addDatabaseVotes (votes : list (IndexedAttestationWrapper * IndexedAttestationWrapper))
    (slashings : gmap Z AttSlashing) : gores (gmap Z AttSlashing) :=
  match votes with
  | [] => Ok slashings
  | (w1, w2) :: votes' =>
      slashing ← buildSlashing w1 w2;
      root ← HashTreeRoot slashing;
      addDatabaseVotes votes' (<[root := slashing]> slashings)
  end.

Definition checkDoubleVotes
    (CheckAttesterDoubleVotes : list IndexedAttestationWrapper → gores (list (IndexedAttestationWrapper * IndexedAttestationWrapper)))
    (ws : list IndexedAttestationWrapper) : gores (gmap Z AttSlashing) :=
  let '(r, s) := checkBatch ws in
  _ ← r;
  votes ← CheckAttesterDoubleVotes (wrappers s);
  addDatabaseVotes votes (slashings s).
End double.
