(* ===== verification/SlasherBatch.v ===== *)
(** * Filtering and double votes of a batch *)
From S2P Require Import Prelude MathHelper Primitives Shuffle MVSlice Slasher SlasherService.

(** Two attestations that differ at most in their version. *)
Definition same_att (a b : IndexedAttestation) : Prop :=
  AttestingIndices a = AttestingIndices b ∧ SourceEpoch a = SourceEpoch b ∧ TargetEpoch a = TargetEpoch b.
Definition same_vote (w w' : IndexedAttestationWrapper) : Prop :=
  same_att (indexedAttestation w) (indexedAttestation w') ∧ DataRoot w = DataRoot w'.

(** Two attestations of one validator for one target that are not the same data. *)
Definition double_vote (w w' : IndexedAttestationWrapper) : Prop :=
  TargetEpoch (indexedAttestation w) = TargetEpoch (indexedAttestation w') ∧
  DataRoot w ≠ DataRoot w' ∧
  ∃ v, v ∈ AttestingIndices (indexedAttestation w) ∧ v ∈ AttestingIndices (indexedAttestation w').

Lemma double_vote_sym w w' : double_vote w w' → double_vote w' w.
Proof. intros (Ht & Hr & v & H1 & H2). split_and!; [done|done|by exists v]. Qed.

Lemma same_vote_refl w : same_vote w w.
Proof. done. Qed.
Lemma same_vote_trans w1 w2 w3 : same_vote w1 w2 → same_vote w2 w3 → same_vote w1 w3.
Proof. unfold same_vote, same_att. intuition congruence. Qed.

Lemma unify_same w1 w2 : same_vote w1 (unifyAttWrapperVersion w1 w2).1 ∧ same_vote w2 (unifyAttWrapperVersion w1 w2).2.
Proof. unfold unifyAttWrapperVersion. repeat case_decide; done. Qed.

(** A slashing of the two attestations, in the order of their data roots. *)
Lemma buildSlashing_spec w1 w2 : ∃ sl, buildSlashing w1 w2 = Ok sl ∧
  (same_att (indexedAttestation w1) (Attestation_1 sl) ∧ same_att (indexedAttestation w2) (Attestation_2 sl) ∨
   same_att (indexedAttestation w2) (Attestation_1 sl) ∧ same_att (indexedAttestation w1) (Attestation_2 sl)).
Proof.
  unfold buildSlashing, unifyAttWrapperVersion.
  destruct w1 as [[[] i1 s1 t1] r1], w2 as [[[] i2 s2 t2] r2]; simpl;
    destruct (r1 >? r2); eexists; (split; [done|]); [right|left|right|left|right|left|right|left]; done.
Qed.

Lemma Forall2_replace {A B} (P : A → B → Prop) l k i x y :
  l !! i = Some x → Forall2 P l k → P x y → Forall2 P l (<[i := y]> k).
Proof. intros Hx Hl Hp. rewrite <-(list_insert_id l i x) by done. by apply Forall2_insert. Qed.

Section batch_facts.
Context (HashTreeRoot : AttSlashing → gores Z) (Hroot : ∀ sl, ∃ r, HashTreeRoot sl = Ok r).
Context (ws : list IndexedAttestationWrapper).

(** The attestations of a slashing are a double vote of the batch. *)
Definition genuine (sl : AttSlashing) : Prop := ∃ w w', w ∈ ws ∧ w' ∈ ws ∧ double_vote w w' ∧
  same_att (indexedAttestation w) (Attestation_1 sl) ∧ same_att (indexedAttestation w') (Attestation_2 sl).

Record batch_inv (visited : nat → Z → Prop) (s : DoubleVoteState) : Prop := {
  bi_same : Forall2 same_vote ws (wrappers s);
  bi_seen : ∀ v t j, seen s !! (v, t) = Some j → ∃ w, ws !! j = Some w ∧
    v ∈ AttestingIndices (indexedAttestation w) ∧ TargetEpoch (indexedAttestation w) = t;
  bi_done : ∀ i v w, visited i v → ws !! i = Some w → ∃ j w',
    seen s !! (v, TargetEpoch (indexedAttestation w)) = Some j ∧ ws !! j = Some w' ∧
    (DataRoot w' = DataRoot w ∨ slashings s ≠ ∅);
  bi_genuine : ∀ r sl, slashings s !! r = Some sl → genuine sl
}.

Lemma insert_nonempty (m : gmap Z AttSlashing) r sl : <[r := sl]> m ≠ ∅.
Proof. apply insert_non_empty. Qed.

Lemma batch_inv_weaken P Q s : (∀ i v, Q i v → P i v) → batch_inv P s → batch_inv Q s.
Proof. intros HQ [H1 H2 H3 H4]. split; try done. intros i v w Hi. apply H3, HQ, Hi. Qed.

Lemma report_inv visited s i j w w' v : batch_inv visited s →
  ws !! i = Some w → ws !! j = Some w' → i ≠ j → double_vote w' w →
  seen s !! (v, TargetEpoch (indexedAttestation w)) = Some j →
  ∃ s', reportDoubleVote HashTreeRoot j i s = (Ok tt, s') ∧
    batch_inv (λ i' v', visited i' v' ∨ (i' = i ∧ v' = v)) s'.
Proof using Hroot.
  intros Hinv Hi Hj Hij Hd Hseen. unfold reportDoubleVote.
  destruct (Forall2_lookup_l _ _ _ _ _ (bi_same _ _ Hinv) Hj) as (ex & -> & Hex).
  destruct (Forall2_lookup_l _ _ _ _ _ (bi_same _ _ Hinv) Hi) as (inc & -> & Hinc).
  destruct (unify_same ex inc) as [Hu1 Hu2].
  destruct (unifyAttWrapperVersion ex inc) as [ex' inc']. simpl in Hu1, Hu2.
  destruct (buildSlashing_spec ex' inc') as (sl & -> & Hsl). cbn [mbind gores_bind].
  destruct (Hroot sl) as [r ->]. cbn [mbind gores_bind].
  pose proof (same_vote_trans _ _ _ Hex Hu1) as He. pose proof (same_vote_trans _ _ _ Hinc Hu2) as Hn.
  eexists. split; [done|]. split; simpl.
  - apply (Forall2_replace _ _ _ _ w); [done| |done]. apply (Forall2_replace _ _ _ _ w'); [done|apply Hinv|done].
  - apply Hinv.
  - intros i' v' u Hvis Hu. destruct Hvis as [Hvis|[-> ->]].
    + destruct (bi_done _ _ Hinv i' v' u Hvis Hu) as (k & u' & ? & ? & _). exists k, u'.
      split_and!; [done|done|right; apply insert_nonempty].
    + assert (u = w) as -> by congruence. exists j, w'. split_and!; [done|done|right; apply insert_nonempty].
  - intros r' sl'. rewrite lookup_insert_Some. intros [[_ <-]|[_ Hold]]; [|by eapply bi_genuine].
    assert (∀ a b c, same_att a b → same_att b c → same_att a c) as Htr by (unfold same_att; intuition congruence).
    destruct He as [He _], Hn as [Hn _].
    destruct Hsl as [[H1 H2]|[H1 H2]]; [exists w', w|exists w, w']; split_and!;
      eauto using list_elem_of_lookup_2, double_vote_sym.
Qed.

Lemma checkValidator_inv visited s i w v : batch_inv visited s → ws !! i = Some w →
  v ∈ AttestingIndices (indexedAttestation w) →
  ∃ s', checkValidator HashTreeRoot i (TargetEpoch (indexedAttestation w)) v s = (Ok tt, s') ∧
    batch_inv (λ i' v', visited i' v' ∨ (i' = i ∧ v' = v)) s'.
Proof using Hroot.
  intros Hinv Hi Hv. unfold checkValidator, mbind, M_bind, mget.
  destruct (seen s !! (v, TargetEpoch (indexedAttestation w))) as [j|] eqn:Hseen.
  - destruct (bi_seen _ _ Hinv _ _ _ Hseen) as (w' & Hj & Hv' & Ht).
    destruct (Forall2_lookup_l _ _ _ _ _ (bi_same _ _ Hinv) Hj) as (ex & Hex & Hsex).
    destruct (Forall2_lookup_l _ _ _ _ _ (bi_same _ _ Hinv) Hi) as (inc & Hinc & Hsinc).
    rewrite Hex, Hinc. simpl.
    case_decide as Hr.
    + exists s. split; [done|]. destruct Hinv as [H1 H2 H3 H4]. split; try done.
      intros i' v' u [Hvis|[-> ->]] Hu; [by eapply H3|]. assert (u = w) as -> by congruence.
      exists j, w'. split_and!; [done|done|left]. destruct Hsex as [_ ->], Hsinc as [_ ->]. congruence.
    + eapply report_inv; try done.
      * intros ->. apply Hr. congruence.
      * split_and!; [done| |by exists v]. destruct Hsex as [_ ->], Hsinc as [_ ->]. congruence.
  - eexists. split; [done|]. destruct Hinv as [H1 H2 H3 H4]. split; simpl; try done.
    + intros v' t j. rewrite lookup_insert_Some. intros [[Heq <-]|[_ Hold]]; [|by eapply H2]. simplify_eq. by exists w.
    + intros i' v' u [Hvis|[-> ->]] Hu.
      * destruct (H3 i' v' u Hvis Hu) as (j & u' & Hj & ? & ?). exists j, u'. split_and!; [|done|done].
        rewrite lookup_insert_ne by congruence. done.
      * assert (u = w) as -> by congruence. exists i, w. split_and!; [by rewrite lookup_insert_eq|done|by left].
Qed.

Lemma checkWrapper_inv i s : (i < length ws)%nat →
  batch_inv (λ i' v, (i' < i)%nat ∧ ∃ w, ws !! i' = Some w ∧ v ∈ AttestingIndices (indexedAttestation w)) s →
  ∃ s', checkWrapper HashTreeRoot i s = (Ok tt, s') ∧
    batch_inv (λ i' v, (i' < S i)%nat ∧ ∃ w, ws !! i' = Some w ∧ v ∈ AttestingIndices (indexedAttestation w)) s'.
Proof using Hroot.
  intros Hi Hinv. destruct (lookup_lt_is_Some_2 ws i Hi) as [w Hw].
  unfold checkWrapper, mbind, M_bind, mget.
  destruct (Forall2_lookup_l _ _ _ _ _ (bi_same _ _ Hinv) Hw) as (w1 & -> & [(Hidx & _ & Htgt) _]).
  rewrite <-Hidx, <-Htgt. rewrite <-(list_fmap_id (AttestingIndices (indexedAttestation w))).
  destruct (mfor_invariant id (checkValidator HashTreeRoot i (TargetEpoch (indexedAttestation w)))
    (λ d, batch_inv (λ i' v, ((i' < i)%nat ∧ ∃ w, ws !! i' = Some w ∧ v ∈ AttestingIndices (indexedAttestation w)) ∨
       (i' = i ∧ v ∈ d))) (AttestingIndices (indexedAttestation w)) s) as (s' & Hrun & Hinv').
  - eapply batch_inv_weaken; [|exact Hinv]. intros i' v [?|[_ ?%not_elem_of_nil]]; done.
  - intros d v rest s1 Hts Hinv1. destruct (checkValidator_inv _ s1 i w v Hinv1 Hw) as (s2 & Hrun & Hinv2).
    { rewrite Hts. set_solver. }
    exists s2. split; [done|]. eapply batch_inv_weaken; [|exact Hinv2]. simpl. set_solver.
  - exists s'. split; [done|]. eapply batch_inv_weaken; [|exact Hinv'].
    intros i' v [Hlt (u & Hu & Hv)]. destruct (decide (i' = i)) as [->|]; [right|left; split; [lia|by exists u]].
    split; [done|]. congruence.
Qed.

Lemma checkBatch_inv : ∃ s, checkBatch HashTreeRoot ws = (Ok tt, s) ∧
  batch_inv (λ i v, ∃ w, ws !! i = Some w ∧ v ∈ AttestingIndices (indexedAttestation w)) s.
Proof using Hroot.
  unfold checkBatch.
  destruct (mfor_seq (checkWrapper HashTreeRoot)
    (λ i, batch_inv (λ i' v, (i' < i)%nat ∧ ∃ w, ws !! i' = Some w ∧ v ∈ AttestingIndices (indexedAttestation w)))
    (length ws) (Build_DoubleVoteState ws ∅ ∅)) as (s & Hrun & Hinv).
  - split; simpl.
    + apply Forall_Forall2_diag, Forall_true. intros. apply same_vote_refl.
    + intros v t j. by rewrite lookup_empty.
    + intros i v w [Hlt _]. lia.
    + intros r sl. by rewrite lookup_empty.
  - intros i s Hi. by apply checkWrapper_inv.
  - exists s. split; [done|]. eapply batch_inv_weaken; [|exact Hinv].
    intros i v (w & Hw & Hv). split; [by eapply lookup_lt_Some|by exists w].
Qed.
End batch_facts.

(** ** Filtering *)
Definition kept (p : Parameters) (cur : Z) (w : IndexedAttestationWrapper) : Prop :=
  validateAttestationIntegrity (Some w) = true ∧ cur < (SourceEpoch (indexedAttestation w) +64 historyLength p).

#[export] Instance kept_dec p cur w : Decision (kept p cur w).
Proof. unfold kept. apply _. Defined.

Lemma filter_step p cur w rest :
  filterAttestations p (w :: rest) cur =
    let '(valid, validInFuture, numDropped) := filterAttestations p rest cur in
    match w with
    | Some a =>
        if decide (kept p cur a) then
          if decide (TargetEpoch (indexedAttestation a) ≤ cur) then (a :: valid, validInFuture, numDropped)
          else (valid, a :: validInFuture, numDropped)
        else (valid, validInFuture, numDropped + 1)
    | None => (valid, validInFuture, numDropped + 1)
    end.
Proof.
  cbn [filterAttestations]. destruct (filterAttestations p rest cur) as [[valid fut] n].
  destruct w as [a|]; [|done]. rewrite Z.gtb_ltb.
  destruct (decide (kept p cur a)) as [[Hi Hs]|Hk].
  - rewrite Hi, (proj2 (Z.leb_gt _ _)) by done. cbn [negb].
    destruct (Z.ltb_spec cur (TargetEpoch (indexedAttestation a))).
    + by rewrite decide_False by lia.
    + by rewrite decide_True by lia.
  - destruct (validateAttestationIntegrity (Some a)) eqn:Hi; cbn [negb]; [|done].
    destruct (Z.leb_spec (SourceEpoch (indexedAttestation a) +64 historyLength p) cur); [done|].
    by destruct Hk.
Qed.

(** ** Properties *)

(** The double votes of a batch: the check succeeds whenever slashings can be
    hashed, reports at least one slashing exactly when two attestations of the batch
    are a double vote, and every slashing it reports is one. *)
Theorem checkBatch_double_votes (HashTreeRoot : AttSlashing → gores Z) (ws : list IndexedAttestationWrapper) :
  (∀ sl, ∃ r, HashTreeRoot sl = Ok r) →
  ∃ s, checkBatch HashTreeRoot ws = (Ok tt, s) ∧
    (slashings s ≠ ∅ ↔ ∃ w w', w ∈ ws ∧ w' ∈ ws ∧ double_vote w w') ∧
    ∀ r sl, slashings s !! r = Some sl → genuine ws sl.
Proof.
  intros Hroot. destruct (checkBatch_inv HashTreeRoot Hroot ws) as (s & Hrun & Hinv).
  exists s. split; [done|]. split; [|apply Hinv]. split.
  - intros Hne. destruct (map_choose _ Hne) as (r & sl & Hsl).
    destruct (bi_genuine _ _ _ Hinv r sl Hsl) as (w & w' & ? & ? & ? & _). by exists w, w'.
  - intros (w & w' & [i Hi]%list_elem_of_lookup & [i' Hi']%list_elem_of_lookup & Ht & Hr & v & Hv & Hv').
    destruct (bi_done _ _ _ Hinv i v w) as (j & u & Hj & Hu & Hd); [by exists w|done|].
    destruct (bi_done _ _ _ Hinv i' v w') as (j' & u' & Hj' & Hu' & Hd'); [by exists w'|done|].
    rewrite Ht, Hj' in Hj. injection Hj as ->. rewrite Hu in Hu'. injection Hu' as ->.
    destruct Hd as [Hd|Hd]; [|done]. destruct Hd' as [Hd'|Hd']; [|done]. congruence.
Qed.

(** [filterAttestations] sorts every attestation of the batch, in order, into
    exactly one of valid, deferred and dropped: kept are the well-formed ones whose
    source is inside the history; of these the valid ones have a target up to the
    current epoch and the deferred ones a later target. *)
Theorem filterAttestations_partition (p : Parameters) (ws : list (option IndexedAttestationWrapper)) (cur : Z) :
  let '(valid, validInFuture, numDropped) := filterAttestations p ws cur in
  valid = filter (λ w, kept p cur w ∧ TargetEpoch (indexedAttestation w) ≤ cur) (omap id ws) ∧
  validInFuture = filter (λ w, kept p cur w ∧ ¬ TargetEpoch (indexedAttestation w) ≤ cur) (omap id ws) ∧
  len valid + len validInFuture + numDropped = len ws.
Proof.
  induction ws as [|w ws IH]; [done|]. rewrite filter_step.
  destruct (filterAttestations p ws cur) as [[valid fut] n]. destruct IH as (-> & -> & Hn). unfold len in *.
  destruct w as [a|]; cbn [omap list_omap id length]; [|split_and!; [done|done|lia]].
  destruct (decide (kept p cur a)) as [Hk|Hk]; [destruct (decide (TargetEpoch (indexedAttestation a) ≤ cur)) as [Ht|Ht]|].
  - rewrite (filter_cons_True _ _ (omap id ws)) by done. rewrite (filter_cons_False _ _ (omap id ws)) by naive_solver.
    split_and!; [done|done|cbn [length]; lia].
  - rewrite (filter_cons_False _ _ (omap id ws)) by naive_solver. rewrite (filter_cons_True _ _ (omap id ws)) by done.
    split_and!; [done|done|cbn [length]; lia].
  - rewrite !(filter_cons_False _ _ (omap id ws)) by naive_solver. split_and!; [done|done|lia].
Qed.

(** ** The theorem at a concrete input *)
Definition ex_batch : list IndexedAttestationWrapper :=
  let a v idx r := {| indexedAttestation := {| Version := v; AttestingIndices := idx; SourceEpoch := 1; TargetEpoch := 2 |};
                     DataRoot := r |} in
  [a Phase0 [1; 2] 7; a Phase0 [3] 8; a Electra [2; 3] 7].

Lemma checkBatch_double_votes_witness :
  ∃ s, checkBatch (λ _, Ok 5) ex_batch = (Ok tt, s) ∧
    (slashings s ≠ ∅ ↔ ∃ w w', w ∈ ex_batch ∧ w' ∈ ex_batch ∧ double_vote w w') ∧
    ∀ r sl, slashings s !! r = Some sl → genuine ex_batch sl.
Proof. apply (checkBatch_double_votes (λ _, Ok 5) ex_batch). intros sl. by exists 5. Defined.
