(* ===== verification/SlasherFacts.v ===== *)
(** * What the span chunks hold

    [target_at cs v e] is the target epoch the chunks give for validator [v] at epoch
    [e].  Below epoch [historyLength] applying an attestation to the min spans takes
    the minimum with its target at every epoch before its source, and to the max
    spans the maximum at every epoch after its source; the early stop of [Update] is
    right because the targets grow with the epoch. *)
From S2P Require Import Prelude MathHelper Primitives Shuffle MVSlice Slasher.

Record params_ok (p : Parameters) : Prop := {
  chunk_pos : 0 < chunkSize p;
  val_pos : 0 < validatorChunkSize p;
  cells_fit : chunkSize p * validatorChunkSize p < 2 ^ 62;
  history_pos : 0 < historyLength p ≤ two16;
  history_whole : (chunkSize p | historyLength p)
}.

Section cells.
Context (p : Parameters) (Hp : params_ok p).
Abbreviation C := (chunkSize p).
Abbreviation K := (validatorChunkSize p).
Abbreviation H := (historyLength p).

Definition cell (v e : Z) : Z := v mod K * C + e mod C.
Definition chunk_ok (d : list Z) : Prop := len d = C * K ∧ ∀ i x, d !! i = Some x → 0 ≤ x < two16.
Definition target (d : list Z) (v e : Z) : Z := e + default 0 (d !! Z.to_nat (cell v e)).

Lemma cell_range v e : 0 ≤ v → 0 ≤ e → 0 ≤ cell v e < C * K.
Proof using Hp.
  intros Hv He. destruct Hp. unfold cell.
  pose proof (Z.mod_pos_bound v K ltac:(lia)). pose proof (Z.mod_pos_bound e C ltac:(lia)). nia.
Qed.

Lemma cellIndex_cell v e : 0 ≤ v → 0 ≤ e → cellIndex p v e = Ok (cell v e).
Proof using Hp.
  intros Hv He. pose proof (cell_range v e Hv He) as Hr. destruct Hp. unfold cell in *.
  unfold cellIndex, validatorOffset, ValidatorIndex.Mod. rewrite (proj2 (Z.eqb_neq _ _)) by lia.
  cbn [mbind gores_bind]. unfold chunkOffset, Epoch.Mod, Epoch.SafeMod. rewrite Mod64_cases.
  rewrite (proj2 (Z.eqb_neq _ _)) by lia. cbn [must mbind gores_bind].
  pose proof (Z.mod_pos_bound v K ltac:(lia)). pose proof (Z.mod_pos_bound e C ltac:(lia)).
  assert (0 ≤ v mod K * C) by nia.
  rewrite (u64_small (v mod K * C)) by (unfold is_u64; lia).
  rewrite u64_small by (unfold is_u64; lia). done.
Qed.

Lemma requiredLen_eq : requiredLen p = C * K.
Proof using Hp. destruct Hp. unfold requiredLen. rewrite u64_small; [done|]. unfold is_u64. nia. Qed.

Lemma cell_lookup d v e : chunk_ok d → 0 ≤ v → 0 ≤ e → ∃ x, d !! Z.to_nat (cell v e) = Some x ∧ 0 ≤ x < two16.
Proof using Hp.
  intros [Hl Hu] Hv He. pose proof (cell_range v e Hv He) as Hr. unfold len in Hl.
  destruct (lookup_lt_is_Some_2 d (Z.to_nat (cell v e))) as [x Hx]; [lia|]. exists x. split; [done|]. by eapply Hu.
Qed.

Lemma target_bounds d v e : chunk_ok d → 0 ≤ v → 0 ≤ e → e ≤ target d v e < e + two16.
Proof using Hp.
  intros Hd Hv He. destruct (cell_lookup d v e Hd Hv He) as (x & Hx & Hr). unfold target. rewrite Hx. simpl. lia.
Qed.

Lemma chunkDataAtEpoch_target d v e : chunk_ok d → 0 ≤ v → 0 ≤ e < 2 ^ 62 → chunkDataAtEpoch p d v e = Ok (target d v e).
Proof using Hp.
  intros Hd Hv He. destruct (cell_lookup d v e Hd Hv ltac:(lia)) as (x & Hx & Hr). pose proof (proj1 Hd) as Hl.
  unfold chunkDataAtEpoch. rewrite requiredLen_eq, Hl, Z.eqb_refl. cbn [negb].
  rewrite cellIndex_cell by lia. cbn [mbind gores_bind]. pose proof (cell_range v e Hv ltac:(lia)).
  rewrite Z.geb_leb, (proj2 (Z.leb_gt _ _)) by lia.
  unfold index_at. rewrite Hx. cbn [mbind gores_bind]. unfold target. rewrite Hx. simpl.
  unfold Epoch.Add. rewrite (@checked_add _ _ _ _ _ epoch_checked) by (unfold is_u64; lia).
  rewrite (proj2 (Z.ltb_lt _ _)) by lia. done.
Qed.

Definition set_target (d : list Z) (v e t : Z) : list Z := <[Z.to_nat (cell v e) := t - e]> d.

Lemma setChunkDataAtEpoch_target d v e t : chunk_ok d → 0 ≤ v → 0 ≤ e → e ≤ t < e + two16 → t < 2 ^ 62 →
  setChunkDataAtEpoch p d v e t = Ok (set_target d v e t).
Proof using Hp.
  intros Hd Hv He Ht Ht'. unfold setChunkDataAtEpoch, epochDistance.
  rewrite Z.gtb_ltb, (proj2 (Z.ltb_ge _ _)) by lia.
  unfold Epoch.Sub. rewrite (@checked_sub _ _ _ _ _ epoch_checked) by (unfold is_u64; lia).
  rewrite (proj2 (Z.leb_le _ _)) by lia. cbn [must mbind gores_bind]. unfold u16. rewrite Z.mod_small by lia.
  unfold setChunkRawDistance. rewrite cellIndex_cell by lia. cbn [mbind gores_bind].
  pose proof (cell_range v e Hv He) as Hr. destruct Hd as [Hl _]. rewrite <-Hl in Hr.
  rewrite Z.geb_leb, (proj2 (Z.leb_gt _ _)) by lia. unfold assign.
  by rewrite (proj2 (Z.leb_le _ _)), (proj2 (Z.ltb_lt _ _)) by lia.
Qed.

Lemma set_target_ok d v e t : chunk_ok d → e ≤ t < e + two16 → chunk_ok (set_target d v e t).
Proof.
  intros [Hl Hu] Ht. unfold set_target. split; [unfold len in *; by rewrite length_insert|].
  intros i x. rewrite list_lookup_insert_Some. intros [(_ & <- & _)|[_ Hx]]; [lia|by eapply Hu].
Qed.

Lemma set_target_same d v e t : chunk_ok d → 0 ≤ v → 0 ≤ e → target (set_target d v e t) v e = t.
Proof using Hp.
  intros Hd Hv He. unfold target, set_target. destruct (cell_lookup d v e Hd Hv He) as (x & Hx & _).
  rewrite list_lookup_insert_eq by (by eapply lookup_lt_Some). simpl. lia.
Qed.

Lemma set_target_other d v e t v' e' : 0 ≤ v → 0 ≤ e → 0 ≤ v' → 0 ≤ e' → cell v e ≠ cell v' e' →
  target (set_target d v e t) v' e' = target d v' e'.
Proof using Hp.
  intros. unfold target, set_target. pose proof (cell_range v e). pose proof (cell_range v' e').
  rewrite list_lookup_insert_ne by lia. done.
Qed.

(** Cells of one chunk are distinct, also those of different validators. *)
Lemma cell_inj v e v' e' : 0 ≤ v → 0 ≤ e → 0 ≤ v' → 0 ≤ e' → e / C = e' / C → cell v e = cell v' e' →
  v mod K = v' mod K ∧ e = e'.
Proof using Hp.
  intros Hv He Hv' He' Hc Hcell. destruct Hp. unfold cell in Hcell.
  pose proof (Z.mod_pos_bound e C ltac:(lia)). pose proof (Z.mod_pos_bound e' C ltac:(lia)).
  pose proof (Z.mod_pos_bound v K ltac:(lia)). pose proof (Z.mod_pos_bound v' K ltac:(lia)).
  assert (v mod K = v' mod K) as Heq by nia. split; [done|].
  pose proof (Z.div_mod e C ltac:(lia)). pose proof (Z.div_mod e' C ltac:(lia)). nia.
Qed.

Lemma chunkIndex_mod e : 0 ≤ e → chunkIndex p e = Ok (e mod H / C).
Proof using Hp.
  intros He. destruct Hp. unfold chunkIndex, Epoch.Mod, Epoch.Div, Epoch.SafeMod, Epoch.SafeDiv. rewrite Mod64_cases.
  rewrite (proj2 (Z.eqb_neq _ _)) by lia. cbn [must mbind gores_bind].
  rewrite Div64_cases. by rewrite (proj2 (Z.eqb_neq _ _)) by lia.
Qed.

Lemma chunkIndex_small e : 0 ≤ e < H → chunkIndex p e = Ok (e / C).
Proof using Hp. intros He. rewrite chunkIndex_mod by lia. by rewrite Z.mod_small. Qed.

Lemma chunk_of_epoch e : 0 ≤ e → e / C * C ≤ e < e / C * C + C.
Proof using Hp. intros He. destruct Hp. pose proof (Z.div_mod e C ltac:(lia)). pose proof (Z.mod_pos_bound e C ltac:(lia)). lia. Qed.

Lemma same_chunk e ci : ci * C ≤ e < ci * C + C → e / C = ci.
Proof using Hp. intros He. symmetry. apply (Z.div_unique _ _ _ (e - ci * C)); lia. Qed.

(** What [Update] does to the targets of the epochs [from..to] of one chunk. *)
Definition updated (f : Z → Z → Z) (d d' : list Z) (v ci from to t : Z) : Prop :=
  chunk_ok d' ∧
  (∀ a, from ≤ a ≤ to → target d' v a = f (target d v a) t) ∧
  (∀ v' a, 0 ≤ v' → 0 ≤ a → a / C = ci → ¬ (v' mod K = v mod K ∧ from ≤ a ≤ to) →
     target d' v' a = target d v' a).

Lemma set_target_updated f d v e t : chunk_ok d → 0 ≤ v → 0 ≤ e → e ≤ t < e + two16 →
  f (target d v e) t = t → updated f d (set_target d v e t) v (e / C) e e t.
Proof using Hp.
  intros Hd Hv He Ht Hf. split_and!.
  - by apply set_target_ok.
  - intros a Ha. assert (a = e) as -> by lia. by rewrite set_target_same, Hf.
  - intros v' a Hv' Ha Hc Hne. apply set_target_other; [done..|]. intros Heq.
    destruct (cell_inj v e v' a) as [? ->]; [done..|]. apply Hne. split; [done|lia].
Qed.

(** Two neighbouring pieces of a chunk, one after the other. *)
Lemma updated_compose f d d1 d2 v ci from1 to1 from2 to2 t : 0 ≤ v →
  0 ≤ from1 → 0 ≤ from2 → ci * C ≤ from1 → ci * C ≤ from2 → to1 < ci * C + C → to2 < ci * C + C →
  (to1 + 1 = from2 ∨ to2 + 1 = from1) →
  updated f d d1 v ci from1 to1 t → updated f d1 d2 v ci from2 to2 t →
  updated f d d2 v ci (Z.min from1 from2) (Z.max to1 to2) t.
Proof using Hp.
  intros Hv Hf1 Hf2 Hl1 Hl2 Hh1 Hh2 Hnext (H1ok & H1 & H1') (H2ok & H2 & H2'). split_and!; [done| |].
  - intros a Ha. destruct (decide (from2 ≤ a ≤ to2)) as [Hin|Hout].
    + rewrite H2 by done. rewrite H1'; [done|done|lia|apply same_chunk; lia|lia].
    + rewrite H2'; [apply H1; lia|done|lia|apply same_chunk; lia|lia].
  - intros v' a Hv' Ha Hc Hne. rewrite H2'; [apply H1'|..]; try done; intros [? ?]; apply Hne; split; [done|lia|done|lia].
Qed.

Lemma minUpdateLoop_spec fuel d v e t : chunk_ok d → 0 ≤ v → 0 ≤ e < H → e ≤ t < 2 ^ 62 →
  let lo := e / C * C in
  (∀ a b, lo ≤ a → a ≤ b ≤ e → target d v a ≤ target d v b) → e - lo + 1 < Z.of_nat fuel →
  ∃ d' keep, minUpdateLoop p fuel (e / C) 0 v e t d = (Ok keep, d') ∧
    updated Z.min d d' v (e / C) lo e t ∧
    (if keep : bool then 0 < lo ∧ ∀ a, lo ≤ a ≤ e → t < target d v a else lo = 0 ∨ target d v lo ≤ t).
Proof using Hp.
  revert d e. induction fuel as [|fuel IH]; intros d e Hd Hv He Ht lo Hmono Hf;
    pose proof (chunk_of_epoch e ltac:(lia)) as Hce; fold lo in Hce; [lia|].
  cbn [minUpdateLoop]. rewrite chunkIndex_small by done. unfold mbind, M_bind, mlift at 1.
  rewrite Z.eqb_refl, Z.geb_leb, (proj2 (Z.leb_le _ _)) by lia. cbn [andb]. unfold mget at 1.
  assert (H ≤ two16) as HH by (destruct Hp; lia).
  assert (0 ≤ lo) as Hlo0 by (destruct Hp; subst lo; pose proof (Z.div_pos e C ltac:(lia) ltac:(lia)); nia).
  rewrite chunkDataAtEpoch_target by (done || lia). cbn [mlift].
  pose proof (target_bounds d v e Hd Hv ltac:(lia)) as Hb.
  destruct (Z.ltb_spec t (target d v e)) as [Hlt|Hge].
  2: { exists d, false. split; [done|]. split; [|right; etransitivity; [apply (Hmono lo e); lia|done]].
       split_and!; [done| |done]. intros a Ha. rewrite Z.min_l; [done|]. 
       etransitivity; [apply (Hmono a e); lia|done]. }
  rewrite setChunkDataAtEpoch_target by (done || lia). cbn [mutate].
  assert (updated Z.min d (set_target d v e t) v (e / C) e e t) as Hset
    by (apply set_target_updated; [done|done|lia|lia|lia]).
  set (d1 := set_target d v e t) in *. rewrite Z.gtb_ltb.
  destruct (decide (lo < e)) as [Hin|Hend].
  - rewrite (proj2 (Z.ltb_lt _ _)) by lia.
    rewrite u64_small by (unfold is_u64; lia).
    assert ((e - 1) / C = e / C) as Hc by (apply same_chunk; lia).
    destruct Hset as (Hd1 & Hs1 & Hs2). pose proof (conj Hd1 (conj Hs1 Hs2)) as Hset.
    assert (∀ a, lo ≤ a ≤ e - 1 → target d1 v a = target d v a) as Hsame.
    { intros a Ha. apply Hs2; [done| |apply same_chunk; lia|lia]. lia. }
    destruct (IH d1 (e - 1)) as (d' & keep & Hrun & Hupd & Hk); [done|done| |lia| | |].
    + lia.
    + rewrite Hc. fold lo. intros a b Ha Hab. rewrite !Hsame by lia. apply Hmono; lia.
    + rewrite Hc. fold lo. lia.
    + rewrite Hc in Hrun, Hupd, Hk. fold lo in Hrun, Hupd, Hk. exists d', keep. split; [exact Hrun|].
      split.
      * assert (updated Z.min d d' v (e / C) (Z.min e lo) (Z.max e (e - 1)) t) as Hcomp
          by (eapply (updated_compose _ d d1); try done; lia).
        by rewrite Z.min_r, Z.max_l in Hcomp by lia.
      * destruct keep.
        -- destruct Hk as [Hlo Hk]. split; [done|]. intros a Ha. destruct (decide (a = e)) as [->|]; [done|].
           rewrite <-Hsame by lia. apply Hk. lia.
        -- rewrite Hsame in Hk by lia. done.
  - assert (e = lo) as Helo by lia. destruct (decide (0 < e)) as [Hpos|Hz].
    + rewrite (proj2 (Z.ltb_lt _ _)) by lia. rewrite u64_small by (unfold is_u64; lia).
      exists d1, true. split; [|split; [by rewrite <-Helo|split; [lia|intros a Ha; by assert (a = e) as -> by lia]]].
      assert (minUpdateLoop p fuel (e / C) 0 v (e - 1) t d1 = (Ok true, d1)); [|done].
      assert ((e - 1) / C ≠ e / C) as Hc.
      { intros Heq. pose proof (chunk_of_epoch (e - 1) ltac:(lia)). rewrite Heq in *. lia. }
      destruct fuel; cbn [minUpdateLoop]; rewrite chunkIndex_small by lia; unfold mbind, M_bind, mlift at 1;
        rewrite (proj2 (Z.eqb_neq _ _)) by done; cbn [andb]; rewrite Z.geb_leb, (proj2 (Z.leb_le _ _)) by lia; done.
    + assert (e = 0) as He0 by lia. rewrite (proj2 (Z.ltb_ge _ _)) by lia.
      exists d1, false. split; [|split; [by rewrite <-Helo|left; lia]].
      destruct fuel as [|fuel]; [lia|].
      assert (minUpdateLoop p (S fuel) (e / C) 0 v e t d1 = (Ok false, d1)); [|done].
      cbn [minUpdateLoop]. rewrite chunkIndex_small by done. unfold mbind, M_bind, mlift at 1.
      rewrite Z.eqb_refl, Z.geb_leb, (proj2 (Z.leb_le _ _)) by lia. cbn [andb]. unfold mget at 1.
      rewrite chunkDataAtEpoch_target by (apply Hset || lia). cbn [mlift].
      destruct Hset as (_ & Hs1 & _). rewrite Hs1 by lia. rewrite (proj2 (Z.ltb_ge _ _)) by lia. done.
Qed.

Lemma maxUpdateLoop_spec fuel d v e cur t : chunk_ok d → 0 ≤ v → 0 ≤ e ≤ cur → cur < H → t ≤ cur →
  let hi := e / C * C + C - 1 in
  let stop := Z.min hi cur in
  (∀ a b, e ≤ a → a ≤ b ≤ stop → target d v a ≤ target d v b) → hi - e + 1 < Z.of_nat fuel →
  ∃ d' keep, maxUpdateLoop p fuel (e / C) cur v e t d = (Ok keep, d') ∧
    updated Z.max d d' v (e / C) e stop t ∧
    (if keep : bool then hi < cur ∧ ∀ a, e ≤ a ≤ hi → target d v a < t else cur ≤ hi ∨ t ≤ target d v hi).
Proof using Hp.
  revert d e. induction fuel as [|fuel IH]; intros d e Hd Hv He Hcur Ht hi stop Hmono Hf;
    pose proof (chunk_of_epoch e ltac:(lia)) as Hce; [lia|].
  assert (H ≤ two16) as HH by (destruct Hp; lia).
  cbn [maxUpdateLoop]. rewrite chunkIndex_small by lia. unfold mbind, M_bind, mlift at 1.
  rewrite Z.eqb_refl, (proj2 (Z.leb_le _ _)) by lia. cbn [andb]. unfold mget at 1.
  rewrite chunkDataAtEpoch_target by (done || lia). cbn [mlift].
  pose proof (target_bounds d v e Hd Hv ltac:(lia)) as Hb. rewrite Z.gtb_ltb.
  destruct (Z.ltb_spec (target d v e) t) as [Hlt|Hge].
  2: { exists d, false. split; [done|]. split.
       - split_and!; [done| |done]. intros a Ha. rewrite Z.max_l; [done|].
         etransitivity; [done|apply (Hmono e a); lia].
       - destruct (decide (cur ≤ hi)); [by left|right]. etransitivity; [done|apply (Hmono e hi); lia]. }
  rewrite setChunkDataAtEpoch_target by (done || lia). cbn [mutate].
  assert (updated Z.max d (set_target d v e t) v (e / C) e e t) as Hset
    by (apply set_target_updated; [done|done|lia|lia|lia]).
  set (d1 := set_target d v e t) in *. rewrite u64_small by (unfold is_u64; lia).
  destruct (decide (e < stop)) as [Hin|Hend].
  - assert ((e + 1) / C = e / C) as Hc by (apply same_chunk; lia).
    assert (∀ a, e + 1 ≤ a ≤ stop → target d1 v a = target d v a) as Hsame.
    { intros a Ha. destruct Hset as (_ & _ & Hs2). apply Hs2; [done|lia|apply same_chunk; lia|lia]. }
    destruct (IH d1 (e + 1)) as (d' & keep & Hrun & Hupd & Hk); [apply Hset|done|lia|lia|lia| | |].
    + rewrite Hc. fold hi stop. intros a b Ha Hab. rewrite !Hsame by lia. apply Hmono; lia.
    + rewrite Hc. fold hi. lia.
    + rewrite Hc in Hrun, Hupd, Hk. fold hi in Hupd, Hk. fold stop in Hupd. exists d', keep. split; [exact Hrun|].
      split.
      * assert (updated Z.max d d' v (e / C) (Z.min e (e + 1)) (Z.max e stop) t) as Hcomp
          by (eapply (updated_compose _ d d1); try done; lia).
        by rewrite Z.min_l, Z.max_r in Hcomp by lia.
      * destruct keep.
        -- destruct Hk as [Hlo Hk]. split; [done|]. intros a Ha. destruct (decide (a = e)) as [->|]; [done|].
           rewrite <-Hsame by lia. apply Hk. lia.
        -- destruct Hk as [Hk|Hk]; [by left|]. destruct (decide (cur ≤ hi)); [by left|right].
           by rewrite Hsame in Hk by lia.
  - assert (e = stop) as Hes by lia. exists d1, (e + 1 <=? cur). split; [|split; [by rewrite <-Hes|]].
    + assert (maxUpdateLoop p fuel (e / C) cur v (e + 1) t d1 = (Ok (e + 1 <=? cur), d1)); [|done].
      assert ((((e + 1) mod H / C =? e / C) && (e + 1 <=? cur)) = false) as Hg.
      { destruct (Z.leb_spec (e + 1) cur); [|apply andb_false_r]. rewrite andb_true_r. apply Z.eqb_neq.
        rewrite Z.mod_small by lia. intros Heq. pose proof (chunk_of_epoch (e + 1) ltac:(lia)).
        rewrite Heq in *. lia. }
      destruct fuel; cbn [maxUpdateLoop]; rewrite chunkIndex_mod by lia; unfold mbind, M_bind, mlift at 1;
        rewrite Hg; done.
    + destruct (Z.leb_spec (e + 1) cur); [|left; lia]. split; [lia|]. intros a Ha. by assert (a = e) as -> by lia.
Qed.
End cells.
