(* ===== verification/SlasherSpans.v ===== *)
(** * From one chunk to the spans of a validator

    The loop of [applyAttestationForValidator] over the chunks, the history of a
    validator behind its spans, and the detection of surround votes. *)
From S2P Require Import Prelude MathHelper Primitives Shuffle MVSlice Slasher SlasherFacts.

Section store.
Context (p : Parameters) (Hp : params_ok p) (db : SlasherDatabase) (kind : ChunkKind) (vci : Z).
Abbreviation C := (chunkSize p).
Abbreviation K := (validatorChunkSize p).
Abbreviation H := (historyLength p).
Abbreviation chunks := (gmap Z (list Z)).
Implicit Types cs : chunks.

Definition chunk_at cs (ci : Z) : list Z :=
  match getChunk p db kind vci ci cs with Ok d => d | _ => [] end.
Definition target_at cs (v e : Z) : Z := target p (chunk_at cs (e / C)) v e.

(** Every chunk of the history is in memory or can be loaded. *)
Definition store_ok cs : Prop :=
  ∀ ci, 0 ≤ ci < H / C → ∃ d, getChunk p db kind vci ci cs = Ok d ∧ chunk_ok p d.

Definition changed (f : Z → Z → Z) cs cs' (v from to t : Z) : Prop :=
  store_ok cs' ∧ ∀ v' a, 0 ≤ v' → 0 ≤ a < H →
    target_at cs' v' a = if decide (v' mod K = v mod K ∧ from ≤ a ≤ to)
                         then f (target_at cs v' a) t else target_at cs v' a.

Lemma chunk_count e : 0 ≤ e < H → 0 ≤ e / C < H / C.
Proof using Hp.
  intros He. destruct Hp. split; [apply Z.div_pos; lia|]. destruct history_whole as [w Hw]. rewrite Hw.
  rewrite Z.div_mul by lia. apply Z.div_lt_upper_bound; lia.
Qed.

Lemma chunk_at_ok cs e : store_ok cs → 0 ≤ e < H →
  getChunk p db kind vci (e / C) cs = Ok (chunk_at cs (e / C)) ∧ chunk_ok p (chunk_at cs (e / C)).
Proof using Hp.
  intros Hs He. destruct (Hs (e / C) (chunk_count e He)) as (d & Hd & Hok). unfold chunk_at. by rewrite Hd.
Qed.

Lemma target_at_bounds cs v e : store_ok cs → 0 ≤ v → 0 ≤ e < H → e ≤ target_at cs v e < e + two16.
Proof using Hp. intros Hs Hv He. apply target_bounds; [done|by apply chunk_at_ok|done|lia]. Qed.

Lemma target_at_mod cs v v' e : v mod K = v' mod K → target_at cs v e = target_at cs v' e.
Proof. intros Hv. unfold target_at, target, cell. by rewrite Hv. Qed.

Lemma chunk_at_insert cs ci d ci' : chunk_at (<[ci := d]> cs) ci' = if decide (ci' = ci) then d else chunk_at cs ci'.
Proof.
  unfold chunk_at, getChunk. case_decide as Hc; [subst; by rewrite lookup_insert_eq|by rewrite lookup_insert_ne].
Qed.

Lemma insert_changed f cs d' v e from to t : store_ok cs → 0 ≤ e < H →
  e / C * C ≤ from → to < e / C * C + C →
  updated p f (chunk_at cs (e / C)) d' v (e / C) from to t → changed f cs (<[e / C := d']> cs) v from to t.
Proof using Hp.
  intros Hs He Hfrom Hto (Hok & Hin & Hout). split.
  - intros ci Hci. unfold getChunk. destruct (decide (ci = e / C)) as [->|Hne].
    + rewrite lookup_insert_eq. eauto.
    + rewrite lookup_insert_ne by done. by apply Hs.
  - intros v' a Hv' Ha. unfold target_at. rewrite chunk_at_insert.
    destruct (decide (a / C = e / C)) as [Hc|Hc].
    + rewrite Hc. case_decide as Hr.
      * destruct Hr as [Hv Hr]. assert (∀ d, target p d v' a = target p d v a) as Hmod
          by (intros d; unfold target, cell; by rewrite Hv).
        rewrite !Hmod. by apply Hin.
      * apply Hout; [done|lia|done|done].
    + rewrite decide_False; [done|]. intros [_ Hr]. apply Hc. apply same_chunk; [done|]. lia.
Qed.

Lemma changed_compose f cs cs1 cs2 v from1 to1 from2 to2 t :
  (to1 + 1 = from2 ∨ to2 + 1 = from1) → from1 ≤ to1 + 1 → from2 ≤ to2 + 1 →
  changed f cs cs1 v from1 to1 t → changed f cs1 cs2 v from2 to2 t →
  changed f cs cs2 v (Z.min from1 from2) (Z.max to1 to2) t.
Proof.
  intros Hnext Hn1 Hn2 [H1ok H1] [H2ok H2]. split; [done|]. intros v' a Hv' Ha. rewrite H2, H1 by done.
  repeat case_decide; done || (exfalso; intuition lia).
Qed.

(** Cells at which [f] has nothing to do may join the range. *)
Lemma changed_widen f cs cs' v from to from' to' t : from' ≤ from → to ≤ to' → 0 ≤ v →
  (∀ a, 0 ≤ a < H → from' ≤ a ≤ to' → ¬ from ≤ a ≤ to → f (target_at cs v a) t = target_at cs v a) →
  changed f cs cs' v from to t → changed f cs cs' v from' to' t.
Proof.
  intros Hf Ht Hv Hid [Hok Hch]. split; [done|]. intros v' a Hv' Ha. rewrite Hch by done.
  destruct (decide (v' mod K = v mod K)) as [Heq|Hne]; [|by rewrite !decide_False by naive_solver].
  rewrite (target_at_mod cs v' v a Heq).
  destruct (decide (from ≤ a ≤ to)) as [Hr|Hr]; [by rewrite !decide_True by (split; [done|lia])|].
  rewrite (decide_False (P := _ ∧ from ≤ _ ≤ _)) by naive_solver. case_decide as Hd; [|done].
  symmetry. apply Hid; [done|apply Hd|done].
Qed.

Lemma changed_nothing f cs v from to t : to < from → store_ok cs → changed f cs cs v from to t.
Proof. intros Hlt Hs. split; [done|]. intros v' a Hv' Ha. by rewrite decide_False by lia. Qed.

Definition grows cs (v from to : Z) : Prop :=
  ∀ a b, from ≤ a → a ≤ b ≤ to → target_at cs v a ≤ target_at cs v b.

Lemma update_run cs ci cur v e t keep d' : getChunk p db kind vci ci cs = Ok (chunk_at cs ci) →
  Update p kind ci cur v e t (chunk_at cs ci) = (Ok keep, d') →
  updateChunk p db kind vci ci cur v e t cs = (Ok keep, <[ci := d']> cs).
Proof. intros Hg Hu. unfold updateChunk. by rewrite Hg, Hu. Qed.
End store.

(** ** The loops over the chunks *)
Section loops.
Context (p : Parameters) (Hp : params_ok p) (db : SlasherDatabase) (vci : Z).
Abbreviation C := (chunkSize p).
Abbreviation K := (validatorChunkSize p).
Abbreviation H := (historyLength p).
Implicit Types cs : gmap Z (list Z).

Lemma update_fuel_enough e : 0 ≤ e → e - e / C * C + 1 < Z.of_nat (update_fuel p) ∧
  e / C * C + C - 1 - e + 1 < Z.of_nat (update_fuel p).
Proof using Hp. intros He. pose proof (chunk_of_epoch p Hp e He). unfold update_fuel. destruct Hp. lia. Qed.

Lemma minEpoch_0 cur : 0 ≤ cur < H → minEpochOf p cur = 0.
Proof using Hp.
  intros Hc. destruct Hp. unfold minEpochOf. rewrite u64_small by (unfold is_u64; lia).
  by rewrite Z.gtb_ltb, (proj2 (Z.ltb_ge _ _)) by lia.
Qed.

Lemma small_bounds : C ≤ H ≤ two16.
Proof using Hp. destruct Hp. split; [apply Z.divide_pos_le; [lia|done]|lia]. Qed.

Lemma next_min e : 0 ≤ e < H → 0 < e / C → NextChunkStartEpoch p MinSpan e = Ok (e / C * C - 1).
Proof using Hp.
  intros He Hc. pose proof (chunk_of_epoch p Hp e ltac:(lia)) as Hce. pose proof small_bounds as Hsb. destruct Hp.
  unfold NextChunkStartEpoch. rewrite chunkIndex_small by done. cbn [mbind gores_bind].
  rewrite Z.gtb_ltb, (proj2 (Z.ltb_lt _ _)) by lia. assert (e / C ≤ e) by nia.
  rewrite u64_small by (unfold is_u64; lia).
  unfold lastEpoch, firstEpoch, Epoch.Add. assert (0 ≤ (e / C - 1) * C) by nia.
  rewrite (u64_small ((e / C - 1) * C)) by (unfold is_u64; nia).
  rewrite u64_small by (unfold is_u64; lia).
  rewrite (@checked_add _ _ _ _ _ epoch_checked) by (unfold is_u64; nia).
  rewrite (proj2 (Z.ltb_lt _ _)) by nia. cbn [must]. f_equal. lia.
Qed.

Lemma next_max e : 0 ≤ e < H → NextChunkStartEpoch p MaxSpan e = Ok (e / C * C + C).
Proof using Hp.
  intros He. pose proof (chunk_of_epoch p Hp e ltac:(lia)) as Hce. pose proof small_bounds as Hsb.
  pose proof (Z.div_pos e C ltac:(lia) ltac:(destruct Hp; lia)). destruct Hp.
  unfold NextChunkStartEpoch. rewrite chunkIndex_small by done. cbn [mbind gores_bind]. assert (e / C ≤ e) by nia.
  unfold firstEpoch. rewrite (u64_small (e / C + 1)) by (unfold is_u64; lia).
  rewrite u64_small by (unfold is_u64; nia). f_equal. lia.
Qed.

Lemma applyLoop_min fuel cs v cur t e : store_ok p db MinSpan vci cs → 0 ≤ v → 0 ≤ cur < H →
  0 ≤ e < H → e ≤ t < 2 ^ 62 → grows p db MinSpan vci cs v 0 e → e / C < Z.of_nat fuel →
  ∃ cs', applyLoop p db fuel MinSpan vci v cur t e cs = (Ok tt, cs') ∧
    changed p db MinSpan vci Z.min cs cs' v 0 e t.
Proof using Hp.
  revert cs e. induction fuel as [|fuel IH]; intros cs e Hs Hv Hcur He Ht Hg Hf.
  { pose proof (Z.div_pos e C ltac:(lia) ltac:(destruct Hp; lia)). lia. }
  pose proof (chunk_of_epoch p Hp e ltac:(lia)) as Hce.
  assert (0 ≤ e / C * C) as Hlo by (pose proof (Z.div_pos e C ltac:(lia) ltac:(destruct Hp; lia)); destruct Hp; nia).
  destruct (chunk_at_ok p Hp db MinSpan vci cs e Hs He) as [Hget Hok].
  assert (∀ a, e / C * C ≤ a ≤ e → target_at p db MinSpan vci cs v a = target p (chunk_at p db MinSpan vci cs (e / C)) v a) as Htgt.
  { intros a Ha. unfold target_at. by rewrite (same_chunk p Hp a (e / C)) by lia. }
  destruct (minUpdateLoop_spec p Hp (update_fuel p) _ v e t Hok Hv He Ht) as (d' & keep & Hrun & Hupd & Hk).
  { intros a b Ha Hab. rewrite <-!Htgt by lia. apply Hg; lia. }
  { apply update_fuel_enough. lia. }
  cbn [applyLoop]. rewrite chunkIndex_small by done. unfold mbind, M_bind, mlift at 1.
  rewrite (update_run _ _ _ _ cs (e / C) cur v e t keep d' Hget) by (unfold Update; by rewrite minEpoch_0).
  apply (insert_changed p Hp db MinSpan vci Z.min cs d' v e) in Hupd; [|done|done|lia|lia].
  set (cs1 := <[e / C := d']> cs) in *. destruct keep.
  - destruct Hk as [Hlo' Hk]. assert (0 < e / C) by (destruct Hp; nia).
    rewrite next_min by done. cbn [mlift].
    assert ((e / C * C - 1) / C = e / C - 1) as Hprev by (apply same_chunk; [done|lia]).
    destruct Hupd as [Hs1 Hch]. destruct (IH cs1 (e / C * C - 1)) as (cs' & Hloop & Hch'); [done|done|done|lia|lia| |lia|].
    { intros a b Ha Hab. rewrite !Hch by lia. rewrite !decide_False by lia. apply Hg; lia. }
    exists cs'. split; [done|].
    assert (changed p db MinSpan vci Z.min cs cs' v (Z.min (e / C * C) 0) (Z.max e (e / C * C - 1)) t) as Hcomp
      by (eapply changed_compose; [..|exact Hch']; [lia|lia|lia|by split]).
    by rewrite Z.min_r, Z.max_l in Hcomp by lia.
  - exists cs1. split; [done|]. destruct Hk as [H0|Hstop]; [by rewrite H0 in Hupd|].
    eapply changed_widen; [| |done| |exact Hupd]; [lia|done|]. intros a Ha Hr Hn.
    apply Z.min_l. rewrite <-Htgt in Hstop by lia. etransitivity; [|exact Hstop]. apply Hg; lia.
Qed.

Lemma applyLoop_max fuel cs v cur t e : store_ok p db MaxSpan vci cs → 0 ≤ v → cur < H →
  0 ≤ e ≤ cur → t ≤ cur → grows p db MaxSpan vci cs v e cur → H / C - e / C ≤ Z.of_nat fuel →
  ∃ cs', applyLoop p db fuel MaxSpan vci v cur t e cs = (Ok tt, cs') ∧
    changed p db MaxSpan vci Z.max cs cs' v e cur t.
Proof using Hp.
  revert cs e. induction fuel as [|fuel IH]; intros cs e Hs Hv Hcur He Ht Hg Hf.
  { pose proof (chunk_count p Hp e ltac:(lia)). lia. }
  pose proof (chunk_of_epoch p Hp e ltac:(lia)) as Hce.
  destruct (chunk_at_ok p Hp db MaxSpan vci cs e Hs ltac:(lia)) as [Hget Hok].
  assert (∀ a, e ≤ a ≤ e / C * C + C - 1 → target_at p db MaxSpan vci cs v a = target p (chunk_at p db MaxSpan vci cs (e / C)) v a) as Htgt.
  { intros a Ha. unfold target_at. by rewrite (same_chunk p Hp a (e / C)) by lia. }
  destruct (maxUpdateLoop_spec p Hp (update_fuel p) _ v e cur t Hok Hv ltac:(lia) Hcur Ht) as (d' & keep & Hrun & Hupd & Hk).
  { intros a b Ha Hab. rewrite <-!Htgt by lia. apply Hg; lia. }
  { apply update_fuel_enough. lia. }
  cbn [applyLoop]. rewrite chunkIndex_small by (done || lia). unfold mbind, M_bind, mlift at 1.
  rewrite (update_run _ _ _ _ cs (e / C) cur v e t keep d' Hget) by exact Hrun.
  apply (insert_changed p Hp db MaxSpan vci Z.max cs d' v e) in Hupd; [|done|lia|lia|lia].
  set (cs1 := <[e / C := d']> cs) in *. destruct keep.
  - destruct Hk as [Hhi Hk]. rewrite next_max by lia. cbn [mlift].
    assert ((e / C * C + C) / C = e / C + 1) as Hnext by (apply same_chunk; [done|destruct Hp; lia]).
    rewrite Z.min_l in Hupd by lia. destruct Hupd as [Hs1 Hch].
    destruct (IH cs1 (e / C * C + C)) as (cs' & Hloop & Hch'); [done|done|done|lia|lia| |lia|].
    { intros a b Ha Hab. rewrite !Hch by lia. rewrite !decide_False by lia. apply Hg; lia. }
    exists cs'. split; [done|].
    assert (changed p db MaxSpan vci Z.max cs cs' v (Z.min e (e / C * C + C)) (Z.max (e / C * C + C - 1) cur) t) as Hcomp
      by (eapply changed_compose; [..|exact Hch']; [lia|lia|lia|by split]).
    by rewrite Z.min_l, Z.max_r in Hcomp by lia.
  - exists cs1. split; [done|]. destruct (decide (cur ≤ e / C * C + C - 1)) as [Hc|Hc].
    { by rewrite Z.min_r in Hupd by lia. }
    destruct Hk as [?|Hstop]; [lia|]. rewrite Z.min_l in Hupd by lia.
    eapply changed_widen; [| |done| |exact Hupd]; [lia|lia|]. intros a Ha Hr Hn.
    apply Z.max_l. rewrite <-Htgt in Hstop by lia. etransitivity; [exact Hstop|]. apply Hg; lia.
Qed.
End loops.
