(* ===== verification/SlasherTheorems.v ===== *)
(** * Surround votes are detected

    [span kind h e] is what the spans of a validator with the votes [h] should hold
    at epoch [e]; [reached] are the chunk maps that applying attestations leads to. *)
From S2P Require Import Prelude MathHelper Primitives Shuffle MVSlice Slasher SlasherFacts SlasherSpans.

(** A vote is a pair of source and target epoch. *)
Abbreviation vote := (Z * Z)%type.
Definition vote_of (w : IndexedAttestationWrapper) : vote :=
  (SourceEpoch (indexedAttestation w), TargetEpoch (indexedAttestation w)).

(** The incoming vote [a] surrounds (for min spans) or is surrounded by (for max
    spans) the existing vote [b]. *)
Definition offends (kind : ChunkKind) (a b : vote) : Prop :=
  match kind with MinSpan => a.1 < b.1 ∧ b.2 < a.2 | MaxSpan => b.1 < a.1 ∧ a.2 < b.2 end.

Definition span (kind : ChunkKind) (h : list vote) (e : Z) : Z :=
  match kind with
  | MinSpan => foldr (λ a m, if e <? a.1 then Z.min m a.2 else m) (e + 65535) h
  | MaxSpan => foldr (λ a m, if a.1 <? e then Z.max m a.2 else m) e h
  end.

(** The epochs at which the span of a vote counts. *)
Definition covers (kind : ChunkKind) (a : vote) (e : Z) : bool :=
  match kind with MinSpan => e <? a.1 | MaxSpan => a.1 <? e end.

Lemma span_grows kind h a b : a ≤ b → span kind h a ≤ span kind h b.
Proof.
  intros Hab. destruct kind; simpl; induction h as [|x h IH]; simpl; try lia.
  - destruct (Z.ltb_spec a x.1), (Z.ltb_spec b x.1); lia.
  - destruct (Z.ltb_spec x.1 a), (Z.ltb_spec x.1 b); lia.
Qed.

Lemma span_bound kind h e : match kind with MinSpan => span kind h e ≤ e + 65535 | MaxSpan => e ≤ span kind h e end.
Proof.
  destruct kind; simpl; induction h as [|x h IH]; simpl; try lia.
  - destruct (Z.ltb_spec e x.1); lia.
  - destruct (Z.ltb_spec x.1 e); lia.
Qed.

(** The span is beaten by a target exactly when some vote is on the wrong side. *)
Lemma span_offends kind h a : a ∈ h →
  ∀ s, match kind with MinSpan => s < a.1 → span kind h s ≤ a.2 | MaxSpan => a.1 < s → a.2 ≤ span kind h s end.
Proof.
  intros Ha s. destruct kind; simpl; induction h as [|x h IH]; try (by apply not_elem_of_nil in Ha);
    apply elem_of_cons in Ha as [->|Ha]; simpl; intros Hs.
  - rewrite (proj2 (Z.ltb_lt _ _)) by done. lia.
  - specialize (IH Ha Hs). destruct (Z.ltb_spec s x.1); lia.
  - rewrite (proj2 (Z.ltb_lt _ _)) by done. lia.
  - specialize (IH Ha Hs). destruct (Z.ltb_spec x.1 s); lia.
Qed.

Lemma span_attained kind h s : 
  (span kind h s = match kind with MinSpan => s + 65535 | MaxSpan => s end) ∨
  ∃ a, a ∈ h ∧ a.2 = span kind h s ∧ match kind with MinSpan => s < a.1 | MaxSpan => a.1 < s end.
Proof.
  destruct kind; simpl; induction h as [|x h IH]; simpl; try (by left).
  - destruct (Z.ltb_spec s x.1) as [Hx|Hx].
    + destruct (Z.min_spec (foldr (λ a m, if s <? a.1 then m `min` a.2 else m) (s + 65535) h) x.2) as [[? ->]|[? ->]].
      * destruct IH as [IH|(a & Ha & IH)]; [by left|right]. exists a. split; [by apply list_elem_of_further|done].
      * right. exists x. split; [by apply list_elem_of_here|done].
    + destruct IH as [IH|(a & Ha & IH)]; [by left|right]. exists a. split; [by apply list_elem_of_further|done].
  - destruct (Z.ltb_spec x.1 s) as [Hx|Hx].
    + destruct (Z.max_spec (foldr (λ a m, if a.1 <? s then m `max` a.2 else m) s h) x.2) as [[? ->]|[? ->]].
      * right. exists x. split; [by apply list_elem_of_here|done].
      * destruct IH as [IH|(a & Ha & IH)]; [by left|right]. exists a. split; [by apply list_elem_of_further|done].
    + destruct IH as [IH|(a & Ha & IH)]; [by left|right]. exists a. split; [by apply list_elem_of_further|done].
Qed.

Lemma buildSlashing_total existing incoming : ∃ sl, buildSlashing existing incoming = Ok sl.
Proof.
  unfold buildSlashing, unifyAttWrapperVersion.
  destruct existing as [[[] i1 s1 t1] r1], incoming as [[[] i2 s2 t2] r2]; simpl;
    destruct (r1 >? r2); eauto.
Qed.

Section detection.
Context (p : Parameters) (Hp : params_ok p) (db : SlasherDatabase) (kind : ChunkKind) (vci : Z).
Abbreviation K := (validatorChunkSize p).
Abbreviation H := (historyLength p).
Implicit Types cs : gmap Z (list Z).

Definition spans_hold cs (v : Z) (h : list vote) : Prop :=
  store_ok p db kind vci cs ∧ ∀ e, 0 ≤ e < H → target_at p db kind vci cs v e = span kind h e.

(** The database holds the recorded attestation of every vote. *)
Definition recorded (v : Z) (h : list vote) : Prop :=
  ∀ a, a ∈ h → ∃ w, AttestationRecordForValidator db v a.2 = Ok (Some w) ∧ vote_of w = a.

(** What [filterAttestations] lets through, while the first [historyLength] epochs
    last. *)
Definition admissible (a : vote) (cur : Z) : Prop := 0 ≤ a.1 ≤ a.2 ∧ a.2 ≤ cur < H.

Lemma spans_hold_grow cs v h from to : spans_hold cs v h → 0 ≤ from → to < H → grows p db kind vci cs v from to.
Proof.
  intros [_ Hsp] Hf Ht a b Ha Hab. rewrite !Hsp by lia. apply span_grows. lia.
Qed.

Lemma CheckSlashable_spec cs v h w cur : spans_hold cs v h → recorded v h → 0 ≤ v → admissible (vote_of w) cur →
  ∃ r, CheckSlashable p db kind (chunk_at p db kind vci cs (SourceEpoch (indexedAttestation w) / chunkSize p)) v w = Ok r ∧
  match r with
  | Some sl => ∃ existing, vote_of existing ∈ h ∧ offends kind (vote_of w) (vote_of existing) ∧ 
      buildSlashing existing w = Ok sl
  | None => ∀ a, a ∈ h → ¬ offends kind (vote_of w) a
  end.
Proof using Hp.
  intros [Hs Hsp] Hrec Hv [Ha Hcur]. unfold vote_of in *. simpl in *.
  set (s := SourceEpoch (indexedAttestation w)) in *. set (t := TargetEpoch (indexedAttestation w)) in *.
  assert (H ≤ two16) as HH by (destruct Hp; lia).
  unfold CheckSlashable. fold s t.
  pose proof (proj2 (chunk_at_ok p Hp db kind vci cs s Hs ltac:(lia))) as Hchunk.
  rewrite (chunkDataAtEpoch_target p Hp _ v s Hchunk Hv ltac:(lia)).
  fold (target_at p db kind vci cs v s). rewrite Hsp by lia. cbn [mbind gores_bind].
  pose proof (span_offends kind h) as Hoff. pose proof (span_attained kind h s) as Hatt.
  destruct kind; simpl in *.
  - destruct (Z.leb_spec t (foldr (λ a m, if s <? a.1 then m `min` a.2 else m) (s + 65535) h)) as [Hle|Hgt].
    { exists None. split; [done|]. intros a Hin [H1 H2]. specialize (Hoff a Hin s H1). lia. }
    destruct Hatt as [Heq|([s' t'] & Hin & Heq & Hs')]; [lia|]. simpl in *. rewrite <-Heq in *.
    destruct (Hrec _ Hin) as (ex & Hex & Hvote). simpl in Hex. rewrite Hex. cbn [mbind gores_bind].
    assert (SourceEpoch (indexedAttestation ex) = s') as Hsrc by (by injection Hvote). rewrite Hsrc.
    rewrite (proj2 (Z.leb_gt _ _)) by lia. destruct (buildSlashing_total ex w) as [sl Hsl]. rewrite Hsl.
    exists (Some sl). split; [done|]. exists ex. injection Hvote as -> ->. done.
  - rewrite Z.geb_leb.
    destruct (Z.leb_spec (foldr (λ a m, if a.1 <? s then m `max` a.2 else m) s h) t) as [Hle|Hgt].
    { exists None. split; [done|]. intros a Hin [H1 H2]. specialize (Hoff a Hin s H1). lia. }
    destruct Hatt as [Heq|([s' t'] & Hin & Heq & Hs')]; [lia|]. simpl in *. rewrite <-Heq in *.
    destruct (Hrec _ Hin) as (ex & Hex & Hvote). simpl in Hex. rewrite Hex. cbn [mbind gores_bind].
    assert (SourceEpoch (indexedAttestation ex) = s') as Hsrc by (by injection Hvote). rewrite Hsrc.
    rewrite Z.geb_leb, (proj2 (Z.leb_gt _ _)) by lia. destruct (buildSlashing_total ex w) as [sl Hsl]. rewrite Hsl.
    exists (Some sl). split; [done|]. exists ex. injection Hvote as -> ->. done.
Qed.

(** The targets of validator [v] take in the vote [a], those of others stay. *)
Definition records cs cs' (v : Z) (a : vote) : Prop :=
  store_ok p db kind vci cs' ∧ ∀ v' e, 0 ≤ v' → 0 ≤ e < H →
    target_at p db kind vci cs' v' e =
      if bool_decide (v' mod K = v mod K) && covers kind a e
      then match kind with MinSpan => Z.min | MaxSpan => Z.max end (target_at p db kind vci cs v' e) a.2
      else target_at p db kind vci cs v' e.

Lemma apply_fuel_enough : H / chunkSize p < Z.of_nat (apply_fuel p).
Proof using Hp.
  unfold apply_fuel. destruct Hp. pose proof (Z.div_pos H (chunkSize p) ltac:(lia) ltac:(lia)). lia.
Qed.

Lemma apply_records cs v h w cur : spans_hold cs v h → recorded v h → 0 ≤ v → admissible (vote_of w) cur →
  ∃ r cs', applyAttestationForValidator p db kind w vci v cur cs = (Ok r, cs') ∧
  match r with
  | Some sl => cs' = cs ∧ ∃ existing, vote_of existing ∈ h ∧ offends kind (vote_of w) (vote_of existing) ∧ 
      buildSlashing existing w = Ok sl
  | None => (∀ a, a ∈ h → ¬ offends kind (vote_of w) a) ∧ records cs cs' v (vote_of w)
  end.
Proof using Hp.
  intros Hsp Hrec Hv Hadm. destruct (CheckSlashable_spec cs v h w cur Hsp Hrec Hv Hadm) as (r & Hr & Hrspec).
  pose proof Hadm as [Ha Hcur]. pose proof Hsp as [Hs Htgt]. unfold vote_of in Ha, Hcur. simpl in Ha, Hcur.
  unfold applyAttestationForValidator.
  set (s := SourceEpoch (indexedAttestation w)) in *. set (t := TargetEpoch (indexedAttestation w)) in *.
  assert (H ≤ two16) as HH by (destruct Hp; lia). pose proof apply_fuel_enough as Hfuel.
  destruct (chunk_at_ok p Hp db kind vci cs s Hs ltac:(lia)) as [Hget _].
  rewrite chunkIndex_small by (done || lia). unfold mbind, M_bind, mlift at 1, mget at 1.
  rewrite Hget. cbn [mlift]. rewrite Hr. cbn [mlift].
  destruct r as [sl|]; [by exists (Some sl), cs|]. exists None. unfold mret, M_ret.
  pose proof (chunk_count p Hp s ltac:(lia)) as Hcc.
  pose proof (λ from to, spans_hold_grow cs v h from to Hsp) as Hgr. unfold records, StartEpoch.
  destruct kind; simpl.
  - destruct (Z.eqb_spec s 0) as [Hs0|Hs0].
    + exists cs. split; [done|]. split; [done|]. split; [done|]. intros v' e Hv' He. simpl. fold s t.
      by rewrite (proj2 (Z.ltb_ge _ _)), andb_false_r by lia.
    + rewrite Z.gtb_ltb, (proj2 (Z.ltb_ge _ _)) by lia. rewrite (proj2 (Z.leb_gt _ _)) by lia.
      unfold Epoch.Sub. rewrite (@checked_sub _ _ _ _ _ epoch_checked) by (unfold is_u64; lia).
      rewrite (proj2 (Z.leb_le _ _)) by lia. cbn [must mbind gores_bind].
      destruct (applyLoop_min p Hp db vci (apply_fuel p) cs v cur t (s - 1)) as (cs' & Hloop & Hs' & Hch);
        [done|done|lia|lia|lia| | |].
      * apply Hgr; lia.
      * pose proof (chunk_count p Hp (s - 1) ltac:(lia)). lia.
      * exists cs'. split; [by rewrite Hloop|]. split; [done|]. split; [done|]. intros v' e Hv' He. simpl. fold s t.
        rewrite Hch by done. destruct (Z.ltb_spec e s); case_bool_decide; case_decide; cbn [andb]; done || (exfalso; intuition lia).
  - rewrite Z.geb_leb. destruct (Z.leb_spec cur s) as [Hle|Hgt].
    + exists cs. split; [done|]. split; [done|]. split; [done|]. intros v' e Hv' He. simpl. fold s t.
      destruct (Z.ltb_spec s e) as [Hd|Hd]; [|by rewrite andb_false_r]. case_bool_decide; [|done].
      pose proof (target_at_bounds p Hp db MaxSpan vci cs v' e Hs Hv' He). cbn [andb]. lia.
    + unfold Epoch.Add. rewrite (@checked_add _ _ _ _ _ epoch_checked) by (unfold is_u64; lia).
      rewrite (proj2 (Z.ltb_lt _ _)) by lia. cbn [must mbind gores_bind].
      destruct (applyLoop_max p Hp db vci (apply_fuel p) cs v cur t (s + 1)) as (cs' & Hloop & Hs' & Hch);
        [done|done|lia|lia|lia| | |].
      * apply Hgr; lia.
      * pose proof (chunk_count p Hp (s + 1) ltac:(lia)). lia.
      * exists cs'. split; [by rewrite Hloop|]. split; [done|]. split; [done|]. intros v' e Hv' He. simpl. fold s t.
        rewrite Hch by done. pose proof (target_at_bounds p Hp db MaxSpan vci cs v' e Hs Hv' He).
        destruct (Z.ltb_spec s e); case_bool_decide; case_decide;
          cbn [andb]; done || (exfalso; intuition lia) || (rewrite Z.max_l; lia).
Qed.

(** A database without chunks. *)
Definition no_chunks : Prop := ∀ keys,
  LoadSlasherChunks db kind keys = Ok (replicate (length keys) [], replicate (length keys) false).

Lemma Empty_ok : chunk_ok p (EmptyChunksSlice p kind).
Proof using Hp.
  unfold EmptyChunksSlice. rewrite requiredLen_eq by done. split.
  - unfold len. rewrite length_replicate. destruct Hp. nia.
  - intros i x Hx%list_elem_of_lookup_2%elem_of_replicate_inv. subst. destruct kind; simpl; lia.
Qed.

Lemma getChunk_empty ci : no_chunks → 0 ≤ vci → vci * (H / chunkSize p) < 2 ^ 62 → 0 ≤ ci < H / chunkSize p →
  getChunk p db kind vci ci ∅ = Ok (EmptyChunksSlice p kind).
Proof using Hp.
  intros Hdb Hvci Hfit Hci. unfold getChunk. rewrite lookup_empty.
  unfold getChunkFromDatabase, loadChunksFromDisk. simpl. unfold flatSliceID.
  assert (H / chunkSize p ≤ H) as Hw by (destruct Hp; apply Z.div_le_upper_bound; nia).
  assert (H ≤ two16) as HH by (destruct Hp; lia).
  unfold Epoch.Div. rewrite (@checked_div _ _ _ _ _ epoch_checked), (proj2 (Z.eqb_neq _ _)) by (destruct Hp; lia).
  cbn [must mbind gores_bind]. unfold Epoch.Mul.
  assert (vci < 2 ^ 62) as Hv1 by nia. assert (0 ≤ vci * (H / chunkSize p)) as Hv2 by nia.
  rewrite (@checked_mul _ _ _ _ _ epoch_checked), (proj2 (Z.ltb_lt _ _)) by (unfold is_u64; lia).
  cbn [must mbind gores_bind]. unfold Epoch.Add.
  rewrite (@checked_add _ _ _ _ _ epoch_checked), (proj2 (Z.ltb_lt _ _)) by (unfold is_u64; lia).
  cbn [must mbind gores_bind]. rewrite Hdb. simpl. by rewrite lookup_insert_eq.
Qed.

Definition add_vote (hs : Z → list vote) (v : Z) (a : vote) : Z → list vote :=
  λ v', if decide (v' = v) then a :: hs v' else hs v'.

(** The chunk maps that attestations of the validators of the chunk lead to, with
    the votes taken in; a slashable vote is reported and not taken in. *)
Inductive reached : (Z → list vote) → gmap Z (list Z) → Prop :=
  | reached_init : no_chunks → 0 ≤ vci → vci * (H / chunkSize p) < 2 ^ 62 → reached (λ _, []) ∅
  | reached_apply hs cs v w cur r cs' :
      reached hs cs → 0 ≤ v → v / K = vci → admissible (vote_of w) cur → recorded v (hs v) →
      applyAttestationForValidator p db kind w vci v cur cs = (Ok r, cs') →
      reached (match r with None => add_vote hs v (vote_of w) | Some _ => hs end) cs'.

Lemma same_validator v v' : v / K = v' / K → v mod K = v' mod K → v = v'.
Proof using Hp.
  intros Hd Hm. destruct Hp. rewrite (Z.div_mod v K), (Z.div_mod v' K) by lia. congruence.
Qed.

Lemma records_spans cs cs' v v' h a : spans_hold cs v' h → records cs cs' v a → 0 ≤ v' → v / K = v' / K →
  spans_hold cs' v' (if decide (v' = v) then a :: h else h).
Proof using Hp.
  intros [Hs Hsp] [Hs' Hr] Hv' Hsame. split; [done|]. intros e He. rewrite Hr, Hsp by done.
  destruct (decide (v' = v)) as [->|Hne].
  - rewrite bool_decide_eq_true_2 by done. cbn [andb]. destruct kind; simpl; done.
  - rewrite bool_decide_eq_false_2; [done|]. intros Hmod. by apply Hne, same_validator.
Qed.

Lemma reached_spans hs cs : reached hs cs → ∀ v, 0 ≤ v → v / K = vci → spans_hold cs v (hs v).
Proof using Hp.
  induction 1 as [Hdb Hvci Hfit|hs cs v w cur r cs' Hreach IH Hv Hvk Hadm Hrec Hrun].
  - intros v Hv Hk. pose proof Empty_ok as Hok. split.
    + intros ci Hci. exists (EmptyChunksSlice p kind). split; [by apply getChunk_empty|done].
    + intros e He. unfold target_at, chunk_at. rewrite getChunk_empty by (done || by apply chunk_count).
      destruct (cell_lookup p Hp (EmptyChunksSlice p kind) v e Hok Hv ltac:(lia)) as (x & Hx & _).
      unfold target. rewrite Hx. apply list_elem_of_lookup_2, elem_of_replicate_inv in Hx. subst.
      destruct kind; simpl; lia.
  - intros v' Hv' Hk. destruct (apply_records cs v (hs v) w cur (IH v Hv Hvk) Hrec Hv Hadm) as (r' & cs1 & Hrun' & Hr).
    rewrite Hrun in Hrun'. simplify_eq. destruct r' as [sl|].
    + destruct Hr as [-> _]. by apply IH.
    + destruct Hr as [_ Hr]. pose proof (records_spans cs cs1 v v' (hs v') _ (IH v' Hv' Hk) Hr Hv' ltac:(congruence)) as Hsp.
      exact Hsp.
Qed.
End detection.

(** ** Properties *)

(** C20: during the first [historyLength] epochs surround votes are detected exactly.
    Starting from a database without chunks, after any sequence of attestations of
    the validators of a chunk, an admissible vote of a validator is reported if and
    only if it surrounds (min spans), respectively is surrounded by (max spans), a
    vote taken in before; the report pairs it with such a vote; and applying it
    never fails. *)
Theorem surround_votes_detected (p : Parameters) (db : SlasherDatabase) (kind : ChunkKind) (vci : Z)
    (hs : Z → list vote) (cs : gmap Z (list Z)) (v cur : Z) (w : IndexedAttestationWrapper) :
  params_ok p → reached p db kind vci hs cs → 0 ≤ v → v / validatorChunkSize p = vci →
  admissible p (vote_of w) cur → recorded db v (hs v) →
  ∃ r cs', applyAttestationForValidator p db kind w vci v cur cs = (Ok r, cs') ∧
    (is_Some r ↔ ∃ a, a ∈ hs v ∧ offends kind (vote_of w) a) ∧
    (∀ sl, r = Some sl → ∃ existing, vote_of existing ∈ hs v ∧
       offends kind (vote_of w) (vote_of existing) ∧ buildSlashing existing w = Ok sl).
Proof.
  intros Hp Hreach Hv Hk Hadm Hrec.
  pose proof (reached_spans p Hp db kind vci hs cs Hreach v Hv Hk) as Hsp.
  destruct (apply_records p Hp db kind vci cs v (hs v) w cur Hsp Hrec Hv Hadm) as (r & cs' & Hrun & Hr).
  exists r, cs'. split; [done|]. destruct r as [sl|].
  - destruct Hr as (_ & ex & Hin & Hoff & Hsl). split; [split; eauto|]. intros sl' [= <-]. eauto.
  - destruct Hr as [Hno _]. split; [|done]. split; [by intros []|].
    intros (a & Ha & Hoff). by destruct (Hno a Ha).
Qed.

Definition att (version : AttVersion) (indices : list Z) (source target root : Z) : IndexedAttestationWrapper :=
  {| indexedAttestation := {| Version := version; AttestingIndices := indices;
       SourceEpoch := source; TargetEpoch := target |}; DataRoot := root |}.

(** A database that has recorded one attestation and no chunks. *)
Definition db_with (w : IndexedAttestationWrapper) : SlasherDatabase :=
  {| AttestationRecordForValidator v t :=
       Ok (if t =? TargetEpoch (indexedAttestation w) then Some w else None);
     LoadSlasherChunks _ keys := Ok (replicate (length keys) [], replicate (length keys) false) |}.

(** Past [historyLength] a surround vote inside the history can be missed.
    [NextChunkStartEpoch] returns an epoch below [historyLength], so [Update] stops
    after the chunk of the source: with the default parameters the vote 4980 -> 5002
    surrounds 5000 -> 5001 and neither the min nor the max spans report it, while the
    same two votes 4096 epochs earlier are reported. *)
Theorem surround_vote_missed_past_history :
  let detect kind a b cur :=
    let db := db_with a in
    let run w cur cs := applyAttestationForValidator DefaultParams db kind w 0 0 cur cs in
    let '(r1, cs1) := run a (cur - 1) ∅ in
    let '(r2, _) := run b cur cs1 in (r1, r2) in
  let a d := att Electra [0] (5000 - d) (5001 - d) 1 in
  let b d := att Electra [0] (4980 - d) (5002 - d) 2 in
  offends MinSpan (vote_of (b 0)) (vote_of (a 0)) ∧
  detect MinSpan (a 0) (b 0) 5002 = (Ok None, Ok None) ∧
  detect MaxSpan (a 0) (b 0) 5002 = (Ok None, Ok None) ∧
  ∃ sl, detect MinSpan (a 4096) (b 4096) 906 = (Ok None, Ok (Some sl)).
Proof.
  cbv zeta. split; [vm_compute; done|]. split; [vm_compute; reflexivity|]. split; [vm_compute; reflexivity|].
  eexists. vm_compute. reflexivity.
Qed.

(** ** The theorem at a concrete input *)
Definition ex_params : Parameters := NewParams 2 3 8.
Lemma ex_params_ok : params_ok ex_params.
Proof. split; simpl; try lia. by exists 4. Qed.

Definition ex_first : IndexedAttestationWrapper := att Phase0 [4] 5 6 1.
Definition ex_second : IndexedAttestationWrapper := att Electra [4] 1 7 2.
Definition ex_chunks : gmap Z (list Z) :=
  (applyAttestationForValidator ex_params (db_with ex_first) MinSpan ex_first 1 4 6 ∅).2.

Lemma ex_reached : reached ex_params (db_with ex_first) MinSpan 1 (add_vote (λ _, []) 4 (5, 6)) ex_chunks.
Proof.
  change (5, 6) with (vote_of ex_first).
  apply (reached_apply ex_params _ MinSpan 1 (λ _, []) ∅ 4 ex_first 6 None).
  - constructor; [by intros keys|done|done].
  - done.
  - done.
  - split; vm_compute; done.
  - intros a Ha. by apply not_elem_of_nil in Ha.
  - vm_compute. reflexivity.
Qed.

Lemma surround_votes_detected_witness :
  ∃ r cs', applyAttestationForValidator ex_params (db_with ex_first) MinSpan ex_second 1 4 7 ex_chunks = (Ok r, cs') ∧
    is_Some r.
Proof.
  destruct (surround_votes_detected ex_params (db_with ex_first) MinSpan 1 _ ex_chunks 4 7 ex_second
    ex_params_ok ex_reached) as (r & cs' & Hrun & Hiff & _).
  - lia.
  - reflexivity.
  - split; vm_compute; done.
  - intros a Ha. vm_compute in Ha. apply list_elem_of_singleton in Ha. subst. by exists ex_first.
  - exists r, cs'. split; [exact Hrun|]. apply Hiff. exists (5, 6). split; [vm_compute; left|vm_compute; done].
Defined.
