(* ===== verification/ForkTypes.v ===== *)
(** * beacon-chain/forkchoice/doubly-linked-tree: data and memory

    The fork choice store is a tree of heap-allocated nodes with parent,
    children, target and best-descendant pointers, plus an index from block root
    to node.  Nodes are modelled in an explicit heap, so that two pointers to
    the same node alias: a node dropped from the index is still reachable
    through any pointer that was kept.

    - A block root ([[32]byte]) is its big-endian value: equality and
      [bytes.Compare] on arrays of equal length are those of the numbers, and the
      zero hash is 0.
    - [context.Context]: [s_ctx] is the number of [ctx.Err()] checks that still
      succeed before the context is cancelled, [None] when it never is.
    - Metrics, tracing spans and log lines have no effect on the state.
    - Locking is the caller's ([ForkChoice] embeds the mutex, no method modelled
      here takes it). *)
From S2P Require Import Prelude MathHelper Primitives Config SlotTime.

Abbreviation ptr := positive.

Record Node := mkNode {
  n_slot : Z;
  n_root : Z;
  n_payloadHash : Z;
  n_parent : option ptr;
  n_target : option ptr;
  n_children : list ptr;
  n_justifiedEpoch : Z;
  n_unrealizedJustifiedEpoch : Z;
  n_finalizedEpoch : Z;
  n_unrealizedFinalizedEpoch : Z;
  n_balance : Z;
  n_weight : Z;
  n_bestDescendant : option ptr;
  n_optimistic : bool;
  n_timestamp : Z;
}.

Record Vote := mkVote { v_currentRoot : Z; v_nextRoot : Z; v_nextEpoch : Z }.

Record Checkpoint := mkCheckpoint { cp_epoch : Z; cp_root : Z }.

#[export] Instance Checkpoint_eq_dec : EqDecision Checkpoint.
Proof. solve_decision. Defined.

Definition ZeroHash : Z := 0.

(** [fieldparams.SlotsPerEpoch]: the length of the compile-time array. *)
Definition fieldSlotsPerEpoch : Z := 32.

Record Store := mkStore {
  s_justifiedCheckpoint : Checkpoint;
  s_unrealizedJustifiedCheckpoint : Checkpoint;
  s_unrealizedFinalizedCheckpoint : Checkpoint;
  s_prevJustifiedCheckpoint : Checkpoint;
  s_finalizedCheckpoint : Checkpoint;
  s_proposerBoostRoot : Z;
  s_previousProposerBoostRoot : Z;
  s_previousProposerBoostScore : Z;
  s_finalizedDependentRoot : Z;
  s_committeeWeight : Z;
  s_treeRootNode : option ptr;
  s_headNode : option ptr;
  s_nodeByRoot : gmap Z ptr;
  s_slashedIndices : gset Z;
  s_originRoot : Z;
  s_genesisTime : Z;
  s_highestReceivedNode : option ptr;
  s_receivedBlocksLastEpoch : list Z;
  s_allTipsAreInvalid : bool;
  (* the memory behind the pointers, the next unused address, the context *)
  s_heap : gmap ptr Node;
  s_next : ptr;
  s_ctx : option nat;
}.

(** ** Field updates *)
Section setters.
Context (n : Node).
Definition set_children (c : list ptr) : Node :=
  mkNode (n_slot n) (n_root n) (n_payloadHash n) (n_parent n) (n_target n) c
    (n_justifiedEpoch n) (n_unrealizedJustifiedEpoch n) (n_finalizedEpoch n)
    (n_unrealizedFinalizedEpoch n) (n_balance n) (n_weight n) (n_bestDescendant n)
    (n_optimistic n) (n_timestamp n).
Definition set_parent (p : option ptr) : Node :=
  mkNode (n_slot n) (n_root n) (n_payloadHash n) p (n_target n) (n_children n)
    (n_justifiedEpoch n) (n_unrealizedJustifiedEpoch n) (n_finalizedEpoch n)
    (n_unrealizedFinalizedEpoch n) (n_balance n) (n_weight n) (n_bestDescendant n)
    (n_optimistic n) (n_timestamp n).
Definition set_target (t : option ptr) : Node :=
  mkNode (n_slot n) (n_root n) (n_payloadHash n) (n_parent n) t (n_children n)
    (n_justifiedEpoch n) (n_unrealizedJustifiedEpoch n) (n_finalizedEpoch n)
    (n_unrealizedFinalizedEpoch n) (n_balance n) (n_weight n) (n_bestDescendant n)
    (n_optimistic n) (n_timestamp n).
Definition set_balance (b : Z) : Node :=
  mkNode (n_slot n) (n_root n) (n_payloadHash n) (n_parent n) (n_target n) (n_children n)
    (n_justifiedEpoch n) (n_unrealizedJustifiedEpoch n) (n_finalizedEpoch n)
    (n_unrealizedFinalizedEpoch n) b (n_weight n) (n_bestDescendant n)
    (n_optimistic n) (n_timestamp n).
Definition set_weight (w : Z) : Node :=
  mkNode (n_slot n) (n_root n) (n_payloadHash n) (n_parent n) (n_target n) (n_children n)
    (n_justifiedEpoch n) (n_unrealizedJustifiedEpoch n) (n_finalizedEpoch n)
    (n_unrealizedFinalizedEpoch n) (n_balance n) w (n_bestDescendant n)
    (n_optimistic n) (n_timestamp n).
Definition set_bestDescendant (b : option ptr) : Node :=
  mkNode (n_slot n) (n_root n) (n_payloadHash n) (n_parent n) (n_target n) (n_children n)
    (n_justifiedEpoch n) (n_unrealizedJustifiedEpoch n) (n_finalizedEpoch n)
    (n_unrealizedFinalizedEpoch n) (n_balance n) (n_weight n) b
    (n_optimistic n) (n_timestamp n).
Definition set_optimistic (o : bool) : Node :=
  mkNode (n_slot n) (n_root n) (n_payloadHash n) (n_parent n) (n_target n) (n_children n)
    (n_justifiedEpoch n) (n_unrealizedJustifiedEpoch n) (n_finalizedEpoch n)
    (n_unrealizedFinalizedEpoch n) (n_balance n) (n_weight n) (n_bestDescendant n)
    o (n_timestamp n).
(** justified, unrealized justified, finalized, unrealized finalized *)
Definition set_epochs (j uj f uf : Z) : Node :=
  mkNode (n_slot n) (n_root n) (n_payloadHash n) (n_parent n) (n_target n) (n_children n)
    j uj f uf (n_balance n) (n_weight n) (n_bestDescendant n)
    (n_optimistic n) (n_timestamp n).
End setters.

Section store_setters.
Context (s : Store).
Definition upd_justifiedCheckpoint x : Store :=
    mkStore x (s_unrealizedJustifiedCheckpoint s) (s_unrealizedFinalizedCheckpoint s)
    (s_prevJustifiedCheckpoint s) (s_finalizedCheckpoint s) (s_proposerBoostRoot s)
    (s_previousProposerBoostRoot s) (s_previousProposerBoostScore s)
    (s_finalizedDependentRoot s) (s_committeeWeight s) (s_treeRootNode s) (s_headNode s)
    (s_nodeByRoot s) (s_slashedIndices s) (s_originRoot s) (s_genesisTime s)
    (s_highestReceivedNode s) (s_receivedBlocksLastEpoch s) (s_allTipsAreInvalid s)
    (s_heap s) (s_next s) (s_ctx s).
Definition upd_unrealizedJustifiedCheckpoint x : Store :=
    mkStore (s_justifiedCheckpoint s) x (s_unrealizedFinalizedCheckpoint s)
    (s_prevJustifiedCheckpoint s) (s_finalizedCheckpoint s) (s_proposerBoostRoot s)
    (s_previousProposerBoostRoot s) (s_previousProposerBoostScore s)
    (s_finalizedDependentRoot s) (s_committeeWeight s) (s_treeRootNode s) (s_headNode s)
    (s_nodeByRoot s) (s_slashedIndices s) (s_originRoot s) (s_genesisTime s)
    (s_highestReceivedNode s) (s_receivedBlocksLastEpoch s) (s_allTipsAreInvalid s)
    (s_heap s) (s_next s) (s_ctx s).
Definition upd_unrealizedFinalizedCheckpoint x : Store :=
    mkStore (s_justifiedCheckpoint s) (s_unrealizedJustifiedCheckpoint s) x
    (s_prevJustifiedCheckpoint s) (s_finalizedCheckpoint s) (s_proposerBoostRoot s)
    (s_previousProposerBoostRoot s) (s_previousProposerBoostScore s)
    (s_finalizedDependentRoot s) (s_committeeWeight s) (s_treeRootNode s) (s_headNode s)
    (s_nodeByRoot s) (s_slashedIndices s) (s_originRoot s) (s_genesisTime s)
    (s_highestReceivedNode s) (s_receivedBlocksLastEpoch s) (s_allTipsAreInvalid s)
    (s_heap s) (s_next s) (s_ctx s).
Definition upd_prevJustifiedCheckpoint x : Store :=
    mkStore (s_justifiedCheckpoint s) (s_unrealizedJustifiedCheckpoint s)
    (s_unrealizedFinalizedCheckpoint s) x (s_finalizedCheckpoint s) (s_proposerBoostRoot
    s) (s_previousProposerBoostRoot s) (s_previousProposerBoostScore s)
    (s_finalizedDependentRoot s) (s_committeeWeight s) (s_treeRootNode s) (s_headNode s)
    (s_nodeByRoot s) (s_slashedIndices s) (s_originRoot s) (s_genesisTime s)
    (s_highestReceivedNode s) (s_receivedBlocksLastEpoch s) (s_allTipsAreInvalid s)
    (s_heap s) (s_next s) (s_ctx s).
Definition upd_finalizedCheckpoint x : Store :=
    mkStore (s_justifiedCheckpoint s) (s_unrealizedJustifiedCheckpoint s)
    (s_unrealizedFinalizedCheckpoint s) (s_prevJustifiedCheckpoint s) x
    (s_proposerBoostRoot s) (s_previousProposerBoostRoot s)
    (s_previousProposerBoostScore s) (s_finalizedDependentRoot s) (s_committeeWeight s)
    (s_treeRootNode s) (s_headNode s) (s_nodeByRoot s) (s_slashedIndices s)
    (s_originRoot s) (s_genesisTime s) (s_highestReceivedNode s)
    (s_receivedBlocksLastEpoch s) (s_allTipsAreInvalid s) (s_heap s) (s_next s) (s_ctx
    s).
Definition upd_proposerBoostRoot x : Store :=
    mkStore (s_justifiedCheckpoint s) (s_unrealizedJustifiedCheckpoint s)
    (s_unrealizedFinalizedCheckpoint s) (s_prevJustifiedCheckpoint s)
    (s_finalizedCheckpoint s) x (s_previousProposerBoostRoot s)
    (s_previousProposerBoostScore s) (s_finalizedDependentRoot s) (s_committeeWeight s)
    (s_treeRootNode s) (s_headNode s) (s_nodeByRoot s) (s_slashedIndices s)
    (s_originRoot s) (s_genesisTime s) (s_highestReceivedNode s)
    (s_receivedBlocksLastEpoch s) (s_allTipsAreInvalid s) (s_heap s) (s_next s) (s_ctx
    s).
Definition upd_previousProposerBoostRoot x : Store :=
    mkStore (s_justifiedCheckpoint s) (s_unrealizedJustifiedCheckpoint s)
    (s_unrealizedFinalizedCheckpoint s) (s_prevJustifiedCheckpoint s)
    (s_finalizedCheckpoint s) (s_proposerBoostRoot s) x (s_previousProposerBoostScore s)
    (s_finalizedDependentRoot s) (s_committeeWeight s) (s_treeRootNode s) (s_headNode s)
    (s_nodeByRoot s) (s_slashedIndices s) (s_originRoot s) (s_genesisTime s)
    (s_highestReceivedNode s) (s_receivedBlocksLastEpoch s) (s_allTipsAreInvalid s)
    (s_heap s) (s_next s) (s_ctx s).
Definition upd_previousProposerBoostScore x : Store :=
    mkStore (s_justifiedCheckpoint s) (s_unrealizedJustifiedCheckpoint s)
    (s_unrealizedFinalizedCheckpoint s) (s_prevJustifiedCheckpoint s)
    (s_finalizedCheckpoint s) (s_proposerBoostRoot s) (s_previousProposerBoostRoot s) x
    (s_finalizedDependentRoot s) (s_committeeWeight s) (s_treeRootNode s) (s_headNode s)
    (s_nodeByRoot s) (s_slashedIndices s) (s_originRoot s) (s_genesisTime s)
    (s_highestReceivedNode s) (s_receivedBlocksLastEpoch s) (s_allTipsAreInvalid s)
    (s_heap s) (s_next s) (s_ctx s).
Definition upd_finalizedDependentRoot x : Store :=
    mkStore (s_justifiedCheckpoint s) (s_unrealizedJustifiedCheckpoint s)
    (s_unrealizedFinalizedCheckpoint s) (s_prevJustifiedCheckpoint s)
    (s_finalizedCheckpoint s) (s_proposerBoostRoot s) (s_previousProposerBoostRoot s)
    (s_previousProposerBoostScore s) x (s_committeeWeight s) (s_treeRootNode s)
    (s_headNode s) (s_nodeByRoot s) (s_slashedIndices s) (s_originRoot s) (s_genesisTime
    s) (s_highestReceivedNode s) (s_receivedBlocksLastEpoch s) (s_allTipsAreInvalid s)
    (s_heap s) (s_next s) (s_ctx s).
Definition upd_committeeWeight x : Store :=
    mkStore (s_justifiedCheckpoint s) (s_unrealizedJustifiedCheckpoint s)
    (s_unrealizedFinalizedCheckpoint s) (s_prevJustifiedCheckpoint s)
    (s_finalizedCheckpoint s) (s_proposerBoostRoot s) (s_previousProposerBoostRoot s)
    (s_previousProposerBoostScore s) (s_finalizedDependentRoot s) x (s_treeRootNode s)
    (s_headNode s) (s_nodeByRoot s) (s_slashedIndices s) (s_originRoot s) (s_genesisTime
    s) (s_highestReceivedNode s) (s_receivedBlocksLastEpoch s) (s_allTipsAreInvalid s)
    (s_heap s) (s_next s) (s_ctx s).
Definition upd_treeRootNode x : Store :=
    mkStore (s_justifiedCheckpoint s) (s_unrealizedJustifiedCheckpoint s)
    (s_unrealizedFinalizedCheckpoint s) (s_prevJustifiedCheckpoint s)
    (s_finalizedCheckpoint s) (s_proposerBoostRoot s) (s_previousProposerBoostRoot s)
    (s_previousProposerBoostScore s) (s_finalizedDependentRoot s) (s_committeeWeight s)
    x (s_headNode s) (s_nodeByRoot s) (s_slashedIndices s) (s_originRoot s)
    (s_genesisTime s) (s_highestReceivedNode s) (s_receivedBlocksLastEpoch s)
    (s_allTipsAreInvalid s) (s_heap s) (s_next s) (s_ctx s).
Definition upd_headNode x : Store :=
    mkStore (s_justifiedCheckpoint s) (s_unrealizedJustifiedCheckpoint s)
    (s_unrealizedFinalizedCheckpoint s) (s_prevJustifiedCheckpoint s)
    (s_finalizedCheckpoint s) (s_proposerBoostRoot s) (s_previousProposerBoostRoot s)
    (s_previousProposerBoostScore s) (s_finalizedDependentRoot s) (s_committeeWeight s)
    (s_treeRootNode s) x (s_nodeByRoot s) (s_slashedIndices s) (s_originRoot s)
    (s_genesisTime s) (s_highestReceivedNode s) (s_receivedBlocksLastEpoch s)
    (s_allTipsAreInvalid s) (s_heap s) (s_next s) (s_ctx s).
Definition upd_nodeByRoot x : Store :=
    mkStore (s_justifiedCheckpoint s) (s_unrealizedJustifiedCheckpoint s)
    (s_unrealizedFinalizedCheckpoint s) (s_prevJustifiedCheckpoint s)
    (s_finalizedCheckpoint s) (s_proposerBoostRoot s) (s_previousProposerBoostRoot s)
    (s_previousProposerBoostScore s) (s_finalizedDependentRoot s) (s_committeeWeight s)
    (s_treeRootNode s) (s_headNode s) x (s_slashedIndices s) (s_originRoot s)
    (s_genesisTime s) (s_highestReceivedNode s) (s_receivedBlocksLastEpoch s)
    (s_allTipsAreInvalid s) (s_heap s) (s_next s) (s_ctx s).
Definition upd_slashedIndices x : Store :=
    mkStore (s_justifiedCheckpoint s) (s_unrealizedJustifiedCheckpoint s)
    (s_unrealizedFinalizedCheckpoint s) (s_prevJustifiedCheckpoint s)
    (s_finalizedCheckpoint s) (s_proposerBoostRoot s) (s_previousProposerBoostRoot s)
    (s_previousProposerBoostScore s) (s_finalizedDependentRoot s) (s_committeeWeight s)
    (s_treeRootNode s) (s_headNode s) (s_nodeByRoot s) x (s_originRoot s) (s_genesisTime
    s) (s_highestReceivedNode s) (s_receivedBlocksLastEpoch s) (s_allTipsAreInvalid s)
    (s_heap s) (s_next s) (s_ctx s).
Definition upd_originRoot x : Store :=
    mkStore (s_justifiedCheckpoint s) (s_unrealizedJustifiedCheckpoint s)
    (s_unrealizedFinalizedCheckpoint s) (s_prevJustifiedCheckpoint s)
    (s_finalizedCheckpoint s) (s_proposerBoostRoot s) (s_previousProposerBoostRoot s)
    (s_previousProposerBoostScore s) (s_finalizedDependentRoot s) (s_committeeWeight s)
    (s_treeRootNode s) (s_headNode s) (s_nodeByRoot s) (s_slashedIndices s) x
    (s_genesisTime s) (s_highestReceivedNode s) (s_receivedBlocksLastEpoch s)
    (s_allTipsAreInvalid s) (s_heap s) (s_next s) (s_ctx s).
Definition upd_genesisTime x : Store :=
    mkStore (s_justifiedCheckpoint s) (s_unrealizedJustifiedCheckpoint s)
    (s_unrealizedFinalizedCheckpoint s) (s_prevJustifiedCheckpoint s)
    (s_finalizedCheckpoint s) (s_proposerBoostRoot s) (s_previousProposerBoostRoot s)
    (s_previousProposerBoostScore s) (s_finalizedDependentRoot s) (s_committeeWeight s)
    (s_treeRootNode s) (s_headNode s) (s_nodeByRoot s) (s_slashedIndices s)
    (s_originRoot s) x (s_highestReceivedNode s) (s_receivedBlocksLastEpoch s)
    (s_allTipsAreInvalid s) (s_heap s) (s_next s) (s_ctx s).
Definition upd_highestReceivedNode x : Store :=
    mkStore (s_justifiedCheckpoint s) (s_unrealizedJustifiedCheckpoint s)
    (s_unrealizedFinalizedCheckpoint s) (s_prevJustifiedCheckpoint s)
    (s_finalizedCheckpoint s) (s_proposerBoostRoot s) (s_previousProposerBoostRoot s)
    (s_previousProposerBoostScore s) (s_finalizedDependentRoot s) (s_committeeWeight s)
    (s_treeRootNode s) (s_headNode s) (s_nodeByRoot s) (s_slashedIndices s)
    (s_originRoot s) (s_genesisTime s) x (s_receivedBlocksLastEpoch s)
    (s_allTipsAreInvalid s) (s_heap s) (s_next s) (s_ctx s).
Definition upd_receivedBlocksLastEpoch x : Store :=
    mkStore (s_justifiedCheckpoint s) (s_unrealizedJustifiedCheckpoint s)
    (s_unrealizedFinalizedCheckpoint s) (s_prevJustifiedCheckpoint s)
    (s_finalizedCheckpoint s) (s_proposerBoostRoot s) (s_previousProposerBoostRoot s)
    (s_previousProposerBoostScore s) (s_finalizedDependentRoot s) (s_committeeWeight s)
    (s_treeRootNode s) (s_headNode s) (s_nodeByRoot s) (s_slashedIndices s)
    (s_originRoot s) (s_genesisTime s) (s_highestReceivedNode s) x (s_allTipsAreInvalid
    s) (s_heap s) (s_next s) (s_ctx s).
Definition upd_allTipsAreInvalid x : Store :=
    mkStore (s_justifiedCheckpoint s) (s_unrealizedJustifiedCheckpoint s)
    (s_unrealizedFinalizedCheckpoint s) (s_prevJustifiedCheckpoint s)
    (s_finalizedCheckpoint s) (s_proposerBoostRoot s) (s_previousProposerBoostRoot s)
    (s_previousProposerBoostScore s) (s_finalizedDependentRoot s) (s_committeeWeight s)
    (s_treeRootNode s) (s_headNode s) (s_nodeByRoot s) (s_slashedIndices s)
    (s_originRoot s) (s_genesisTime s) (s_highestReceivedNode s)
    (s_receivedBlocksLastEpoch s) x (s_heap s) (s_next s) (s_ctx s).
Definition upd_heap x : Store :=
    mkStore (s_justifiedCheckpoint s) (s_unrealizedJustifiedCheckpoint s)
    (s_unrealizedFinalizedCheckpoint s) (s_prevJustifiedCheckpoint s)
    (s_finalizedCheckpoint s) (s_proposerBoostRoot s) (s_previousProposerBoostRoot s)
    (s_previousProposerBoostScore s) (s_finalizedDependentRoot s) (s_committeeWeight s)
    (s_treeRootNode s) (s_headNode s) (s_nodeByRoot s) (s_slashedIndices s)
    (s_originRoot s) (s_genesisTime s) (s_highestReceivedNode s)
    (s_receivedBlocksLastEpoch s) (s_allTipsAreInvalid s) x (s_next s) (s_ctx s).
Definition upd_next x : Store :=
    mkStore (s_justifiedCheckpoint s) (s_unrealizedJustifiedCheckpoint s)
    (s_unrealizedFinalizedCheckpoint s) (s_prevJustifiedCheckpoint s)
    (s_finalizedCheckpoint s) (s_proposerBoostRoot s) (s_previousProposerBoostRoot s)
    (s_previousProposerBoostScore s) (s_finalizedDependentRoot s) (s_committeeWeight s)
    (s_treeRootNode s) (s_headNode s) (s_nodeByRoot s) (s_slashedIndices s)
    (s_originRoot s) (s_genesisTime s) (s_highestReceivedNode s)
    (s_receivedBlocksLastEpoch s) (s_allTipsAreInvalid s) (s_heap s) x (s_ctx s).
Definition upd_ctx x : Store :=
    mkStore (s_justifiedCheckpoint s) (s_unrealizedJustifiedCheckpoint s)
    (s_unrealizedFinalizedCheckpoint s) (s_prevJustifiedCheckpoint s)
    (s_finalizedCheckpoint s) (s_proposerBoostRoot s) (s_previousProposerBoostRoot s)
    (s_previousProposerBoostScore s) (s_finalizedDependentRoot s) (s_committeeWeight s)
    (s_treeRootNode s) (s_headNode s) (s_nodeByRoot s) (s_slashedIndices s)
    (s_originRoot s) (s_genesisTime s) (s_highestReceivedNode s)
    (s_receivedBlocksLastEpoch s) (s_allTipsAreInvalid s) (s_heap s) (s_next s) x.
End store_setters.

(** ** Memory operations *)
Abbreviation MS := (M Store).

Definition gets {A} (f : Store → A) : MS A := λ s, (Ok (f s), s).

(** Dereferencing: a nil or dangling pointer is a run-time panic. *)
Definition deref (p : ptr) : MS Node := λ s,
  match s_heap s !! p with Some n => (Ok n, s) | None => (Panic, s) end.
Definition deref' (p : option ptr) : MS Node :=
  match p with Some p => deref p | None => mpanic end.
Definition modNode (p : ptr) (f : Node → Node) : MS unit := λ s,
  match s_heap s !! p with
  | Some n => (Ok tt, upd_heap s (<[p := f n]> (s_heap s)))
  | None => (Panic, s)
  end.
Definition alloc (n : Node) : MS ptr := λ s,
  let p := s_next s in
  (Ok p, upd_next (upd_heap s (<[p := n]> (s_heap s))) (Pos.succ p)).

(** [if ctx.Err() != nil { return ctx.Err() }] *)
Definition ctxErr : MS unit := λ s,
  match s_ctx s with
  | None => (Ok tt, s)
  | Some O => (Err errContext, s)
  | Some (S k) => (Ok tt, upd_ctx s (Some k))
  end.

Definition whenM (b : bool) (m : MS unit) : MS unit := if b then m else mret tt.

(** Run [m] and hand its error, if any, to the caller as a value. *)
Definition tryM {S A} (m : M S A) : M S (A + goerr) := λ s,
  match m s with
  | (Ok a, s') => (Ok (inl a), s')
  | (Err e, s') => (Ok (inr e), s')
  | (Panic, s') => (Panic, s')
  | (OutOfFuel, s') => (OutOfFuel, s')
  end.

(** Recursion and loops follow pointers of the store; the number of allocated
    nodes bounds the length of any path without repetition. *)
Definition fuelOf (s : Store) : nat := S (size (s_heap s)).

(** ** Invariants of memory operations *)
Section preserves_mem.
Context (P : Store → Prop).
Lemma preserves_gets {A} (f : Store → A) : preserves P (gets f).
Proof. by intros s. Qed.
Lemma preserves_deref p : preserves P (deref p).
Proof. intros s Hs. unfold deref. by destruct (s_heap s !! p). Qed.
Lemma preserves_deref' p : preserves P (deref' p).
Proof. destruct p; [apply preserves_deref|intros s Hs; exact Hs]. Qed.
Lemma preserves_whenM b m : preserves P m → preserves P (whenM b m).
Proof. destruct b; [done|intros _ s Hs; exact Hs]. Qed.
Lemma preserves_tryM {A} (m : MS A) : preserves P m → preserves P (tryM m).
Proof. intros Hm s Hs. specialize (Hm s Hs). unfold tryM. by destruct (m s) as [[] s']. Qed.
Lemma preserves_modNode p f :
  (∀ s n, P s → s_heap s !! p = Some n → P (upd_heap s (<[p := f n]> (s_heap s)))) →
  preserves P (modNode p f).
Proof. intros Hf s Hs. unfold modNode. destruct (s_heap s !! p) eqn:?; simpl; auto. Qed.
Lemma preserves_ctxErr : (∀ s c, P s → P (upd_ctx s c)) → preserves P ctxErr.
Proof. intros Hc s Hs. unfold ctxErr. by destruct (s_ctx s) as [[|k]|]; simpl; auto. Qed.
End preserves_mem.
#[export] Hint Resolve preserves_gets preserves_deref preserves_deref' preserves_whenM
  preserves_tryM preserves_ctxErr : preserves.
