(* ===== verification/ForkTree.v ===== *)
(** * The tree in the heap

    The pointers of the fork choice store form a rose tree.  [tree] is the ghost
    shape of it, [is_tree h t] says that the heap [h] stores [t] (the children
    of each node are, in order, the roots of its subtrees), and [frames] says
    what a traversal may change.  The traversals of node.go and store.go are
    specified against these in ForkNodeFacts and ForkStoreFacts. *)
From S2P Require Import Prelude ForkTypes.

#[warnings="-register-all"]
Inductive tree := Br (p : ptr) (ts : list tree).

Section tree_ind.
Context (P : tree → Prop) (HBr : ∀ p ts, Forall P ts → P (Br p ts)).
Fixpoint tree_ind' (t : tree) : P t :=
  match t with
  | Br p ts => HBr p ts ((fix go ts : Forall P ts :=
      match ts with
      | [] => Forall_nil_2 P
      | t :: ts' => Forall_cons_2 P t ts' (tree_ind' t) (go ts')
      end) ts)
  end.
End tree_ind.

Definition rootp (t : tree) : ptr := match t with Br p _ => p end.
Definition branches (t : tree) : list tree := match t with Br _ ts => ts end.
Fixpoint subtrees (t : tree) : list tree :=
  match t with Br p ts => Br p ts :: concat (map subtrees ts) end.
Definition ptrs (t : tree) : list ptr := rootp <$> subtrees t.
Fixpoint height (t : tree) : nat :=
  match t with Br p ts => S (foldr Nat.max O (map height ts)) end.

Lemma ptrs_Br p ts : ptrs (Br p ts) = p :: concat (ptrs <$> ts).
Proof.
  unfold ptrs. csimpl. f_equal. induction ts as [|t ts IH]; csimpl; [done|].
  by rewrite fmap_app, IH.
Qed.

#[global] Arguments ptrs : simpl never.

Lemma subtrees_self t : t ∈ subtrees t.
Proof. destruct t. simpl. set_solver. Qed.

Lemma elem_of_subtrees_Br x p ts :
  x ∈ subtrees (Br p ts) ↔ x = Br p ts ∨ ∃ t, t ∈ ts ∧ x ∈ subtrees t.
Proof.
  simpl. rewrite elem_of_cons, list_elem_of_In, in_concat.
  setoid_rewrite in_map_iff. setoid_rewrite <-list_elem_of_In. naive_solver.
Qed.

Lemma subtrees_trans x y z : x ∈ subtrees y → y ∈ subtrees z → x ∈ subtrees z.
Proof.
  intros Hxy. induction z as [p ts IH] using tree_ind'.
  rewrite Forall_forall in IH. rewrite !elem_of_subtrees_Br.
  intros [->|(t & Ht & Hy)]; [by apply elem_of_subtrees_Br|]. right. eauto.
Qed.

Lemma subtrees_branch x c t : x ∈ subtrees t → c ∈ branches x → c ∈ subtrees t.
Proof.
  intros Hx Hc. apply (subtrees_trans c x); [|done].
  destruct x as [p ts]. apply elem_of_subtrees_Br. right. eauto using subtrees_self.
Qed.

Lemma elem_of_ptrs_Br q p ts : q ∈ ptrs (Br p ts) ↔ q = p ∨ ∃ t, t ∈ ts ∧ q ∈ ptrs t.
Proof.
  unfold ptrs. setoid_rewrite list_elem_of_fmap. setoid_rewrite elem_of_subtrees_Br.
  split; [|].
  - intros (x & -> & [->|(t & Ht & Hx)]); [by left|]. right. eauto.
  - intros [->|(t & Ht & x & -> & Hx)]; [exists (Br p ts); eauto|]. exists x. eauto.
Qed.

Lemma rootp_in t : rootp t ∈ ptrs t.
Proof. destruct t. apply elem_of_ptrs_Br. by left. Qed.

Lemma ptrs_subtree x t q : x ∈ subtrees t → q ∈ ptrs x → q ∈ ptrs t.
Proof.
  unfold ptrs. rewrite !list_elem_of_fmap. intros Hx (y & -> & Hy).
  exists y. eauto using subtrees_trans.
Qed.

Lemma rootp_subtree x t : x ∈ subtrees t → rootp x ∈ ptrs t.
Proof. eauto using ptrs_subtree, rootp_in. Qed.

Lemma concat_ptrs_elem (ts : list tree) q :
  q ∈ concat (ptrs <$> ts) ↔ ∃ t, t ∈ ts ∧ q ∈ ptrs t.
Proof.
  rewrite list_elem_of_In, in_concat. setoid_rewrite in_map_iff.
  setoid_rewrite <-list_elem_of_In. naive_solver.
Qed.

Lemma NoDup_ptrs_Br p ts :
  NoDup (ptrs (Br p ts)) ↔
  (∀ t, t ∈ ts → p ∉ ptrs t) ∧ NoDup (concat (ptrs <$> ts)).
Proof.
  rewrite ptrs_Br, NoDup_cons. apply and_iff_compat_r. rewrite concat_ptrs_elem. naive_solver.
Qed.

Lemma NoDup_concat_elem (ts : list tree) t :
  NoDup (concat (ptrs <$> ts)) → t ∈ ts → NoDup (ptrs t).
Proof.
  induction ts as [|t' ts IH]; simpl; [set_solver|].
  rewrite NoDup_app. intros (? & _ & ?) [->|?]%elem_of_cons; auto.
Qed.

Lemma NoDup_concat_disjoint done t rest (q : ptr) :
  NoDup (concat (ptrs <$> (done ++ t :: rest))) →
  q ∈ ptrs t → ∀ t', t' ∈ done ∨ t' ∈ rest → q ∉ ptrs t'.
Proof.
  rewrite fmap_app, concat_app, NoDup_app. simpl. rewrite NoDup_app.
  intros (_ & Hd & _ & Ht & _) Hq t' Ht' Hq'.
  assert (∀ l, t' ∈ l → q ∈ concat (ptrs <$> l)) as Hin.
  { intros l Hl. rewrite list_elem_of_In, in_concat. exists (ptrs t').
    rewrite <-!list_elem_of_In. eauto using list_elem_of_fmap_2. }
  destruct Ht' as [Ht'|Ht'].
  - apply (Hd q); [auto|]. apply elem_of_app; eauto.
  - apply (Ht q); auto.
Qed.

Lemma NoDup_ptrs_subtree x t : x ∈ subtrees t → NoDup (ptrs t) → NoDup (ptrs x).
Proof.
  induction t as [p ts IH] using tree_ind'. rewrite Forall_forall in IH.
  rewrite elem_of_subtrees_Br. intros [->|(t & Ht & Hx)]; [done|].
  rewrite NoDup_ptrs_Br. intros [_ Hnd]. eauto using NoDup_concat_elem.
Qed.

(** In a tree without repetition a pointer determines its subtree. *)
Lemma subtree_unique t x y :
  NoDup (ptrs t) → x ∈ subtrees t → y ∈ subtrees t → rootp x = rootp y → x = y.
Proof.
  unfold ptrs. intros Hnd (i & Hi)%list_elem_of_lookup (j & Hj)%list_elem_of_lookup Hxy.
  assert (i = j) as ->; [|congruence].
  eapply (NoDup_lookup _ i j (rootp x)); [done| |]; rewrite list_lookup_fmap.
  - by rewrite Hi.
  - by rewrite Hj, Hxy.
Qed.

Lemma height_branch p ts t : t ∈ ts → (height t < height (Br p ts))%nat.
Proof.
  simpl. induction ts as [|t' ts IH]; [set_solver|]. simpl.
  intros [->|?]%elem_of_cons; [lia|]. apply IH in H. lia.
Qed.

Lemma height_ptrs t : (height t ≤ length (ptrs t))%nat.
Proof.
  induction t as [p ts IH] using tree_ind'. rewrite ptrs_Br. csimpl. apply le_n_S.
  induction IH as [|t ts Ht _ IH]; csimpl; [lia|]. rewrite length_app.
  apply Nat.max_lub; [lia|]. etrans; [apply IH|lia].
Qed.

(** ** Trees in a heap *)
Abbreviation heap := (gmap ptr Node).

Fixpoint is_tree (h : heap) (t : tree) : Prop :=
  match t with
  | Br p ts => (∃ n, h !! p = Some n ∧ n_children n = rootp <$> ts) ∧
               foldr and True (map (is_tree h) ts)
  end.

Lemma is_tree_Br h p ts :
  is_tree h (Br p ts) ↔
  (∃ n, h !! p = Some n ∧ n_children n = rootp <$> ts) ∧ ∀ t, t ∈ ts → is_tree h t.
Proof.
  simpl. apply and_iff_compat_l. induction ts as [|t ts IH]; simpl; [set_solver|].
  rewrite IH. setoid_rewrite elem_of_cons. naive_solver.
Qed.

#[global] Arguments is_tree : simpl never.

Lemma is_tree_subtree h x t : is_tree h t → x ∈ subtrees t → is_tree h x.
Proof.
  induction t as [p ts IH] using tree_ind'. rewrite Forall_forall in IH.
  rewrite elem_of_subtrees_Br, is_tree_Br. intros [Hn Hts] [->|(t & Ht & Hx)]; [|by eauto].
  by apply is_tree_Br.
Qed.

Lemma is_tree_node h t : is_tree h t →
  ∃ n, h !! rootp t = Some n ∧ n_children n = rootp <$> branches t.
Proof. destruct t. rewrite is_tree_Br. naive_solver. Qed.

Lemma is_tree_lookup h t q : is_tree h t → q ∈ ptrs t → is_Some (h !! q).
Proof.
  unfold ptrs. rewrite list_elem_of_fmap. intros Ht (x & -> & Hx).
  destruct (is_tree_node h x) as (n & -> & _); eauto using is_tree_subtree.
Qed.

(** The fuel [fuelOf] is enough to reach every node of a tree. *)
Lemma height_fuel s t : is_tree (s_heap s) t → NoDup (ptrs t) → (height t < fuelOf s)%nat.
Proof.
  intros Ht Hnd. unfold fuelOf. apply Nat.lt_succ_r.
  etrans; [apply height_ptrs|]. rewrite <-size_dom.
  rewrite <-(size_list_to_set (C:=gset ptr) (ptrs t)) by done.
  apply subseteq_size. intros q. rewrite elem_of_list_to_set, elem_of_dom.
  by apply is_tree_lookup.
Qed.

(** ** Frames *)

(** A traversal of the nodes [l] changes each of them by [R] at most and the
    others not at all. *)
Definition frames (l : list ptr) (R : relation Node) (h h' : heap) : Prop :=
  ∀ q, match h !! q, h' !! q with
       | Some n, Some n' => R n n' ∧ (q ∉ l → n' = n)
       | None, None => True
       | _, _ => False
       end.

Lemma frames_refl l R `{!Reflexive R} h : frames l R h h.
Proof. intros q. destruct (h !! q); naive_solver. Qed.

Lemma frames_trans l R `{!Transitive R} h1 h2 h3 :
  frames l R h1 h2 → frames l R h2 h3 → frames l R h1 h3.
Proof.
  intros H1 H2 q. specialize (H1 q). specialize (H2 q).
  destruct (h1 !! q), (h2 !! q), (h3 !! q); try done. destruct H1, H2.
  split; [by etrans|]. naive_solver.
Qed.

Lemma frames_weaken l l' R h h' : l ⊆ l' → frames l R h h' → frames l' R h h'.
Proof. intros Hl H q. specialize (H q). destruct (h !! q), (h' !! q); set_solver. Qed.

Lemma frames_insert l (R : relation Node) `{!Reflexive R} h p n n' : p ∈ l →
  h !! p = Some n → R n n' → frames l R h (<[p := n']> h).
Proof.
  intros Hp Hn Hnn q. destruct (decide (q = p)) as [->|].
  - rewrite lookup_insert_eq, Hn. by split; [|set_solver].
  - rewrite lookup_insert_ne by done. destruct (h !! q); naive_solver.
Qed.

Lemma frames_lookup l R h h' q n : frames l R h h' → h !! q = Some n →
  ∃ n', h' !! q = Some n' ∧ R n n' ∧ (q ∉ l → n' = n).
Proof. intros H Hq. specialize (H q). rewrite Hq in H. destruct (h' !! q); naive_solver. Qed.

Lemma frames_outside l R h h' q : frames l R h h' → q ∉ l → h' !! q = h !! q.
Proof.
  intros H Hq. specialize (H q). destruct (h !! q), (h' !! q); naive_solver.
Qed.

Lemma frames_size l R h h' : frames l R h h' → size h' = size h.
Proof.
  intros H. rewrite <-!size_dom. f_equal. apply set_eq. intros q.
  rewrite !elem_of_dom. specialize (H q). unfold is_Some.
  destruct (h !! q), (h' !! q); naive_solver.
Qed.

(** Changes that keep the children lists keep the tree. *)
Lemma is_tree_frames l R h h' t : (∀ n n', R n n' → n_children n' = n_children n) →
  frames l R h h' → is_tree h t → is_tree h' t.
Proof.
  intros HR Hf. induction t as [p ts IH] using tree_ind'. rewrite Forall_forall in IH.
  rewrite !is_tree_Br. intros [(n & Hn & Hc) Hts]. split; [|eauto].
  destruct (frames_lookup _ _ _ _ _ _ Hf Hn) as (n' & Hn' & HRn & _).
  exists n'. by rewrite (HR _ _ HRn).
Qed.

Lemma is_tree_ext h h' t : (∀ q, q ∈ ptrs t → h' !! q = h !! q) →
  is_tree h t → is_tree h' t.
Proof.
  induction t as [p ts IH] using tree_ind'. rewrite Forall_forall in IH.
  rewrite !is_tree_Br. intros Hext [(n & Hn & Hc) Hts].
  setoid_rewrite elem_of_ptrs_Br in Hext. split; [|intros t Ht; apply IH; eauto].
  exists n. rewrite Hext by eauto. done.
Qed.

(** A loop over the branches of [p] that has visited [done] has not touched the
    branches still to come nor [p] itself, ... *)
Lemma frames_untouched R p done rest h h1 q :
  NoDup (ptrs (Br p (done ++ rest))) → frames (concat (ptrs <$> done)) R h h1 →
  q = p ∨ (∃ t, t ∈ rest ∧ q ∈ ptrs t) → h1 !! q = h !! q.
Proof.
  rewrite ptrs_Br, NoDup_cons, fmap_app, concat_app, NoDup_app.
  intros (Hp & _ & Hd & _) Hf Hq. apply (frames_outside _ _ _ _ _ Hf). intros Hqd.
  destruct Hq as [->|(t & Ht & Hqt)]; [set_solver|].
  apply (Hd q Hqd). apply concat_ptrs_elem. eauto.
Qed.

(** ... and visiting the next branch [t] leaves the visited ones alone. *)
Lemma frames_branch_step R `{!Transitive R} p done t rest h h1 h2 :
  NoDup (ptrs (Br p (done ++ t :: rest))) →
  frames (concat (ptrs <$> done)) R h h1 → frames (ptrs t) R h1 h2 →
  frames (concat (ptrs <$> (done ++ [t]))) R h h2 ∧
  ∀ t' q, t' ∈ done → q ∈ ptrs t' → h2 !! q = h1 !! q.
Proof.
  intros [_ Hnd]%NoDup_ptrs_Br Hf1 Hf2. split.
  - rewrite fmap_app, concat_app. csimpl. rewrite app_nil_r.
    eapply frames_trans; [done| |]; (eapply frames_weaken; [|eassumption]); set_solver.
  - intros t' q Ht' Hq. apply (frames_outside _ _ _ _ _ Hf2). intros Hqt.
    by eapply (NoDup_concat_disjoint done t rest q); eauto.
Qed.

(** The two node relations of the head computation. *)
Definition eq_but_weight (n n' : Node) : Prop := n' = set_weight n (n_weight n').
Definition eq_but_best (n n' : Node) : Prop := n' = set_bestDescendant n (n_bestDescendant n').
#[export] Instance eq_but_weight_refl : Reflexive eq_but_weight.
Proof. by intros []. Qed.
#[export] Instance eq_but_weight_trans : Transitive eq_but_weight.
Proof. unfold eq_but_weight. by intros [] y z -> ->. Qed.
#[export] Instance eq_but_best_refl : Reflexive eq_but_best.
Proof. by intros []. Qed.
#[export] Instance eq_but_best_trans : Transitive eq_but_best.
Proof. unfold eq_but_best. by intros [] y z -> ->. Qed.

Lemma eq_but_weight_children n n' : eq_but_weight n n' → n_children n' = n_children n.
Proof. by intros ->. Qed.
Lemma eq_but_best_children n n' : eq_but_best n n' → n_children n' = n_children n.
Proof. by intros ->. Qed.
Create HintDb tree.
#[export] Hint Resolve eq_but_weight_children eq_but_best_children rootp_in
  subtrees_self is_tree_subtree NoDup_ptrs_subtree ptrs_subtree rootp_subtree : tree.

(** ** Running memory operations *)
Lemma run_deref p s n : s_heap s !! p = Some n → deref p s = (Ok n, s).
Proof. unfold deref. by intros ->. Qed.
Lemma run_modNode p f s n : s_heap s !! p = Some n →
  modNode p f s = (Ok tt, upd_heap s (<[p := f n]> (s_heap s))).
Proof. unfold modNode. by intros ->. Qed.
Lemma run_ctxErr s : s_ctx s = None → ctxErr s = (Ok tt, s).
Proof. unfold ctxErr. by intros ->. Qed.
Lemma upd_heap_heap s h : s_heap (upd_heap s h) = h.
Proof. done. Qed.
Lemma upd_heap_idem s h h' : upd_heap (upd_heap s h) h' = upd_heap s h'.
Proof. done. Qed.
Lemma upd_heap_self s : upd_heap s (s_heap s) = s.
Proof. by destruct s. Qed.

(** One successful step of a monadic program. *)
Ltac mstep :=
  first [ erewrite M_bind_Ok;
          [|first [ eassumption | by apply run_deref | by apply run_modNode
                  | by apply run_ctxErr | reflexivity ]]
        | rewrite run_ctxErr by done ].

(** ** Parent pointers *)
Fixpoint parents_ok (h : heap) (par : option ptr) (t : tree) : Prop :=
  match t with
  | Br p ts => (∃ n, h !! p = Some n ∧ n_parent n = par) ∧
               foldr and True (map (parents_ok h (Some p)) ts)
  end.

Lemma parents_ok_Br h par p ts :
  parents_ok h par (Br p ts) ↔
  (∃ n, h !! p = Some n ∧ n_parent n = par) ∧ ∀ t, t ∈ ts → parents_ok h (Some p) t.
Proof.
  simpl. apply and_iff_compat_l. induction ts as [|t ts IH]; simpl; [set_solver|].
  rewrite IH. setoid_rewrite elem_of_cons. naive_solver.
Qed.

#[global] Arguments parents_ok : simpl never.

(** A chain from [p]: [p], its parent, and so on up to a node without parent. *)
Inductive chain (h : heap) : ptr → list ptr → Prop :=
  | chain_root p n : h !! p = Some n → n_parent n = None → chain h p [p]
  | chain_up p n pp l :
      h !! p = Some n → n_parent n = Some pp → chain h pp l → chain h p (p :: l).

(** [q] is [p] or one of its ancestors in [t]. *)
Definition ancestor (t : tree) (q p : ptr) : Prop :=
  ∃ x, x ∈ subtrees t ∧ rootp x = q ∧ p ∈ ptrs x.

Lemma ancestor_Br p0 ts q p :
  ancestor (Br p0 ts) q p ↔
  (q = p0 ∧ p ∈ ptrs (Br p0 ts)) ∨ ∃ t, t ∈ ts ∧ p ∈ ptrs t ∧ ancestor t q p.
Proof.
  unfold ancestor. setoid_rewrite elem_of_subtrees_Br. split.
  - intros (x & [->|(t & Ht & Hx)] & Hq & Hp); [left; eauto|].
    right. exists t. split_and!; [done|by eapply ptrs_subtree|by exists x].
  - intros [[-> Hp]|(t & Ht & Hp & x & Hx & Hq & Hpx)]; eauto 10.
Qed.

Lemma chain_of_parents h par t p lp : parents_ok h par t → NoDup (ptrs t) → p ∈ ptrs t →
  match par with None => lp = [] | Some pp => chain h pp lp end →
  ∃ l, chain h p (l ++ lp) ∧ (length l ≤ height t)%nat ∧ ∀ q, q ∈ l ↔ ancestor t q p.
Proof.
  revert par lp. induction t as [p0 ts IH] using tree_ind'. rewrite Forall_forall in IH.
  intros par lp Ht Hnd Hp Hlp. pose proof (λ q, ancestor_Br p0 ts q p) as Hanc.
  apply parents_ok_Br in Ht as [(n & Hn & Hpar) Hts].
  assert (chain h p0 (p0 :: lp)) as H0.
  { destruct par; [by eapply chain_up|subst lp; by eapply chain_root]. }
  pose proof Hp as Hp'. apply elem_of_ptrs_Br in Hp' as [->|(t & Hin & Hpt)].
  - exists [p0]. split_and!; [done|simpl; lia|]. intros q. rewrite Hanc, list_elem_of_singleton.
    split; [by auto|]. intros [[? _]|(t & Hin & Hpt & _)]; [done|].
    apply NoDup_ptrs_Br in Hnd as [Hnd _]. by destruct (Hnd t).
  - apply NoDup_ptrs_Br in Hnd as [Hnp Hnd].
    destruct (IH t Hin (Some p0) (p0 :: lp)) as (l & Hl & Hlen & Hiff);
      [auto|by eapply NoDup_concat_elem|done|done|].
    exists (l ++ [p0]). rewrite <-app_assoc. split_and!; [done| |].
    + rewrite length_app. simpl. pose proof (height_branch p0 ts t Hin). simpl in *. lia.
    + intros q. rewrite elem_of_app, list_elem_of_singleton, Hiff, Hanc.
      split; [intros [?| ->]; [right; eauto|by left]|].
      intros [[-> _]|(t' & Hin' & Hpt' & Ha)]; [by right|left].
      enough (t' = t) as -> by done.
      apply list_elem_of_split in Hin as (done & rest & ->).
      apply elem_of_app in Hin' as [?|[?|?]%elem_of_cons]; [|done|];
        destruct (NoDup_concat_disjoint done t rest p Hnd Hpt t'); auto.
Qed.

Lemma chain_fun h p l l' : chain h p l → chain h p l' → l = l'.
Proof.
  intros H. revert l'. induction H as [p n Hn Hp|p n pp l Hn Hp _ IH]; intros l' H';
    inversion H'; simplify_eq; [done|]. f_equal. auto.
Qed.

Lemma chain_head h p l : chain h p l → ∃ l', l = p :: l'.
Proof. inversion 1; eauto. Qed.

Definition same_parent (n n' : Node) : Prop := n_parent n' = n_parent n.
#[export] Instance same_parent_refl : Reflexive same_parent.
Proof. done. Qed.

(** Changes that keep root, parent and children of every node. *)
Definition keeps_links (R : relation Node) : Prop := ∀ n n', R n n' →
  n_children n' = n_children n ∧ n_parent n' = n_parent n ∧ n_root n' = n_root n.

Lemma parents_ok_frames l R h h' par t : (∀ n n', R n n' → n_parent n' = n_parent n) →
  frames l R h h' → parents_ok h par t → parents_ok h' par t.
Proof.
  intros HR Hf. revert par. induction t as [p ts IH] using tree_ind'. rewrite Forall_forall in IH.
  intros par. rewrite !parents_ok_Br. intros [(n & Hn & Hp) Hts]. split; [|eauto].
  destruct (frames_lookup _ _ _ _ _ _ Hf Hn) as (n' & Hn' & HRn & _).
  exists n'. by rewrite (HR _ _ HRn).
Qed.

Lemma parents_ok_ext h h' par t : (∀ q, q ∈ ptrs t → h' !! q = h !! q) →
  parents_ok h par t → parents_ok h' par t.
Proof.
  revert par. induction t as [p ts IH] using tree_ind'. rewrite Forall_forall in IH.
  intros par. rewrite !parents_ok_Br. intros Hext [(n & Hn & Hc) Hts].
  setoid_rewrite elem_of_ptrs_Br in Hext. split; [|intros t Ht; apply IH; eauto].
  exists n. rewrite Hext by eauto. done.
Qed.

(** ** Well-formed stores

    The tree rooted at [treeRootNode] is [t], the parent pointers mirror the
    children, and [nodeByRoot] indexes exactly the nodes of [t] by their root. *)
Record wf (s : Store) (t : tree) : Prop := {
  wf_root : s_treeRootNode s = Some (rootp t);
  wf_tree : is_tree (s_heap s) t;
  wf_nodup : NoDup (ptrs t);
  wf_parents : parents_ok (s_heap s) None t;
  wf_index : ∀ r p, s_nodeByRoot s !! r = Some p ↔
    p ∈ ptrs t ∧ ∃ n, s_heap s !! p = Some n ∧ n_root n = r;
  wf_fresh : ∀ p, is_Some (s_heap s !! p) → (p < s_next s)%positive;
}.

Lemma wf_chain s t p : wf s t → p ∈ ptrs t →
  ∃ l, chain (s_heap s) p l ∧ (length l < fuelOf s)%nat ∧ ∀ q, q ∈ l ↔ ancestor t q p.
Proof.
  intros Hwf Hp. destruct (chain_of_parents (s_heap s) None t p []) as (l & Hl & Hlen & Hiff);
    [apply Hwf|apply Hwf|done|done|]. rewrite app_nil_r in Hl. exists l. split_and!; try done.
  eapply Nat.le_lt_trans; [done|]. apply height_fuel; apply Hwf.
Qed.

Lemma wf_frames s t l R h' : keeps_links R → wf s t → frames l R (s_heap s) h' →
  wf (upd_heap s h') t.
Proof.
  intros HR [Hroot Htree Hnd Hpar Hidx Hfresh] Hf. split; simpl; try done.
  - apply (is_tree_frames l R (s_heap s)); [|done|done]. intros n n' Hn. by apply HR in Hn as (? & ? & ?).
  - apply (parents_ok_frames l R (s_heap s)); [|done|done]. intros n n' Hn. by apply HR in Hn as (? & ? & ?).
  - intros r p. rewrite Hidx. apply and_iff_compat_l. specialize (Hf p).
    destruct (s_heap s !! p) as [n|], (h' !! p) as [n'|]; try done.
    destruct Hf as [(_ & _ & Hr)%HR _]. naive_solver congruence.
  - intros p Hp. apply Hfresh. specialize (Hf p). destruct (s_heap s !! p); [done|].
    destruct (h' !! p); [done|]. by destruct Hp.
Qed.

Lemma keeps_links_weight : keeps_links eq_but_weight.
Proof. by intros n n' ->. Qed.
Lemma keeps_links_best : keeps_links eq_but_best.
Proof. by intros n n' ->. Qed.
#[export] Hint Resolve keeps_links_weight keeps_links_best : tree.

Lemma wf_lookup s t p : wf s t → p ∈ ptrs t → ∃ n, s_heap s !! p = Some n.
Proof. intros Hwf Hp. by destruct (is_tree_lookup _ _ _ (wf_tree _ _ Hwf) Hp) as [n ?]; eauto. Qed.

(** ** Surgery

    [graft q ts' t] is [t] with the branches of the node [q] replaced. *)
Fixpoint graft (q : ptr) (ts' : list tree) (t : tree) : tree :=
  match t with
  | Br p ts => if bool_decide (p = q) then Br p ts' else Br p (map (graft q ts') ts)
  end.

Lemma rootp_graft q ts' t : rootp (graft q ts' t) = rootp t.
Proof. destruct t. simpl. by case_bool_decide. Qed.

Lemma rootp_map_graft q ts' ts : rootp <$> map (graft q ts') ts = rootp <$> ts.
Proof. induction ts; csimpl; [done|]. by rewrite rootp_graft, IHts. Qed.

Lemma graft_notin q ts' t : q ∉ ptrs t → graft q ts' t = t.
Proof.
  induction t as [p ts IH] using tree_ind'. rewrite elem_of_ptrs_Br. intros Hq. simpl.
  rewrite bool_decide_false by naive_solver. f_equal. rewrite <-(map_id ts) at 2.
  rewrite Forall_forall in IH. apply map_ext_in. intros t Ht%list_elem_of_In. apply IH; naive_solver.
Qed.

Lemma map_graft_notin q ts' ts : (∀ t, t ∈ ts → q ∉ ptrs t) → map (graft q ts') ts = ts.
Proof.
  intros Hq. rewrite <-(map_id ts) at 2. apply map_ext_in. intros t Ht%list_elem_of_In.
  by apply graft_notin, Hq.
Qed.

(** Below [p], a node [q] other than [p] is in exactly one branch. *)
Lemma graft_split p ts q ts' t : NoDup (ptrs (Br p ts)) → t ∈ ts → q ∈ ptrs t →
  ∃ done rest, ts = done ++ t :: rest ∧
    graft q ts' (Br p ts) = Br p (done ++ graft q ts' t :: rest).
Proof.
  rewrite NoDup_ptrs_Br. intros [Hp Hnd] Hin Hq.
  assert (p ≠ q) by (intros ->; by apply (Hp t)).
  apply list_elem_of_split in Hin as (done & rest & ->). exists done, rest. split; [done|].
  simpl. rewrite bool_decide_false by done. rewrite map_app. simpl.
  rewrite !map_graft_notin; [done| |]; intros t' Ht';
    apply (NoDup_concat_disjoint done t rest q Hnd Hq); auto.
Qed.

Lemma subtrees_of_root x p ts : x ∈ subtrees (Br p ts) → NoDup (ptrs (Br p ts)) →
  (x = Br p ts) ∨ ∃ t, t ∈ ts ∧ x ∈ subtrees t ∧ rootp x ∈ ptrs t ∧ rootp x ≠ p.
Proof.
  rewrite elem_of_subtrees_Br, NoDup_ptrs_Br. intros [->|(t & Ht & Hx)] [Hp _]; [by left|right].
  exists t. split_and!; eauto with tree. intros Heq. apply (Hp t Ht). rewrite <-Heq.
  eauto with tree.
Qed.

Lemma ptrs_graft t y ts' : NoDup (ptrs t) → y ∈ subtrees t →
  ptrs (graft (rootp y) ts' t) ++ concat (ptrs <$> branches y)
    ≡ₚ ptrs t ++ concat (ptrs <$> ts').
Proof.
  induction t as [p ts IH] using tree_ind'. rewrite Forall_forall in IH. intros Hnd Hy.
  destruct (subtrees_of_root _ _ _ Hy Hnd) as [->|(t & Ht & Hyt & Hq & Hne)].
  - cbn [graft rootp branches]. rewrite bool_decide_true by done. rewrite !ptrs_Br, <-!app_comm_cons.
    apply Permutation_skip. apply Permutation_app_comm.
  - destruct (graft_split p ts (rootp y) ts' t Hnd Ht Hq) as (done & rest & Hts & ->).
    apply NoDup_ptrs_Br in Hnd as [_ Hnd]. specialize (IH t Ht (NoDup_concat_elem _ _ Hnd Ht) Hyt).
    subst ts. rewrite !ptrs_Br, !fmap_app, !concat_app. csimpl. apply Permutation_skip.
    rewrite <-!app_assoc. apply Permutation_app_head.
    rewrite (Permutation_app_comm (concat (ptrs <$> rest))), app_assoc, IH.
    rewrite <-app_assoc. apply Permutation_app_head. apply Permutation_app_comm.
Qed.

Lemma graft_branch t y ts' z : NoDup (ptrs t) → y ∈ subtrees t → z ∈ ts' →
  z ∈ subtrees (graft (rootp y) ts' t).
Proof.
  induction t as [p ts IH] using tree_ind'. rewrite Forall_forall in IH. intros Hnd Hy Hz.
  destruct (subtrees_of_root _ _ _ Hy Hnd) as [->|(t & Ht & Hyt & Hq & Hne)].
  - cbn [graft rootp]. rewrite bool_decide_true by done. apply elem_of_subtrees_Br. right.
    exists z. auto using subtrees_self.
  - destruct (graft_split p ts (rootp y) ts' t Hnd Ht Hq) as (done & rest & Hts & ->).
    apply NoDup_ptrs_Br in Hnd as [_ Hnd]. apply elem_of_subtrees_Br. right.
    exists (graft (rootp y) ts' t). split; [set_solver|]. apply IH; [done|by eapply NoDup_concat_elem|done..].
Qed.

Lemma is_tree_graft h t q n ts' : NoDup (ptrs t) → is_tree h t → q ∈ ptrs t →
  h !! q = Some n → (∀ t', t' ∈ ts' → is_tree h t' ∧ q ∉ ptrs t') →
  is_tree (<[q := set_children n (rootp <$> ts')]> h) (graft q ts' t).
Proof.
  set (h' := <[q := _]> h). intros Hnd Ht Hq Hn Hts'.
  assert (∀ t', q ∉ ptrs t' → is_tree h t' → is_tree h' t') as Hext.
  { intros t' Hq' Ht'. eapply is_tree_ext; [|done]. intros q' ?. apply lookup_insert_ne. set_solver. }
  induction t as [p ts IH] using tree_ind'. rewrite Forall_forall in IH.
  apply is_tree_Br in Ht as [(np & Hnp & Hc) Hts].
  apply elem_of_ptrs_Br in Hq as [->|(t & Hin & Hqt)].
  - simpl. rewrite bool_decide_true by done. apply is_tree_Br. split; [|naive_solver].
    exists (set_children n (rootp <$> ts')). split; [apply lookup_insert_eq|done].
  - pose proof Hnd as [Hp Hnd']%NoDup_ptrs_Br.
    destruct (graft_split p ts q ts' t Hnd Hin Hqt) as (done & rest & Heq & ->). subst ts.
    apply is_tree_Br. split.
    + exists np. split; [rewrite <-Hnp; apply lookup_insert_ne; intros ->; by apply (Hp t)|].
      rewrite Hc, !fmap_app. csimpl. by rewrite rootp_graft.
    + intros t' [Ht'|[->|Ht']%elem_of_cons]%elem_of_app.
      * apply Hext; [|apply Hts; set_solver]. apply (NoDup_concat_disjoint done t rest q Hnd' Hqt). auto.
      * apply IH; [done|by eapply NoDup_concat_elem|auto|done].
      * apply Hext; [|apply Hts; set_solver]. apply (NoDup_concat_disjoint done t rest q Hnd' Hqt). auto.
Qed.

Lemma parents_ok_graft h t par q ts' : NoDup (ptrs t) → parents_ok h par t → q ∈ ptrs t →
  (∀ t', t' ∈ ts' → parents_ok h (Some q) t') → parents_ok h par (graft q ts' t).
Proof.
  revert par. induction t as [p ts IH] using tree_ind'. rewrite Forall_forall in IH.
  intros par Hnd [Hn Hts]%parents_ok_Br Hq Hts'.
  apply elem_of_ptrs_Br in Hq as [->|(t & Hin & Hqt)].
  - simpl. rewrite bool_decide_true by done. by apply parents_ok_Br.
  - pose proof Hnd as [Hp Hnd']%NoDup_ptrs_Br.
    destruct (graft_split p ts q ts' t Hnd Hin Hqt) as (done & rest & Heq & ->). subst ts.
    apply parents_ok_Br. split; [done|]. intros t' [Ht'|[->|Ht']%elem_of_cons]%elem_of_app.
    + apply Hts. set_solver.
    + apply IH; [done|by eapply NoDup_concat_elem|auto|done|done].
    + apply Hts. set_solver.
Qed.

(** The subtree of a node other than the root hangs below its parent. *)
Lemma parent_of_subtree h par t x n : parents_ok h par t → x ∈ subtrees t →
  h !! rootp x = Some n →
  x = t ∨ ∃ y, y ∈ subtrees t ∧ x ∈ branches y ∧ n_parent n = Some (rootp y).
Proof.
  revert par. induction t as [p ts IH] using tree_ind'. rewrite Forall_forall in IH.
  intros par [_ Hts]%parents_ok_Br Hx Hn.
  apply elem_of_subtrees_Br in Hx as [->|(t & Ht & Hx)]; [by left|right].
  destruct (IH t Ht _ (Hts t Ht) Hx Hn) as [->|(y & Hy & Hxy & Hpar)].
  - exists (Br p ts). split_and!; [apply subtrees_self|done|].
    specialize (Hts t Ht). destruct t. apply parents_ok_Br in Hts as [(n' & ? & ?) _]. by simplify_eq/=.
  - exists y. split_and!; try done. apply elem_of_subtrees_Br. eauto.
Qed.

Lemma parents_ok_sub h par t x : parents_ok h par t → x ∈ subtrees t →
  ∃ par', parents_ok h par' x.
Proof.
  revert par. induction t as [p ts IH] using tree_ind'. rewrite Forall_forall in IH.
  intros par Hpar. rewrite elem_of_subtrees_Br. intros [->|(t & Ht & Hx)]; [eauto|].
  apply parents_ok_Br in Hpar as [_ Hts]. eauto.
Qed.

Lemma parents_ok_branch h par y x : parents_ok h par y → x ∈ branches y →
  parents_ok h (Some (rootp y)) x.
Proof. destruct y. rewrite parents_ok_Br. naive_solver. Qed.
