(* ===== verification/ForkNode.v ===== *)
(** * node.go: operations on a node and its subtree

    Recursive methods take a [fuel] argument (see [fuelOf]); the theorems of
    ForkNodeFacts show that the fuel the callers pass is enough. *)
From S2P Require Import Prelude MathHelper Primitives Config SlotTime ForkTypes.

(** [ProcessAttestationsThreshold = 10 * time.Second] *)
Definition ProcessAttestationsThreshold : Z := 10 * Second.

Section node.
Context `{cfg : BeaconChainConfig}.

Fixpoint applyWeightChanges (fuel : nat) (n : ptr) : MS unit :=
  match fuel with
  | O => mstuck
  | S fuel' =>
      nd ← deref n;
      childrenWeight ← mfold (n_children nd) 0 (λ childrenWeight child,
        ctxErr;;
        applyWeightChanges fuel' child;;
        c ← deref child;
        mret (childrenWeight +64 n_weight c));
      nd ← deref n;
      if n_root nd =? ZeroHash then mret tt
      else modNode n (λ nd, set_weight nd (n_balance nd +64 childrenWeight))
  end.

Definition viableForHead (n : Node) (justifiedEpoch currentEpoch : Z) : bool :=
  if justifiedEpoch =? 0 then true
  else (n_justifiedEpoch n =? justifiedEpoch) || (n_justifiedEpoch n +64 2 >=? currentEpoch).

Definition leadsToViableHead (n : ptr) (justifiedEpoch currentEpoch : Z) : MS bool :=
  nd ← deref n;
  match n_bestDescendant nd with
  | None => mret (viableForHead nd justifiedEpoch currentEpoch)
  | Some b => bd ← deref b; mret (viableForHead bd justifiedEpoch currentEpoch)
  end.

(** The local variables [bestChild], [bestWeight] and [hasViableDescendant]. *)
Record bestVars := mkBest { bestChild : option ptr; bestWeight : Z; hasViable : bool }.

(** The body of the loop of [updateBestDescendant] after the recursive call. *)
Definition considerChild (v : bestVars) (child : ptr) (justifiedEpoch currentEpoch : Z)
    : MS bestVars :=
  childLeadsToViableHead ← leadsToViableHead child justifiedEpoch currentEpoch;
  c ← deref child;
  if childLeadsToViableHead && negb (hasViable v) then
    mret (mkBest (Some child) (n_weight c) true)
  else if childLeadsToViableHead then
    if n_weight c =? bestWeight v then
      b ← deref' (bestChild v);
      if n_root c >? n_root b
      then mret (mkBest (Some child) (bestWeight v) (hasViable v))
      else mret v
    else if n_weight c >? bestWeight v then
      mret (mkBest (Some child) (n_weight c) (hasViable v))
    else mret v
  else mret v.

Fixpoint updateBestDescendant (fuel : nat) (n : ptr)
    (justifiedEpoch finalizedEpoch currentEpoch : Z) : MS unit :=
  match fuel with
  | O => mstuck
  | S fuel' =>
      ctxErr;;
      nd ← deref n;
      if (length (n_children nd) =? 0)%nat then modNode n (λ nd, set_bestDescendant nd None)
      else
        v ← mfold (n_children nd) (mkBest None 0 false) (λ v child,
          updateBestDescendant fuel' child justifiedEpoch finalizedEpoch currentEpoch;;
          considerChild v child justifiedEpoch currentEpoch);
        if hasViable v then
          b ← deref' (bestChild v);
          match n_bestDescendant b with
          | None => modNode n (λ nd, set_bestDescendant nd (bestChild v))
          | Some bd => modNode n (λ nd, set_bestDescendant nd (Some bd))
          end
        else modNode n (λ nd, set_bestDescendant nd None)
  end.

Fixpoint setNodeAndParentValidated (fuel : nat) (n : ptr) : MS unit :=
  match fuel with
  | O => mstuck
  | S fuel' =>
      ctxErr;;
      nd ← deref n;
      if negb (n_optimistic nd) then mret tt
      else
        modNode n (λ nd, set_optimistic nd false);;
        match n_parent nd with
        | None => mret tt
        | Some p => setNodeAndParentValidated fuel' p
        end
  end.

(** [SinceSlotStart] and the deadline are both evaluated before the error of the
    former is returned to the caller. *)
Definition arrivedEarly (n : Node) (genesis : Z) : gores bool :=
  let sss := SinceSlotStart (n_slot n) genesis (truncateSecond (n_timestamp n)) in
  match sss with
  | Panic => Panic
  | OutOfFuel => OutOfFuel
  | _ =>
      votingWindow ← AttestationDueAt (n_slot n);
      s ← sss;
      Ok (s <? votingWindow)
  end.

Definition arrivedAfterOrphanCheck (n : Node) (genesis : Z) : gores bool :=
  secs ← SinceSlotStart (n_slot n) genesis (truncateSecond (n_timestamp n));
  Ok (secs >=? ProcessAttestationsThreshold).

(** consensus-types/forkchoice: an entry of the dump; [d_valid] is [Validity]. *)
Record DumpNode := mkDump {
  d_slot : Z; d_blockRoot : Z; d_parentRoot : Z;
  d_justifiedEpoch : Z; d_finalizedEpoch : Z;
  d_unrealizedJustifiedEpoch : Z; d_unrealizedFinalizedEpoch : Z;
  d_balance : Z; d_weight : Z; d_executionOptimistic : bool;
  d_executionBlockHash : Z; d_timestamp : Z; d_target : Z; d_valid : bool;
}.

Fixpoint nodeTreeDump (fuel : nat) (n : ptr) (nodes : list DumpNode) : MS (list DumpNode) :=
  match fuel with
  | O => mstuck
  | S fuel' =>
      ctxErr;;
      nd ← deref n;
      parentRoot ← match n_parent nd with
                   | Some p => pn ← deref p; mret (n_root pn)
                   | None => mret 0
                   end;
      target ← match n_target nd with
               | Some t => tn ← deref t; mret (n_root tn)
               | None => mret 0
               end;
      let thisNode := mkDump (n_slot nd) (n_root nd) parentRoot (n_justifiedEpoch nd)
        (n_finalizedEpoch nd) (n_unrealizedJustifiedEpoch nd) (n_unrealizedFinalizedEpoch nd)
        (n_balance nd) (n_weight nd) (n_optimistic nd) (n_payloadHash nd) (n_timestamp nd)
        target (negb (n_optimistic nd)) in
      mfold (n_children nd) (nodes ++ [thisNode]) (λ nodes child, nodeTreeDump fuel' child nodes)
  end.

End node.
