(* ===== verification/ForkNodeFacts.v ===== *)
(** * node.go: what the traversals of the tree compute

    [applyWeightChanges] sums the balances of every subtree; [updateBestDescendant]
    picks, from every node, the head of the heaviest viable branch.  Both succeed
    with the fuel their callers pass and change nothing else. *)
From S2P Require Import Prelude Config SlotTime ForkTypes ForkTree ForkNode.

(** ** Weights *)

Definition weight_of (h : heap) (p : ptr) : Z :=
  match h !! p with Some n => n_weight n | None => 0 end.

(** The weight the code gives to the root of [t]: its balance plus the weights of
    its children, modulo 2^64, a node with the zero root keeping its weight. *)
Fixpoint subtree_weight (h : heap) (t : tree) : Z :=
  match t with
  | Br p ts =>
      match h !! p with
      | Some n => if n_root n =? ZeroHash then n_weight n
                  else n_balance n +64 sumZ (map (subtree_weight h) ts)
      | None => 0
      end
  end.

Lemma subtree_weight_ext h h' t : (∀ q, q ∈ ptrs t → h' !! q = h !! q) →
  subtree_weight h' t = subtree_weight h t.
Proof.
  induction t as [p ts IH] using tree_ind'. intros Hext.
  setoid_rewrite elem_of_ptrs_Br in Hext. simpl. rewrite Hext by eauto.
  destruct (h !! p) as [n|]; [|done]. destruct (n_root n =? ZeroHash); [done|].
  do 3 f_equal. apply map_ext_in. intros t Ht%list_elem_of_In.
  rewrite Forall_forall in IH. apply IH; eauto.
Qed.

(** After the traversal of [t] every subtree root has its subtree's weight. *)
Definition weighed (h h' : heap) (t : tree) : Prop :=
  ∀ x, x ∈ subtrees t → weight_of h' (rootp x) = subtree_weight h x.

Lemma weighed_ext h h' h1 h1' t :
  (∀ q, q ∈ ptrs t → h1 !! q = h !! q) → (∀ q, q ∈ ptrs t → h1' !! q = h' !! q) →
  weighed h1 h' t → weighed h h1' t.
Proof.
  intros H1 H2 Hw x Hx. unfold weight_of. rewrite H2 by eauto with tree.
  fold (weight_of h' (rootp x)). rewrite (Hw x Hx). apply subtree_weight_ext.
  intros q Hq. apply H1. eauto with tree.
Qed.

Lemma weighed_Br h h' p ts :
  weight_of h' p = subtree_weight h (Br p ts) → (∀ t, t ∈ ts → weighed h h' t) →
  weighed h h' (Br p ts).
Proof. intros Hp Hts x. rewrite elem_of_subtrees_Br. intros [->|(t & Ht & Hx)]; [done|]. by apply (Hts t). Qed.

Section weights.

(** The state of the loop of [applyWeightChanges] after the branches [done]. *)
Definition weights_inv (s : Store) (p : ptr) (done : list tree) (acc : Z) (s1 : Store) : Prop :=
  ∃ h1, s1 = upd_heap s h1 ∧
    frames (concat (ptrs <$> done)) eq_but_weight (s_heap s) h1 ∧
    acc = u64 (sumZ (map (subtree_weight (s_heap s)) done)) ∧
    ∀ t, t ∈ done → weighed (s_heap s) h1 t.

Lemma applyWeightChanges_spec fuel t s :
  is_tree (s_heap s) t → NoDup (ptrs t) → (height t ≤ fuel)%nat → s_ctx s = None →
  ∃ h', applyWeightChanges fuel (rootp t) s = (Ok tt, upd_heap s h') ∧
    frames (ptrs t) eq_but_weight (s_heap s) h' ∧ weighed (s_heap s) h' t.
Proof.
  revert fuel s. induction t as [p ts IH] using tree_ind'. rewrite Forall_forall in IH.
  intros [|fuel] s Ht Hnd Hfuel Hctx; [simpl in Hfuel; lia|].
  pose proof Ht as Ht0. rewrite is_tree_Br in Ht.
  destruct Ht as [(n & Hn & Hc) Hts]. simpl. mstep. rewrite Hc.
  mloop (weights_inv s p) as (acc & s1 & Hrun & h1 & -> & Hf & -> & Hw); cycle 1.
  { exists (s_heap s). rewrite upd_heap_self. split_and!; auto; [apply frames_refl; apply _|set_solver]. }
  { intros done t rest acc s1 Hdec (h1 & -> & Hf & -> & Hw).
    assert (t ∈ ts) as Hin by (subst; set_solver).
    assert (∀ q, q ∈ ptrs t → h1 !! q = s_heap s !! q) as Hh1.
    { intros q Hq. subst ts. eapply (frames_untouched _ p done (t :: rest)); eauto.
      right. exists t. set_solver. }
    destruct (IH t Hin fuel (upd_heap s h1)) as (h2 & Hrun2 & Hf2 & Hw2); try done.
    { eapply is_tree_ext; [apply Hh1|eauto]. }
    { apply NoDup_ptrs_Br in Hnd as [_ Hnd]. by eapply NoDup_concat_elem. }
    { pose proof (height_branch p ts t Hin). lia. }
    simpl in Hf2, Hw2. mstep. mstep.
    destruct (is_tree_lookup (s_heap s) t (rootp t)) as [c Hc0]; [eauto|apply rootp_in|].
    rewrite <-Hh1 in Hc0 by apply rootp_in.
    destruct (frames_lookup _ _ _ _ _ _ Hf2 Hc0) as (c' & Hc' & _ & _). mstep.
    assert (n_weight c' = subtree_weight (s_heap s) t) as Hcw.
    { specialize (Hw2 t (subtrees_self t)). unfold weight_of in Hw2. rewrite Hc' in Hw2.
      rewrite Hw2. by apply subtree_weight_ext. }
    subst ts. destruct (frames_branch_step _ p done t rest _ _ _ Hnd Hf Hf2) as [Hf3 Hkeep].
    eexists _, _. split; [done|]. exists h2. split_and!; [done|done| |].
    - rewrite Hcw, map_app, sumZ_app. simpl. autorewrite with u64. f_equal. lia.
    - intros t' [Ht'|Ht'%list_elem_of_singleton]%elem_of_app.
      + apply (weighed_ext (s_heap s) h1 (s_heap s)); eauto.
      + subst t'. apply (weighed_ext _ h2 h1); [done|done|]. done. }
  erewrite M_bind_Ok by exact Hrun.
  assert (h1 !! p = Some n) as Hp1.
  { rewrite <-Hn. eapply (frames_untouched _ p ts []); eauto. by rewrite app_nil_r. }
  assert (concat (ptrs <$> ts) ⊆ ptrs (Br p ts)) as Hsub by (rewrite ptrs_Br; set_solver).
  apply (frames_weaken _ (ptrs (Br p ts))) in Hf; [|done].
  mstep. destruct (n_root n =? ZeroHash) eqn:Hz.
  - exists h1. split_and!; [done|done|]. apply weighed_Br; [|done].
    unfold weight_of. simpl. by rewrite Hp1, Hn, Hz.
  - rewrite (run_modNode p _ _ n) by done. eexists. split; [by rewrite upd_heap_idem|].
    split; [eapply frames_trans; [apply _|done|]; eapply frames_insert; [apply _|apply (rootp_in (Br p ts))|done|done]
           |apply weighed_Br].
    + unfold weight_of. rewrite lookup_insert_eq. simpl. rewrite Hn, Hz.
      by autorewrite with u64.
    + intros t Ht. apply (weighed_ext (s_heap s) h1 (s_heap s)); [done| |auto].
      intros q Hq. apply lookup_insert_ne. intros ->.
      apply NoDup_ptrs_Br in Hnd as [Hp _]. by apply (Hp t).
Qed.

End weights.

(** ** Best descendants *)
Section best.
Context (justifiedEpoch currentEpoch : Z).

(** [p] is a node the voting rules allow as head. *)
Definition viable (h : heap) (p : ptr) : bool :=
  match h !! p with Some n => viableForHead n justifiedEpoch currentEpoch | None => false end.

Fixpoint has_viable (h : heap) (t : tree) : bool :=
  match t with Br p ts => viable h p || existsb id (map (has_viable h) ts) end.

Definition root_of (h : heap) (p : ptr) : Z :=
  match h !! p with Some n => n_root n | None => 0 end.

(** The order in which branches compete: by weight, ties broken by root. *)
Definition lighter (h : heap) (t t' : tree) : Prop :=
  weight_of h (rootp t) < weight_of h (rootp t') ∨
  (weight_of h (rootp t) = weight_of h (rootp t') ∧
   root_of h (rootp t) ≤ root_of h (rootp t')).

(** The GHOST rule: from the root of [t] follow, while some branch contains a
    viable node, the heaviest such branch; [q] is where the walk ends. *)
Inductive ghost (h : heap) : tree → ptr → Prop :=
  | ghost_stop p ts :
      (∀ t, t ∈ ts → has_viable h t = false) → ghost h (Br p ts) p
  | ghost_step p ts t q :
      t ∈ ts → has_viable h t = true →
      (∀ t', t' ∈ ts → has_viable h t' = true → lighter h t' t) →
      ghost h t q → ghost h (Br p ts) q.

Lemma has_viable_Br h p ts :
  has_viable h (Br p ts) = true ↔ viable h p = true ∨ ∃ t, t ∈ ts ∧ has_viable h t = true.
Proof.
  simpl. rewrite orb_true_iff, existsb_exists. setoid_rewrite in_map_iff.
  setoid_rewrite <-list_elem_of_In. unfold id. naive_solver.
Qed.

(** Containing a viable node is what [leadsToViableHead] tests: the walk from the
    root of [t] ends in a viable node exactly when [t] has one. *)
Lemma ghost_viable h t q : ghost h t q → viable h q = has_viable h t.
Proof.
  induction 1 as [p ts Hts|p ts t q Ht Hv _ _ IH].
  - destruct (has_viable h (Br p ts)) eqn:E.
    + apply has_viable_Br in E as [?|(t & Ht & Hv)]; [done|]. by rewrite Hts in Hv.
    + apply not_true_iff_false. intros E'. apply not_true_iff_false in E. apply E, has_viable_Br. auto.
  - rewrite IH, Hv. symmetry. apply has_viable_Br. eauto.
Qed.

(** The best-descendant pointers of [t] agree with the walk. *)
Definition best_ok (h : heap) (t : tree) : Prop :=
  ∀ x, x ∈ subtrees t → ∃ n q, h !! rootp x = Some n ∧ ghost h x q ∧
    n_bestDescendant n = (if decide (q = rootp x) then None else Some q).

Lemma has_viable_frames l h h' t : frames l eq_but_best h h' → has_viable h' t = has_viable h t.
Proof.
  intros Hf. induction t as [p ts IH] using tree_ind'. simpl. f_equal.
  - unfold viable. specialize (Hf p). destruct (h !! p), (h' !! p); try done.
    by destruct Hf as [-> _].
  - f_equal. apply map_ext_in. intros t Ht%list_elem_of_In. rewrite Forall_forall in IH. auto.
Qed.

Lemma lighter_frames l h h' t t' : frames l eq_but_best h h' → lighter h t t' → lighter h' t t'.
Proof.
  intros Hf. unfold lighter, weight_of, root_of.
  pose proof (Hf (rootp t)) as Ht. pose proof (Hf (rootp t')) as Ht'.
  destruct (h !! rootp t), (h' !! rootp t), (h !! rootp t'), (h' !! rootp t'); try done.
  all: repeat match goal with H : _ ∧ _ |- _ => destruct H as [-> _] end; done.
Qed.

Lemma frames_best_sym l h h' : frames l eq_but_best h h' → frames l eq_but_best h' h.
Proof.
  intros Hf q. specialize (Hf q). destruct (h !! q) as [[]|], (h' !! q); try done.
  destruct Hf as [-> Hf]. split; [done|]. intros Hq. by rewrite (Hf Hq).
Qed.

Lemma ghost_frames l h h' t q : frames l eq_but_best h h' → ghost h t q → ghost h' t q.
Proof.
  intros Hf. induction 1 as [p ts Hts|p ts t q Ht Hv Hl _ IH].
  - constructor. intros t Ht. rewrite (has_viable_frames _ _ _ _ Hf). auto.
  - econstructor; eauto.
    + by rewrite (has_viable_frames _ _ _ _ Hf).
    + intros t' Ht'. rewrite (has_viable_frames _ _ _ _ Hf). eauto using lighter_frames.
Qed.

Lemma ghost_in h t q : ghost h t q → q ∈ ptrs t.
Proof. induction 1; rewrite elem_of_ptrs_Br; eauto. Qed.

(** The local variables of the loop after the branches [done]. *)
Definition best_vars (h : heap) (done : list tree) (v : bestVars) : Prop :=
  match bestChild v with
  | None => hasViable v = false ∧ bestWeight v = 0 ∧ ∀ t, t ∈ done → has_viable h t = false
  | Some b => hasViable v = true ∧ ∃ t, t ∈ done ∧ rootp t = b ∧ has_viable h t = true ∧
      bestWeight v = weight_of h b ∧
      ∀ t', t' ∈ done → has_viable h t' = true → lighter h t' t
  end.

Lemma leadsToViableHead_spec t s : best_ok (s_heap s) t → is_tree (s_heap s) t →
  leadsToViableHead (rootp t) justifiedEpoch currentEpoch s = (Ok (has_viable (s_heap s) t), s).
Proof.
  intros Hok Ht. destruct (Hok t (subtrees_self t)) as (n & q & Hn & Hq & Hb).
  unfold leadsToViableHead. mstep. rewrite Hb, <-(ghost_viable _ _ _ Hq). unfold viable.
  destruct (decide (q = rootp t)) as [->|]; [by rewrite Hn|].
  destruct (is_tree_lookup _ _ _ Ht (ghost_in _ _ _ Hq)) as [nq Hnq].
  mstep. by rewrite Hnq.
Qed.

#[local] Instance lighter_refl h : Reflexive (lighter h).
Proof. intros t. right. split; [done|lia]. Qed.
#[local] Instance lighter_trans h : Transitive (lighter h).
Proof. intros x y z. unfold lighter. lia. Qed.

Lemma best_vars_take h done t : has_viable h t = true →
  (∀ t', t' ∈ done → has_viable h t' = true → lighter h t' t) →
  best_vars h (done ++ [t]) (mkBest (Some (rootp t)) (weight_of h (rootp t)) true).
Proof.
  intros Hv Hl. split; [done|]. exists t. split_and!; try done; [set_solver|].
  intros t' [?| ->%list_elem_of_singleton]%elem_of_app; [auto|done].
Qed.

Lemma best_vars_skip h done t v : best_vars h done v → has_viable h t = false →
  best_vars h (done ++ [t]) v.
Proof.
  unfold best_vars. intros Hv Ht. destruct (bestChild v).
  - destruct Hv as (? & tb & ? & ? & ? & ? & Hmax). split; [done|]. exists tb.
    split_and!; try done; [set_solver|].
    intros t' [?| ->%list_elem_of_singleton]%elem_of_app; [auto|congruence].
  - destruct Hv as (? & ? & Hnone). split_and!; try done.
    intros t' [?| ->%list_elem_of_singleton]%elem_of_app; auto.
Qed.

Lemma best_vars_keep h done t tb bw : best_vars h done (mkBest (Some (rootp tb)) bw true) →
  (∀ t', t' ∈ done → rootp t' = rootp tb → t' = tb) → lighter h t tb →
  best_vars h (done ++ [t]) (mkBest (Some (rootp tb)) bw true).
Proof.
  unfold best_vars. simpl. intros (_ & t0 & Hin & Heq & Hv & -> & Hmax) Huniq Hl.
  assert (t0 = tb) as -> by auto. split; [done|]. exists tb.
  split_and!; try done; [set_solver|].
  intros t' [?| ->%list_elem_of_singleton]%elem_of_app; auto.
Qed.

Lemma lighter_node h t t' n n' : h !! rootp t = Some n → h !! rootp t' = Some n' →
  lighter h t t' ↔ n_weight n < n_weight n' ∨ (n_weight n = n_weight n' ∧ n_root n ≤ n_root n').
Proof. unfold lighter, weight_of, root_of. by intros -> ->. Qed.

Lemma considerChild_spec done t v s :
  best_vars (s_heap s) done v → best_ok (s_heap s) t → is_tree (s_heap s) t →
  (∀ t', t' ∈ done → is_tree (s_heap s) t') →
  (∀ t' t'', t' ∈ done → t'' ∈ done → rootp t' = rootp t'' → t' = t'') →
  ∃ v', considerChild v (rootp t) justifiedEpoch currentEpoch s = (Ok v', s) ∧
        best_vars (s_heap s) (done ++ [t]) v'.
Proof.
  intros Hv Hok Ht Hdone Huniq. unfold considerChild.
  erewrite M_bind_Ok by (by apply leadsToViableHead_spec).
  destruct (is_tree_lookup _ _ _ Ht (rootp_in t)) as [c Hc]. mstep.
  assert (n_weight c = weight_of (s_heap s) (rootp t)) as Hw by (unfold weight_of; by rewrite Hc).
  destruct (has_viable (s_heap s) t) eqn:Hvt; simpl.
  2: { exists v. by auto using best_vars_skip. }
  destruct v as [[b|] bw hv]; pose proof Hv as Hv0; unfold best_vars in Hv; simpl in *.
  - destruct Hv as (-> & tb & Htb & <- & Hvb & -> & Hmax). simpl.
    destruct (is_tree_lookup _ _ _ (Hdone tb Htb) (rootp_in tb)) as [nb Hnb].
    assert (lighter (s_heap s) tb t → ∀ t', t' ∈ done → has_viable (s_heap s) t' = true →
      lighter (s_heap s) t' t) as Htake by (intros ? t' ??; trans tb; auto).
    pose proof (lighter_node _ tb t _ _ Hnb Hc) as Hl1.
    pose proof (lighter_node _ t tb _ _ Hc Hnb) as Hl2.
    assert (weight_of (s_heap s) (rootp tb) = n_weight nb) as Hwb by (unfold weight_of; by rewrite Hnb).
    rewrite Hwb in *.
    destruct (Z.eqb_spec (n_weight c) (n_weight nb)) as [Hq|Hq].
    + mstep. destruct (Z.gtb_spec (n_root c) (n_root nb)).
      * eexists. split; [done|]. rewrite <-Hq, Hw. apply best_vars_take; [done|].
        apply Htake. apply Hl1. lia.
      * eexists. split; [done|]. apply best_vars_keep; auto. apply Hl2. lia.
    + destruct (Z.gtb_spec (n_weight c) (n_weight nb)).
      * eexists. split; [done|]. rewrite Hw. apply best_vars_take; [done|].
        apply Htake. apply Hl1. lia.
      * eexists. split; [done|]. apply best_vars_keep; auto. apply Hl2. lia.
  - destruct Hv as (-> & -> & Hnone). simpl. eexists. split; [done|]. rewrite Hw.
    apply best_vars_take; [done|]. intros t' Ht' Hv'. by rewrite Hnone in Hv'.
Qed.

Lemma best_vars_frames l h h' done v : frames l eq_but_best h h' →
  best_vars h done v → best_vars h' done v.
Proof.
  intros Hf. unfold best_vars. destruct (bestChild v) as [b|].
  - intros (? & t & ? & <- & ? & Hw & Hmax). split; [done|]. exists t.
    rewrite (has_viable_frames _ _ _ _ Hf). split_and!; try done.
    + rewrite Hw. unfold weight_of. specialize (Hf (rootp t)).
      destruct (h !! rootp t), (h' !! rootp t); try done. by destruct Hf as [-> _].
    + intros t' Ht'. rewrite (has_viable_frames _ _ _ _ Hf). eauto using lighter_frames.
  - intros (? & ? & Hn). split_and!; try done. intros t Ht.
    rewrite (has_viable_frames _ _ _ _ Hf). auto.
Qed.

Lemma best_ok_frames l h h' t : frames l eq_but_best h h' →
  (∀ q, q ∈ ptrs t → h' !! q = h !! q) → best_ok h t → best_ok h' t.
Proof.
  intros Hf Hext Hok x Hx. destruct (Hok x Hx) as (n & q & ? & ? & ?). exists n, q.
  rewrite Hext by eauto with tree. eauto using ghost_frames.
Qed.

(** Setting the pointer of [p] when its branches are done. *)
Lemma best_ok_Br h p ts n q : NoDup (ptrs (Br p ts)) → h !! p = Some n →
  (∀ t, t ∈ ts → best_ok h t) → ghost h (Br p ts) q →
  let h' := <[p := set_bestDescendant n (if decide (q = p) then None else Some q)]> h in
  frames (ptrs (Br p ts)) eq_but_best h h' ∧ best_ok h' (Br p ts).
Proof.
  intros Hnd Hn Hok Hq h'.
  assert (frames (ptrs (Br p ts)) eq_but_best h h') as Hf.
  { eapply frames_insert; [apply _|apply (rootp_in (Br p ts))|done|done]. }
  split; [done|]. intros x. rewrite elem_of_subtrees_Br. intros [->|(t & Ht & Hx)].
  - eexists _, q. split_and!; [apply lookup_insert_eq|by eapply ghost_frames|done].
  - eapply best_ok_frames; [done| |by eapply (Hok t)|done].
    intros q' Hq'. apply lookup_insert_ne. intros <-.
    apply NoDup_ptrs_Br in Hnd as [Hp _]. by apply (Hp t).
Qed.

Lemma rootp_unique p done rest t t' : NoDup (ptrs (Br p (done ++ rest))) →
  t ∈ done → t' ∈ done → rootp t = rootp t' → t = t'.
Proof.
  intros Hnd Ht Ht'. apply (subtree_unique (Br p (done ++ rest))); [done| |];
    apply (subtrees_branch (Br p (done ++ rest)) _ _ (subtrees_self _)); simpl; set_solver.
Qed.

(** The state of the loop of [updateBestDescendant] after the branches [done]. *)
Definition best_inv (s : Store) (done : list tree) (v : bestVars) (s1 : Store) : Prop :=
  ∃ h1, s1 = upd_heap s h1 ∧ frames (concat (ptrs <$> done)) eq_but_best (s_heap s) h1 ∧
    (∀ t, t ∈ done → best_ok h1 t) ∧ best_vars h1 done v.

(** The contract of the recursive call on [t] with fuel [fuel]. *)
Definition best_run (finalizedEpoch : Z) (fuel : nat) (t : tree) : Prop := ∀ s,
  is_tree (s_heap s) t → NoDup (ptrs t) → (height t ≤ fuel)%nat → s_ctx s = None →
  ∃ h', updateBestDescendant fuel (rootp t) justifiedEpoch finalizedEpoch currentEpoch s
          = (Ok tt, upd_heap s h') ∧
    frames (ptrs t) eq_but_best (s_heap s) h' ∧ best_ok h' t.

Lemma best_inv_step finalizedEpoch fuel s p done t rest v s1 :
  best_run finalizedEpoch fuel t → is_tree (s_heap s) (Br p (done ++ t :: rest)) →
  NoDup (ptrs (Br p (done ++ t :: rest))) → (height t ≤ fuel)%nat → s_ctx s = None →
  best_inv s done v s1 →
  ∃ v' s', (updateBestDescendant fuel (rootp t) justifiedEpoch finalizedEpoch currentEpoch;;
            considerChild v (rootp t) justifiedEpoch currentEpoch) s1 = (Ok v', s') ∧
    best_inv s (done ++ [t]) v' s'.
Proof.
  intros IH [_ Hts]%is_tree_Br Hnd Hfuel Hctx (h1 & -> & Hf & Hok & Hv).
  assert (∀ q, q ∈ ptrs t → h1 !! q = s_heap s !! q) as Hh1.
  { intros q Hq. eapply (frames_untouched _ p done (t :: rest)); eauto.
    right. exists t. set_solver. }
  destruct (IH (upd_heap s h1)) as (h2 & Hrun2 & Hf2 & Hok2); try done.
  { eapply is_tree_ext; [apply Hh1|]. apply Hts. set_solver. }
  { apply NoDup_ptrs_Br in Hnd as [_ Hnd]. eapply NoDup_concat_elem; [done|]. set_solver. }
  simpl in Hf2. mstep.
  destruct (frames_branch_step _ p done t rest _ _ _ Hnd Hf Hf2) as [Hf3 Hkeep].
  assert (∀ t', t' ∈ done ++ t :: rest → is_tree h2 t') as Hts2.
  { intros t' ?. eapply is_tree_frames; [|exact Hf3|auto]. apply eq_but_best_children. }
  destruct (considerChild_spec done t v (upd_heap s h2)) as (v' & Hrun3 & Hv').
  { by apply (best_vars_frames (ptrs t) h1). }
  { done. }
  { apply Hts2. set_solver. }
  { intros t' ?. apply Hts2. set_solver. }
  { intros t' t'' ? ?. by eapply rootp_unique. }
  rewrite upd_heap_idem, Hrun3. eexists _, _. split; [done|]. exists h2. split_and!; try done.
  intros t' [Ht'|Ht'%list_elem_of_singleton]%elem_of_app; [|by subst].
  apply (best_ok_frames (ptrs t) h1); eauto.
Qed.

(** The code after the loop: the pointer of [p] is the end of the walk. *)
Lemma best_finish s h1 p ts n v : NoDup (ptrs (Br p ts)) → h1 !! p = Some n →
  (∀ t, t ∈ ts → best_ok h1 t) → best_vars h1 ts v →
  ∃ q, ghost h1 (Br p ts) q ∧
    (if hasViable v then (b ← deref' (bestChild v);
       match n_bestDescendant b with
       | None => modNode p (λ nd, set_bestDescendant nd (bestChild v))
       | Some bd => modNode p (λ nd, set_bestDescendant nd (Some bd))
       end) else modNode p (λ nd, set_bestDescendant nd None)) (upd_heap s h1) =
    (Ok tt, upd_heap s
       (<[p := set_bestDescendant n (if decide (q = p) then None else Some q)]> h1)).
Proof.
  intros [Hp _]%NoDup_ptrs_Br Hn Hok Hv. unfold best_vars in Hv.
  destruct v as [[b|] bw hv]; simpl in *.
  - destruct Hv as (-> & t & Ht & <- & Hvt & _ & Hmax).
    destruct (Hok t Ht t (subtrees_self t)) as (nb & q & Hnb & Hq & Hb).
    exists q. split; [by eapply ghost_step|]. mstep. rewrite Hb.
    assert (q ≠ p) by (intros ->; eapply Hp, ghost_in; eauto).
    rewrite (decide_False (P := q = p)) by done.
    destruct (decide (q = rootp t)) as [->|]; by rewrite (run_modNode p _ _ n).
  - destruct Hv as (-> & _ & Hnone). exists p. split; [by constructor|].
    rewrite decide_True by done. by rewrite (run_modNode p _ _ n).
Qed.

Lemma updateBestDescendant_spec finalizedEpoch fuel t : best_run finalizedEpoch fuel t.
Proof.
  revert fuel. induction t as [p ts IH] using tree_ind'. rewrite Forall_forall in IH.
  intros [|fuel] s Ht Hnd Hfuel Hctx; [simpl in Hfuel; lia|].
  destruct (is_tree_node _ _ Ht) as (n & Hn & Hc). simpl in Hn, Hc |- *. mstep. mstep.
  rewrite Hc, length_fmap. destruct ts as [|t0 ts0] eqn:Hts0.
  { simpl. rewrite (run_modNode p _ _ n) by done. eexists. split; [done|].
    destruct (best_ok_Br (s_heap s) p [] n p) as [Hf Hok]; [done|done|set_solver|constructor; set_solver|].
    by rewrite decide_True in Hf, Hok by done. }
  rewrite <-Hts0 in *. replace (length ts =? 0)%nat with false by (by subst ts). clear Hts0.
  mloop (best_inv s) as (v & s1 & Hrun & h1 & -> & Hf & Hok & Hv); cycle 1.
  { exists (s_heap s). rewrite upd_heap_self.
    split_and!; [done|apply frames_refl; apply _|set_solver|]. split_and!; try done; set_solver. }
  { intros done t rest v s1 Hdec HI.
    assert (t ∈ ts) as Hin by (subst; set_solver).
    pose proof (height_branch p ts t Hin). subst ts.
    eapply best_inv_step; eauto. lia. }
  erewrite M_bind_Ok by exact Hrun. clear Hrun.
  assert (h1 !! p = Some n) as Hp1.
  { rewrite <-Hn. eapply (frames_untouched _ p ts []); eauto. by rewrite app_nil_r. }
  apply (frames_weaken _ (ptrs (Br p ts))) in Hf; [|rewrite ptrs_Br; set_solver].
  destruct (best_finish s h1 p ts n v) as (q & Hq & ->); try done.
  destruct (best_ok_Br h1 p ts n q) as [Hf' Hok']; try done.
  eexists. split; [done|]. split; [by eapply frames_trans; [apply _| |]|done].
Qed.

End best.

(** ** What the traversals leave alone, whatever their outcome

    Also when the context is cancelled half way, [updateBestDescendant] changes
    best-descendant pointers only. *)
Definition links_of (s : Store) (s' : Store) : Prop :=
  ∃ h' c', s' = upd_ctx (upd_heap s h') c' ∧
    frames (elements (dom (s_heap s))) eq_but_best (s_heap s) h'.

Lemma links_of_refl s : links_of s s.
Proof. exists (s_heap s), (s_ctx s). split; [by destruct s|]. apply frames_refl, _. Qed.

Lemma links_of_ctx s s' c : links_of s s' → links_of s (upd_ctx s' c).
Proof. intros (h' & c' & -> & Hf). by exists h', c. Qed.

Lemma links_of_best s s' p n b : links_of s s' → s_heap s' !! p = Some n →
  links_of s (upd_heap s' (<[p := set_bestDescendant n b]> (s_heap s'))).
Proof.
  intros (h' & c' & -> & Hf) Hn. simpl in *. eexists _, c'. split; [done|].
  eapply frames_trans; [apply _|exact Hf|]. eapply frames_insert; [apply _| |done|done].
  apply elem_of_elements, elem_of_dom. specialize (Hf p). rewrite Hn in Hf.
  destruct (s_heap s !! p) eqn:?; [by eexists|done].
Qed.

Lemma updateBestDescendant_links s0 fuel p j f c :
  preserves (links_of s0) (updateBestDescendant fuel p j f c).
Proof.
  assert (∀ p b, preserves (links_of s0) (modNode p (λ nd, set_bestDescendant nd b))) as Hmod.
  { intros. apply preserves_modNode. eauto using links_of_best. }
  pose proof (preserves_ctxErr (links_of s0) (λ s c, links_of_ctx s0 s c)) as Hctx.
  revert p. induction fuel as [|fuel IH]; intros p; simpl; [auto with preserves|].
  unfold considerChild, leadsToViableHead. preserve.
Qed.
