(* ===== verification/ForkStore.v ===== *)
(** * store.go, optimistic_sync.go and the [Store] methods of
    unrealized_justification.go

    Each reading of the wall clock is an argument: [clk k] is the [k]-th reading
    the operation makes. *)
From S2P Require Import Prelude MathHelper Primitives Config SlotTime ForkTypes ForkNode.

(** What [insert] reads of a read-only block.  [b_execution] is the outcome of
    [block.Body().Execution()] followed by [BlockHash()]. *)
Record ROBlock := mkBlock {
  b_root : Z; b_slot : Z; b_parentRoot : Z; b_version : Z; b_execution : gores Z
}.

(** What [pullTips] and [InsertNode] read of a beacon state; [st_unrealized] is
    the outcome of [precompute.UnrealizedCheckpoints(state)]. *)
Record BeaconState := mkState {
  st_slot : Z;
  st_currentJustified : option Checkpoint;
  st_finalized : option Checkpoint;
  st_unrealized : gores (Checkpoint * Checkpoint)
}.

Section store.
Context `{cfg : BeaconChainConfig}.

Definition head (now : Z) : MS Z :=
  ctxErr;;
  s ← mget;
  justifiedNode ← match s_nodeByRoot s !! cp_root (s_justifiedCheckpoint s) with
    | Some n => mret (Some n)
    | None => if cp_epoch (s_justifiedCheckpoint s) =? GenesisEpoch
              then mret (s_treeRootNode s)
              else mfail errUnknownJustifiedRoot
    end;
  jn ← deref' justifiedNode;
  let bestDescendant := match n_bestDescendant jn with
                        | None => justifiedNode | Some b => Some b end in
  currentEpoch ← mlift (EpochsSinceGenesis (s_genesisTime s) now);
  bd ← deref' bestDescendant;
  if negb (viableForHead bd (cp_epoch (s_justifiedCheckpoint s)) currentEpoch) then
    mmodify (λ s, upd_allTipsAreInvalid s true);;
    mfail errHeadNotViable
  else
    mmodify (λ s, upd_allTipsAreInvalid s false);;
    s ← mget;
    whenM (bool_decide (bestDescendant ≠ s_headNode s))
      (mmodify (λ s, upd_headNode s bestDescendant));;
    mret (n_root bd).

(** ** Removal *)

Fixpoint removeNodeAndChildren (fuel : nat) (node : ptr) (invalidRoots : list Z)
    : MS (list Z) :=
  match fuel with
  | O => mstuck
  | S fuel' =>
      nd ← deref node;
      invalidRoots ← mfold (n_children nd) invalidRoots (λ invalidRoots child,
        ctxErr;;
        removeNodeAndChildren fuel' child invalidRoots);
      s ← mget;
      whenM (n_root nd =? s_proposerBoostRoot s)
        (mmodify (λ s, upd_proposerBoostRoot s 0));;
      whenM (n_root nd =? s_previousProposerBoostRoot s)
        (mmodify (λ s, upd_previousProposerBoostScore
                         (upd_previousProposerBoostRoot s ZeroHash) 0));;
      mmodify (λ s, upd_nodeByRoot s (delete (n_root nd) (s_nodeByRoot s)));;
      mret (invalidRoots ++ [n_root nd])
  end.

(** [children[i] = children[len-1]; children[:len-1]] at the first occurrence. *)
Definition swapRemove (children : list ptr) (node : ptr) : list ptr :=
  match list_find (node =.) children with
  | Some (i, _) =>
      match last children with
      | Some l => take (length children - 1) (<[i := l]> children)
      | None => children
      end
  | None => children
  end.

Definition removeNode (node : option ptr) : MS (list Z) :=
  match node with
  | None => mfail ErrNilNode
  | Some p =>
      nd ← deref p;
      match n_optimistic nd, n_parent nd with
      | true, Some pp =>
          pn ← deref pp;
          let children := n_children pn in
          (if (length children =? 1)%nat
           then modNode pp (λ pn, set_children pn [])
           else modNode pp (λ pn, set_children pn (swapRemove children p)));;
          s ← mget;
          removeNodeAndChildren (fuelOf s) p []
      | _, _ => mfail errInvalidOptimisticStatus
      end
  end.

(** The loop over [firstInvalid]: stops at a node without parent, or whose
    parent has the last valid payload. *)
Fixpoint firstInvalidLoop (fuel : nat) (firstInvalid : ptr) (lastValidHash : Z) : MS ptr :=
  match fuel with
  | O => mstuck
  | S fuel' =>
      nd ← deref firstInvalid;
      match n_parent nd with
      | None => mret firstInvalid
      | Some pp =>
          pn ← deref pp;
          if n_payloadHash pn =? lastValidHash then mret firstInvalid
          else ctxErr;; firstInvalidLoop fuel' pp lastValidHash
      end
  end.

Definition setOptimisticToInvalid (root parentRoot lastValidHash : Z) : MS (list Z) :=
  s ← mget;
  node ← match s_nodeByRoot s !! root with
    | None =>
        match s_nodeByRoot s !! parentRoot with
        | None => mfail ErrNilNode
        | Some p =>
            nd ← deref p;
            (* return early if the parent is LVH *)
            if n_payloadHash nd =? lastValidHash then mret None else mret (Some p)
        end
    | Some p =>
        nd ← deref p;
        pn ← deref' (n_parent nd);
        if negb (n_root pn =? parentRoot) then mfail errInvalidParentRoot else mret (Some p)
    end;
  match node with
  | None => mret []
  | Some node =>
      firstInvalid ← firstInvalidLoop (fuelOf s) node lastValidHash;
      fi ← deref firstInvalid;
      match n_parent fi with
      | None =>
          nd ← deref node;
          if n_root nd =? parentRoot then mret [] else removeNode (Some node)
      | Some _ => removeNode (Some firstInvalid)
      end
  end.

(** ** Insertion *)

(** The target checkpoint of a new block [n] whose parent is [parent]. *)
Definition setTarget (n : ptr) (slot : Z) (parent : option ptr) : MS unit :=
  r ← mlift (remSlot slot SlotsPerEpoch);
  if r =? 0 then modNode n (λ nd, set_target nd (Some n))
  else match parent with
       | None => mret tt
       | Some p =>
           pn ← deref p;
           e ← mlift (ToEpoch slot);
           pe ← mlift (ToEpoch (n_slot pn));
           if e =? pe then modNode n (λ nd, set_target nd (n_target pn))
           else modNode n (λ nd, set_target nd (Some p))
       end.

(** The branch of [insert] for a block whose parent is known.  [true] when the
    function returned early because genesis is in the future. *)
Definition insertWithParent (clk : nat → Z) (n p : ptr) (root slot : Z) : MS bool :=
  modNode p (λ pn, set_children pn (n_children pn ++ [n]));;
  s ← mget;
  let now := clk 1%nat in
  if now <? s_genesisTime s then mret true
  else
    currentSlot ← mlift (CurrentSlot (s_genesisTime s) (clk 2%nat));
    sss ← mlift (SinceSlotStart currentSlot (s_genesisTime s) now);
    boostThreshold ← mlift (AttestationDueAt currentSlot);
    let isFirstBlock := s_proposerBoostRoot s =? 0 in
    whenM ((currentSlot =? slot) && (sss <? boostThreshold) && isFirstBlock)
      (mmodify (λ s, upd_proposerBoostRoot s root));;
    let jEpoch := cp_epoch (s_justifiedCheckpoint s) in
    let fEpoch := cp_epoch (s_finalizedCheckpoint s) in
    e ← mlift (ToEpoch currentSlot);
    r ← match s_treeRootNode s with
        | Some t => tryM (updateBestDescendant (fuelOf s) t jEpoch fEpoch e)
        | None => mpanic
        end;
    match r with
    | inl _ => mret false
    | inr err => tryM (removeNode (Some n));; mfail err
    end.

Definition insert (clk : nat → Z) (roblock : ROBlock) (justifiedEpoch finalizedEpoch : Z)
    : MS ptr :=
  let root := b_root roblock in
  let slot := b_slot roblock in
  payloadHash ← (if b_version roblock >=? version_Bellatrix
                 then mlift (b_execution roblock) else mret 0);
  s ← mget;
  match s_nodeByRoot s !! root with
  | Some n => mret n
  | None =>
      let parent := s_nodeByRoot s !! b_parentRoot roblock in
      n ← alloc (mkNode slot root payloadHash parent None [] justifiedEpoch justifiedEpoch
                   finalizedEpoch finalizedEpoch 0 0 None true (clk 0%nat));
      setTarget n slot parent;;
      mmodify (λ s, upd_nodeByRoot s (<[root := n]> (s_nodeByRoot s)));;
      early ← match parent with
        | None =>
            match s_treeRootNode s with
            | None =>
                mmodify (λ s, upd_highestReceivedNode (upd_headNode (upd_treeRootNode s
                                (Some n)) (Some n)) (Some n));;
                mret false
            | Some _ =>
                mmodify (λ s, upd_nodeByRoot s (delete root (s_nodeByRoot s)));;
                mfail errInvalidParentRoot
            end
        | Some p => insertWithParent clk n p root slot
        end;
      if (early : bool) then mret n
      else
        currentSlot ← mlift (CurrentSlot (s_genesisTime s) (clk 3%nat));
        whenM (slot +64 SlotsPerEpoch >? currentSlot)
          (i ← mlift (remSlot slot SlotsPerEpoch);
           if i <? fieldSlotsPerEpoch
           then mmodify (λ s, upd_receivedBlocksLastEpoch s
                          (<[Z.to_nat i := slot]> (s_receivedBlocksLastEpoch s)))
           else mpanic);;
        s ← mget;
        hn ← deref' (s_highestReceivedNode s);
        whenM (slot >? n_slot hn) (mmodify (λ s, upd_highestReceivedNode s (Some n)));;
        mret n
  end.

(** ** Pruning *)

Fixpoint pruneFinalizedNodeByRootMap (fuel : nat) (node finalizedNode : ptr) : MS unit :=
  match fuel with
  | O => mstuck
  | S fuel' =>
      ctxErr;;
      nd ← deref node;
      if bool_decide (node = finalizedNode) then
        whenM (bool_decide (n_target nd ≠ Some node))
          (modNode node (λ nd, set_target nd None))
      else
        mfor (n_children nd) (λ child, pruneFinalizedNodeByRootMap fuel' child finalizedNode);;
        modNode node (λ nd, set_children nd []);;
        mmodify (λ s, upd_nodeByRoot s (delete (n_root nd) (s_nodeByRoot s)))
  end.

Definition prune : MS unit :=
  s ← mget;
  let finalizedRoot := cp_root (s_finalizedCheckpoint s) in
  let finalizedEpoch := cp_epoch (s_finalizedCheckpoint s) in
  match s_nodeByRoot s !! finalizedRoot with
  | None => mfail errUnknownFinalizedRoot
  | Some finalizedNode =>
      fn ← deref finalizedNode;
      match n_parent fn with
      | None => mret tt
      | Some pp =>
          pn ← deref pp;
          mmodify (λ s, upd_finalizedDependentRoot s (n_root pn));;
          match s_treeRootNode s with
          | None => mpanic
          | Some t => pruneFinalizedNodeByRootMap (fuelOf s) t finalizedNode
          end;;
          modNode finalizedNode (λ fn, set_parent fn None);;
          mmodify (λ s, upd_treeRootNode s (Some finalizedNode));;
          checkpointMaxSlot ← mlift (EpochStart finalizedEpoch);
          fn ← deref finalizedNode;
          if n_slot fn =? checkpointMaxSlot then mret tt
          else
            mfor (n_children fn) (λ child,
              c ← deref child;
              whenM (n_slot c <=? checkpointMaxSlot)
                (pruneFinalizedNodeByRootMap (fuelOf s) child finalizedNode))
      end
  end.

(** [order] is the order in which Go's [range] visits the map entries. *)
Definition tips (order : list (Z * ptr)) : MS (list Z * list Z) :=
  mfold order ([], []) (λ acc '(root, p),
    nd ← deref p;
    if (length (n_children nd) =? 0)%nat
    then mret (acc.1 ++ [root], acc.2 ++ [n_slot nd]) else mret acc).

(** ** Read-only accessors *)

Definition HighestReceivedBlockRoot : MS Z :=
  s ← mget;
  match s_highestReceivedNode s with None => mret 0 | Some p => n ← deref p; mret (n_root n) end.

Definition HighestReceivedBlockSlot : MS Z :=
  s ← mget;
  match s_highestReceivedNode s with None => mret 0 | Some p => n ← deref p; mret (n_slot n) end.

Definition HighestReceivedBlockDelay : MS Z :=
  s ← mget;
  match s_highestReceivedNode s with
  | None => mret 0
  | Some p =>
      n ← deref p;
      r ← tryM (mlift (SinceSlotStart (n_slot n) (s_genesisTime s) (n_timestamp n)));
      match r with
      | inr _ => mret 0
      | inl sss =>
          if SecondsPerSlot =? 0 then mpanic
          else mret (u64 (Z.quot sss Second) / SecondsPerSlot)
      end
  end.

Definition ReceivedBlocksLastEpoch (now : Z) : MS Z :=
  s ← mget;
  lowerBound ← mlift (CurrentSlot (s_genesisTime s) now);
  lowerBound ← (if lowerBound >? fieldSlotsPerEpoch
                then mlift (Slot.SafeSub lowerBound fieldSlotsPerEpoch) else mret lowerBound);
  mret (foldl (λ count sl, if negb (sl =? 0) && (lowerBound <=? sl) then count +64 1 else count)
          0 (s_receivedBlocksLastEpoch s)).

(** ** Unrealized justification *)

Definition setUnrealizedJustifiedEpoch (root epoch : Z) : MS unit :=
  s ← mget;
  match s_nodeByRoot s !! root with
  | None => mfail ErrNilNode
  | Some p =>
      nd ← deref p;
      if epoch <? n_unrealizedJustifiedEpoch nd then mfail errInvalidUnrealizedJustifiedEpoch
      else modNode p (λ nd, set_epochs nd (n_justifiedEpoch nd) epoch
                       (n_finalizedEpoch nd) (n_unrealizedFinalizedEpoch nd))
  end.

Definition setUnrealizedFinalizedEpoch (root epoch : Z) : MS unit :=
  s ← mget;
  match s_nodeByRoot s !! root with
  | None => mfail ErrNilNode
  | Some p =>
      nd ← deref p;
      if epoch <? n_unrealizedFinalizedEpoch nd then mfail errInvalidUnrealizedFinalizedEpoch
      else modNode p (λ nd, set_epochs nd (n_justifiedEpoch nd) (n_unrealizedJustifiedEpoch nd)
                       (n_finalizedEpoch nd) epoch)
  end.

Definition pullTips (now : Z) (state : BeaconState) (node : ptr) (jc fc : Checkpoint)
    : MS (Checkpoint * Checkpoint) :=
  nd ← deref node;
  match n_parent nd with
  | None => mret (jc, fc)
  | Some pp =>
      s ← mget;
      cs ← mlift (CurrentSlot (s_genesisTime s) now);
      currentEpoch ← mlift (ToEpoch cs);
      let stateSlot := st_slot state in
      stateEpoch ← mlift (ToEpoch stateSlot);
      pn ← deref pp;
      let currJustified := n_unrealizedJustifiedEpoch pn =? currentEpoch in
      let prevJustified := n_unrealizedJustifiedEpoch pn +64 1 =? currentEpoch in
      since ← mlift (SinceEpochStarts stateSlot);
      let tooEarlyForCurr := since *64 3 <? SlotsPerEpoch *64 2 in
      if currJustified || ((stateEpoch =? currentEpoch) && prevJustified && tooEarlyForCurr) then
        modNode node (λ nd, set_epochs nd (n_justifiedEpoch nd) (n_unrealizedJustifiedEpoch pn)
                              (n_finalizedEpoch nd) (n_unrealizedFinalizedEpoch pn));;
        mret (jc, fc)
      else
        r ← tryM (mlift (st_unrealized state));
        let '(uj, uf) := match r with inl u => u | inr _ => (jc, fc) end in
        whenM (cp_epoch uj >? cp_epoch (s_unrealizedJustifiedCheckpoint s))
          (mmodify (λ s, upd_unrealizedJustifiedCheckpoint s uj));;
        whenM (cp_epoch uf >? cp_epoch (s_unrealizedFinalizedCheckpoint s))
          (mmodify (λ s, upd_unrealizedFinalizedCheckpoint
                           (upd_unrealizedJustifiedCheckpoint s uj) uf));;
        modNode node (λ nd, set_epochs nd (n_justifiedEpoch nd) (cp_epoch uj)
                              (n_finalizedEpoch nd) (cp_epoch uf));;
        if stateEpoch <? currentEpoch then
          modNode node (λ nd, set_epochs nd (cp_epoch uj) (n_unrealizedJustifiedEpoch nd)
                                (cp_epoch uf) (n_unrealizedFinalizedEpoch nd));;
          mret (uj, uf)
        else mret (jc, fc)
  end.

End store.
