(* ===== verification/ForkStoreFacts.v ===== *)
(** * store.go and optimistic_sync.go: removal, pruning and insertion

    The operations keep the store well formed ([wf]): what they remove is exactly a
    subtree, from the tree, from the index and from the proposer boost. *)
From S2P Require Import Prelude Config SlotTime ForkTypes ForkTree ForkNode ForkNodeFacts ForkStore.

(** ** Removal *)

(** What [removeNodeAndChildren] does to the store for one root. *)
Definition drop_root (s : Store) (r : Z) : Store :=
  let s1 := if r =? s_proposerBoostRoot s then upd_proposerBoostRoot s 0 else s in
  let s2 := if r =? s_previousProposerBoostRoot s
            then upd_previousProposerBoostScore (upd_previousProposerBoostRoot s1 ZeroHash) 0
            else s1 in
  upd_nodeByRoot s2 (delete r (s_nodeByRoot s)).
Definition drop_roots : Store → list Z → Store := foldl drop_root.

(** The roots of a subtree, children first. *)
Fixpoint post_roots (h : heap) (t : tree) : list Z :=
  match t with Br p ts => concat (map (post_roots h) ts) ++ [root_of h p] end.

Lemma drop_roots_app s l l' : drop_roots s (l ++ l') = drop_roots (drop_roots s l) l'.
Proof. apply foldl_app. Qed.

(** [drop_roots] touches the index and the boost fields only. *)
Lemma drop_roots_fields l s :
  s_heap (drop_roots s l) = s_heap s ∧ s_ctx (drop_roots s l) = s_ctx s ∧
  s_treeRootNode (drop_roots s l) = s_treeRootNode s ∧ s_next (drop_roots s l) = s_next s.
Proof.
  revert s. induction l as [|r l IH]; intros s; [done|]. simpl.
  destruct (IH (drop_root s r)) as (-> & -> & -> & ->). unfold drop_root.
  by destruct (r =? s_proposerBoostRoot s), (r =? s_previousProposerBoostRoot s).
Qed.

Lemma drop_roots_index l s r :
  s_nodeByRoot (drop_roots s l) !! r =
  if decide (r ∈ l) then None else s_nodeByRoot s !! r.
Proof.
  revert s. induction l as [|r' l IH]; intros s; [done|]. simpl. rewrite IH.
  assert (s_nodeByRoot (drop_root s r') = delete r' (s_nodeByRoot s)) as -> by done.
  destruct (decide (r = r')) as [->|].
  - rewrite lookup_delete_eq. destruct (decide (r' ∈ l)), (decide (r' ∈ r' :: l)); set_solver.
  - rewrite lookup_delete_ne by done.
    destruct (decide (r ∈ l)), (decide (r ∈ r' :: l)); set_solver.
Qed.

(** A removed root loses the proposer boost. *)
Lemma drop_roots_boost l s :
  s_proposerBoostRoot (drop_roots s l) =
  if decide (s_proposerBoostRoot s ∈ l) then 0 else s_proposerBoostRoot s.
Proof.
  revert s. induction l as [|r l IH]; intros s; [done|]. simpl. rewrite IH.
  assert (s_proposerBoostRoot (drop_root s r) =
          if r =? s_proposerBoostRoot s then 0 else s_proposerBoostRoot s) as ->.
  { unfold drop_root. by destruct (r =? s_proposerBoostRoot s), (r =? s_previousProposerBoostRoot s). }
  destruct (Z.eqb_spec r (s_proposerBoostRoot s)) as [->|].
  - destruct (decide (0 ∈ l)), (decide (s_proposerBoostRoot s ∈ s_proposerBoostRoot s :: l)); set_solver.
  - destruct (decide (s_proposerBoostRoot s ∈ l)), (decide (s_proposerBoostRoot s ∈ r :: l)); set_solver.
Qed.

Lemma run_drop_root {A} r (k : MS A) s :
  (s ← mget;
   whenM (r =? s_proposerBoostRoot s) (mmodify (λ s, upd_proposerBoostRoot s 0));;
   whenM (r =? s_previousProposerBoostRoot s)
     (mmodify (λ s, upd_previousProposerBoostScore (upd_previousProposerBoostRoot s ZeroHash) 0));;
   mmodify (λ s, upd_nodeByRoot s (delete r (s_nodeByRoot s)));; k) s = k (drop_root s r).
Proof.
  unfold whenM, mbind, M_bind, mget, mmodify, drop_root, mret, M_ret.
  by destruct (r =? s_proposerBoostRoot s), (r =? s_previousProposerBoostRoot s).
Qed.

Lemma removeNodeAndChildren_spec fuel t acc s :
  is_tree (s_heap s) t → (height t ≤ fuel)%nat → s_ctx s = None ∨ branches t = [] →
  removeNodeAndChildren fuel (rootp t) acc s =
    (Ok (acc ++ post_roots (s_heap s) t), drop_roots s (post_roots (s_heap s) t)).
Proof.
  revert fuel acc s. induction t as [p ts IH] using tree_ind'. rewrite Forall_forall in IH.
  intros [|fuel] acc s Ht Hfuel Hctx; [simpl in Hfuel; lia|].
  apply is_tree_Br in Ht as [(n & Hn & Hc) Hts].
  cbn [removeNodeAndChildren rootp post_roots]. mstep. rewrite Hc.
  mloop (λ done acc' s', acc' = acc ++ concat (map (post_roots (s_heap s)) done) ∧
           s' = drop_roots s (concat (map (post_roots (s_heap s)) done)))
    as (acc' & s' & Hrun & -> & ->); cycle 1.
  { by rewrite app_nil_r. }
  { intros done t rest acc' s' Hdec [-> ->].
    assert (t ∈ ts) as Hin by (subst; set_solver).
    destruct (drop_roots_fields (concat (map (post_roots (s_heap s)) done)) s) as (Hh & Hcx & _).
    destruct Hctx as [Hctx|Hb]; [|simpl in Hb; rewrite Hb in Hin; set_solver]. rewrite <-Hcx in Hctx. mstep.
    rewrite (IH t Hin); rewrite ?Hh; auto; [|pose proof (height_branch p ts t Hin); lia].
    eexists _, _. split; [done|]. rewrite map_app, concat_app. simpl.
    by rewrite app_nil_r, app_assoc, drop_roots_app. }
  erewrite M_bind_Ok by exact Hrun. rewrite run_drop_root.
  assert (root_of (s_heap s) p = n_root n) as -> by (unfold root_of; by rewrite Hn).
  by rewrite drop_roots_app, app_assoc.
Qed.

Lemma post_roots_ext h h' t : (∀ p, root_of h' p = root_of h p) → post_roots h' t = post_roots h t.
Proof.
  intros Hr. induction t as [p ts IH] using tree_ind'. rewrite Forall_forall in IH. simpl.
  rewrite Hr. do 2 f_equal. apply map_ext_in. intros t Ht%list_elem_of_In. auto.
Qed.

Lemma elem_of_post_roots h t r :
  r ∈ post_roots h t ↔ ∃ p, p ∈ ptrs t ∧ root_of h p = r.
Proof.
  induction t as [p ts IH] using tree_ind'. rewrite Forall_forall in IH. simpl.
  rewrite elem_of_app, list_elem_of_singleton. setoid_rewrite elem_of_ptrs_Br.
  rewrite list_elem_of_In, in_concat. setoid_rewrite in_map_iff.
  setoid_rewrite <-list_elem_of_In. split.
  - intros [(l & (t & <- & Ht) & Hr)| ->]; [|by eauto].
    apply (IH t Ht) in Hr as (q & ? & ?). exists q. eauto.
  - intros (q & [->|(t & Ht & Hq)] & <-); [by right|left].
    exists (post_roots h t). split; [by eauto|]. apply IH; eauto.
Qed.

Lemma post_roots_perm h t : post_roots h t ≡ₚ root_of h <$> ptrs t.
Proof.
  induction t as [p ts IH] using tree_ind'. rewrite ptrs_Br. cbn [post_roots]. csimpl.
  rewrite <-Permutation_cons_append. apply Permutation_skip.
  induction IH as [|t ts Ht _ IHts]; csimpl; [done|]. by rewrite fmap_app, Ht, IHts.
Qed.

(** Swapping the last element over the removed one. *)
Lemma swapRemove_perm (l : list ptr) x : x ∈ l → l ≡ₚ x :: swapRemove l x.
Proof.
  intros Hx. unfold swapRemove.
  destruct (list_find (x =.) l) as [[i y]|] eqn:Hf.
  2: { apply list_find_None in Hf. rewrite Forall_forall in Hf. by destruct (Hf x Hx). }
  apply list_find_Some in Hf as (Hi & <- & _).
  destruct l as [|z l _] using rev_ind; [done|].
  rewrite last_snoc, length_app, Nat.add_sub. simpl.
  destruct (decide (i < length l)%nat) as [Hlt|Hge].
  - rewrite insert_app_l by done. rewrite take_app_length' by (by rewrite length_insert).
    rewrite lookup_app_l in Hi by done. rewrite <-Permutation_cons_append.
    rewrite insert_take_drop by done. rewrite <-(take_drop_middle l i x) at 1 by done.
    rewrite <-!Permutation_middle. apply perm_swap.
  - rewrite lookup_app_r in Hi by lia. apply list_lookup_singleton_Some in Hi as [? <-].
    rewrite insert_app_r_alt by lia. rewrite take_app_length.
    symmetry. apply Permutation_cons_append.
Qed.

(** The index is injective: a root names one node of the tree. *)
Lemma wf_root_inj s t p q : wf s t → p ∈ ptrs t → q ∈ ptrs t →
  root_of (s_heap s) p = root_of (s_heap s) q → p = q.
Proof.
  intros Hwf Hp Hq. destruct (wf_lookup s t p Hwf Hp) as [n Hn].
  destruct (wf_lookup s t q Hwf Hq) as [m Hm]. unfold root_of. rewrite Hn, Hm. intros Heq.
  assert (s_nodeByRoot s !! n_root n = Some p) by (apply (wf_index _ _ Hwf); eauto).
  assert (s_nodeByRoot s !! n_root m = Some q) by (apply (wf_index _ _ Hwf); eauto).
  congruence.
Qed.

(** Taking the subtree [x] from below [y]: the branches left, as trees. *)
Lemma branches_remove t x y cs : NoDup (ptrs t) → y ∈ subtrees t → x ∈ branches y →
  rootp <$> branches y ≡ₚ rootp x :: cs → ∃ ts', cs = rootp <$> ts' ∧ branches y ≡ₚ x :: ts'.
Proof.
  intros Hnd Hy Hx Hperm. symmetry in Hperm.
  apply Permutation_map_inv in Hperm as ([|x' ts'] & Heq & Hperm); [done|].
  injection Heq as Hr ->. exists ts'. split; [done|].
  enough (x = x') as -> by done.
  assert (x' ∈ branches y) by (rewrite Hperm; set_solver).
  apply (subtree_unique t); eauto using subtrees_branch.
Qed.

Lemma ptrs_branch_perm y x ts' : branches y ≡ₚ x :: ts' →
  concat (ptrs <$> branches y) ≡ₚ ptrs x ++ concat (ptrs <$> ts').
Proof. intros ->. done. Qed.

(** The index without the roots of the nodes [l] is the index of what is left. *)
Lemma index_remove s t t' l (h1 : heap) (rs : list Z) r p : wf s t → ptrs t ≡ₚ ptrs t' ++ l →
  (∀ r, r ∈ rs ↔ ∃ p, p ∈ l ∧ root_of (s_heap s) p = r) →
  (∀ p, option_map n_root (h1 !! p) = option_map n_root (s_heap s !! p)) →
  (if decide (r ∈ rs) then None else s_nodeByRoot s !! r) = Some p ↔
  p ∈ ptrs t' ∧ ∃ n, h1 !! p = Some n ∧ n_root n = r.
Proof.
  intros Hwf Hperm Hrs Hroots. pose proof (wf_nodup _ _ Hwf) as Hnd.
  assert (∀ q, q ∈ ptrs t ↔ q ∈ ptrs t' ∨ q ∈ l) as Hin by (intros q; by rewrite Hperm, elem_of_app).
  rewrite Hperm in Hnd. apply NoDup_app in Hnd as (_ & Hdisj & _).
  assert ((∃ n, h1 !! p = Some n ∧ n_root n = r) ↔ (∃ n, s_heap s !! p = Some n ∧ n_root n = r)) as ->.
  { specialize (Hroots p). destruct (h1 !! p), (s_heap s !! p); simplify_eq/=; naive_solver congruence. }
  assert (∀ n, s_heap s !! p = Some n → root_of (s_heap s) p = n_root n) as Hro.
  { unfold root_of. by intros n ->. }
  destruct (decide (r ∈ rs)) as [Hr|Hr].
  - split; [done|]. intros [Hp (n & Hn & Hnr)]. apply Hrs in Hr as (q & Hq & Hqr).
    destruct (Hdisj p Hp). replace p with q; [done|].
    apply (wf_root_inj s t); [done|apply Hin; auto|apply Hin; auto|]. by rewrite Hqr, (Hro n).
  - rewrite (wf_index _ _ Hwf), Hin. split; [|naive_solver].
    intros [[?|Hp] (n & Hn & Hnr)]; [by eauto|]. destruct Hr. apply Hrs.
    exists p. by rewrite (Hro n).
Qed.

Lemma wf_remove s t x y ts' ny :
  wf s t → y ∈ subtrees t → branches y ≡ₚ x :: ts' → s_heap s !! rootp y = Some ny →
  let s1 := upd_heap s (<[rootp y := set_children ny (rootp <$> ts')]> (s_heap s)) in
  let t' := graft (rootp y) ts' t in
  wf (drop_roots s1 (post_roots (s_heap s) x)) t' ∧ ptrs t ≡ₚ ptrs t' ++ ptrs x.
Proof.
  intros Hwf Hy Hbr Hny s1 t'. pose proof (wf_nodup _ _ Hwf) as Hnd.
  pose proof (NoDup_ptrs_subtree y t Hy Hnd) as Hndy.
  assert (ptrs t ≡ₚ ptrs t' ++ ptrs x) as Hperm.
  { apply (Permutation_app_inv_r (concat (ptrs <$> ts'))). rewrite <-ptrs_graft by done.
    rewrite (ptrs_branch_perm y x ts') by done. by rewrite app_assoc. }
  split; [|done].
  assert (∀ z, z ∈ ts' → z ∈ branches y) as Hsub by (intros; rewrite Hbr; set_solver).
  destruct (drop_roots_fields (post_roots (s_heap s) x) s1) as (Hh & Hcx & Htr & Hnx).
  assert (NoDup (ptrs t' ++ ptrs x)) as Hnd' by (by rewrite <-Hperm).
  assert (∀ p, s_heap s1 !! p = if decide (p = rootp y) then Some (set_children ny (rootp <$> ts'))
                                else s_heap s !! p) as Hlk.
  { intros p. simpl. destruct (decide (p = rootp y)) as [->|]; [apply lookup_insert_eq|].
    by apply lookup_insert_ne. }
  split; rewrite ?Hh, ?Htr, ?Hnx.
  - simpl. unfold t'. rewrite rootp_graft. apply Hwf.
  - apply is_tree_graft; [done|apply Hwf|by apply rootp_subtree|done|].
    intros z Hz. split; [eapply is_tree_subtree; [apply Hwf|eauto using subtrees_branch]|].
    destruct y as [py tsy]. apply NoDup_ptrs_Br in Hndy as [Hpy _]. by apply Hpy, Hsub.
  - by apply NoDup_app in Hnd' as (? & _).
  - assert (∀ par u, parents_ok (s_heap s) par u → parents_ok (s_heap s1) par u) as Hpar.
    { intros par u. apply (parents_ok_frames (ptrs t) same_parent); [done|].
      eapply frames_insert; [apply _|by apply rootp_subtree|done|done]. }
    apply parents_ok_graft; [done|apply Hpar, Hwf|by apply rootp_subtree|].
    intros z Hz. apply Hpar. destruct (parents_ok_sub (s_heap s) None t y) as [par' Hy']; [apply Hwf|done|].
    by apply (parents_ok_branch _ par'), Hsub.
  - intros r p. rewrite drop_roots_index. apply (index_remove s t t' (ptrs x)); [done|done|apply elem_of_post_roots|].
    intros p'. rewrite Hlk. destruct (decide (p' = rootp y)) as [->|]; [|done]. by rewrite Hny.
  - intros p. rewrite Hlk. intros Hp. apply Hwf. destruct (decide (p = rootp y)) as [->|]; [by eexists|done].
Qed.

Lemma removeNode_wf s t x n :
  wf s t → s_ctx s = None ∨ branches x = [] → x ∈ subtrees t → x ≠ t →
  s_heap s !! rootp x = Some n → n_optimistic n = true →
  ∃ y ts' ny, y ∈ subtrees t ∧ branches y ≡ₚ x :: ts' ∧ s_heap s !! rootp y = Some ny ∧
    removeNode (Some (rootp x)) s =
      (Ok (post_roots (s_heap s) x),
       drop_roots (upd_heap s (<[rootp y := set_children ny (rootp <$> ts')]> (s_heap s)))
                  (post_roots (s_heap s) x)).
Proof.
  intros Hwf Hctx Hx Hne Hn Hopt.
  destruct (parent_of_subtree _ _ _ _ _ (wf_parents _ _ Hwf) Hx Hn) as [?|(y & Hy & Hxy & Hpar)]; [done|].
  destruct (is_tree_node (s_heap s) y) as (ny & Hny & Hcy); [eapply is_tree_subtree; eauto; apply Hwf|].
  unfold removeNode. mstep. rewrite Hopt, Hpar. mstep. rewrite Hcy.
  assert (∃ cs, rootp <$> branches y ≡ₚ rootp x :: cs ∧
    (if (length (rootp <$> branches y) =? 1)%nat
     then modNode (rootp y) (λ pn, set_children pn [])
     else modNode (rootp y) (λ pn, set_children pn (swapRemove (rootp <$> branches y) (rootp x)))) s
    = (Ok tt, upd_heap s (<[rootp y := set_children ny cs]> (s_heap s)))) as (cs & Hcs & Hrun).
  { destruct (Nat.eqb_spec (length (rootp <$> branches y)) 1) as [H1|_].
    - exists []. rewrite (run_modNode (rootp y) _ s ny) by done. split; [|done].
      destruct (branches y) as [|x' [|]]; simplify_eq/=. apply list_elem_of_singleton in Hxy. by subst.
    - eexists. rewrite (run_modNode (rootp y) _ s ny) by done. split; [|done].
      by apply swapRemove_perm, list_elem_of_fmap_2. }
  destruct (branches_remove t x y cs) as (ts' & -> & Hbr); [apply Hwf|done..|].
  exists y, ts', ny. split_and!; [done..|]. erewrite M_bind_Ok by exact Hrun.
  set (s1 := upd_heap s _).
  assert (is_tree (s_heap s1) x) as Hx1.
  { eapply is_tree_ext; [|eapply is_tree_subtree; [apply Hwf|done]]. intros q Hq. simpl.
    apply lookup_insert_ne. intros <-. pose proof (NoDup_ptrs_subtree y t Hy (wf_nodup _ _ Hwf)) as Hndy.
    destruct y. apply NoDup_ptrs_Br in Hndy as [Hpy _]. by apply (Hpy x). }
  assert (NoDup (ptrs x)) by (eapply NoDup_ptrs_subtree; [done|apply Hwf]).
  erewrite M_bind_Ok by reflexivity. rewrite removeNodeAndChildren_spec; [|done| |done].
  - rewrite (post_roots_ext (s_heap s) (s_heap s1)); [done|]. intros p. unfold root_of. simpl.
    destruct (decide (p = rootp y)) as [->|]; [by rewrite lookup_insert_eq, Hny|by rewrite lookup_insert_ne].
  - apply Nat.lt_le_incl. by apply height_fuel.
Qed.

(** ** Pruning *)
Section prune.
Context (F : ptr).

(** The nodes of [t] outside the subtree of [F], children first. *)
Fixpoint cut (t : tree) : list ptr :=
  match t with Br p ts => if bool_decide (p = F) then [] else concat (map cut ts) ++ [p] end.

Definition fix_target (n : Node) : Node :=
  if bool_decide (n_target n = Some F) then n else set_target n None.

(** The effect on one node of cutting the nodes [l], [F] having been met if [b]. *)
Definition prune_node (l : list ptr) (b : bool) (q : ptr) (n : Node) : Node :=
  if decide (q ∈ l) then set_children n []
  else if bool_decide (q = F) && b then fix_target n else n.

Definition prune_post (l : list ptr) (b : bool) (s s' : Store) : Prop :=
  ∃ h' m', s' = upd_nodeByRoot (upd_heap s h') m' ∧
    (∀ q, h' !! q = prune_node l b q <$> s_heap s !! q) ∧
    (∀ r, m' !! r = if decide (r ∈ root_of (s_heap s) <$> l) then None else s_nodeByRoot s !! r).

Lemma fix_target_idem n : fix_target (fix_target n) = fix_target n.
Proof. unfold fix_target. by repeat (case_bool_decide; simpl in * ). Qed.

Lemma prune_node_F l b n : F ∉ l → prune_node l b F n = if b then fix_target n else n.
Proof. intros. unfold prune_node. rewrite decide_False, bool_decide_true by done. by destruct b. Qed.

Lemma prune_node_ne l b q n : q ≠ F →
  prune_node l b q n = if decide (q ∈ l) then set_children n [] else n.
Proof. intros. unfold prune_node. by rewrite (bool_decide_false (q = F)). Qed.

Lemma prune_node_root l b q n : n_root (prune_node l b q n) = n_root n.
Proof. unfold prune_node, fix_target. repeat case_match; done. Qed.

Lemma prune_post_root_of l b s s' q : prune_post l b s s' →
  root_of (s_heap s') q = root_of (s_heap s) q.
Proof.
  intros (h' & m' & -> & Hh & _). unfold root_of. simpl. rewrite Hh.
  destruct (s_heap s !! q); simpl; [apply prune_node_root|done].
Qed.

Lemma prune_post_refl s : prune_post [] false s s.
Proof.
  exists (s_heap s), (s_nodeByRoot s). split_and!; [by destruct s| |done].
  intros q. unfold prune_node. rewrite andb_false_r. simpl. by destruct (s_heap s !! q).
Qed.

Lemma prune_post_trans l1 b1 l2 b2 s s1 s2 : F ∉ l1 → F ∉ l2 →
  prune_post l1 b1 s s1 → prune_post l2 b2 s1 s2 → prune_post (l1 ++ l2) (b1 || b2) s s2.
Proof.
  intros HF1 HF2 H1 (h2 & m2 & -> & Hh2 & Hm2). pose proof (λ q, prune_post_root_of _ _ _ _ q H1) as Hro.
  destruct H1 as (h1 & m1 & -> & Hh1 & Hm1). exists h2, m2. split_and!; [done| |].
  - intros q. rewrite Hh2. simpl. rewrite Hh1. destruct (s_heap s !! q) as [n|]; simpl; [f_equal|done].
    destruct (decide (q = F)) as [->|HqF].
    + rewrite !prune_node_F by set_solver. destruct b1, b2; simpl; by rewrite ?fix_target_idem.
    + rewrite !prune_node_ne by done. destruct (decide (q ∈ l1)), (decide (q ∈ l2)),
        (decide (q ∈ l1 ++ l2)); set_solver.
  - intros r. rewrite Hm2. simpl. rewrite Hm1.
    assert (∀ l : list ptr, r ∈ root_of h1 <$> l ↔ r ∈ root_of (s_heap s) <$> l) as Hl.
    { intros l. simpl in Hro. rewrite !list_elem_of_fmap. by setoid_rewrite Hro. }
    rewrite fmap_app. destruct (decide (r ∈ root_of h1 <$> l2)) as [H2|H2]; rewrite Hl in H2;
      repeat case_decide; set_solver.
Qed.

Lemma cut_in t q : q ∈ cut t → q ∈ ptrs t ∧ q ≠ F.
Proof.
  induction t as [p ts IH] using tree_ind'. rewrite Forall_forall in IH. simpl.
  case_bool_decide; [set_solver|]. rewrite elem_of_ptrs_Br.
  intros [Hq|Hq%list_elem_of_singleton]%elem_of_app; [|by subst; auto].
  apply list_elem_of_In, in_concat in Hq as (l & Hl & Hq).
  apply in_map_iff in Hl as (t & <- & Ht%list_elem_of_In).
  apply list_elem_of_In in Hq. destruct (IH t Ht Hq). eauto.
Qed.

Lemma elem_of_cuts ts q : q ∈ concat (map cut ts) → ∃ t, t ∈ ts ∧ q ∈ cut t.
Proof.
  intros (l & Hl & Hq)%list_elem_of_In%in_concat.
  apply in_map_iff in Hl as (t & <- & Ht). exists t. by rewrite !list_elem_of_In.
Qed.

(** Nodes that are not cut keep their children. *)
Lemma prune_post_lookup l b s s' q n : prune_post l b s s' → s_heap s !! q = Some n → q ∉ l →
  ∃ n', s_heap s' !! q = Some n' ∧ n_children n' = n_children n ∧ n_parent n' = n_parent n ∧
        n_root n' = n_root n ∧ n_slot n' = n_slot n ∧ (q ≠ F → n' = n).
Proof.
  intros (h' & m' & -> & Hh & _) Hn Hq. exists (prune_node l b q n). simpl. rewrite Hh, Hn.
  split; [done|]. unfold prune_node, fix_target. rewrite decide_False by done.
  destruct (decide (q = F)) as [->|].
  - rewrite bool_decide_true by done. destruct b; simpl; [case_bool_decide|]; by split_and!.
  - rewrite (bool_decide_false (q = F)) by done. by split_and!.
Qed.

Lemma prune_post_is_tree l b s s' t : prune_post l b s s' → (∀ q, q ∈ ptrs t → q ∉ l) →
  is_tree (s_heap s) t → is_tree (s_heap s') t.
Proof.
  intros Hp. induction t as [p ts IH] using tree_ind'. rewrite Forall_forall in IH.
  setoid_rewrite elem_of_ptrs_Br. intros Hl. rewrite !is_tree_Br. intros [(n & Hn & Hc) Hts].
  split; [|intros; apply IH; eauto].
  destruct (prune_post_lookup _ _ _ _ _ _ Hp Hn) as (n' & ? & Hc' & _); [by auto|].
  exists n'. by rewrite Hc'.
Qed.

Lemma prune_post_F s n : s_heap s !! F = Some n →
  prune_post [] true s (upd_heap s (<[F := fix_target n]> (s_heap s))).
Proof.
  intros Hn. exists (<[F := fix_target n]> (s_heap s)), (s_nodeByRoot s).
  split_and!; [by destruct s| |done].
  intros q. unfold prune_node. destruct (decide (q = F)) as [->|].
  - rewrite lookup_insert_eq, Hn, bool_decide_true by done. done.
  - rewrite lookup_insert_ne, bool_decide_false by done. simpl. by destruct (s_heap s !! q).
Qed.

Lemma prune_post_cut p s n : s_heap s !! p = Some n → p ≠ F →
  prune_post [p] false s (upd_nodeByRoot (upd_heap s (<[p := set_children n []]> (s_heap s)))
                            (delete (n_root n) (s_nodeByRoot s))).
Proof.
  intros Hn HF. eexists _, _. split_and!; [done| |].
  - intros q. destruct (decide (q = p)) as [->|].
    + rewrite lookup_insert_eq, Hn. simpl. rewrite prune_node_ne by done.
      by rewrite decide_True by set_solver.
    + rewrite lookup_insert_ne by done. unfold prune_node.
      destruct (s_heap s !! q); simpl; [|done].
      by rewrite decide_False, andb_false_r by set_solver.
  - intros r. csimpl. assert (root_of (s_heap s) p = n_root n) as -> by (unfold root_of; by rewrite Hn).
    destruct (decide (r = n_root n)) as [->|].
    + by rewrite lookup_delete_eq, decide_True by set_solver.
    + by rewrite lookup_delete_ne, decide_False by set_solver.
Qed.

(** The loop over the branches [done]. *)
Definition prune_inv (s : Store) (done : list tree) (s1 : Store) : Prop :=
  prune_post (concat (map cut done)) (bool_decide (F ∈ concat (ptrs <$> done))) s s1.

Lemma prune_post_ctx l b s s' : prune_post l b s s' → s_ctx s' = s_ctx s.
Proof. by intros (? & ? & -> & _). Qed.

Lemma pruneFinalizedNodeByRootMap_spec fuel t s :
  is_tree (s_heap s) t → NoDup (ptrs t) → (height t ≤ fuel)%nat → s_ctx s = None →
  ∃ s', pruneFinalizedNodeByRootMap fuel (rootp t) F s = (Ok tt, s') ∧
    prune_post (cut t) (bool_decide (F ∈ ptrs t)) s s'.
Proof.
  revert fuel s. induction t as [p ts IH] using tree_ind'. rewrite Forall_forall in IH.
  intros [|fuel] s Ht Hnd Hfuel Hctx; [simpl in Hfuel; lia|].
  apply is_tree_Br in Ht as [(n & Hn & Hc) Hts].
  cbn [pruneFinalizedNodeByRootMap rootp cut]. mstep. mstep.
  destruct (decide (p = F)) as [->|HpF].
  { rewrite !(bool_decide_true (F = F)) by done. unfold whenM.
    rewrite (bool_decide_true (F ∈ ptrs (Br F ts))) by apply (rootp_in (Br F ts)).
    case_bool_decide as Htgt; [rewrite (run_modNode F _ s n) by done|]; eexists; (split; [done|]).
    - pose proof (prune_post_F s n Hn) as HF. unfold fix_target in HF.
      by rewrite bool_decide_false in HF by done.
    - pose proof (prune_post_F s n Hn) as HF. unfold fix_target in HF.
      rewrite bool_decide_true, insert_id, upd_heap_self in HF by done. done. }
  rewrite !(bool_decide_false (p = F)) by done. rewrite Hc.
  mloop (prune_inv s) as (s1 & Hrun & HI); cycle 1.
  { apply prune_post_refl. }
  { intros done t rest s1 Hdec HI. assert (t ∈ ts) as Hin by (subst; set_solver).
    pose proof (height_branch p ts t Hin). apply NoDup_ptrs_Br in Hnd as [_ Hnd].
    destruct (IH t Hin fuel s1) as (s2 & Hrun & Hp2).
    { eapply prune_post_is_tree; [exact HI| |auto]. subst ts. intros q Hq (t' & Ht' & Hq')%elem_of_cuts.
      apply cut_in in Hq' as [Hq' _]. by eapply (NoDup_concat_disjoint done t rest); eauto. }
    { by eapply NoDup_concat_elem. }
    { lia. }
    { by rewrite (prune_post_ctx _ _ _ _ HI). }
    exists s2. split; [done|]. unfold prune_inv. rewrite map_app, concat_app, fmap_app, concat_app.
    csimpl. rewrite !app_nil_r.
    replace (bool_decide (F ∈ concat (ptrs <$> done) ++ ptrs t)) with
      (bool_decide (F ∈ concat (ptrs <$> done)) || bool_decide (F ∈ ptrs t)).
    - eapply prune_post_trans; eauto.
      + intros (t' & _ & [_ ?]%cut_in)%elem_of_cuts. done.
      + intros [_ ?]%cut_in. done.
    - rewrite <-bool_decide_or. apply bool_decide_ext. by rewrite elem_of_app. }
  erewrite M_bind_Ok by exact Hrun. clear Hrun.
  pose proof Hnd as [Hpt _]%NoDup_ptrs_Br.
  destruct (prune_post_lookup _ _ _ _ _ _ HI Hn) as (n1 & Hn1 & _ & _ & Hr & _ & Heq).
  { intros (t' & Ht' & [Hp' _]%cut_in)%elem_of_cuts. by apply (Hpt t'). }
  rewrite (Heq HpF) in Hn1. mstep. eexists. split; [done|].
  replace (bool_decide (F ∈ ptrs (Br p ts))) with (bool_decide (F ∈ concat (ptrs <$> ts)) || false).
  - eapply prune_post_trans; [| |exact HI|exact (prune_post_cut p s1 n Hn1 HpF)].
    + intros (t' & _ & [_ ?]%cut_in)%elem_of_cuts. done.
    + set_solver.
  - rewrite orb_false_r. apply bool_decide_ext. rewrite ptrs_Br. set_solver.
Qed.

End prune.

Lemma cut_notin F t : F ∉ ptrs t → cut F t ≡ₚ ptrs t.
Proof.
  induction t as [p ts IH] using tree_ind'. rewrite elem_of_ptrs_Br, ptrs_Br. intros HF.
  cbn [cut]. rewrite bool_decide_false by naive_solver. rewrite <-Permutation_cons_append.
  apply Permutation_skip. assert (∀ t, t ∈ ts → F ∉ ptrs t) as Hts by naive_solver. clear HF.
  induction IH as [|t ts Ht _ IHts]; csimpl; [done|].
  rewrite Ht by (apply Hts; set_solver). rewrite IHts; [done|]. intros; apply Hts; set_solver.
Qed.

Lemma cuts_notin F ts : (∀ t, t ∈ ts → F ∉ ptrs t) → concat (map (cut F) ts) ≡ₚ concat (ptrs <$> ts).
Proof.
  intros Hts. induction ts as [|t ts IH]; csimpl; [done|].
  rewrite cut_notin by (apply Hts; set_solver). rewrite IH; [done|]. intros; apply Hts; set_solver.
Qed.

(** What pruning at [x] keeps and cuts is the whole tree. *)
Lemma cut_perm t x : NoDup (ptrs t) → x ∈ subtrees t → ptrs t ≡ₚ ptrs x ++ cut (rootp x) t.
Proof.
  induction t as [p ts IH] using tree_ind'. rewrite Forall_forall in IH. intros Hnd Hx.
  destruct (subtrees_of_root _ _ _ Hx Hnd) as [->|(t & Ht & Hxt & Hq & Hne)].
  - cbn [cut rootp]. rewrite bool_decide_true by done. by rewrite app_nil_r.
  - cbn [cut]. rewrite bool_decide_false by done. apply NoDup_ptrs_Br in Hnd as [_ Hnd].
    pose proof (IH t Ht (NoDup_concat_elem _ _ Hnd Ht) Hxt) as IHt.
    apply list_elem_of_split in Ht as (done & rest & ->).
    rewrite ptrs_Br, map_app, !concat_app, fmap_app, concat_app. csimpl.
    rewrite !cuts_notin; try (intros t' Ht';
      apply (NoDup_concat_disjoint done t rest (rootp x) Hnd Hq); auto; fail).
    rewrite IHt. rewrite <-Permutation_cons_append. rewrite <-Permutation_middle.
    apply Permutation_skip. rewrite <-!app_assoc. rewrite app_assoc, (Permutation_app_comm _ (ptrs x)).
    by rewrite <-app_assoc.
Qed.

Section prune_wf.
Context `{cfg : BeaconChainConfig}.

Lemma parents_ok_prune F l b s s' par t : prune_post F l b s s' → (∀ q, q ∈ ptrs t → q ∉ l) →
  parents_ok (s_heap s) par t → parents_ok (s_heap s') par t.
Proof.
  intros Hp. revert par. induction t as [p ts IH] using tree_ind'. rewrite Forall_forall in IH.
  intros par. setoid_rewrite elem_of_ptrs_Br. intros Hl. rewrite !parents_ok_Br.
  intros [(n & Hn & Hc) Hts]. split; [|intros; apply IH; eauto].
  destruct (prune_post_lookup _ _ _ _ _ _ _ Hp Hn) as (n' & ? & _ & Hc' & _); [by auto|].
  exists n'. by rewrite Hc'.
Qed.

(** Cutting everything outside [x] and making [x] the root. *)
Lemma wf_prune s t x s1 n1 : wf s t → x ∈ subtrees t →
  prune_post (rootp x) (cut (rootp x) t) true s s1 → s_heap s1 !! rootp x = Some n1 →
  wf (upd_treeRootNode (upd_heap s1 (<[rootp x := set_parent n1 None]> (s_heap s1)))
        (Some (rootp x))) x.
Proof.
  intros Hwf Hx Hp Hn1. pose proof (wf_nodup _ _ Hwf) as Hnd.
  pose proof (cut_perm t x Hnd Hx) as Hperm.
  assert (∀ q, q ∈ ptrs x → q ∉ cut (rootp x) t) as Hkeep.
  { rewrite Hperm in Hnd. by apply NoDup_app in Hnd as (_ & ? & _). }
  assert (is_tree (s_heap s1) x) as Ht1.
  { eapply prune_post_is_tree; [done|done|]. eapply is_tree_subtree; [apply Hwf|done]. }
  destruct (parents_ok_sub _ _ _ _ (wf_parents _ _ Hwf) Hx) as [par Hpar].
  pose proof (parents_ok_prune _ _ _ _ _ _ _ Hp Hkeep Hpar) as Hpar1.
  pose proof (NoDup_ptrs_subtree x t Hx Hnd) as Hndx.
  destruct x as [px tsx]. simpl rootp in *. split; simpl.
  - done.
  - apply (is_tree_frames [px] (λ n n', n_children n' = n_children n) (s_heap s1)); [done| |done].
    intros q. destruct (decide (q = px)) as [->|].
    + rewrite lookup_insert_eq, Hn1. split; [done|set_solver].
    + rewrite lookup_insert_ne by done. by destruct (s_heap s1 !! q).
  - done.
  -
    apply parents_ok_Br. apply parents_ok_Br in Hpar1 as [_ Hts]. split.
    + eexists. by rewrite lookup_insert_eq.
    + intros t' Ht'. eapply parents_ok_ext; [|by apply Hts]. intros q Hq.
      apply lookup_insert_ne. intros <-. apply NoDup_ptrs_Br in Hndx as [Hpx _]. by apply (Hpx t').
  - destruct Hp as (h1 & m1 & -> & Hh1 & Hm1). simpl in *. intros r p. rewrite Hm1.
    apply (index_remove s t (Br px tsx) (cut px t)); [done|done| |].
    + intros r'. rewrite list_elem_of_fmap. naive_solver.
    + intros q. destruct (decide (q = px)) as [->|].
      * rewrite lookup_insert_eq. simpl. rewrite Hh1 in Hn1.
        destruct (s_heap s !! px); simplify_eq/=. by rewrite prune_node_root.
      * rewrite lookup_insert_ne, Hh1 by done. destruct (s_heap s !! q); simpl; [|done].
        by rewrite prune_node_root.
  - destruct Hp as (h1 & m1 & -> & Hh1 & Hm1). simpl in *. intros q Hq. apply Hwf.
    destruct (s_heap s !! q) eqn:Hsq; [done|]. destruct (decide (q = px)) as [->|].
    + by rewrite Hh1, Hsq in Hn1.
    + rewrite lookup_insert_ne, Hh1, Hsq in Hq by done. by destruct Hq.
Qed.

(** The children of the finalized node that [prune] also drops: those at or
    before the first slot of the finalized epoch.  None when the finalized block
    is the checkpoint block itself or every child is in the epoch. *)
Definition compatible (h : heap) (x : tree) (start : Z) : Prop :=
  (∃ n, h !! rootp x = Some n ∧ n_slot n = start) ∨
  ∀ c, c ∈ branches x → ∃ n, h !! rootp c = Some n ∧ start < n_slot n.

Lemma prune_spec s t x n pp pn start :
  wf s t → s_ctx s = None → x ∈ subtrees t → s_heap s !! rootp x = Some n →
  n_root n = cp_root (s_finalizedCheckpoint s) →
  n_parent n = Some pp → s_heap s !! pp = Some pn →
  EpochStart (cp_epoch (s_finalizedCheckpoint s)) = Ok start →
  compatible (s_heap s) x start →
  ∃ s', prune s = (Ok tt, s') ∧ wf s' x ∧ s_finalizedDependentRoot s' = n_root pn.
Proof.
  intros Hwf Hctx Hx Hn Hr Hpar Hpn Hstart Hcomp.
  assert (s_nodeByRoot s !! cp_root (s_finalizedCheckpoint s) = Some (rootp x)) as Hidx.
  { apply (wf_index _ _ Hwf). split; [by apply rootp_subtree|eauto]. }
  unfold prune. erewrite M_bind_Ok by reflexivity. rewrite Hidx.
  mstep. rewrite Hpar. mstep. erewrite M_bind_Ok by reflexivity. rewrite (wf_root _ _ Hwf).
  set (s0 := upd_finalizedDependentRoot s (n_root pn)).
  assert (wf s0 t) as Hwf0 by (by destruct Hwf; split).
  destruct (pruneFinalizedNodeByRootMap_spec (rootp x) (fuelOf s) t s0) as (s1 & Hrun & Hp1);
    [apply Hwf|apply Hwf|apply Nat.lt_le_incl; apply height_fuel; apply Hwf|done|].
  erewrite M_bind_Ok by exact Hrun. clear Hrun.
  rewrite bool_decide_true in Hp1 by (by apply rootp_subtree).
  assert (rootp x ∉ cut (rootp x) t) as Hnc by (by intros [_ ?]%cut_in).
  destruct (prune_post_lookup _ _ _ _ _ _ _ Hp1 Hn Hnc) as (n1 & Hn1 & Hch & _ & _ & Hsl & _).
  mstep. erewrite M_bind_Ok by reflexivity. rewrite Hstart. erewrite M_bind_Ok by reflexivity.
  pose proof (wf_prune s0 t x s1 n1 Hwf0 Hx Hp1 Hn1) as Hwf1.
  set (s2 := upd_treeRootNode _ _) in *.
  erewrite M_bind_Ok by (apply run_deref; simpl; apply lookup_insert_eq).
  assert (s_finalizedDependentRoot s2 = n_root pn) as Hfd by (by destruct Hp1 as (? & ? & -> & _)).
  change (n_slot (set_parent n1 None)) with (n_slot n1). rewrite Hsl.
  destruct (Z.eqb_spec (n_slot n) start) as [|Hne]; [by exists s2|].
  destruct Hcomp as [(n' & ? & ?)|Hcomp]; [by simplify_eq|]. exists s2. split; [|done].
  change (n_children (set_parent n1 None)) with (n_children n1). rewrite Hch.
  destruct (is_tree_node (s_heap s) x) as (n0 & Hn0 & Hc0); [eapply is_tree_subtree; [apply Hwf|done]|].
  simplify_eq. rewrite Hc0.
  edestruct (mfor_invariant (S:=Store) rootp) with (I := λ (_ : list tree) s', s' = s2) as (s' & -> & ->);
    [done| |done]. intros done c rest ? Hdec ->. exists s2. split; [|done].
  assert (c ∈ branches x) as Hc by (rewrite Hdec; set_solver).
  destruct (Hcomp c Hc) as (nc & Hnc0 & Hslot).
  assert (s_heap s2 !! rootp c = Some nc) as Hc2.
  { pose proof (NoDup_ptrs_subtree x t Hx (wf_nodup _ _ Hwf)) as Hndx.
    assert (rootp c ∈ ptrs x) as Hcx.
    { apply rootp_subtree. eapply subtrees_branch; [apply subtrees_self|done]. }
    assert (rootp c ≠ rootp x) as Hcne.
    { destruct x. apply NoDup_ptrs_Br in Hndx as [Hpx _]. simpl. intros <-. apply (Hpx c Hc), rootp_in. }
    simpl. rewrite lookup_insert_ne by done.
    destruct (prune_post_lookup _ _ _ _ _ _ _ Hp1 Hnc0) as (nc' & -> & _ & _ & _ & _ & Heq).
    - pose proof (wf_nodup _ _ Hwf) as Hnd. rewrite (cut_perm t x) in Hnd by done.
      apply NoDup_app in Hnd as (_ & Hd & _). by apply Hd.
    - by rewrite Heq. }
  mstep. by rewrite (proj2 (Z.leb_gt _ _) Hslot).
Qed.

End prune_wf.

(** ** Insertion *)

Lemma wf_links s s' t : wf s t → links_of s s' → wf s' t.
Proof.
  intros Hwf (h' & c' & -> & Hf).
  pose proof (wf_frames s t _ _ h' keeps_links_best Hwf Hf) as Hwf'. by destruct Hwf'; split.
Qed.

(** A fresh node is outside the tree, its allocation is invisible. *)
Lemma wf_next_notin s t : wf s t → s_next s ∉ ptrs t.
Proof.
  intros Hwf Hp. destruct (wf_lookup s t _ Hwf Hp) as [n Hn].
  pose proof (wf_fresh _ _ Hwf (s_next s) ltac:(by eexists)). lia.
Qed.

Lemma wf_alloc s t nd : wf s t →
  wf (upd_next (upd_heap s (<[s_next s := nd]> (s_heap s))) (Pos.succ (s_next s))) t.
Proof.
  intros Hwf. pose proof (wf_next_notin s t Hwf) as Hnew.
  assert (∀ q, q ∈ ptrs t → <[s_next s := nd]> (s_heap s) !! q = s_heap s !! q) as Hext.
  { intros q Hq. apply lookup_insert_ne. by intros <-. }
  split; simpl.
  - apply Hwf.
  - eapply is_tree_ext; [done|apply Hwf].
  - apply Hwf.
  - eapply parents_ok_ext; [done|apply Hwf].
  - intros r p. rewrite (wf_index _ _ Hwf). split; intros [Hp Hr]; (split; [done|]);
      [by rewrite Hext|by rewrite Hext in Hr].
  - intros q Hq. destruct (decide (q = s_next s)) as [->|]; [lia|].
    rewrite lookup_insert_ne in Hq by done. pose proof (wf_fresh _ _ Hwf q Hq). lia.
Qed.

(** Hanging the allocated node [n] below [y] and indexing it. *)
Lemma wf_hang s t y ny n nd : wf s t → y ∈ subtrees t → n ∉ ptrs t →
  s_heap s !! rootp y = Some ny → s_heap s !! n = Some nd →
  n_parent nd = Some (rootp y) → n_children nd = [] → s_nodeByRoot s !! n_root nd = None →
  let t' := graft (rootp y) (branches y ++ [Br n []]) t in
  wf (upd_nodeByRoot (upd_heap s (<[rootp y := set_children ny (n_children ny ++ [n])]> (s_heap s)))
        (<[n_root nd := n]> (s_nodeByRoot s))) t' ∧ ptrs t' ≡ₚ n :: ptrs t.
Proof.
  intros Hwf Hy Hnew Hny Hnd Hpar Hch Hidx t'. pose proof (wf_nodup _ _ Hwf) as Hndt.
  assert (ptrs t' ≡ₚ n :: ptrs t) as Hperm.
  { apply (Permutation_app_inv_r (concat (ptrs <$> branches y))). unfold t'.
    rewrite ptrs_graft by done. rewrite fmap_app, concat_app. csimpl.
    by rewrite app_assoc, <-Permutation_cons_append. }
  split; [|done].
  assert (n_children ny = rootp <$> branches y) as Hcy.
  { destruct (is_tree_node (s_heap s) y) as (ny' & ? & ?); [eapply is_tree_subtree; [apply Hwf|done]|].
    by simplify_eq. }
  assert (rootp y ≠ n) as Hne by (intros <-; by apply Hnew, rootp_subtree).
  set (h1 := <[rootp y := _]> (s_heap s)).
  assert (∀ par u, parents_ok (s_heap s) par u → parents_ok h1 par u) as Hpar1.
  { intros par u. apply (parents_ok_frames (ptrs t) same_parent); [done|].
    eapply frames_insert; [apply _|by apply rootp_subtree|done|done]. }
  split; simpl.
  - unfold t'. rewrite rootp_graft. apply Hwf.
  - unfold h1. replace (n_children ny ++ [n]) with (rootp <$> (branches y ++ [Br n []]))
      by (by rewrite fmap_app, Hcy).
    apply is_tree_graft; [done|apply Hwf|by apply rootp_subtree|done|].
    intros z [Hz|Hz%list_elem_of_singleton]%elem_of_app.
    + split; [eapply is_tree_subtree; [apply Hwf|eauto using subtrees_branch]|].
      pose proof (NoDup_ptrs_subtree y t Hy Hndt) as Hndy.
      destruct y. apply NoDup_ptrs_Br in Hndy as [Hpy _]. by apply Hpy.
    + subst z. split; [apply is_tree_Br; split; [by eexists|set_solver]|].
      rewrite elem_of_ptrs_Br. set_solver.
  - rewrite Hperm. by constructor.
  - apply parents_ok_graft; [done|apply Hpar1, Hwf|by apply rootp_subtree|].
    intros z [Hz|Hz%list_elem_of_singleton]%elem_of_app; apply Hpar1.
    + destruct (parents_ok_sub (s_heap s) None t y) as [par' Hy']; [apply Hwf|done|].
      by apply (parents_ok_branch _ par').
    + subst z. apply parents_ok_Br. split; [by eexists|set_solver].
  - intros r p. rewrite Hperm, elem_of_cons.
    assert (∀ q, option_map n_root (h1 !! q) = option_map n_root (s_heap s !! q)) as Hroots.
    { intros q. unfold h1. destruct (decide (q = rootp y)) as [->|]; [by rewrite lookup_insert_eq, Hny|].
      by rewrite lookup_insert_ne. }
    assert ((∃ m, h1 !! p = Some m ∧ n_root m = r) ↔ option_map n_root (s_heap s !! p) = Some r) as ->.
    { rewrite <-Hroots. destruct (h1 !! p); naive_solver congruence. }
    destruct (decide (r = n_root nd)) as [->|Hr].
    + rewrite lookup_insert_eq. split; [intros [= <-]; rewrite Hnd; by auto|].
      intros [[->|Hp] Hrt]; [done|]. exfalso.
      assert (s_nodeByRoot s !! n_root nd = Some p); [|congruence]. apply (wf_index _ _ Hwf).
      split; [done|]. destruct (s_heap s !! p); simplify_eq/=; eauto.
    + rewrite lookup_insert_ne, (wf_index _ _ Hwf) by done. split.
      * intros [Hp (m & -> & Hm)]. split; [by right|]. by simpl; rewrite Hm.
      * intros [[->|Hp] Hrt]; [rewrite Hnd in Hrt; by simplify_eq/=|]. split; [done|].
        destruct (s_heap s !! p); simplify_eq/=; eauto.
  - intros q Hq. apply Hwf. destruct (decide (q = rootp y)) as [->|]; [by eexists|].
    unfold h1 in Hq. by rewrite lookup_insert_ne in Hq.
Qed.

(** [t] with possibly one more node, the new one. *)
Definition grown (t : tree) (n : ptr) (s : Store) : Prop :=
  ∃ t', wf s t' ∧ (ptrs t' ≡ₚ ptrs t ∨ ptrs t' ≡ₚ n :: ptrs t).

Section insert_wf.
Context `{cfg : BeaconChainConfig}.
Context (t1 : tree) (n : ptr) (root : Z).

(** The state while [insert] works on the node it has just hung into [t1]. *)
Definition hung (s : Store) : Prop :=
  wf s t1 ∧ ∃ nd, s_heap s !! n = Some nd ∧ n_optimistic nd = true ∧ n_root nd = root.

Lemma hung_same s s' : s_heap s' = s_heap s → s_next s' = s_next s →
  s_treeRootNode s' = s_treeRootNode s → s_nodeByRoot s' = s_nodeByRoot s → hung s → hung s'.
Proof.
  unfold hung. intros Hh Hn Hr Hi [Hwf Hnd]. rewrite Hh. split; [|done].
  destruct Hwf; split; rewrite ?Hh, ?Hn, ?Hr, ?Hi; done.
Qed.

Lemma updateBestDescendant_hung fuel p j f c : preserves hung (updateBestDescendant fuel p j f c).
Proof.
  intros s [Hwf (nd & Hnd & Ho & Hr)]. pose proof (updateBestDescendant_links s fuel p j f c s (links_of_refl s)) as Hl.
  split; [by eapply wf_links|]. destruct Hl as (h' & c' & -> & Hf).
  destruct (frames_lookup _ _ _ _ _ _ Hf Hnd) as (nd' & Hnd' & Heq & _).
  exists nd'. split_and!; [done|by rewrite Heq..].
Qed.

(** Undoing the insertion of a leaf, whatever the state of the context. *)
Lemma undo_hung t s : wf s t1 → t1 ≠ Br n [] → Br n [] ∈ subtrees t1 → ptrs t1 ≡ₚ n :: ptrs t →
  hung s → grown t n (tryM (removeNode (Some n)) s).2.
Proof.
  intros Hwf Hne Hleaf Hperm [_ (nd & Hnd & Ho & _)].
  destruct (removeNode_wf s t1 (Br n []) nd) as (y & ts' & ny & Hy & Hbr & Hny & Hrun); auto.
  destruct (wf_remove s t1 (Br n []) y ts' ny Hwf Hy Hbr Hny) as [Hwf' Hp'].
  unfold tryM. simpl rootp in Hrun. rewrite Hrun. simpl. eexists. split; [exact Hwf'|left].
  apply (Permutation_app_inv_r [n]). rewrite <-Hp', Hperm. apply Permutation_cons_append.
Qed.

(** After the node is hung, every path of [insertWithParent] keeps the store well
    formed, and the paths that report no error keep the new node. *)
Lemma insertWithParent_rest t clk slot s0 s :
  t1 ≠ Br n [] → Br n [] ∈ subtrees t1 → ptrs t1 ≡ₚ n :: ptrs t → hung s →
  let m := (if clk 1%nat <? s_genesisTime s0 then mret true
    else
      currentSlot ← mlift (CurrentSlot (s_genesisTime s0) (clk 2%nat));
      sss ← mlift (SinceSlotStart currentSlot (s_genesisTime s0) (clk 1%nat));
      boostThreshold ← mlift (AttestationDueAt currentSlot);
      whenM ((currentSlot =? slot) && (sss <? boostThreshold) && (s_proposerBoostRoot s0 =? 0))
        (mmodify (λ s, upd_proposerBoostRoot s root));;
      e ← mlift (ToEpoch currentSlot);
      r ← match s_treeRootNode s0 with
          | Some t => tryM (updateBestDescendant (fuelOf s0) t
                              (cp_epoch (s_justifiedCheckpoint s0))
                              (cp_epoch (s_finalizedCheckpoint s0)) e)
          | None => mpanic
          end;
      match r with
      | inl _ => mret false
      | inr err => tryM (removeNode (Some n));; mfail err
      end) in
  grown t n (m s).2 ∧ (is_ok (m s).1 = true → hung (m s).2).
Proof.
  intros Hne Hleaf Hperm Hs m.
  set (G := λ s, grown t n s).
  assert (∀ s, hung s → G s) as HG.
  { intros s' [Hwf _]. exists t1. by auto. }
  assert (preserves hung (mmodify (λ s, upd_proposerBoostRoot s root))) as Hboost.
  { apply preserves_modify. intros s'. by apply hung_same. }
  (* the state before the result of [updateBestDescendant] is inspected *)
  assert (∀ A (k : A → MS bool) (m' : MS A) s, preserves hung m' → hung s →
    (∀ a s', hung s' → G (k a s').2 ∧ (is_ok (k a s').1 = true → hung (k a s').2)) →
    G ((m' ≫= k) s).2 ∧ (is_ok ((m' ≫= k) s).1 = true → hung ((m' ≫= k) s).2)) as Hbind.
  { intros A k m' s' Hm' Hs' Hk. specialize (Hm' s' Hs'). unfold mbind, M_bind.
    destruct (m' s') as [[] s'']; simpl in *; auto. }
  unfold m. clear m. destruct (clk 1%nat <? s_genesisTime s0); [split; [by apply HG|done]|].
  do 3 (apply Hbind; [apply preserves_lift|done|clear s Hs; intros ? s Hs]).
  apply Hbind; [by apply preserves_whenM|done|clear s Hs; intros ? s Hs].
  apply Hbind; [apply preserves_lift|done|clear s Hs; intros ? s Hs].
  apply Hbind; [|done|clear s Hs; intros r s Hs].
  { destruct (s_treeRootNode s0); [apply preserves_tryM, updateBestDescendant_hung|apply preserves_panic]. }
  destruct r as [?|err]; [split; [by apply HG|done]|].
  pose proof (undo_hung t s (proj1 Hs) Hne Hleaf Hperm Hs) as Hundo.
  unfold mbind, M_bind. destruct (tryM (removeNode (Some n)) s) as [[] s']; by split.
Qed.

End insert_wf.

Section insert_thm.
Context `{cfg : BeaconChainConfig}.

(** What [setTarget] does to the new node, if it returns: only its target. *)
Lemma setTarget_spec n slot parent s nd :
  s_heap s !! n = Some nd →
  ∃ tgt, (setTarget n slot parent s).2 = upd_heap s (<[n := set_target nd tgt]> (s_heap s)).
Proof.
  intros Hn. assert (∀ tgt, modNode n (λ nd, set_target nd tgt) s =
    (Ok tt, upd_heap s (<[n := set_target nd tgt]> (s_heap s)))) as Hmod.
  { intros tgt. by rewrite (run_modNode n _ s nd). }
  assert (∃ tgt, s = upd_heap s (<[n := set_target nd tgt]> (s_heap s))) as Hsame.
  { exists (n_target nd). rewrite insert_id; [by rewrite upd_heap_self|]. by destruct nd. }
  unfold setTarget, mbind, M_bind, mlift, mret, M_ret.
  repeat case_match; simplify_eq/=; try done; rewrite ?Hmod; simpl; eauto;
    unfold deref in *; case_match; simplify_eq; rewrite ?Hmod in *; simplify_eq/=; eauto.
Qed.

(** The bookkeeping at the end of [insert] does not touch the tree. *)
Lemma insert_tail_hung t1 n root slot s0 clk :
  preserves (hung t1 n root)
    (currentSlot ← mlift (CurrentSlot (s_genesisTime s0) (clk 3%nat));
     whenM (slot +64 SlotsPerEpoch >? currentSlot)
       (i ← mlift (remSlot slot SlotsPerEpoch);
        if i <? fieldSlotsPerEpoch
        then mmodify (λ s, upd_receivedBlocksLastEpoch s
                       (<[Z.to_nat i := slot]> (s_receivedBlocksLastEpoch s)))
        else mpanic);;
     s ← mget;
     hn ← deref' (s_highestReceivedNode s);
     whenM (slot >? n_slot hn) (mmodify (λ s, upd_highestReceivedNode s (Some n)));;
     mret n).
Proof.
  assert (∀ f, (∀ s, s_heap (f s) = s_heap s ∧ s_next (f s) = s_next s ∧
    s_treeRootNode (f s) = s_treeRootNode s ∧ s_nodeByRoot (f s) = s_nodeByRoot s) →
    preserves (hung t1 n root) (mmodify f)) as Hmod.
  { intros f Hf. apply preserves_modify. intros s. destruct (Hf s) as (? & ? & ? & ?).
    by apply hung_same. }
  preserve; apply preserves_whenM; preserve; by apply Hmod.
Qed.

(** ... and returns the node itself. *)
Lemma insert_tail_ok (n : ptr) slot s0 clk s m :
  ((currentSlot ← mlift (CurrentSlot (s_genesisTime s0) (clk 3%nat));
     whenM (slot +64 SlotsPerEpoch >? currentSlot)
       (i ← mlift (remSlot slot SlotsPerEpoch);
        if i <? fieldSlotsPerEpoch
        then mmodify (λ s, upd_receivedBlocksLastEpoch s
                       (<[Z.to_nat i := slot]> (s_receivedBlocksLastEpoch s)))
        else mpanic);;
     s ← mget;
     hn ← deref' (s_highestReceivedNode s);
     whenM (slot >? n_slot hn) (mmodify (λ s, upd_highestReceivedNode s (Some n)));;
     mret n) s).1 = Ok m → m = n.
Proof.
  revert m. do 5 (eapply (M_bind_cases (λ out, ∀ m, out.1 = Ok m → m = n));
    [intros ? ? _|intros r ? _ _ Hr m; simpl; by intros ->]). by intros m [= ->].
Qed.

Lemma hung_index t1 n root s : n ∈ ptrs t1 → hung t1 n root s → s_nodeByRoot s !! root = Some n.
Proof. intros Hn [Hwf (nd & Hnd & _ & Hr)]. apply (wf_index _ _ Hwf). eauto. Qed.

(** The branch of a block with a known parent. *)
Lemma insert_known_parent clk blk je fe s t p ph :
  wf s t → s_nodeByRoot s !! b_root blk = None → s_nodeByRoot s !! b_parentRoot blk = Some p →
  let n := s_next s in
  let nd := mkNode (b_slot blk) (b_root blk) ph (Some p) None [] je je fe fe 0 0 None true
              (clk 0%nat) in
  ∀ tgt, ∃ t1 s1, insertWithParent clk n p (b_root blk) (b_slot blk)
      (upd_nodeByRoot (upd_next (upd_heap s (<[n := set_target nd tgt]> (s_heap s))) (Pos.succ n))
         (<[b_root blk := n]> (s_nodeByRoot s))) = s1 ∧ ptrs t1 ≡ₚ n :: ptrs t ∧
      grown t n s1.2 ∧ (is_ok s1.1 = true → hung t1 n (b_root blk) s1.2).
Proof.
  intros Hwf Hnew Hpar n nd tgt.
  pose proof (wf_next_notin s t Hwf) as Hfresh. pose proof Hpar as Hpar0.
  apply (wf_index _ _ Hwf) in Hpar0 as [Hp (pn & Hpn & _)].
  set (sA := upd_next (upd_heap s (<[n := set_target nd tgt]> (s_heap s))) (Pos.succ n)).
  assert (wf sA t) as HwfA by (by apply wf_alloc).
  apply list_elem_of_fmap in Hp as (y & -> & Hy).
  assert (rootp y ≠ n) as Hne.
  { intros Heq. apply Hfresh. fold n. rewrite <-Heq. by apply rootp_subtree. }
  assert (s_heap sA !! rootp y = Some pn) as HpA by (simpl; by rewrite lookup_insert_ne).
  assert (s_heap sA !! n = Some (set_target nd tgt)) as HnA by (simpl; by rewrite lookup_insert_eq).
  destruct (wf_hang sA t y pn n (set_target nd tgt)) as [Hwf1 Hperm]; try done.
  set (t1 := graft _ _ _) in *. set (sB := upd_nodeByRoot _ _) in Hwf1.
  assert (hung t1 n (b_root blk) sB) as Hhung.
  { split; [done|]. exists (set_target nd tgt). simpl. by rewrite lookup_insert_ne. }
  unfold insertWithParent. erewrite M_bind_Ok by (by apply (run_modNode (rootp y) _ _ pn)).
  exists t1. eexists. split; [reflexivity|]. split; [done|].
  erewrite M_bind_Ok by reflexivity.
  apply (insertWithParent_rest t1 n (b_root blk) t clk (b_slot blk) sB sB); [| |done|done].
  - intros Heq. apply Hfresh. apply (f_equal rootp) in Heq. unfold t1 in Heq.
    rewrite rootp_graft in Heq. fold n. simpl in Heq. rewrite <-Heq. apply rootp_in.
  - apply graft_branch; [apply Hwf|done|set_solver].
Qed.

Lemma wf_grown s t n : wf s t → grown t n s.
Proof. intros Hwf. exists t. auto. Qed.

(** The outcome that [insert] promises: the tree grew by the new node at most, a
    returned node is the one indexed by the block's root, and a block whose parent
    is unknown is refused. *)
Definition insert_ok (blk : ROBlock) (s : Store) (t : tree) (out : gores ptr * Store) : Prop :=
  grown t (s_next s) out.2 ∧
  (∀ n, out.1 = Ok n → s_nodeByRoot out.2 !! b_root blk = Some n) ∧
  (s_nodeByRoot s !! b_root blk = None → s_nodeByRoot s !! b_parentRoot blk = None →
   is_ok out.1 = false).

Lemma insert_ok_fail blk s t (r : gores ptr) s' : wf s' t → is_ok r = false →
  insert_ok blk s t (r, s').
Proof. intros Hwf Hr. split_and!; [by apply wf_grown| |done]. simpl. by intros n ->. Qed.

Lemma insert_ok_hung blk s t t1 (out : gores ptr * Store) :
  s_nodeByRoot s !! b_parentRoot blk ≠ None → s_next s ∈ ptrs t1 →
  (∀ s', hung t1 (s_next s) (b_root blk) s' → grown t (s_next s) s') →
  hung t1 (s_next s) (b_root blk) out.2 ∧ (∀ m, out.1 = Ok m → m = s_next s) →
  insert_ok blk s t out.
Proof.
  intros Hpar Hn HG [Hh Hm]. split_and!; [auto| |done].
  intros m ->%Hm. by apply (hung_index t1).
Qed.

Lemma insert_spec clk blk je fe s t : wf s t → insert_ok blk s t (insert clk blk je fe s).
Proof.
  intros Hwf. unfold insert. apply M_bind_cases.
  2: { intros r s' Hs' _ Hr. destruct (b_version blk >=? version_Bellatrix); simpl in Hs'; subst;
       by apply insert_ok_fail. }
  intros ph s' Hs'. assert (s' = s) as ->.
  { unfold mlift, mret, M_ret in Hs'. destruct (b_version blk >=? version_Bellatrix); by simplify_eq. }
  clear Hs'. erewrite M_bind_Ok by reflexivity.
  destruct (s_nodeByRoot s !! b_root blk) as [n0|] eqn:Hidx.
  { split_and!; simpl; [by apply wf_grown|by intros n [= ->]|congruence]. }
  erewrite M_bind_Ok by reflexivity. set (nd := mkNode _ _ _ _ _ _ _ _ _ _ _ _ _ _ _).
  destruct (setTarget_spec (s_next s) (b_slot blk) (s_nodeByRoot s !! b_parentRoot blk)
    (upd_next (upd_heap s (<[s_next s := nd]> (s_heap s))) (Pos.succ (s_next s))) nd) as [tgt Htgt];
    [apply lookup_insert_eq|].
  simpl in Htgt. rewrite insert_insert_eq in Htgt.
  pose proof (wf_alloc s t (set_target nd tgt) Hwf) as HwfA.
  apply M_bind_cases; [|intros r s' <- _ Hr; rewrite Htgt; by apply insert_ok_fail].
  intros [] s' Hrun. rewrite Hrun in Htgt. simpl in Htgt. subst s'. clear Hrun.
  erewrite M_bind_Ok by reflexivity.
  match goal with |- context [(_ ≫= _) ?st] =>
    change st with (upd_nodeByRoot (upd_next (upd_heap s (<[s_next s := set_target nd tgt]> (s_heap s)))
      (Pos.succ (s_next s))) (<[b_root blk := s_next s]> (s_nodeByRoot s))) end.
  destruct (s_nodeByRoot s !! b_parentRoot blk) as [p|] eqn:Hpar.
  - destruct (insert_known_parent clk blk je fe s t p ph Hwf Hidx Hpar tgt)
      as (t1 & [ro so] & Hout & Hperm & Hgrown & Hhung). simpl in Hgrown, Hhung.
    assert (∀ s', hung t1 (s_next s) (b_root blk) s' → grown t (s_next s) s') as HG.
    { intros s' [Hwf1 _]. exists t1. auto. }
    apply M_bind_cases.
    + intros early s' Hrun. fold nd in Hout. rewrite Hout in Hrun. simplify_eq/=.
      specialize (Hhung eq_refl). apply (insert_ok_hung blk s t t1); [by rewrite Hpar|rewrite Hperm; set_solver|done|].
      destruct early; [split; [done|by intros m [= <-]]|].
      split; [by apply insert_tail_hung|by apply insert_tail_ok].
    + intros r s' <- _ Hr. fold nd in Hout. rewrite Hout. split_and!; simpl; [done|by intros ? ->|done].
  - rewrite (wf_root _ _ Hwf). apply insert_ok_fail; [|done]. simpl.
    rewrite delete_insert_id by done. exact HwfA.
Qed.

End insert_thm.
