(* ===== verification/ForkChoice.v ===== *)
(** * forkchoice.go, on_tick.go, proposer_boost.go, last_root.go,
    reorg_late_blocks.go: the fork choice object

    [ForkChoice] holds the store, the votes and the balances.  Clock readings are
    arguments, as is the order in which Go's [range] visits a map. *)
From S2P Require Import Prelude MathHelper Primitives Config SlotTime ForkTypes ForkNode ForkStore.

Record ForkChoice := mkForkChoice {
  f_store : Store;
  f_votes : list Vote;
  f_balances : list Z;
  f_justifiedBalances : list Z;
  f_numActiveValidators : Z;
  f_balancesByRoot : Z → gores (list Z);
}.

Abbreviation MF := (M ForkChoice).

Section fc_setters.
Context (f : ForkChoice).
Definition upd_store s := mkForkChoice s (f_votes f) (f_balances f) (f_justifiedBalances f)
  (f_numActiveValidators f) (f_balancesByRoot f).
Definition upd_votes v := mkForkChoice (f_store f) v (f_balances f) (f_justifiedBalances f)
  (f_numActiveValidators f) (f_balancesByRoot f).
Definition upd_balances b := mkForkChoice (f_store f) (f_votes f) b (f_justifiedBalances f)
  (f_numActiveValidators f) (f_balancesByRoot f).
Definition upd_justifiedBalances b n := mkForkChoice (f_store f) (f_votes f) (f_balances f) b
  n (f_balancesByRoot f).
Definition upd_balancesByRoot h := mkForkChoice (f_store f) (f_votes f) (f_balances f)
  (f_justifiedBalances f) (f_numActiveValidators f) h.
End fc_setters.

(** A [Store] method called on [f.store]. *)
Definition onStore {A} (m : MS A) : MF A := λ f,
  let '(r, s) := m (f_store f) in (r, upd_store f s).

(** Seconds into the slot up to which a proposer counts as early. *)
Definition orphanLateBlockProposingEarly : Z := 2.

Section forkchoice.
Context `{cfg : BeaconChainConfig}.

Definition emptyStore : Store :=
  let cp := mkCheckpoint 0 0 in
  mkStore cp cp cp cp cp 0 0 0 0 0 None None ∅ ∅ 0 0 None
    (replicate (Z.to_nat fieldSlotsPerEpoch) 0) false ∅ 1 None.

Definition New (balancesByRoot : Z → gores (list Z)) : ForkChoice :=
  mkForkChoice emptyStore [] [] [] 0 balancesByRoot.

Definition NodeCount (f : ForkChoice) : nat := size (s_nodeByRoot (f_store f)).

(** ** Votes and balances *)

(** The inner loop of [ProcessAttestation] that grows the vote slice. *)
Definition growVotes (votes : list Vote) (index : Z) : list Vote :=
  votes ++ replicate (Z.to_nat (index + 1) - length votes) (mkVote ZeroHash ZeroHash 0).

Definition processVote (blockRoot targetEpoch : Z) (votes : list Vote) (index : Z)
    : list Vote :=
  let votes := growVotes votes index in
  match votes !! Z.to_nat index with
  | None => votes
  | Some v =>
      let newVote := (v_nextRoot v =? ZeroHash) && (v_currentRoot v =? ZeroHash) in
      if newVote || (targetEpoch >? v_nextEpoch v)
      then <[Z.to_nat index := mkVote (v_currentRoot v) blockRoot targetEpoch]> votes
      else votes
  end.

Definition ProcessAttestation (validatorIndices : list Z) (blockRoot targetEpoch : Z) : MF unit :=
  mmodify (λ f, upd_votes f (foldl (processVote blockRoot targetEpoch)
                               (f_votes f) validatorIndices)).

(** The body of the loop of [updateBalances] for one validator index. *)
Definition updateBalance (newBalances : list Z) (index : nat) : MF unit :=
  f ← mget;
  if bool_decide (Z.of_nat index ∈ s_slashedIndices (f_store f)) then mret tt
  else
    match f_votes f !! index with
    | None => mpanic
    | Some vote =>
        if (v_currentRoot vote =? ZeroHash) && (v_nextRoot vote =? ZeroHash) then mret tt
        else
          let oldBalance := default 0 (f_balances f !! index) in
          let newBalance := default 0 (newBalances !! index) in
          (if negb (v_currentRoot vote =? v_nextRoot vote) || negb (oldBalance =? newBalance) then
             match s_nodeByRoot (f_store f) !! v_nextRoot vote with
             | Some nextNode =>
                 if negb (v_nextRoot vote =? ZeroHash)
                 then onStore (modNode nextNode (λ n, set_balance n (n_balance n +64 newBalance)))
                 else mret tt
             | None => mret tt
             end;;
             match s_nodeByRoot (f_store f) !! v_currentRoot vote with
             | Some currentNode =>
                 if negb (v_currentRoot vote =? ZeroHash)
                 then onStore (modNode currentNode (λ n,
                        if n_balance n <? oldBalance then set_balance n 0
                        else set_balance n (n_balance n -64 oldBalance)))
                 else mret tt
             | None => mret tt
             end
           else mret tt);;
          mmodify (λ f, upd_votes f
            (<[index := mkVote (v_nextRoot vote) (v_nextRoot vote) (v_nextEpoch vote)]>
               (f_votes f)))
    end.

Definition updateBalances : MF unit :=
  f ← mget;
  let newBalances := f_justifiedBalances f in
  mfor (seq 0 (length (f_votes f))) (updateBalance newBalances);;
  mmodify (λ f, upd_balances f newBalances).

Definition applyProposerBoostScore : MS unit :=
  s ← mget;
  whenM (negb (s_previousProposerBoostRoot s =? ZeroHash))
    (match s_nodeByRoot s !! s_previousProposerBoostRoot s with
     | None => mret tt
     | Some p => modNode p (λ n, set_balance n (n_balance n -64 s_previousProposerBoostScore s))
     end);;
  proposerScore ←
    (if negb (s_proposerBoostRoot s =? ZeroHash) then
       match s_nodeByRoot s !! s_proposerBoostRoot s with
       | None => mret 0
       | Some p =>
           let score := (s_committeeWeight s *64 ProposerScoreBoost) / 100 in
           modNode p (λ n, set_balance n (n_balance n +64 score));;
           mret score
       end
     else mret 0);
  mmodify (λ s, upd_previousProposerBoostScore
                  (upd_previousProposerBoostRoot s (s_proposerBoostRoot s)) proposerScore).

Definition sumBalances (balances : list Z) : Z * Z :=
  foldl (λ '(w, n) val, if val >? 0 then (w +64 val, n +64 1) else (w, n)) (0, 0) balances.

Definition updateJustifiedBalances (root : Z) : MF unit :=
  f ← mget;
  balances ← mlift (f_balancesByRoot f root);
  let '(w, n) := sumBalances balances in
  mmodify (λ f, upd_store (upd_justifiedBalances f balances n)
                  (upd_committeeWeight (f_store f) w));;
  if SlotsPerEpoch =? 0 then mpanic
  else mmodify (λ f, upd_store f (upd_committeeWeight (f_store f) (w / SlotsPerEpoch))).

(** [clk 0] is read by [EpochsSinceGenesis] in [Head], [clk 1] in [store.head]. *)
Definition Head (clk : nat → Z) : MF Z :=
  updateBalances;;
  onStore applyProposerBoostScore;;
  f ← mget;
  t ← match s_treeRootNode (f_store f) with Some t => mret t | None => mpanic end;
  onStore (applyWeightChanges (fuelOf (f_store f)) t);;
  f ← mget;
  let jc := s_justifiedCheckpoint (f_store f) in
  let fc := s_finalizedCheckpoint (f_store f) in
  currentEpoch ← mlift (EpochsSinceGenesis (s_genesisTime (f_store f)) (clk 0%nat));
  onStore (updateBestDescendant (fuelOf (f_store f)) t (cp_epoch jc) (cp_epoch fc) currentEpoch);;
  onStore (head (clk 1%nat)).

Definition InsertSlashedIndex (index : Z) : MF unit :=
  f ← mget;
  if bool_decide (index ∈ s_slashedIndices (f_store f)) then mret tt
  else
    mmodify (λ f, upd_store f (upd_slashedIndices (f_store f)
                    ({[index]} ∪ s_slashedIndices (f_store f))));;
    if index >=? Z.of_nat (length (f_balances f)) then mret tt
    else if index >=? Z.of_nat (length (f_votes f)) then mret tt
    else
      match f_votes f !! Z.to_nat index, f_balances f !! Z.to_nat index with
      | Some vote, Some bal =>
          match s_nodeByRoot (f_store f) !! v_currentRoot vote with
          | None => mret tt
          | Some p =>
              onStore (modNode p (λ n,
                if n_balance n <? bal then set_balance n 0
                else set_balance n (n_balance n -64 bal)))
          end
      | _, _ => mpanic
      end.

(** ** Checkpoints *)

Definition updateCheckpoints (jc fc : Checkpoint) : MF unit :=
  f ← mget;
  (if cp_epoch jc >? cp_epoch (s_justifiedCheckpoint (f_store f)) then
     mmodify (λ f, upd_store f (upd_justifiedCheckpoint
       (upd_prevJustifiedCheckpoint (f_store f) (s_justifiedCheckpoint (f_store f))) jc));;
     updateJustifiedBalances (cp_root jc)
   else mret tt);;
  f ← mget;
  if cp_epoch fc <=? cp_epoch (s_finalizedCheckpoint (f_store f)) then mret tt
  else
    mmodify (λ f, upd_store f (upd_finalizedCheckpoint (f_store f) fc));;
    onStore prune.

(** [clk 0..3] are read by [insert], [clk 4] by [pullTips]. *)
Definition InsertNode (clk : nat → Z) (state : BeaconState) (roblock : ROBlock) : MF unit :=
  match st_currentJustified state, st_finalized state with
  | Some jc, Some fc =>
      node ← onStore (insert clk roblock (cp_epoch jc) (cp_epoch fc));
      '(jc, fc) ← onStore (pullTips (clk 4%nat) state node jc fc);
      r ← tryM (updateCheckpoints jc fc);
      match r with
      | inl _ => mret tt
      | inr err => tryM (onStore (removeNode (Some node)));; mfail err
      end
  | _, _ => mfail errInvalidNilCheckpoint
  end.

Record BlockAndCheckpoints := mkBAC {
  bac_block : ROBlock; bac_justified : Checkpoint; bac_finalized : Checkpoint
}.

(** [clk i] are the clock readings while the [i]-th block is inserted. *)
Definition InsertChain (clk : nat → nat → Z) (chain : list BlockAndCheckpoints) : MF unit :=
  mfor (imap pair chain) (λ '(i, bcp),
    onStore (insert (clk i) (bac_block bcp) (cp_epoch (bac_justified bcp))
                 (cp_epoch (bac_finalized bcp)));;
    updateCheckpoints (bac_justified bcp) (bac_finalized bcp)).

Definition updateUnrealizedCheckpoints (order : list ptr) : MF unit :=
  mfor order (λ p,
    onStore (modNode p (λ n, set_epochs n (n_unrealizedJustifiedEpoch n)
      (n_unrealizedJustifiedEpoch n) (n_unrealizedFinalizedEpoch n)
      (n_unrealizedFinalizedEpoch n)));;
    node ← onStore (deref p);
    f ← mget;
    (if n_justifiedEpoch node >? cp_epoch (s_justifiedCheckpoint (f_store f)) then
       mmodify (λ f, upd_store f (upd_justifiedCheckpoint
         (upd_prevJustifiedCheckpoint (f_store f) (s_justifiedCheckpoint (f_store f)))
         (s_unrealizedJustifiedCheckpoint (f_store f))));;
       updateJustifiedBalances (cp_root (s_unrealizedJustifiedCheckpoint (f_store f)))
     else mret tt);;
    f ← mget;
    if n_finalizedEpoch node >? cp_epoch (s_finalizedCheckpoint (f_store f)) then
      mmodify (λ f, upd_store f (upd_finalizedCheckpoint (f_store f)
                      (s_unrealizedFinalizedCheckpoint (f_store f))))
    else mret tt).

Definition NewSlot (order : list ptr) (slot : Z) : MF unit :=
  onStore (mmodify (λ s, upd_proposerBoostRoot s 0));;
  b ← mlift (IsEpochStart slot);
  if negb b then mret tt
  else
    updateUnrealizedCheckpoints order;;
    onStore prune.

Definition UpdateJustifiedCheckpoint (jc : option Checkpoint) : MF unit :=
  match jc with
  | None => mfail errInvalidNilCheckpoint
  | Some jc =>
      mmodify (λ f, upd_store f (upd_justifiedCheckpoint
        (upd_prevJustifiedCheckpoint (f_store f) (s_justifiedCheckpoint (f_store f))) jc));;
      updateJustifiedBalances (cp_root jc)
  end.

Definition UpdateFinalizedCheckpoint (fc : option Checkpoint) : MF unit :=
  match fc with
  | None => mfail errInvalidNilCheckpoint
  | Some fc => mmodify (λ f, upd_store f (upd_finalizedCheckpoint (f_store f) fc))
  end.

Definition SetGenesisTime (genesis : Z) : MS unit :=
  mmodify (λ s, upd_genesisTime s (truncateSecond genesis)).
Definition SetOriginRoot (root : Z) : MS unit := mmodify (λ s, upd_originRoot s root).
Definition SetBalancesByRooter (h : Z → gores (list Z)) : MF unit :=
  mmodify (λ f, upd_balancesByRoot f h).

(** ** Queries *)

Definition HasNode (root : Z) : MS bool :=
  gets (λ s, bool_decide (is_Some (s_nodeByRoot s !! root))).

(** [n, ok := f.store.nodeByRoot[root]; if !ok || n == nil { return ErrNilNode }] *)
Definition lookupNode (root : Z) : MS Node :=
  s ← mget;
  match s_nodeByRoot s !! root with None => mfail ErrNilNode | Some p => deref p end.

Definition IsCanonical (root : Z) : MS bool :=
  s ← mget;
  match s_nodeByRoot s !! root with
  | None => mret false
  | Some node =>
      nd ← deref node;
      hd ← deref' (s_headNode s);
      match n_bestDescendant nd, n_bestDescendant hd with
      | None, None => mret (bool_decide (Some node = s_headNode s))
      | None, Some hb => mret (bool_decide (node = hb))
      | Some b, None => mret (bool_decide (Some b = s_headNode s))
      | Some b, Some hb => mret (bool_decide (b = hb))
      end
  end.

(** [true] accompanies the error as the returned value. *)
Definition IsOptimistic (root : Z) : MS bool :=
  s ← mget;
  if s_allTipsAreInvalid s then mret true
  else nd ← lookupNode root; mret (n_optimistic nd).

(** [for n != nil && n.slot > slot { n = n.parent }] *)
Fixpoint ancestorLoop (fuel : nat) (n : option ptr) (slot : Z) : MS (option ptr) :=
  match fuel with
  | O => mstuck
  | S fuel' =>
      match n with
      | None => mret None
      | Some p =>
          nd ← deref p;
          if n_slot nd >? slot then ctxErr;; ancestorLoop fuel' (n_parent nd) slot
          else mret (Some p)
      end
  end.

Definition AncestorRoot (root slot : Z) : MS Z :=
  s ← mget;
  match s_nodeByRoot s !! root with
  | None => mfail ErrNilNode
  | Some node =>
      n ← ancestorLoop (S (fuelOf s)) (Some node) slot;
      match n with
      | None => mfail ErrNilNode
      | Some p => nd ← deref p; mret (n_root nd)
      end
  end.

(** The loop of [CommonAncestor]. *)
Fixpoint commonLoop (fuel : nat) (n1 n2 : ptr) : MS (Z * Z) :=
  match fuel with
  | O => mstuck
  | S fuel' =>
      ctxErr;;
      nd1 ← deref n1;
      nd2 ← deref n2;
      let '(m1, m2) := if n_slot nd1 >? n_slot nd2 then (n_parent nd1, Some n2)
                       else (Some n1, n_parent nd2) in
      match m1, m2 with
      | Some p1, Some p2 =>
          if bool_decide (p1 = p2) then nd ← deref p1; mret (n_root nd, n_slot nd)
          else commonLoop fuel' p1 p2
      | _, _ => mfail errUnknownCommonAncestor
      end
  end.

Definition CommonAncestor (r1 r2 : Z) : MS (Z * Z) :=
  s ← mget;
  match s_nodeByRoot s !! r1 with
  | None => mfail errUnknownCommonAncestor
  | Some n1 =>
      nd1 ← deref n1;
      if r1 =? r2 then mret (r1, n_slot nd1)
      else
        match s_nodeByRoot s !! r2 with
        | None => mfail errUnknownCommonAncestor
        | Some n2 => commonLoop (2 * fuelOf s) n1 n2
        end
  end.

Definition IsViableForCheckpoint (ignoreUnviableAttestations : bool) (cp : Checkpoint) : MS bool :=
  s ← mget;
  match s_nodeByRoot s !! cp_root cp with
  | None => mret false
  | Some p =>
      node ← deref p;
      epochStart ← mlift (EpochStart (cp_epoch cp));
      if n_slot node >? epochStart then mret false
      else if (length (n_children node) =? 0)%nat then mret true
      else if n_slot node =? epochStart then mret true
      else
        viaEpoch ← (if negb ignoreUnviableAttestations then
                      nodeEpoch ← mlift (ToEpoch (n_slot node));
                      mret (nodeEpoch +64 1 =? cp_epoch cp)
                    else mret false);
        if viaEpoch : bool then mret true
        else mfold (n_children node) false (λ (found : bool) child,
               if found then mret true
               else c ← deref child; mret (n_slot c >? epochStart))
  end.

Definition SetOptimisticToValid (root : Z) : MS unit :=
  s ← mget;
  match s_nodeByRoot s !! root with
  | None => mfail ErrNilNode
  | Some p => setNodeAndParentValidated (fuelOf s) p
  end.

Definition CachedHeadRoot : MS Z :=
  s ← mget;
  match s_headNode s with None => mret 0 | Some p => n ← deref p; mret (n_root n) end.

Definition payloadHashAt (root : Z) : MS Z :=
  s ← mget;
  match s_nodeByRoot s !! root with None => mret 0 | Some p => n ← deref p; mret (n_payloadHash n) end.
Definition FinalizedPayloadBlockHash : MS Z :=
  s ← mget; payloadHashAt (cp_root (s_finalizedCheckpoint s)).
Definition JustifiedPayloadBlockHash : MS Z :=
  s ← mget; payloadHashAt (cp_root (s_justifiedCheckpoint s)).
Definition UnrealizedJustifiedPayloadBlockHash : MS Z :=
  s ← mget; payloadHashAt (cp_root (s_unrealizedJustifiedCheckpoint s)).

Record Dump := mkDumpFC {
  dump_justified : Checkpoint; dump_unrealizedJustified : Checkpoint;
  dump_finalized : Checkpoint; dump_unrealizedFinalized : Checkpoint;
  dump_proposerBoostRoot : Z; dump_previousProposerBoostRoot : Z;
  dump_headRoot : Z; dump_nodes : list DumpNode
}.

Definition ForkChoiceDump : MS Dump :=
  s ← mget;
  nodes ← match s_treeRootNode s with
          | Some t => nodeTreeDump (fuelOf s) t []
          | None => mret []
          end;
  headRoot ← CachedHeadRoot;
  mret (mkDumpFC (s_justifiedCheckpoint s) (s_unrealizedJustifiedCheckpoint s)
          (s_finalizedCheckpoint s) (s_unrealizedFinalizedCheckpoint s)
          (s_proposerBoostRoot s) (s_previousProposerBoostRoot s) headRoot nodes).

Definition Weight (root : Z) : MS Z := n ← lookupNode root; mret (n_weight n).
Definition SlotOf (root : Z) : MS Z := n ← lookupNode root; mret (n_slot n).

Definition ParentRoot (root : Z) : MS Z :=
  n ← lookupNode root;
  match n_parent n with None => mret 0 | Some p => pn ← deref p; mret (n_root pn) end.

Fixpoint targetRootLoop (fuel : nat) (root epoch : Z) : MS Z :=
  match fuel with
  | O => mstuck
  | S fuel' =>
      n ← lookupNode root;
      nodeEpoch ← mlift (ToEpoch (n_slot n));
      if epoch >? nodeEpoch then mret (n_root n)
      else
        match n_target n with
        | None => mret 0
        | Some t =>
            tn ← deref t;
            let targetRoot := n_root tn in
            if epoch =? nodeEpoch then mret targetRoot
            else
              targetNode ← lookupNode targetRoot;
              te ← mlift (ToEpoch (n_slot targetNode));
              if nodeEpoch =? te then
                match n_parent targetNode with
                | None => mfail ErrNilNode
                | Some p => pn ← deref p; targetRootLoop fuel' (n_root pn) epoch
                end
              else targetRootLoop fuel' (n_root targetNode) epoch
        end
  end.

Definition TargetRootForEpoch (root epoch : Z) : MS Z :=
  s ← mget; targetRootLoop (fuelOf s) root epoch.

Definition DependentRootForEpoch (root epoch : Z) : MS Z :=
  tr ← TargetRootForEpoch root epoch;
  if tr =? 0 then mret 0
  else
    node ← lookupNode tr;
    e ← mlift (ToEpoch (n_slot node));
    if e >=? epoch then
      match n_parent node with
      | Some p => pn ← deref p; mret (n_root pn)
      | None => s ← mget; mret (s_finalizedDependentRoot s)
      end
    else mret (n_root node).

Definition DependentRoot (epoch : Z) : MS Z :=
  r ← CachedHeadRoot; DependentRootForEpoch r epoch.

Definition LastRoot (epoch : Z) : MS Z :=
  s ← mget;
  hd ← deref' (s_headNode s);
  headEpoch ← mlift (ToEpoch (n_slot hd));
  r ← tryM (mlift (EpochEnd epoch));
  match r with
  | inr _ => mret 0
  | inl epochEnd =>
      if headEpoch <=? epoch then mret (n_root hd)
      else
        n ← ancestorLoop (S (fuelOf s)) (s_headNode s) epochEnd;
        match n with None => mret 0 | Some p => nd ← deref p; mret (n_root nd) end
  end.

(** ** Late-block reorgs *)

(** [clk 0] is read by [CurrentSlot], [clk 1] by [time.Now()]. *)
Definition ShouldOverrideFCU (clk : nat → Z) : MS bool :=
  s ← mget;
  match s_headNode s with
  | None => mret false
  | Some hp =>
      head ← deref hp;
      cs ← mlift (CurrentSlot (s_genesisTime s) (clk 0%nat));
      if negb (n_slot head =? cs) then mret false
      else
        r ← mlift (remSlot (n_slot head +64 1) SlotsPerEpoch);
        if r =? 0 then mret false
        else
          early ← tryM (mlift (arrivedEarly head (s_genesisTime s)));
          match early with
          | inr _ => mret false
          | inl true => mret false
          | inl false =>
              let finalizedEpoch := cp_epoch (s_finalizedCheckpoint s) in
              e ← mlift (ToEpoch (n_slot head +64 1));
              if e >? finalizedEpoch +64 ReorgMaxEpochsSinceFinalization then mret false
              else
                match n_parent head with
                | None => mret false
                | Some pp =>
                    parent ← deref pp;
                    if n_slot head >? n_slot parent +64 1 then mret false
                    else if n_weight head *64 100 >?
                            s_committeeWeight s *64 ReorgHeadWeightThreshold then mret false
                    else
                      sss ← tryM (mlift (SinceSlotStart (n_slot head) (s_genesisTime s) (clk 1%nat)));
                      match sss with
                      | inr _ => mret true
                      | inl sss =>
                          if sss <? ProcessAttestationsThreshold then mret true
                          else if n_weight parent *64 100 <?
                                  s_committeeWeight s *64 ReorgParentWeightThreshold
                               then mret false
                          else mret true
                      end
                end
          end
  end.

Definition GetProposerHead (clk : nat → Z) : MS Z :=
  s ← mget;
  match s_headNode s with
  | None => mret 0
  | Some hp =>
      head ← deref hp;
      currentSlot ← mlift (CurrentSlot (s_genesisTime s) (clk 0%nat));
      if negb (n_slot head +64 1 =? currentSlot) then mret (n_root head)
      else
        r ← mlift (remSlot (n_slot head +64 1) SlotsPerEpoch);
        if r =? 0 then mret (n_root head)
        else
          early ← tryM (mlift (arrivedEarly head (s_genesisTime s)));
          match early with
          | inr _ => mret (n_root head)
          | inl true => mret (n_root head)
          | inl false =>
              let finalizedEpoch := cp_epoch (s_finalizedCheckpoint s) in
              e ← mlift (ToEpoch (n_slot head +64 1));
              if e >? finalizedEpoch +64 ReorgMaxEpochsSinceFinalization then mret (n_root head)
              else
                match n_parent head with
                | None => mret (n_root head)
                | Some pp =>
                    parent ← deref pp;
                    if n_slot head >? n_slot parent +64 1 then mret (n_root head)
                    else if n_weight head *64 100 >?
                            s_committeeWeight s *64 ReorgHeadWeightThreshold
                         then mret (n_root head)
                    else if n_weight parent *64 100 <?
                            s_committeeWeight s *64 ReorgParentWeightThreshold
                         then mret (n_root head)
                    else
                      sss ← tryM (mlift (SinceSlotStart currentSlot (s_genesisTime s) (clk 1%nat)));
                      match sss with
                      | inr _ => mret (n_root head)
                      | inl sss =>
                          if sss >=? orphanLateBlockProposingEarly * Second
                          then mret (n_root head) else mret (n_root parent)
                      end
                end
          end
  end.

End forkchoice.
