(* ===== verification/ForkAttest.v ===== *)
(** * Latest messages and ticks

    [ProcessAttestation] keeps the latest vote of every validator, and the map
    iteration in [updateUnrealizedCheckpoints] does not depend on its order. *)
From S2P Require Import Prelude Config SlotTime ForkTypes ForkTree ForkNode ForkStore ForkStoreFacts ForkChoice.

(** ** Votes *)
Definition no_vote : Vote := mkVote ZeroHash ZeroHash 0.
Definition vote_at (votes : list Vote) (i : nat) : Vote := default no_vote (votes !! i).

(** The rule for one validator: a first vote or a later target epoch counts. *)
Definition later (r e : Z) (v : Vote) : Vote :=
  if ((v_nextRoot v =? ZeroHash) && (v_currentRoot v =? ZeroHash)) || (e >? v_nextEpoch v)
  then mkVote (v_currentRoot v) r e else v.

Lemma later_idem r e v : later r e (later r e v) = later r e v.
Proof.
  unfold later at 2 3.
  destruct (((v_nextRoot v =? ZeroHash) && (v_currentRoot v =? ZeroHash)) || (e >? v_nextEpoch v)) eqn:E.
  - unfold later. simpl. by destruct (((r =? ZeroHash) && (v_currentRoot v =? ZeroHash)) || (e >? e)).
  - unfold later. by rewrite E.
Qed.

Lemma growVotes_at votes index i : vote_at (growVotes votes index) i = vote_at votes i.
Proof.
  unfold vote_at, growVotes. destruct (decide (i < length votes)%nat).
  - by rewrite lookup_app_l.
  - rewrite lookup_app_r by lia. rewrite (lookup_ge_None_2 votes) by lia.
    destruct (replicate _ _ !! _) eqn:E; [|done]. apply lookup_replicate in E as [-> _]. done.
Qed.

Lemma growVotes_length votes index : 0 ≤ index → (Z.to_nat index < length (growVotes votes index))%nat.
Proof. intros. unfold growVotes. rewrite length_app, length_replicate. lia. Qed.

Lemma processVote_at r e votes index i : 0 ≤ index →
  vote_at (processVote r e votes index) i =
  if decide (i = Z.to_nat index) then later r e (vote_at votes i) else vote_at votes i.
Proof.
  intros H0. unfold processVote. pose proof (growVotes_length votes index H0) as Hlen.
  destruct (lookup_lt_is_Some_2 _ _ Hlen) as [v Hv]. rewrite Hv.
  assert (vote_at votes (Z.to_nat index) = v) as Hva.
  { rewrite <-(growVotes_at votes index). unfold vote_at. by rewrite Hv. }
  destruct (decide (i = Z.to_nat index)) as [->|Hne].
  - rewrite Hva. unfold later.
    destruct (((v_nextRoot v =? ZeroHash) && (v_currentRoot v =? ZeroHash)) || (e >? v_nextEpoch v)).
    + unfold vote_at. by rewrite list_lookup_insert_eq.
    + by rewrite growVotes_at.
  - destruct (((v_nextRoot v =? ZeroHash) && (v_currentRoot v =? ZeroHash)) || (e >? v_nextEpoch v)).
    + rewrite <-(growVotes_at votes index i). unfold vote_at. by rewrite list_lookup_insert_ne.
    + apply growVotes_at.
Qed.

Lemma processVotes_at r e indices votes i : Forall (λ x, 0 ≤ x) indices →
  vote_at (foldl (processVote r e) votes indices) i =
  if decide (Z.of_nat i ∈ indices) then later r e (vote_at votes i) else vote_at votes i.
Proof.
  revert votes. induction indices as [|x xs IH]; intros votes Hpos; simpl; [done|].
  inversion Hpos; subst. rewrite IH by done. rewrite processVote_at by done.
  destruct (decide (i = Z.to_nat x)) as [->|Hne].
  - rewrite (decide_True (P := Z.of_nat (Z.to_nat x) ∈ x :: xs)) by (rewrite Z2Nat.id by lia; set_solver).
    destruct (decide _); by rewrite ?later_idem.
  - assert (Z.of_nat i ≠ x) by lia.
    destruct (decide (Z.of_nat i ∈ xs)), (decide (Z.of_nat i ∈ x :: xs)); set_solver.
Qed.

Section attest_theorems.
Context `{cfg : BeaconChainConfig}.

(** After [ProcessAttestation] every listed validator votes for the block if
    this is its first vote or the target epoch is later than that of the vote it had,
    and keeps its vote otherwise; nobody else's vote and no counted vote
    ([currentRoot]) changes, and a validator listed twice is counted once. *)
Theorem ProcessAttestation_latest f indices r e :
  Forall (λ x, 0 ≤ x) indices →
  ∃ f', ProcessAttestation indices r e f = (Ok tt, f') ∧ f_store f' = f_store f ∧
    (∀ i, vote_at (f_votes f') i =
       if decide (Z.of_nat i ∈ indices) then later r e (vote_at (f_votes f) i)
       else vote_at (f_votes f) i) ∧
    (∀ i, v_currentRoot (vote_at (f_votes f') i) = v_currentRoot (vote_at (f_votes f) i)).
Proof.
  intros Hpos. eexists. split; [done|]. split; [done|].
  assert (∀ i, vote_at (foldl (processVote r e) (f_votes f) indices) i =
    if decide (Z.of_nat i ∈ indices) then later r e (vote_at (f_votes f) i)
    else vote_at (f_votes f) i) as Hat by (intros; by apply processVotes_at).
  split; [done|]. intros i. simpl. rewrite Hat. destruct (decide _); [|done].
  unfold later. by destruct (_ || _).
Qed.

(** ** Ticks *)

Definition realize (n : Node) : Node :=
  set_epochs n (n_unrealizedJustifiedEpoch n) (n_unrealizedJustifiedEpoch n)
    (n_unrealizedFinalizedEpoch n) (n_unrealizedFinalizedEpoch n).
(** The nodes [l] have their unrealized epochs realized. *)
Definition realize_on (l : list ptr) (h : gmap ptr Node) : gmap ptr Node :=
  map_imap (λ q n, Some (if decide (q ∈ l) then realize n else n)) h.

(** Some node of [l] is past the epoch [e]. *)
Definition past (get : Node → Z) (h : gmap ptr Node) (l : list ptr) (e : Z) : bool :=
  existsb (λ p, match h !! p with Some n => get n >? e | None => false end) l.

Definition with_balances (f : ForkChoice) (bals : list Z) : ForkChoice :=
  let '(w, n) := sumBalances bals in
  upd_store (upd_justifiedBalances f bals n) (upd_committeeWeight (f_store f) (w / SlotsPerEpoch)).

Definition tick_justified (f : ForkChoice) (bals : list Z) (b : bool) : ForkChoice :=
  if b then with_balances (upd_store f (upd_justifiedCheckpoint
         (upd_prevJustifiedCheckpoint (f_store f) (s_justifiedCheckpoint (f_store f)))
         (s_unrealizedJustifiedCheckpoint (f_store f)))) bals
  else f.
Definition tick_finalized (f : ForkChoice) (b : bool) : ForkChoice :=
  if b then upd_store f (upd_finalizedCheckpoint (f_store f) (s_unrealizedFinalizedCheckpoint (f_store f)))
  else f.

(** The state after visiting the nodes [l], in whatever order. *)
Definition tick (f : ForkChoice) (bals : list Z) (l : list ptr) : ForkChoice :=
  let s := f_store f in
  let f1 := tick_finalized
    (tick_justified f bals (past n_unrealizedJustifiedEpoch (s_heap s) l (cp_epoch (s_justifiedCheckpoint s))))
    (past n_unrealizedFinalizedEpoch (s_heap s) l (cp_epoch (s_finalizedCheckpoint s))) in
  upd_store f1 (upd_heap (f_store f1) (realize_on l (s_heap s))).

(** The store's unrealized checkpoints bound those of its blocks, and the balances
    of the unrealized justified checkpoint can be read. *)
Record tick_ready (f : ForkChoice) (bals : list Z) (order : list ptr) : Prop := {
  tr_nodup : NoDup order;
  tr_nodes : ∀ p, p ∈ order → ∃ n, s_heap (f_store f) !! p = Some n ∧
    n_unrealizedJustifiedEpoch n ≤ cp_epoch (s_unrealizedJustifiedCheckpoint (f_store f)) ∧
    n_unrealizedFinalizedEpoch n ≤ cp_epoch (s_unrealizedFinalizedCheckpoint (f_store f));
  tr_balances : f_balancesByRoot f (cp_root (s_unrealizedJustifiedCheckpoint (f_store f))) = Ok bals;
  tr_slots : SlotsPerEpoch ≠ 0
}.

Lemma run_updateJustifiedBalances f root bals : f_balancesByRoot f root = Ok bals → SlotsPerEpoch ≠ 0 →
  updateJustifiedBalances root f = (Ok tt, with_balances f bals).
Proof.
  intros Hb Hs. unfold updateJustifiedBalances, with_balances. erewrite M_bind_Ok by reflexivity.
  rewrite Hb. erewrite M_bind_Ok by reflexivity. destruct (sumBalances bals) as [w n].
  erewrite M_bind_Ok by reflexivity. by rewrite (proj2 (Z.eqb_neq _ _) Hs).
Qed.

Lemma realize_on_lookup l h q :
  realize_on l h !! q = (λ n, if decide (q ∈ l) then realize n else n) <$> h !! q.
Proof. unfold realize_on. rewrite map_lookup_imap. by destruct (h !! q). Qed.

Lemma realize_on_step l h p n : p ∉ l → h !! p = Some n →
  <[p := realize n]> (realize_on l h) = realize_on (l ++ [p]) h.
Proof.
  intros Hp Hn. apply map_eq. intros q. rewrite realize_on_lookup. destruct (decide (q = p)) as [->|Hne].
  - rewrite lookup_insert_eq, Hn. simpl. by rewrite decide_True by set_solver.
  - rewrite lookup_insert_ne, realize_on_lookup by done. destruct (h !! q); simpl; [|done].
    destruct (decide (q ∈ l)), (decide (q ∈ l ++ [p])); set_solver.
Qed.

Lemma past_snoc get h l p e n : h !! p = Some n →
  past get h (l ++ [p]) e = past get h l e || (get n >? e).
Proof. intros Hn. unfold past. rewrite existsb_app. simpl. by rewrite Hn, orb_false_r. Qed.

(** One iteration, on any intermediate state. *)
Definition tick_body (p : ptr) : MF unit :=
  onStore (modNode p (λ n, set_epochs n (n_unrealizedJustifiedEpoch n)
      (n_unrealizedJustifiedEpoch n) (n_unrealizedFinalizedEpoch n)
      (n_unrealizedFinalizedEpoch n)));;
  node ← onStore (deref p);
  f ← mget;
  (if n_justifiedEpoch node >? cp_epoch (s_justifiedCheckpoint (f_store f)) then
     mmodify (λ f, upd_store f (upd_justifiedCheckpoint
       (upd_prevJustifiedCheckpoint (f_store f) (s_justifiedCheckpoint (f_store f)))
       (s_unrealizedJustifiedCheckpoint (f_store f))));;
     updateJustifiedBalances (cp_root (s_unrealizedJustifiedCheckpoint (f_store f)))
   else mret tt);;
  f ← mget;
  if n_finalizedEpoch node >? cp_epoch (s_finalizedCheckpoint (f_store f)) then
    mmodify (λ f, upd_store f (upd_finalizedCheckpoint (f_store f)
                    (s_unrealizedFinalizedCheckpoint (f_store f))))
  else mret tt.

Lemma tick_body_spec g p n bals : s_heap (f_store g) !! p = Some n → SlotsPerEpoch ≠ 0 →
  f_balancesByRoot g (cp_root (s_unrealizedJustifiedCheckpoint (f_store g))) = Ok bals →
  let s := f_store g in
  let g1 := tick_finalized
    (tick_justified g bals (n_unrealizedJustifiedEpoch n >? cp_epoch (s_justifiedCheckpoint s)))
    (n_unrealizedFinalizedEpoch n >? cp_epoch (s_finalizedCheckpoint s)) in
  tick_body p g = (Ok tt, upd_store g1 (upd_heap (f_store g1) (<[p := realize n]> (s_heap s)))).
Proof.
  intros Hn Hs Hb s g1. unfold tick_body.
  set (h1 := <[p := realize n]> (s_heap s)).
  erewrite (M_bind_Ok _ _ g tt (upd_store g (upd_heap s h1))).
  2: { unfold onStore. by rewrite (run_modNode p _ _ n). }
  erewrite (M_bind_Ok _ _ _ (realize n) (upd_store g (upd_heap s h1))).
  2: { unfold onStore. rewrite (run_deref p _ (realize n)); [done|]. apply lookup_insert_eq. }
  erewrite M_bind_Ok by reflexivity. simpl n_justifiedEpoch. simpl n_finalizedEpoch.
  cbn [f_store upd_store]. unfold g1, tick_finalized, tick_justified, with_balances.
  destruct (sumBalances bals) as [w k] eqn:Hsum.
  change (s_justifiedCheckpoint (upd_heap s h1)) with (s_justifiedCheckpoint s).
  destruct (n_unrealizedJustifiedEpoch n >? cp_epoch (s_justifiedCheckpoint s)) eqn:Hj.
  - erewrite M_bind_Ok.
    2: { erewrite M_bind_Ok by reflexivity. apply run_updateJustifiedBalances; [exact Hb|done]. }
    erewrite M_bind_Ok by reflexivity. unfold with_balances. rewrite Hsum.
    cbn. destruct (n_unrealizedFinalizedEpoch n >? cp_epoch (s_finalizedCheckpoint s)); done.
  - do 2 (erewrite M_bind_Ok by reflexivity).
    cbn. destruct (n_unrealizedFinalizedEpoch n >? cp_epoch (s_finalizedCheckpoint s)); done.
Qed.

Lemma tick_step f bals done p rest : tick_ready f bals (done ++ p :: rest) →
  tick_body p (tick f bals done) = (Ok tt, tick f bals (done ++ [p])).
Proof.
  intros [Hnd Hnodes Hb Hs].
  destruct (Hnodes p ltac:(set_solver)) as (n & Hn & Huj & Huf).
  assert (p ∉ done) as Hp by (apply NoDup_app in Hnd as (_ & Hd & _); set_solver).
  assert (realize_on done (s_heap (f_store f)) !! p = Some n) as Hn'.
  { rewrite realize_on_lookup, Hn. simpl. by rewrite decide_False. }
  unfold tick. rewrite !(past_snoc _ _ _ _ _ n Hn), <-(realize_on_step done _ p n Hp Hn).
  set (s := f_store f) in *. set (J := cp_epoch (s_justifiedCheckpoint s)).
  set (F := cp_epoch (s_finalizedCheckpoint s)).
  assert ((n_unrealizedJustifiedEpoch n >? cp_epoch (s_unrealizedJustifiedCheckpoint s)) = false) as HjF
    by (destruct (Z.gtb_spec (n_unrealizedJustifiedEpoch n) (cp_epoch (s_unrealizedJustifiedCheckpoint s))); [lia|done]).
  assert ((n_unrealizedFinalizedEpoch n >? cp_epoch (s_unrealizedFinalizedCheckpoint s)) = false) as HfF
    by (destruct (Z.gtb_spec (n_unrealizedFinalizedEpoch n) (cp_epoch (s_unrealizedFinalizedCheckpoint s))); [lia|done]).
  unfold tick_finalized, tick_justified, with_balances.
  destruct (sumBalances bals) as [w k] eqn:Hsum.
  destruct (past n_unrealizedJustifiedEpoch _ done _), (past n_unrealizedFinalizedEpoch _ done _);
    rewrite (tick_body_spec _ p n bals) by done; unfold tick_finalized, tick_justified, with_balances;
    rewrite Hsum; cbn; fold s J F; rewrite ?HjF, ?HfF;
    destruct (n_unrealizedJustifiedEpoch n >? J), (n_unrealizedFinalizedEpoch n >? F); reflexivity.
Qed.

Lemma tick_nil f bals : tick f bals [] = f.
Proof.
  unfold tick. simpl. unfold tick_finalized, tick_justified. simpl.
  assert (realize_on [] (s_heap (f_store f)) = s_heap (f_store f)) as ->.
  { apply map_eq. intros q. rewrite realize_on_lookup. by destruct (s_heap (f_store f) !! q). }
  rewrite upd_heap_self. by destruct f.
Qed.

Lemma updateUnrealizedCheckpoints_tick f bals order : tick_ready f bals order →
  updateUnrealizedCheckpoints order f = (Ok tt, tick f bals order).
Proof.
  intros Hr. unfold updateUnrealizedCheckpoints. fold tick_body.
  rewrite <-(list_fmap_id order) at 1.
  destruct (mfor_invariant id tick_body (λ done f', f' = tick f bals done) order f)
    as (f' & Hrun & ->); [by rewrite tick_nil| |done].
  intros done p rest f' -> ->. eexists. split; [by eapply tick_step|done].
Qed.

(** At an epoch boundary [updateUnrealizedCheckpoints] visits the blocks in
    the random order of a Go map; the state it leaves does not depend on that
    order: every block has its unrealized epochs realized, and the checkpoints move
    to the unrealized ones exactly when some block is past them. *)
Theorem updateUnrealizedCheckpoints_any_order f bals order order' :
  tick_ready f bals order → order ≡ₚ order' →
  updateUnrealizedCheckpoints order f = (Ok tt, tick f bals order) ∧
  updateUnrealizedCheckpoints order' f = updateUnrealizedCheckpoints order f.
Proof.
  intros Hr Hperm.
  assert (tick_ready f bals order') as Hr'.
  { destruct Hr as [? Hn ? ?]. split; try done; [by rewrite <-Hperm|].
    intros p Hp. apply Hn. by rewrite Hperm. }
  rewrite (updateUnrealizedCheckpoints_tick _ _ _ Hr), (updateUnrealizedCheckpoints_tick _ _ _ Hr').
  split; [done|]. f_equal. unfold tick.
  assert (∀ get e, past get (s_heap (f_store f)) order' e = past get (s_heap (f_store f)) order e) as Hpast.
  { intros get e. apply eq_bool_prop_intro. unfold past. rewrite !Is_true_true, !existsb_exists.
    setoid_rewrite <-list_elem_of_In. by setoid_rewrite Hperm. }
  rewrite !Hpast.
  assert (realize_on order' (s_heap (f_store f)) = realize_on order (s_heap (f_store f))) as ->; [|done].
  apply map_eq. intros q. rewrite !realize_on_lookup. destruct (s_heap (f_store f) !! q); simpl; [|done].
  f_equal. destruct (decide (q ∈ order)) as [Hq|Hq]; rewrite Hperm in Hq;
    [by rewrite decide_True|by rewrite decide_False].
Qed.

End attest_theorems.
