(* ===== verification/ForkQueryFacts.v ===== *)
(** * forkchoice.go: walks towards the root

    [AncestorRoot], [CommonAncestor] and [SetOptimisticToValid] follow parent
    pointers.  Each is specified by the ancestor relation of the tree. *)
From S2P Require Import Prelude Config SlotTime ForkTypes ForkTree ForkNode ForkNodeFacts ForkStore ForkStoreFacts ForkChoice.

Definition slot_of (h : heap) (p : ptr) : Z :=
  match h !! p with Some n => n_slot n | None => 0 end.

Section queries.
Context `{cfg : BeaconChainConfig}.

(** Everything after [q] on a chain is the chain of [q]. *)
Lemma chain_suffix h p l l1 q l2 : chain h p l → l = l1 ++ q :: l2 → chain h q (q :: l2).
Proof.
  intros H. revert l1. induction H as [p n Hn Hp|p n pp l Hn Hp Hc IH]; intros [|x l1] Heq; simplify_eq/=.
  - by eapply chain_root.
  - by destruct l1.
  - by eapply chain_up.
  - by eapply IH.
Qed.

Lemma chain_lookup h p l q : chain h p l → q ∈ l → is_Some (h !! q).
Proof. induction 1; set_solver. Qed.

Lemma ancestorLoop_spec fuel s p l slot : chain (s_heap s) p l → s_ctx s = None →
  (length l < fuel)%nat →
  ancestorLoop fuel (Some p) slot s =
    (Ok (snd <$> list_find (λ q, slot_of (s_heap s) q ≤ slot) l), s).
Proof.
  intros Hc Hctx. revert fuel.
  induction Hc as [p n Hn Hp|p n pp l Hn Hp Hc IH]; intros [|fuel] Hf; simpl in Hf; try lia;
    cbn [ancestorLoop]; mstep; cbn [list_find];
    assert (slot_of (s_heap s) p = n_slot n) as Hsl by (unfold slot_of; by rewrite Hn);
    destruct (Z.gtb_spec (n_slot n) slot); try (by rewrite decide_True by lia);
    rewrite decide_False by lia; mstep; rewrite Hp.
  - destruct fuel; [simpl in Hf; lia|done].
  - rewrite IH by lia. by destruct (list_find _ l) as [[]|].
Qed.

Lemma AncestorRoot_spec s t p r slot :
  wf s t → s_ctx s = None → s_nodeByRoot s !! r = Some p →
  match AncestorRoot r slot s with
  | (Ok r', s') => s' = s ∧ ∃ q, ancestor t q p ∧ s_nodeByRoot s !! r' = Some q ∧
      slot_of (s_heap s) q ≤ slot ∧
      ∀ q', ancestor t q' p → slot_of (s_heap s) q' ≤ slot → ancestor t q' q
  | (Err e, s') => s' = s ∧ e = ErrNilNode ∧
      ∀ q', ancestor t q' p → slot < slot_of (s_heap s) q'
  | _ => False
  end.
Proof.
  intros Hwf Hctx Hr. pose proof Hr as [Hp _]%(wf_index _ _ Hwf).
  destruct (wf_chain s t p Hwf Hp) as (l & Hl & Hlen & Hanc).
  unfold AncestorRoot. erewrite M_bind_Ok by reflexivity. rewrite Hr.
  erewrite M_bind_Ok by (by apply (ancestorLoop_spec _ s p l); [..|lia]).
  destruct (list_find _ l) as [[i q]|] eqn:Hfind; simpl.
  - apply list_find_Some in Hfind as (Hi & Hq & Hfirst).
    pose proof (list_elem_of_lookup_2 _ _ _ Hi) as Hql.
    assert (q ∈ ptrs t) as Hqt.
    { apply Hanc in Hql as (x & Hx & <- & _). by apply rootp_subtree. }
    destruct (wf_lookup s t q Hwf Hqt) as [nq Hnq]. mstep. split; [done|]. exists q.
    split_and!; [by apply Hanc|apply (wf_index _ _ Hwf); eauto|done|].
    intros q' Hq'%Hanc Hslot. destruct (wf_chain s t q Hwf Hqt) as (lq & Hlq & _ & Hancq).
    apply Hancq. apply list_elem_of_lookup in Hq' as [j Hj].
    destruct (decide (j < i)%nat) as [Hji|]; [by destruct (Hfirst j q' Hj Hji)|].
    rewrite <-(take_drop_middle l i q Hi) in Hl, Hj.
    pose proof (chain_suffix _ _ _ _ _ _ Hl eq_refl) as Hlq'.
    rewrite (chain_fun _ _ _ _ Hlq Hlq').
    rewrite lookup_app_r in Hj by (rewrite length_take; lia). by eapply list_elem_of_lookup_2.
  - apply list_find_None in Hfind. rewrite Forall_forall in Hfind. split_and!; [done..|].
    intros q' Hq'%Hanc. specialize (Hfind q' Hq'). lia.
Qed.

(** ** Common ancestors *)

(** Blocks have a later slot than their parent. *)
Definition slots_increase (s : Store) : Prop := ∀ p n pp pn,
  s_heap s !! p = Some n → n_parent n = Some pp → s_heap s !! pp = Some pn → n_slot pn < n_slot n.

Lemma chain_slots s p n l : slots_increase s → chain (s_heap s) p (p :: l) →
  s_heap s !! p = Some n → ∀ q m, q ∈ l → s_heap s !! q = Some m → n_slot m < n_slot n.
Proof.
  intros Hinc. revert p n. induction l as [|pp l IH]; intros p n Hc Hn q m Hq Hm; [set_solver|].
  inversion Hc as [|? n' pp' ? Hn' Hp' Hc']; simplify_eq.
  destruct (chain_head _ _ _ Hc') as [l' [= ? ?]]; subst pp' l'.
  destruct (chain_lookup _ _ _ pp Hc') as [pn Hpn]; [set_solver|].
  pose proof (Hinc _ _ _ _ Hn Hp' Hpn).
  apply elem_of_cons in Hq as [->|Hq]; [by simplify_eq|].
  pose proof (IH pp pn Hc' Hpn q m Hq Hm). lia.
Qed.

(** A node that is not on the other chain has a parent, and dropping it loses
    nothing of the common part. *)
Lemma chain_step h p l' (l2 : list ptr) r : chain h p (p :: l') → p ∉ l2 → r ∈ p :: l' → r ∈ l2 →
  ∃ n pp, h !! p = Some n ∧ n_parent n = Some pp ∧ chain h pp l' ∧ r ∈ l' ∧
    ∀ x, (x ∈ p :: l' ∧ x ∈ l2) ↔ (x ∈ l' ∧ x ∈ l2).
Proof.
  intros Hc Hp Hr Hr2. assert (r ∈ l') as Hr' by set_solver.
  inversion Hc as [|? n pp ? Hn Hpar Hc']; simplify_eq; [set_solver|].
  exists n, pp. split_and!; try done. set_solver.
Qed.

Lemma chain_eq_cons h p l : chain h p l → p ∈ l.
Proof. intros [l' ->]%chain_head. set_solver. Qed.

(** The loop keeps the common part of the two chains and drops a node that is not
    in it at every step. *)
Lemma commonLoop_spec fuel s p1 l1 p2 l2 r :
  slots_increase s → s_ctx s = None →
  chain (s_heap s) p1 l1 → chain (s_heap s) p2 l2 → p1 ≠ p2 → r ∈ l1 → r ∈ l2 →
  (length l1 + length l2 ≤ fuel)%nat →
  ∃ q n l, commonLoop fuel p1 p2 s = (Ok (n_root n, n_slot n), s) ∧ s_heap s !! q = Some n ∧
    chain (s_heap s) q l ∧ ∀ x, x ∈ l ↔ x ∈ l1 ∧ x ∈ l2.
Proof.
  intros Hinc Hctx. revert p1 l1 p2 l2. induction fuel as [|fuel IH];
    intros p1 l1 p2 l2 H1 H2 Hne Hr1 Hr2 Hf.
  { destruct (chain_head _ _ _ H1) as [? ->]. simpl in Hf. lia. }
  destruct (chain_head _ _ _ H1) as [l1' ->], (chain_head _ _ _ H2) as [l2' ->].
  destruct (chain_lookup _ _ _ p1 H1) as [n1 Hn1]; [set_solver|].
  destruct (chain_lookup _ _ _ p2 H2) as [n2 Hn2]; [set_solver|].
  cbn [commonLoop]. mstep. mstep. mstep.
  pose proof (chain_slots s p1 n1 l1' Hinc H1 Hn1) as Hs1.
  pose proof (chain_slots s p2 n2 l2' Hinc H2 Hn2) as Hs2. simpl in Hf.
  destruct (Z.gtb_spec (n_slot n1) (n_slot n2)).
  - destruct (chain_step _ p1 l1' (p2 :: l2') r H1) as (? & pp & ? & Hpp & Hcp & Hr1' & Hiff);
      [|done|done|]. { intros [?|Hin]%elem_of_cons; [done|]. specialize (Hs2 p1 n1 Hin Hn1). lia. }
    simplify_eq. rewrite Hpp. setoid_rewrite Hiff. case_bool_decide as Hpp2.
    + subst pp. mstep. exists p2, n2, (p2 :: l2'). split_and!; try done.
      rewrite (chain_fun _ _ _ _ Hcp H2). set_solver.
    + apply IH; try done. simpl. lia.
  - destruct (chain_step _ p2 l2' (p1 :: l1') r H2) as (? & pp & ? & Hpp & Hcp & Hr2' & Hiff);
      [|done|done|]. { intros [?|Hin]%elem_of_cons; [done|]. specialize (Hs1 p2 n2 Hin Hn2). lia. }
    simplify_eq. rewrite Hpp. setoid_rewrite (and_comm (_ ∈ p1 :: l1')). setoid_rewrite Hiff.
    case_bool_decide as Hpp1.
    + subst pp. mstep. exists p1, n1, (p1 :: l1'). split_and!; try done.
      rewrite (chain_fun _ _ _ _ Hcp H1). set_solver.
    + destruct (IH p1 (p1 :: l1') pp l2') as (q & n & l & ? & ? & ? & Hl); try done; [simpl; lia|].
      exists q, n, l. split_and!; try done. intros x. rewrite Hl. tauto.
Qed.

Lemma CommonAncestor_spec s t r1 r2 p1 p2 :
  wf s t → s_ctx s = None → slots_increase s →
  s_nodeByRoot s !! r1 = Some p1 → s_nodeByRoot s !! r2 = Some p2 →
  ∃ q n, CommonAncestor r1 r2 s = (Ok (n_root n, n_slot n), s) ∧ s_heap s !! q = Some n ∧
    ∀ x, ancestor t x q ↔ ancestor t x p1 ∧ ancestor t x p2.
Proof.
  intros Hwf Hctx Hinc H1 H2.
  pose proof H1 as [Hp1 (n1 & Hn1 & Hr1)]%(wf_index _ _ Hwf).
  pose proof H2 as [Hp2 (n2 & Hn2 & Hr2)]%(wf_index _ _ Hwf).
  unfold CommonAncestor. erewrite M_bind_Ok by reflexivity. rewrite H1. mstep.
  destruct (Z.eqb_spec r1 r2) as [->|Hne].
  { assert (p2 = p1) as -> by congruence. exists p1, n1. rewrite Hr1.
    split_and!; [done|done|]. naive_solver. }
  rewrite H2.
  destruct (wf_chain s t p1 Hwf Hp1) as (l1 & Hl1 & Hlen1 & Ha1).
  destruct (wf_chain s t p2 Hwf Hp2) as (l2 & Hl2 & Hlen2 & Ha2).
  destruct (commonLoop_spec (2 * fuelOf s) s p1 l1 p2 l2 (rootp t)) as (q & n & l & Hrun & Hq & Hc & Hl);
    try done; [congruence| | |lia|].
  { apply Ha1. exists t. auto using subtrees_self. }
  { apply Ha2. exists t. auto using subtrees_self. }
  exists q, n. split_and!; try done.
  assert (q ∈ ptrs t) as Hqt.
  { assert (q ∈ l1) as (x & Hx & <- & _)%Ha1 by (by apply Hl, (chain_eq_cons (s_heap s))).
    by apply rootp_subtree. }
  destruct (wf_chain s t q Hwf Hqt) as (lq & Hlq & _ & Haq).
  intros x. rewrite <-Haq, (chain_fun _ _ _ _ Hlq Hc), Hl. by rewrite Ha1, Ha2.
Qed.

(** ** Validation *)

(** A valid block has valid ancestors. *)
Definition valid_upwards (h : heap) : Prop := ∀ p n pp pn,
  h !! p = Some n → n_optimistic n = false → n_parent n = Some pp → h !! pp = Some pn →
  n_optimistic pn = false.

Definition optimistic_at (h : heap) (p : ptr) : bool :=
  match h !! p with Some n => n_optimistic n | None => true end.

(** [n'] is [n] with the optimistic flag cleared or not. *)
Definition eq_but_valid (n n' : Node) : Prop := n' = n ∨ n' = set_optimistic n false.
#[local] Instance eq_but_valid_refl : Reflexive eq_but_valid.
Proof. by left. Qed.
#[local] Instance eq_but_valid_trans : Transitive eq_but_valid.
Proof. intros [] y z [->| ->] [->| ->]; by (left + right). Qed.

Lemma keeps_links_valid : keeps_links eq_but_valid.
Proof. by intros n n' [->| ->]. Qed.

(** Along a chain, whatever follows a valid node is valid. *)
Fixpoint valid_list (h : heap) (l : list ptr) : Prop :=
  match l with
  | [] => True
  | p :: l' => (optimistic_at h p = false → Forall (λ q, optimistic_at h q = false) l') ∧
               valid_list h l'
  end.

Lemma valid_list_chain h p l : valid_upwards h → chain h p l → valid_list h l.
Proof.
  intros Hv. induction 1 as [p n Hn Hp|p n pp l Hn Hp Hc IH]; simpl; [by split|]. split; [|done].
  unfold optimistic_at at 1. rewrite Hn. intros Ho.
  destruct (chain_head _ _ _ Hc) as [l' ->]. destruct IH as [IH _].
  destruct (chain_lookup _ _ _ pp Hc) as [pn Hpn]; [set_solver|].
  assert (optimistic_at h pp = false) as Hpo.
  { unfold optimistic_at. rewrite Hpn. by eapply (Hv p). }
  by constructor; [|apply IH].
Qed.

Lemma valid_list_ext h h' l : (∀ q, q ∈ l → h' !! q = h !! q) → valid_list h l → valid_list h' l.
Proof.
  intros Hext. induction l as [|p l IH]; simpl; [done|].
  unfold optimistic_at in *. rewrite Hext by set_solver. intros [H1 H2].
  split; [|apply IH; set_solver]. intros Ho. specialize (H1 Ho).
  rewrite Forall_forall in *. intros q Hq. rewrite Hext by set_solver. by apply H1.
Qed.

Lemma chain_ext h h' p l : (∀ q, q ∈ l → h' !! q = h !! q) → chain h p l → chain h' p l.
Proof.
  intros Hext. induction 1 as [p n Hn Hp|p n pp l Hn Hp Hc IH].
  - eapply chain_root; [|done]. rewrite Hext by set_solver. done.
  - eapply chain_up; [|done|apply IH; set_solver]. rewrite Hext by set_solver. done.
Qed.

Lemma setNodeAndParentValidated_spec fuel s p l : chain (s_heap s) p l → NoDup l →
  s_ctx s = None → (length l ≤ fuel)%nat → valid_list (s_heap s) l →
  ∃ h', setNodeAndParentValidated fuel p s = (Ok tt, upd_heap s h') ∧
    frames l eq_but_valid (s_heap s) h' ∧ ∀ q, q ∈ l → optimistic_at h' q = false.
Proof.
  revert s p l. induction fuel as [|fuel IH]; intros s p l Hc Hnd Hctx Hf Hv.
  { destruct (chain_head _ _ _ Hc) as [? ->]. simpl in Hf. lia. }
  destruct (chain_head _ _ _ Hc) as [l' ->]. destruct (chain_lookup _ _ _ p Hc) as [n Hn]; [set_solver|].
  apply NoDup_cons in Hnd as [Hp Hnd]. destruct Hv as [Hv Hv'].
  cbn [setNodeAndParentValidated]. mstep. mstep.
  assert (optimistic_at (s_heap s) p = n_optimistic n) as Hop by (unfold optimistic_at; by rewrite Hn).
  rewrite Hop in Hv. destruct (n_optimistic n) eqn:Ho; simpl.
  2: { exists (s_heap s). rewrite upd_heap_self. split_and!; [done|apply frames_refl; apply _|].
       intros q [->|Hq]%elem_of_cons; [done|]. rewrite Forall_forall in Hv. by apply Hv. }
  mstep. set (h1 := <[p := _]> (s_heap s)).
  assert (∀ l, frames (p :: l) eq_but_valid (s_heap s) h1) as Hf1.
  { intros l. eapply frames_insert; [apply _|set_solver|done|by right]. }
  assert (optimistic_at h1 p = false) as Hp1 by (unfold optimistic_at, h1; by rewrite lookup_insert_eq).
  inversion Hc as [? n' Hn' Hpar|? n' pp ? Hn' Hpar Hc']; simplify_eq; rewrite Hpar.
  - exists h1. split_and!; [done|done|]. by intros q ->%list_elem_of_singleton.
  - assert (∀ q, q ∈ l' → h1 !! q = s_heap s !! q) as Hext.
    { intros q Hq. apply lookup_insert_ne. set_solver. }
    destruct (IH (upd_heap s h1) pp l') as (h2 & Hrun & Hf2 & Hv2);
      [by eapply chain_ext|done|done|simpl in Hf; lia|by eapply valid_list_ext|].
    exists h2. split_and!; [done| |].
    + eapply frames_trans; [apply _|apply Hf1|]. eapply frames_weaken; [|done]. set_solver.
    + intros q [->|Hq]%elem_of_cons; [|by apply Hv2].
      unfold optimistic_at. rewrite (frames_outside _ _ _ _ _ Hf2); [done|done].
Qed.

Lemma chain_nodup h p l : chain h p l → NoDup l.
Proof.
  induction 1 as [p n Hn Hpar|p n pp l Hn Hpar Hc IH]; [apply NoDup_singleton|].
  constructor; [|done]. intros (l1 & l2 & ->)%list_elem_of_split.
  pose proof (chain_suffix _ _ _ l1 p l2 Hc eq_refl) as Hp.
  pose proof (chain_fun _ _ _ _ Hp (chain_up _ _ _ _ _ Hn Hpar Hc)) as Heq.
  apply (f_equal length) in Heq. simpl in Heq. rewrite length_app in Heq. simpl in Heq. lia.
Qed.

Lemma SetOptimisticToValid_spec s t r p :
  wf s t → s_ctx s = None → valid_upwards (s_heap s) → s_nodeByRoot s !! r = Some p →
  ∃ h', SetOptimisticToValid r s = (Ok tt, upd_heap s h') ∧
    wf (upd_heap s h') t ∧ valid_upwards h' ∧
    ∀ q, q ∈ ptrs t →
      (ancestor t q p → optimistic_at h' q = false) ∧
      (¬ ancestor t q p → h' !! q = s_heap s !! q).
Proof.
  intros Hwf Hctx Hv Hr. pose proof Hr as [Hp _]%(wf_index _ _ Hwf).
  destruct (wf_chain s t p Hwf Hp) as (l & Hl & Hlen & Ha).
  unfold SetOptimisticToValid. erewrite M_bind_Ok by reflexivity. rewrite Hr.
  destruct (setNodeAndParentValidated_spec (fuelOf s) s p l) as (h' & Hrun & Hf & Hval);
    [done|by eapply chain_nodup|done|lia|by eapply valid_list_chain|].
  exists h'. split_and!; [done|by eapply wf_frames; [apply keeps_links_valid|..]| |].
  - intros q n qq qn Hq Ho Hpar Hqq. pose proof (Hf q) as Hfq. pose proof (Hf qq) as Hfqq.
    rewrite Hq in Hfq. rewrite Hqq in Hfqq. destruct (s_heap s !! q) as [n0|] eqn:Hn0; [|done].
    destruct (s_heap s !! qq) as [qn0|] eqn:Hqn0; [|done]. destruct Hfq as [HR Hout], Hfqq as [HR' _].
    assert (n_parent n0 = Some qq) as Hpar0 by (by destruct HR as [->| ->]).
    destruct (decide (q ∈ l)) as [Hql|Hql].
    + enough (optimistic_at h' qq = false) by (unfold optimistic_at in *; by rewrite Hqq in *).
      apply Hval. apply list_elem_of_split in Hql as (l1 & l2 & ->).
      pose proof (chain_suffix _ _ _ l1 q l2 Hl eq_refl) as Hc.
      inversion Hc as [? ? Hx Hy|? ? pp ? Hx Hy Hc']; simplify_eq.
      destruct (chain_head _ _ _ Hc') as [? ->]. set_solver.
    + rewrite (Hout Hql) in Ho. pose proof (Hv q n0 qq qn0 Hn0 Ho Hpar0 Hqn0).
      by destruct HR' as [->| ->].
  - intros q Hq. rewrite <-Ha. split; [auto|]. by apply (frames_outside l eq_but_valid).
Qed.

End queries.
