(* ===== verification/ForkVotes.v ===== *)
(** * Vote accounting: [updateBalances], [applyProposerBoostScore], [InsertSlashedIndex]

    The balance stored in a node is the total balance of the validators that are
    not slashed and whose current vote is that block, plus the proposer boost it
    was given.  The operations that move votes keep this ([vote_inv]). *)
From S2P Require Import Prelude Config SlotTime ForkTypes ForkTree ForkNode ForkNodeFacts ForkStore ForkStoreFacts ForkChoice.

Definition eq_but_balance (n n' : Node) : Prop := n' = set_balance n (n_balance n').
#[export] Instance eq_but_balance_refl : Reflexive eq_but_balance.
Proof. by intros []. Qed.
#[export] Instance eq_but_balance_trans : Transitive eq_but_balance.
Proof. unfold eq_but_balance. by intros [] y z -> ->. Qed.
Lemma keeps_links_balance : keeps_links eq_but_balance.
Proof. by intros n n' ->. Qed.

Definition bal_of (s : Store) (r : Z) : Z :=
  match s_nodeByRoot s !! r with
  | Some p => match s_heap s !! p with Some n => n_balance n | None => 0 end
  | None => 0
  end.

(** A block the store knows, other than the zero hash that stands for no vote. *)
Definition known (s : Store) (r : Z) : Prop := is_Some (s_nodeByRoot s !! r) ∧ r ≠ ZeroHash.

#[export] Instance known_dec s r : Decision (known s r).
Proof. unfold known. apply _. Defined.

(** [s'] is [s] with the balance of every known root [r] changed by [d r]. *)
Definition bal_step (s s' : Store) (d : Z → Z) : Prop :=
  ∃ h', s' = upd_heap s h' ∧ frames (elements (dom (s_heap s))) eq_but_balance (s_heap s) h' ∧
    ∀ r, known s r → bal_of s' r = bal_of s r + d r.

Lemma bal_step_refl s d : (∀ r, known s r → d r = 0) → bal_step s s d.
Proof.
  intros Hd. exists (s_heap s). rewrite upd_heap_self. split_and!; [done|apply frames_refl, _|].
  intros r Hr. rewrite (Hd r Hr). lia.
Qed.

Lemma frames_dom l R h h' : frames l R h h' → dom h' = dom h.
Proof.
  intros H. apply set_eq. intros q. rewrite !elem_of_dom. specialize (H q). unfold is_Some.
  destruct (h !! q), (h' !! q); naive_solver.
Qed.

Lemma bal_step_trans s s1 s2 d1 d2 : bal_step s s1 d1 → bal_step s1 s2 d2 →
  bal_step s s2 (λ r, d1 r + d2 r).
Proof.
  intros (h1 & -> & Hf1 & Hd1) (h2 & -> & Hf2 & Hd2). simpl in *. exists h2. split_and!; [done| |].
  - rewrite (frames_dom _ _ _ _ Hf1) in Hf2. eapply frames_trans; [apply _|done|done].
  - intros r Hr. rewrite Hd2 by done. rewrite Hd1 by done. lia.
Qed.

Lemma bal_step_ext s s' d d' : (∀ r, known s r → d r = d' r) → bal_step s s' d → bal_step s s' d'.
Proof.
  intros Heq (h' & -> & Hf & Hd). exists h'. split_and!; [done..|].
  intros r Hr. rewrite <-Heq by done. by apply Hd.
Qed.

Lemma bal_step_wf s s' d t : bal_step s s' d → wf s t → wf s' t.
Proof. intros (h' & -> & Hf & _) Hwf. eapply wf_frames; [apply keeps_links_balance|done|done]. Qed.

Lemma bal_step_known s s' d r : bal_step s s' d → known s' r ↔ known s r.
Proof. by intros (h' & -> & _ & _). Qed.

(** Changing the balance of the node of one root. *)
Lemma run_set_balance s t r p fn g :
  wf s t → s_nodeByRoot s !! r = Some p → (∀ n, fn n = set_balance n (g (n_balance n))) →
  ∃ s', modNode p fn s = (Ok tt, s') ∧
    bal_step s s' (λ r', if r' =? r then g (bal_of s r) - bal_of s r else 0).
Proof.
  intros Hwf Hr Hfn. pose proof Hr as [Hp (n & Hn & Hnr)]%(wf_index _ _ Hwf).
  eexists. split; [by apply run_modNode|]. rewrite Hfn. eexists. split; [done|]. split.
  { eapply frames_insert; [apply _|by apply elem_of_elements, elem_of_dom|done|done]. }
  intros r' [[p' Hp'] _]. unfold bal_of at 1. simpl. rewrite Hp'.
  destruct (Z.eqb_spec r' r) as [->|Hne].
  - simplify_eq. rewrite lookup_insert_eq. simpl. unfold bal_of. rewrite Hr, Hn. lia.
  - rewrite lookup_insert_ne; [unfold bal_of; rewrite Hp'; lia|].
    intros ->. apply (wf_index _ _ Hwf) in Hp' as [_ (? & ? & ?)]. congruence.
Qed.

(** ** Shares of a validator *)
Section shares.
Context (f : ForkChoice).

Definition slashed (i : nat) : bool :=
  bool_decide (Z.of_nat i ∈ s_slashedIndices (f_store f)).
Definition balance_at (l : list Z) (i : nat) : Z := default 0 (l !! i).

(** What validator [i] contributes to root [r] now ... *)
Definition share (i : nat) (r : Z) : Z :=
  if slashed i then 0
  else match f_votes f !! i with
       | Some v => if v_currentRoot v =? r then balance_at (f_balances f) i else 0
       | None => 0
       end.
(** ... and once its next vote and the justified balances count. *)
Definition next_share (newB : list Z) (i : nat) (r : Z) : Z :=
  if slashed i then 0
  else match f_votes f !! i with
       | Some v => if v_nextRoot v =? r then balance_at newB i else 0
       | None => 0
       end.

Definition votes_for (r : Z) : Z := sum_to (length (f_votes f)) (λ i, share i r).
Definition boost_for (r : Z) : Z :=
  if s_previousProposerBoostRoot (f_store f) =? r
  then s_previousProposerBoostScore (f_store f) else 0.

(** Every known block has the balance of its voters and of its boost. *)
Definition vote_inv : Prop := ∀ r, known (f_store f) r →
  bal_of (f_store f) r = votes_for r + boost_for r.

Definition rotate (i : nat) (v : Vote) : Vote :=
  if slashed i then v else mkVote (v_nextRoot v) (v_nextRoot v) (v_nextEpoch v).
End shares.

Definition nonneg (l : list Z) : Prop := Forall (λ b, 0 ≤ b) l.
Lemma balance_at_nonneg l i : nonneg l → 0 ≤ balance_at l i.
Proof.
  unfold nonneg, balance_at. rewrite Forall_forall. intros H.
  destruct (l !! i) eqn:E; simpl; [|lia]. by eapply H, list_elem_of_lookup_2.
Qed.

Section update.
Context `{cfg : BeaconChainConfig}.

(** Both balance updates of an iteration have this shape. *)
Definition change_vote (s : Store) (r : Z) (fn : Node → Node) : MF unit :=
  match s_nodeByRoot s !! r with
  | Some p => if negb (r =? ZeroHash) then onStore (modNode p fn) else mret tt
  | None => mret tt
  end.

Lemma upd_store_self f : upd_store f (f_store f) = f.
Proof. by destruct f. Qed.

Lemma run_bal_mod s t r fn g d :
  wf s t → r ≠ ZeroHash → (∀ n, fn n = set_balance n (g (n_balance n))) →
  (known s r → g (bal_of s r) = bal_of s r + d) →
  ∃ s', match s_nodeByRoot s !! r with None => mret tt | Some p => modNode p fn end s = (Ok tt, s') ∧
    bal_step s s' (λ r', if r =? r' then d else 0).
Proof.
  intros Hwf Hz Hfn Hg. destruct (s_nodeByRoot s !! r) as [p|] eqn:Hr.
  - destruct (run_set_balance s t r p fn g Hwf Hr Hfn) as (s' & Hrun & Hstep).
    exists s'. split; [done|].
    eapply bal_step_ext; [|exact Hstep]. intros r' _. rewrite Z.eqb_sym.
    destruct (Z.eqb_spec r' r) as [->|]; [|done]. rewrite Hg; [lia|]. split; [by eexists|done].
  - exists s. split; [done|]. apply bal_step_refl.
    intros r' [[q Hq] _]. destruct (Z.eqb_spec r r') as [<-|]; [congruence|done].
Qed.

Lemma run_change_vote f s0 t r fn g d :
  wf (f_store f) t → s_nodeByRoot s0 = s_nodeByRoot (f_store f) →
  (∀ n, fn n = set_balance n (g (n_balance n))) →
  (known (f_store f) r → g (bal_of (f_store f) r) = bal_of (f_store f) r + d) →
  ∃ s', change_vote s0 r fn f = (Ok tt, upd_store f s') ∧
    bal_step (f_store f) s' (λ r', if r =? r' then d else 0).
Proof.
  intros Hwf Hidx Hfn Hg. unfold change_vote. rewrite Hidx.
  destruct (Z.eqb_spec r ZeroHash) as [->|Hz].
  - exists (f_store f). rewrite upd_store_self.
    split; [by destruct (s_nodeByRoot (f_store f) !! ZeroHash)|]. apply bal_step_refl.
    intros r' [_ Hr']. unfold ZeroHash in *. by destruct r'.
  - destruct (run_bal_mod (f_store f) t r fn g d) as (s' & Hrun & Hst); try done.
    exists s'. split; [|done]. cbn [negb].
    destruct (s_nodeByRoot (f_store f) !! r); [unfold onStore; by rewrite Hrun|].
    injection Hrun as <-. by rewrite upd_store_self.
Qed.

(** One iteration of [updateBalances]: no wrap-around, and the branch that resets
    an inconsistent balance to zero is not taken. *)
Lemma updateBalance_spec f newB i t v :
  wf (f_store f) t → f_votes f !! i = Some v →
  nonneg (f_balances f) → nonneg newB →
  (∀ r, known (f_store f) r → share f i r ≤ bal_of (f_store f) r ∧
     bal_of (f_store f) r + next_share f newB i r < two64) →
  ∃ s', updateBalance newB i f =
      (Ok tt, upd_votes (upd_store f s') (<[i := rotate f i v]> (f_votes f))) ∧
    bal_step (f_store f) s' (λ r, next_share f newB i r - share f i r).
Proof.
  intros Hwf Hv HoldB HnewB Hb. unfold updateBalance.
  erewrite M_bind_Ok by reflexivity.
  unfold rotate, share, next_share in *. fold (slashed f i).
  destruct (slashed f i) eqn:Hsl.
  { exists (f_store f). rewrite list_insert_id by done. split; [by destruct f|].
    apply bal_step_refl. done. }
  rewrite Hv in *.
  set (a := balance_at newB i) in *. set (o := balance_at (f_balances f) i) in *.
  pose proof (balance_at_nonneg newB i HnewB) as Ha. fold a in Ha.
  pose proof (balance_at_nonneg (f_balances f) i HoldB) as Ho. fold o in Ho.
  destruct ((v_currentRoot v =? ZeroHash) && (v_nextRoot v =? ZeroHash)) eqn:Hz.
  { apply andb_true_iff in Hz as [Hz1%Z.eqb_eq Hz2%Z.eqb_eq]. exists (f_store f).
    rewrite list_insert_id by (rewrite Hv; destruct v; simpl in *; congruence).
    split; [by destruct f|]. apply bal_step_refl. intros r [_ Hr]. unfold ZeroHash in *.
    rewrite (proj2 (Z.eqb_neq (v_nextRoot v) r)), (proj2 (Z.eqb_neq (v_currentRoot v) r)) by congruence.
    done. }
  destruct (negb (v_currentRoot v =? v_nextRoot v) || negb (default 0 (f_balances f !! i) =? default 0 (newB !! i))) eqn:Hch.
  - fold (change_vote (f_store f) (v_nextRoot v) (λ n, set_balance n (n_balance n +64 default 0 (newB !! i)))).
    fold (change_vote (f_store f) (v_currentRoot v) (λ n, if n_balance n <? default 0 (f_balances f !! i)
       then set_balance n 0 else set_balance n (n_balance n -64 default 0 (f_balances f !! i)))).
    change (default 0 (newB !! i)) with a. change (default 0 (f_balances f !! i)) with o.
    destruct (run_change_vote f (f_store f) t (v_nextRoot v) (λ n, set_balance n (n_balance n +64 a))
      (λ b, b +64 a) a) as (s1 & Hrun1 & Hst1); [done|done|done| |].
    { intros Hk. destruct (Hb _ Hk) as [H1 H2]. rewrite Z.eqb_refl in H2.
      apply u64_small. unfold is_u64. destruct (v_currentRoot v =? v_nextRoot v); lia. }
    destruct (run_change_vote (upd_store f s1) (f_store f) t (v_currentRoot v)
      (λ n, if n_balance n <? o then set_balance n 0 else set_balance n (n_balance n -64 o))
      (λ b, if b <? o then 0 else b -64 o) (- o)) as (s2 & Hrun2 & Hst2).
    { by eapply bal_step_wf. }
    { by destruct Hst1 as (h' & -> & _). }
    { intros n. by destruct (n_balance n <? o). }
    { intros Hk. simpl in *. apply (bal_step_known _ _ _ _ Hst1) in Hk.
      destruct Hst1 as (h' & -> & _ & Hd). rewrite (Hd _ Hk). destruct (Hb _ Hk) as [H1 H2].
      rewrite Z.eqb_refl in H1. destruct (Z.eqb_spec (v_nextRoot v) (v_currentRoot v)) as [Heq|Hne].
      - destruct (Z.ltb_spec (bal_of (f_store f) (v_currentRoot v) + a) o); [lia|].
        rewrite u64_small; [lia|]. unfold is_u64. lia.
      - destruct (Z.ltb_spec (bal_of (f_store f) (v_currentRoot v) + 0) o); [lia|].
        rewrite u64_small; [lia|]. unfold is_u64. lia. }
    exists s2. rewrite (M_bind_Ok _ _ f tt (upd_store f s2)).
    + split; [done|]. eapply bal_step_ext; [|eapply bal_step_trans; [exact Hst1|exact Hst2]].
      intros r _. simpl. destruct (v_nextRoot v =? r), (v_currentRoot v =? r); lia.
    + erewrite M_bind_Ok by exact Hrun1. exact Hrun2.
  - apply orb_false_iff in Hch as [Hc1%negb_false_iff%Z.eqb_eq Hc2%negb_false_iff%Z.eqb_eq].
    exists (f_store f). split; [by destruct f|]. apply bal_step_refl. intros r _.
    unfold a, o, balance_at. rewrite Hc1, Hc2. lia.
Qed.

Definition total (n : nat) (l : list Z) : Z := sum_to n (balance_at l).

(** The sums of both balance lists and of the boost stay within 64 bits; the total
    supply is far below this bound. *)
Definition balances_bounded (f : ForkChoice) : Prop :=
  nonneg (f_balances f) ∧ nonneg (f_justifiedBalances f) ∧
  0 ≤ s_previousProposerBoostScore (f_store f) ∧
  total (length (f_votes f)) (f_balances f) + total (length (f_votes f)) (f_justifiedBalances f)
    + s_previousProposerBoostScore (f_store f) < two64.

Lemma share_bounds f i r : nonneg (f_balances f) → 0 ≤ share f i r ≤ balance_at (f_balances f) i.
Proof.
  intros H. pose proof (balance_at_nonneg _ i H). unfold share.
  destruct (slashed f i); [lia|]. destruct (f_votes f !! i); [|lia]. destruct (_ =? _); lia.
Qed.

Lemma next_share_bounds f newB i r : nonneg newB → 0 ≤ next_share f newB i r ≤ balance_at newB i.
Proof.
  intros H. pose proof (balance_at_nonneg _ i H). unfold next_share.
  destruct (slashed f i); [lia|]. destruct (f_votes f !! i); [|lia]. destruct (_ =? _); lia.
Qed.

(** The votes when the first [k] have been rotated. *)
Definition rotated (f : ForkChoice) (k : nat) : list Vote :=
  imap (λ i v, if (i <? k)%nat then rotate f i v else v) (f_votes f).

Lemma rotated_lookup f k i : rotated f k !! i =
  (λ v, if (i <? k)%nat then rotate f i v else v) <$> f_votes f !! i.
Proof. apply list_lookup_imap. Qed.

Lemma rotated_step f k v : f_votes f !! k = Some v →
  <[k := rotate f k v]> (rotated f k) = rotated f (S k).
Proof.
  intros Hk. apply list_eq. intros i. rewrite rotated_lookup.
  destruct (decide (i = k)) as [->|Hne].
  - rewrite list_lookup_insert_eq by (unfold rotated; rewrite length_imap; by eapply lookup_lt_Some).
    rewrite Hk. simpl. by rewrite (proj2 (Nat.ltb_lt k (S k))) by lia.
  - rewrite list_lookup_insert_ne, rotated_lookup by done. destruct (f_votes f !! i); simpl; [|done].
    destruct (Nat.ltb_spec i k), (Nat.ltb_spec i (S k)); try done; lia.
Qed.

Definition update_inv (f : ForkChoice) (k : nat) (f' : ForkChoice) : Prop :=
  ∃ s, f' = upd_votes (upd_store f s) (rotated f k) ∧
    bal_step (f_store f) s (λ r, sum_to k (λ i, next_share f (f_justifiedBalances f) i r - share f i r)).

Lemma update_inv_step f t k f' :
  wf (f_store f) t → vote_inv f → balances_bounded f → (k < length (f_votes f))%nat →
  update_inv f k f' →
  ∃ f'', updateBalance (f_justifiedBalances f) k f' = (Ok tt, f'') ∧ update_inv f (S k) f''.
Proof.
  intros Hwf Hinv (HB & HJ & Hboost & Hbound) Hk (s & -> & Hst).
  set (newB := f_justifiedBalances f) in *. set (f' := upd_votes _ _).
  destruct (lookup_lt_is_Some_2 _ _ Hk) as [v Hv].
  assert (∀ i, slashed f' i = slashed f i) as Hsl by (by destruct Hst as (h' & -> & _)).
  assert (f_votes f' !! k = Some v) as Hv'.
  { simpl. rewrite rotated_lookup, Hv. simpl. by rewrite Nat.ltb_irrefl. }
  assert (∀ r, share f' k r = share f k r) as Hsh.
  { intros r. unfold share. by rewrite Hsl, Hv', Hv. }
  assert (∀ r, next_share f' newB k r = next_share f newB k r) as Hns.
  { intros r. unfold next_share. by rewrite Hsl, Hv', Hv. }
  destruct (updateBalance_spec f' newB k t v) as (s' & Hrun & Hst'); try done.
  { by eapply bal_step_wf. }
  { intros r Hr. rewrite Hsh, Hns. simpl in *. apply (bal_step_known _ _ _ _ Hst) in Hr.
    destruct Hst as (h' & -> & _ & Hd). rewrite (Hd r Hr), (Hinv r Hr). unfold votes_for.
    set (n := length (f_votes f)) in *. rewrite sum_to_sub.
    assert (∀ i, 0 ≤ share f i r ≤ balance_at (f_balances f) i) as HS by (intros; by apply share_bounds).
    assert (∀ i, 0 ≤ next_share f newB i r ≤ balance_at newB i) as HN by (intros; by apply next_share_bounds).
    pose proof (sum_to_prefix n k (λ i, share f i r) Hk (λ i _, proj1 (HS i))).
    pose proof (sum_to_prefix n k (λ i, next_share f newB i r) Hk (λ i _, proj1 (HN i))).
    pose proof (sum_to_nonneg k (λ i, next_share f newB i r) (λ i _, proj1 (HN i))).
    pose proof (sum_to_nonneg k (λ i, share f i r) (λ i _, proj1 (HS i))).
    pose proof (sum_to_le n (λ i, share f i r) (balance_at (f_balances f)) (λ i _, proj2 (HS i))).
    pose proof (sum_to_le n (λ i, next_share f newB i r) (balance_at newB) (λ i _, proj2 (HN i))).
    unfold total in Hbound. specialize (HN k).
    assert (0 ≤ boost_for f r ≤ s_previousProposerBoostScore (f_store f)).
    { unfold boost_for. destruct (_ =? _); lia. }
    specialize (HS k). cbv beta in *. lia. }
  eexists. split; [exact Hrun|]. exists s'. split.
  - simpl. unfold rotate at 1. rewrite Hsl. fold (rotate f k v). by rewrite rotated_step.
  - eapply bal_step_ext; [|eapply bal_step_trans; [exact Hst|exact Hst']].
    intros r _. cbn [sum_to]. by rewrite Hsh, Hns.
Qed.

(** [updateBalances] moves every vote: afterwards the invariant holds for the
    rotated votes and the justified balances. *)
Lemma updateBalances_spec f t :
  wf (f_store f) t → vote_inv f → balances_bounded f →
  ∃ s, let f' := upd_balances (upd_votes (upd_store f s) (imap (rotate f) (f_votes f)))
                   (f_justifiedBalances f) in
    updateBalances f = (Ok tt, f') ∧ wf s t ∧ vote_inv f' ∧
    ∃ d, bal_step (f_store f) s d.
Proof.
  intros Hwf Hinv Hb. set (n := length (f_votes f)).
  destruct (mfor_seq (updateBalance (f_justifiedBalances f)) (update_inv f) n f)
    as (f1 & Hrun & s & -> & Hst).
  { exists (f_store f). split; [|apply bal_step_refl; done].
    rewrite upd_store_self. unfold rotated. destruct f; simpl. unfold upd_votes. f_equal.
    symmetry. apply list_eq. intros i. rewrite list_lookup_imap. simpl.
    by destruct (_ !! i). }
  { intros i f' Hi HI. by eapply update_inv_step. }
  assert (rotated f n = imap (rotate f) (f_votes f)) as Hrot.
  { apply list_eq. intros i. rewrite rotated_lookup, list_lookup_imap.
    destruct (f_votes f !! i) eqn:E; simpl; [|done].
    apply lookup_lt_Some in E. fold n in E. by rewrite (proj2 (Nat.ltb_lt i n)). }
  exists s. unfold updateBalances. erewrite M_bind_Ok by reflexivity.
  erewrite M_bind_Ok by exact Hrun. rewrite Hrot. split_and!; [done|by eapply bal_step_wf| |by eexists].
  intros r Hr. simpl in *. apply (bal_step_known _ _ _ _ Hst) in Hr.
  assert (∀ i, next_share f (f_justifiedBalances f) i r =
    share (upd_balances (upd_votes (upd_store f s) (imap (rotate f) (f_votes f)))
             (f_justifiedBalances f)) i r) as Hns.
  { intros i. unfold share, next_share. simpl. destruct Hst as (h' & -> & _).
    unfold slashed at 2. simpl. fold (slashed f i). rewrite list_lookup_imap.
    destruct (slashed f i) eqn:Hs; [done|]. destruct (f_votes f !! i); simpl; [|done].
    unfold rotate. by rewrite Hs. }
  destruct Hst as (h' & -> & _ & Hd). rewrite (Hd r Hr), (Hinv r Hr).
  unfold votes_for, boost_for. simpl. rewrite length_imap. fold n.
  rewrite sum_to_sub, (sum_to_ext n _ _ (λ i _, Hns i)). lia.
Qed.

(** ** The proposer boost *)
Definition boost_score (s : Store) : Z := (s_committeeWeight s *64 ProposerScoreBoost) / 100.

Lemma votes_for_nonneg f r : nonneg (f_balances f) → 0 ≤ votes_for f r.
Proof. intros H. apply sum_to_nonneg. intros. by apply share_bounds. Qed.

(** The first half of [applyProposerBoostScore] takes the last boost away, ... *)
Lemma unboost_spec f t :
  wf (f_store f) t → vote_inv f → nonneg (f_balances f) →
  0 ≤ s_previousProposerBoostScore (f_store f) →
  (∀ r, votes_for f r + s_previousProposerBoostScore (f_store f) < two64) →
  ∃ s1 d, whenM (negb (s_previousProposerBoostRoot (f_store f) =? ZeroHash))
    (match s_nodeByRoot (f_store f) !! s_previousProposerBoostRoot (f_store f) with
     | None => mret tt
     | Some p => modNode p (λ n, set_balance n (n_balance n -64
                                   s_previousProposerBoostScore (f_store f)))
     end) (f_store f) = (Ok tt, s1) ∧ bal_step (f_store f) s1 d ∧
    ∀ r, known (f_store f) r → bal_of s1 r = votes_for f r.
Proof.
  intros Hwf Hinv HB Hps Hbound. unfold vote_inv in Hinv. set (s := f_store f) in *.
  destruct (Z.eqb_spec (s_previousProposerBoostRoot s) ZeroHash) as [Hz|Hz]; simpl.
  - exists s, (λ _, 0). split_and!; [done|by apply bal_step_refl|]. intros r Hr.
    rewrite (Hinv r Hr). unfold boost_for. fold s. destruct Hr as [_ Hr].
    rewrite (proj2 (Z.eqb_neq _ r)) by congruence. lia.
  - destruct (run_bal_mod s t (s_previousProposerBoostRoot s)
      (λ n, set_balance n (n_balance n -64 s_previousProposerBoostScore s))
      (λ b, b -64 s_previousProposerBoostScore s) (- s_previousProposerBoostScore s))
      as (s1 & Hrun & Hst); [done|done|done| |].
    { intros Hk. rewrite (Hinv _ Hk). unfold boost_for. fold s. rewrite Z.eqb_refl.
      pose proof (votes_for_nonneg f (s_previousProposerBoostRoot s) HB).
      specialize (Hbound (s_previousProposerBoostRoot s)). rewrite u64_small; unfold is_u64; lia. }
    exists s1. eexists. split_and!; [done|exact Hst|]. intros r Hr.
    destruct Hst as (h' & -> & _ & Hd). rewrite (Hd r Hr), (Hinv r Hr). unfold boost_for. fold s.
    destruct (_ =? _); lia.
Qed.

(** ... the second half gives the new one. *)
Lemma reboost_spec s s1 t (v : Z → Z) :
  wf s1 t → s_nodeByRoot s1 = s_nodeByRoot s →
  (∀ r, known s r → bal_of s1 r = v r) → (∀ r, 0 ≤ v r) → 0 ≤ boost_score s →
  (∀ r, v r + boost_score s < two64) →
  ∃ s2 d, (if negb (s_proposerBoostRoot s =? ZeroHash) then
       match s_nodeByRoot s !! s_proposerBoostRoot s with
       | None => mret 0
       | Some p =>
           let score := (s_committeeWeight s *64 ProposerScoreBoost) / 100 in
           modNode p (λ n, set_balance n (n_balance n +64 score));;
           mret score
       end
     else mret 0) s1 =
    (Ok (if decide (known s (s_proposerBoostRoot s)) then boost_score s else 0), s2) ∧
    bal_step s1 s2 d ∧
    ∀ r, known s r → bal_of s2 r = v r +
      (if s_proposerBoostRoot s =? r
       then if decide (known s (s_proposerBoostRoot s)) then boost_score s else 0 else 0).
Proof.
  intros Hwf Hidx Hv Hv0 Hs0 Hbound. unfold boost_score in *. set (b := s_proposerBoostRoot s) in *.
  set (score := (s_committeeWeight s *64 ProposerScoreBoost) / 100) in *.
  assert (¬ known s b → ∃ s2 d, (Ok 0, s1) = (Ok (if decide (known s b) then score else 0), s2) ∧
    bal_step s1 s2 d ∧ ∀ r, known s r → bal_of s2 r = v r +
      (if b =? r then if decide (known s b) then score else 0 else 0)) as Hno.
  { intros Hnk. rewrite decide_False by done. exists s1, (λ _, 0).
    split_and!; [done|by apply bal_step_refl|]. intros r Hr. rewrite (Hv r Hr). destruct (b =? r); lia. }
  destruct (Z.eqb_spec b ZeroHash) as [Hz|Hz]; simpl.
  { apply Hno. by intros [_ ?]. }
  destruct (s_nodeByRoot s !! b) as [p|] eqn:Hb.
  2: { assert (¬ known s b) as Hnk by (intros [[? ?] _]; congruence).
       exact (Hno Hnk). }
  assert (known s b) as Hk by (split; [by eexists|done]). clear Hno. rewrite !decide_True by done.
  rewrite <-Hidx in Hb.
  destruct (run_set_balance s1 t b p (λ n, set_balance n (n_balance n +64 score)) (λ x, x +64 score))
    as (s2 & Hrun & Hst); [done|done|done|].
  exists s2. eexists. split_and!; [by erewrite M_bind_Ok by exact Hrun|exact Hst|].
  intros r Hr. destruct Hst as (h' & -> & _ & Hd). unfold known in Hd. rewrite Hidx in Hd.
  rewrite (Hd r Hr), (Hv r Hr), (Hv b Hk). rewrite (Z.eqb_sym b r).
  destruct (Z.eqb_spec r b) as [->|]; [|lia].
  rewrite u64_small; [lia|]. unfold is_u64. specialize (Hbound b). specialize (Hv0 b). lia.
Qed.

Lemma applyProposerBoostScore_spec f t :
  wf (f_store f) t → vote_inv f → nonneg (f_balances f) →
  0 ≤ s_previousProposerBoostScore (f_store f) → 0 ≤ boost_score (f_store f) →
  (∀ r, votes_for f r + s_previousProposerBoostScore (f_store f) + boost_score (f_store f) < two64) →
  ∃ s2 d, let s := f_store f in
    let s' := upd_previousProposerBoostScore (upd_previousProposerBoostRoot s2 (s_proposerBoostRoot s))
      (if decide (known s (s_proposerBoostRoot s)) then boost_score s else 0) in
    applyProposerBoostScore s = (Ok tt, s') ∧ bal_step s s2 d ∧ vote_inv (upd_store f s').
Proof.
  intros Hwf Hinv HB Hps Hbs Hbound.
  destruct (unboost_spec f t) as (s1 & d1 & Hrun1 & Hst1 & Hv1); try done.
  { intros r. specialize (Hbound r). lia. }
  destruct (reboost_spec (f_store f) s1 t (votes_for f)) as (s2 & d2 & Hrun2 & Hst2 & Hv2).
  { by eapply bal_step_wf. }
  { by destruct Hst1 as (h' & -> & _). }
  { done. }
  { intros. by apply votes_for_nonneg. }
  { done. }
  { intros r. specialize (Hbound r). lia. }
  pose proof (bal_step_trans _ _ _ _ _ Hst1 Hst2) as Hst.
  exists s2. eexists. split_and!; [|exact Hst|].
  - unfold applyProposerBoostScore. erewrite M_bind_Ok by reflexivity.
    erewrite M_bind_Ok by exact Hrun1. erewrite M_bind_Ok by exact Hrun2.
    by destruct Hst as (h' & -> & _).
  - intros r Hr. simpl in *. apply (bal_step_known _ _ _ _ Hst) in Hr.
    unfold bal_of. simpl. fold (bal_of s2 r). rewrite (Hv2 r Hr). unfold boost_for. simpl. f_equal.
    destruct Hst as (h' & -> & _). done.
Qed.

(** ** Slashing *)

(** A slashed validator's share disappears from the store's sums. *)
Definition slash (f : ForkChoice) (index : Z) (s : Store) : ForkChoice :=
  upd_store f (upd_slashedIndices s ({[index]} ∪ s_slashedIndices (f_store f))).

Lemma slash_votes_for f i s r : (i < length (f_votes f))%nat →
  votes_for (slash f (Z.of_nat i) s) r = votes_for f r - share f i r.
Proof.
  intros Hi. unfold votes_for.
  pose proof (sum_to_zero_at (length (f_votes f)) i (λ i, share f i r) Hi) as Hs.
  cbv beta in Hs. rewrite <-Hs. apply sum_to_ext. intros j _.
  unfold share, slashed. simpl. destruct (decide (j = i)) as [->|].
  - by rewrite bool_decide_true by set_solver.
  - assert (Z.of_nat j ∈ ({[Z.of_nat i]} ∪ s_slashedIndices (f_store f) : gset Z) ↔
            Z.of_nat j ∈ s_slashedIndices (f_store f)) as Hiff.
    { rewrite elem_of_union, elem_of_singleton. split; [|by right]. intros [?%Nat2Z.inj|?]; done. }
    by rewrite (bool_decide_ext _ _ Hiff).
Qed.

(** An index beyond the votes or the balances has no share to lose. *)
Lemma slash_votes_for_out f index s r : 0 ≤ index →
  Z.of_nat (length (f_balances f)) ≤ index ∨ Z.of_nat (length (f_votes f)) ≤ index →
  votes_for (slash f index s) r = votes_for f r.
Proof.
  intros H0 Hout. apply sum_to_ext. intros j Hj. simpl in Hj. unfold share, slashed. simpl.
  destruct (decide (Z.of_nat j = index)) as [<-|Hne].
  - rewrite bool_decide_true by set_solver. destruct Hout as [Hout|?]; [|lia].
    unfold balance_at. rewrite (lookup_ge_None_2 (f_balances f)) by lia. simpl.
    repeat case_match; done.
  - assert (Z.of_nat j ∈ ({[index]} ∪ s_slashedIndices (f_store f) : gset Z) ↔
            Z.of_nat j ∈ s_slashedIndices (f_store f)) as Hiff by set_solver.
    by rewrite (bool_decide_ext _ _ Hiff).
Qed.

Lemma InsertSlashedIndex_spec f t index :
  wf (f_store f) t → vote_inv f → nonneg (f_balances f) →
  0 ≤ s_previousProposerBoostScore (f_store f) →
  (∀ r, votes_for f r + s_previousProposerBoostScore (f_store f) < two64) → 0 ≤ index →
  ∃ f', InsertSlashedIndex index f = (Ok tt, f') ∧ wf (f_store f') t ∧ vote_inv f' ∧
    s_slashedIndices (f_store f') = {[index]} ∪ s_slashedIndices (f_store f).
Proof.
  intros Hwf Hinv HB Hps Hbound H0. unfold InsertSlashedIndex. erewrite M_bind_Ok by reflexivity.
  case_bool_decide as Hin.
  { exists f. split_and!; [done..|]. set_solver. }
  erewrite M_bind_Ok by reflexivity. fold (slash f index (f_store f)).
  assert (wf (f_store (slash f index (f_store f))) t) as Hwf1 by (by destruct Hwf; split).
  assert (Z.of_nat (length (f_balances f)) ≤ index ∨ Z.of_nat (length (f_votes f)) ≤ index →
    vote_inv (slash f index (f_store f))) as Hout.
  { intros Hout r Hr. rewrite slash_votes_for_out by done. apply (Hinv r Hr). }
  destruct (Z.geb_spec index (Z.of_nat (length (f_balances f)))) as [Hb|Hb].
  { eexists. split_and!; [done|done|apply Hout; lia|done]. }
  destruct (Z.geb_spec index (Z.of_nat (length (f_votes f)))) as [Hv|Hv].
  { eexists. split_and!; [done|done|apply Hout; lia|done]. }
  clear Hout. set (i := Z.to_nat index) in *. replace index with (Z.of_nat i) in * by lia.
  destruct (lookup_lt_is_Some_2 (f_votes f) i) as [vote Hvote]; [lia|].
  destruct (lookup_lt_is_Some_2 (f_balances f) i) as [bal Hbal]; [lia|].
  rewrite Hvote, Hbal.
  assert (∀ r, share f i r = if v_currentRoot vote =? r then bal else 0) as Hsh.
  { intros r. unfold share, slashed. rewrite bool_decide_false, Hvote by done.
    unfold balance_at. by rewrite Hbal. }
  destruct (s_nodeByRoot (f_store f) !! v_currentRoot vote) as [p|] eqn:Hp.
  2: { eexists. split_and!; [done|done| |done]. intros r Hr. rewrite slash_votes_for by lia.
       rewrite Hsh. destruct (Z.eqb_spec (v_currentRoot vote) r) as [<-|].
       - destruct Hr as [[? Hr] _]. simpl in Hr. congruence.
       - rewrite Z.sub_0_r. apply (Hinv r Hr). }
  destruct (run_set_balance (f_store (slash f (Z.of_nat i) (f_store f))) t (v_currentRoot vote) p
    (λ n, if n_balance n <? bal then set_balance n 0 else set_balance n (n_balance n -64 bal))
    (λ b, if b <? bal then 0 else b -64 bal)) as (s' & Hrun & Hst); [done|done| |].
  { intros n. by destruct (n_balance n <? bal). }
  eexists. split; [unfold onStore; by rewrite Hrun|]. simpl f_store.
  split_and!; [by eapply bal_step_wf| |by destruct Hst as (? & -> & _)].
  intros r Hr. simpl in *. pose proof Hr as Hk. apply (bal_step_known _ _ _ _ Hst) in Hk.
  assert (votes_for (upd_store (slash f (Z.of_nat i) (f_store f)) s') r = votes_for f r - share f i r) as Hvf.
  { rewrite <-(slash_votes_for f i (f_store f) r) by lia. by destruct Hst as (h' & -> & _). }
  assert (boost_for (upd_store (slash f (Z.of_nat i) (f_store f)) s') r = boost_for f r) as Hbf.
  { by destruct Hst as (h' & -> & _). }
  pose proof (balance_at_nonneg (f_balances f) i HB) as Hb0. unfold balance_at in Hb0. rewrite Hbal in Hb0.
  rewrite Hvf, Hbf, Hsh. destruct Hst as (h' & -> & _ & Hd). simpl in Hb0. rewrite (Hd r Hk).
  change (bal_of (upd_slashedIndices (f_store f) ({[Z.of_nat i]} ∪ s_slashedIndices (f_store f)))) with (bal_of (f_store f)).
  rewrite (Hinv r Hk), (Z.eqb_sym (v_currentRoot vote)).
  destruct (Z.eqb_spec r (v_currentRoot vote)) as [->|]; [|lia].
  rewrite (Hinv _ Hk).
  pose proof (sum_to_prefix (length (f_votes f)) i (λ i, share f i (v_currentRoot vote)) ltac:(lia)
    (λ j _, proj1 (share_bounds f j _ HB))) as Hpre.
  pose proof (sum_to_nonneg i (λ i, share f i (v_currentRoot vote)) (λ j _, proj1 (share_bounds f j _ HB))).
  cbv beta in Hpre. rewrite (Hsh (v_currentRoot vote)), Z.eqb_refl in Hpre. fold (votes_for f (v_currentRoot vote)) in Hpre.
  assert (0 ≤ boost_for f (v_currentRoot vote) ≤ s_previousProposerBoostScore (f_store f)).
  { unfold boost_for. destruct (_ =? _); lia. }
  specialize (Hbound (v_currentRoot vote)). cbv beta in *.
  destruct (Z.ltb_spec (votes_for f (v_currentRoot vote) + boost_for f (v_currentRoot vote)) bal); [lia|].
  rewrite u64_small; [lia|]. unfold is_u64. lia.
Qed.

End update.
