(* ===== verification/ForkHead.v ===== *)
(** * [Head]: the fork choice rule

    [Head] computes LMD-GHOST with proposer boost: from the justified block, the
    branch with the greatest weight among those that contain a viable block, ties
    broken by root, where the weight of a block is the total balance of the
    validators that are not slashed and whose latest vote is the block or one of
    its descendants, plus the boost. *)
From S2P Require Import Prelude Config SlotTime ForkTypes ForkTree ForkNode ForkNodeFacts ForkStore ForkStoreFacts ForkChoice ForkQueryFacts ForkVotes.

Definition roots_of (h : heap) (x : tree) : list Z := root_of h <$> ptrs x.
Definition balance_of (h : heap) (p : ptr) : Z :=
  match h !! p with Some n => n_balance n | None => 0 end.

(** The weight LMD-GHOST gives to a set of block roots. *)
Definition lmd_weight (f : ForkChoice) (rs : list Z) : Z :=
  sum_to (length (f_votes f)) (λ i,
    if slashed f i then 0
    else match f_votes f !! i with
         | Some v => if decide (v_currentRoot v ∈ rs) then balance_at (f_balances f) i else 0
         | None => 0
         end) +
  (if decide (s_previousProposerBoostRoot (f_store f) ∈ rs)
   then s_previousProposerBoostScore (f_store f) else 0).

(** The same weight from the state before [Head] settles the votes: every validator that is
    not slashed counts its justified balance for its latest vote, and the boosted block
    counts its share of a committee's weight. *)
Definition ghost_weight `{cfg : BeaconChainConfig} (f : ForkChoice) (rs : list Z) : Z :=
  sum_to (length (f_votes f)) (λ i,
    if slashed f i then 0
    else match f_votes f !! i with
         | Some v => if decide (v_nextRoot v ∈ rs) then balance_at (f_justifiedBalances f) i else 0
         | None => 0
         end) +
  (if decide (s_proposerBoostRoot (f_store f) ∈ rs)
   then s_committeeWeight (f_store f) * ProposerScoreBoost / 100 else 0).

(** Summing the shares per block counts every validator once. *)
Lemma lmd_weight_sum f rs : NoDup rs →
  sumZ (map (λ r, votes_for f r + boost_for f r) rs) = lmd_weight f rs.
Proof.
  induction 1 as [|r rs Hr Hnd IH]; cbn [map].
  - unfold lmd_weight. rewrite decide_False by set_solver.
    rewrite (sum_to_ext _ _ (λ _, 0)); [by rewrite sum_to_0|]. intros i _.
    destruct (slashed f i); [done|]. destruct (f_votes f !! i); [|done].
    by rewrite decide_False by set_solver.
  - rewrite sumZ_cons, IH. unfold lmd_weight, votes_for, boost_for.
    set (n := length (f_votes f)).
    set (g := λ i, if slashed f i then 0 else match f_votes f !! i with
      | Some v => if decide (v_currentRoot v ∈ rs) then balance_at (f_balances f) i else 0
      | None => 0 end).
    set (g' := λ i, if slashed f i then 0 else match f_votes f !! i with
      | Some v => if decide (v_currentRoot v ∈ r :: rs) then balance_at (f_balances f) i else 0
      | None => 0 end).
    rewrite (sum_to_ext n g' (λ i, share f i r + g i)).
    2: { intros i _. unfold share, g, g'. destruct (slashed f i); [done|].
         destruct (f_votes f !! i) as [v|]; [|done].
         destruct (Z.eqb_spec (v_currentRoot v) r), (decide (v_currentRoot v ∈ rs)),
           (decide (v_currentRoot v ∈ r :: rs)); first [lia|exfalso; set_solver]. }
    rewrite sum_to_add.
    set (b := s_previousProposerBoostRoot (f_store f)).
    destruct (Z.eqb_spec b r), (decide (b ∈ rs)), (decide (b ∈ r :: rs));
      first [lia|exfalso; set_solver].
Qed.

Lemma lmd_weight_bounds f rs : nonneg (f_balances f) →
  0 ≤ s_previousProposerBoostScore (f_store f) →
  0 ≤ lmd_weight f rs ≤
    total (length (f_votes f)) (f_balances f) + s_previousProposerBoostScore (f_store f).
Proof.
  intros HB Hs. unfold lmd_weight, total. set (g := λ i, if slashed f i then 0 else _).
  assert (∀ i, 0 ≤ g i ≤ balance_at (f_balances f) i) as Hg.
  { intros i. pose proof (balance_at_nonneg _ i HB). unfold g.
    destruct (slashed f i); [lia|]. destruct (f_votes f !! i); [|lia]. destruct (decide _); lia. }
  pose proof (sum_to_nonneg (length (f_votes f)) g (λ i _, proj1 (Hg i))).
  pose proof (sum_to_le (length (f_votes f)) g _ (λ i _, proj2 (Hg i))).
  destruct (decide _); lia.
Qed.

(** The weight of a subtree without the zero root is the sum of its balances. *)
Lemma u64_sum {A} (g : A → Z) a l :
  u64 (a + sumZ (map (λ x, u64 (g x)) l)) = u64 (a + sumZ (map g l)).
Proof.
  revert a. induction l as [|x l IH]; intros a; cbn [map]; [done|]. rewrite !sumZ_cons.
  replace (a + (u64 (g x) + sumZ (map (λ x, u64 (g x)) l)))
    with (a + u64 (g x) + sumZ (map (λ x, u64 (g x)) l)) by lia.
  rewrite IH. replace (a + u64 (g x) + sumZ (map g l)) with ((a + sumZ (map g l)) + u64 (g x)) by lia.
  rewrite u64_add_r. f_equal. lia.
Qed.

Lemma subtree_weight_sum h x : is_tree h x → (∀ q, q ∈ ptrs x → root_of h q ≠ ZeroHash) →
  subtree_weight h x = u64 (sumZ (map (balance_of h) (ptrs x))).
Proof.
  induction x as [p ts IH] using tree_ind'. rewrite Forall_forall in IH.
  intros [(n & Hn & _) Hts]%is_tree_Br Hz. cbn [subtree_weight]. rewrite Hn.
  assert (n_root n ≠ ZeroHash) as Hr.
  { specialize (Hz p (rootp_in (Br p ts))). unfold root_of in Hz. by rewrite Hn in Hz. }
  rewrite (proj2 (Z.eqb_neq _ _) Hr).
  rewrite (map_ext_in _ (λ t, u64 (sumZ (map (balance_of h) (ptrs t))))).
  2: { intros t Ht%list_elem_of_In. apply IH; [done|auto|]. intros q Hq. apply Hz.
       apply elem_of_ptrs_Br. eauto. }
  rewrite u64_sum, ptrs_Br. cbn [map]. rewrite sumZ_cons. f_equal. f_equal; [unfold balance_of; by rewrite Hn|].
  clear. induction ts as [|t ts IH]; csimpl; [done|].
  by rewrite map_app, sumZ_app, <-IH.
Qed.

(** ** Transport of the invariant over the traversals *)
Definition same_balance (n n' : Node) : Prop := n_balance n' = n_balance n.

Lemma vote_inv_frames f l R h' : (∀ n n', R n n' → n_balance n' = n_balance n) →
  frames l R (s_heap (f_store f)) h' → vote_inv f → vote_inv (upd_store f (upd_heap (f_store f) h')).
Proof.
  intros HR Hf Hinv r Hr. etrans; [|exact (Hinv r Hr)]. unfold bal_of. simpl.
  destruct (s_nodeByRoot (f_store f) !! r) as [p|]; [|done]. specialize (Hf p).
  destruct (s_heap (f_store f) !! p), (h' !! p); try done. destruct Hf as [Hf _]. by apply HR.
Qed.

Lemma root_of_frames l R h h' p : keeps_links R → frames l R h h' → root_of h' p = root_of h p.
Proof.
  intros HR Hf. unfold root_of. specialize (Hf p). destruct (h !! p), (h' !! p); try done.
  by destruct Hf as [(_ & _ & ?)%HR _].
Qed.

(** The walk is a function: its end is determined by the tree. *)
Lemma ghost_unique j e s t x q q' : wf s t → x ∈ subtrees t →
  ghost j e (s_heap s) x q → ghost j e (s_heap s) x q' → q = q'.
Proof.
  intros Hwf Hx Hq. revert q'. induction Hq as [p ts Hno|p ts c q Hc Hv Hmax _ IH]; intros q' Hq';
    inversion Hq' as [? ? Hno'|? ? c' ? Hc' Hv' Hmax' Hg']; subst; [done| | |].
  - by rewrite Hno in Hv'.
  - by rewrite Hno' in Hv.
  - assert (c ∈ subtrees t) as Hct by (by apply (subtrees_branch (Br p ts))).
    assert (c' ∈ subtrees t) as Hct' by (by apply (subtrees_branch (Br p ts))).
    apply (IH Hct). replace c with c'; [done|].
    apply (subtree_unique t); [apply Hwf|done|done|].
    apply (wf_root_inj s t); [done|by apply rootp_subtree..|].
    pose proof (Hmax c' Hc' Hv') as [?|[? ?]]; pose proof (Hmax' c Hc Hv) as [?|[? ?]]; lia.
Qed.

Section head.
Context `{cfg : BeaconChainConfig}.

(** The subtree that [head] starts from. *)
Definition justified_node (s : Store) (t x : tree) : Prop :=
  let jc := s_justifiedCheckpoint s in
  x ∈ subtrees t ∧
  (s_nodeByRoot s !! cp_root jc = Some (rootp x) ∨
   (s_nodeByRoot s !! cp_root jc = None ∧ cp_epoch jc = GenesisEpoch ∧ x = t)).

Lemma head_spec s t x now e :
  wf s t → s_ctx s = None → justified_node s t x →
  let j := cp_epoch (s_justifiedCheckpoint s) in
  best_ok j e (s_heap s) t → EpochsSinceGenesis (s_genesisTime s) now = Ok e →
  ∃ q s', ghost j e (s_heap s) x q ∧ s_heap s' = s_heap s ∧
    head now s = (if viable j e (s_heap s) q then Ok (root_of (s_heap s) q) else Err errHeadNotViable, s') ∧
    s_headNode s' = (if viable j e (s_heap s) q then Some q else s_headNode s) ∧
    s_allTipsAreInvalid s' = negb (viable j e (s_heap s) q) ∧
    ∃ hn b, s' = upd_headNode (upd_allTipsAreInvalid s b) hn.
Proof.
  intros Hwf Hctx [Hx Hj] j Hbest Hnow.
  destruct (Hbest x Hx) as (nx & q & Hnx & Hq & Hb). exists q.
  assert (q ∈ ptrs t) as Hqt by (eapply ptrs_subtree; [done|by eapply ghost_in]).
  destruct (wf_lookup s t q Hwf Hqt) as [nq Hnq].
  unfold head. mstep. erewrite M_bind_Ok by reflexivity.
  erewrite (M_bind_Ok _ _ s (Some (rootp x)) s).
  2: { destruct Hj as [->|(-> & He & ->)]; [done|]. rewrite He, Z.eqb_refl. by rewrite (wf_root _ _ Hwf). }
  mstep. rewrite Hb. erewrite M_bind_Ok by (unfold mlift; by rewrite Hnow).
  replace (match (if decide (q = rootp x) then None else Some q) with
           | None => Some (rootp x) | Some b => Some b end) with (Some q)
    by (by destruct (decide (q = rootp x)) as [->|]).
  mstep. unfold viable, root_of. rewrite Hnq. fold j.
  destruct (viableForHead nq j e); simpl.
  - do 2 (erewrite M_bind_Ok by reflexivity). unfold whenM. case_bool_decide as Hhd.
    + exists (upd_headNode (upd_allTipsAreInvalid s false) (Some q)). split_and!; try done.
      by exists (Some q), false.
    + exists (upd_allTipsAreInvalid s false). split_and!; try done.
      exists (s_headNode s), false. by destruct s.
  - exists (upd_allTipsAreInvalid s true). split_and!; try done.
    exists (s_headNode s), true. by destruct s.
Qed.

Lemma run_onStore {A} (m : MS A) f r s' : m (f_store f) = (r, s') →
  onStore m f = (r, upd_store f s').
Proof. unfold onStore. by intros ->. Qed.

(** What the weights become once balances and boost are settled. *)
Lemma weights_lmd f t : wf (f_store f) t → s_ctx (f_store f) = None →
  s_nodeByRoot (f_store f) !! ZeroHash = None → vote_inv f → nonneg (f_balances f) →
  0 ≤ s_previousProposerBoostScore (f_store f) →
  total (length (f_votes f)) (f_balances f) + s_previousProposerBoostScore (f_store f) < two64 →
  ∃ h', applyWeightChanges (fuelOf (f_store f)) (rootp t) (f_store f) =
      (Ok tt, upd_heap (f_store f) h') ∧
    frames (ptrs t) eq_but_weight (s_heap (f_store f)) h' ∧
    ∀ y, y ∈ subtrees t →
      weight_of h' (rootp y) = lmd_weight f (roots_of (s_heap (f_store f)) y).
Proof.
  intros Hwf Hctx Hz Hinv HB Hs Hbound.
  destruct (applyWeightChanges_spec (fuelOf (f_store f)) t (f_store f)) as (h' & Hrun & Hf & Hw);
    [apply Hwf|apply Hwf|apply Nat.lt_le_incl; apply height_fuel; apply Hwf|done|].
  exists h'. split_and!; [done|done|]. intros y Hy. rewrite (Hw y Hy).
  assert (∀ q, q ∈ ptrs y → q ∈ ptrs t) as Hyt by (intros; by eapply ptrs_subtree).
  assert (∀ q, q ∈ ptrs y → s_nodeByRoot (f_store f) !! root_of (s_heap (f_store f)) q = Some q) as Hidx.
  { intros q Hq. destruct (wf_lookup _ t q Hwf (Hyt q Hq)) as [n Hn].
    apply (wf_index _ _ Hwf). split; [auto|]. exists n. unfold root_of. by rewrite Hn. }
  assert (∀ q, q ∈ ptrs y → root_of (s_heap (f_store f)) q ≠ ZeroHash) as Hnz.
  { intros q Hq Heq. specialize (Hidx q Hq). congruence. }
  rewrite subtree_weight_sum; [|eapply is_tree_subtree; [apply Hwf|done]|done].
  assert (map (balance_of (s_heap (f_store f))) (ptrs y) =
    map (λ r, votes_for f r + boost_for f r) (roots_of (s_heap (f_store f)) y)) as ->.
  { unfold roots_of. change (fmap (M:=list)) with (@map ptr Z). rewrite map_map. apply map_ext_in.
    intros q Hq%list_elem_of_In. rewrite <-Hinv by (split; [by rewrite Hidx|auto]).
    unfold bal_of. by rewrite Hidx. }
  rewrite lmd_weight_sum.
  - apply u64_small. pose proof (lmd_weight_bounds f (roots_of (s_heap (f_store f)) y) HB Hs).
    unfold is_u64. lia.
  - unfold roots_of. apply NoDup_fmap_2_strong; [|by eapply NoDup_ptrs_subtree, Hwf].
    intros p q Hp Hq. apply (wf_root_inj _ t); auto.
Qed.

(** The state in which [Head] may be called. *)
Record head_ready (f : ForkChoice) (t : tree) : Prop := {
  hr_wf : wf (f_store f) t;
  hr_ctx : s_ctx (f_store f) = None;
  hr_zero : s_nodeByRoot (f_store f) !! ZeroHash = None;
  hr_votes : vote_inv f;
  hr_bounded : balances_bounded f;
  hr_boost : total (length (f_votes f)) (f_justifiedBalances f)
    + s_previousProposerBoostScore (f_store f) + boost_score (f_store f) < two64;
  hr_committee : 0 ≤ s_committeeWeight (f_store f) * ProposerScoreBoost < two64
}.

Lemma boost_score_nonneg s : 0 ≤ boost_score s.
Proof.
  unfold boost_score. apply Z.div_pos; [|lia].
  pose proof (u64_range (s_committeeWeight s * ProposerScoreBoost)). unfold is_u64 in *. lia.
Qed.

Lemma votes_for_total f r : nonneg (f_balances f) →
  votes_for f r ≤ total (length (f_votes f)) (f_balances f).
Proof. intros H. apply sum_to_le. intros. by apply share_bounds. Qed.

(** The first two steps of [Head]: votes and boost. *)
Lemma Head_balances f t : head_ready f t →
  ∃ s, let f' := upd_balances (upd_votes (upd_store f s) (imap (rotate f) (f_votes f)))
                   (f_justifiedBalances f) in
    (updateBalances;; onStore applyProposerBoostScore) f = (Ok tt, f') ∧
    wf s t ∧ vote_inv f' ∧ 0 ≤ s_previousProposerBoostScore s ∧
    total (length (f_votes f')) (f_balances f') + s_previousProposerBoostScore s < two64 ∧
    s_ctx s = None ∧ s_nodeByRoot s = s_nodeByRoot (f_store f) ∧
    s_justifiedCheckpoint s = s_justifiedCheckpoint (f_store f) ∧
    s_finalizedCheckpoint s = s_finalizedCheckpoint (f_store f) ∧
    s_genesisTime s = s_genesisTime (f_store f) ∧
    s_previousProposerBoostRoot s = s_proposerBoostRoot (f_store f) ∧
    s_previousProposerBoostScore s =
      (if decide (known (f_store f) (s_proposerBoostRoot (f_store f))) then boost_score (f_store f) else 0) ∧
    s_slashedIndices s = s_slashedIndices (f_store f).
Proof.
  intros [Hwf Hctx Hz Hinv Hb Hboost _].
  destruct (updateBalances_spec f t Hwf Hinv Hb) as (s1 & Hrun1 & Hwf1 & Hinv1 & d1 & Hst1).
  set (f1 := upd_balances _ _) in *.
  destruct Hb as (HB & HJ & Hps & Hbound). pose proof (boost_score_nonneg (f_store f)) as Hbs.
  destruct Hst1 as (h1 & -> & _).
  destruct (applyProposerBoostScore_spec f1 t) as (s2 & d2 & Hrun2 & Hst2 & Hinv2); try done.
  { intros r. pose proof (votes_for_total f1 r HJ) as Hv. simpl in *.
    rewrite length_imap in Hv. change (boost_score (upd_heap (f_store f) h1)) with (boost_score (f_store f)).
    lia. }
  set (s' := upd_previousProposerBoostScore _ _) in *. exists s'. cbv zeta.
  assert (s_previousProposerBoostScore s' = 0 ∨ s_previousProposerBoostScore s' = boost_score (f_store f)) as Hsc.
  { simpl. case_decide; [by right|by left]. }
  pose proof (sum_to_nonneg (length (f_votes f)) (balance_at (f_balances f))
    (λ i _, balance_at_nonneg _ i HB)) as Ht0.
  split_and!.
  - erewrite M_bind_Ok by exact Hrun1. by rewrite (run_onStore _ f1 _ _ Hrun2).
  - assert (wf s2 t) as Hwf2 by (by eapply bal_step_wf). by destruct Hwf2; split.
  - exact Hinv2.
  - destruct Hsc as [-> | ->]; [done|lia].
  - cbn [f_votes f_balances upd_balances upd_votes]. rewrite length_imap. unfold total in *.
    destruct Hsc as [-> | ->]; lia.
  - by destruct Hst2 as (h2 & -> & _).
  - by destruct Hst2 as (h2 & -> & _).
  - by destruct Hst2 as (h2 & -> & _).
  - by destruct Hst2 as (h2 & -> & _).
  - by destruct Hst2 as (h2 & -> & _).
  - by destruct Hst2 as (h2 & -> & _).
  - done.
  - by destruct Hst2 as (h2 & -> & _).
Qed.

(** Settling the votes and the boost makes the weight what it was to be. *)
Lemma lmd_ghost_weight f s s' rs : 0 ≤ s_committeeWeight (f_store f) * ProposerScoreBoost < two64 →
  s_slashedIndices s' = s_slashedIndices (f_store f) →
  s_previousProposerBoostRoot s' = s_proposerBoostRoot (f_store f) →
  s_previousProposerBoostScore s' = (if decide (known (f_store f) (s_proposerBoostRoot (f_store f))) then boost_score (f_store f) else 0) →
  (∀ r, r ∈ rs → known (f_store f) r) →
  lmd_weight (upd_store (upd_balances (upd_votes (upd_store f s) (imap (rotate f) (f_votes f))) (f_justifiedBalances f)) s') rs =
  ghost_weight f rs.
Proof.
  intros Hc Hs Hr Hsc Hrs. unfold lmd_weight, ghost_weight. cbn [f_votes f_balances f_store upd_balances upd_votes upd_store].
  rewrite length_imap. f_equal.
  - apply sum_to_ext. intros i _. unfold slashed. cbn [f_store upd_store]. rewrite Hs.
    fold (slashed f i). rewrite list_lookup_imap. destruct (slashed f i) eqn:E; [done|].
    destruct (f_votes f !! i) as [v|]; [|done]. cbn. unfold rotate. by rewrite E.
  - rewrite Hr. destruct (decide (s_proposerBoostRoot (f_store f) ∈ rs)) as [Hin|]; [|done]. rewrite Hsc, decide_True by auto. unfold boost_score. by rewrite u64_small.
Qed.

Lemma Head_spec f t x e clk :
  head_ready f t → justified_node (f_store f) t x →
  EpochsSinceGenesis (s_genesisTime (f_store f)) (clk 0%nat) = Ok e →
  EpochsSinceGenesis (s_genesisTime (f_store f)) (clk 1%nat) = Ok e →
  ∃ f' q, let h := s_heap (f_store f') in
    let j := cp_epoch (s_justifiedCheckpoint (f_store f)) in
    Head clk f = (if viable j e h q then Ok (root_of h q) else Err errHeadNotViable, f') ∧
    wf (f_store f') t ∧ vote_inv f' ∧
    f_votes f' = imap (rotate f) (f_votes f) ∧ f_balances f' = f_justifiedBalances f ∧
    (∀ y, y ∈ subtrees t → weight_of h (rootp y) = ghost_weight f (roots_of h y)) ∧
    ghost j e h x q ∧
    s_previousProposerBoostRoot (f_store f') = s_proposerBoostRoot (f_store f) ∧
    (viable j e h q = true → s_headNode (f_store f') = Some q).
Proof.
  intros Hready [Hx Hjust] He0 He1.
  destruct (Head_balances f t Hready) as (s & Hrun1 & Hwf & Hinv & Hps & Hbound & Hctx & Hidx & Hj & Hfin & Hgen & Hpr & Hsc & Hsl).
  set (f1 := upd_balances _ _) in *.
  destruct (weights_lmd f1 t) as (h1 & Hrun2 & Hf1 & Hw1); try done.
  { simpl. rewrite Hidx. apply Hready. }
  { simpl. apply Hready. }
  pose proof (wf_frames _ _ _ _ _ keeps_links_weight Hwf Hf1) as Hwf1.
  set (s1 := upd_heap s h1) in *. set (j := cp_epoch (s_justifiedCheckpoint (f_store f))).
  destruct (updateBestDescendant_spec j e (cp_epoch (s_finalizedCheckpoint s1)) (fuelOf s1) t s1)
    as (h2 & Hrun3 & Hf2 & Hbest); [apply Hwf1|apply Hwf1|apply Nat.lt_le_incl; apply height_fuel; apply Hwf1|done|].
  pose proof (wf_frames _ _ _ _ _ keeps_links_best Hwf1 Hf2) as Hwf2.
  set (s2 := upd_heap s1 h2) in *.
  destruct (head_spec s2 t x (clk 1%nat) e) as (q & s3 & Hq & Hh3 & Hrun4 & Hhd & _ & hn & b & Hs3); try done.
  { split; [done|]. simpl. by rewrite Hj, Hidx. }
  { simpl. by rewrite Hj. }
  { simpl. by rewrite Hgen. }
  assert (cp_epoch (s_justifiedCheckpoint s2) = j) as Hj2 by (simpl; by rewrite Hj).
  rewrite Hj2 in *. exists (upd_store f1 s3), q. simpl. rewrite Hh3.
  assert (∀ y, roots_of h2 y = roots_of (s_heap s) y) as Hroots.
  { intros y. apply list_fmap_ext. intros ? p _.
    rewrite (root_of_frames _ _ _ _ _ keeps_links_best Hf2).
    apply (root_of_frames _ _ _ _ _ keeps_links_weight Hf1). }
  split_and!; try done.
  - apply M_bind_Ok_inv in Hrun1 as ([] & fa & Hrun1 & Hrun1').
    unfold Head. erewrite M_bind_Ok by exact Hrun1. erewrite M_bind_Ok by exact Hrun1'.
    erewrite M_bind_Ok by reflexivity. cbn [f_store f1 upd_balances upd_votes upd_store].
    rewrite (wf_root _ _ Hwf). erewrite M_bind_Ok by reflexivity.
    erewrite M_bind_Ok by exact (run_onStore _ f1 _ _ Hrun2).
    erewrite M_bind_Ok by reflexivity. cbn [f_store f1 upd_balances upd_votes upd_store].
    fold s1. change (s_genesisTime s1) with (s_genesisTime s).
    rewrite Hgen, He0. erewrite M_bind_Ok by reflexivity.
    change (s_justifiedCheckpoint s1) with (s_justifiedCheckpoint s). rewrite Hj. fold j.
    erewrite M_bind_Ok by exact (run_onStore _ (upd_store f1 s1) _ _ Hrun3).
    exact (run_onStore _ (upd_store f1 s2) _ _ Hrun4).
  - subst s3. by destruct Hwf2; split.
  - assert (vote_inv (upd_store f1 s2)) as Hinv2.
    { apply (vote_inv_frames (upd_store f1 s1) (ptrs t) eq_but_best); [by intros n n' ->|done|].
      apply (vote_inv_frames f1 (ptrs t) eq_but_weight); [by intros n n' ->|done|done]. }
    by subst s3.
  - intros y Hy. rewrite Hroots.
    rewrite <-(lmd_ghost_weight f s s3); [|apply Hready|by subst s3..|].
    2: { intros r (p&->&Hp)%list_elem_of_fmap. assert (p ∈ ptrs t) as Hpt by (by eapply ptrs_subtree).
         destruct (wf_lookup s t p Hwf Hpt) as [n Hn].
         assert (s_nodeByRoot (f_store f) !! root_of (s_heap s) p = Some p) as Hlk.
         { rewrite <-Hidx. apply (wf_index _ _ Hwf). split; [done|]. exists n. unfold root_of. by rewrite Hn. }
         split; [by rewrite Hlk|]. intros Hz. rewrite Hz in Hlk. pose proof (hr_zero _ _ Hready). congruence. }
    transitivity (weight_of h1 (rootp y)); [|rewrite (Hw1 y Hy); by subst s3].
    change (s_heap s2) with h2. unfold weight_of. specialize (Hf2 (rootp y)). simpl in Hf2.
    destruct (h1 !! rootp y), (h2 !! rootp y); try done. by destruct Hf2 as [-> _].
  - by subst s3.
  - intros Hv. by rewrite Hv in Hhd.
Qed.

End head.

(** ** Executable checks of the fork choice invariants

    The invariants of ForkTree, ForkQueryFacts and ForkVotes as boolean functions,
    with their soundness: a concrete store is shown to satisfy them by
    evaluation. *)
Definition node_ok (h : heap) (p : ptr) (test : Node → bool) : bool :=
  match h !! p with Some n => test n | None => false end.

Fixpoint tree_b (h : heap) (par : option ptr) (t : tree) : bool :=
  match t with
  | Br p ts => node_ok h p (λ n, bool_decide (n_children n = map rootp ts) &&
                                 bool_decide (n_parent n = par)) &&
               forallb (tree_b h (Some p)) ts
  end.

Lemma node_ok_true h p test : node_ok h p test = true → ∃ n, h !! p = Some n ∧ test n = true.
Proof. unfold node_ok. destruct (h !! p); [eauto|done]. Qed.

Lemma tree_b_sound h par t : tree_b h par t = true → is_tree h t ∧ parents_ok h par t.
Proof.
  revert par. induction t as [p ts IH] using tree_ind'. rewrite Forall_forall in IH.
  intros par [(n & Hn & [Hc%bool_decide_eq_true Hp%bool_decide_eq_true]%andb_true_iff)%node_ok_true
    Hts]%andb_true_iff. rewrite forallb_forall in Hts.
  split; [apply is_tree_Br|apply parents_ok_Br]; (split; [by eauto|]);
    intros t Ht; apply (IH t Ht (Some p)), Hts; by apply list_elem_of_In.
Qed.

Definition wf_b (s : Store) (t : tree) : bool :=
  bool_decide (s_treeRootNode s = Some (rootp t)) && tree_b (s_heap s) None t &&
  bool_decide (NoDup (ptrs t)) &&
  forallb (λ '(r, p), bool_decide (p ∈ ptrs t) && node_ok (s_heap s) p (λ n, n_root n =? r))
    (map_to_list (s_nodeByRoot s)) &&
  forallb (λ p, node_ok (s_heap s) p (λ n, bool_decide (s_nodeByRoot s !! n_root n = Some p))) (ptrs t) &&
  forallb (λ '(p, _), (p <? s_next s)%positive) (map_to_list (s_heap s)).

Lemma wf_b_sound s t : wf_b s t = true → wf s t.
Proof.
  unfold wf_b. rewrite !andb_true_iff, !forallb_forall, !bool_decide_eq_true.
  intros (((((Hroot & [Ht Hp]%tree_b_sound) & Hnd) & Hidx) & Hall) & Hfresh). split; try done.
  - intros r p. split.
    + intros Hr. specialize (Hidx (r, p)). simpl in Hidx.
      destruct (proj1 (andb_true_iff _ _) (Hidx ltac:(apply list_elem_of_In; by apply elem_of_map_to_list)))
        as [Hin%bool_decide_eq_true (n & Hn & Hnr%Z.eqb_eq)%node_ok_true]. eauto.
    + intros [Hin (n & Hn & <-)]. specialize (Hall p ltac:(by apply list_elem_of_In)).
      apply node_ok_true in Hall as (n' & Hn' & Hi%bool_decide_eq_true). congruence.
  - intros p [n Hn]. specialize (Hfresh (p, n) ltac:(apply list_elem_of_In; by apply elem_of_map_to_list)).
    by apply Pos.ltb_lt in Hfresh.
Qed.

(** A property of a node and its parent, for the whole heap. *)
Definition parents_b (h : heap) (test : Node → Node → bool) : bool :=
  forallb (λ '(_, n), match n_parent n with
                      | Some pp => match h !! pp with Some pn => test n pn | None => true end
                      | None => true
                      end) (map_to_list h).

Lemma parents_b_sound h test p n pp pn : parents_b h test = true →
  h !! p = Some n → n_parent n = Some pp → h !! pp = Some pn → test n pn = true.
Proof.
  unfold parents_b. rewrite forallb_forall. intros H Hn Hpp Hpn.
  specialize (H (p, n) ltac:(apply list_elem_of_In; by apply elem_of_map_to_list)).
  cbv beta iota in H. rewrite Hpp, Hpn in H. done.
Qed.

Definition slots_b (s : Store) : bool := parents_b (s_heap s) (λ n pn, n_slot pn <? n_slot n).
Lemma slots_b_sound s : slots_b s = true → slots_increase s.
Proof. intros H p n pp pn Hn Hpp Hpn. apply Z.ltb_lt. exact (parents_b_sound _ _ p n pp pn H Hn Hpp Hpn). Qed.

Definition valid_b (h : heap) : bool := parents_b h (λ n pn, n_optimistic n || negb (n_optimistic pn)).
Lemma valid_b_sound h : valid_b h = true → valid_upwards h.
Proof.
  intros H p n pp pn Hn Ho Hpp Hpn. pose proof (parents_b_sound _ _ p n pp pn H Hn Hpp Hpn) as Ht.
  cbv beta in Ht. rewrite Ho in Ht. simpl in Ht. by apply negb_true_iff in Ht.
Qed.

Definition vote_inv_b (f : ForkChoice) : bool :=
  forallb (λ '(r, _), (r =? ZeroHash) || (bal_of (f_store f) r =? votes_for f r + boost_for f r))
    (map_to_list (s_nodeByRoot (f_store f))).
Lemma vote_inv_b_sound f : vote_inv_b f = true → vote_inv f.
Proof.
  unfold vote_inv_b. rewrite forallb_forall. intros H r [[p Hp] Hr].
  specialize (H (r, p) ltac:(apply list_elem_of_In; by apply elem_of_map_to_list)).
  apply orb_true_iff in H as [H%Z.eqb_eq|H%Z.eqb_eq]; [done|]. done.
Qed.

Definition nonneg_b (l : list Z) : bool := forallb (Z.leb 0) l.
Lemma nonneg_b_sound l : nonneg_b l = true → nonneg l.
Proof.
  unfold nonneg_b, nonneg. rewrite forallb_forall, Forall_forall. intros H x Hx.
  apply Z.leb_le, H. by apply list_elem_of_In.
Qed.
