(* ===== verification/ForkTheorems.v ===== *)
(** * The fork choice store: its properties

    The statements about forkchoice/doubly-linked-tree, with an instance of each
    on a store that the code itself builds ([ex_store], six blocks on two
    branches). *)
From S2P Require Import Prelude Config SlotTime ForkTypes ForkTree ForkNode ForkNodeFacts ForkStore ForkStoreFacts ForkChoice ForkAttest ForkQueryFacts ForkVotes ForkHead.

(** ** Head *)
Section head_theorems.
Context `{cfg : BeaconChainConfig}.

(** C1: [Head] is LMD-GHOST with proposer boost.  After it, the weight of every block is
    what the state before the call says it must be: the total justified balance of the
    validators that are not slashed and whose latest vote is the block or a descendant,
    plus, when the boosted block is among them, the committee weight times
    [ProposerScoreBoost] over 100.  [Head] returns the root of the one block at which the
    greedy walk from the justified block ends (heaviest branch containing a viable block,
    ties by root), or reports that this block is not viable.  The recursion always has
    enough fuel, and the store stays well formed.  The state is one in which the sums of
    balances and boosts fit in 64 bits, the node balances account for the current votes,
    and both readings of the clock fall in one epoch. *)
Theorem Head_is_lmd_ghost f t x e clk :
  head_ready f t → justified_node (f_store f) t x →
  EpochsSinceGenesis (s_genesisTime (f_store f)) (clk 0%nat) = Ok e →
  EpochsSinceGenesis (s_genesisTime (f_store f)) (clk 1%nat) = Ok e →
  ∃ f' q, let h := s_heap (f_store f') in
    let j := cp_epoch (s_justifiedCheckpoint (f_store f)) in
    Head clk f = (if viable j e h q then Ok (root_of h q) else Err errHeadNotViable, f') ∧
    wf (f_store f') t ∧ vote_inv f' ∧
    f_votes f' = imap (rotate f) (f_votes f) ∧ f_balances f' = f_justifiedBalances f ∧
    (∀ y, y ∈ subtrees t → weight_of h (rootp y) = ghost_weight f (roots_of h y)) ∧
    ghost j e h x q ∧ (∀ q', ghost j e h x q' → q' = q) ∧
    (viable j e h q = true → s_headNode (f_store f') = Some q).
Proof.
  intros Hready Hjust He0 He1.
  destruct (Head_spec f t x e clk Hready Hjust He0 He1)
    as (f' & q & Hrun & Hwf & Hinv & Hv & Hb & Hw & Hq & _ & Hhd).
  exists f', q. split_and!; try done.
  intros q' Hq'. eapply (ghost_unique _ _ (f_store f') t x); [done|apply Hjust|done|done].
Qed.

(** [updateBestDescendant] computes, in every node of the tree, the end of
    the greedy walk from that node, and changes nothing else; a branch is followed
    exactly when it contains a viable block. *)
Theorem updateBestDescendant_walks j f c t s :
  wf s t → s_ctx s = None →
  ∃ h', updateBestDescendant (fuelOf s) (rootp t) j f c s = (Ok tt, upd_heap s h') ∧
    frames (ptrs t) eq_but_best (s_heap s) h' ∧ wf (upd_heap s h') t ∧
    ∀ x, x ∈ subtrees t → ∃ n q, h' !! rootp x = Some n ∧
      n_bestDescendant n = (if decide (q = rootp x) then None else Some q) ∧
      ghost j c h' x q ∧ viable j c h' q = has_viable j c h' x.
Proof.
  intros Hwf Hctx.
  destruct (updateBestDescendant_spec j c f (fuelOf s) t s) as (h' & Hrun & Hf & Hok);
    [apply Hwf|apply Hwf|apply Nat.lt_le_incl; apply height_fuel; apply Hwf|done|].
  exists h'. split_and!; [done|done|by eapply wf_frames; [apply keeps_links_best|..]|].
  intros x Hx. destruct (Hok x Hx) as (n & q & Hn & Hq & Hb). exists n, q.
  split_and!; try done. by apply ghost_viable.
Qed.

(** [updateBalances] keeps the vote accounting exact: if every block's balance
    is the balance of its current voters (and its boost), the same holds after all
    votes have moved and the justified balances are in force, with no wrap-around
    and without resetting any balance. *)
Theorem updateBalances_exact f t :
  wf (f_store f) t → vote_inv f → balances_bounded f →
  ∃ f', updateBalances f = (Ok tt, f') ∧ wf (f_store f') t ∧ vote_inv f' ∧
    f_balances f' = f_justifiedBalances f ∧
    (∀ i v, f_votes f !! i = Some v → f_votes f' !! i = Some (rotate f i v)).
Proof.
  intros Hwf Hinv Hb. destruct (updateBalances_spec f t Hwf Hinv Hb) as (s & Hrun & Hwf' & Hinv' & _).
  eexists. split_and!; [exact Hrun|done|done|done|]. intros i v Hv. simpl.
  by rewrite list_lookup_imap, Hv.
Qed.

(** [InsertSlashedIndex] takes the slashed validator's balance off the block it
    voted for and nothing else, so the accounting stays exact without it. *)
Theorem InsertSlashedIndex_exact f t index :
  wf (f_store f) t → vote_inv f → nonneg (f_balances f) →
  0 ≤ s_previousProposerBoostScore (f_store f) →
  (∀ r, votes_for f r + s_previousProposerBoostScore (f_store f) < two64) → 0 ≤ index →
  ∃ f', InsertSlashedIndex index f = (Ok tt, f') ∧ wf (f_store f') t ∧ vote_inv f' ∧
    s_slashedIndices (f_store f') = {[index]} ∪ s_slashedIndices (f_store f).
Proof. apply InsertSlashedIndex_spec. Qed.

End head_theorems.

(** ** The store *)
Section store_theorems.
Context `{cfg : BeaconChainConfig}.

(** C33: [insert] keeps the store a well-formed tree whatever its outcome, also when
    the context is cancelled while best descendants are updated (the new node is
    then taken out again), when the clock or the block's payload cannot be read, and
    when it panics.  The tree grows by the new node at most; a returned node is the
    one indexed by the block's root, and a new block with an unknown parent is
    refused. *)
Theorem insert_keeps_wf clk blk je fe s t : wf s t →
  let out := insert clk blk je fe s in
  (∃ t', wf out.2 t' ∧ (ptrs t' ≡ₚ ptrs t ∨ ptrs t' ≡ₚ s_next s :: ptrs t)) ∧
  (∀ n, out.1 = Ok n → s_nodeByRoot out.2 !! b_root blk = Some n) ∧
  (s_nodeByRoot s !! b_root blk = None → s_nodeByRoot s !! b_parentRoot blk = None →
   is_ok out.1 = false).
Proof. intros Hwf out. exact (insert_spec clk blk je fe s t Hwf). Qed.

(** [removeNode] on an optimistic block with a parent removes exactly the
    block's subtree: from its parent's children, from the index and from the proposer
    boost; it returns the roots of the subtree, children before parents. *)
Theorem removeNode_removes_subtree s t x n :
  wf s t → s_ctx s = None → x ∈ subtrees t → x ≠ t →
  s_heap s !! rootp x = Some n → n_optimistic n = true →
  ∃ rs s' t', removeNode (Some (rootp x)) s = (Ok rs, s') ∧ wf s' t' ∧
    rs = post_roots (s_heap s) x ∧ rs ≡ₚ (root_of (s_heap s) <$> ptrs x) ∧
    ptrs t ≡ₚ ptrs t' ++ ptrs x ∧
    (∀ r, s_nodeByRoot s' !! r = if decide (r ∈ rs) then None else s_nodeByRoot s !! r) ∧
    s_proposerBoostRoot s' = (if decide (s_proposerBoostRoot s ∈ rs) then 0 else s_proposerBoostRoot s).
Proof.
  intros Hwf Hctx Hx Hne Hn Ho.
  destruct (removeNode_wf s t x n) as (y & ts' & ny & Hy & Hbr & Hny & Hrun); auto.
  destruct (wf_remove s t x y ts' ny Hwf Hy Hbr Hny) as [Hwf' Hperm].
  eexists _, _, _. split_and!; [exact Hrun|exact Hwf'|done|apply post_roots_perm|done| |].
  - intros r. by rewrite drop_roots_index.
  - by rewrite drop_roots_boost.
Qed.

(** C21: [prune] keeps exactly the subtree of the finalized block, which becomes
    the root, and records the root of its parent; the finalized block being the
    first of its epoch or all its children being in the epoch. *)
Theorem prune_keeps_finalized_subtree s t x n pp pn start :
  wf s t → s_ctx s = None → x ∈ subtrees t → s_heap s !! rootp x = Some n →
  n_root n = cp_root (s_finalizedCheckpoint s) →
  n_parent n = Some pp → s_heap s !! pp = Some pn →
  EpochStart (cp_epoch (s_finalizedCheckpoint s)) = Ok start →
  compatible (s_heap s) x start →
  ∃ s', prune s = (Ok tt, s') ∧ wf s' x ∧ s_finalizedDependentRoot s' = n_root pn.
Proof. apply prune_spec. Qed.

(** [AncestorRoot] returns the closest ancestor (or the block itself) at or
    before the slot: every other such ancestor is an ancestor of it; it fails
    exactly when there is none, and always terminates. *)
Theorem AncestorRoot_closest s t p r slot :
  wf s t → s_ctx s = None → s_nodeByRoot s !! r = Some p →
  match AncestorRoot r slot s with
  | (Ok r', s') => s' = s ∧ ∃ q, ancestor t q p ∧ s_nodeByRoot s !! r' = Some q ∧
      slot_of (s_heap s) q ≤ slot ∧
      ∀ q', ancestor t q' p → slot_of (s_heap s) q' ≤ slot → ancestor t q' q
  | (Err e, s') => s' = s ∧ e = ErrNilNode ∧
      ∀ q', ancestor t q' p → slot < slot_of (s_heap s) q'
  | _ => False
  end.
Proof. apply AncestorRoot_spec. Qed.

(** [CommonAncestor] of two known blocks always succeeds, with the lowest
    common ancestor: the ancestors of its result are exactly the common ancestors
    of the two blocks. *)
Theorem CommonAncestor_lowest s t r1 r2 p1 p2 :
  wf s t → s_ctx s = None → slots_increase s →
  s_nodeByRoot s !! r1 = Some p1 → s_nodeByRoot s !! r2 = Some p2 →
  ∃ q n, CommonAncestor r1 r2 s = (Ok (n_root n, n_slot n), s) ∧ s_heap s !! q = Some n ∧
    ∀ x, ancestor t x q ↔ ancestor t x p1 ∧ ancestor t x p2.
Proof. apply CommonAncestor_spec. Qed.

(** [SetOptimisticToValid] marks the block and all its ancestors valid and no
    other block, and keeps the invariant that a valid block has valid ancestors. *)
Theorem SetOptimisticToValid_ancestors s t r p :
  wf s t → s_ctx s = None → valid_upwards (s_heap s) → s_nodeByRoot s !! r = Some p →
  ∃ h', SetOptimisticToValid r s = (Ok tt, upd_heap s h') ∧
    wf (upd_heap s h') t ∧ valid_upwards h' ∧
    ∀ q, q ∈ ptrs t →
      (ancestor t q p → optimistic_at h' q = false) ∧
      (¬ ancestor t q p → h' !! q = s_heap s !! q).
Proof. apply SetOptimisticToValid_spec. Qed.

End store_theorems.

(** ** A store built by the code

    Block 1 at slot 0 is the root; 2 and 3 are its children, 4 and 6 the children
    of 2, and 5 the child of 3. *)
#[local] Existing Instance mainnet_config.
Definition ex_clk : nat → Z := λ _, 49 * Second.
Definition ex_block (root slot parent : Z) : ROBlock := mkBlock root slot parent version_Altair (Ok 0).
Definition ex_store : Store :=
  foldl (λ s b, (insert ex_clk b 0 0 s).2) emptyStore
    [ex_block 1 0 9; ex_block 2 1 1; ex_block 3 2 1; ex_block 4 3 2; ex_block 5 4 3; ex_block 6 4 2].
Definition ex_tree : tree := Br 1 [Br 2 [Br 4 []; Br 6 []]; Br 3 [Br 5 []]].
Definition ex_f : ForkChoice :=
  let f := mkForkChoice ex_store [] [] [32; 32; 32; 16] 4 (λ _, Ok [32; 32; 32; 16]) in
  (ProcessAttestation [1; 3] 3 1 (ProcessAttestation [0] 4 1 (ProcessAttestation [2] 6 1 f).2).2).2.

Lemma ex_wf : wf ex_store ex_tree.
Proof. apply wf_b_sound. vm_compute. reflexivity. Qed.

Lemma ex_ctx : s_ctx ex_store = None.
Proof. vm_compute. reflexivity. Qed.

Lemma ex_f_wf : wf (f_store ex_f) ex_tree.
Proof. apply wf_b_sound. vm_compute. reflexivity. Qed.

Lemma ex_bounded : balances_bounded ex_f.
Proof.
  split_and!; [apply nonneg_b_sound; reflexivity|apply nonneg_b_sound; reflexivity|vm_compute; done|].
  vm_compute. reflexivity.
Qed.

Lemma ex_ready : head_ready ex_f ex_tree.
Proof.
  split; [apply ex_f_wf|reflexivity|vm_compute; reflexivity
         |apply vote_inv_b_sound; vm_compute; reflexivity|apply ex_bounded| |].
  - vm_compute. reflexivity.
  - split; [vm_compute; discriminate|vm_compute; reflexivity].
Qed.

(** The same votes with other balances: block 2 has 2000 in its subtree, block 3 has 1990 and
    the boost of its child 5, the first block of the current slot.  The boost decides. *)
Definition ex_boosted : ForkChoice :=
  let f := mkForkChoice ex_store [] [] [] 0 (λ _, Ok [1000; 1990; 1000; 0]) in
  let f := (updateJustifiedBalances 1 f).2 in
  (ProcessAttestation [1; 3] 3 1 (ProcessAttestation [0] 4 1 (ProcessAttestation [2] 6 1 f).2).2).2.
Lemma ex_boosted_ready : head_ready ex_boosted ex_tree.
Proof.
  split; [apply wf_b_sound; vm_compute; reflexivity|reflexivity|vm_compute; reflexivity
         |apply vote_inv_b_sound; vm_compute; reflexivity| | |].
  - split_and!; [apply nonneg_b_sound; reflexivity|apply nonneg_b_sound; reflexivity|vm_compute; done|vm_compute; reflexivity].
  - vm_compute. reflexivity.
  - split; [vm_compute; discriminate|vm_compute; reflexivity].
Qed.

Lemma Head_is_lmd_ghost_witness :
  ghost_weight ex_boosted [2; 4; 6] = 2000 ∧ ghost_weight ex_boosted [3; 5] = 2039 ∧ (Head ex_clk ex_boosted).1 = Ok 5 ∧
  ∃ f' q, Head ex_clk ex_boosted = (Ok 5, f') ∧ ghost 0 0 (s_heap (f_store f')) ex_tree q ∧
    root_of (s_heap (f_store f')) q = 5 ∧
    weight_of (s_heap (f_store f')) 3 = ghost_weight ex_boosted (roots_of (s_heap (f_store f')) (Br 3 [Br 5 []])).
Proof.
  split; [vm_compute; reflexivity|]. split; [vm_compute; reflexivity|]. split; [vm_compute; reflexivity|].
  destruct (Head_is_lmd_ghost ex_boosted ex_tree ex_tree 0 ex_clk) as (f' & q & Hrun & _ & _ & _ & _ & Hw & Hq & _ & _).
  - apply ex_boosted_ready.
  - split; [apply subtrees_self|]. right. split_and!; vm_compute; reflexivity.
  - vm_compute. reflexivity.
  - vm_compute. reflexivity.
  - assert ((Head ex_clk ex_boosted).1 = Ok 5) as H5 by (vm_compute; reflexivity).
    assert (cp_epoch (s_justifiedCheckpoint (f_store ex_boosted)) = 0) as Hj by (vm_compute; reflexivity).
    cbv zeta in Hrun, Hq. rewrite Hj in Hrun, Hq. exists f', q. rewrite Hrun in H5. cbn [fst] in H5.
    destruct (viable 0 0 (s_heap (f_store f')) q); [|discriminate H5]. injection H5 as H5.
    rewrite Hrun, H5. split_and!; [reflexivity|exact Hq|reflexivity|]. apply (Hw (Br 3 [Br 5 []])).
    vm_compute. repeat first [apply list_elem_of_here|apply list_elem_of_further].
Defined.

Lemma updateBestDescendant_walks_witness :
  wf ex_store ex_tree ∧ s_ctx ex_store = None ∧
  ∃ h', updateBestDescendant (fuelOf ex_store) 1 0 0 0 ex_store = (Ok tt, upd_heap ex_store h') ∧
    ∃ n q, h' !! 1%positive = Some n ∧ ghost 0 0 h' ex_tree q.
Proof.
  split; [apply ex_wf|]. split; [apply ex_ctx|].
  destruct (updateBestDescendant_walks 0 0 0 ex_tree ex_store ex_wf ex_ctx)
    as (h' & Hrun & _ & _ & Hall).
  exists h'. split; [exact Hrun|].
  destruct (Hall ex_tree (subtrees_self _)) as (n & q & Hn & _ & Hq & _). exists n, q. by split.
Defined.

Lemma updateBalances_exact_witness :
  vote_inv ex_f ∧ balances_bounded ex_f ∧
  ∃ f', updateBalances ex_f = (Ok tt, f') ∧ vote_inv f' ∧ f_balances f' = [32; 32; 32; 16].
Proof.
  split; [apply ex_ready|]. split; [apply ex_bounded|].
  destruct (updateBalances_exact ex_f ex_tree ex_f_wf (hr_votes _ _ ex_ready) ex_bounded)
    as (f' & Hrun & _ & Hinv & Hb & _). exists f'. split_and!; [exact Hrun|exact Hinv|exact Hb].
Defined.

(** The state after a first [Head], where validators have votes to lose. *)
Definition ex_f1 : ForkChoice := (Head ex_clk ex_f).2.

Lemma InsertSlashedIndex_exact_witness :
  vote_inv ex_f1 ∧ votes_for ex_f1 3 = 48 ∧
  ∃ f', InsertSlashedIndex 1 ex_f1 = (Ok tt, f') ∧ vote_inv f'.
Proof.
  assert (vote_inv ex_f1) as Hinv by (apply vote_inv_b_sound; vm_compute; reflexivity).
  split; [done|]. split; [vm_compute; reflexivity|].
  destruct (InsertSlashedIndex_exact ex_f1 ex_tree 1) as (f' & Hrun & _ & Hinv' & _).
  - apply wf_b_sound. vm_compute. reflexivity.
  - exact Hinv.
  - apply nonneg_b_sound. vm_compute. reflexivity.
  - vm_compute. done.
  - intros r. eapply Z.le_lt_trans; [apply Z.add_le_mono_r, votes_for_total, nonneg_b_sound; vm_compute; reflexivity|].
    vm_compute. reflexivity.
  - lia.
  - exists f'. by split.
Defined.

Lemma insert_keeps_wf_witness :
  wf ex_store ex_tree ∧ is_ok (insert ex_clk (ex_block 7 4 6) 0 0 ex_store).1 = true ∧
  ∃ t', wf (insert ex_clk (ex_block 7 4 6) 0 0 ex_store).2 t'.
Proof.
  split; [apply ex_wf|]. split; [vm_compute; reflexivity|].
  destruct (insert_keeps_wf ex_clk (ex_block 7 4 6) 0 0 ex_store ex_tree ex_wf) as [(t' & Hwf & _) _].
  by exists t'.
Defined.

Lemma removeNode_removes_subtree_witness :
  (removeNode (Some 2%positive) ex_store).1 = Ok [4; 6; 2] ∧
  ∃ s' t', removeNode (Some 2%positive) ex_store = (Ok [4; 6; 2], s') ∧ wf s' t'.
Proof.
  split; [vm_compute; reflexivity|].
  assert (∃ n, s_heap ex_store !! 2%positive = Some n ∧ n_optimistic n = true) as (n & Hn & Ho)
    by (vm_compute; eauto).
  destruct (removeNode_removes_subtree ex_store ex_tree (Br 2 [Br 4 []; Br 6 []]) n)
    as (rs & s' & t' & Hrun & Hwf & Hrs & _); [apply ex_wf|apply ex_ctx| |discriminate|exact Hn|exact Ho|].
  - apply elem_of_subtrees_Br. right. exists (Br 2 [Br 4 []; Br 6 []]). split; [left|apply subtrees_self].
  - exists s', t'. split; [|exact Hwf].
    assert (rs = [4; 6; 2]) as <- by (rewrite Hrs; vm_compute; reflexivity). exact Hrun.
Defined.

Lemma AncestorRoot_closest_witness :
  wf ex_store ex_tree ∧ AncestorRoot 6 2 ex_store = (Ok 2, ex_store) ∧
  ∃ q, ancestor ex_tree q 6 ∧ s_nodeByRoot ex_store !! 2 = Some q ∧ slot_of (s_heap ex_store) q ≤ 2.
Proof.
  split; [apply ex_wf|].
  assert (AncestorRoot 6 2 ex_store = (Ok 2, ex_store)) as Hrun by (vm_compute; reflexivity).
  split; [assumption|].
  pose proof (AncestorRoot_closest ex_store ex_tree 6 6 2 ex_wf ex_ctx ltac:(vm_compute; reflexivity)) as H.
  rewrite Hrun in H. destruct H as (_ & q & Ha & Hi & Hs & _).
  exists q. split_and!; [exact Ha|exact Hi|exact Hs].
Defined.

Lemma CommonAncestor_lowest_witness :
  slots_increase ex_store ∧ CommonAncestor 4 6 ex_store = (Ok (2, 1), ex_store) ∧
  ∃ q, ∀ x, ancestor ex_tree x q ↔ ancestor ex_tree x 4 ∧ ancestor ex_tree x 6.
Proof.
  assert (slots_increase ex_store) as Hinc by (apply slots_b_sound; vm_compute; reflexivity).
  split; [assumption|]. split; [vm_compute; reflexivity|].
  destruct (CommonAncestor_lowest ex_store ex_tree 4 6 4 6 ex_wf ex_ctx Hinc
    ltac:(vm_compute; reflexivity) ltac:(vm_compute; reflexivity)) as (q & n & _ & _ & H).
  exists q. exact H.
Defined.

Lemma SetOptimisticToValid_ancestors_witness :
  valid_upwards (s_heap ex_store) ∧
  ∃ h', SetOptimisticToValid 6 ex_store = (Ok tt, upd_heap ex_store h') ∧ valid_upwards h'.
Proof.
  assert (valid_upwards (s_heap ex_store)) as Hv by (apply valid_b_sound; vm_compute; reflexivity).
  split; [assumption|].
  destruct (SetOptimisticToValid_ancestors ex_store ex_tree 6 6 ex_wf ex_ctx Hv
    ltac:(vm_compute; reflexivity)) as (h' & Hrun & _ & Hv' & _).
  exists h'. split; [exact Hrun|exact Hv'].
Defined.

(** A store with a finalized block at the first slot of epoch 1. *)
Definition late_clk : nat → Z := λ _, 481 * Second.
Definition fin_store : Store :=
  upd_finalizedCheckpoint (foldl (λ s b, (insert late_clk b 0 0 s).2) emptyStore
    [ex_block 1 0 9; ex_block 2 32 1; ex_block 3 31 1; ex_block 4 33 2]) (mkCheckpoint 1 2).

Lemma prune_keeps_finalized_subtree_witness :
  wf fin_store (Br 1 [Br 2 [Br 4 []]; Br 3 []]) ∧
  ∃ s', prune fin_store = (Ok tt, s') ∧ wf s' (Br 2 [Br 4 []]) ∧ s_finalizedDependentRoot s' = 1.
Proof.
  assert (wf fin_store (Br 1 [Br 2 [Br 4 []]; Br 3 []])) as Hwf
    by (apply wf_b_sound; vm_compute; reflexivity).
  split; [exact Hwf|].
  assert (∃ n pn, s_heap fin_store !! 2%positive = Some n ∧ n_root n = 2 ∧ n_slot n = 32 ∧
    n_parent n = Some 1%positive ∧ s_heap fin_store !! 1%positive = Some pn ∧ n_root pn = 1)
    as (n & pn & Hn & Hr & Hs & Hp & Hpn & Hpr)
    by (eexists _, _; split_and!; [vm_compute; reflexivity..]).
  destruct (prune_keeps_finalized_subtree fin_store (Br 1 [Br 2 [Br 4 []]; Br 3 []]) (Br 2 [Br 4 []])
    n 1 pn 32) as (s' & Hrun & Hwf' & Hdep).
  - exact Hwf.
  - vm_compute. reflexivity.
  - apply elem_of_subtrees_Br. right. exists (Br 2 [Br 4 []]). split; [left|apply subtrees_self].
  - exact Hn.
  - rewrite Hr. vm_compute. reflexivity.
  - exact Hp.
  - exact Hpn.
  - vm_compute. reflexivity.
  - left. exists n. split; [exact Hn|exact Hs].
  - exists s'. split; [exact Hrun|]. split; [exact Hwf'|]. rewrite Hdep. exact Hpr.
Defined.

Lemma ProcessAttestation_latest_witness :
  Forall (λ x, 0 ≤ x) [1; 0; 1] ∧
  ∃ f', ProcessAttestation [1; 0; 1] 4 2 ex_f = (Ok tt, f') ∧
    vote_at (f_votes f') 1 = mkVote 0 4 2.
Proof.
  assert (Forall (λ x, 0 ≤ x) [1; 0; 1]) as Hpos by (repeat constructor; lia).
  split; [exact Hpos|].
  destruct (ProcessAttestation_latest ex_f [1; 0; 1] 4 2 Hpos) as (f' & Hrun & _ & Hv & _).
  exists f'. split; [exact Hrun|]. rewrite Hv. vm_compute. reflexivity.
Defined.

(** An epoch boundary: the unrealized checkpoints are ahead of the realized ones. *)
Definition tick_f : ForkChoice :=
  let s := foldl (λ s '(r, e), (setUnrealizedJustifiedEpoch r e s).2) ex_store [(4, 2); (6, 1); (5, 2)] in
  mkForkChoice (upd_unrealizedJustifiedCheckpoint s (mkCheckpoint 2 3)) [] [] [] 0 (λ _, Ok [32; 32]).
Definition tick_order : list ptr := [1; 2; 3; 4; 5; 6]%positive.

Lemma tick_f_ready : tick_ready tick_f [32; 32] tick_order.
Proof.
  split; [by apply (bool_decide_unpack _); vm_compute|..|vm_compute; reflexivity|done].
  intros p Hp. assert (node_ok (s_heap (f_store tick_f)) p (λ n,
    (n_unrealizedJustifiedEpoch n <=? cp_epoch (s_unrealizedJustifiedCheckpoint (f_store tick_f))) &&
    (n_unrealizedFinalizedEpoch n <=? cp_epoch (s_unrealizedFinalizedCheckpoint (f_store tick_f)))) = true)
    as (n & Hn & [Hj%Z.leb_le Hf%Z.leb_le]%andb_true_iff)%node_ok_true.
  { unfold tick_order in Hp.
    repeat (apply elem_of_cons in Hp as [->|Hp]; [vm_compute; reflexivity|]).
    by apply elem_of_nil in Hp. }
  exists n. by split_and!.
Qed.

Lemma updateUnrealizedCheckpoints_any_order_witness :
  tick_ready tick_f [32; 32] tick_order ∧
  updateUnrealizedCheckpoints (reverse tick_order) tick_f =
  updateUnrealizedCheckpoints tick_order tick_f.
Proof.
  split; [apply tick_f_ready|].
  apply (updateUnrealizedCheckpoints_any_order tick_f [32; 32] tick_order (reverse tick_order)).
  - apply tick_f_ready.
  - symmetry. apply reverse_Permutation.
Defined.

(** ** Where the code falls short *)

(** The finalized block 2 (slot 30) is before the first slot (32) of the finalized
    epoch 1; its child 3 (slot 31) competes with the checkpoint, its child 4 does
    not. *)
Definition bad_f : ForkChoice :=
  let s := foldl (λ s b, (insert late_clk b 0 0 s).2) emptyStore
    [ex_block 1 0 9; ex_block 2 30 1; ex_block 3 31 2; ex_block 4 33 2] in
  let f := mkForkChoice s [] [] [32; 32; 32] 3 (λ _, Ok [32; 32; 32]) in
  let f := (ProcessAttestation [0; 1] 3 0 (ProcessAttestation [2] 4 1 f).2).2 in
  (Head late_clk f).2.

(** [prune] takes a child of the finalized block that is incompatible with the
    finalized checkpoint out of the index but leaves it among the children of the
    new root, with its weight.  The next [Head] can return it: the head is then a
    block the store does not have. *)
Theorem prune_leaves_incompatible_child :
  let out := updateCheckpoints (mkCheckpoint 0 2) (mkCheckpoint 1 2) bad_f in
  out.1 = Ok tt ∧ (HasNode 3 (f_store out.2)).1 = Ok false ∧
  option_map n_children (s_heap (f_store out.2) !! 2%positive) = Some [3; 4]%positive ∧
  (Head late_clk out.2).1 = Ok 3.
Proof. split_and!; vm_compute; reflexivity. Qed.

(** [HighestReceivedBlockDelay] divides by SECONDS_PER_SLOT instead of the
    scheduled duration of the slot: with 3-second slots a block that arrives three
    slots late is reported as not late at all. *)
Theorem HighestReceivedBlockDelay_ignores_schedule :
  let at_ := (slot_offset (cfg := lightchain_config) 150 + 11 * Second) in
  let s := (insert (cfg := lightchain_config) (λ _, at_) (ex_block 1 150 9) 0 0 emptyStore).2 in
  At (cfg := lightchain_config) 0 at_ = Ok 153 ∧
  (HighestReceivedBlockDelay (cfg := lightchain_config) s).1 = Ok 0.
Proof. split; vm_compute; reflexivity. Qed.
