(* ===== verification/Protection.v ===== *)
(** * The validator client and what it asks of its slashing-protection database

    validator/client signs, asks the database whether the message may be published, and
    publishes it only when the database says so.  This file holds the messages, EIP-3076's
    notion of two messages that get their signer slashed, the part of
    validator/db/iface that the client relies on as a type class, the two handlers of the
    client ([SubmitAttestation], [ProposeBlock]) over that class, and the proof that a
    client over any database with the class's laws never publishes two messages that are
    slashable together.  FilesystemProtection.v and KvProtection.v are the two databases.

    The handlers ask the beacon node, the signer and the duties for data: those answers are
    arguments.  Handlers of one role and key hold a lock on them, so they run one after the
    other; FilesystemProtection.v looks at what the locks leave to interleave. *)
From S2P Require Import Prelude Shuffle MerkleTrie.

Abbreviation PubKey := (list Z).

(** ** Messages *)

(** [ethpb.AttestationData] as far as slashing protection reads it: the epochs of the
    two checkpoint pointers *)
Record AttestationData := mkData { Source : option Z; Target : option Z }.
(** [ethpb.IndexedAtt]: [None] for a nil attestation or one whose [Data] is nil ([IsNil]) *)
Definition IndexedAtt : Type := option AttestationData.

(** [att.GetData().Source.Epoch]: a nil pointer on the way panics *)
Definition sourceEpoch (att : IndexedAtt) : gores Z :=
  match att with Some (mkData (Some e) _) => Ok e | _ => Panic end.
Definition targetEpoch (att : IndexedAtt) : gores Z :=
  match att with Some (mkData _ (Some e)) => Ok e | _ => Panic end.

Definition IsSurround (a b : IndexedAtt) : gores bool :=
  sa ← sourceEpoch a; sb ← sourceEpoch b;
  if sa <? sb then tb ← targetEpoch b; ta ← targetEpoch a; Ok (tb <? ta) else Ok false.

Definition SigningRootsDiffer (existingSigningRoot incomingSigningRoot : list Z) : bool :=
  if (length existingSigningRoot =? 0)%nat then true
  else negb (bool_decide (existingSigningRoot = incomingSigningRoot)).

(** ** Byte strings as keys: big-endian numbers and their order *)
Definition Uint64ToBytesBigEndian (i : Z) : list Z := reverse (le_bytes 8 i).
Definition be_int (b : list Z) : Z := foldl (λ acc x, 256 * acc + x) 0 b.
Definition BytesToUint64BigEndian (b : list Z) : Z :=
  if (length b <? 8)%nat then 0 else be_int (take 8 b).
Arguments Uint64ToBytesBigEndian : simpl never.
Arguments BytesToUint64BigEndian : simpl never.

(** [bytes.Compare a b <= 0], the order of file names and of the keys of a bucket *)
Fixpoint bytes_leb (a b : list Z) : bool :=
  match a, b with
  | [], _ => true
  | _ :: _, [] => false
  | x :: a', y :: b' => (x <? y) || ((x =? y) && bytes_leb a' b')
  end.
Definition bytes_le (a b : list Z) : Prop := bytes_leb a b = true.
#[export] Instance bytes_le_dec a b : Decision (bytes_le a b).
Proof. unfold bytes_le. apply _. Defined.

Lemma bytes_le_total a b : bytes_le a b ∨ bytes_le b a.
Proof.
  unfold bytes_le. revert b. induction a as [|x a IH]; intros [|y b]; cbn; auto.
  destruct (Z.ltb_spec x y), (Z.ltb_spec y x), (Z.eqb_spec x y), (Z.eqb_spec y x); cbn; auto; lia.
Qed.
Lemma bytes_le_trans a b c : bytes_le a b → bytes_le b c → bytes_le a c.
Proof.
  unfold bytes_le. revert b c. induction a as [|x a IH]; intros [|y b] [|z c]; cbn; try done.
  rewrite !orb_true_iff, !andb_true_iff, !Z.ltb_lt, !Z.eqb_eq. intros Hab Hbc.
  destruct Hab as [?|[-> Hab]], Hbc as [?|[-> Hbc]]; [left; lia|left; lia|left; lia|right; eauto].
Qed.
Lemma bytes_le_antisym a b : bytes_le a b → bytes_le b a → a = b.
Proof.
  unfold bytes_le. revert b. induction a as [|x a IH]; intros [|y b]; cbn; try done.
  rewrite !orb_true_iff, !andb_true_iff, !Z.ltb_lt, !Z.eqb_eq. intros Hab Hba.
  destruct Hab as [?|[-> Hab]], Hba as [?|[Heq Hba]]; [lia|lia|lia|f_equal; eauto].
Qed.
#[export] Instance bytes_le_total' : Total bytes_le.
Proof. intros a b. apply bytes_le_total. Qed.
#[export] Instance bytes_le_trans' : Transitive bytes_le.
Proof. intros a b c. apply bytes_le_trans. Qed.

Lemma be_int_app a b : be_int (a ++ b) = be_int a * 256 ^ Z.of_nat (length b) + be_int b.
Proof.
  unfold be_int. revert a. induction b as [|x b IH] using rev_ind; intros a.
  - rewrite app_nil_r. cbn. lia.
  - rewrite app_assoc, (foldl_app _ _ [x]), (foldl_app _ b [x]), IH, length_app. cbn [foldl length].
    replace (Z.of_nat (length b + 1)) with (Z.of_nat (length b) + 1) by lia.
    rewrite Z.pow_add_r by lia. nia.
Qed.

Definition is_byte (x : Z) : Prop := 0 ≤ x < 256.

Lemma be_int_range b : Forall is_byte b → 0 ≤ be_int b < 256 ^ Z.of_nat (length b).
Proof.
  induction b as [|x b IH] using rev_ind; [done|]. intros Hb.
  apply Forall_app in Hb as [Hb [Hx _]%Forall_cons]. specialize (IH Hb).
  rewrite be_int_app, length_app. cbn [length]. change (be_int [x]) with x.
  replace (Z.of_nat (length b + 1)) with (Z.of_nat (length b) + 1) by lia.
  rewrite Z.pow_add_r by lia. unfold is_byte in Hx. change (256 ^ Z.of_nat 1) with 256. change (256 ^ 1) with 256. nia.
Qed.

Lemma be_int_reverse_le k x : 0 ≤ x < 256 ^ Z.of_nat k → be_int (reverse (le_bytes k x)) = x.
Proof.
  revert x. induction k as [|k IH]; intros x Hx; [cbn in *; change (256 ^ Z.of_nat 0) with 1 in Hx; unfold be_int; cbn; lia|].
  cbn [le_bytes]. rewrite reverse_cons, be_int_app. cbn [length].
  rewrite Nat2Z.inj_succ, Z.pow_succ_r in Hx by lia. rewrite IH.
  - change (be_int [u8 x]) with (u8 x). rewrite Z.shiftr_div_pow2 by lia. unfold u8. change (2 ^ 8) with 256.
    change (Z.of_nat 1) with 1. pose proof (Z.div_mod x 256). lia.
  - rewrite Z.shiftr_div_pow2 by lia. change (2 ^ 8) with 256. split; [apply Z.div_pos; lia|apply Z.div_lt_upper_bound; lia].
Qed.

Lemma le_bytes_bytes k x : Forall is_byte (le_bytes k x) ∧ length (le_bytes k x) = k.
Proof.
  revert x. induction k as [|k IH]; intros x; cbn [le_bytes]; [done|].
  destruct (IH (Z.shiftr x 8)) as [Hb Hl]. split; [constructor; [|done]|cbn; by rewrite Hl].
  unfold is_byte, u8. pose proof (Z.mod_pos_bound x 256). lia.
Qed.
Lemma be_bytes_ok x : Forall is_byte (Uint64ToBytesBigEndian x) ∧ length (Uint64ToBytesBigEndian x) = 8%nat.
Proof.
  unfold Uint64ToBytesBigEndian. destruct (le_bytes_bytes 8 x) as [Hb Hl].
  split; [by apply Forall_reverse|by rewrite length_reverse].
Qed.

Lemma BytesToUint64BigEndian_app x rest :
  is_u64 x → BytesToUint64BigEndian (Uint64ToBytesBigEndian x ++ rest) = x.
Proof.
  intros Hx. unfold BytesToUint64BigEndian. destruct (be_bytes_ok x) as [_ Hl]. rewrite length_app, Hl.
  rewrite (proj2 (Nat.ltb_ge (8 + length rest) 8)) by lia.
  rewrite take_app_le, take_ge by lia. apply be_int_reverse_le. exact Hx.
Qed.
Lemma BytesToUint64BigEndian_inv x : is_u64 x → BytesToUint64BigEndian (Uint64ToBytesBigEndian x) = x.
Proof. intros Hx. rewrite <-(app_nil_r (Uint64ToBytesBigEndian x)). by apply BytesToUint64BigEndian_app. Qed.
Lemma Uint64ToBytesBigEndian_inj x y :
  is_u64 x → is_u64 y → Uint64ToBytesBigEndian x = Uint64ToBytesBigEndian y → x = y.
Proof. intros Hx Hy E. rewrite <-(BytesToUint64BigEndian_inv x), E by done. by apply BytesToUint64BigEndian_inv. Qed.

(** Keys in byte order are numbers in order. *)
Lemma bytes_le_be a b : length a = length b → Forall is_byte a → Forall is_byte b →
  bytes_le a b → be_int a ≤ be_int b.
Proof.
  unfold bytes_le. revert b. induction a as [|x a IH]; intros [|y b]; cbn [bytes_leb length]; try done.
  intros [= Hl] Ha Hb. apply Forall_cons in Ha as [Hx Ha]. apply Forall_cons in Hb as [Hy Hb].
  rewrite orb_true_iff, andb_true_iff, Z.ltb_lt, Z.eqb_eq.
  pose proof (be_int_app [x] a) as E1. pose proof (be_int_app [y] b) as E2. cbn [app] in E1, E2.
  change (be_int [x]) with x in E1. change (be_int [y]) with y in E2. rewrite E1, E2, Hl.
  pose proof (be_int_range a Ha) as Ra. pose proof (be_int_range b Hb) as Rb. rewrite Hl in Ra.
  intros [Hlt|[-> Hle]]; [nia|]. specialize (IH b Hl Ha Hb Hle). lia.
Qed.
Lemma bytes_le_u64 x y : is_u64 x → is_u64 y →
  bytes_le (Uint64ToBytesBigEndian x) (Uint64ToBytesBigEndian y) → x ≤ y.
Proof.
  intros Hx Hy Hle. destruct (be_bytes_ok x) as [Bx Lx], (be_bytes_ok y) as [By' Ly].
  pose proof (bytes_le_be _ _ (eq_trans Lx (eq_sym Ly)) Bx By' Hle) as H.
  unfold Uint64ToBytesBigEndian in H. by rewrite !be_int_reverse_le in H.
Qed.

(** ** Published messages and EIP-3076 *)
Record vote := mkVote { v_source : Z; v_target : Z; v_root : Root }.
Inductive event :=
  | Attested (pk : PubKey) (v : vote)
  | Proposed (pk : PubKey) (slot : Z) (root : Root).

#[export] Instance vote_eq_dec : EqDecision vote.
Proof. solve_decision. Defined.
#[export] Instance event_eq_dec : EqDecision event.
Proof. solve_decision. Defined.

Definition surrounds (v w : vote) : bool := (v_source v <? v_source w) && (v_target w <? v_target v).
Definition double_vote (v w : vote) : bool := (v_target v =? v_target w) && negb (bool_decide (v_root v = v_root w)).
Definition conflict (v w : vote) : bool := double_vote v w || surrounds v w || surrounds w v.

(** Two messages for which the protocol slashes the key that signed both. *)
Definition slashable (e f : event) : bool :=
  match e, f with
  | Attested pk v, Attested pk' w => bool_decide (pk = pk') && conflict v w
  | Proposed pk slot root, Proposed pk' slot' root' =>
      bool_decide (pk = pk') && (slot =? slot') && negb (bool_decide (root = root'))
  | _, _ => false
  end.

Lemma vote_double_sym v w : double_vote v w = double_vote w v.
Proof.
  unfold double_vote. rewrite (Z.eqb_sym (v_target v)). f_equal. f_equal.
  apply bool_decide_ext. naive_solver.
Qed.
Lemma conflict_sym v w : conflict v w = conflict w v.
Proof. unfold conflict. rewrite (vote_double_sym v w). destruct (double_vote w v), (surrounds v w), (surrounds w v); done. Qed.
Lemma slashable_sym e f : slashable e f = slashable f e.
Proof.
  destruct e as [pk v|pk slot root], f as [pk' w|pk' slot' root']; cbn [slashable]; try done.
  - rewrite (conflict_sym v w). f_equal. apply bool_decide_ext. naive_solver.
  - rewrite (Z.eqb_sym slot slot'). rewrite (bool_decide_ext (pk = pk') (pk' = pk)) by naive_solver.
    rewrite (bool_decide_ext (root = root') (root' = root)) by naive_solver. done.
Qed.

Definition event_ok (e : event) : Prop :=
  match e with
  | Attested _ v => is_u64 (v_source v) ∧ is_u64 (v_target v) ∧ length (v_root v) = 32%nat
  | Proposed _ slot root => is_u64 slot ∧ length root = 32%nat
  end.

(** ** The database the client is written against *)
Class ValidatorDB (DB : Type) := {
  SlashableAttestationCheck : IndexedAtt → PubKey → Root → M DB unit;
  SlashableProposalCheck : PubKey → Z → Root → M DB unit }.

Definition attOf (v : vote) : IndexedAtt := Some (mkData (Some (v_source v)) (Some (v_target v))).

Definition checkEvent `{ValidatorDB DB} (e : event) : M DB unit :=
  match e with
  | Attested pk v => SlashableAttestationCheck (attOf v) pk (v_root v)
  | Proposed pk slot root => SlashableProposalCheck pk slot root
  end.

(** What a database promises: [protects db h] says that [db] knows enough of the messages
    [h] published so far; [in_scope db e] is the requests the promise is made for.  A
    request it accepts does not conflict with any of them, and a request it refuses
    (or one whose attestation has no source or target) makes it forget nothing. *)
Class SlashingProtection (DB : Type) `{ValidatorDB DB} := {
  protects : DB → list event → Prop;
  in_scope : DB → event → Prop;
  protects_accept db h e db' : protects db h → event_ok e → in_scope db e →
    checkEvent e db = (Ok tt, db') →
    Forall (λ f, slashable e f = false) h ∧ protects db' (e :: h);
  protects_reject db h e r db' : protects db h → event_ok e →
    checkEvent e db = (r, db') → r ≠ Ok tt → protects db' h;
  protects_partial db h att pk root r db' : protects db h →
    is_ok (sourceEpoch att) && is_ok (targetEpoch att) = false →
    SlashableAttestationCheck att pk root db = (r, db') → r ≠ Ok tt ∧ protects db' h;
  protects_weaken db h e : protects db (e :: h) → protects db h }.

(** ** The client's handlers *)

(** [x, err := m; if err != nil { log; return }] *)
Definition orReturn {S A B} (m : M S A) (k : A → M S (option B)) : M S (option B) := λ s,
  match m s with
  | (Ok a, s') => k a s'
  | (Err _, s') => (Ok None, s')
  | (Panic, s') => (Panic, s')
  | (OutOfFuel, s') => (OutOfFuel, s')
  end.

(** The answers [SubmitAttestation] gets: the length of the committee in the key's duty,
    the data to attest to, the signature and the signing root. *)
Record AttesterAnswers := {
  a_duty : gores Z; a_data : gores AttestationData; a_sig : gores (list Z); a_root : gores Root }.

Definition dataEvent (pk : PubKey) (data : AttestationData) (root : Root) : option event :=
  match Source data, Target data with
  | Some s, Some t => Some (Attested pk (mkVote s t root))
  | _, _ => None
  end.

Section client.
Context {DB : Type} `{ValidatorDB DB}.

(** The message handed to the beacon node, if any. *)
Definition SubmitAttestation (pubKey : PubKey) (a : AttesterAnswers) : M DB (option event) :=
  orReturn (mlift (a_duty a)) (λ committeeLength,
  if committeeLength =? 0 then mret None
  else orReturn (mlift (a_data a)) (λ data,
  orReturn (mlift (a_sig a)) (λ _,
  orReturn (mlift (a_root a)) (λ signingRoot,
  orReturn (SlashableAttestationCheck (Some data) pubKey signingRoot) (λ _,
  mret (dataEvent pubKey data signingRoot)))))).

(** The answers [ProposeBlock] gets: the randao reveal, the slot of the block the beacon
    node builds, the signature with its signing root, the assembled block and the message
    for the beacon node. *)
Record ProposerAnswers := {
  p_randao : gores (list Z); p_block : gores Z; p_sign : gores (list Z * Root);
  p_build : gores unit; p_generic : gores unit }.

Definition ProposeBlock (slot : Z) (pubKey : PubKey) (a : ProposerAnswers) : M DB (option event) :=
  if slot =? 0 then mret None
  else
  orReturn (mlift (p_randao a)) (λ _,
  orReturn (mlift (p_block a)) (λ blkSlot,
  orReturn (mlift (p_sign a)) (λ sr,
  orReturn (mlift (p_build a)) (λ _,
  orReturn (SlashableProposalCheck pubKey blkSlot sr.2) (λ _,
  orReturn (mlift (p_generic a)) (λ _,
  mret (Some (Proposed pubKey blkSlot sr.2)))))))).

(** One role of one key, as [performRoles] starts them. *)
Inductive duty :=
  | RoleAttester (pk : PubKey) (a : AttesterAnswers)
  | RoleProposer (slot : Z) (pk : PubKey) (a : ProposerAnswers).

Definition perform (d : duty) : M DB (option event) :=
  match d with
  | RoleAttester pk a => SubmitAttestation pk a
  | RoleProposer slot pk a => ProposeBlock slot pk a
  end.

(** Duties one after the other, with the messages published before, newest first.  After
    a panic the process is gone and the next duty starts over what the database holds. *)
Fixpoint serve (ds : list duty) (db : DB) (h : list event) : list event * DB :=
  match ds with
  | [] => (h, db)
  | d :: ds' =>
      match perform d db with
      | (Ok (Some e), db') => serve ds' db' (e :: h)
      | (_, db') => serve ds' db' h
      end
  end.

(** What a duty would publish if every answer is good and the database accepts. *)
Definition wants (d : duty) : option event :=
  match d with
  | RoleAttester pk a =>
      match a_data a, a_root a with Ok data, Ok root => dataEvent pk data root | _, _ => None end
  | RoleProposer _ pk a =>
      match p_block a, p_sign a with Ok s, Ok sr => Some (Proposed pk s sr.2) | _, _ => None end
  end.

Context `{!SlashingProtection DB}.

(** The messages carry 64-bit numbers and 32-byte roots, and the database's promise covers
    them when they come up. *)
Definition duty_ok (d : duty) : Prop := ∀ e, wants d = Some e → event_ok e.
Fixpoint scoped (ds : list duty) (db : DB) : Prop :=
  match ds with
  | [] => True
  | d :: ds' => (∀ e, wants d = Some e → in_scope db e) ∧ scoped ds' (perform d db).2
  end.

Definition never_slashable (h : list event) : Prop := ∀ e f, e ∈ h → f ∈ h → slashable e f = false.

Lemma slashable_irrefl e : slashable e e = false.
Proof.
  destruct e as [pk v|pk slot root]; cbn [slashable].
  - unfold conflict, double_vote, surrounds. rewrite (bool_decide_eq_true_2 (v_root v = v_root v)) by done.
    rewrite andb_false_r, Z.ltb_irrefl. by rewrite andb_false_r.
  - rewrite (bool_decide_eq_true_2 (root = root)) by done. by rewrite andb_false_r.
Qed.

Lemma never_slashable_cons e h : never_slashable h → Forall (λ f, slashable e f = false) h → never_slashable (e :: h).
Proof.
  intros Hn He f g Hf Hg. rewrite Forall_forall in He. rewrite elem_of_cons in Hf, Hg.
  destruct Hf as [->|Hf], Hg as [->|Hg]; [apply slashable_irrefl|by apply He|rewrite slashable_sym; by apply He|by apply Hn].
Qed.

(** One duty: what it publishes is safe with what was published, and the database keeps up. *)
Definition step_ok (h : list event) (out : gores (option event) * DB) : Prop :=
  match out with
  | (Ok (Some e), db') => Forall (λ f, slashable e f = false) h ∧ protects db' (e :: h)
  | (_, db') => protects db' h
  end.

Lemma orReturn_lift {A} (r : gores A) (k : A → M DB (option event)) db h :
  protects db h → (∀ a, r = Ok a → step_ok h (k a db)) → step_ok h (orReturn (mlift r) k db).
Proof. intros Hp Hk. destruct r; cbn; auto. Qed.

Lemma orReturn_check e (k : unit → M DB (option event)) db h :
  protects db h → event_ok e → in_scope db e →
  (∀ db', Forall (λ f, slashable e f = false) h → protects db' (e :: h) → step_ok h (k tt db')) →
  step_ok h (orReturn (checkEvent e) k db).
Proof.
  intros Hp Hok Hs Hk. unfold orReturn. destruct (checkEvent e db) as [r db'] eqn:E.
  destruct r as [[]| | |]; try (eapply protects_reject; by eauto).
  destruct (protects_accept _ _ _ _ Hp Hok Hs E). auto.
Qed.

Lemma orReturn_partial att pk root (k : unit → M DB (option event)) db h :
  protects db h → is_ok (sourceEpoch att) && is_ok (targetEpoch att) = false →
  step_ok h (orReturn (SlashableAttestationCheck att pk root) k db).
Proof.
  intros Hp Ha. unfold orReturn. destruct (SlashableAttestationCheck att pk root db) as [r db'] eqn:E.
  destruct (protects_partial _ _ _ _ _ _ _ Hp Ha E) as [Hr Hp']. by destruct r as [[]| | |].
Qed.

Lemma SubmitAttestation_ok pk a db h :
  protects db h → duty_ok (RoleAttester pk a) →
  (∀ e, wants (RoleAttester pk a) = Some e → in_scope db e) →
  step_ok h (SubmitAttestation pk a db).
Proof.
  intros Hp Hok Hs. unfold SubmitAttestation, duty_ok in *. cbn [wants] in *.
  apply orReturn_lift; [done|]. intros len _. destruct (len =? 0); [done|].
  apply orReturn_lift; [done|]. intros data Ed. apply orReturn_lift; [done|]. intros _ _.
  apply orReturn_lift; [done|]. intros root Er. rewrite Ed, Er in Hok, Hs.
  destruct data as [[s|] [t|]]; try (by apply orReturn_partial).
  change (Some (mkData (Some s) (Some t))) with (attOf (mkVote s t root)).
  eapply (orReturn_check (Attested pk (mkVote s t root))); eauto. done.
Qed.

Lemma ProposeBlock_ok slot pk a db h :
  protects db h → duty_ok (RoleProposer slot pk a) →
  (∀ e, wants (RoleProposer slot pk a) = Some e → in_scope db e) →
  step_ok h (ProposeBlock slot pk a db).
Proof.
  intros Hp Hok Hs. unfold ProposeBlock, duty_ok in *. cbn [wants] in *.
  destruct (slot =? 0); [done|]. apply orReturn_lift; [done|]. intros _ _.
  apply orReturn_lift; [done|]. intros s Es. apply orReturn_lift; [done|]. intros [sig root] Er.
  rewrite Es, Er in Hok, Hs. apply orReturn_lift; [done|]. intros _ _.
  eapply (orReturn_check (Proposed pk s root)); [done|eauto..|]. intros db' Hsafe Hp'.
  unfold orReturn. cbn. destruct (p_generic a); cbn; [done|eapply protects_weaken; by eauto..].
Qed.

Lemma perform_ok d db h :
  protects db h → duty_ok d → (∀ e, wants d = Some e → in_scope db e) → step_ok h (perform d db).
Proof. destruct d; [apply SubmitAttestation_ok|apply ProposeBlock_ok]. Qed.

Lemma serve_safe ds db h h' db' :
  Forall duty_ok ds → scoped ds db → protects db h → never_slashable h →
  serve ds db h = (h', db') → never_slashable h' ∧ protects db' h'.
Proof.
  revert db h. induction ds as [|d ds IH]; intros db h Hok Hs Hp Hn; cbn; [by intros [= <- <-]|].
  apply Forall_cons in Hok as [Hd Hok]. destruct Hs as [Hsd Hs].
  pose proof (perform_ok d db h Hp Hd Hsd) as Hstep.
  destruct (perform d db) as [[[e|]| | |] db1] eqn:E; cbn in Hstep, Hs; try (by apply IH).
  destruct Hstep as [Hf Hp1]. apply IH; [done..|by apply never_slashable_cons].
Qed.
End client.
