(* ===== verification/FilesystemProtection.v ===== *)
(** * validator/db/filesystem: the minimal slashing-protection database

    One YAML file per key holds the slot of the last signed block and the source and
    target of the last signed attestation (EIP-3076's minimal database).  The store is the
    map from keys to file contents; the YAML library is the class [Yaml], whose laws are
    that decoding gives back what was encoded and that decoded numbers fit their 64 bits.
    Calls of the operating system succeed. *)
From S2P Require Import Prelude Shuffle MerkleTrie Protection.

Record ValidatorSlashingProtection := mkVSP {
  LatestSignedBlockSlot : option Z;
  LastSignedAttestationSourceEpoch : Z;
  LastSignedAttestationTargetEpoch : option Z }.

Definition vsp_u64 (v : ValidatorSlashingProtection) : Prop :=
  from_option is_u64 True (LatestSignedBlockSlot v) ∧ is_u64 (LastSignedAttestationSourceEpoch v) ∧
  from_option is_u64 True (LastSignedAttestationTargetEpoch v).

Class Yaml := {
  Marshal : ValidatorSlashingProtection → gores (list Z);
  Unmarshal : list Z → gores ValidatorSlashingProtection }.
Class YamlLaws `{Yaml} := {
  Unmarshal_Marshal v : vsp_u64 v → ∃ y, Marshal v = Ok y ∧ Unmarshal y = Ok v;
  Unmarshal_u64 y v : Unmarshal y = Ok v → vsp_u64 v }.

(** The files under slashing-protection/, by the key their name encodes. *)
Abbreviation FsDB := (gmap PubKey (list Z)).

Section store.
Context `{Yaml}.

(** ** Files *)

(** [errors.Wrapf(err, "could not unmarshal ...")] and the like *)
Definition wrapf {A} (e : goerr) (r : gores A) : gores A := match r with Err _ => Err e | _ => r end.

Definition validatorSlashingProtection (publicKey : PubKey) : M FsDB (option ValidatorSlashingProtection) :=
  s ← mget;
  match s !! publicKey with
  | None => mret None
  | Some yfile => v ← mlift (wrapf errUnmarshal (Unmarshal yfile)); mret (Some v)
  end.

Definition saveValidatorSlashingProtection (publicKey : PubKey)
    (vsp : option ValidatorSlashingProtection) : M FsDB unit :=
  match vsp with
  | None => mret tt
  | Some v => yfile ← mlift (wrapf errSaveHistory (Marshal v)); mmodify (<[publicKey := yfile]>)
  end.

Definition UpdatePublicKeysBuckets (pubKeys : list PubKey) : M FsDB unit :=
  yfile ← mlift (wrapf errSaveHistory (Marshal (mkVSP None 0 None)));
  mfor pubKeys (λ pubKey, s ← mget;
    match s !! pubKey with Some _ => mret tt | None => mmodify (<[pubKey := yfile]>) end).

(** The names of the directory, in [os.ReadDir]'s order. *)
Definition publicKeys : M FsDB (list PubKey) := s ← mget; mret (merge_sort bytes_le (map_to_list s).*1).

(** ** Attestations *)
Definition LowestSignedTargetEpoch (pubKey : PubKey) : M FsDB (Z * bool) :=
  vsp ← validatorSlashingProtection pubKey;
  match vsp with
  | Some (mkVSP _ _ (Some t)) => mret (t, true)
  | _ => mret (0, false)
  end.
Definition LowestSignedSourceEpoch (pubKey : PubKey) : M FsDB (Z * bool) :=
  vsp ← validatorSlashingProtection pubKey;
  match vsp with
  | Some v => mret (LastSignedAttestationSourceEpoch v, true)
  | None => mret (0, false)
  end.

Definition AttestedPublicKeys : M FsDB (list PubKey) :=
  pubkeys ← publicKeys;
  mfold pubkeys [] (λ attested pubkey,
    vsp ← validatorSlashingProtection pubkey;
    match vsp with
    | Some (mkVSP _ _ (Some _)) => mret (attested ++ [pubkey])
    | _ => mret attested
    end).

(** [SaveAttestationForPubKey] from the moment the record has been read *)
Definition checkAndSaveAttestation (pubkey : PubKey) (source target : Z)
    (vsp : option ValidatorSlashingProtection) : M FsDB unit :=
  match vsp with
  | None => saveValidatorSlashingProtection pubkey (Some (mkVSP None source (Some target)))
  | Some v =>
      if source <? LastSignedAttestationSourceEpoch v then mfail errSignAttestation
      else if match LastSignedAttestationTargetEpoch v with Some t => target <=? t | None => false end
      then mfail errSignAttestation
      else saveValidatorSlashingProtection pubkey (Some (mkVSP (LatestSignedBlockSlot v) source (Some target)))
  end.

Definition SaveAttestationForPubKey (pubkey : PubKey) (att : IndexedAtt) : M FsDB unit :=
  match att with
  | Some (mkData (Some source) (Some target)) =>
      vsp ← validatorSlashingProtection pubkey;
      checkAndSaveAttestation pubkey source target vsp
  | _ => mfail errMessage
  end.

(** [if err := m; err != nil { if strings.Contains(err.Error(), ...) ...; return ... }] *)
Definition wrapErr {S} (rejected : goerr) (m : M S unit) : M S unit := λ s,
  match m s with
  | (Err e, s') => (Err (if bool_decide (e = rejected) then errLocalProtection else errSaveHistory), s')
  | out => out
  end.

Definition fsSlashableAttestationCheck (att : IndexedAtt) (pubKey : PubKey) (signingRoot32 : Root) : M FsDB unit :=
  wrapErr errSignAttestation (SaveAttestationForPubKey pubKey att).

Fixpoint maxSourceTargetEpoch_loop (atts : list IndexedAtt) (maxSourceEpoch maxTargetEpoch : Z) : gores (Z * Z) :=
  match atts with
  | [] => Ok (maxSourceEpoch, maxTargetEpoch)
  | Some (mkData (Some s) (Some t)) :: atts' =>
      maxSourceTargetEpoch_loop atts' (if s >? maxSourceEpoch then s else maxSourceEpoch)
        (if t >? maxTargetEpoch then t else maxTargetEpoch)
  | _ :: _ => Err errMessage
  end.
Definition maxSourceTargetEpoch (atts : list IndexedAtt) : gores (Z * Z) := maxSourceTargetEpoch_loop atts 0 0.

Definition SaveAttestationsForPubKey (pubkey : PubKey) (atts : list IndexedAtt) : M FsDB unit :=
  if (length atts =? 0)%nat then mret tt
  else
    maxIncoming ← mlift (maxSourceTargetEpoch atts);
    let '(maxSource, maxTarget) := maxIncoming in
    vsp ← validatorSlashingProtection pubkey;
    match vsp with
    | None => saveValidatorSlashingProtection pubkey (Some (mkVSP None maxSource (Some maxTarget)))
    | Some v =>
        let maxSource := if LastSignedAttestationSourceEpoch v >? maxSource
                         then LastSignedAttestationSourceEpoch v else maxSource in
        let maxTarget := match LastSignedAttestationTargetEpoch v with
                         | Some t => if t >? maxTarget then t else maxTarget
                         | None => maxTarget
                         end in
        saveValidatorSlashingProtection pubkey (Some (mkVSP (LatestSignedBlockSlot v) maxSource (Some maxTarget)))
    end.

Definition AttestationHistoryForPubKey (pubKey : PubKey) : M FsDB (list (PubKey * Z * Z)) :=
  vsp ← validatorSlashingProtection pubKey;
  match vsp with
  | Some (mkVSP _ s (Some t)) => mret [(pubKey, s, t)]
  | _ => mret []
  end.

(** ** Proposals *)
Definition ProposalHistoryForPubKey (publicKey : PubKey) : M FsDB (list Z) :=
  vsp ← validatorSlashingProtection publicKey;
  match vsp with
  | Some (mkVSP (Some slot) _ _) => mret [slot]
  | _ => mret []
  end.

Definition checkAndSaveProposal (pubKey : PubKey) (slot : Z) (vsp : option ValidatorSlashingProtection) : M FsDB unit :=
  match vsp with
  | None => saveValidatorSlashingProtection pubKey (Some (mkVSP (Some slot) 0 None))
  | Some v =>
      let updated := mkVSP (Some slot) (LastSignedAttestationSourceEpoch v) (LastSignedAttestationTargetEpoch v) in
      match LatestSignedBlockSlot v with
      | None => saveValidatorSlashingProtection pubKey (Some updated)
      | Some latest =>
          if slot <=? latest then mfail errSignProposal
          else saveValidatorSlashingProtection pubKey (Some updated)
      end
  end.

Definition SaveProposalHistoryForSlot (pubKey : PubKey) (slot : Z) : M FsDB unit :=
  vsp ← validatorSlashingProtection pubKey;
  checkAndSaveProposal pubKey slot vsp.

Definition fsSlashableProposalCheck (pubKey : PubKey) (slot : Z) (signingRoot : Root) : M FsDB unit :=
  wrapErr errSignProposal (SaveProposalHistoryForSlot pubKey slot).

#[export] Instance FsValidatorDB : ValidatorDB FsDB := {
  SlashableAttestationCheck := fsSlashableAttestationCheck;
  SlashableProposalCheck := fsSlashableProposalCheck }.

(** ** Importing an EIP-3076 interchange file *)

(** [strconv.ParseUint(str, 10, 64)], over the bytes of the string *)
Fixpoint parseUint_loop (str : list Z) (n : Z) : gores Z :=
  match str with
  | [] => Ok n
  | c :: str' =>
      if negb ((48 <=? c) && (c <=? 57)) then Err errMessage
      else if n >=? MaxUint64 / 10 + 1 then Err ErrOverflow
      else
        let n := n * 10 in
        let n1 := n +64 (c - 48) in
        if n1 <? n then Err ErrOverflow else parseUint_loop str' n1
  end.
Definition Uint64FromString (str : list Z) : gores Z :=
  if (length str =? 0)%nat then Err errMessage else parseUint_loop str 0.

(** [format.ProtectionData] with its key decoded: the slots of the blocks ([None] for a
    null entry) and the epochs of the attestations, as decimal strings *)
Record ProtectionData := {
  pd_Pubkey : PubKey;
  SignedBlocks : list (option (list Z));
  SignedAttestations : list (option (list Z * list Z)) }.

(** [if err := m; err != nil && !strings.Contains(err.Error(), ...) { return ... }] *)
Definition tolerate {S} (rejected : goerr) (m : M S unit) : M S unit := λ s,
  match m s with
  | (Err e, s') => (if bool_decide (e = rejected) then Ok tt else Err e, s')
  | out => out
  end.

Fixpoint importBlockProposals (pubkey : PubKey) (blocks : list (option (list Z))) : M FsDB unit :=
  match blocks with
  | [] => mret tt
  | None :: _ => mret tt
  | Some str :: blocks' =>
      slot ← mlift (Uint64FromString str);
      tolerate errSignProposal (SaveProposalHistoryForSlot pubkey slot);;
      importBlockProposals pubkey blocks'
  end.

Fixpoint signedAttestations (sas : list (option (list Z * list Z))) : gores (list IndexedAtt) :=
  match sas with
  | [] => Ok []
  | None :: _ => Panic
  | Some (sourceStr, targetStr) :: sas' =>
      source ← Uint64FromString sourceStr; target ← Uint64FromString targetStr;
      atts ← signedAttestations sas';
      Ok (Some (mkData (Some source) (Some target)) :: atts)
  end.

Definition importAttestations (pubkey : PubKey) (sas : list (option (list Z * list Z))) : M FsDB unit :=
  atts ← mlift (signedAttestations sas);
  tolerate errSignAttestation (SaveAttestationsForPubKey pubkey atts).

(** [ImportStandardProtectionJSON] after the file is decoded and its metadata accepted;
    [None] is a null item *)
Definition importData (data : list (option ProtectionData)) : M FsDB unit :=
  mfor data (λ item,
    match item with
    | None => mret tt
    | Some it =>
        importBlockProposals (pd_Pubkey it) (SignedBlocks it);;
        importAttestations (pd_Pubkey it) (SignedAttestations it)
    end).
End store.
