(* ===== verification/FilesystemTheorems.v ===== *)
(** * What the filesystem database guarantees, and what its locks leave open

    The validator client over the filesystem database; the import of an interchange file;
    and the handlers of one key interleaved at the points where the code takes and gives
    back the lock of the file, with the locks the client's handlers hold. *)
From S2P Require Import Prelude Shuffle MerkleTrie Protection FilesystemProtection.

(** ** The filesystem database: its records, their order, and the laws of the interface

    [record db pk] is the decoded file of a key.  Every operation that succeeds leaves
    every record at least as restrictive as it was ([grows]); a message is [covered] when
    the record of its key refuses everything that would conflict with it. *)
Definition opt_le (a b : option Z) : Prop :=
  match a, b with None, _ => True | Some x, Some y => x ≤ y | Some _, None => False end.
Definition vsp_le (a b : ValidatorSlashingProtection) : Prop :=
  opt_le (LatestSignedBlockSlot a) (LatestSignedBlockSlot b) ∧
  LastSignedAttestationSourceEpoch a ≤ LastSignedAttestationSourceEpoch b ∧
  opt_le (LastSignedAttestationTargetEpoch a) (LastSignedAttestationTargetEpoch b).

#[export] Instance opt_le_preorder : PreOrder opt_le.
Proof. split; [intros [x|]; cbn; lia|intros [x|] [y|] [z|]; cbn; try done; lia]. Qed.
#[export] Instance vsp_le_preorder : PreOrder vsp_le.
Proof.
  split; [intros a; unfold vsp_le; split_and!; try reflexivity; lia|].
  intros a b c (?&?&?) (?&?&?). unfold vsp_le. split_and!; try (by etrans); lia.
Qed.

Section facts.
Context `{YamlLaws}.

Definition record (db : FsDB) (pk : PubKey) : option ValidatorSlashingProtection :=
  y ← db !! pk; match Unmarshal y with Ok v => Some v | _ => None end.
Definition grows (db db' : FsDB) : Prop :=
  ∀ pk v, record db pk = Some v → ∃ v', record db' pk = Some v' ∧ vsp_le v v'.

#[export] Instance grows_preorder : PreOrder grows.
Proof.
  split; [intros db pk v E; by exists v|]. intros a b c Hab Hbc pk v E.
  destruct (Hab _ _ E) as (v1&E1&L1), (Hbc _ _ E1) as (v2&E2&L2). exists v2. split; [done|by etrans].
Qed.

Definition covered_by (v : ValidatorSlashingProtection) (e : event) : Prop :=
  match e with
  | Attested _ w => v_source w ≤ LastSignedAttestationSourceEpoch v ∧
                    opt_le (Some (v_target w)) (LastSignedAttestationTargetEpoch v)
  | Proposed _ slot _ => opt_le (Some slot) (LatestSignedBlockSlot v)
  end.
Definition event_key (e : event) : PubKey := match e with Attested pk _ | Proposed pk _ _ => pk end.
Definition covered (db : FsDB) (e : event) : Prop := ∃ v, record db (event_key e) = Some v ∧ covered_by v e.

Lemma covered_by_le v v' e : vsp_le v v' → covered_by v e → covered_by v' e.
Proof. intros (?&?&?). destruct e; cbn [covered_by]; [intros [? ?]; split; [lia|by etrans]|intros; by etrans]. Qed.
Lemma covered_grows db db' e : grows db db' → covered db e → covered db' e.
Proof.
  intros Hg (v&E&Hc). destruct (Hg _ _ E) as (v'&E'&Hle). exists v'. split; [done|by eapply covered_by_le].
Qed.

(** ** Reading and writing files *)
Lemma record_u64 db pk v : record db pk = Some v → vsp_u64 v.
Proof.
  unfold record. destruct (db !! pk) as [y|]; cbn; [|done].
  destruct (Unmarshal y) eqn:E; intros; simplify_eq. by eapply Unmarshal_u64.
Qed.

(** A read leaves the files alone, and finds nothing, the record, or a file it cannot decode. *)
Lemma read_cases db pk :
  (db !! pk = None ∧ record db pk = None ∧ validatorSlashingProtection pk db = (Ok None, db)) ∨
  (∃ v, record db pk = Some v ∧ validatorSlashingProtection pk db = (Ok (Some v), db)) ∨
  (∃ r, record db pk = None ∧ is_ok (A := option ValidatorSlashingProtection) r = false ∧
     (∀ e, r = Err e → e = errUnmarshal) ∧ validatorSlashingProtection pk db = (r, db)).
Proof.
  unfold validatorSlashingProtection, record, mget, mbind, mret, M_bind, M_ret, mlift. cbn.
  destruct (db !! pk) as [y|] eqn:E; cbn; [|by left].
  destruct (Unmarshal y) as [v| | |] eqn:Ey; [right; left; by exists v|right; right..].
  all: eexists; split; [done|]; split; [|split; [|done]]; naive_solver.
Qed.

Definition at_least (db : FsDB) (pk : PubKey) (v : ValidatorSlashingProtection) : Prop :=
  ∀ v0, record db pk = Some v0 → vsp_le v0 v.

(** What a write that respects the order does. *)
Definition wrote (db : FsDB) (pk : PubKey) (v : ValidatorSlashingProtection) (out : gores unit * FsDB) : Prop :=
  out.1 = Ok tt ∧ record out.2 pk = Some v ∧ (∀ pk', pk' ≠ pk → out.2 !! pk' = db !! pk').

Lemma save_wrote db pk v : vsp_u64 v → wrote db pk v (saveValidatorSlashingProtection pk (Some v) db).
Proof.
  intros Hv. destruct (Unmarshal_Marshal v Hv) as (y&Em&Eu).
  unfold wrote, saveValidatorSlashingProtection, mlift, mbind, M_bind, mmodify. rewrite Em. cbn.
  split_and!; [done| |intros pk' Hne; by rewrite lookup_insert_ne].
  unfold record. rewrite lookup_insert_eq. cbn. by rewrite Eu.
Qed.
Lemma wrote_grows db pk v out : wrote db pk v out → at_least db pk v → grows db out.2.
Proof.
  intros (_&Er&Hne) Hl pk' v0 E0. destruct (decide (pk' = pk)) as [->|Hn]; [eauto|].
  exists v0. split; [|done]. unfold record in *. by rewrite Hne.
Qed.

(** ** Attestations *)
Definition accepts_vote (r : option ValidatorSlashingProtection) (source target : Z) : bool :=
  match r with
  | None => true
  | Some v => (LastSignedAttestationSourceEpoch v <=? source) &&
      match LastSignedAttestationTargetEpoch v with Some t => t <? target | None => true end
  end.
Definition after_vote (r : option ValidatorSlashingProtection) (source target : Z) : ValidatorSlashingProtection :=
  mkVSP (r ≫= LatestSignedBlockSlot) source (Some target).

Lemma checkAndSaveAttestation_spec db pk source target r :
  is_u64 source → is_u64 target → from_option vsp_u64 True r →
  let out := checkAndSaveAttestation pk source target r db in
  if accepts_vote r source target then wrote db pk (after_vote r source target) out
  else out = (Err errSignAttestation, db).
Proof.
  intros Hs Ht Hr. unfold accepts_vote, after_vote, checkAndSaveAttestation. destruct r as [v|].
  - destruct Hr as (Hb&_&_). rewrite Z.ltb_antisym. destruct (_ <=? source); cbn [negb andb]; [|done].
    assert (vsp_u64 (mkVSP (LatestSignedBlockSlot v) source (Some target))) by done.
    destruct (LastSignedAttestationTargetEpoch v) as [t|]; [|by apply save_wrote].
    rewrite Z.leb_antisym. destruct (t <? target); cbn [negb]; [by apply save_wrote|done].
  - by apply save_wrote.
Qed.
Lemma after_vote_le v source target :
  accepts_vote (Some v) source target = true → vsp_le v (after_vote (Some v) source target).
Proof.
  cbn [accepts_vote after_vote mbind option_bind]. rewrite andb_true_iff, Z.leb_le. intros [Hs Ht].
  unfold vsp_le. cbn. split_and!; [reflexivity|done|]. destruct (LastSignedAttestationTargetEpoch v); cbn; [lia|done].
Qed.
Lemma after_vote_at_least db pk source target :
  accepts_vote (record db pk) source target = true → at_least db pk (after_vote (record db pk) source target).
Proof. intros Ha v0 E. rewrite E in *. by apply after_vote_le. Qed.

(** ** Proposals *)
Definition accepts_block (r : option ValidatorSlashingProtection) (slot : Z) : bool :=
  match r ≫= LatestSignedBlockSlot with Some latest => latest <? slot | None => true end.
Definition after_block (r : option ValidatorSlashingProtection) (slot : Z) : ValidatorSlashingProtection :=
  mkVSP (Some slot) (from_option LastSignedAttestationSourceEpoch 0 r) (r ≫= LastSignedAttestationTargetEpoch).

Lemma checkAndSaveProposal_spec db pk slot r :
  is_u64 slot → from_option vsp_u64 True r →
  let out := checkAndSaveProposal pk slot r db in
  if accepts_block r slot then wrote db pk (after_block r slot) out else out = (Err errSignProposal, db).
Proof.
  intros Hs Hr. unfold accepts_block, after_block, checkAndSaveProposal. destruct r as [v|]; cbn [mbind option_bind].
  - destruct Hr as (_&Hsrc&Ht).
    assert (vsp_u64 (mkVSP (Some slot) (LastSignedAttestationSourceEpoch v) (LastSignedAttestationTargetEpoch v))) by done.
    destruct (LatestSignedBlockSlot v) as [l|]; [|by apply save_wrote].
    rewrite Z.leb_antisym. destruct (l <? slot); cbn [negb]; [by apply save_wrote|done].
  - apply save_wrote. unfold vsp_u64, is_u64 in *. cbn. lia.
Qed.
Lemma after_block_at_least db pk slot :
  accepts_block (record db pk) slot = true → at_least db pk (after_block (record db pk) slot).
Proof.
  intros Ha v0 E. rewrite E in *. unfold accepts_block in Ha. cbn in *. unfold vsp_le. cbn. split_and!; [|lia|reflexivity].
  destruct (LatestSignedBlockSlot v0); cbn in *; [lia|done].
Qed.

(** ** Whole requests *)
Definition finish (e : event) (r : option ValidatorSlashingProtection) : M FsDB unit :=
  match e with
  | Attested pk v => wrapErr errSignAttestation (checkAndSaveAttestation pk (v_source v) (v_target v) r)
  | Proposed pk slot _ => wrapErr errSignProposal (checkAndSaveProposal pk slot r)
  end.
Definition accepts (r : option ValidatorSlashingProtection) (e : event) : bool :=
  match e with Attested _ v => accepts_vote r (v_source v) (v_target v) | Proposed _ slot _ => accepts_block r slot end.
Definition after (r : option ValidatorSlashingProtection) (e : event) : ValidatorSlashingProtection :=
  match e with Attested _ v => after_vote r (v_source v) (v_target v) | Proposed _ slot _ => after_block r slot end.

Lemma finish_spec db e r : event_ok e → from_option vsp_u64 True r →
  let out := finish e r db in
  if accepts r e then wrote db (event_key e) (after r e) out else out = (Err errLocalProtection, db).
Proof.
  intros Hok Hr. destruct e as [pk v|pk slot root]; cbn [finish accepts after event_key].
  - destruct Hok as (Hs&Ht&_). pose proof (checkAndSaveAttestation_spec db pk _ _ r Hs Ht Hr) as Hspec.
    cbn zeta in Hspec. unfold wrapErr. destruct (accepts_vote _ _ _); [|by rewrite Hspec].
    destruct (checkAndSaveAttestation _ _ _ _ _) as [[]] eqn:E; cbn in *; destruct Hspec as (?&?&?); by simplify_eq/=.
  - destruct Hok as (Hs&_). pose proof (checkAndSaveProposal_spec db pk _ r Hs Hr) as Hspec.
    cbn zeta in Hspec. unfold wrapErr. destruct (accepts_block _ _); [|by rewrite Hspec].
    destruct (checkAndSaveProposal _ _ _ _) as [[]] eqn:E; cbn in *; destruct Hspec as (?&?&?); by simplify_eq/=.
Qed.

Lemma checkEvent_finish (db : FsDB) e r :
  validatorSlashingProtection (event_key e) db = (Ok r, db) → checkEvent e db = finish e r db.
Proof.
  intros E. destruct e as [pk v|pk slot root]; cbn [checkEvent finish event_key] in *.
  - cbn [SlashableAttestationCheck FsValidatorDB]. unfold fsSlashableAttestationCheck, SaveAttestationForPubKey, attOf, wrapErr.
    unfold mbind, M_bind. by rewrite E.
  - cbn [SlashableProposalCheck FsValidatorDB]. unfold fsSlashableProposalCheck, SaveProposalHistoryForSlot, wrapErr.
    unfold mbind, M_bind. by rewrite E.
Qed.
Lemma checkEvent_unreadable (db : FsDB) e r :
  is_ok r = false → validatorSlashingProtection (event_key e) db = (r, db) →
  is_ok (checkEvent e db).1 = false ∧ (checkEvent e db).2 = db.
Proof.
  intros Hr E. destruct e as [pk v|pk slot root]; cbn [checkEvent event_key] in *.
  - cbn [SlashableAttestationCheck FsValidatorDB]. unfold fsSlashableAttestationCheck, SaveAttestationForPubKey, attOf, wrapErr.
    unfold mbind, M_bind. rewrite E. by destruct r.
  - cbn [SlashableProposalCheck FsValidatorDB]. unfold fsSlashableProposalCheck, SaveProposalHistoryForSlot, wrapErr.
    unfold mbind, M_bind. rewrite E. by destruct r.
Qed.

Lemma record_from db pk : from_option vsp_u64 True (record db pk).
Proof. destruct (record db pk) eqn:E; [by eapply record_u64|done]. Qed.

(** The three outcomes of a request. *)
Lemma checkEvent_cases (db : FsDB) e : event_ok e →
  (accepts (record db (event_key e)) e = true ∧
     wrote db (event_key e) (after (record db (event_key e)) e) (checkEvent e db)) ∨
  (accepts (record db (event_key e)) e = false ∧ checkEvent e db = (Err errLocalProtection, db)) ∨
  (record db (event_key e) = None ∧ is_Some (db !! event_key e) ∧
     is_ok (checkEvent e db).1 = false ∧ (checkEvent e db).2 = db).
Proof.
  intros Hok. pose proof (record_from db (event_key e)) as Hu.
  destruct (read_cases db (event_key e)) as [(E&Er&Ev)|[(v&Er&Ev)|(r&Er&Hr&_&Ev)]].
  - rewrite (checkEvent_finish _ _ _ Ev), Er. pose proof (finish_spec db e None Hok I) as Hs. cbn zeta in Hs.
    destruct (accepts None e); [by left|by right; left].
  - rewrite (checkEvent_finish _ _ _ Ev), Er. rewrite Er in Hu. pose proof (finish_spec db e (Some v) Hok Hu) as Hs.
    cbn zeta in Hs. destruct (accepts (Some v) e); [by left|by right; left].
  - right; right. split_and!; [done| |by eapply checkEvent_unreadable..].
    unfold validatorSlashingProtection, mget, mbind, M_bind in Ev. cbn in Ev.
    destruct (db !! event_key e) eqn:El; [by eexists|]. exfalso. unfold mret, M_ret in Ev. by simplify_eq/=.
Qed.

Lemma accepts_safe v e f : event_key e = event_key f → accepts (Some v) e = true → covered_by v f → slashable e f = false.
Proof.
  intros _ Ha Hc. destruct e as [pk w|pk slot root], f as [pk' w'|pk' slot' root']; cbn [slashable]; try done.
  - cbn in Ha, Hc. apply andb_true_iff in Ha as [Hs Ht]. destruct Hc as [Hcs Hct]. apply Z.leb_le in Hs.
    destruct (LastSignedAttestationTargetEpoch v) as [t|]; [|done]. apply Z.ltb_lt in Ht. cbn in Hct.
    unfold conflict, double_vote, surrounds. rewrite (proj2 (Z.eqb_neq (v_target w) (v_target w'))) by lia.
    rewrite (proj2 (Z.ltb_ge (v_source w) (v_source w'))) by lia. rewrite (proj2 (Z.ltb_ge (v_target w) (v_target w'))) by lia.
    cbn. rewrite andb_false_r. by rewrite andb_false_r.
  - cbn in Ha, Hc. unfold accepts_block in Ha. cbn in Ha. destruct (LatestSignedBlockSlot v) as [l|]; [|done].
    apply Z.ltb_lt in Ha. rewrite (proj2 (Z.eqb_neq slot slot')) by lia. by rewrite andb_false_r.
Qed.
Lemma slashable_keys e f : event_key e ≠ event_key f → slashable e f = false.
Proof.
  intros Hne. destruct e, f; cbn in *; try done; rewrite bool_decide_eq_false_2 by done; done.
Qed.
Lemma after_covers r e : covered_by (after r e) e.
Proof. destruct e; cbn; lia. Qed.

Lemma after_at_least db e :
  accepts (record db (event_key e)) e = true → at_least db (event_key e) (after (record db (event_key e)) e).
Proof. destruct e; [apply after_vote_at_least|apply after_block_at_least]. Qed.

Definition fs_protects (db : FsDB) (h : list event) : Prop := Forall (covered db) h.

Lemma fs_accept db h e db' :
  fs_protects db h → event_ok e → checkEvent e db = (Ok tt, db') →
  Forall (λ f, slashable e f = false) h ∧ fs_protects db' (e :: h).
Proof.
  intros Hp Hok E. destruct (checkEvent_cases db e Hok) as [(Ha&Hw)|[(_&E')|(_&_&Hr&_)]]; [|congruence|by rewrite E in Hr].
  rewrite E in Hw. pose proof (wrote_grows _ _ _ _ Hw (after_at_least db e Ha)) as Hg. cbn in Hg. split.
  - eapply Forall_impl; [exact Hp|]. intros f (v&Ev&Hc). destruct (decide (event_key e = event_key f)) as [Hk|Hk]; [|by apply slashable_keys].
    rewrite Hk, Ev in Ha. by eapply accepts_safe.
  - constructor; [|eapply Forall_impl; [exact Hp|]; intros f; by apply covered_grows].
    destruct Hw as (_&Er&_). eexists. split; [exact Er|apply after_covers].
Qed.
Lemma fs_reject db h e r db' :
  fs_protects db h → event_ok e → checkEvent e db = (r, db') → r ≠ Ok tt → fs_protects db' h.
Proof.
  intros Hp Hok E Hr. destruct (checkEvent_cases db e Hok) as [(_&Hw&_)|[(_&E')|(_&_&_&E2)]]; rewrite ?E in *; cbn in *; by simplify_eq.
Qed.
Lemma fs_partial (db : FsDB) h att pk root r db' :
  fs_protects db h → is_ok (sourceEpoch att) && is_ok (targetEpoch att) = false →
  SlashableAttestationCheck att pk root db = (r, db') → r ≠ Ok tt ∧ fs_protects db' h.
Proof.
  intros Hp Ha. cbn [SlashableAttestationCheck FsValidatorDB].
  unfold fsSlashableAttestationCheck, wrapErr, SaveAttestationForPubKey.
  destruct att as [[[s|] [t|]]|]; cbn in Ha |- *; intros; by simplify_eq.
Qed.

Lemma fs_weaken db h e : fs_protects db (e :: h) → fs_protects db h.
Proof. intros Hp. by apply Forall_cons in Hp as [_ ?]. Qed.

#[export] Instance FsSlashingProtection : SlashingProtection FsDB := {
  protects := fs_protects;
  in_scope _ _ := True;
  protects_accept db h e db' Hp Hok _ := fs_accept db h e db' Hp Hok;
  protects_reject := fs_reject;
  protects_partial := fs_partial;
  protects_weaken := fs_weaken }.
End facts.

(** ** A concrete encoding, for the examples *)
Definition optBytes (o : option Z) : list Z := match o with None => [0; 0] | Some x => [1; x] end.
Definition bytesOpt (flag x : Z) : option Z := if flag =? 1 then Some x else None.
#[export] Instance listYaml : Yaml := {
  Marshal v := Ok (optBytes (LatestSignedBlockSlot v) ++ [LastSignedAttestationSourceEpoch v] ++
                   optBytes (LastSignedAttestationTargetEpoch v));
  Unmarshal y :=
    match y with
    | [f1; x1; s; f2; x2] =>
        if bool_decide (is_u64 x1 ∧ is_u64 s ∧ is_u64 x2) then Ok (mkVSP (bytesOpt f1 x1) s (bytesOpt f2 x2)) else Err errUnmarshal
    | _ => Err errUnmarshal
    end }.
#[export] Instance listYamlLaws : YamlLaws.
Proof.
  split.
  - intros [b s t] (Hb&Hs&Ht). cbn in *. eexists. split; [done|].
    destruct b as [b|], t as [t|]; cbn; rewrite bool_decide_eq_true_2 by (split_and!; first [done|by unfold is_u64]); done.
  - intros y v. cbn. destruct y as [|f1 [|x1 [|s [|f2 [|x2 [|]]]]]]; try done.
    case_bool_decide as Hu; [|done]. intros [= <-]. destruct Hu as (?&?&?).
    unfold vsp_u64, bytesOpt. cbn. destruct (f1 =? 1), (f2 =? 1); by cbn.
Qed.

Definition key1 : PubKey := replicate 48 7.
Definition rootA : Root := replicate 32 1.
Definition rootB : Root := replicate 32 2.
Definition goodDuty (s t : Z) (root : Root) : AttesterAnswers :=
  {| a_duty := Ok 128; a_data := Ok (mkData (Some s) (Some t)); a_sig := Ok []; a_root := Ok root |}.
Definition goodBlock (slot : Z) (root : Root) : ProposerAnswers :=
  {| p_randao := Ok []; p_block := Ok slot; p_sign := Ok ([], root); p_build := Ok tt; p_generic := Ok tt |}.

(** ** The client over the filesystem database *)

(** C7: Over the filesystem database, with whatever the beacon node, the signer and the
    duties answer, the validator client never publishes two messages of one key that are
    slashable together: no double vote, no surrounding or surrounded vote, no two blocks
    for one slot.  Handlers run one after the other, from a database that covers what was
    published before (an empty one at first). *)
Theorem filesystem_client_never_slashable `{YamlLaws} (ds : list duty) (db : FsDB) (h h' : list event) (db' : FsDB) :
  Forall duty_ok ds → protects db h → never_slashable h → serve ds db h = (h', db') →
  never_slashable h' ∧ protects db' h'.
Proof.
  intros Hok Hp Hn. apply serve_safe; [done| |done..].
  clear Hp Hok Hn. revert db. induction ds as [|d ds IH]; intros db; cbn; [done|]. split; [done|apply IH].
Qed.
Lemma filesystem_client_never_slashable_witness :
  let ds := [RoleAttester key1 (goodDuty 1 2 rootA); RoleAttester key1 (goodDuty 1 2 rootB);
             RoleProposer 9 key1 (goodBlock 9 rootA); RoleProposer 9 key1 (goodBlock 9 rootB)] in
  (serve ds (∅ : FsDB) []).1 = [Proposed key1 9 rootA; Attested key1 (mkVote 1 2 rootA)] ∧
  never_slashable (serve ds (∅ : FsDB) []).1.
Proof.
  cbn zeta. split; [by vm_compute|].
  destruct (filesystem_client_never_slashable
    [RoleAttester key1 (goodDuty 1 2 rootA); RoleAttester key1 (goodDuty 1 2 rootB);
     RoleProposer 9 key1 (goodBlock 9 rootA); RoleProposer 9 key1 (goodBlock 9 rootB)] ∅ []
    _ _ ltac:(repeat constructor; intros e He; injection He as <-; repeat split; cbn; lia || done)
    ltac:(constructor) ltac:(intros e f Hf; by apply not_elem_of_nil in Hf)
    (surjective_pairing _)) as [Hn _].
  exact Hn.
Defined.

(** The rule the database applies to an attestation is EIP-3076's minimal one, in both
    directions.  With a readable file (or none), the check succeeds exactly when the source
    is at least the recorded source and the target is above the recorded target; it then
    records the two epochs, keeps the block slot and touches no other file.  Otherwise the
    local-protection error is returned and no file changes.  In particular an attestation
    with higher epochs is never refused. *)
Theorem filesystem_attestation_rule `{YamlLaws} (db : FsDB) (pk : PubKey) (v : vote) :
  event_ok (Attested pk v) → (is_Some (db !! pk) → is_Some (record db pk)) →
  let allowed := ∀ r, record db pk = Some r → LastSignedAttestationSourceEpoch r ≤ v_source v ∧
                   ∀ t, LastSignedAttestationTargetEpoch r = Some t → t < v_target v in
  let out := SlashableAttestationCheck (attOf v) pk (v_root v) db in
  (allowed → out.1 = Ok tt ∧
     record out.2 pk = Some (mkVSP (record db pk ≫= LatestSignedBlockSlot) (v_source v) (Some (v_target v))) ∧
     ∀ pk', pk' ≠ pk → out.2 !! pk' = db !! pk') ∧
  (¬ allowed → out = (Err errLocalProtection, db)).
Proof.
  intros Hok Hread. cbn zeta. change (SlashableAttestationCheck (attOf v) pk (v_root v)) with (checkEvent (DB := FsDB) (Attested pk v)).
  assert (Hiff : (∀ r, record db pk = Some r → LastSignedAttestationSourceEpoch r ≤ v_source v ∧
      ∀ t, LastSignedAttestationTargetEpoch r = Some t → t < v_target v) ↔ accepts (record db pk) (Attested pk v) = true).
  { cbn [accepts]. destruct (record db pk) as [r|]; cbn [accepts_vote]; [|naive_solver].
    rewrite andb_true_iff, Z.leb_le. destruct (LastSignedAttestationTargetEpoch r) as [t|] eqn:Et.
    - rewrite Z.ltb_lt. split; [intros Hr; destruct (Hr r eq_refl) as [? Ht]; auto|].
      intros [? ?] r' [= <-]. split; [done|]. intros t'. rewrite Et. by intros [= <-].
    - split; [intros Hr; by destruct (Hr r eq_refl)|]. intros [? _] r' [= <-]. split; [done|]. intros t'. by rewrite Et. }
  rewrite Hiff. destruct (checkEvent_cases db (Attested pk v) Hok) as [(Ha&Hw)|[(Ha&E)|(Hn&Hs&_)]]; cbn [event_key] in *.
  - split; [intros _; exact Hw|by rewrite Ha].
  - split; [by rewrite Ha|done].
  - apply Hread in Hs as [? Hs]. congruence.
Qed.
Lemma filesystem_attestation_rule_witness :
  (SlashableAttestationCheck (attOf (mkVote 3 4 rootA)) key1 rootA (∅ : FsDB)).1 = Ok tt ∧
  record (SlashableAttestationCheck (attOf (mkVote 3 4 rootA)) key1 rootA (∅ : FsDB)).2 key1 = Some (mkVSP None 3 (Some 4)).
Proof.
  destruct (filesystem_attestation_rule ∅ key1 (mkVote 3 4 rootA)) as [Hyes _].
  - repeat split; cbn; lia || done.
  - intros [y Hy]. by rewrite lookup_empty in Hy.
  - destruct Hyes as (E1&E2&_); [intros r Hr; by vm_compute in Hr|]. split; [exact E1|exact E2].
Defined.

(** ** Importing an interchange file *)
Section import.
Context `{YamlLaws}.

(** The messages an interchange file lists; the file has no signing roots to rely on.  A null
    entry among the blocks of an item ends the list: the import reads no block after it. *)
Definition listed (data : list (option ProtectionData)) (e : event) : Prop :=
  ∃ it, Some it ∈ data ∧ event_key e = pd_Pubkey it ∧
  match e with
  | Proposed _ slot _ => ∃ k str, SignedBlocks it !! k = Some (Some str) ∧ (None ∉ take k (SignedBlocks it)) ∧ Uint64FromString str = Ok slot
  | Attested _ v => ∃ s t, Some (s, t) ∈ SignedAttestations it ∧
      Uint64FromString s = Ok (v_source v) ∧ Uint64FromString t = Ok (v_target v)
  end.

Lemma parseUint_u64 str n m : is_u64 n → parseUint_loop str n = Ok m → is_u64 m.
Proof.
  revert n. induction str as [|c str IH]; intros n Hn; cbn [parseUint_loop]; [by intros [= <-]|].
  destruct (negb _); [done|]. destruct (n >=? _); [done|]. destruct (_ <? _); [done|]. apply IH, u64_range.
Qed.
Lemma Uint64FromString_u64 str m : Uint64FromString str = Ok m → is_u64 m.
Proof. unfold Uint64FromString. destruct (_ =? _)%nat; [done|]. apply parseUint_u64. by vm_compute. Qed.

(** An import step that succeeds only makes records more restrictive. *)
Definition covering (m : M FsDB unit) (es : event → Prop) : Prop :=
  ∀ db db', m db = (Ok tt, db') → grows db db' ∧ ∀ e, es e → covered db' e.

Lemma covering_bind m1 m2 (es1 es2 : event → Prop) :
  covering m1 es1 → covering m2 es2 → covering (m1;; m2) (λ e, es1 e ∨ es2 e).
Proof.
  intros H1 H2 db db' E. apply M_bind_Ok_inv in E as ([]&s1&E1&E2).
  destruct (H1 _ _ E1) as [G1 C1], (H2 _ _ E2) as [G2 C2]. split; [by etrans|].
  intros e [He|He]; [|auto]. eapply covered_grows; eauto.
Qed.
Lemma covering_weaken m (es es' : event → Prop) : (∀ e, es' e → es e) → covering m es → covering m es'.
Proof. intros Hsub Hm db db' E. destruct (Hm _ _ E). split; [done|]. auto. Qed.
Lemma covering_ret : covering (mret tt) (λ _, False).
Proof. intros db db' [= <-]. by split. Qed.
Lemma covering_lift {A} (r : gores A) (k : A → M FsDB unit) es :
  (∀ a, r = Ok a → covering (k a) es) → covering (mlift r ≫= k) es.
Proof. intros Hk db db' E. apply M_bind_Ok_inv in E as (a&s1&E1&E2). injection E1 as -> ->. eapply Hk; eauto. Qed.

(** What the two handlers that read a record and write a larger one do. *)
Lemma covering_read_write (pk : PubKey) (k : option ValidatorSlashingProtection → M FsDB unit) (es : event → Prop) :
  (∀ db db', k (record db pk) db = (Ok tt, db') → grows db db' ∧ ∀ e, es e → covered db' e) →
  covering (vsp ← validatorSlashingProtection pk; k vsp) es.
Proof.
  intros Hk db db' E. apply M_bind_Ok_inv in E as (r&s1&E1&E2).
  destruct (read_cases db pk) as [(_&Er&Ev)|[(v&Er&Ev)|(r'&_&Hr&_&Ev)]]; rewrite Ev in E1; injection E1 as E1 <-.
  - subst. apply Hk. by rewrite Er.
  - subst. apply Hk. by rewrite Er.
  - by subst r'.
Qed.


Lemma wrote_covering db (pk : PubKey) v out (es : event → Prop) :
  wrote db pk v out → at_least db pk v → (∀ e, es e → event_key e = pk ∧ covered_by v e) →
  grows db out.2 ∧ ∀ e, es e → covered out.2 e.
Proof.
  intros Hw Hl Hes. split; [by eapply wrote_grows|]. intros e He. destruct (Hes e He) as [<- Hc].
  exists v. split; [by apply Hw|done].
Qed.

Lemma tolerate_proposal (pk : PubKey) slot : is_u64 slot →
  covering (tolerate errSignProposal (SaveProposalHistoryForSlot pk slot)) (λ e, ∃ root, e = Proposed pk slot root).
Proof.
  intros Hu db db' E. unfold tolerate, SaveProposalHistoryForSlot, mbind, M_bind in E.
  assert (Hgo : tolerate errSignProposal (checkAndSaveProposal pk slot (record db pk)) db = (Ok tt, db') →
    grows db db' ∧ ∀ e, (∃ root, e = Proposed pk slot root) → covered db' e).
  { pose proof (checkAndSaveProposal_spec db pk slot _ Hu (record_from db pk)) as Hs. cbn zeta in Hs. unfold tolerate.
    destruct (accepts_block (record db pk) slot) eqn:Ha.
    - pose proof (wrote_covering _ _ _ _ (λ e, ∃ root, e = Proposed pk slot root) Hs (after_block_at_least db pk slot Ha)) as Hw.
      destruct (checkAndSaveProposal _ _ _ _) as [r s']. destruct Hs as (Hr&_&_). cbn in Hr, Hw. subst r. intros [= <-].
      apply Hw. intros e [root ->]. split; [done|]. cbn. lia.
    - rewrite Hs. cbn. intros [= <-]. split; [done|]. intros e [root ->]. unfold accepts_block in Ha.
      destruct (record db pk) as [v|] eqn:Er; [|done]. exists v. split; [done|]. cbn in *.
      destruct (LatestSignedBlockSlot v); [by apply Z.ltb_ge in Ha|done]. }
  destruct (read_cases db pk) as [(_&Er&Ev)|[(v&Er&Ev)|(r'&_&Hr&He&Ev)]]; rewrite Ev in E; [by rewrite <-Er in E; apply Hgo..|].
  destruct r' as [|e'| |]; [done| |done..]. rewrite (He e' eq_refl) in E. by cbn in E.
Qed.

Lemma tolerate_covering m e0 es : covering m es → (∀ db db', m db ≠ (Err e0, db')) → covering (tolerate e0 m) es.
Proof.
  intros Hm Hne db db' E. unfold tolerate in E. destruct (m db) as [[[]|e| |] s] eqn:Em; [by apply Hm; simplify_eq| |done..].
  case_bool_decide; simplify_eq. by destruct (Hne db db').
Qed.

(** ** Attestations of an interchange file *)
Lemma max_loop_spec atts a b r : maxSourceTargetEpoch_loop atts a b = Ok r →
  a ≤ r.1 ∧ b ≤ r.2 ∧ (is_u64 a → (∀ s t, Some (mkData (Some s) (Some t)) ∈ atts → is_u64 s) → is_u64 r.1) ∧
  (is_u64 b → (∀ s t, Some (mkData (Some s) (Some t)) ∈ atts → is_u64 t) → is_u64 r.2) ∧
  ∀ s t, Some (mkData (Some s) (Some t)) ∈ atts → s ≤ r.1 ∧ t ≤ r.2.
Proof.
  revert a b. induction atts as [|[[[s|] [t|]]|] atts IH]; intros a b; cbn [maxSourceTargetEpoch_loop]; try done.
  { intros [= <-]. cbn. split_and!; [lia|lia|done|done|]. intros s t Hin. by apply not_elem_of_nil in Hin. }
  intros E. destruct (IH _ _ E) as (Ha&Hb&Ua&Ub&Hall). rewrite !Z.gtb_ltb in *.
  assert (a ≤ r.1 ∧ s ≤ r.1) as [Ha1 Ha2] by (destruct (Z.ltb_spec a s); lia).
  assert (b ≤ r.2 ∧ t ≤ r.2) as [Hb1 Hb2] by (destruct (Z.ltb_spec b t); lia).
  split_and!; [done|done|intros Hu Hin; apply Ua|intros Hu Hin; apply Ub|].
  - destruct (a <? s); [|done]. eapply Hin. by left.
  - intros s' t' Hin'. eapply Hin. by right.
  - destruct (b <? t); [|done]. eapply Hin. by left.
  - intros s' t' Hin'. eapply Hin. by right.
  - intros s' t' Hin. apply elem_of_cons in Hin as [[= -> ->]|Hin]; [done|by apply Hall].
Qed.

Lemma SaveAttestations_covering (pk : PubKey) atts :
  (∀ s t, Some (mkData (Some s) (Some t)) ∈ atts → is_u64 s ∧ is_u64 t) →
  covering (SaveAttestationsForPubKey pk atts)
    (λ e, ∃ s t root, e = Attested pk (mkVote s t root) ∧ Some (mkData (Some s) (Some t)) ∈ atts).
Proof.
  intros Hu. unfold SaveAttestationsForPubKey. destruct (length atts =? 0)%nat eqn:El.
  { apply Nat.eqb_eq, length_zero_iff_nil in El as ->. eapply covering_weaken; [|apply covering_ret].
    intros e (s&t&root&_&Hin). by apply not_elem_of_nil in Hin. }
  apply covering_lift. intros [ms mt] Em. destruct (max_loop_spec _ _ _ _ Em) as (_&_&Us&Ut&Hall). cbn in Us, Ut, Hall.
  assert (U0 : is_u64 0) by by vm_compute. specialize (Us U0 (λ s t Hin, proj1 (Hu s t Hin))). specialize (Ut U0 (λ s t Hin, proj2 (Hu s t Hin))).
  apply covering_read_write. intros db db' E. pose proof (record_from db pk) as Hf.
  assert (Hw : ∀ v, vsp_u64 v → at_least db pk v → ms ≤ LastSignedAttestationSourceEpoch v →
    opt_le (Some mt) (LastSignedAttestationTargetEpoch v) → saveValidatorSlashingProtection pk (Some v) db = (Ok tt, db') →
    grows db db' ∧ ∀ e, (∃ s t root, e = Attested pk (mkVote s t root) ∧ Some (mkData (Some s) (Some t)) ∈ atts) → covered db' e).
  { intros v Hv Hl Hs Ht Es. pose proof (save_wrote db pk v Hv) as Hwr. rewrite Es in Hwr.
    apply (wrote_covering _ _ _ _ _ Hwr Hl). intros e (s&t&root&->&Hin). destruct (Hall s t Hin). split; [done|]. cbn.
    destruct (LastSignedAttestationTargetEpoch v); cbn in *; [lia|done]. }
  destruct (record db pk) as [v|] eqn:Er; cbn in E, Hf.
  - destruct Hf as (Hb&Hs&Ht). eapply Hw; [..|exact E]; cbn; unfold at_least, vsp_u64, vsp_le; cbn.
    + split_and!; [done|by destruct (_ >? _)|]. destruct (LastSignedAttestationTargetEpoch v) as [t|]; cbn in Ht |- *; [|done].
      by destruct (t >? mt).
    + intros v0. rewrite Er. intros [= <-]. split_and!; [reflexivity| |].
      * destruct (Z.gtb_spec (LastSignedAttestationSourceEpoch v) ms); lia.
      * destruct (LastSignedAttestationTargetEpoch v) as [t|]; cbn; [destruct (Z.gtb_spec t mt); lia|done].
    + destruct (Z.gtb_spec (LastSignedAttestationSourceEpoch v) ms); lia.
    + destruct (LastSignedAttestationTargetEpoch v) as [t|]; [destruct (Z.gtb_spec t mt); lia|lia].
  - eapply Hw; [..|exact E]; cbn; [done|by intros v0; rewrite Er|lia|lia].
Qed.

Lemma SaveAttestations_no_reject (pk : PubKey) (atts : list IndexedAtt) (db db' : FsDB) :
  SaveAttestationsForPubKey pk atts db ≠ (Err errSignAttestation, db').
Proof.
  assert (Hloop : ∀ a b, maxSourceTargetEpoch_loop atts a b ≠ Err errSignAttestation).
  { induction atts as [|[[[s|] [t|]]|] atts' IH]; intros a b; cbn; try done. }
  assert (Hsave : ∀ v, saveValidatorSlashingProtection pk v db ≠ (Err errSignAttestation, db')).
  { intros [v|]; [|done]. unfold saveValidatorSlashingProtection, mbind, M_bind, mlift, mmodify. by destruct (Marshal v). }
  unfold SaveAttestationsForPubKey. destruct (_ =? _)%nat; [done|]. unfold mbind at 1, M_bind at 1, mlift.
  specialize (Hloop 0 0). unfold maxSourceTargetEpoch. destruct (maxSourceTargetEpoch_loop atts 0 0) as [[ms mt]|e| |]; [|congruence|done..].
  unfold mbind, M_bind. destruct (read_cases db pk) as [(_&_&->)|[(v&_&->)|(r'&_&Hr&He&->)]]; [by apply Hsave..|].
  destruct r' as [|e| |]; [done| |done..]. by rewrite (He e eq_refl).
Qed.

Lemma importBlockProposals_covering (pk : PubKey) blocks :
  covering (importBlockProposals pk blocks)
    (λ e, ∃ slot root k str, e = Proposed pk slot root ∧ blocks !! k = Some (Some str) ∧ (None ∉ take k blocks) ∧
       Uint64FromString str = Ok slot).
Proof.
  induction blocks as [|[str|] blocks IH]; cbn [importBlockProposals].
  - eapply covering_weaken; [|apply covering_ret]. by intros e (?&?&k&?&_&Hk&_).
  - apply covering_lift. intros slot Es.
    eapply covering_weaken; [|apply covering_bind; [apply tolerate_proposal; by eapply Uint64FromString_u64|apply IH]].
    intros e (slot'&root&[|k]&str'&->&Hk&Hn&Es'); cbn in Hk, Hn.
    + left. injection Hk as ->. rewrite Es in Es'. injection Es' as <-. by exists root.
    + right. apply not_elem_of_cons in Hn as [_ Hn]. by exists slot', root, k, str'.
  - eapply covering_weaken; [|apply covering_ret]. intros e (?&?&[|k]&?&_&Hk&Hn&_); [done|]. cbn in Hn.
    by apply not_elem_of_cons in Hn as [? _].
Qed.

Lemma signedAttestations_spec sas atts : signedAttestations sas = Ok atts →
  (∀ s t, Some (mkData (Some s) (Some t)) ∈ atts → is_u64 s ∧ is_u64 t) ∧
  ∀ ss ts s t, Some (ss, ts) ∈ sas → Uint64FromString ss = Ok s → Uint64FromString ts = Ok t →
    Some (mkData (Some s) (Some t)) ∈ atts.
Proof.
  revert atts. induction sas as [|[[ss ts]|] sas IH]; intros atts; cbn [signedAttestations]; [| |done].
  { intros [= <-]. split; [intros s t Hin; by apply not_elem_of_nil in Hin|intros ? ? ? ? Hin; by apply not_elem_of_nil in Hin]. }
  intros E. apply bind_Ok_inv in E as (s&Es&E). apply bind_Ok_inv in E as (t&Et&E). apply bind_Ok_inv in E as (atts'&Ea&E).
  injection E as <-. destruct (IH _ Ea) as [Hu Hin]. split.
  - intros s' t' H'. apply elem_of_cons in H' as [[= -> ->]|H']; [|by apply Hu]. split; by eapply Uint64FromString_u64.
  - intros ss' ts' s' t' H' E1 E2. apply elem_of_cons in H' as [[= -> ->]|H']; [|right; by eapply Hin].
    rewrite Es in E1. rewrite Et in E2. injection E1 as <-. injection E2 as <-. by left.
Qed.

Lemma importAttestations_covering (pk : PubKey) sas :
  covering (importAttestations pk sas)
    (λ e, ∃ v ss ts, e = Attested pk v ∧ Some (ss, ts) ∈ sas ∧
       Uint64FromString ss = Ok (v_source v) ∧ Uint64FromString ts = Ok (v_target v)).
Proof.
  unfold importAttestations. apply covering_lift. intros atts Ea. destruct (signedAttestations_spec _ _ Ea) as [Hu Hin].
  eapply covering_weaken; [|apply tolerate_covering; [by apply SaveAttestations_covering|intros; apply SaveAttestations_no_reject]].
  intros e ([s t root]&ss&ts&->&H'&Es&Et). exists s, t, root. split; [done|]. by eapply Hin.
Qed.

Lemma importData_covering data : covering (importData data) (listed data).
Proof.
  unfold importData. induction data as [|item data IH]; cbn [mfor].
  { eapply covering_weaken; [|apply covering_ret]. intros e (it&Hin&_). by apply not_elem_of_nil in Hin. }
  destruct item as [it|].
  - eapply covering_weaken; [|apply covering_bind; [apply covering_bind;
      [apply importBlockProposals_covering|apply importAttestations_covering]|exact IH]].
    intros e (it'&Hin&Hk&He). apply elem_of_cons in Hin as [[= ->]|Hin]; [|right; by exists it'].
    left. destruct e as [pk v|pk slot root]; cbn in Hk; subst pk; [right|left].
    + destruct He as (ss&ts&?&?&?). by exists v, ss, ts.
    + destruct He as (k&str&?&?&?). by exists slot, root, k, str.
  - eapply covering_weaken; [|apply covering_bind; [apply covering_ret|exact IH]].
    intros e (it'&Hin&Hk&He). apply elem_of_cons in Hin as [[=]|Hin]. right. by exists it'.
Qed.
End import.

(** C28: Importing an interchange file protects what the file lists.  When the import of the
    items succeeds, no message that the database accepts afterwards is slashable together
    with an attestation of the file, or with a block that its item lists before any null
    entry, for any signing roots the file did not carry; and nothing that was covered
    before is lost. *)
Theorem import_protects_listed `{YamlLaws} (data : list (option ProtectionData)) (db db' : FsDB) (h : list event) :
  protects db h → importData data db = (Ok tt, db') →
  protects db' h ∧ ∀ e f db'', event_ok e → checkEvent e db' = (Ok tt, db'') →
    listed data f ∨ f ∈ h → slashable e f = false.
Proof.
  intros Hp E. destruct (importData_covering data db db' E) as [Hg Hc].
  assert (Hp' : fs_protects db' h) by (eapply Forall_impl; [exact Hp|]; intros f; by apply covered_grows).
  split; [exact Hp'|]. intros e f db'' Hok Ee Hf.
  assert (Hpf : fs_protects db' [f]) by (constructor; [|constructor]; destruct Hf as [Hf|Hf];
    [by apply Hc|unfold fs_protects in Hp'; rewrite Forall_forall in Hp'; by apply Hp']).
  destruct (fs_accept db' [f] e db'' Hpf Hok Ee) as [Hs _]. by apply Forall_cons in Hs as [? _].
Qed.

Definition fileItem : ProtectionData :=
  {| pd_Pubkey := key1; SignedBlocks := [Some [49; 50]; Some [57]]; SignedAttestations := [Some ([49], [50; 48])] |}.
Lemma import_protects_listed_witness :
  is_ok (checkEvent (Proposed key1 11 rootB) (importData [Some fileItem] (∅ : FsDB)).2).1 = false ∧
  ∀ db'', checkEvent (Attested key1 (mkVote 2 21 rootB)) (importData [Some fileItem] (∅ : FsDB)).2 = (Ok tt, db'') →
    slashable (Attested key1 (mkVote 2 21 rootB)) (Attested key1 (mkVote 1 20 rootA)) = false.
Proof.
  split; [by vm_compute|]. intros db'' E.
  destruct (import_protects_listed [Some fileItem] ∅ (importData [Some fileItem] (∅ : FsDB)).2 []) as [_ Hsafe].
  - constructor.
  - apply injective_projections; [by vm_compute|reflexivity].
  - eapply Hsafe; [repeat split; cbn; lia || done|exact E|]. left. exists fileItem. split; [by left|]. split; [done|].
    exists [49], [50; 48]. split; [by left|]. split; reflexivity.
Defined.

(** A null block entry ends the import of its item's blocks without an error: the blocks
    listed after it are not protected, and a second block for such a slot is accepted. *)
Theorem null_block_ends_import :
  let file := [Some {| pd_Pubkey := key1; SignedBlocks := [Some [57]; None; Some [49; 50]]; SignedAttestations := [] |}] in
  (importData file (∅ : FsDB)).1 = Ok tt ∧
  is_ok (checkEvent (Proposed key1 12 rootB) (importData file (∅ : FsDB)).2).1 = true.
Proof. split; by vm_compute. Qed.
