(* ===== verification/FilesystemRaces.v ===== *)
(** * Handlers of the validator client interleaved over the filesystem database

    [performRoles] starts one goroutine per key and role.  A handler holds a lock of the
    async package while it runs, but the attester's lock is named by the role byte followed
    by the key, and the proposer's by the role's number and by the key alone, so the two
    handlers of one key do not exclude each other.  In the database, reading the record and
    writing it back take the lock of the file separately; a handler is therefore two steps.
    When no key has handlers of both roles the interleaving is harmless; otherwise one
    handler can write back the record it read before the other one's update. *)
From S2P Require Import Prelude Shuffle MerkleTrie Protection FilesystemProtection FilesystemTheorems.

(** [iface.RoleAttester] as a byte, [fmt.Sprint(iface.RoleProposer)] as text *)
Definition roleAttesterByte : Z := 1.
Definition roleProposerText : list Z := [50].

(** The names given to [async.NewMultilock]. *)
Definition lockKeys (e : event) : list (list Z) :=
  match e with
  | Attested pk _ => [roleAttesterByte :: pk]
  | Proposed pk _ _ => [roleProposerText; pk]
  end.

Inductive phase :=
  | Ready                                                (* before its locks *)
  | HasRead (r : option ValidatorSlashingProtection)     (* the record it decided on *)
  | Published | Refused.

Record world := mkWorld { files : FsDB; held : list (list Z); jobs : list (event * phase) }.

Section races.
Context `{YamlLaws}.

Inductive step : world → world → Prop :=
  | step_read i w e r :
      jobs w !! i = Some (e, Ready) → (∀ k, k ∈ lockKeys e → k ∉ held w) →
      validatorSlashingProtection (event_key e) (files w) = (Ok r, files w) →
      step w (mkWorld (files w) (lockKeys e ++ held w) (<[i := (e, HasRead r)]> (jobs w)))
  | step_write i w e r out :
      jobs w !! i = Some (e, HasRead r) → finish e r (files w) = out →
      step w (mkWorld out.2 (filter (λ k, k ∉ lockKeys e) (held w))
                (<[i := (e, if is_ok out.1 then Published else Refused)]> (jobs w))).

Definition published (w : world) (e : event) : Prop := ∃ i, jobs w !! i = Some (e, Published).

(** No key has both roles to play. *)
Definition same_role (e f : event) : bool :=
  match e, f with Attested _ _, Attested _ _ | Proposed _ _ _, Proposed _ _ _ => true | _, _ => false end.
Definition one_role_per_key (es : list event) : Prop :=
  ∀ e f, e ∈ es → f ∈ es → event_key e = event_key f → same_role e f = true.

Lemma same_role_locks e f : event_key e = event_key f → same_role e f = true → ∃ k, k ∈ lockKeys e ∧ k ∈ lockKeys f.
Proof.
  destruct e as [pk v|pk s r], f as [pk' v'|pk' s' r']; cbn; intros ->; try done; intros _.
  - eexists. split; by left.
  - eexists. split; by left.
Qed.

Record race_inv (es : list event) (w : world) : Prop := {
  ri_jobs : (jobs w).*1 = es;
  ri_held i e r : jobs w !! i = Some (e, HasRead r) → ∀ k, k ∈ lockKeys e → k ∈ held w;
  ri_excl i j e r f q : i ≠ j → jobs w !! i = Some (e, HasRead r) → jobs w !! j = Some (f, HasRead q) →
    ∀ k, k ∈ lockKeys e → k ∉ lockKeys f;
  ri_fresh i e r : jobs w !! i = Some (e, HasRead r) → validatorSlashingProtection (event_key e) (files w) = (Ok r, files w);
  ri_covered e : published w e → covered (files w) e;
  ri_safe e f : published w e → published w f → slashable e f = false }.

Lemma step_jobs es w i e p p' : (jobs w).*1 = es → jobs w !! i = Some (e, p) → (<[i := (e, p')]> (jobs w)).*1 = es.
Proof.
  intros Hes E. rewrite list_fmap_insert. rewrite list_insert_id; [done|]. rewrite list_lookup_fmap, E. done.
Qed.

Lemma job_event es w i e p : (jobs w).*1 = es → jobs w !! i = Some (e, p) → e ∈ es.
Proof. intros <- E. apply list_elem_of_fmap. exists (e, p). split; [done|]. by eapply list_elem_of_lookup_2. Qed.

Lemma read_other (pk : PubKey) (db db' : FsDB) r :
  db' !! pk = db !! pk → validatorSlashingProtection pk db = (Ok r, db) → validatorSlashingProtection pk db' = (Ok r, db').
Proof.
  unfold validatorSlashingProtection, mget, mbind, M_bind. cbn. intros ->. destruct (db !! pk); unfold mlift, mret, M_ret; [|by intros [= <-]].
  destruct (wrapf _ _); intros; by simplify_eq.
Qed.

(** A job other than the one that moved is as it was. *)
Lemma jobs_insert w i p j e q : <[i := p]> (jobs w) !! j = Some (e, q) →
  (j = i ∧ p = (e, q)) ∨ (j ≠ i ∧ jobs w !! j = Some (e, q)).
Proof. intros E. apply list_lookup_insert_Some in E as [(->&->&_)|(Hne&E)]; [by left|right]. by split. Qed.

Lemma race_read es w i e r :
  race_inv es w → jobs w !! i = Some (e, Ready) → (∀ k, k ∈ lockKeys e → k ∉ held w) →
  validatorSlashingProtection (event_key e) (files w) = (Ok r, files w) →
  race_inv es (mkWorld (files w) (lockKeys e ++ held w) (<[i := (e, HasRead r)]> (jobs w))).
Proof.
  intros [Hj Hh Hx Hf Hc Hs] Hi Hfree Hr.
  assert (Hpub : ∀ f, published (mkWorld (files w) (lockKeys e ++ held w) (<[i := (e, HasRead r)]> (jobs w))) f → published w f).
  { intros f [j E]. apply jobs_insert in E as [[_ [=]]|[_ E]]. by exists j. }
  split; cbn [files held jobs].
  - by eapply step_jobs.
  - intros j f q E k Hk. apply jobs_insert in E as [[-> [= <- <-]]|[_ E]]; apply elem_of_app; [by left|right; by eapply Hh].
  - intros j j' f q g q' Hne E E' k Hk.
    apply jobs_insert in E as [[-> [= <- <-]]|[Hn E]]; apply jobs_insert in E' as [[-> [= <- <-]]|[Hn' E']]; [done|..].
    + intros Hk'. by apply (Hfree k Hk), (Hh _ _ _ E').
    + intros Hk'. by apply (Hfree k Hk'), (Hh _ _ _ E).
    + exact (Hx _ _ _ _ _ _ Hne E E' k Hk).
  - intros j f q E. apply jobs_insert in E as [[-> [= <- <-]]|[_ E]]; [done|by eapply Hf].
  - intros f Hp. by apply Hc, Hpub.
  - intros f g Hp Hp'. apply Hs; by apply Hpub.
Qed.

Lemma race_write es w i e r :
  one_role_per_key es → Forall event_ok es → race_inv es w → jobs w !! i = Some (e, HasRead r) →
  let out := finish e r (files w) in
  race_inv es (mkWorld out.2 (filter (λ k, k ∉ lockKeys e) (held w))
    (<[i := (e, if is_ok out.1 then Published else Refused)]> (jobs w))).
Proof.
  intros Hrole Hok [Hj Hh Hx Hf Hc Hs] Hi. cbn zeta.
  assert (Hoke : event_ok e) by (rewrite Forall_forall in Hok; by eapply Hok, job_event).
  pose proof (checkEvent_cases (files w) e Hoke) as Hcases. pose proof (fs_accept (files w) [] e) as Hacc0.
  pose proof (λ f, fs_accept (files w) [f] e) as Hacc.
  rewrite (checkEvent_finish _ _ _ (Hf _ _ _ Hi)) in *. destruct (finish e r (files w)) as [o db'] eqn:Eo. cbn [fst snd] in *.
  assert (Hother : ∀ pk, pk ≠ event_key e → db' !! pk = files w !! pk).
  { intros pk Hne. destruct Hcases as [(_&_&_&Hw)|[(_&[= _ ->])|(_&_&_&->)]]; [by apply Hw|done..]. }
  assert (Hrej : is_ok o = false → db' = files w).
  { intros Ho. destruct Hcases as [(_&Hw&_)|[(_&[= _ ->])|(_&_&_&->)]]; [|done..]. cbn in Hw. by subst o. }
  assert (Hpub : ∀ f, published (mkWorld db' (filter (λ k, k ∉ lockKeys e) (held w))
      (<[i := (e, if is_ok o then Published else Refused)]> (jobs w))) f → (is_ok o = true ∧ f = e) ∨ published w f).
  { intros f [j E]. apply jobs_insert in E as [[_ [= <- E]]|[_ E]]; [|right; by exists j]. left. by destruct (is_ok o). }
  assert (Hcov : ∀ f, published w f → covered db' f ∧ (is_ok o = true → slashable e f = false)).
  { intros f Hp. destruct (is_ok o) eqn:Ho; [|rewrite (Hrej eq_refl); split; [by apply Hc|done]].
    destruct o as [[]| | |]; try done.
    destruct (Hacc f db') as [Hsl Hp']; [by constructor; [apply Hc|constructor]|done|done|].
    apply Forall_cons in Hsl as [? _]. apply Forall_cons in Hp' as [_ [? _]%Forall_cons]. done. }
  assert (Hend : ∀ j f q, <[i := (e, if is_ok o then Published else Refused)]> (jobs w) !! j = Some (f, HasRead q) →
    j ≠ i ∧ jobs w !! j = Some (f, HasRead q)).
  { intros j f q E. apply jobs_insert in E as [[_ [= _ E]]|E]; [by destruct (is_ok o)|done]. }
  split; cbn [files held jobs].
  - by eapply step_jobs.
  - intros j f q [Hn E]%Hend k Hk.
    apply list_elem_of_filter. split; [exact (Hx _ _ _ _ _ _ Hn E Hi k Hk)|by eapply Hh].
  - intros j j' f q g q' Hne [_ E]%Hend [_ E']%Hend. by eapply Hx.
  - intros j f q [Hn E]%Hend. eapply read_other; [|by eapply Hf]. apply Hother. intros Hk.
    destruct (same_role_locks f e Hk) as (k&Hk1&Hk2); [apply Hrole; [by eapply job_event..|done]|].
    exact (Hx _ _ _ _ _ _ Hn E Hi k Hk1 Hk2).
  - intros f Hp. destruct (Hpub f Hp) as [[Ho ->]|Hp']; [|by apply Hcov]. destruct o as [[]| | |]; try done.
    destruct (Hacc0 db') as [_ Hp0]; [constructor|done|done|]. by apply Forall_cons in Hp0 as [? _].
  - intros f g Hp Hp'. destruct (Hpub f Hp) as [[Ho ->]|Hf'], (Hpub g Hp') as [[Ho' ->]|Hg'].
    + apply slashable_irrefl.
    + by apply Hcov.
    + rewrite slashable_sym. by apply Hcov.
    + by apply Hs.
Qed.

Lemma race_steps es w w' : one_role_per_key es → Forall event_ok es → rtc step w w' → race_inv es w → race_inv es w'.
Proof.
  intros Hrole Hok Hsteps. induction Hsteps as [|w1 w2 w3 Hstep _ IH]; [done|]. intros Hinv. apply IH.
  destruct Hstep as [i w e r Hi Hfree Hr|i w e r out Hi <-]; [by apply race_read|by apply race_write].
Qed.

Lemma race_init (db : FsDB) es : race_inv es (mkWorld db [] ((λ e, (e, Ready)) <$> es)).
Proof.
  assert (Hno : ∀ i e p, ((λ e, (e, Ready)) <$> es) !! i = Some (e, p) → p = Ready).
  { intros i e p E. apply list_lookup_fmap_Some in E as (e'&?&_). naive_solver. }
  split; cbn [files held jobs].
  - rewrite <-list_fmap_compose. by rewrite list_fmap_id.
  - intros i e r E. by apply Hno in E.
  - intros i j e r f q _ E. by apply Hno in E.
  - intros i e r E. by apply Hno in E.
  - intros e [i E]. by apply Hno in E.
  - intros e f [i E]. by apply Hno in E.
Qed.
(** The steps as a function, for concrete schedules. *)
Definition move (i : nat) (w : world) : option world :=
  match jobs w !! i with
  | Some (e, Ready) =>
      if bool_decide (Forall (λ k, k ∉ held w) (lockKeys e)) then
        match (validatorSlashingProtection (event_key e) (files w)).1 with
        | Ok r => Some (mkWorld (files w) (lockKeys e ++ held w) (<[i := (e, HasRead r)]> (jobs w)))
        | _ => None
        end
      else None
  | Some (e, HasRead r) =>
      let out := finish e r (files w) in
      Some (mkWorld out.2 (filter (λ k, k ∉ lockKeys e) (held w))
              (<[i := (e, if is_ok out.1 then Published else Refused)]> (jobs w)))
  | _ => None
  end.
Fixpoint moves (sched : list nat) (w : world) : option world :=
  match sched with [] => Some w | i :: sched' => move i w ≫= moves sched' end.

Lemma move_step i w w' : move i w = Some w' → step w w'.
Proof.
  unfold move. destruct (jobs w !! i) as [[e [|r| |]]|] eqn:Ei; try done.
  - case_bool_decide as Hfree; [|done]. destruct (read_cases (files w) (event_key e)) as [(_&_&E)|[(v&_&E)|(r&_&Hr&_&E)]];
      rewrite E; cbn; [intros [= <-]; eapply step_read; [done| |done]; by rewrite <-Forall_forall..|by destruct r].
  - intros [= <-]. by eapply step_write.
Qed.
Lemma moves_end sched w0 js : jobs <$> moves sched w0 = Some js → ∃ w, moves sched w0 = Some w ∧ jobs w = js.
Proof. intros (w&E&->)%fmap_Some. by exists w. Qed.
Lemma moves_steps sched w w' : moves sched w = Some w' → rtc step w w'.
Proof.
  revert w. induction sched as [|i sched IH]; intros w; cbn; [intros [= <-]; constructor|].
  intros (w1&E1&E2)%bind_Some. eapply rtc_l; [by eapply move_step|by apply IH].
Qed.
End races.

(** C23: However the handlers of the validator client interleave over the filesystem
    database, the messages they publish are never slashable together, as long as no key
    has both an attestation and a proposal in flight: the locks of one role keep a record
    from changing between the read it was checked against and the write. *)
Theorem interleaved_one_role_safe `{YamlLaws} (db : FsDB) (es : list event) (w : world) (e f : event) :
  one_role_per_key es → Forall event_ok es →
  rtc step (mkWorld db [] ((λ e, (e, Ready)) <$> es)) w →
  published w e → published w f → slashable e f = false.
Proof. intros Hrole Hok Hsteps. eapply ri_safe. by eapply race_steps, race_init. Qed.

Definition twoKeys : list event :=
  [Attested key1 (mkVote 1 2 rootA); Proposed (replicate 48 8) 10 rootA; Attested key1 (mkVote 1 2 rootB)].
Lemma interleaved_one_role_safe_witness :
  ∃ w, moves [0; 1; 0; 2; 1; 2]%nat (mkWorld (∅ : FsDB) [] ((λ e, (e, Ready)) <$> twoKeys)) = Some w ∧
    (jobs w).*2 = [Published; Published; Refused] ∧
    ∀ e f, published w e → published w f → slashable e f = false.
Proof.
  destruct (moves_end [0; 1; 0; 2; 1; 2]%nat (mkWorld (∅ : FsDB) [] ((λ e, (e, Ready)) <$> twoKeys))
    (zip twoKeys [Published; Published; Refused])) as (w&E&Ej); [by vm_compute|].
  exists w. split; [done|]. split.
  - by rewrite Ej.
  - intros e f. apply (interleaved_one_role_safe ∅ twoKeys).
    + intros e' f' He Hf. unfold twoKeys in He, Hf. rewrite !elem_of_cons, elem_of_nil in He, Hf.
      destruct He as [->|[->|[->|[]]]], Hf as [->|[->|[->|[]]]]; done.
    + repeat constructor; cbn; lia || done.
    + by eapply moves_steps.
Defined.

(** C38: With both roles of one key in flight the database can be made to forget a block.
    The attester reads the record, the proposer of the same key records slot 10 and
    publishes, and the attester writes back the record it read, without the slot; a second,
    different block for slot 10 is then accepted. *)
Theorem interleaved_roles_lose_a_block :
  ∃ w, rtc step (mkWorld (∅ : FsDB) [] ((λ e, (e, Ready)) <$>
         [Attested key1 (mkVote 1 2 rootA); Proposed key1 10 rootA; Proposed key1 10 rootB])) w ∧
    published w (Proposed key1 10 rootA) ∧ published w (Proposed key1 10 rootB) ∧
    slashable (Proposed key1 10 rootA) (Proposed key1 10 rootB) = true.
Proof.
  set (es := [Attested key1 (mkVote 1 2 rootA); Proposed key1 10 rootA; Proposed key1 10 rootB]).
  destruct (moves_end [0; 1; 1; 0; 2; 2]%nat (mkWorld (∅ : FsDB) [] ((λ e, (e, Ready)) <$> es))
    ((λ e, (e, Published)) <$> es)) as (w&E&Ej); [by vm_compute|].
  exists w. split; [by eapply moves_steps|]. unfold published. rewrite Ej.
  split_and!; [by exists 1%nat|by exists 2%nat|by vm_compute].
Qed.
