(* ===== verification/KvProtection.v ===== *)
(** * validator/db/kv: the complete slashing-protection database

    Every attestation and recent proposal of every key is kept in BoltDB.  A bucket is the
    class [KVBucket]: byte-string keys to byte-string values, iterated in the order of the
    keys; [KVBucketLaws] is what bbolt documents of it.  The nested buckets of a key, which
    the code finds by constant names, are the fields of [PkBucket].  Transactions commit
    (no I/O error).  [SaveAttestationForPubKey] hands the record to the goroutine that
    writes batches and waits for it: here is the check up to the record it hands over and
    the transaction that writes records; KvBatch.v has the goroutine, its failures and the
    calls that wait for it. *)
From S2P Require Import Prelude Primitives Config SlotTime Shuffle MerkleTrie Protection.

Class KVBucket (B : Type) := {
  kempty : B;
  kget : list Z → B → option (list Z);
  kput : list Z → list Z → B → B;
  kdelete : list Z → B → B;
  kentries : B → list (list Z * list Z) }.
Class KVBucketLaws (B : Type) `{KVBucket B} := {
  kget_empty k : kget k kempty = None;
  kget_put_eq k v b : kget k (kput k v b) = Some v;
  kget_put_ne k k' v b : k ≠ k' → kget k (kput k' v b) = kget k b;
  kget_delete_eq k b : kget k (kdelete k b) = None;
  kget_delete_ne k k' b : k ≠ k' → kget k (kdelete k' b) = kget k b;
  kentries_spec k v b : (k, v) ∈ kentries b ↔ kget k b = Some v;
  kentries_nodup b : NoDup (kentries b).*1;
  kentries_sorted b : StronglySorted bytes_le (kentries b).*1 }.

(** [params.BeaconConfig().WeakSubjectivityPeriod] *)
Class WeakSubjectivity := { WeakSubjectivityPeriod : Z }.

Record AttestationRecord := mkRecord { ar_PubKey : PubKey; ar_Source : Z; ar_Target : Z; ar_SigningRoot : list Z }.

Section kv.
Context {B : Type} `{KVBucket B} `{cfg : BeaconChainConfig} `{WeakSubjectivity}.

Record PkBucket := mkPk {
  attestationSigningRootsBucket : option B;
  attestationSourceEpochsBucket : option B;
  attestationTargetEpochsBucket : option B }.
Record KvDB := mkKv {
  pubKeysBucket : gmap PubKey PkBucket;
  lowestSignedSourceBucket : B;
  lowestSignedTargetBucket : B;
  historicProposalsBucket : gmap PubKey B;
  lowestSignedProposalsBucket : B;
  highestSignedProposalsBucket : B }.
(** [NewKVStore] on a new file: [createBuckets] *)
Definition NewKVStore : KvDB := mkKv ∅ kempty kempty ∅ kempty kempty.

Definition UpdatePublicKeysBuckets (pubKeys : list PubKey) (db : KvDB) : KvDB :=
  mkKv (pubKeysBucket db) (lowestSignedSourceBucket db) (lowestSignedTargetBucket db)
    (foldl (λ m pk, <[pk := default kempty (m !! pk)]> m) (historicProposalsBucket db) pubKeys)
    (lowestSignedProposalsBucket db) (highestSignedProposalsBucket db).

(** ** Attestations *)

(** [for i := 0; i < len(v); i += 8 { BytesToEpochBigEndian(v[i : i+8]) }] *)
Fixpoint attestedEpochs (v : list Z) : gores (list Z) :=
  match v with
  | [] => Ok []
  | a :: b :: c :: d :: e :: f :: g :: h :: v' =>
      epochs ← attestedEpochs v'; Ok (BytesToUint64BigEndian [a; b; c; d; e; f; g; h] :: epochs)
  | _ => Panic
  end.

Fixpoint firstHit {A} (test : A → gores bool) (l : list A) : gores bool :=
  match l with
  | [] => Ok false
  | x :: l' => hit ← test x; if hit : bool then Ok true else firstHit test l'
  end.

Definition epochsAtt (s t : Z) : IndexedAtt := Some (mkData (Some s) (Some t)).

(** From the last key backwards. *)
Fixpoint checkSurroundedVote_loop (entries : list (list Z * list Z)) (att : IndexedAtt) : gores unit :=
  match entries with
  | [] => Ok tt
  | (k, v) :: entries' =>
      let existingTargetEpoch := BytesToUint64BigEndian k in
      t ← targetEpoch att;
      if existingTargetEpoch <=? t then Ok tt
      else
        attestedSourceEpochs ← attestedEpochs v;
        surrounded ← firstHit (λ s, IsSurround (epochsAtt s existingTargetEpoch) att) attestedSourceEpochs;
        if surrounded : bool then Err errSurroundedVote else checkSurroundedVote_loop entries' att
  end.
Definition checkSurroundedVote (targetEpochsBucket : B) (att : IndexedAtt) : gores unit :=
  checkSurroundedVote_loop (reverse (kentries targetEpochsBucket)) att.

Fixpoint checkSurroundingVote_loop (entries : list (list Z * list Z)) (att : IndexedAtt) : gores unit :=
  match entries with
  | [] => Ok tt
  | (k, v) :: entries' =>
      let existingSourceEpoch := BytesToUint64BigEndian k in
      s ← sourceEpoch att;
      if existingSourceEpoch <=? s then Ok tt
      else
        attestedTargetEpochs ← attestedEpochs v;
        surrounding ← firstHit (λ t, IsSurround att (epochsAtt existingSourceEpoch t)) attestedTargetEpochs;
        if surrounding : bool then Err errSurroundingVote else checkSurroundingVote_loop entries' att
  end.
Definition checkSurroundingVote (sourceEpochsBucket : B) (att : IndexedAtt) : gores unit :=
  checkSurroundingVote_loop (reverse (kentries sourceEpochsBucket)) att.

Definition CheckSlashableAttestation (pubKey : PubKey) (signingRoot : list Z) (att : IndexedAtt) (db : KvDB) : gores unit :=
  match pubKeysBucket db !! pubKey with
  | None => Ok tt
  | Some pkBucket =>
      match attestationSigningRootsBucket pkBucket with
      | None => Ok tt
      | Some signingRootsBucket =>
          t ← targetEpoch att;
          match kget (Uint64ToBytesBigEndian t) signingRootsBucket with
          | Some existing =>
              if (length existing =? 0)%nat || SigningRootsDiffer existing signingRoot then Err errDoubleVote else Ok tt
          | None => Ok tt
          end
      end;;
      match attestationSourceEpochsBucket pkBucket with
      | None => Ok tt
      | Some sourceEpochsBucket =>
          checkSurroundingVote sourceEpochsBucket att;;
          match attestationTargetEpochsBucket pkBucket with
          | None => Ok tt
          | Some targetEpochsBucket => checkSurroundedVote targetEpochsBucket att
          end
      end
  end.

Definition kvSigningRootAtTargetEpoch (pubKey : PubKey) (target : Z) (db : KvDB) : list Z :=
  match pubKeysBucket db !! pubKey ≫= attestationSigningRootsBucket with
  | None => []
  | Some bucket =>
      match kget (Uint64ToBytesBigEndian target) bucket with
      | Some sr => if (length sr =? 0)%nat then [] else ToBytes32 sr
      | None => []
      end
  end.

(** A bucket that maps each key to one number: [LowestSignedSourceEpoch],
    [LowestSignedTargetEpoch], [LowestSignedProposal] and [HighestSignedProposal] *)
Definition numberOf (publicKey : PubKey) (bucket : B) : Z * bool :=
  let bytes := default [] (kget publicKey bucket) in
  if (length bytes <? 8)%nat then (0, false) else (BytesToUint64BigEndian bytes, true).
Definition kvLowestSignedSourceEpoch (publicKey : PubKey) (db : KvDB) : Z * bool :=
  numberOf publicKey (lowestSignedSourceBucket db).
Definition kvLowestSignedTargetEpoch (publicKey : PubKey) (db : KvDB) : Z * bool :=
  numberOf publicKey (lowestSignedTargetBucket db).

(** [if len(bytes) == 0 || n < number { Put }], and the same with [>] *)
Definition overrideIf (better : Z → Z → bool) (pubKey : PubKey) (n : Z) (bucket : B) : B :=
  let bytes := default [] (kget pubKey bucket) in
  let recorded := if (8 <=? length bytes)%nat then BytesToUint64BigEndian bytes else 0 in
  if (length bytes =? 0)%nat || better n recorded then kput pubKey (Uint64ToBytesBigEndian n) bucket else bucket.

Definition appendAt (k v : list Z) (bucket : B) : B :=
  kput k (match kget k bucket with Some existing => existing ++ v | None => v end) bucket.

(** One record of [saveAttestationRecords] *)
Definition saveAttestationRecord (att : AttestationRecord) (db : KvDB) : KvDB :=
  let pkBucket := default (mkPk None None None) (pubKeysBucket db !! ar_PubKey att) in
  let sourceEpochBytes := Uint64ToBytesBigEndian (ar_Source att) in
  let targetEpochBytes := Uint64ToBytesBigEndian (ar_Target att) in
  let signingRoots := kput targetEpochBytes (ar_SigningRoot att) (default kempty (attestationSigningRootsBucket pkBucket)) in
  let sources := appendAt sourceEpochBytes targetEpochBytes (default kempty (attestationSourceEpochsBucket pkBucket)) in
  let targets := appendAt targetEpochBytes sourceEpochBytes (default kempty (attestationTargetEpochsBucket pkBucket)) in
  mkKv (<[ar_PubKey att := mkPk (Some signingRoots) (Some sources) (Some targets)]> (pubKeysBucket db))
    (overrideIf Z.ltb (ar_PubKey att) (ar_Source att) (lowestSignedSourceBucket db))
    (overrideIf Z.ltb (ar_PubKey att) (ar_Target att) (lowestSignedTargetBucket db))
    (historicProposalsBucket db) (lowestSignedProposalsBucket db) (highestSignedProposalsBucket db).
Definition saveAttestationRecords (atts : list AttestationRecord) (db : KvDB) : KvDB :=
  foldl (λ db att, saveAttestationRecord att db) db atts.

(** ** The check of an attestation request, up to the hand-over of its record *)

(** The record that [SaveAttestationForPubKey] sends to the goroutine that writes batches *)
Definition recordToSave (pubKey : PubKey) (signingRoot : Root) (att : IndexedAtt) : gores AttestationRecord :=
  source ← sourceEpoch att; target ← targetEpoch att;
  Ok (mkRecord pubKey source target signingRoot).

(** [SlashableAttestationCheck] reads the database and refuses, or ends in
    [SaveAttestationForPubKey] with this record. *)
Definition attestationToSave (indexedAtt : IndexedAtt) (pubKey : PubKey) (signingRoot : Root) (db : KvDB) : gores AttestationRecord :=
  let '(lowestSourceEpoch, exists_) := kvLowestSignedSourceEpoch pubKey db in
  (if exists_ : bool then s ← sourceEpoch indexedAtt;
     if s <? lowestSourceEpoch then Err errSignAttestation else Ok tt
   else Ok tt);;
  target ← targetEpoch indexedAtt;
  let signingRootsDiffer := SigningRootsDiffer (kvSigningRootAtTargetEpoch pubKey target db) signingRoot in
  let '(lowestTargetEpoch, exists_) := kvLowestSignedTargetEpoch pubKey db in
  if signingRootsDiffer && exists_ && (target <=? lowestTargetEpoch) then Err errSignAttestation
  else
    match CheckSlashableAttestation pubKey signingRoot indexedAtt db with
    | Ok _ => recordToSave pubKey signingRoot indexedAtt
    | Err _ => Err errLocalProtection
    | Panic => Panic
    | OutOfFuel => OutOfFuel
    end.

(** The whole call.  [SaveAttestationForPubKey] sends the record and waits for the feed of
    finished flushes: [wait] is what the goroutine does to the database until the
    notification arrives, and the error it carries.  KvBatch.v has the goroutine and the
    calls as they interleave. *)
Definition kvSlashableAttestationCheck (wait : AttestationRecord → M KvDB unit)
    (indexedAtt : IndexedAtt) (pubKey : PubKey) (signingRoot : Root) : M KvDB unit :=
  db ← mget; r ← mlift (attestationToSave indexedAtt pubKey signingRoot db); wait r.
(** The wait of a call that comes while the goroutine is idle and nothing fails: the flush
    that ends it writes its record ([idle_call] in KvBatch.v is the run). *)
Definition flushedAlone (r : AttestationRecord) : M KvDB unit := mmodify (saveAttestationRecords [r]).

(** [SaveAttestationsForPubKey]: the batch of an import, written at once *)
Definition kvSaveAttestationsForPubKey (pubKey : PubKey) (signingRoots : list (list Z)) (atts : list IndexedAtt) : M KvDB unit :=
  if negb (length signingRoots =? length atts)%nat then mfail errMessage
  else
    records ← mfold (zip signingRoots atts) [] (λ records ra,
      source ← mlift (sourceEpoch ra.2); target ← mlift (targetEpoch ra.2);
      mret (records ++ [mkRecord pubKey source target ra.1]));
    mmodify (saveAttestationRecords records).

(** [sourceEpochsBucket.ForEach]; a missing bucket is a nil pointer *)
Fixpoint attestationHistory_loop (pubKey : PubKey) (signingRootsBucket : B) (entries : list (list Z * list Z))
    : gores (list AttestationRecord) :=
  match entries with
  | [] => Ok []
  | (sourceBytes, targetEpochsList) :: entries' =>
      targetEpochs ← attestedEpochs targetEpochsList;
      let sourceEpoch := BytesToUint64BigEndian sourceBytes in
      records ← attestationHistory_loop pubKey signingRootsBucket entries';
      Ok (((λ target,
        let signingRoot := default [] (kget (Uint64ToBytesBigEndian target) signingRootsBucket) in
        mkRecord pubKey sourceEpoch target (if (length signingRoot =? 0)%nat then [] else ToBytes32 signingRoot))
        <$> targetEpochs) ++ records)
  end.
Definition kvAttestationHistoryForPubKey (pubKey : PubKey) (db : KvDB) : gores (list AttestationRecord) :=
  match pubKeysBucket db !! pubKey with
  | None => Ok []
  | Some pkBucket =>
      match attestationSourceEpochsBucket pkBucket, attestationSigningRootsBucket pkBucket with
      | Some sourceEpochsBucket, Some signingRootsBucket =>
          attestationHistory_loop pubKey signingRootsBucket (kentries sourceEpochsBucket)
      | _, _ => Panic
      end
  end.

(** ** Proposals *)
Definition kvProposalHistoryForPubKey (publicKey : PubKey) (db : KvDB) : list (Z * Root) :=
  match historicProposalsBucket db !! publicKey with
  | None => []
  | Some valBucket => (λ kv, (BytesToUint64BigEndian kv.1, ToBytes32 kv.2)) <$> kentries valBucket
  end.

Definition kvProposalHistoryForSlot (publicKey : PubKey) (slot : Z) (db : KvDB) : Root * bool * bool :=
  match historicProposalsBucket db !! publicKey ≫= kget (Uint64ToBytesBigEndian slot) with
  | None => (replicate 32 0, false, false)
  | Some signingRootBytes =>
      if (length signingRootBytes =? 0)%nat then (replicate 32 0, true, false)
      else (ToBytes32 signingRootBytes, true, true)
  end.
Definition kvLowestSignedProposal (publicKey : PubKey) (db : KvDB) : Z * bool :=
  numberOf publicKey (lowestSignedProposalsBucket db).
Definition kvHighestSignedProposal (publicKey : PubKey) (db : KvDB) : Z * bool :=
  numberOf publicKey (highestSignedProposalsBucket db).

(** [for k, _ := c.First(); k != nil; k, _ = c.First()]; the fuel is the number of keys. *)
Fixpoint pruneProposals_loop (fuel : nat) (newestSlot : Z) (valBucket : B) : gores B :=
  match kentries valBucket with
  | [] => Ok valBucket
  | (k, _) :: _ =>
      epoch ← ToEpoch (BytesToUint64BigEndian k);
      newestEpoch ← ToEpoch newestSlot;
      if (epoch +64 WeakSubjectivityPeriod) <=? newestEpoch then
        match fuel with
        | O => OutOfFuel
        | S fuel' => pruneProposals_loop fuel' newestSlot (kdelete k valBucket)
        end
      else Ok valBucket
  end.
Definition pruneProposalHistoryBySlot (valBucket : B) (newestSlot : Z) : gores B :=
  pruneProposals_loop (length (kentries valBucket)) newestSlot valBucket.

Definition SaveProposalHistoryForSlot (pubKey : PubKey) (slot : Z) (signingRoot : list Z) : M KvDB unit :=
  db ← mget;
  let valBucket := default kempty (historicProposalsBucket db !! pubKey) in
  let lowest := overrideIf Z.ltb pubKey slot (lowestSignedProposalsBucket db) in
  let highest := overrideIf Z.gtb pubKey slot (highestSignedProposalsBucket db) in
  let valBucket := kput (Uint64ToBytesBigEndian slot) signingRoot valBucket in
  valBucket ← mlift (pruneProposalHistoryBySlot valBucket slot);
  mmodify (λ db, mkKv (pubKeysBucket db) (lowestSignedSourceBucket db) (lowestSignedTargetBucket db)
    (<[pubKey := valBucket]> (historicProposalsBucket db)) lowest highest).

Definition kvSlashableProposalCheck (pubKey : PubKey) (slot : Z) (signingRoot : Root) : M KvDB unit :=
  db ← mget;
  let '(prevSigningRoot, proposalAtSlotExists, prevSigningRootExists) := kvProposalHistoryForSlot pubKey slot db in
  let '(lowestSignedProposalSlot, lowestProposalExists) := kvLowestSignedProposal pubKey db in
  let differs := negb (bool_decide (prevSigningRoot = signingRoot)) in
  let condition1 := negb proposalAtSlotExists in
  let condition2 := proposalAtSlotExists && negb prevSigningRootExists in
  let condition3 := proposalAtSlotExists && prevSigningRootExists && differs in
  if lowestProposalExists && (slot <? lowestSignedProposalSlot) then mfail errSignProposal
  else if lowestProposalExists && ((slot =? lowestSignedProposalSlot) && (condition1 || condition2 || condition3))
  then mfail errSignProposal
  else if proposalAtSlotExists && (negb prevSigningRootExists || differs) then mfail errLocalProtection
  else SaveProposalHistoryForSlot pubKey slot signingRoot.
End kv.
