(* ===== verification/KvFacts.v ===== *)
(** * The complete database: what its buckets know of the messages it accepted *)
From S2P Require Import Prelude MathHelper Primitives Config SlotTime Shuffle MerkleTrie Protection KvProtection.

(** ** Buckets that index pairs of epochs *)
Lemma StronglySorted_reverse {A} (R : A → A → Prop) l : StronglySorted R l → StronglySorted (flip R) (reverse l).
Proof.
  induction 1 as [|x l Hl IH Hx]; [constructor|]. rewrite reverse_cons.
  apply StronglySorted_app; split_and!; [|done|by repeat constructor].
  intros a b Ha Hb. apply list_elem_of_singleton in Hb as ->. rewrite elem_of_reverse in Ha.
  rewrite Forall_forall in Hx. by apply Hx.
Qed.

(** The value under which a list of epochs is stored *)
Fixpoint encodeEpochs (xs : list Z) : list Z :=
  match xs with [] => [] | x :: xs' => Uint64ToBytesBigEndian x ++ encodeEpochs xs' end.
Lemma encodeEpochs_app xs ys : encodeEpochs (xs ++ ys) = encodeEpochs xs ++ encodeEpochs ys.
Proof. induction xs as [|x xs IH]; [done|]. cbn [app encodeEpochs]. by rewrite IH, app_assoc. Qed.

Lemma attestedEpochs_encode (xs : list Z) : Forall is_u64 xs → attestedEpochs (encodeEpochs xs) = Ok xs.
Proof.
  induction 1 as [|x xs Hx Hxs IH]; [done|]. cbn [encodeEpochs].
  destruct (be_bytes_ok x) as [_ Hl]. pose proof (BytesToUint64BigEndian_inv x Hx) as Hinv.
  destruct (Uint64ToBytesBigEndian x) as [|a [|b [|c [|d [|e [|f [|g [|h [|]]]]]]]]]; try done.
  cbn [app attestedEpochs]. rewrite IH. cbn [mbind gores_bind]. by rewrite Hinv.
Qed.
Lemma firstHit_existsb {A} (test : A → gores bool) (t : A → bool) l :
  (∀ x, test x = Ok (t x)) → firstHit test l = Ok (existsb t l).
Proof. intros Ht. induction l as [|x l IH]; cbn; [done|]. rewrite Ht. cbn. by destruct (t x). Qed.

Section buckets.
Context {B : Type} `{KVBucketLaws B}.

(** The bucket [b] lists, under each first epoch, exactly the second epochs it occurs with. *)
Record indexes (b : B) (ps : list (Z * Z)) : Prop := {
  ix_sound k v : kget k b = Some v → ∃ a xs, is_u64 a ∧ k = Uint64ToBytesBigEndian a ∧
    v = encodeEpochs xs ∧ Forall is_u64 xs ∧ ∀ x, x ∈ xs ↔ (a, x) ∈ ps;
  ix_complete a x : (a, x) ∈ ps → is_u64 a ∧ is_u64 x ∧ is_Some (kget (Uint64ToBytesBigEndian a) b) }.

Lemma indexes_empty : indexes kempty [].
Proof. split; [intros k v; by rewrite kget_empty|intros a x Hin; by apply not_elem_of_nil in Hin]. Qed.

Lemma indexes_append b ps a x : is_u64 a → is_u64 x → indexes b ps →
  indexes (appendAt (Uint64ToBytesBigEndian a) (Uint64ToBytesBigEndian x) b) ((a, x) :: ps).
Proof.
  intros Ha Hx [Hs Hc]. unfold appendAt. split.
  - intros k v. destruct (decide (k = Uint64ToBytesBigEndian a)) as [->|Hne].
    + rewrite kget_put_eq. intros [= <-].
      destruct (kget (Uint64ToBytesBigEndian a) b) as [v0|] eqn:E.
      * destruct (Hs _ _ E) as (a'&xs&Ha'&Hk&->&Hu&Hxs). apply Uint64ToBytesBigEndian_inj in Hk as <-; [|done..].
        exists a, (xs ++ [x]). split_and!; [done|done| |by apply Forall_app_2; [|constructor]|].
        -- rewrite encodeEpochs_app. cbn. by rewrite app_nil_r.
        -- intros y. rewrite elem_of_app, list_elem_of_singleton, elem_of_cons, Hxs. naive_solver.
      * exists a, [x]. split_and!; [done|done|cbn; by rewrite app_nil_r|by constructor|].
        intros y. rewrite list_elem_of_singleton, elem_of_cons. split; [naive_solver|].
        intros [[= ->]|Hin]; [done|]. destruct (Hc _ _ Hin) as (_&_&[v Hv]). congruence.
    + rewrite kget_put_ne by done. intros E. destruct (Hs _ _ E) as (a'&xs&Ha'&->&->&Hu&Hxs).
      exists a', xs. split_and!; try done. intros y. rewrite Hxs, elem_of_cons. naive_solver.
  - intros a' x' Hin. destruct (decide (a' = a)) as [->|Hne].
    + rewrite kget_put_eq. apply elem_of_cons in Hin as [[= ->]|Hin]; [done|]. split_and!; [done|by eapply Hc|done].
    + apply elem_of_cons in Hin as [[= -> ->]|Hin]; [done|]. destruct (Hc _ _ Hin) as (?&?&?). split_and!; [done..|].
      rewrite kget_put_ne; [done|]. intros E. by apply Uint64ToBytesBigEndian_inj in E.
Qed.

(** Both searches from the back of a bucket are this one. *)
Fixpoint scan (bound : Z) (test : Z → Z → bool) (e : goerr) (entries : list (list Z * list Z)) : gores unit :=
  match entries with
  | [] => Ok tt
  | (k, v) :: entries' =>
      let a := BytesToUint64BigEndian k in
      if a <=? bound then Ok tt
      else xs ← attestedEpochs v; if existsb (test a) xs then Err e else scan bound test e entries'
  end.

Lemma scan_list b ps bound test e l :
  indexes b ps → (∀ k v, (k, v) ∈ l → kget k b = Some v) → StronglySorted (flip bytes_le) l.*1 →
  if existsb (λ '(k, v), let a := BytesToUint64BigEndian k in (bound <? a) &&
       match attestedEpochs v with Ok xs => existsb (test a) xs | _ => false end) l
  then scan bound test e l = Err e else scan bound test e l = Ok tt.
Proof.
  intros Hix. induction l as [|[k v] l IH]; [done|]. intros Hin Hsort. rewrite fmap_cons in Hsort. cbn [fst] in Hsort.
  apply StronglySorted_inv in Hsort as [Hsort Hk]. specialize (IH (λ k' v' Hkv, Hin k' v' (list_elem_of_further _ _ _ Hkv)) Hsort).
  destruct (ix_sound _ _ Hix _ _ (Hin k v (list_elem_of_here _ _))) as (a&xs&Ha&->&->&Hu&_).
  cbn [scan existsb]. cbn zeta. rewrite BytesToUint64BigEndian_inv, attestedEpochs_encode by done. cbn [mbind gores_bind].
  rewrite Z.leb_antisym. destruct (bound <? a) eqn:Hb; cbn [negb andb].
  - destruct (existsb (test a) xs); cbn [orb]; [done|exact IH].
  - cbn [orb]. destruct (existsb _ l) eqn:Hex; [exfalso|done]. apply existsb_exists in Hex as ([k' v']&Hl&Ht).
    apply list_elem_of_In in Hl. apply andb_true_iff in Ht as [Ht _].
    destruct (ix_sound _ _ Hix _ _ (Hin k' v' (list_elem_of_further _ _ _ Hl))) as (a'&_&Ha'&->&_).
    rewrite BytesToUint64BigEndian_inv in Ht by done. apply Z.ltb_lt in Ht. apply Z.ltb_ge in Hb.
    rewrite Forall_forall in Hk. specialize (Hk (Uint64ToBytesBigEndian a')). unfold flip in Hk.
    enough (a' ≤ a) by lia. apply bytes_le_u64; [done..|]. apply Hk. apply list_elem_of_fmap. by exists (Uint64ToBytesBigEndian a', v').
Qed.

Lemma scan_spec b ps bound test e : indexes b ps →
  scan bound test e (reverse (kentries b)) =
  (if existsb (λ '(a, x), (bound <? a) && test a x) ps then Err e else Ok tt).
Proof.
  intros Hix. pose proof (scan_list b ps bound test e (reverse (kentries b)) Hix) as Hs.
  assert (Hin : ∀ k v, (k, v) ∈ reverse (kentries b) → kget k b = Some v).
  { intros k v. by rewrite elem_of_reverse, kentries_spec. }
  specialize (Hs Hin ltac:(rewrite fmap_reverse; apply StronglySorted_reverse, kentries_sorted)).
  destruct (existsb (λ '(a, x), _) ps) eqn:Eps; destruct (existsb _ (reverse _)) eqn:El; try done; exfalso.
  - apply existsb_exists in Eps as ([a x]&Hps&Ht). apply list_elem_of_In in Hps. apply andb_true_iff in Ht as [Hb Ht].
    destruct (ix_complete _ _ Hix _ _ Hps) as (Ha&Hx&[v Hv]). destruct (ix_sound _ _ Hix _ _ Hv) as (a'&xs&Ha'&Hk&->&Hu&Hxs).
    apply Uint64ToBytesBigEndian_inj in Hk as <-; [|done..]. apply not_true_iff_false in El. apply El, existsb_exists.
    exists (Uint64ToBytesBigEndian a, encodeEpochs xs). split.
    + apply list_elem_of_In. by rewrite elem_of_reverse, kentries_spec.
    + cbn zeta. rewrite BytesToUint64BigEndian_inv, attestedEpochs_encode by done. apply andb_true_iff. split; [done|]. apply existsb_exists. exists x.
      split; [|done]. apply list_elem_of_In. by apply Hxs.
  - apply existsb_exists in El as ([k v]&Hl&Ht). apply list_elem_of_In in Hl.
    destruct (ix_sound _ _ Hix _ _ (Hin _ _ Hl)) as (a&xs&Ha&->&->&Hu&Hxs).
    rewrite BytesToUint64BigEndian_inv, attestedEpochs_encode in Ht by done. apply andb_true_iff in Ht as [Hb Ht].
    apply existsb_exists in Ht as (x&Hx&Ht). apply list_elem_of_In, Hxs in Hx. apply not_true_iff_false in Eps. apply Eps, existsb_exists.
    exists (a, x). split; [by apply list_elem_of_In|]. by rewrite Hb, Ht.
Qed.

Lemma surrounding_scan s t l : checkSurroundingVote_loop l (epochsAtt s t) = scan s (λ _ x, x <? t) errSurroundingVote l.
Proof.
  induction l as [|[k v] l IH]; [done|]. cbn [checkSurroundingVote_loop scan epochsAtt sourceEpoch mbind gores_bind]. cbn zeta.
  destruct (BytesToUint64BigEndian k <=? s) eqn:E; [done|]. destruct (attestedEpochs v) as [xs| | |]; cbn [mbind gores_bind]; try done.
  rewrite (firstHit_existsb _ (λ x, x <? t)); [cbn; rewrite IH; done|].
  intros x. unfold IsSurround, epochsAtt. cbn. apply Z.leb_gt in E. by rewrite (proj2 (Z.ltb_lt s _) E).
Qed.
Lemma surrounded_scan s t l : checkSurroundedVote_loop l (epochsAtt s t) = scan t (λ _ x, x <? s) errSurroundedVote l.
Proof.
  induction l as [|[k v] l IH]; [done|]. cbn [checkSurroundedVote_loop scan epochsAtt targetEpoch mbind gores_bind]. cbn zeta.
  destruct (BytesToUint64BigEndian k <=? t) eqn:E; [done|]. destruct (attestedEpochs v) as [xs| | |]; cbn [mbind gores_bind]; try done.
  rewrite (firstHit_existsb _ (λ x, x <? s)); [cbn; rewrite IH; done|].
  intros x. unfold IsSurround, epochsAtt. cbn. apply Z.leb_gt in E. rewrite (proj2 (Z.ltb_lt t _) E). by destruct (x <? s).
Qed.

(** ** Buckets that hold one number per key *)
Lemma numberOf_put n pk b : is_u64 n → numberOf pk (kput pk (Uint64ToBytesBigEndian n) b) = (n, true).
Proof.
  intros Hn. unfold numberOf. rewrite kget_put_eq. cbn [default]. destruct (be_bytes_ok n) as [_ Hl]. cbn. rewrite Hl. cbn.
  by rewrite BytesToUint64BigEndian_inv.
Qed.

(** The recorded number is the [better]-most of [ns]. *)
Definition extremum (better : Z → Z → bool) (b : B) (pk : PubKey) (ns : list Z) : Prop :=
  match ns with
  | [] => kget pk b = None
  | _ => ∃ m, is_u64 m ∧ kget pk b = Some (Uint64ToBytesBigEndian m) ∧ m ∈ ns ∧ ∀ n, n ∈ ns → better n m = false
  end.
Lemma extremum_numberOf better b pk ns : extremum better b pk ns →
  (ns = [] ∧ numberOf pk b = (0, false)) ∨
  (∃ m, numberOf pk b = (m, true) ∧ m ∈ ns ∧ ∀ n, n ∈ ns → better n m = false).
Proof.
  unfold extremum. destruct ns as [|n ns].
  - intros E. left. split; [done|]. unfold numberOf. by rewrite E.
  - intros (m&Hm&E&Hin&Hall). right. exists m. split; [|done]. unfold numberOf. rewrite E. cbn [default].
    destruct (be_bytes_ok m) as [_ Hl]. cbn. rewrite Hl. cbn. by rewrite BytesToUint64BigEndian_inv.
Qed.
Lemma overrideIf_extremum better b pk n ns :
  (∀ x, better x x = false) → (∀ x y z, better x y = false → better z y = true → better x z = false) →
  is_u64 n → extremum better b pk ns → extremum better (overrideIf better pk n b) pk (n :: ns).
Proof.
  intros Hirr Htr Hn He. unfold overrideIf. unfold extremum in *. destruct ns as [|n0 ns].
  - rewrite He. cbn. exists n. rewrite kget_put_eq. split_and!; [done..|by left|].
    intros x Hx. apply list_elem_of_singleton in Hx as ->. apply Hirr.
  - destruct He as (m&Hm&E&Hin&Hall). rewrite E. cbn [default]. destruct (be_bytes_ok m) as [_ Hl]. cbn. rewrite Hl. cbn.
    rewrite BytesToUint64BigEndian_inv by done. destruct (better n m) eqn:Hb.
    + exists n. rewrite kget_put_eq. split_and!; [done..|by left|]. intros x Hx.
      apply elem_of_cons in Hx as [->|Hx]; [apply Hirr|]. by eapply Htr; [apply Hall|].
    + exists m. split_and!; [done|done|by right|]. intros x Hx. apply elem_of_cons in Hx as [->|Hx]; [done|by apply Hall].
Qed.
Lemma overrideIf_other better b pk pk' n : pk ≠ pk' → kget pk (overrideIf better pk' n b) = kget pk b.
Proof. intros Hne. unfold overrideIf. destruct (_ || _); [|done]. by rewrite kget_put_ne. Qed.
Lemma extremum_other better b b' pk ns : kget pk b' = kget pk b → extremum better b pk ns → extremum better b' pk ns.
Proof. intros E. unfold extremum. by rewrite E. Qed.
End buckets.

(** ** The complete database on attestations: EIP-3076's rule, exactly *)
(** EIP-3076's conditions for signing [v] after the attestations [h] of the same key: no
    double vote and no surround vote with any of them, a source not below their lowest
    source, and a target above their lowest target unless [v] repeats a signature. *)
Definition eip3076_allows (h : list vote) (v : vote) : bool :=
  negb (existsb (conflict v) h) &&
  (bool_decide (h = []) || existsb (λ w, v_source w <=? v_source v) h) &&
  (bool_decide (h = []) || existsb (λ w, v_target w <? v_target v) h ||
   existsb (λ w, (v_target w =? v_target v) && bool_decide (v_root w = v_root v)) h).

Definition vote_ok (v : vote) : Prop := is_u64 (v_source v) ∧ is_u64 (v_target v) ∧ length (v_root v) = 32%nat.

Section attest.
Context {B : Type} `{KVBucketLaws B} `{cfg : BeaconChainConfig} `{WeakSubjectivity}.
Implicit Types db : KvDB (B := B).

Definition pkOf db (pk : PubKey) : PkBucket := default (mkPk None None None) (pubKeysBucket db !! pk).
Definition rootsOf (p : PkBucket) : B := default kempty (attestationSigningRootsBucket p).
Definition sourcesOf (p : PkBucket) : B := default kempty (attestationSourceEpochsBucket p).
Definition targetsOf (p : PkBucket) : B := default kempty (attestationTargetEpochsBucket p).

(** The buckets of [pk] hold the attestations [h] and nothing else. *)
Record tracksA db (pk : PubKey) (h : list vote) : Prop := {
  ta_ok : Forall vote_ok h;
  ta_shape : pubKeysBucket db !! pk = None ∨
    ∃ br bs bt, pubKeysBucket db !! pk = Some (mkPk (Some br) (Some bs) (Some bt));
  ta_roots t r : is_u64 t →
    kget (Uint64ToBytesBigEndian t) (rootsOf (pkOf db pk)) = Some r ↔ ∃ w, w ∈ h ∧ v_target w = t ∧ v_root w = r;
  ta_sources : indexes (sourcesOf (pkOf db pk)) ((λ w, (v_source w, v_target w)) <$> h);
  ta_targets : indexes (targetsOf (pkOf db pk)) ((λ w, (v_target w, v_source w)) <$> h);
  ta_lowSource : extremum Z.ltb (lowestSignedSourceBucket db) pk (v_source <$> h);
  ta_lowTarget : extremum Z.ltb (lowestSignedTargetBucket db) pk (v_target <$> h) }.

Lemma tracksA_new pk : tracksA NewKVStore pk [].
Proof.
  assert (Hpk : pkOf NewKVStore pk = mkPk None None None) by (unfold pkOf, NewKVStore; cbn [pubKeysBucket]; by rewrite lookup_empty).
  split; rewrite ?Hpk; try apply indexes_empty; try apply kget_empty.
  - constructor.
  - left. apply lookup_empty.
  - intros t r Ht. cbn. rewrite kget_empty. split; [done|]. intros (w&Hin&_). by apply not_elem_of_nil in Hin.
Qed.

Lemma ltb_extremum_laws : (∀ x, (x <? x) = false) ∧ ∀ x y z, (x <? y) = false → (z <? y) = true → (x <? z) = false.
Proof. split; [apply Z.ltb_irrefl|]. intros x y z Hxy Hzy. lia. Qed.

(** ** Saving *)
Lemma tracksA_save db pk h v : tracksA db pk h → vote_ok v → (∀ w, w ∈ h → conflict v w = false) →
  tracksA (saveAttestationRecords [mkRecord pk (v_source v) (v_target v) (v_root v)] db) pk (v :: h).
Proof.
  intros [Hok Hshape Hroots Hsrc Htgt Hls Hlt] (Hs&Ht&Hr) Hc. destruct ltb_extremum_laws as [Hirr Htr].
  cbn [saveAttestationRecords foldl]. unfold saveAttestationRecord. cbn [ar_PubKey ar_Source ar_Target ar_SigningRoot]. fold (pkOf db pk).
  split; cbn [pubKeysBucket lowestSignedSourceBucket lowestSignedTargetBucket].
  - by constructor.
  - right. rewrite lookup_insert_eq. by do 3 eexists.
  - intros t r Hu. unfold pkOf at 1. cbn [pubKeysBucket]. rewrite lookup_insert_eq. cbn [default from_option rootsOf attestationSigningRootsBucket].
    change (default kempty (attestationSigningRootsBucket (pkOf db pk))) with (rootsOf (pkOf db pk)).
    destruct (decide (t = v_target v)) as [->|Hne].
    + unfold rootsOf at 1. cbn. rewrite kget_put_eq. split.
      * intros [= <-]. exists v. split_and!; [by left|done..].
      * intros (w&Hin&Ew&Er). apply elem_of_cons in Hin as [->|Hin]; [by rewrite Er|].
        specialize (Hc w Hin). unfold conflict, double_vote in Hc. rewrite Ew, Z.eqb_refl in Hc.
        destruct (decide (v_root v = v_root w)) as [E|E]; [congruence|]. rewrite bool_decide_eq_false_2 in Hc by done. done.
    + unfold rootsOf at 1. cbn. rewrite kget_put_ne by (intros E; by apply Uint64ToBytesBigEndian_inj in E).
      change (default kempty (attestationSigningRootsBucket (pkOf db pk))) with (rootsOf (pkOf db pk)). rewrite Hroots by done.
      split; intros (w&Hin&Ew&Er); exists w; [split_and!; [by right|done..]|].
      apply elem_of_cons in Hin as [->|Hin]; [congruence|done].
  - unfold pkOf at 1. cbn [pubKeysBucket]. rewrite lookup_insert_eq. by apply indexes_append.
  - unfold pkOf at 1. cbn [pubKeysBucket]. rewrite lookup_insert_eq. by apply indexes_append.
  - rewrite fmap_cons. by apply overrideIf_extremum.
  - rewrite fmap_cons. by apply overrideIf_extremum.
Qed.

Lemma tracksA_other db pk pk' h r : pk ≠ pk' → ar_PubKey r = pk' → tracksA db pk h → tracksA (saveAttestationRecords [r] db) pk h.
Proof.
  intros Hne Hr [Hok Hshape Hroots Hsrc Htgt Hls Hlt]. cbn [saveAttestationRecords foldl]. unfold saveAttestationRecord. rewrite Hr.
  assert (Hpk : pkOf (saveAttestationRecords [r] db) pk = pkOf db pk).
  { unfold pkOf. cbn. rewrite Hr. by rewrite lookup_insert_ne. }
  cbn [saveAttestationRecords foldl] in Hpk. unfold saveAttestationRecord in Hpk. rewrite Hr in Hpk.
  split; rewrite ?Hpk; try done; cbn [pubKeysBucket lowestSignedSourceBucket lowestSignedTargetBucket].
  - by rewrite lookup_insert_ne.
  - eapply extremum_other; [|exact Hls]. by apply overrideIf_other.
  - eapply extremum_other; [|exact Hlt]. by apply overrideIf_other.
Qed.

(** ** Checking *)
Lemma existsb_fmap {A C} (f : A → C) (p : C → bool) l : existsb p (f <$> l) = existsb (λ x, p (f x)) l.
Proof. induction l as [|x l IH]; cbn; [done|]. by rewrite IH. Qed.

Lemma existsb_conflict v h : existsb (conflict v) h =
  existsb (double_vote v) h || existsb (surrounds v) h || existsb (λ w, surrounds w v) h.
Proof.
  induction h as [|w h IH]; cbn; [done|]. rewrite IH. unfold conflict.
  destruct (double_vote v w), (surrounds v w), (surrounds w v), (existsb (double_vote v) h), (existsb (surrounds v) h); done.
Qed.

Lemma tracksA_double db pk h v : tracksA db pk h → vote_ok v →
  existsb (double_vote v) h =
  match kget (Uint64ToBytesBigEndian (v_target v)) (rootsOf (pkOf db pk)) with
  | Some existing => (length existing =? 0)%nat || SigningRootsDiffer existing (v_root v)
  | None => false
  end.
Proof.
  intros Ht (Hs&Htgt&Hr). destruct (kget _ _) as [r|] eqn:E.
  - apply (ta_roots _ _ _ Ht) in E as (w&Hin&Ew&<-); [|done].
    assert (Hl : length (v_root w) = 32%nat) by (pose proof (ta_ok _ _ _ Ht) as Hok; rewrite Forall_forall in Hok; by apply Hok).
    unfold SigningRootsDiffer. rewrite Hl. cbn. case_bool_decide as Heq; cbn.
    + apply not_true_iff_false. intros (w'&Hin'&Hd)%existsb_exists. apply list_elem_of_In in Hin'.
      unfold double_vote in Hd. apply andb_true_iff in Hd as [Et Hd]. apply Z.eqb_eq in Et.
      assert (E1 : kget (Uint64ToBytesBigEndian (v_target v)) (rootsOf (pkOf db pk)) = Some (v_root w')).
      { apply (ta_roots _ _ _ Ht); [done|]. by exists w'. }
      assert (E2 : kget (Uint64ToBytesBigEndian (v_target v)) (rootsOf (pkOf db pk)) = Some (v_root w)).
      { apply (ta_roots _ _ _ Ht); [done|]. by exists w. }
      rewrite bool_decide_eq_true_2 in Hd; [done|congruence].
    + apply existsb_exists. exists w. split; [by apply list_elem_of_In|]. unfold double_vote.
      rewrite Ew, Z.eqb_refl, bool_decide_eq_false_2 by done. done.
  - apply not_true_iff_false. intros (w&Hin&Hd)%existsb_exists. apply list_elem_of_In in Hin.
    unfold double_vote in Hd. apply andb_true_iff in Hd as [Et _]. apply Z.eqb_eq in Et.
    assert (kget (Uint64ToBytesBigEndian (v_target v)) (rootsOf (pkOf db pk)) = Some (v_root w)); [|congruence].
    apply (ta_roots _ _ _ Ht); [done|]. by exists w.
Qed.

Lemma kvCheckSlashable_spec db pk h v : tracksA db pk h → vote_ok v →
  is_ok (CheckSlashableAttestation pk (v_root v) (attOf v) db) = negb (existsb (conflict v) h) ∧
  (existsb (conflict v) h = true → ∃ e, CheckSlashableAttestation pk (v_root v) (attOf v) db = Err e).
Proof.
  intros Ht Hv. rewrite existsb_conflict. pose proof (tracksA_double db pk h v Ht Hv) as Hd.
  pose proof (scan_spec _ _ (v_source v) (λ _ x, x <? v_target v) errSurroundingVote (ta_sources _ _ _ Ht)) as Hsing.
  pose proof (scan_spec _ _ (v_target v) (λ _ x, x <? v_source v) errSurroundedVote (ta_targets _ _ _ Ht)) as Hsded.
  rewrite existsb_fmap in Hsing, Hsded.
  assert (E1 : existsb (surrounds v) h = existsb (λ x, (v_source v <? v_source x) && (v_target x <? v_target v)) h) by done.
  assert (E2 : existsb (λ w, surrounds w v) h = existsb (λ x, (v_target v <? v_target x) && (v_source x <? v_source v)) h).
  { clear. induction h as [|w h IH]; cbn; [done|]. rewrite IH. unfold surrounds. by rewrite andb_comm. }
  rewrite <-E1 in Hsing. rewrite <-E2 in Hsded. rewrite <-surrounding_scan in Hsing. rewrite <-surrounded_scan in Hsded.
  unfold CheckSlashableAttestation, checkSurroundingVote, checkSurroundedVote.
  destruct (ta_shape _ _ _ Ht) as [E|(br&bs&bt&E)].
  - unfold pkOf in *. rewrite E in *. cbn in Hd, Hsing, Hsded. rewrite kget_empty in Hd. rewrite Hd.
    assert (Hnil : h = []).
    { destruct h as [|w h]; [done|]. destruct (ix_complete _ _ (ta_sources _ _ _ Ht) (v_source w) (v_target w)) as (_&_&[? Hk]).
      - apply list_elem_of_fmap. exists w. split; [done|by left].
      - unfold pkOf in Hk. rewrite E in Hk. cbn in Hk. by rewrite kget_empty in Hk. }
    subst h. by cbn.
  - unfold pkOf in *. rewrite E in *. cbn in Hd, Hsing, Hsded |- *. rewrite Hd. change (attOf v) with (epochsAtt (v_source v) (v_target v)).
    rewrite Hsing, Hsded. destruct (kget _ br) as [r|]; [destruct ((length r =? 0)%nat || SigningRootsDiffer r (v_root v))|];
      destruct (existsb (surrounds v) h), (existsb (λ w, surrounds w v) h); cbn; split; try done; by eexists.
Qed.

(** The two comparisons with the lowest recorded epochs *)
Lemma lowest_below db pk ns b n : extremum Z.ltb b pk ns →
  (numberOf pk b).2 && (n <? (numberOf pk b).1) = negb (bool_decide (ns = []) || existsb (λ m, m <=? n) ns) ∧
  (numberOf pk b).2 && (n <=? (numberOf pk b).1) = negb (bool_decide (ns = []) || existsb (λ m, m <? n) ns).
Proof.
  intros He. destruct (extremum_numberOf _ _ _ _ He) as [[-> ->]|(m&->&Hin&Hall)]; [done|]. cbn [fst snd andb].
  rewrite bool_decide_eq_false_2 by (intros ->; by apply not_elem_of_nil in Hin). cbn [orb]. split.
  - destruct (existsb _ ns) eqn:Hex; cbn [negb].
    + apply existsb_exists in Hex as (k&Hk&Hle). apply list_elem_of_In in Hk. specialize (Hall k Hk). lia.
    + apply Z.ltb_lt. apply not_true_iff_false in Hex. destruct (Z.ltb_spec n m); [done|]. exfalso. apply Hex, existsb_exists.
      exists m. split; [by apply list_elem_of_In|lia].
  - destruct (existsb _ ns) eqn:Hex; cbn [negb].
    + apply existsb_exists in Hex as (k&Hk&Hle). apply list_elem_of_In in Hk. specialize (Hall k Hk). lia.
    + apply Z.leb_le. apply not_true_iff_false in Hex. destruct (Z.leb_spec n m); [done|]. exfalso. apply Hex, existsb_exists.
      exists m. split; [by apply list_elem_of_In|lia].
Qed.

Lemma SigningRoot_repeat db pk h v : tracksA db pk h → vote_ok v →
  (∀ w, w ∈ h → conflict v w = false) →
  SigningRootsDiffer (kvSigningRootAtTargetEpoch pk (v_target v) db) (v_root v) =
  negb (existsb (λ w, (v_target w =? v_target v) && bool_decide (v_root w = v_root v)) h).
Proof.
  intros Ht (Hs&Htgt&Hr) Hc. unfold kvSigningRootAtTargetEpoch.
  assert (E : (pubKeysBucket db !! pk ≫= attestationSigningRootsBucket) = None ∧ rootsOf (pkOf db pk) = kempty ∨
              (pubKeysBucket db !! pk ≫= attestationSigningRootsBucket) = Some (rootsOf (pkOf db pk))).
  { unfold pkOf. destruct (ta_shape _ _ _ Ht) as [->|(br&bs&bt&->)]; [by left|by right]. }
  assert (Hno : kget (Uint64ToBytesBigEndian (v_target v)) (rootsOf (pkOf db pk)) = None →
    existsb (λ w, (v_target w =? v_target v) && bool_decide (v_root w = v_root v)) h = false).
  { intros En. apply not_true_iff_false. intros (w&Hin&Hd)%existsb_exists. apply list_elem_of_In in Hin.
    apply andb_true_iff in Hd as [Et _]. apply Z.eqb_eq in Et.
    assert (kget (Uint64ToBytesBigEndian (v_target v)) (rootsOf (pkOf db pk)) = Some (v_root w)); [|congruence].
    apply (ta_roots _ _ _ Ht); [done|]. by exists w. }
  destruct E as [[-> Ek]| ->].
  - rewrite Hno; [done|]. by rewrite Ek, kget_empty.
  - destruct (kget _ _) as [r|] eqn:Er; [|by rewrite Hno].
    apply (ta_roots _ _ _ Ht) in Er as (w&Hin&Ew&<-); [|done].
    assert (Hl : length (v_root w) = 32%nat) by (pose proof (ta_ok _ _ _ Ht) as Hok; rewrite Forall_forall in Hok; by apply Hok).
    rewrite Hl. cbn [Nat.eqb]. rewrite ToBytes32_id by done.
    assert (Heq : v_root v = v_root w).
    { specialize (Hc w Hin). unfold conflict, double_vote in Hc. rewrite Ew, Z.eqb_refl in Hc. cbn in Hc.
      apply dec_stable. intros Hne. by rewrite bool_decide_eq_false_2 in Hc. }
    unfold SigningRootsDiffer. rewrite Hl. cbn [Nat.eqb]. rewrite bool_decide_eq_true_2 by done.
    symmetry. apply negb_false_iff, existsb_exists. exists w. split; [by apply list_elem_of_In|].
    rewrite Ew, Z.eqb_refl. by rewrite bool_decide_eq_true_2.
Qed.

(** The record of a vote *)
Definition voteRecord (pk : PubKey) (v : vote) : AttestationRecord := mkRecord pk (v_source v) (v_target v) (v_root v).

Lemma attestationToSave_spec db pk h v : tracksA db pk h → vote_ok v →
  if eip3076_allows h v then attestationToSave (attOf v) pk (v_root v) db = Ok (voteRecord pk v)
  else ∃ e, attestationToSave (attOf v) pk (v_root v) db = Err e.
Proof.
  intros Ht Hv. unfold attestationToSave, kvLowestSignedSourceEpoch, kvLowestSignedTargetEpoch.
  destruct (lowest_below db pk _ _ (v_source v) (ta_lowSource _ _ _ Ht)) as [Hls _].
  destruct (lowest_below db pk _ _ (v_target v) (ta_lowTarget _ _ _ Ht)) as [_ Hlt].
  rewrite existsb_fmap in Hls, Hlt.
  destruct (kvCheckSlashable_spec db pk h v Ht Hv) as [Hcs Hcerr].
  assert (Hnil : ∀ (f : vote → Z), bool_decide (f <$> h = []) = bool_decide (h = [])).
  { intros f. apply bool_decide_ext. split; [apply fmap_nil_inv|by intros ->]. }
  rewrite Hnil in Hls, Hlt. unfold eip3076_allows.
  destruct (numberOf pk (lowestSignedSourceBucket db)) as [ls es], (numberOf pk (lowestSignedTargetBucket db)) as [lt et].
  cbn [fst snd] in Hls, Hlt. cbn.
  destruct (existsb (conflict v) h) eqn:Ec; cbn [negb andb] in *.
  { destruct (Hcerr eq_refl) as [e ->]. destruct es; [destruct (v_source v <? ls)|]; cbn; try (by eexists).
    - destruct (_ && _ && _); by eexists.
    - destruct (_ && _ && _); by eexists. }
  assert (Hno : ∀ w, w ∈ h → conflict v w = false).
  { intros w Hin. apply not_true_iff_false. intros Hw. apply not_true_iff_false in Ec. apply Ec, existsb_exists.
    exists w. split; [by apply list_elem_of_In|done]. }
  rewrite (SigningRoot_repeat db pk h v Ht Hv Hno).
  destruct (CheckSlashableAttestation pk (v_root v) (attOf v) db) as [[]| | |]; try done.
  rewrite <-andb_assoc, Hlt. apply (f_equal negb) in Hls. rewrite negb_involutive in Hls. rewrite <-Hls. clear Hls Hlt.
  assert (Hgo : ∀ rep new : bool,
    if new || rep then (if negb rep && negb new then Err errSignAttestation else recordToSave pk (v_root v) (attOf v)) = Ok (voteRecord pk v)
    else ∃ e, (if negb rep && negb new then Err errSignAttestation else recordToSave pk (v_root v) (attOf v)) = Err e).
  { intros [] []; cbn; try done. by eexists. }
  destruct es; [destruct (v_source v <? ls)|]; cbn; [by eexists|apply Hgo..].
Qed.

Lemma kvAttestation_spec db pk h v : tracksA db pk h → vote_ok v →
  if eip3076_allows h v
  then kvSlashableAttestationCheck flushedAlone (attOf v) pk (v_root v) db = (Ok tt, saveAttestationRecords [voteRecord pk v] db)
  else ∃ e, kvSlashableAttestationCheck flushedAlone (attOf v) pk (v_root v) db = (Err e, db).
Proof.
  intros Ht Hv. pose proof (attestationToSave_spec db pk h v Ht Hv) as Hs.
  unfold kvSlashableAttestationCheck, mget, mbind, M_bind, mlift.
  destruct (eip3076_allows h v); [by rewrite Hs|]. destruct Hs as [e ->]. by exists e.
Qed.

(** ** Reading back *)
Lemma history_loop_spec pk br bs ps l : indexes bs ps → (∀ k v, (k, v) ∈ l → kget k bs = Some v) →
  ∃ rs, attestationHistory_loop pk br l = Ok rs ∧
    ∀ s t root, mkRecord pk s t root ∈ rs ↔ is_u64 s ∧ (∃ v, (Uint64ToBytesBigEndian s, v) ∈ l) ∧ (s, t) ∈ ps ∧
      root = (let r := default [] (kget (Uint64ToBytesBigEndian t) br) in if (length r =? 0)%nat then [] else ToBytes32 r).
Proof.
  intros Hix. induction l as [|[k v] l IH]; intros Hin; cbn [attestationHistory_loop].
  { exists []. split; [done|]. intros s t root. split; [intros Hx; by apply not_elem_of_nil in Hx|].
    intros (_&[v Hx]&_). by apply not_elem_of_nil in Hx. }
  destruct (ix_sound _ _ Hix _ _ (Hin k v (list_elem_of_here _ _))) as (a&xs&Ha&->&->&Hu&Hxs).
  destruct (IH (λ k' v' Hkv, Hin k' v' (list_elem_of_further _ _ _ Hkv))) as (rs&E&Hrs).
  rewrite attestedEpochs_encode by done. cbn [mbind gores_bind]. rewrite E. cbn [mbind gores_bind].
  eexists. split; [reflexivity|]. intros s t root. rewrite BytesToUint64BigEndian_inv by done.
  rewrite elem_of_app, list_elem_of_fmap, Hrs. split.
  - intros [(x&[= -> -> ->]&Hx)|(Hs&[v Hv]&Hps&Hr)].
    + split_and!; [done|eexists; by left|by apply Hxs|done].
    + split_and!; [done|exists v; by right|done|done].
  - intros (Hs&[v Hv]&Hps&->). apply elem_of_cons in Hv as [Hv|Hv].
    + pose proof (f_equal fst Hv) as Hk. cbn [fst] in Hk. apply Uint64ToBytesBigEndian_inj in Hk as ->; [|done..]. left. exists t. split; [done|]. by apply Hxs.
    + right. split_and!; [done|by exists v|done|done].
Qed.

Lemma tracksA_history db pk h : tracksA db pk h →
  ∃ rs, kvAttestationHistoryForPubKey pk db = Ok rs ∧
    ∀ v, mkRecord pk (v_source v) (v_target v) (v_root v) ∈ rs ↔ v ∈ h.
Proof.
  intros Ht. unfold kvAttestationHistoryForPubKey. pose proof (ta_sources _ _ _ Ht) as Hix. pose proof (ta_ok _ _ _ Ht) as Hok.
  rewrite Forall_forall in Hok. pose proof (ta_roots _ _ _ Ht) as Hroots. unfold pkOf in Hix, Hroots.
  destruct (ta_shape _ _ _ Ht) as [E|(br&bs&bt&E)]; rewrite E in *; cbn in Hix, Hroots.
  - exists []. split; [done|]. intros v. split; [intros Hx; by apply not_elem_of_nil in Hx|]. intros Hv.
    destruct (ix_complete _ _ Hix (v_source v) (v_target v)) as (_&_&[? Hk]); [apply list_elem_of_fmap; by exists v|].
    by rewrite kget_empty in Hk.
  - destruct (history_loop_spec pk br bs _ (kentries bs) Hix) as (rs&Er&Hrs); [intros k v; by rewrite kentries_spec|].
    exists rs. split; [done|]. intros v. rewrite Hrs. split.
    + intros (Hs&_&Hin&Hr). apply list_elem_of_fmap in Hin as (w&[= Es Et]&Hw).
      destruct (Hok w Hw) as (_&Htw&Hl). pose proof (proj2 (Hroots (v_target w) (v_root w) Htw) (ex_intro _ w (conj Hw (conj eq_refl eq_refl)))) as Hg.
      rewrite Et, Hg in Hr. cbn in Hr. rewrite Hl in Hr. cbn [Nat.eqb] in Hr. rewrite ToBytes32_id in Hr by done.
      destruct v, w; cbn in *; congruence.
    + intros Hv. destruct (Hok v Hv) as (Hs&Htv&Hl). split_and!; [done| |apply list_elem_of_fmap; by exists v|].
      * destruct (ix_complete _ _ Hix (v_source v) (v_target v)) as (_&_&[x Hx]); [apply list_elem_of_fmap; by exists v|].
        exists x. by apply kentries_spec.
      * pose proof (proj2 (Hroots (v_target v) (v_root v) Htv) (ex_intro _ v (conj Hv (conj eq_refl eq_refl)))) as Hg.
        rewrite Hg. cbn. rewrite Hl. cbn [Nat.eqb]. by rewrite ToBytes32_id.
Qed.
End attest.

(** ** The complete database on proposals, and the interface of Protection.v *)
(** EIP-3076's conditions for a block after the blocks [h] of the same key: the slot was not
    signed with another root, and it is above their lowest slot unless [root] repeats. *)
Definition eip3076_allows_block (h : list (Z * Root)) (slot : Z) (root : Root) : bool :=
  forallb (λ p, negb (p.1 =? slot) || bool_decide (p.2 = root)) h &&
  (bool_decide (h = []) || existsb (λ p, p.1 <? slot) h || existsb (λ p, (p.1 =? slot) && bool_decide (p.2 = root)) h).

(** The configuration leaves room for an epoch plus the weak subjectivity period. *)
Class KvConfigOk `{cfg : BeaconChainConfig} `{WeakSubjectivity} := {
  spe_pos : 0 < SlotsPerEpoch;
  spe_u64 : is_u64 SlotsPerEpoch;
  wsp_nonneg : 0 ≤ WeakSubjectivityPeriod;
  wsp_room : MaxUint64 / SlotsPerEpoch + WeakSubjectivityPeriod ≤ MaxUint64 }.

Section propose.
Context {B : Type} `{KVBucketLaws B} `{cfg : BeaconChainConfig} `{ws : WeakSubjectivity} `{!KvConfigOk}.
Implicit Types db : KvDB (B := B).

Definition epochOf (slot : Z) : Z := slot / SlotsPerEpoch.
(** A slot whose record pruning after [newest] keeps *)
Definition kept (newest slot : Z) : Prop := epochOf newest < epochOf slot + WeakSubjectivityPeriod.

Lemma ToEpoch_epochOf slot : is_u64 slot → ToEpoch slot = Ok (epochOf slot).
Proof.
  intros Hs. pose proof spe_pos. unfold ToEpoch, Slot.DivSlot, Slot.Div, Slot.SafeDiv, Div64, must.
  destruct (Z.eqb_spec SlotsPerEpoch 0); [lia|done].
Qed.
Lemma epochOf_mono a b : a ≤ b → epochOf a ≤ epochOf b.
Proof. intros Hab. unfold epochOf. pose proof spe_pos. by apply Z.div_le_mono. Qed.
Lemma epochOf_wsp slot : is_u64 slot → (epochOf slot +64 WeakSubjectivityPeriod) = epochOf slot + WeakSubjectivityPeriod.
Proof.
  intros [Hs0 Hs1]. apply u64_small. pose proof spe_pos. pose proof wsp_nonneg. pose proof wsp_room.
  assert (epochOf slot ≤ MaxUint64 / SlotsPerEpoch) by (apply epochOf_mono; lia).
  assert (0 ≤ epochOf slot) by (unfold epochOf; apply Z.div_pos; lia). unfold is_u64. lia.
Qed.

(** ** Pruning *)
Definition slot_keys (b : B) : Prop := ∀ k r, kget k b = Some r → ∃ slot, is_u64 slot ∧ k = Uint64ToBytesBigEndian slot.

Lemma kdelete_shorter k b v : kget k b = Some v → (length (kentries (kdelete k b)) < length (kentries b))%nat.
Proof.
  intros Hk. rewrite <-(length_fmap fst (kentries (kdelete k b))), <-(length_fmap fst (kentries b)).
  assert (Hsub : k :: (kentries (kdelete k b)).*1 ⊆+ (kentries b).*1).
  { apply NoDup_submseteq.
    - constructor; [|apply kentries_nodup]. intros ([k' v']&->&Hin)%list_elem_of_fmap. cbn in Hin.
      apply kentries_spec in Hin. by rewrite kget_delete_eq in Hin.
    - intros k' Hin. apply list_elem_of_fmap. apply elem_of_cons in Hin as [->|([k2 v']&->&Hin)%list_elem_of_fmap].
      + exists (k, v). by rewrite kentries_spec.
      + exists (k2, v'). split; [done|]. rewrite kentries_spec in *. destruct (decide (k2 = k)) as [->|Hne].
        * by rewrite kget_delete_eq in Hin.
        * by rewrite kget_delete_ne in Hin. }
  apply submseteq_length in Hsub. cbn in Hsub. lia.
Qed.

Lemma first_slot_lowest b slot0 v es slot r : kentries b = (Uint64ToBytesBigEndian slot0, v) :: es → is_u64 slot0 → is_u64 slot →
  kget (Uint64ToBytesBigEndian slot) b = Some r → slot0 ≤ slot.
Proof.
  intros Ees Hs0 Hs Hg. apply kentries_spec in Hg. pose proof (kentries_sorted b) as Hsort. rewrite Ees in Hg, Hsort.
  apply elem_of_cons in Hg as [Heq|Hin].
  { assert (Hk : Uint64ToBytesBigEndian slot = Uint64ToBytesBigEndian slot0) by congruence.
    rewrite (Uint64ToBytesBigEndian_inj slot slot0 Hs Hs0 Hk). lia. }
  rewrite fmap_cons in Hsort. apply StronglySorted_inv in Hsort as [_ Hall]. rewrite Forall_forall in Hall.
  apply bytes_le_u64; [done..|]. apply Hall. apply list_elem_of_fmap. by exists (Uint64ToBytesBigEndian slot, r).
Qed.

Lemma prune_loop_spec fuel newest b : is_u64 newest → slot_keys b → (length (kentries b) ≤ fuel)%nat →
  ∃ b', pruneProposals_loop fuel newest b = Ok b' ∧ slot_keys b' ∧
    (∀ k r, kget k b' = Some r → kget k b = Some r) ∧
    (∀ slot, is_u64 slot → kept newest slot → kget (Uint64ToBytesBigEndian slot) b' = kget (Uint64ToBytesBigEndian slot) b) ∧
    (∀ slot, is_u64 slot → ¬ kept newest slot → kget (Uint64ToBytesBigEndian slot) b' = None).
Proof.
  intros Hn. revert b. induction fuel as [|fuel IH]; intros b Hb Hlen;
    cbn [pruneProposals_loop]; destruct (kentries b) as [|[k v] es] eqn:Ees; try (cbn in Hlen; lia).
  1,2: exists b; split_and!; try done; intros slot _ _; destruct (kget _ b) eqn:Eg; [|done];
    apply kentries_spec in Eg; rewrite Ees in Eg; by apply not_elem_of_nil in Eg.
  assert (Hk : kget k b = Some v) by (apply kentries_spec; rewrite Ees; by left).
  destruct (Hb _ _ Hk) as (slot0&Hs0&->). rewrite BytesToUint64BigEndian_inv, !ToEpoch_epochOf by done. cbn [mbind gores_bind].
  rewrite epochOf_wsp by done. destruct (Z.leb_spec (epochOf slot0 + WeakSubjectivityPeriod) (epochOf newest)).
  2: { exists b. split_and!; try done. intros slot Hs Hnk. destruct (kget (Uint64ToBytesBigEndian slot) b) as [r|] eqn:Eg; [|done]. exfalso. apply Hnk.
       pose proof (first_slot_lowest _ _ _ _ _ _ Ees Hs0 Hs Eg) as Hle. apply epochOf_mono in Hle. unfold kept. lia. }
  destruct (IH (kdelete (Uint64ToBytesBigEndian slot0) b)) as (b'&E&Hb'&Hsub&Hkeep&Hdel).
  - intros k r Hkr. destruct (decide (k = Uint64ToBytesBigEndian slot0)) as [->|Hne]; [by rewrite kget_delete_eq in Hkr|].
    rewrite kget_delete_ne in Hkr by done. by eapply Hb.
  - pose proof (kdelete_shorter _ _ _ Hk). rewrite Ees in *. cbn in *. lia.
  - exists b'. split_and!; [done|done| | |exact Hdel].
    + intros k r Hkr. apply Hsub in Hkr. destruct (decide (k = Uint64ToBytesBigEndian slot0)) as [->|Hne];
        [by rewrite kget_delete_eq in Hkr|by rewrite kget_delete_ne in Hkr].
    + intros slot Hs Hkept. rewrite Hkeep by done. apply kget_delete_ne. intros E'.
      apply Uint64ToBytesBigEndian_inj in E' as ->; [|done..]. unfold kept in Hkept. lia.
Qed.

(** ** What the buckets of a key know of its blocks *)
Definition valOf db (pk : PubKey) : B := default kempty (historicProposalsBucket db !! pk).
Definition block_ok (p : Z * Root) : Prop := is_u64 p.1 ∧ length p.2 = 32%nat.

Record tracksP db (pk : PubKey) (h : list (Z * Root)) : Prop := {
  tp_ok : Forall block_ok h;
  tp_keys : slot_keys (valOf db pk);
  tp_sound slot r : is_u64 slot → kget (Uint64ToBytesBigEndian slot) (valOf db pk) = Some r → (slot, r) ∈ h;
  tp_complete slot r : (slot, r) ∈ h → (∀ p, p ∈ h → kept p.1 slot) →
    kget (Uint64ToBytesBigEndian slot) (valOf db pk) = Some r;
  tp_low : extremum Z.ltb (lowestSignedProposalsBucket db) pk h.*1;
  tp_high : extremum Z.gtb (highestSignedProposalsBucket db) pk h.*1 }.

(** The slot is not so old that its record may have been pruned. *)
Definition recent db (pk : PubKey) (slot : Z) : Prop :=
  (kvHighestSignedProposal pk db).2 = true → kept (kvHighestSignedProposal pk db).1 slot.

Lemma recent_kept db pk h slot : tracksP db pk h → recent db pk slot → ∀ p, p ∈ h → kept p.1 slot.
Proof.
  intros Ht Hr p Hp. unfold recent, kvHighestSignedProposal in Hr.
  destruct (extremum_numberOf _ _ _ _ (tp_high _ _ _ Ht)) as [[E _]|(m&E&_&Hall)].
  - apply fmap_nil_inv in E as ->. by apply not_elem_of_nil in Hp.
  - rewrite E in Hr. specialize (Hr eq_refl). cbn in Hr. unfold kept in *.
    specialize (Hall p.1 ltac:(apply list_elem_of_fmap; by exists p)).
    pose proof (epochOf_mono p.1 m). lia.
Qed.

Lemma tracksP_new pk : tracksP NewKVStore pk [].
Proof.
  assert (Hv : valOf NewKVStore pk = kempty) by (unfold valOf, NewKVStore; cbn [historicProposalsBucket]; by rewrite lookup_empty).
  split; rewrite ?Hv; try apply kget_empty.
  - constructor.
  - intros k r. by rewrite kget_empty.
  - intros slot r _. by rewrite kget_empty.
  - intros slot r Hin. by apply not_elem_of_nil in Hin.
Qed.

Lemma gtb_extremum_laws : (∀ x, (x >? x) = false) ∧ ∀ x y z, (x >? y) = false → (z >? y) = true → (x >? z) = false.
Proof. split; [intros x; rewrite Z.gtb_ltb; apply Z.ltb_irrefl|]. intros x y z Hxy Hzy. lia. Qed.

Lemma SaveProposal_spec db pk h slot root : tracksP db pk h → block_ok (slot, root) →
  (∀ r, (slot, r) ∈ h → (∀ p, p ∈ h → kept p.1 slot) → r = root) →
  ∃ db', SaveProposalHistoryForSlot pk slot root db = (Ok tt, db') ∧ tracksP db' pk ((slot, root) :: h) ∧
    pubKeysBucket db' = pubKeysBucket db ∧ lowestSignedSourceBucket db' = lowestSignedSourceBucket db ∧
    lowestSignedTargetBucket db' = lowestSignedTargetBucket db ∧
    ∀ pk' h', pk' ≠ pk → tracksP db pk' h' → tracksP db' pk' h'.
Proof.
  intros [Hok Hkeys Hsound Hcomp Hlow Hhigh] [Hs Hl] Hsame. cbn [fst snd] in *.
  destruct ltb_extremum_laws as [Lirr Ltr], gtb_extremum_laws as [Girr Gtr].
  assert (Hkeys' : slot_keys (kput (Uint64ToBytesBigEndian slot) root (valOf db pk))).
  { intros k r. destruct (decide (k = Uint64ToBytesBigEndian slot)) as [->|Hne]; [by exists slot|].
    rewrite kget_put_ne by done. apply Hkeys. }
  destruct (prune_loop_spec (length (kentries (kput (Uint64ToBytesBigEndian slot) root (valOf db pk)))) slot _ Hs Hkeys' ltac:(lia))
    as (b'&Eb&Hkb&Hsub&Hkeep&Hdel).
  eexists. split; [unfold SaveProposalHistoryForSlot, mget, mbind, M_bind, pruneProposalHistoryBySlot, mlift; cbn zeta;
    fold (valOf db pk); rewrite Eb; reflexivity|].
  split; [|split_and!; [done..|]].
  - split; unfold valOf; cbn [historicProposalsBucket lowestSignedProposalsBucket highestSignedProposalsBucket];
      rewrite ?lookup_insert_eq; cbn [default from_option id].
    + by constructor.
    + done.
    + intros slot' r Hs' Hg. apply Hsub in Hg. destruct (decide (slot' = slot)) as [->|Hne].
      * rewrite kget_put_eq in Hg. injection Hg as ->. by left.
      * rewrite kget_put_ne in Hg by (intros E'; by apply Uint64ToBytesBigEndian_inj in E'). right. by apply Hsound.
    + intros slot' r Hin Hkp.
      assert (Hs' : is_u64 slot').
      { apply elem_of_cons in Hin as [[= -> _]|Hin]; [done|]. rewrite Forall_forall in Hok. by apply (Hok _ Hin). }
      rewrite Hkeep by (done || (apply (Hkp (slot, root)); by left)).
      destruct (decide (slot' = slot)) as [->|Hne].
      * rewrite kget_put_eq. f_equal. apply elem_of_cons in Hin as [[= ->]|Hin]; [done|]. symmetry. apply Hsame; [done|].
        intros p Hp. apply Hkp. by right.
      * rewrite kget_put_ne by (intros E'; by apply Uint64ToBytesBigEndian_inj in E').
        apply elem_of_cons in Hin as [[= ? _]|Hin]; [done|]. apply Hcomp; [done|]. intros p Hp. apply Hkp. by right.
    + rewrite fmap_cons. by apply overrideIf_extremum.
    + rewrite fmap_cons. by apply overrideIf_extremum.
  - intros pk' h' Hne [Hok' Hkeys2 Hsound' Hcomp' Hlow' Hhigh'].
    split; unfold valOf in *; cbn [historicProposalsBucket lowestSignedProposalsBucket highestSignedProposalsBucket];
      rewrite ?lookup_insert_ne by done; try done.
    + eapply extremum_other; [|exact Hlow']. by apply overrideIf_other.
    + eapply extremum_other; [|exact Hhigh']. by apply overrideIf_other.
Qed.

(** ** Checking *)

(** What the record of the slot says, in terms of the blocks of the key. *)
Lemma history_cases db pk h slot : tracksP db pk h → is_u64 slot →
  (∃ r, (slot, r) ∈ h ∧ length r = 32%nat ∧ kvProposalHistoryForSlot pk slot db = (r, true, true)) ∨
  (kvProposalHistoryForSlot pk slot db = (replicate 32 0, false, false) ∧
   ((∀ p, p ∈ h → kept p.1 slot) → ∀ r, (slot, r) ∉ h)).
Proof.
  intros Ht Hs. unfold kvProposalHistoryForSlot.
  assert (E : (historicProposalsBucket db !! pk ≫= kget (Uint64ToBytesBigEndian slot)) = kget (Uint64ToBytesBigEndian slot) (valOf db pk)).
  { unfold valOf. destruct (historicProposalsBucket db !! pk); cbn; [done|]. by rewrite kget_empty. }
  rewrite E. destruct (kget _ (valOf db pk)) as [r|] eqn:Er.
  - left. pose proof (tp_sound _ _ _ Ht _ _ Hs Er) as Hin. pose proof (tp_ok _ _ _ Ht) as Hok. rewrite Forall_forall in Hok.
    destruct (Hok _ Hin) as [_ Hl]. cbn in Hl. exists r. split_and!; [done..|]. rewrite Hl. cbn [Nat.eqb]. by rewrite ToBytes32_id.
  - right. split; [done|]. intros Hk r Hin. pose proof (tp_complete _ _ _ Ht _ _ Hin Hk). congruence.
Qed.

Lemma same_slot_same_root db pk h slot r root : tracksP db pk h → (slot, r) ∈ h → (slot, root) ∈ h →
  (∀ p, p ∈ h → kept p.1 slot) → r = root.
Proof.
  intros Ht H1' H2' Hk. pose proof (tp_complete _ _ _ Ht _ _ H1' Hk). pose proof (tp_complete _ _ _ Ht _ _ H2' Hk). congruence.
Qed.

Lemma lowest_slot db pk h slot : tracksP db pk h →
  (kvLowestSignedProposal pk db).2 && (slot <? (kvLowestSignedProposal pk db).1) =
    negb (bool_decide (h = []) || existsb (λ p, p.1 <=? slot) h) ∧
  (kvLowestSignedProposal pk db).2 && (slot <=? (kvLowestSignedProposal pk db).1) =
    negb (bool_decide (h = []) || existsb (λ p, p.1 <? slot) h).
Proof.
  intros Ht. destruct (lowest_below db pk _ _ slot (tp_low _ _ _ Ht)) as [Hlt Hle]. rewrite existsb_fmap in Hlt, Hle.
  assert (Hnil : bool_decide (h.*1 = []) = bool_decide (h = [])).
  { apply bool_decide_ext. split; [apply fmap_nil_inv|by intros ->]. }
  rewrite Hnil in Hlt, Hle. done.
Qed.

(** Without a record of the slot, or with one of the same root, the request is decided by
    the lowest slot; with a record of another root it is refused. *)
Lemma kvProposalCheck_eval db pk slot root prev at_ has low ex :
  kvProposalHistoryForSlot pk slot db = (prev, at_, has) → kvLowestSignedProposal pk db = (low, ex) → has = at_ →
  kvSlashableProposalCheck pk slot root db =
  (if ex && (slot <? low) || ex && (slot <=? low) && negb (at_ && bool_decide (prev = root)) then (Err errSignProposal, db)
   else if at_ && negb (bool_decide (prev = root)) then (Err errLocalProtection, db)
   else SaveProposalHistoryForSlot pk slot root db).
Proof.
  intros E1 E2 ->. unfold kvSlashableProposalCheck, mget, mbind, M_bind. rewrite E1, E2.
  replace (slot <=? low) with ((slot <? low) || (slot =? low)) by lia.
  destruct ex, (slot <? low), (slot =? low), at_, (bool_decide (prev = root)); done.
Qed.

Lemma kvProposal_accept db pk h slot root db' : tracksP db pk h → block_ok (slot, root) →
  kvSlashableProposalCheck pk slot root db = (Ok tt, db') →
  (recent db pk slot → ∀ r, (slot, r) ∈ h → r = root) ∧ tracksP db' pk ((slot, root) :: h) ∧
  pubKeysBucket db' = pubKeysBucket db ∧ lowestSignedSourceBucket db' = lowestSignedSourceBucket db ∧
  lowestSignedTargetBucket db' = lowestSignedTargetBucket db ∧ ∀ pk' h', pk' ≠ pk → tracksP db pk' h' → tracksP db' pk' h'.
Proof.
  intros Ht Hb E. destruct (kvLowestSignedProposal pk db) as [low ex] eqn:El.
  assert (Hsame : ∀ r, (slot, r) ∈ h → (∀ p, p ∈ h → kept p.1 slot) → r = root).
  { intros r Hin Hk. destruct (history_cases db pk h slot Ht (proj1 Hb)) as [(r'&Hr'&_&Eh)|[Eh Hno]]; [|by apply (Hno Hk) in Hin].
    rewrite (kvProposalCheck_eval _ _ _ _ _ _ _ _ _ Eh El eq_refl) in E. rewrite (same_slot_same_root _ _ _ _ _ _ Ht Hin Hr' Hk).
    case_bool_decide as Heq; [done|]. exfalso. revert E. destruct (_ || _); done. }
  assert (Es : SaveProposalHistoryForSlot pk slot root db = (Ok tt, db')).
  { destruct (history_cases db pk h slot Ht (proj1 Hb)) as [(r'&Hr'&_&Eh)|[Eh Hno]];
      rewrite (kvProposalCheck_eval _ _ _ _ _ _ _ _ _ Eh El eq_refl) in E;
      destruct (ex && (slot <? low) || _); try done; destruct (_ && _); done. }
  split; [intros Hrec r Hin; by eapply Hsame, recent_kept|].
  destruct (SaveProposal_spec db pk h slot root Ht Hb Hsame) as (db1&E1&Hrest). rewrite E1 in Es. injection Es as <-. done.
Qed.

Lemma SaveProposal_ok db pk h slot root : tracksP db pk h → is_u64 slot →
  ∃ b, SaveProposalHistoryForSlot pk slot root db = (Ok tt, mkKv (pubKeysBucket db) (lowestSignedSourceBucket db) (lowestSignedTargetBucket db)
      (<[pk := b]> (historicProposalsBucket db)) (overrideIf Z.ltb pk slot (lowestSignedProposalsBucket db))
      (overrideIf Z.gtb pk slot (highestSignedProposalsBucket db))) ∧
    ∀ slot', is_u64 slot' → ¬ kept slot slot' → kget (Uint64ToBytesBigEndian slot') b = None.
Proof.
  intros Ht Hs. unfold SaveProposalHistoryForSlot, mget, mbind, M_bind, pruneProposalHistoryBySlot, mlift. cbn zeta. fold (valOf db pk).
  destruct (prune_loop_spec (length (kentries (kput (Uint64ToBytesBigEndian slot) root (valOf db pk)))) slot
    (kput (Uint64ToBytesBigEndian slot) root (valOf db pk))) as (b'&->&_&_&_&Hdel); [done| |lia|by exists b'].
  intros k v. destruct (decide (k = Uint64ToBytesBigEndian slot)) as [->|Hne]; [by exists slot|].
  rewrite kget_put_ne by done. apply (tp_keys _ _ _ Ht).
Qed.

Lemma kvProposal_reject db pk h slot root r db' : tracksP db pk h → block_ok (slot, root) →
  kvSlashableProposalCheck pk slot root db = (r, db') → r ≠ Ok tt → (∃ e, r = Err e) ∧ db' = db.
Proof.
  intros Ht Hb E Hr. destruct (kvLowestSignedProposal pk db) as [low ex] eqn:El.
  assert (Hsave : is_ok (SaveProposalHistoryForSlot pk slot root db).1 = true).
  { by destruct (SaveProposal_ok db pk h slot root Ht (proj1 Hb)) as (b&->&_). }
  destruct (history_cases db pk h slot Ht (proj1 Hb)) as [(r'&Hr'&_&Eh)|[Eh Hno]];
    rewrite (kvProposalCheck_eval _ _ _ _ _ _ _ _ _ Eh El eq_refl) in E;
    (destruct (ex && (slot <? low) || _); [injection E as <- <-; eauto|]);
    (destruct (_ && _); [injection E as <- <-; eauto|]);
    rewrite E in Hsave; by destruct r as [[]| | |].
Qed.

(** After a block far enough past it, an old slot above the lowest one is open again. *)
Lemma kvProposal_forgotten db db' pk h low slot newest rootL root rootN root' :
  tracksP db pk h → (low, rootL) ∈ h → (slot, root) ∈ h → low < slot → block_ok (newest, rootN) →
  kvSlashableProposalCheck pk newest rootN db = (Ok tt, db') → epochOf slot + WeakSubjectivityPeriod ≤ epochOf newest →
  length root' = 32%nat → ∃ db'', kvSlashableProposalCheck pk slot root' db' = (Ok tt, db'').
Proof.
  intros Ht Hlow Hslot Hlt Hb E Hold Hl.
  assert (Hs : is_u64 slot) by (pose proof (tp_ok _ _ _ Ht) as Hok; rewrite Forall_forall in Hok; apply (Hok _ Hslot)).
  destruct (kvProposal_accept db pk h newest rootN db' Ht Hb E) as (_&Ht'&_).
  assert (Hgone : kvProposalHistoryForSlot pk slot db' = (replicate 32 0, false, false)).
  { assert (Es : SaveProposalHistoryForSlot pk newest rootN db = (Ok tt, db')).
    { destruct (kvLowestSignedProposal pk db) as [lo ex] eqn:El.
      destruct (history_cases db pk h newest Ht (proj1 Hb)) as [(r'&_&_&Eh)|[Eh _]];
        rewrite (kvProposalCheck_eval _ _ _ _ _ _ _ _ _ Eh El eq_refl) in E; revert E; repeat case_match; done. }
    destruct (SaveProposal_ok db pk h newest rootN Ht (proj1 Hb)) as (b&Eb&Hdel). rewrite Eb in Es. injection Es as <-.
    unfold kvProposalHistoryForSlot. cbn [historicProposalsBucket]. rewrite lookup_insert_eq. cbn.
    rewrite Hdel; [done..|unfold kept; lia]. }
  destruct (kvLowestSignedProposal pk db') as [lo ex] eqn:El. destruct (lowest_slot db' pk _ slot Ht') as [H1' H2'].
  rewrite El in H1', H2'. cbn [fst snd] in H1', H2'.
  rewrite (kvProposalCheck_eval _ _ _ _ _ _ _ _ _ Hgone El eq_refl), H1', H2'.
  rewrite !(proj2 (existsb_exists _ _)), !orb_true_r; [|exists (low, rootL); split; [rewrite <-list_elem_of_In; by right|cbn; lia]..].
  cbn. destruct (SaveProposal_ok db' pk _ slot root' Ht' Hs) as (b&->&_). by eexists.
Qed.

Lemma kvProposal_rule db pk h slot root : tracksP db pk h → block_ok (slot, root) → recent db pk slot →
  is_ok (kvSlashableProposalCheck pk slot root db).1 = eip3076_allows_block h slot root.
Proof.
  intros Ht Hb Hrec. pose proof (recent_kept _ _ _ _ Ht Hrec) as Hk. destruct (lowest_slot db pk h slot Ht) as [Hlt Hle].
  destruct (kvLowestSignedProposal pk db) as [low ex] eqn:El. cbn [fst snd] in Hlt, Hle. unfold eip3076_allows_block.
  assert (Hsave : (∀ r, (slot, r) ∈ h → r = root) → is_ok (SaveProposalHistoryForSlot pk slot root db).1 = true).
  { intros Hs. by destruct (SaveProposal_spec db pk h slot root Ht Hb (λ r Hin _, Hs r Hin)) as (db1&->&_). }
  destruct (history_cases db pk h slot Ht (proj1 Hb)) as [(r&Hr&_&Eh)|[Eh Hno]];
    rewrite (kvProposalCheck_eval _ _ _ _ _ _ _ _ _ Eh El eq_refl), Hlt, Hle.
  - destruct (decide (r = root)) as [->|Heq];
      [rewrite (bool_decide_eq_true_2 (root = root)) by done|rewrite (bool_decide_eq_false_2 (r = root)) by done];
      cbn [andb negb]; rewrite ?andb_false_r, ?andb_true_r.
    + assert (Hs : ∀ r, (slot, r) ∈ h → r = root) by (intros r Hin; by eapply same_slot_same_root).
      rewrite (proj2 (existsb_exists (λ p, p.1 <=? slot) h)) by (exists (slot, root); rewrite <-list_elem_of_In; split; [done|cbn; lia]).
      rewrite orb_true_r. cbn [negb orb]. rewrite (Hsave Hs). symmetry. apply andb_true_iff. split.
      * apply forallb_forall. intros [s1 r1] Hin%list_elem_of_In. cbn. destruct (Z.eqb_spec s1 slot) as [->|]; [|done]. cbn.
        apply bool_decide_eq_true_2. by apply Hs.
      * apply orb_true_iff. right. apply existsb_exists. exists (slot, root). rewrite <-list_elem_of_In. split; [done|]. cbn.
        rewrite Z.eqb_refl. by rewrite bool_decide_eq_true_2.
    + assert (Hf : forallb (λ p, negb (p.1 =? slot) || bool_decide (p.2 = root)) h = false).
      { apply not_true_iff_false. rewrite forallb_forall. intros Hall. specialize (Hall (slot, r) ltac:(by apply list_elem_of_In)).
        cbn in Hall. rewrite Z.eqb_refl in Hall. by rewrite bool_decide_eq_false_2 in Hall. }
      rewrite Hf. cbn [andb]. destruct (negb _ || negb _); done.
  - specialize (Hno Hk). cbn [andb negb]. rewrite andb_true_r. cbn [orb].
    assert (Hf : forallb (λ p, negb (p.1 =? slot) || bool_decide (p.2 = root)) h = true).
    { apply forallb_forall. intros [s1 r1] Hin%list_elem_of_In. cbn. destruct (Z.eqb_spec s1 slot) as [->|]; [by apply Hno in Hin|done]. }
    assert (Hr : existsb (λ p, (p.1 =? slot) && bool_decide (p.2 = root)) h = false).
    { apply not_true_iff_false. intros ([s1 r1]&Hin%list_elem_of_In&Hp)%existsb_exists. cbn in Hp.
      destruct (Z.eqb_spec s1 slot) as [->|]; [by apply Hno in Hin|done]. }
    rewrite Hf, Hr, orb_false_r. cbn [andb].
    assert (Hle' : existsb (λ p, p.1 <? slot) h = true → existsb (λ p, p.1 <=? slot) h = true).
    { intros (p&Hin&Hp)%existsb_exists. apply existsb_exists. exists p. split; [done|lia]. }
    assert (Hs : ∀ r, (slot, r) ∈ h → r = root) by (intros r Hin; by apply Hno in Hin).
    destruct (bool_decide (h = [])); cbn [orb negb]; [by apply Hsave|].
    destruct (existsb (λ p, p.1 <? slot) h); cbn [negb]; [rewrite (Hle' eq_refl); by apply Hsave|by rewrite orb_true_r].
Qed.
End propose.
