(* ===== verification/KvTheorems.v ===== *)
(** * What the complete database guarantees to the validator client *)
From S2P Require Import Prelude MathHelper Primitives Config SlotTime Shuffle MerkleTrie Protection FilesystemProtection FilesystemTheorems KvProtection KvFacts.

(** ** The interface *)
Definition votes_of (pk : PubKey) (h : list event) : list vote :=
  omap (λ e, match e with Attested pk' v => if decide (pk' = pk) then Some v else None | _ => None end) h.
Definition blocks_of (pk : PubKey) (h : list event) : list (Z * Root) :=
  omap (λ e, match e with Proposed pk' slot root => if decide (pk' = pk) then Some (slot, root) else None | _ => None end) h.

Lemma elem_votes_of pk v h : v ∈ votes_of pk h ↔ Attested pk v ∈ h.
Proof.
  unfold votes_of. rewrite list_elem_of_omap. split.
  - intros ([pk' w|]&Hin&E); [|done]. destruct (decide (pk' = pk)) as [->|]; by simplify_eq.
  - intros Hin. exists (Attested pk v). split; [done|]. by rewrite decide_True.
Qed.
Lemma elem_blocks_of pk p h : p ∈ blocks_of pk h ↔ Proposed pk p.1 p.2 ∈ h.
Proof.
  unfold blocks_of. rewrite list_elem_of_omap. split.
  - intros ([|pk' s r]&Hin&E); [done|]. destruct (decide (pk' = pk)) as [->|]; by simplify_eq.
  - intros Hin. exists (Proposed pk p.1 p.2). split; [done|]. rewrite decide_True by done. by destruct p.
Qed.

Lemma eip3076_no_conflict h v : eip3076_allows h v = true → ∀ w, w ∈ h → conflict v w = false.
Proof.
  unfold eip3076_allows. rewrite !andb_true_iff. intros [[Hc _] _] w Hw. apply negb_true_iff, not_true_iff_false in Hc.
  apply not_true_iff_false. intros Hw'. apply Hc, existsb_exists. exists w. split; [by apply list_elem_of_In|done].
Qed.

Section instance.
Context {B : Type} `{KVBucketLaws B} `{cfg : BeaconChainConfig} `{ws : WeakSubjectivity}.
Abbreviation DB := (KvDB (B := B)).

#[export] Instance KvValidatorDB : ValidatorDB DB := {
  SlashableAttestationCheck := kvSlashableAttestationCheck flushedAlone;
  SlashableProposalCheck := kvSlashableProposalCheck }.

Context `{!KvConfigOk}.

(** The database knows exactly the messages [h]. *)
Definition tracks (db : DB) (h : list event) : Prop :=
  ∀ pk, tracksA db pk (votes_of pk h) ∧ tracksP db pk (blocks_of pk h).
Definition kv_protects (db : DB) (h : list event) : Prop := ∃ h', (∀ e, e ∈ h → e ∈ h') ∧ tracks db h'.
Definition kv_in_scope (db : DB) (e : event) : Prop :=
  match e with Proposed pk slot _ => recent db pk slot | Attested _ _ => True end.

Lemma tracks_new : tracks NewKVStore [].
Proof. intros pk. split; [apply tracksA_new|apply tracksP_new]. Qed.

Lemma tracksP_frame (db db' : DB) pk h :
  historicProposalsBucket db' = historicProposalsBucket db → lowestSignedProposalsBucket db' = lowestSignedProposalsBucket db →
  highestSignedProposalsBucket db' = highestSignedProposalsBucket db → tracksP db pk h → tracksP db' pk h.
Proof.
  intros E1 E2 E3 [Hok Hkeys Hsound Hcomp Hlow Hhigh].
  assert (Hv : valOf db' pk = valOf db pk) by (unfold valOf; by rewrite E1).
  split; rewrite ?Hv, ?E2, ?E3; done.
Qed.
Lemma tracksA_frame (db db' : DB) pk h :
  pubKeysBucket db' = pubKeysBucket db → lowestSignedSourceBucket db' = lowestSignedSourceBucket db →
  lowestSignedTargetBucket db' = lowestSignedTargetBucket db → tracksA db pk h → tracksA db' pk h.
Proof.
  intros E1 E2 E3 [Hok Hshape Hroots Hs Ht Hls Hlt].
  assert (Hp : pkOf db' pk = pkOf db pk) by (unfold pkOf; by rewrite E1).
  split; rewrite ?Hp, ?E1, ?E2, ?E3; done.
Qed.

Lemma tracks_vote (db : DB) h pk v : tracks db h → vote_ok v → eip3076_allows (votes_of pk h) v = true →
  attestationToSave (attOf v) pk (v_root v) db = Ok (voteRecord pk v) ∧
  tracks (saveAttestationRecords [voteRecord pk v] db) (Attested pk v :: h).
Proof.
  intros Ht Hv Ha. pose proof (attestationToSave_spec db pk _ v (proj1 (Ht pk)) Hv) as Hs. rewrite Ha in Hs. split; [done|].
  intros pk'. destruct (Ht pk') as [HA HP]. split; [|by eapply tracksP_frame; [..|exact HP]].
  unfold votes_of. cbn [omap list_omap]. destruct (decide (pk = pk')) as [<-|Hne].
  - apply tracksA_save; [done..|]. by apply eip3076_no_conflict.
  - by eapply tracksA_other.
Qed.

Lemma tracks_accept (db : DB) h e db' : tracks db h → event_ok e → checkEvent e db = (Ok tt, db') → tracks db' (e :: h).
Proof.
  intros Ht Hok E. destruct e as [pk v|pk slot root]; cbn [checkEvent] in E.
  - pose proof (kvAttestation_spec db pk _ v (proj1 (Ht pk)) Hok) as Hs. cbn [SlashableAttestationCheck KvValidatorDB] in E.
    destruct (eip3076_allows (votes_of pk h) v) eqn:Ha; [|by destruct Hs as [e Hs]; rewrite Hs in E].
    rewrite Hs in E. injection E as <-. by apply tracks_vote.
  - cbn [SlashableProposalCheck KvValidatorDB] in E.
    destruct (kvProposal_accept db pk _ slot root db' (proj2 (Ht pk)) Hok E) as (_&HP&E1&E2&E3&Hother).
    intros pk'. destruct (Ht pk') as [HA HP']. split; [by eapply tracksA_frame; [..|exact HA]|].
    unfold blocks_of. cbn [omap list_omap]. destruct (decide (pk = pk')) as [<-|Hne]; [exact HP|by apply Hother].
Qed.
Lemma accept_safe (db : DB) h e db' : tracks db h → event_ok e → kv_in_scope db e → checkEvent e db = (Ok tt, db') →
  Forall (λ f, slashable e f = false) h.
Proof.
  intros Ht Hok Hsc E. apply Forall_forall. intros f Hin. destruct e as [pk v|pk slot root]; cbn [checkEvent] in E.
  - pose proof (kvAttestation_spec db pk _ v (proj1 (Ht pk)) Hok) as Hs. cbn [SlashableAttestationCheck KvValidatorDB] in E.
    destruct (eip3076_allows (votes_of pk h) v) eqn:Ha; [|by destruct Hs as [e Hs]; rewrite Hs in E].
    destruct f as [pk' w|pk' s r]; [|done]. cbn [slashable]. case_bool_decide as Hpk; [subst pk'|done].
    apply elem_votes_of in Hin. by apply (eip3076_no_conflict _ _ Ha).
  - cbn [SlashableProposalCheck KvValidatorDB] in E.
    destruct (kvProposal_accept db pk _ slot root db' (proj2 (Ht pk)) Hok E) as (Hsame&_).
    destruct f as [pk' w|pk' s r]; [done|]. cbn [slashable]. case_bool_decide as Hpk; [subst pk'|done].
    cbn [andb]. destruct (Z.eqb_spec slot s) as [<-|]; [|done]. cbn [andb].
    rewrite bool_decide_eq_true_2; [done|]. symmetry. apply Hsame; [done|]. by apply (elem_blocks_of pk (slot, r)).
Qed.
Lemma kv_accept db h e db' : kv_protects db h → event_ok e → kv_in_scope db e → checkEvent e db = (Ok tt, db') →
  Forall (λ f, slashable e f = false) h ∧ kv_protects db' (e :: h).
Proof.
  intros (h'&Hsub&Ht) Hok Hsc E. pose proof (accept_safe db h' e db' Ht Hok Hsc E) as Hs.
  split; [rewrite Forall_forall in *; auto|]. exists (e :: h'). split; [|by eapply tracks_accept].
  intros f Hf. apply elem_of_cons in Hf as [->|Hf]; [by left|right; auto].
Qed.

(** A check that does not succeed leaves the database as it was, and none succeeds without
    a source and a target. *)
Lemma attestationToSave_source att pk root (db : DB) r : attestationToSave att pk root db = Ok r →
  is_ok (sourceEpoch att) && is_ok (targetEpoch att) = true.
Proof.
  unfold attestationToSave. destruct (kvLowestSignedSourceEpoch pk db) as [ls es], (kvLowestSignedTargetEpoch pk db) as [lt et].
  destruct (sourceEpoch att) eqn:Es, (targetEpoch att) eqn:Et; try done;
    destruct es; cbn; try done; try (match goal with |- context [?a <? ls] => destruct (a <? ls) end; cbn; try done);
    destruct (_ && et && _); try done;
    destruct (CheckSlashableAttestation pk root att db); try done; unfold recordToSave; rewrite Es, ?Et; done.
Qed.
Lemma kvAttestation_outcome att pk root (db : DB) :
  (is_ok (sourceEpoch att) && is_ok (targetEpoch att) = true ∧ (kvSlashableAttestationCheck flushedAlone att pk root db).1 = Ok tt) ∨
  ((kvSlashableAttestationCheck flushedAlone att pk root db).1 ≠ Ok tt ∧ (kvSlashableAttestationCheck flushedAlone att pk root db).2 = db).
Proof.
  unfold kvSlashableAttestationCheck, mget, mbind, M_bind, mlift.
  destruct (attestationToSave att pk root db) eqn:E; cbn; [left; by apply attestationToSave_source in E|right; done..].
Qed.
Lemma kv_partial (db : DB) h att pk root r db' :
  kv_protects db h → is_ok (sourceEpoch att) && is_ok (targetEpoch att) = false →
  SlashableAttestationCheck att pk root db = (r, db') → r ≠ Ok tt ∧ kv_protects db' h.
Proof.
  intros Hp Ha E. cbn [SlashableAttestationCheck KvValidatorDB] in E.
  destruct (kvAttestation_outcome att pk root db) as [[Ha' _]|[Hr Hdb]]; [congruence|].
  rewrite E in Hr, Hdb. cbn in Hr, Hdb. by subst.
Qed.
Lemma kv_unchanged (db : DB) h e r db' : tracks db h → event_ok e → checkEvent e db = (r, db') → r ≠ Ok tt → db' = db.
Proof.
  intros Ht Hok E Hr. destruct e as [pk v|pk slot root]; cbn [checkEvent] in E.
  - cbn [SlashableAttestationCheck KvValidatorDB] in E.
    destruct (kvAttestation_outcome (attOf v) pk (v_root v) db) as [[_ Hr']|[_ Hdb]]; by rewrite E in *.
  - cbn [SlashableProposalCheck KvValidatorDB] in E.
    by eapply (kvProposal_reject db pk _ slot root); [apply (proj2 (Ht pk))|exact Hok|exact E|].
Qed.
Lemma kv_reject db h e r db' : kv_protects db h → event_ok e → checkEvent e db = (r, db') → r ≠ Ok tt → kv_protects db' h.
Proof. intros (h'&Hsub&Ht) Hok E Hr. exists h'. split; [done|]. by rewrite (kv_unchanged _ _ _ _ _ Ht Hok E Hr). Qed.
Lemma kv_weaken db h e : kv_protects db (e :: h) → kv_protects db h.
Proof. intros (h'&Hsub&Ht). exists h'. split; [|done]. intros f Hf. apply Hsub. by right. Qed.

#[export] Instance KvSlashingProtection : SlashingProtection DB := {
  protects := kv_protects;
  in_scope := kv_in_scope;
  protects_accept := kv_accept;
  protects_reject := kv_reject;
  protects_partial := kv_partial;
  protects_weaken := kv_weaken }.
End instance.

(** ** Buckets as sorted maps, for the examples *)
Abbreviation MapBucket := (gmap (list Z) (list Z)).
Definition entry_le (x y : list Z * list Z) : Prop := bytes_le x.1 y.1.
#[export] Instance entry_le_dec x y : Decision (entry_le x y).
Proof. unfold entry_le. apply _. Defined.
#[export] Instance entry_le_total : Total entry_le.
Proof. intros x y. apply bytes_le_total. Qed.
#[export] Instance entry_le_trans : Transitive entry_le.
Proof. intros x y z. apply bytes_le_trans. Qed.
#[export] Instance mapBucket : KVBucket MapBucket := {
  kempty := ∅;
  kget k b := b !! k;
  kput k v b := <[k := v]> b;
  kdelete k b := delete k b;
  kentries b := merge_sort entry_le (map_to_list b) }.
#[export] Instance mapBucketLaws : KVBucketLaws MapBucket.
Proof.
  split; cbn.
  - intros k. apply lookup_empty.
  - intros k v b. apply lookup_insert_eq.
  - intros k k' v b Hne. by apply lookup_insert_ne.
  - intros k b. apply lookup_delete_eq.
  - intros k k' b Hne. by apply lookup_delete_ne.
  - intros k v b. rewrite merge_sort_Permutation. apply elem_of_map_to_list.
  - intros b. rewrite (fmap_Permutation fst _ _ (merge_sort_Permutation entry_le (map_to_list b))). apply NoDup_fst_map_to_list.
  - intros b. pose proof (StronglySorted_merge_sort entry_le (map_to_list b)) as Hs.
    induction Hs as [|x l Hl IH Hx]; [constructor|]. rewrite fmap_cons. constructor; [done|].
    apply Forall_fmap. eapply Forall_impl; [exact Hx|]. done.
Qed.
#[export] Instance mainnetWeakSubjectivity : WeakSubjectivity := {| WeakSubjectivityPeriod := 54000 |}.
#[export] Instance mainnetKvOk : KvConfigOk (cfg := mainnet_config).
Proof. split; by vm_compute. Qed.

(** ** Theorems *)

(** When every record is written before the call that handed it over returns, and the
    calls come one after the other, the client never publishes two messages of one key that
    are slashable together, provided a block is never requested for a slot that is older
    than the weak subjectivity period before the key's highest signed slot. *)
Theorem kv_client_one_at_a_time `{KVBucketLaws B} `{cfg : BeaconChainConfig} `{ws : WeakSubjectivity} `{!KvConfigOk}
    (ds : list duty) (db : KvDB (B := B)) (h h' : list event) (db' : KvDB (B := B)) :
  Forall duty_ok ds → scoped ds db → protects db h → never_slashable h → serve ds db h = (h', db') →
  never_slashable h' ∧ protects db' h'.
Proof. apply serve_safe. Qed.
(** EIP-3076's rule on the history of all keys. *)
Definition eip3076 (h : list event) (e : event) : bool :=
  match e with
  | Attested pk v => eip3076_allows (votes_of pk h) v
  | Proposed pk slot root => eip3076_allows_block (blocks_of pk h) slot root
  end.

Section rule.
Context `{KVBucketLaws B} `{cfg : BeaconChainConfig} `{ws : WeakSubjectivity} `{!KvConfigOk}.

Lemma kv_eip3076_ok (db : KvDB (B := B)) (h : list event) (e : event) :
  tracks db h → event_ok e → kv_in_scope db e → is_ok (checkEvent e db).1 = eip3076 h e.
Proof.
  intros Ht Hok Hsc. destruct e as [pk v|pk slot root]; cbn [checkEvent eip3076].
  - cbn [SlashableAttestationCheck KvValidatorDB]. pose proof (kvAttestation_spec db pk _ v (proj1 (Ht pk)) Hok) as Hs.
    destruct (eip3076_allows (votes_of pk h) v); [by rewrite Hs|by destruct Hs as [e ->]].
  - exact (kvProposal_rule db pk _ slot root (proj2 (Ht pk)) Hok Hsc).
Qed.
End rule.

(** C5: The rule of the complete database is EIP-3076, in both directions.  While the
    buckets hold the messages [h], an attestation request gets past the checks exactly when
    EIP-3076 allows it after [h]; it is then the record of the attestation that is handed
    over to be written, and the transaction that writes it makes the buckets hold the
    attestation as well.  A block request succeeds exactly when EIP-3076 allows it after
    [h], and then the buckets hold the block too; a refused one changes nothing.  For blocks
    the slot must be recent: less than a weak subjectivity period before the highest slot
    the key has signed. *)
Theorem kv_implements_eip3076 `{KVBucketLaws B} `{cfg : BeaconChainConfig} `{ws : WeakSubjectivity} `{!KvConfigOk}
    (db : KvDB (B := B)) (h : list event) (e : event) :
  tracks db h → event_ok e → kv_in_scope db e →
  match e with
  | Attested pk v =>
      if eip3076 h e
      then attestationToSave (attOf v) pk (v_root v) db = Ok (voteRecord pk v) ∧
           tracks (saveAttestationRecords [voteRecord pk v] db) (e :: h)
      else ∃ err, attestationToSave (attOf v) pk (v_root v) db = Err err
  | Proposed pk slot root =>
      if eip3076 h e
      then ∃ db', kvSlashableProposalCheck pk slot root db = (Ok tt, db') ∧ tracks db' (e :: h)
      else ∃ err, kvSlashableProposalCheck pk slot root db = (Err err, db)
  end.
Proof.
  intros Ht Hok Hsc. pose proof (kv_eip3076_ok db h e Ht Hok Hsc) as Hr. destruct e as [pk v|pk slot root].
  - pose proof (attestationToSave_spec db pk _ v (proj1 (Ht pk)) Hok) as Hs. cbn [eip3076].
    destruct (eip3076_allows (votes_of pk h) v) eqn:Ha; [by apply tracks_vote|exact Hs].
  - cbn [checkEvent SlashableProposalCheck KvValidatorDB] in Hr. rewrite <-Hr.
    destruct (kvSlashableProposalCheck pk slot root db) as [r db'] eqn:E. cbn [fst].
    destruct r as [[]| | |]; cbn [is_ok].
    2-4: destruct (kvProposal_reject db pk _ slot root _ db' (proj2 (Ht pk)) Hok E) as [[err He] ->]; [done|]; rewrite He; by exists err.
    exists db'. split; [done|]. by apply (tracks_accept db h (Proposed pk slot root)).
Qed.

(** A database that has seen one attestation and one block. *)
Definition usedDB : KvDB (B := MapBucket) :=
  (kvSlashableProposalCheck (cfg := mainnet_config) key1 64 rootA (saveAttestationRecords [voteRecord key1 (mkVote 1 5 rootA)] NewKVStore)).2.
Definition usedHistory : list event := [Proposed key1 64 rootA; Attested key1 (mkVote 1 5 rootA)].
Lemma usedDB_tracks : tracks (cfg := mainnet_config) usedDB usedHistory.
Proof.
  apply (tracks_accept (cfg := mainnet_config) (saveAttestationRecords [voteRecord key1 (mkVote 1 5 rootA)] NewKVStore) _ (Proposed key1 64 rootA)).
  - apply tracks_vote; [apply tracks_new|repeat split; cbn; lia || done|done].
  - repeat split; cbn; lia || done.
  - apply injective_projections; [by vm_compute|reflexivity].
Qed.

Lemma kv_implements_eip3076_witness :
  tracks (cfg := mainnet_config) (saveAttestationRecords [voteRecord key1 (mkVote 2 6 rootB)] usedDB)
    (Attested key1 (mkVote 2 6 rootB) :: usedHistory) ∧
  (∃ err, attestationToSave (attOf (mkVote 2 4 rootB)) key1 rootB usedDB = Err err) ∧
  (∃ err, kvSlashableProposalCheck (cfg := mainnet_config) key1 64 rootB usedDB = (Err err, usedDB)).
Proof.
  split_and!.
  - exact (proj2 (kv_implements_eip3076 (cfg := mainnet_config) usedDB usedHistory (Attested key1 (mkVote 2 6 rootB))
      usedDB_tracks ltac:(repeat split; cbn; lia || done) I)).
  - exact (kv_implements_eip3076 (cfg := mainnet_config) usedDB usedHistory (Attested key1 (mkVote 2 4 rootB))
      usedDB_tracks ltac:(repeat split; cbn; lia || done) I).
  - exact (kv_implements_eip3076 (cfg := mainnet_config) usedDB usedHistory (Proposed key1 64 rootB)
      usedDB_tracks ltac:(repeat split; cbn; lia || done) ltac:(intros _; by vm_compute)).
Defined.

Lemma covered_allows `{YamlLaws} (fdb : FsDB) (h : list event) (e : event) :
  fs_protects fdb h → accepts (record fdb (event_key e)) e = true → eip3076 h e = true.
Proof.
  intros Hp Ha. unfold fs_protects in Hp. rewrite Forall_forall in Hp.
  assert (Hsafe : ∀ f, f ∈ h → event_key f = event_key e → ∃ r, record fdb (event_key e) = Some r ∧ covered_by r f ∧ slashable e f = false).
  { intros f Hf Hk. destruct (Hp f Hf) as (r&Er&Hc). rewrite Hk in Er. rewrite Er in Ha. exists r.
    split_and!; [done..|]. by eapply accepts_safe. }
  destruct e as [pk v|pk slot root]; cbn [eip3076 event_key] in *.
  - assert (Hv : ∀ w, w ∈ votes_of pk h → conflict v w = false ∧ v_source w ≤ v_source v ∧ v_target w < v_target v).
    { intros w Hw%elem_votes_of. destruct (Hsafe _ Hw eq_refl) as (r&Er&[Hcs Hct]&Hs). rewrite Er in Ha. cbn in Ha, Hs, Hct.
      rewrite bool_decide_eq_true_2 in Hs by done. destruct (LastSignedAttestationTargetEpoch r); [|done].
      apply andb_true_iff in Ha as [Ha1 Ha2]. split; [exact Hs|lia]. }
    unfold eip3076_allows. destruct (votes_of pk h) as [|w ws]; [done|].
    rewrite !andb_true_iff, !orb_true_iff. destruct (Hv w ltac:(by left)) as (_&Hs&Ht). split_and!.
    + apply negb_true_iff, not_true_iff_false. intros (w'&Hin%list_elem_of_In&Hc)%existsb_exists. destruct (Hv w' Hin). congruence.
    + right. cbn. by rewrite (proj2 (Z.leb_le _ _) Hs).
    + left; right. cbn. by rewrite (proj2 (Z.ltb_lt _ _) Ht).
  - assert (Hb : ∀ p, p ∈ blocks_of pk h → p.1 < slot).
    { intros [s r0] Hin%elem_blocks_of. destruct (Hsafe _ Hin eq_refl) as (r&Er&Hc&_). rewrite Er in Ha. cbn in Ha, Hc |- *.
      unfold accepts_block in Ha. cbn in Ha. destruct (LatestSignedBlockSlot r); [lia|done]. }
    unfold eip3076_allows_block. apply andb_true_iff. split.
    + apply forallb_forall. intros p Hin%list_elem_of_In. specialize (Hb p Hin). by rewrite (proj2 (Z.eqb_neq p.1 slot)) by lia.
    + destruct (blocks_of pk h) as [|p ps]; [done|]. cbn. by rewrite (proj2 (Z.ltb_lt _ _) (Hb p ltac:(by left))).
Qed.

(** The minimal database is the stricter one.  When the filesystem database covers the
    messages [h] and the complete database holds them, every request the filesystem
    database accepts is also accepted by the complete one. *)
Theorem minimal_database_is_stricter `{YamlLaws} `{KVBucketLaws B} `{cfg : BeaconChainConfig} `{ws : WeakSubjectivity} `{!KvConfigOk}
    (fdb fdb' : FsDB) (kdb : KvDB (B := B)) (h : list event) (e : event) :
  fs_protects fdb h → tracks kdb h → event_ok e → kv_in_scope kdb e →
  checkEvent e fdb = (Ok tt, fdb') → is_ok (checkEvent e kdb).1 = true.
Proof.
  intros Hp Ht Hok Hsc E. rewrite (kv_eip3076_ok kdb h e Ht Hok Hsc). apply (covered_allows fdb); [done|].
  destruct (checkEvent_cases fdb e Hok) as [[Ha _]|[[_ E']|(_&_&Hr&_)]]; [done|congruence|by rewrite E in Hr].
Qed.
Lemma minimal_database_is_stricter_witness :
  ∃ fdb', checkEvent (Attested key1 (mkVote 1 2 rootA)) (∅ : FsDB) = (Ok tt, fdb') ∧
  is_ok (checkEvent (Attested key1 (mkVote 1 2 rootA)) (NewKVStore (B := MapBucket)) (H := KvValidatorDB (cfg := mainnet_config))).1 = true.
Proof.
  exists (checkEvent (Attested key1 (mkVote 1 2 rootA)) (∅ : FsDB)).2.
  assert (E : checkEvent (Attested key1 (mkVote 1 2 rootA)) (∅ : FsDB) =
    (Ok tt, (checkEvent (Attested key1 (mkVote 1 2 rootA)) (∅ : FsDB)).2)) by (apply injective_projections; [by vm_compute|reflexivity]).
  split; [exact E|].
  apply (minimal_database_is_stricter (cfg := mainnet_config) ∅ _ (NewKVStore (B := MapBucket)) [] (Attested key1 (mkVote 1 2 rootA))
    ltac:(constructor) tracks_new ltac:(repeat split; cbn; lia || done) I E).
Defined.

(** C39: Outside that window the complete database forgets.  Let a key have signed a block
    for [slot] and one for a lower slot.  Once a block is signed a weak subjectivity period
    or more after [slot], pruning has removed the record of [slot], while the lowest signed
    slot, which is all that is left to refuse old slots, is still below it: the database
    accepts any block for [slot] again, so one with another root that is slashable together
    with the first. *)
Theorem pruned_slot_can_be_signed_twice `{KVBucketLaws B} `{cfg : BeaconChainConfig} `{ws : WeakSubjectivity} `{!KvConfigOk}
    (db db' : KvDB (B := B)) (h : list event) (pk : PubKey) (low slot newest : Z) (rootL root rootN root' : Root) :
  tracks db h → Proposed pk low rootL ∈ h → Proposed pk slot root ∈ h → low < slot →
  event_ok (Proposed pk newest rootN) → kvSlashableProposalCheck pk newest rootN db = (Ok tt, db') →
  epochOf slot + WeakSubjectivityPeriod ≤ epochOf newest → length root' = 32%nat → root' ≠ root →
  (∃ db'', kvSlashableProposalCheck pk slot root' db' = (Ok tt, db'')) ∧
  slashable (Proposed pk slot root') (Proposed pk slot root) = true.
Proof.
  intros Ht Hlow Hslot Hlt Hok E Hold Hlen Hne. split.
  - apply (elem_blocks_of pk (low, rootL)) in Hlow. apply (elem_blocks_of pk (slot, root)) in Hslot.
    by eapply (kvProposal_forgotten db db' pk (blocks_of pk h) low slot newest rootL root rootN); [apply Ht|..].
  - cbn [slashable]. rewrite !bool_decide_eq_true_2, Z.eqb_refl by done. by rewrite bool_decide_eq_false_2.
Qed.

Definition fullDB : KvDB (B := MapBucket) := (kvSlashableProposalCheck (cfg := mainnet_config) key1 96 rootA usedDB).2.
Lemma pruned_slot_can_be_signed_twice_witness :
  (∃ db', kvSlashableProposalCheck (cfg := mainnet_config) key1 1728096 rootA fullDB = (Ok tt, db') ∧
    ∃ db'', kvSlashableProposalCheck (cfg := mainnet_config) key1 96 rootB db' = (Ok tt, db'')) ∧
  (∃ err, kvSlashableProposalCheck (cfg := mainnet_config) key1 96 rootB fullDB = (Err err, fullDB)).
Proof.
  assert (Hfull : tracks (cfg := mainnet_config) fullDB (Proposed key1 96 rootA :: usedHistory)).
  { apply (tracks_accept (cfg := mainnet_config) usedDB _ (Proposed key1 96 rootA)); [apply usedDB_tracks|..].
    - repeat split; cbn; lia || done.
    - apply injective_projections; [by vm_compute|reflexivity]. }
  split; [|eexists; apply injective_projections; [by vm_compute|reflexivity]].
  exists (kvSlashableProposalCheck (cfg := mainnet_config) key1 1728096 rootA fullDB).2.
  assert (E : kvSlashableProposalCheck (cfg := mainnet_config) key1 1728096 rootA fullDB =
    (Ok tt, (kvSlashableProposalCheck (cfg := mainnet_config) key1 1728096 rootA fullDB).2))
    by (apply injective_projections; [by vm_compute|reflexivity]).
  split; [exact E|].
  apply (pruned_slot_can_be_signed_twice (cfg := mainnet_config) fullDB _ _ key1 64 96 1728096 rootA rootA rootA rootB Hfull
    ltac:(right; by left) ltac:(by left) ltac:(lia) ltac:(repeat split; cbn; lia || done) E ltac:(by vm_compute) eq_refl).
  intros Hr. apply (f_equal (λ l, l !! 0%nat)) in Hr. by vm_compute in Hr.
Defined.
