(* ===== verification/KvBatch.v ===== *)
(** * validator/db/kv: the goroutine that writes attestation records in batches

    [SlashableAttestationCheck] reads the database and ends in [SaveAttestationForPubKey],
    which sends the record to a channel, then subscribes to the feed of finished flushes and
    waits for one notification.  [batchAttestationWrites] is one goroutine that moves
    records from the channel to a queue and writes the whole queue when it is full or when
    a ticker fires; [flushAttestationRecords] notifies every subscriber of the result, and
    puts the records back in the queue when the transaction failed.  The goroutine returns
    when its context is done.

    The world is what the goroutines share; [written] is the sequence of records committed
    so far, from which [stored] is the database.  Handlers of one key hold the attester lock
    of the key from before the check until the call returns. *)
From S2P Require Import Prelude Primitives Config SlotTime Shuffle MerkleTrie Protection FilesystemTheorems KvProtection KvFacts KvTheorems.

Definition attestationBatchCapacity : Z := 2048.

(** Where a call of [SaveAttestationForPubKey] is after its send; [failed] is whether the
    response carries an error. *)
Inductive callPhase := Sent | Subscribed | Returned (failed : bool).
(** Where the goroutine is: in its [select], in the transaction of a flush, after it, or
    returned. *)
Inductive writerPhase := Selecting | Writing (rs : list AttestationRecord) | Notifying (failed : bool) | Stopped.

Record BatchWorld := mkBatch {
  batchedAttestationsChan : list AttestationRecord;
  batchedAttestations : list AttestationRecord;
  writer : writerPhase;
  written : list AttestationRecord;
  checked : list AttestationRecord;
  calls : list (AttestationRecord * callPhase) }.

(** [feed.Send]: every subscriber's channel gets the result, which ends its call. *)
Definition notify (failed : bool) (c : AttestationRecord * callPhase) : AttestationRecord * callPhase :=
  match c with (r, Subscribed) => (r, Returned failed) | _ => c end.

Inductive writerEvent := Received | Ticked | Committed | Failed | Notified | Cancelled.
#[export] Instance writerEvent_eq_dec : EqDecision writerEvent.
Proof. solve_decision. Defined.

(** A tick over an empty queue changes nothing and is left out. *)
Inductive writer_step : writerEvent → BatchWorld → BatchWorld → Prop :=
  | w_receive w r ch : writer w = Selecting → batchedAttestationsChan w = r :: ch →
      let records := batchedAttestations w ++ [r] in
      writer_step Received w
        (if attestationBatchCapacity <=? Z.of_nat (length records)
         then mkBatch ch [] (Writing records) (written w) (checked w) (calls w)
         else mkBatch ch records Selecting (written w) (checked w) (calls w))
  | w_tick w : writer w = Selecting → batchedAttestations w ≠ [] →
      writer_step Ticked w
        (mkBatch (batchedAttestationsChan w) [] (Writing (batchedAttestations w)) (written w) (checked w) (calls w))
  | w_commit w rs : writer w = Writing rs →
      writer_step Committed w
        (mkBatch (batchedAttestationsChan w) (batchedAttestations w) (Notifying false) (written w ++ rs) (checked w) (calls w))
  | w_fail w rs : writer w = Writing rs →
      writer_step Failed w
        (mkBatch (batchedAttestationsChan w) (batchedAttestations w ++ rs) (Notifying true) (written w) (checked w) (calls w))
  | w_notify w failed : writer w = Notifying failed →
      writer_step Notified w
        (mkBatch (batchedAttestationsChan w) (batchedAttestations w) Selecting (written w) (checked w) (notify failed <$> calls w))
  | w_cancel w : writer w = Selecting →
      writer_step Cancelled w
        (mkBatch (batchedAttestationsChan w) (batchedAttestations w) Stopped (written w) (checked w) (calls w)).

Inductive writer_run : list writerEvent → BatchWorld → BatchWorld → Prop :=
  | run_nil w : writer_run [] w w
  | run_cons e es w1 w2 w3 : writer_step e w1 w2 → writer_run es w2 w3 → writer_run (e :: es) w1 w3.

(** The records the goroutine still has to write, and all that were handed over, in the
    order of the channel. *)
Definition in_flight (w : BatchWorld) : list AttestationRecord := match writer w with Writing rs => rs | _ => [] end.
Definition pending (w : BatchWorld) : list AttestationRecord := in_flight w ++ batchedAttestations w ++ batchedAttestationsChan w.
Definition handed_over (w : BatchWorld) : list AttestationRecord := written w ++ pending w.

Definition batch_init : BatchWorld := mkBatch [] [] Selecting [] [] [].

(** What one key's handlers do; [act] names the key of a check. *)
Inductive act := Writer (e : writerEvent) | Check (pk : PubKey) | Send (pk : PubKey) | Subscribe (pk : PubKey).

(** The attester lock of the key is free: no call of the key is under way. *)
Definition lock_free (pk : PubKey) (w : BatchWorld) : Prop :=
  (∀ r, r ∈ checked w → ar_PubKey r ≠ pk) ∧ ∀ r p, (r, p) ∈ calls w → ar_PubKey r = pk → ∃ failed, p = Returned failed.

Section world.
Context {B : Type} `{KVBucket B}.
(** The database when the goroutine starts. *)
Variable db0 : KvDB (B := B).

Definition stored (w : BatchWorld) : KvDB (B := B) := saveAttestationRecords (written w) db0.

Inductive batch_step : act → BatchWorld → BatchWorld → Prop :=
  | b_writer e w w' : writer_step e w w' → batch_step (Writer e) w w'
  | b_check w pk v r : lock_free pk w → vote_ok v → attestationToSave (attOf v) pk (v_root v) (stored w) = Ok r →
      batch_step (Check pk) w
        (mkBatch (batchedAttestationsChan w) (batchedAttestations w) (writer w) (written w) (r :: checked w) (calls w))
  | b_send w cs1 r cs2 : checked w = cs1 ++ r :: cs2 → Z.of_nat (length (batchedAttestationsChan w)) < attestationBatchCapacity →
      batch_step (Send (ar_PubKey r)) w
        (mkBatch (batchedAttestationsChan w ++ [r]) (batchedAttestations w) (writer w) (written w) (cs1 ++ cs2) (calls w ++ [(r, Sent)]))
  | b_subscribe w i r : calls w !! i = Some (r, Sent) →
      batch_step (Subscribe (ar_PubKey r)) w
        (mkBatch (batchedAttestationsChan w) (batchedAttestations w) (writer w) (written w) (checked w) (<[i := (r, Subscribed)]> (calls w))).

Definition any_step (w w' : BatchWorld) : Prop := ∃ a, batch_step a w w'.

(** ** Nothing is lost, duplicated or reordered *)
Record batch_inv (w : BatchWorld) : Prop := {
  bi_calls : (calls w).*1 = handed_over w;
  bi_writing rs : writer w = Writing rs → batchedAttestations w = [] }.

Lemma notify_fst failed cs : (notify failed <$> cs).*1 = cs.*1.
Proof. rewrite <-list_fmap_compose. apply list_fmap_ext. intros i [r []] _; done. Qed.

Lemma writer_step_inv e w w' : batch_inv w → writer_step e w w' →
  batch_inv w' ∧ handed_over w' = handed_over w ∧ (calls w').*1 = (calls w).*1 ∧ checked w' = checked w.
Proof.
  intros [Hc Hi] Hs.
  cut ((∀ rs, writer w' = Writing rs → batchedAttestations w' = []) ∧ handed_over w' = handed_over w ∧
       (calls w').*1 = (calls w).*1 ∧ checked w' = checked w).
  { intros (Hi'&Hh&Hc'&Hk). split_and!; [split; [by rewrite Hc', Hh|done]|done..]. }
  destruct Hs as [w r ch Hw Hch records|w Hw Hq|w rs Hw|w rs Hw|w failed Hw|w Hw];
    unfold handed_over, pending, in_flight; rewrite Hw.
  - rewrite Hch. destruct (_ <=? _); (split_and!; [done|cbn; unfold records; by rewrite <-?app_assoc|done..]).
  - by split_and!.
  - split_and!; [done|cbn; by rewrite <-app_assoc|done..].
  - rewrite (Hi rs Hw). by split_and!.
  - split_and!; [done|done|apply notify_fst|done].
  - by split_and!.
Qed.

Lemma batch_step_inv a w w' : batch_inv w → batch_step a w w' → batch_inv w'.
Proof.
  intros Hinv Hs. destruct Hs as [e w w' Hs|w pk v r Hl Hv Hr|w cs1 r cs2 Hk Hlen|w i r Hr]; [by eapply writer_step_inv|..];
    destruct Hinv as [Hc Hi]; split; cbn; try done.
  - rewrite fmap_app, Hc. unfold handed_over, pending, in_flight. cbn. by rewrite !app_assoc.
  - rewrite list_fmap_insert, list_insert_id; [done|]. by rewrite list_lookup_fmap, Hr.
Qed.
Lemma batch_reachable w : rtc any_step batch_init w → batch_inv w.
Proof.
  intros Hr. cut (batch_inv batch_init); [|by split]. induction Hr as [|w1 w2 w3 [a Hs] _ IH]; [done|].
  intros Hi. by eapply IH, batch_step_inv.
Qed.
End world.

(** ** Progress of the goroutine *)

(** How many steps the goroutine can still make on its own when nothing fails. *)
Definition work (w : BatchWorld) : nat :=
  4 * length (batchedAttestationsChan w) + (if decide (batchedAttestations w = []) then 0 else 3) +
  match writer w with Stopped => 0 | Selecting => 1 | Writing _ => 3 | Notifying _ => 2 end.
Definition failures (es : list writerEvent) : nat := length (filter (λ e, e = Failed) es).

Lemma writer_step_work e w w' : writer_step e w w' → (S (work w') ≤ work w + 3 * failures [e])%nat.
Proof.
  intros Hs. unfold failures. destruct Hs as [w r ch Hw Hch records|w Hw Hq|w rs Hw|w rs Hw|w failed Hw|w Hw]; unfold work; rewrite Hw;
    rewrite ?Hch; cbn [length filter list_filter decide writerEvent_eq_dec];
    try destruct (_ <=? _); cbn [batchedAttestationsChan batchedAttestations writer]; repeat case_decide; cbn [length]; lia || done.
Qed.

Lemma writer_run_work es w w' : writer_run es w w' → (length es + work w' ≤ work w + 3 * failures es)%nat.
Proof.
  induction 1 as [|e es w1 w2 w3 Hs _ IH]; [cbn; lia|]. apply writer_step_work in Hs.
  unfold failures in *. rewrite filter_cons in *. cbn [length]. destruct (decide (e = Failed)); cbn in *; lia.
Qed.
Lemma writer_run_inv es w w' : writer_run es w w' → batch_inv w → handed_over w' = handed_over w.
Proof.
  induction 1 as [|e es w1 w2 w3 Hs _ IH]; [done|]. intros Hi. destruct (writer_step_inv _ _ _ Hi Hs) as (Hi2&Hh&_).
  by rewrite (IH Hi2).
Qed.

(** The goroutine has returned, or has nothing to do but to notice a cancellation. *)
Definition idle (w : BatchWorld) : Prop := ∀ e w', writer_step e w w' → e = Cancelled.
Lemma idle_pending w : idle w → writer w ≠ Stopped → pending w = [].
Proof.
  intros Hno Hst. unfold pending, in_flight. destruct (writer w) as [|rs|failed|] eqn:Hw; [| | |done].
  - destruct (decide (batchedAttestations w = [])) as [->|E]; [|by specialize (Hno _ _ (w_tick w Hw E))].
    destruct (batchedAttestationsChan w) as [|r ch] eqn:Hc; [done|]. by specialize (Hno _ _ (w_receive w r ch Hw Hc)).
  - by specialize (Hno _ _ (w_commit w rs Hw)).
  - by specialize (Hno _ _ (w_notify w failed Hw)).
Qed.

(** C25: The batching goroutine writes what it is given, in order.  From any reachable world
    it takes at most [work w] steps of its own, and three more for every transaction that
    fails.  Whatever happens, failed transactions and cancellation included, what is written
    followed by what is still in the batch, the queue and the channel is exactly the records
    handed over so far, in the order of the hand-over: none is lost, duplicated or
    reordered.  When the goroutine has not been cancelled and has nothing left to do, all
    of them are written. *)
Theorem batch_writer_drains `{KVBucket B} (db0 : KvDB (B := B)) (w w' : BatchWorld) (es : list writerEvent) :
  rtc (any_step db0) batch_init w → writer_run es w w' →
  (length es ≤ work w + 3 * failures es)%nat ∧
  (calls w).*1 = written w' ++ pending w' ∧
  (writer w' ≠ Stopped → idle w' → written w' = (calls w).*1).
Proof.
  intros Hr Hn. pose proof (batch_reachable db0 w Hr) as Hi. pose proof (writer_run_work _ _ _ Hn).
  assert (Hc : (calls w).*1 = written w' ++ pending w').
  { rewrite (bi_calls _ Hi). by rewrite <-(writer_run_inv _ _ _ Hn Hi). }
  split_and!; [lia|done|]. intros Hst Hno. rewrite Hc, (idle_pending w' Hno Hst). by rewrite app_nil_r.
Qed.

Definition recordA : AttestationRecord := mkRecord key1 1 2 rootA.
Definition key2 : PubKey := replicate 48 8.
Definition recordB : AttestationRecord := mkRecord key2 1 2 rootA.

(** ** Runs of the goroutine and of calls, step by step *)
Lemma receive_small ch q wr k cs r : Z.of_nat (length q) + 1 < attestationBatchCapacity →
  writer_step Received (mkBatch (r :: ch) q Selecting wr k cs) (mkBatch ch (q ++ [r]) Selecting wr k cs).
Proof.
  intros Hl. pose proof (w_receive (mkBatch (r :: ch) q Selecting wr k cs) r ch eq_refl eq_refl) as Hs.
  cbn [batchedAttestations written calls checked] in Hs. cbn zeta in Hs. rewrite length_app in Hs. cbn [length] in Hs.
  by rewrite (proj2 (Z.leb_gt attestationBatchCapacity _)) in Hs by lia.
Qed.
Lemma tick ch q wr k cs : q ≠ [] → writer_step Ticked (mkBatch ch q Selecting wr k cs) (mkBatch ch [] (Writing q) wr k cs).
Proof. intros Hq. by apply (w_tick (mkBatch ch q Selecting wr k cs)). Qed.
Lemma commit ch q rs wr k cs :
  writer_step Committed (mkBatch ch q (Writing rs) wr k cs) (mkBatch ch q (Notifying false) (wr ++ rs) k cs).
Proof. by apply (w_commit (mkBatch ch q (Writing rs) wr k cs)). Qed.
Lemma requeue ch q rs wr k cs : writer_step Failed (mkBatch ch q (Writing rs) wr k cs) (mkBatch ch (q ++ rs) (Notifying true) wr k cs).
Proof. by apply (w_fail (mkBatch ch q (Writing rs) wr k cs)). Qed.
Lemma announce ch q f wr k cs :
  writer_step Notified (mkBatch ch q (Notifying f) wr k cs) (mkBatch ch q Selecting wr k (notify f <$> cs)).
Proof. by apply (w_notify (mkBatch ch q (Notifying f) wr k cs)). Qed.

Section runs.
Context {B : Type} `{KVBucketLaws B}.
Variable db0 : KvDB (B := B).

Lemma check_step ch q wp wr k cs pk v : lock_free pk (mkBatch ch q wp wr k cs) → vote_ok v →
  attestationToSave (attOf v) pk (v_root v) (saveAttestationRecords wr db0) = Ok (voteRecord pk v) →
  any_step db0 (mkBatch ch q wp wr k cs) (mkBatch ch q wp wr (voteRecord pk v :: k) cs).
Proof. intros Hl Hv Hr. exists (Check pk). by apply (b_check db0 (mkBatch ch q wp wr k cs) pk v). Qed.
Lemma send_step ch q wp wr r cs : Z.of_nat (length ch) < attestationBatchCapacity →
  any_step db0 (mkBatch ch q wp wr [r] cs) (mkBatch (ch ++ [r]) q wp wr [] (cs ++ [(r, Sent)])).
Proof. intros Hl. eexists. by apply (b_send db0 (mkBatch ch q wp wr [r] cs) [] r []). Qed.
Lemma subscribe_step ch q wp wr k cs i r : cs !! i = Some (r, Sent) →
  any_step db0 (mkBatch ch q wp wr k cs) (mkBatch ch q wp wr k (<[i := (r, Subscribed)]> cs)).
Proof. intros Hi. eexists. by apply (b_subscribe db0 (mkBatch ch q wp wr k cs) i r). Qed.
Lemma goroutine_step e w w' : writer_step e w w' → any_step db0 w w'.
Proof. intros Hs. eexists. by apply b_writer. Qed.

(** A call that comes while the goroutine is idle runs as [kvSlashableAttestationCheck]
    with [flushedAlone]: it can return without an error, with its record in the database. *)
Lemma idle_call wr pk v : vote_ok v →
  attestationToSave (attOf v) pk (v_root v) (saveAttestationRecords wr db0) = Ok (voteRecord pk v) →
  rtc (any_step db0) (mkBatch [] [] Selecting wr [] [])
    (mkBatch [] [] Selecting (wr ++ [voteRecord pk v]) [] [(voteRecord pk v, Returned false)]) ∧
  kvSlashableAttestationCheck flushedAlone (attOf v) pk (v_root v) (saveAttestationRecords wr db0) =
    (Ok tt, saveAttestationRecords (wr ++ [voteRecord pk v]) db0).
Proof.
  intros Hv Hr. split.
  - eapply rtc_l; [apply check_step; [split|done|exact Hr]|].
    { intros r Hin. by apply not_elem_of_nil in Hin. }
    { intros r p Hin. by apply not_elem_of_nil in Hin. }
    eapply rtc_l; [by apply send_step|]. cbn. eapply rtc_l; [by apply (subscribe_step _ _ _ _ _ _ 0%nat)|]. cbn.
    eapply rtc_l; [apply (goroutine_step Received); by apply receive_small|]. cbn.
    eapply rtc_l; [apply (goroutine_step Ticked); by apply tick|].
    eapply rtc_l; [apply (goroutine_step Committed); apply commit|].
    apply rtc_once, (goroutine_step Notified). apply announce.
  - unfold kvSlashableAttestationCheck, mget, mbind, M_bind, mlift. rewrite Hr. cbn.
    unfold saveAttestationRecords. by rewrite foldl_app.
Qed.
End runs.

Lemma batch_writer_drains_witness :
  ∃ w w', rtc (any_step (NewKVStore (B := MapBucket))) batch_init w ∧
    writer_run [Received; Ticked; Failed; Notified; Ticked; Committed; Notified] w w' ∧
    (7 ≤ work w + 3)%nat ∧ written w = [] ∧ written w' = [recordA].
Proof.
  set (w := mkBatch [recordA] [] Selecting [] [] [(recordA, Sent)]).
  set (w' := mkBatch [] [] Selecting [recordA] [] [(recordA, Sent)]).
  assert (Hr : rtc (any_step (NewKVStore (B := MapBucket))) batch_init w).
  { eapply rtc_l; [apply (check_step _ [] [] Selecting [] [] [] key1 (mkVote 1 2 rootA))|].
    - split; [intros r Hin|intros r p Hin]; by apply not_elem_of_nil in Hin.
    - repeat split; cbn; lia || done.
    - by vm_compute.
    - apply rtc_once. by apply (send_step _ [] [] Selecting [] recordA []). }
  assert (Hn : writer_run [Received; Ticked; Failed; Notified; Ticked; Committed; Notified] w w').
  { eapply run_cons; [by apply (receive_small [] [])|]. eapply run_cons; [by apply tick|].
    eapply run_cons; [apply requeue|]. eapply run_cons; [apply announce|]. cbn.
    eapply run_cons; [by apply tick|]. eapply run_cons; [apply commit|].
    eapply run_cons; [apply announce|]. apply run_nil. }
  assert (Hidle : idle w').
  { intros e w'' Hs. inversion Hs; subst; cbn in *; try done. }
  exists w, w'. split; [exact Hr|]. split; [exact Hn|].
  destruct (batch_writer_drains _ w w' _ Hr Hn) as (Hb&_&Hd). split; [exact Hb|]. split; [done|].
  exact (Hd ltac:(done) Hidle).
Defined.

(** ** Safety of the attestations a client publishes *)
Definition recordVote (r : AttestationRecord) : vote := mkVote (ar_Source r) (ar_Target r) (ar_SigningRoot r).
Definition recordEvent (r : AttestationRecord) : event := Attested (ar_PubKey r) (recordVote r).
(** The client publishes an attestation after its call returned without an error. *)
Definition published (w : BatchWorld) : list event :=
  omap (λ c, match c with (r, Returned false) => Some (recordEvent r) | _ => None end) (calls w).
(** No record of the key waits to be written. *)
Definition drained (w : BatchWorld) (pk : PubKey) : Prop := ∀ r, r ∈ pending w → ar_PubKey r ≠ pk.
(** A step that checks a request of a key only when the key's records are all written. *)
Definition timely_step `{KVBucket B} (db0 : KvDB (B := B)) (w w' : BatchWorld) : Prop :=
  ∃ a, batch_step db0 a w w' ∧ match a with Check pk => drained w pk | _ => True end.

Section safety.
Context {B : Type} `{KVBucketLaws B} `{cfg : BeaconChainConfig} `{ws : WeakSubjectivity} `{!KvConfigOk}.
Variables (db0 : KvDB (B := B)) (h0 : list event).

(** All records that got past the checks, and the messages the database started with *)
Definition acceptedEvents (w : BatchWorld) : list event := (recordEvent <$> checked w ++ handed_over w) ++ h0.

Record safe_inv (w : BatchWorld) : Prop := {
  si_batch : batch_inv w;
  si_ok : Forall (λ r, vote_ok (recordVote r)) (checked w ++ handed_over w);
  si_safe : never_slashable (acceptedEvents w);
  si_tracks : tracks (stored db0 w) (reverse (recordEvent <$> written w) ++ h0) }.

Lemma tracks_save (db : KvDB (B := B)) h r : tracks db h → vote_ok (recordVote r) →
  Forall (λ f, slashable (recordEvent r) f = false) h → tracks (saveAttestationRecords [r] db) (recordEvent r :: h).
Proof.
  intros Ht Hv Hs pk'. destruct (Ht pk') as [HA HP]. split; [|by eapply tracksP_frame; [..|exact HP]].
  unfold votes_of. cbn [omap list_omap recordEvent]. destruct (decide (ar_PubKey r = pk')) as [<-|Hne].
  - destruct r as [pk s t root]. apply (tracksA_save db pk _ (mkVote s t root)); [done..|].
    intros w Hw%elem_votes_of. rewrite Forall_forall in Hs. specialize (Hs _ Hw). cbn [slashable recordEvent ar_PubKey] in Hs.
    by rewrite bool_decide_eq_true_2 in Hs.
  - by eapply tracksA_other.
Qed.
Lemma tracks_saves rs (db : KvDB (B := B)) h : tracks db h → Forall (λ r, vote_ok (recordVote r)) rs →
  never_slashable ((recordEvent <$> rs) ++ h) → tracks (saveAttestationRecords rs db) (reverse (recordEvent <$> rs) ++ h).
Proof.
  revert db h. induction rs as [|r rs IH]; intros db h Ht Hok Hs; [done|]. apply Forall_cons in Hok as [Hr Hok].
  change (saveAttestationRecords (r :: rs) db) with (saveAttestationRecords rs (saveAttestationRecords [r] db)).
  rewrite fmap_cons, reverse_cons, <-app_assoc. apply IH; [|done|].
  - apply tracks_save; [done..|]. apply Forall_forall. intros f Hf. apply Hs; [by left|]. right. apply elem_of_app. by right.
  - intros e f He Hf. apply Hs; set_solver.
Qed.

Lemma handed_over_written w r : r ∈ written w → r ∈ handed_over w.
Proof. intros Hr. apply elem_of_app. by left. Qed.

(** With its lock held and its records written, a key's accepted votes are in the database. *)
Lemma drained_votes w pk e : safe_inv w → lock_free pk w → drained w pk → e ∈ acceptedEvents w → event_key e = pk →
  e ∈ reverse (recordEvent <$> written w) ++ h0.
Proof.
  intros Hi [Hl _] Hd He Hk. unfold acceptedEvents in He. rewrite fmap_app, !elem_of_app, !list_elem_of_fmap in He.
  rewrite elem_of_app, elem_of_reverse. destruct He as [[(r&->&Hr)|(r&->&Hr)]|He]; [by apply Hl in Hr| |by right].
  left. apply list_elem_of_fmap_2. unfold handed_over in Hr. apply elem_of_app in Hr as [Hr|Hr]; [done|by apply Hd in Hr].
Qed.

Lemma check_safe w pk v r : safe_inv w → lock_free pk w → drained w pk → vote_ok v →
  attestationToSave (attOf v) pk (v_root v) (stored db0 w) = Ok r →
  r = voteRecord pk v ∧ Forall (λ f, slashable (Attested pk v) f = false) (acceptedEvents w).
Proof.
  intros Hi Hl Hd Hv Hr. pose proof (attestationToSave_spec _ pk _ v (proj1 (si_tracks _ Hi pk)) Hv) as Hs.
  destruct (eip3076_allows _ v) eqn:Ha; [|destruct Hs as [e Hs]; congruence]. split; [congruence|].
  apply Forall_forall. intros f Hf. destruct f as [pk' v'|]; [|done]. cbn [slashable].
  case_bool_decide as Hpk; [subst pk'|done]. cbn [andb]. apply (eip3076_no_conflict _ _ Ha).
  apply elem_votes_of. by apply (drained_votes w pk).
Qed.

Lemma safe_step w w' : safe_inv w → timely_step db0 w w' → safe_inv w'.
Proof.
  intros Hi (a&Hs&Ha). assert (Hb : batch_inv w') by (by eapply batch_step_inv; [apply Hi|]).
  destruct Hs as [e w w' Hs|w pk v r Hl Hv Hr|w cs1 r cs2 Hk Hlen|w i r Hr].
  - destruct (writer_step_inv _ _ _ (si_batch _ Hi) Hs) as (_&Hh&_&Hk).
    destruct Hi as [Hbi Hok Hsafe Ht]. split; [done|by rewrite Hh, Hk|unfold acceptedEvents; by rewrite Hh, Hk|].
    assert (Hcase : written w' = written w ∨ ∃ rs, writer w = Writing rs ∧ written w' = written w ++ rs).
    { destruct Hs; cbn; eauto. destruct (_ <=? _); by left. }
    unfold stored in *. destruct Hcase as [->|(rs&Hw&->)]; [done|].
    unfold saveAttestationRecords. rewrite foldl_app. fold (saveAttestationRecords (written w) db0).
    rewrite fmap_app, reverse_app, <-app_assoc. apply tracks_saves; [done|..].
    + apply Forall_app in Hok as [_ Hok]. unfold handed_over, pending, in_flight in Hok. rewrite Hw in Hok.
      apply Forall_app in Hok as [_ Hok]. by apply Forall_app in Hok as [Hok _].
    + intros e1 e2 He1 He2. apply Hsafe; unfold acceptedEvents, handed_over, pending, in_flight; rewrite Hw; set_solver.
  - destruct (check_safe w pk v r Hi Hl Ha Hv Hr) as [-> Hs]. destruct Hi as [Hbi Hok Hsafe Ht].
    assert (Hv' : recordVote (voteRecord pk v) = v) by by destruct v.
    split; [done| |..|done].
    + cbn. constructor; [by rewrite Hv'|done].
    + unfold acceptedEvents. cbn. unfold recordEvent at 1. rewrite Hv'. by apply never_slashable_cons.
  - destruct Hi as [Hbi Hok Hsafe Ht].
    assert (Hp : checked w ++ handed_over w ≡ₚ (cs1 ++ cs2) ++ written w ++ in_flight w ++ batchedAttestations w ++ batchedAttestationsChan w ++ [r]).
    { unfold handed_over, pending. rewrite Hk. solve_Permutation. }
    split; [done| |..|done].
    + eapply Permutation_Forall; [|exact Hok]. exact Hp.
    + intros e1 e2 He1 He2. apply Hsafe; unfold acceptedEvents; rewrite Hp; done.
  - destruct Hi as [Hbi Hok Hsafe Ht]. by split.
Qed.
End safety.

Lemma published_accepted w h0 e : batch_inv w → e ∈ published w → e ∈ acceptedEvents h0 w.
Proof.
  intros Hb ((r,p)&Hin&E)%list_elem_of_omap. unfold acceptedEvents. apply elem_of_app. left.
  destruct p as [| |[]]; try done. injection E as <-. apply list_elem_of_fmap_2, elem_of_app. right.
  rewrite <-(bi_calls _ Hb). apply list_elem_of_fmap. by exists (r, Returned false).
Qed.

(** C12: Over the complete database the attestations a client publishes are never slashable
    together, nor with the messages [h0] the database held when the goroutine started:
    however the calls of all keys interleave with the goroutine, whichever transactions
    fail, and wherever the goroutine is cancelled, as long as a request of a key is checked
    only when none of the key's earlier records is still waiting to be written. *)
Theorem kv_attestations_never_slashable `{KVBucketLaws B} `{cfg : BeaconChainConfig} `{ws : WeakSubjectivity} `{!KvConfigOk}
    (db0 : KvDB (B := B)) (h0 : list event) (w : BatchWorld) :
  tracks db0 h0 → never_slashable h0 → rtc (timely_step db0) batch_init w → never_slashable (published w ++ h0).
Proof.
  intros Ht Hn Hr. cut (safe_inv db0 h0 w).
  { intros Hi e f He Hf. apply (si_safe _ _ _ Hi); rewrite elem_of_app in He, Hf;
      [destruct He as [He|He]|destruct Hf as [Hf|Hf]];
      first [by apply (published_accepted w h0); [apply Hi|]|by unfold acceptedEvents; apply elem_of_app; right]. }
  assert (Hi : safe_inv db0 h0 batch_init) by (split; [by split|constructor|done|done]).
  revert Hi. induction Hr as [|w1 w2 w3 Hs _ IH]; [done|]. intros Hi. by eapply IH, safe_step.
Qed.

Definition voteB : vote := mkVote 1 2 rootA.
Definition voteB' : vote := mkVote 1 2 rootB.
Definition db00 : KvDB (B := MapBucket) := NewKVStore.

Lemma lock_free_returned ch q wp wr k r b cs pk : lock_free pk (mkBatch ch q wp wr k cs) →
  lock_free pk (mkBatch ch q wp wr k ((r, Returned b) :: cs)).
Proof. intros [Hk Hc]. split; [done|]. intros r' p Hin. apply elem_of_cons in Hin as [[= -> ->]|Hin]; [eauto|by eapply Hc]. Qed.
Lemma lock_free_other ch q wp wr k r p cs pk : ar_PubKey r ≠ pk → lock_free pk (mkBatch ch q wp wr k cs) →
  lock_free pk (mkBatch ch q wp wr k ((r, p) :: cs)).
Proof. intros Hne [Hk Hc]. split; [done|]. intros r' p' Hin. apply elem_of_cons in Hin as [[= -> ->]|Hin]; [done|by eapply Hc]. Qed.
Lemma lock_free_nil ch q wp wr pk : lock_free pk (mkBatch ch q wp wr [] []).
Proof. split; [intros r Hin|intros r p Hin]; by apply not_elem_of_nil in Hin. Qed.
Lemma key1_not_key2 : key1 ≠ key2.
Proof. intros Hk. apply (f_equal (λ l, l !! 0%nat)) in Hk. by vm_compute in Hk. Qed.

Lemma timely_writer e w w' : writer_step e w w' → timely_step db00 w w'.
Proof. intros Hs. exists (Writer e). split; [by apply b_writer|done]. Qed.
(** A request that is checked, handed over, waits, and is written with no failure *)
Lemma timely_call wr cs pk v : lock_free pk (mkBatch [] [] Selecting wr [] cs) → vote_ok v →
  attestationToSave (attOf v) pk (v_root v) (saveAttestationRecords wr db00) = Ok (voteRecord pk v) →
  rtc (timely_step db00) (mkBatch [] [] Selecting wr [] cs)
    (mkBatch [] [] Selecting (wr ++ [voteRecord pk v]) [] ((notify false <$> cs) ++ [(voteRecord pk v, Returned false)])).
Proof.
  intros Hl Hv Hr.
  eapply rtc_l; [exists (Check pk); split; [by apply (b_check db00 (mkBatch [] [] Selecting wr [] cs) pk v)|]|].
  { intros r Hin. by apply not_elem_of_nil in Hin. }
  cbn. eapply rtc_l; [eexists; split; [by apply (b_send db00 (mkBatch [] [] Selecting wr [voteRecord pk v] cs) [] (voteRecord pk v) [])|done]|]. cbn.
  eapply rtc_l; [eexists; split; [apply (b_subscribe db00 (mkBatch [voteRecord pk v] [] Selecting wr [] (cs ++ [(voteRecord pk v, Sent)])) (length cs) (voteRecord pk v)); by apply list_lookup_middle|done]|].
  cbn [batchedAttestationsChan batchedAttestations writer written checked calls].
  rewrite (insert_app_r_alt cs _ (length cs)) by lia. rewrite Nat.sub_diag. cbn.
  eapply rtc_l; [apply (timely_writer Received); by apply receive_small|]. cbn.
  eapply rtc_l; [apply (timely_writer Ticked); by apply tick|].
  eapply rtc_l; [apply (timely_writer Committed), commit|].
  pose proof (announce [] [] false (wr ++ [voteRecord pk v]) [] (cs ++ [(voteRecord pk v, Subscribed)])) as Hs.
  rewrite fmap_app in Hs. cbn in Hs. by apply rtc_once, (timely_writer Notified).
Qed.

Lemma kv_attestations_never_slashable_witness :
  ∃ w, rtc (timely_step db00) batch_init w ∧
    published w = [Attested key1 (mkVote 1 2 rootA); Attested key2 voteB; Attested key1 (mkVote 2 3 rootB)] ∧
    never_slashable (published w ++ []).
Proof.
  exists (mkBatch [] [] Selecting [recordA; recordB; voteRecord key1 (mkVote 2 3 rootB)] []
    [(recordA, Returned false); (recordB, Returned false); (voteRecord key1 (mkVote 2 3 rootB), Returned false)]).
  assert (Hrun : rtc (timely_step db00) batch_init (mkBatch [] [] Selecting [recordA; recordB; voteRecord key1 (mkVote 2 3 rootB)] []
    [(recordA, Returned false); (recordB, Returned false); (voteRecord key1 (mkVote 2 3 rootB), Returned false)])).
  { etrans; [apply (timely_call [] [] key1 (mkVote 1 2 rootA)); [apply lock_free_nil|repeat split; cbn; lia || done|by vm_compute]|]. cbn.
    etrans; [apply (timely_call _ _ key2 voteB); [apply lock_free_returned, lock_free_nil|repeat split; cbn; lia || done|by vm_compute]|]. cbn.
    apply (timely_call [recordA; recordB] [(recordA, Returned false); (recordB, Returned false)] key1 (mkVote 2 3 rootB));
      [do 2 apply lock_free_returned; apply lock_free_nil|repeat split; cbn; lia || done|by vm_compute]. }
  split; [exact Hrun|]. split; [done|].
  apply (kv_attestations_never_slashable (cfg := mainnet_config) db00 [] _ tracks_new
    ltac:(intros e f Hf; by apply not_elem_of_nil in Hf) Hrun).
Defined.

(** ** What the early notification allows *)
(** One call hands over [recordA] and subscribes; its record is received and a flush begins. *)
Lemma first_flush : rtc (any_step db00) batch_init (mkBatch [] [] (Writing [recordA]) [] [] [(recordA, Subscribed)]).
Proof.
  eapply rtc_l; [apply (check_step _ [] [] Selecting [] [] [] key1 (mkVote 1 2 rootA))|].
  { split; [intros r Hin|intros r p Hin]; by apply not_elem_of_nil in Hin. }
  { repeat split; cbn; lia || done. }
  { by vm_compute. }
  eapply rtc_l; [by apply send_step|]. cbn. eapply rtc_l; [by apply (subscribe_step _ _ _ _ _ _ _ 0%nat)|]. cbn.
  eapply rtc_l; [apply (goroutine_step _ Received); by apply receive_small|]. cbn.
  apply rtc_once, (goroutine_step _ Ticked). by apply tick.
Qed.
(** The record of a second key's attestation arrives while the goroutine is committing an
    earlier batch, and the notification of that batch ends the second call too: it returns
    without an error while its record is still in the channel. *)
Lemma notified_before_written :
  rtc (any_step db00) batch_init
    (mkBatch [recordB] [] Selecting [recordA] [] [(recordA, Returned false); (recordB, Returned false)]).
Proof.
  etrans; [exact first_flush|].
  eapply rtc_l; [apply (check_step _ _ _ _ _ _ _ key2 voteB)|].
  { apply lock_free_other, lock_free_nil. apply key1_not_key2. }
  { repeat split; cbn; lia || done. }
  { by vm_compute. }
  eapply rtc_l; [by apply send_step|]. cbn. eapply rtc_l; [by apply (subscribe_step _ _ _ _ _ _ _ 1%nat)|]. cbn.
  eapply rtc_l; [apply (goroutine_step _ Committed), commit|]. apply rtc_once, (goroutine_step _ Notified), announce.
Qed.

(** Without that condition the attestations can be slashable: a call whose record is still
    in the channel has returned, and the key's next request is checked against a database
    that does not know it.  Both attestations are published, with different roots for one
    target. *)
Theorem early_notification_publishes_slashable :
  ∃ w, rtc (any_step db00) batch_init w ∧ Attested key2 voteB ∈ published w ∧ Attested key2 voteB' ∈ published w ∧
    slashable (Attested key2 voteB) (Attested key2 voteB') = true.
Proof.
  exists (mkBatch [] [] Selecting [recordA; recordB; voteRecord key2 voteB'] []
    [(recordA, Returned false); (recordB, Returned false); (voteRecord key2 voteB', Returned false)]).
  split_and!; [|by right; left|by right; right; left|by vm_compute].
  etrans; [exact notified_before_written|].
  eapply rtc_l; [apply (check_step _ _ _ _ _ _ _ key2 voteB')|].
  { do 2 apply lock_free_returned. apply lock_free_nil. }
  { repeat split; cbn; lia || done. }
  { by vm_compute. }
  eapply rtc_l; [by apply send_step|]. cbn. eapply rtc_l; [by apply (subscribe_step _ _ _ _ _ _ _ 2%nat)|]. cbn.
  eapply rtc_l; [apply (goroutine_step _ Received); by apply receive_small|]. cbn.
  eapply rtc_l; [apply (goroutine_step _ Received); by apply receive_small|]. cbn.
  eapply rtc_l; [apply (goroutine_step _ Ticked); by apply tick|].
  eapply rtc_l; [apply (goroutine_step _ Committed), commit|]. apply rtc_once, (goroutine_step _ Notified), announce.
Qed.

(** A call can wait for a notification that has already been sent.  When the flush with
    its record ends between the send and the subscription, the record is written, the
    goroutine has nothing left to do, and the call waits until another call causes a flush. *)
Theorem flush_before_subscribe_waits :
  ∃ w r, rtc (any_step db00) batch_init w ∧ calls w = [(r, Subscribed)] ∧ written w = [r] ∧ idle w ∧ pending w = [].
Proof.
  exists (mkBatch [] [] Selecting [recordA] [] [(recordA, Subscribed)]), recordA. split_and!; [|done|done| |done].
  - eapply rtc_l; [apply (check_step _ [] [] Selecting [] [] [] key1 (mkVote 1 2 rootA))|].
    { apply lock_free_nil. }
    { repeat split; cbn; lia || done. }
    { by vm_compute. }
    eapply rtc_l; [by apply send_step|]. cbn.
    eapply rtc_l; [apply (goroutine_step _ Received); by apply receive_small|]. cbn.
    eapply rtc_l; [apply (goroutine_step _ Ticked); by apply tick|].
    eapply rtc_l; [apply (goroutine_step _ Committed), commit|]. eapply rtc_l; [apply (goroutine_step _ Notified), announce|]. cbn.
    apply rtc_once. exact (subscribe_step db00 [] [] Selecting [recordA] [] [(recordA, Sent)] 0%nat recordA eq_refl).
  - intros e w'' Hs. inversion Hs; subst; cbn in *; try done.
Qed.
