(* ===== verification/CommitteeCache.v ===== *)
(** * The committee and proposer caches (beacon-chain/cache)

    committee.go and committees.go: the shuffled lists of validators by seed, in an
    LRU cache, with the seeds another goroutine is computing; proposer_indices.go: the
    proposers of an epoch by state root.  The LRU cache is a third-party package
    (hashicorp/golang-lru): it is the class [LRU], and [LRULaws] is what its documentation
    promises.  [bounded_lru] is a cache with these laws.  The lists that the cache hands
    out are shared with it; no caller that is modelled writes to them.  Metrics and
    tracing spans are left out.

    A cache operation that waits for another goroutine does not return ([mstuck]): run
    from a state where no seed is in progress, the operations here never wait. *)
From S2P Require Import Prelude MathHelper Primitives Config SlotTime Shuffle MVSlice EpochConfig BeaconState.

(** ** The fields of config/params/config.go that only the committees read *)
Class CommitteeConfig := {
  TargetCommitteeSize : Z;
  MaxCommitteesPerSlot : Z;
  MinSeedLookahead : Z;
  EpochsPerHistoricalVector : Z;
  DomainBeaconProposer : list Z;
  DomainBeaconAttester : list Z
}.

Definition mainnet_committee_config : CommitteeConfig := {|
  TargetCommitteeSize := 128; MaxCommitteesPerSlot := 64; MinSeedLookahead := 1;
  EpochsPerHistoricalVector := 65536;
  DomainBeaconProposer := [0; 0; 0; 0]; DomainBeaconAttester := [1; 0; 0; 0]
|}.

(** ** committees.go *)
Record Committees := mkCommittees {
  CommitteeCount : Z;
  Seed_ : list Z;
  ShuffledIndices : list Z;
  SortedIndices : list Z
}.

(** ** The LRU cache *)
Class LRU (C : Type) := {
  lru_New : Z → C;
  lru_Get : list Z → C → option Committees * C;
  lru_Add : list Z → Committees → C → bool * C;
  lru_Resize : Z → C → Z * C
}.

(** [contents c k] is the value under [k].  Reading a key changes its rank only; adding a
    key may evict others; resizing only evicts. *)
Class LRULaws (C : Type) `{LRU C} := {
  contents : C → list Z → option Committees;
  contents_New n k : 0 < n → contents (lru_New n) k = None;
  Get_contents k c : (lru_Get k c).1 = contents c k;
  Get_keeps k c k' : contents (lru_Get k c).2 k' = contents c k';
  Add_contents k v c k' w : contents (lru_Add k v c).2 k' = Some w →
    k' = k ∧ w = v ∨ k' ≠ k ∧ contents c k' = Some w;
  Resize_contents n c k w : contents (lru_Resize n c).2 k = Some w → contents c k = Some w
}.

(** A cache of bounded size, most recent entry first. *)
Record bounded := mkBounded { b_size : nat; b_entries : list (list Z * Committees) }.
Definition entryOf (k : list Z) (l : list (list Z * Committees)) : option Committees :=
  (λ p, p.2.2) <$> list_find (λ e, e.1 = k) l.
Definition without (k : list Z) (l : list (list Z * Committees)) : list (list Z * Committees) :=
  filter (λ e, e.1 ≠ k) l.
#[export] Instance bounded_lru : LRU bounded := {|
  lru_New n := mkBounded (Z.to_nat n) [];
  lru_Get k c :=
    match entryOf k (b_entries c) with
    | Some v => (Some v, mkBounded (b_size c) ((k, v) :: without k (b_entries c)))
    | None => (None, c)
    end;
  lru_Add k v c :=
    let l := (k, v) :: without k (b_entries c) in
    ((b_size c <? length l)%nat, mkBounded (b_size c) (take (b_size c) l));
  lru_Resize n c :=
    (Z.max 0 (len (b_entries c) - n), mkBounded (Z.to_nat n) (take (Z.to_nat n) (b_entries c)))
|}.

(** ** The caches of the process *)
Record CommitteeCache (C : Type) := mkCommitteeCache {
  lru : C;
  inProgress : gset (list Z);
  size : Z
}.
Arguments mkCommitteeCache {C}.
Arguments lru {C}.
Arguments inProgress {C}.
Arguments size {C}.

(** [indices] maps an epoch and a state root to the proposers of the epoch, [rootMap] a
    checkpoint to a state root. *)
Record ProposerIndicesCache := mkProposerIndicesCache {
  indices : gmap Z (gmap Z (list Z));
  rootMap : list (Checkpoint * Z)
}.

Record Caches (C : Type) := mkCaches {
  committeeCache : CommitteeCache C;
  proposerIndicesCache : ProposerIndicesCache
}.
Arguments mkCaches {C}.
Arguments committeeCache {C}.
Arguments proposerIndicesCache {C}.

Definition maxCommitteesCacheSize : Z := 4.
Definition expandedCommitteeCacheSize : Z := 32.
Definition fieldparams_SlotsPerEpoch : nat := 32.

(** [defer f()]: [f] runs however [m] ends. *)
Definition mdefer {S A} (f : M S unit) (m : M S A) : M S A := λ s,
  let '(r, s1) := m s in (r, (f s1).2).

Section committees.
Context `{cfg : BeaconChainConfig} {C : Type} `{LRU C}.

Definition set_lru (c : C) (w : Caches C) : Caches C :=
  mkCaches (mkCommitteeCache c (inProgress (committeeCache w)) (size (committeeCache w))) (proposerIndicesCache w).
Definition set_inProgress (p : gset (list Z)) (w : Caches C) : Caches C :=
  mkCaches (mkCommitteeCache (lru (committeeCache w)) p (size (committeeCache w))) (proposerIndicesCache w).
Definition set_committeeCache (cc : CommitteeCache C) (w : Caches C) : Caches C :=
  mkCaches cc (proposerIndicesCache w).
Definition set_proposers (p : ProposerIndicesCache) (w : Caches C) : Caches C :=
  mkCaches (committeeCache w) p.

(** ** committee.go *)
Definition Clear : M (Caches C) unit :=
  mmodify (set_committeeCache (mkCommitteeCache (lru_New maxCommitteesCacheSize) ∅ maxCommitteesCacheSize)).

Definition resizeTo (n : Z) : M (Caches C) unit :=
  w ← mget;
  let cc := committeeCache w in
  if size cc =? n then mret tt
  else mmodify (set_committeeCache (mkCommitteeCache (lru_Resize n (lru cc)).2 (inProgress cc) n)).
Definition ExpandCommitteeCache : M (Caches C) unit := resizeTo expandedCommitteeCacheSize.
Definition CompressCommitteeCache : M (Caches C) unit := resizeTo maxCommitteesCacheSize.

(** [cancelled]: the context of the request has been cancelled. *)
Definition checkInProgress (cancelled : bool) (seed : list Z) : M (Caches C) unit :=
  if cancelled then mfail errContext else
  w ← mget;
  if decide (seed ∈ inProgress (committeeCache w)) then mstuck else mret tt.

(** [c.CommitteeCache.Get(key(seed))] *)
Definition Get (seed : list Z) : M (Caches C) (option Committees) := λ w,
  let '(obj, c) := lru_Get seed (lru (committeeCache w)) in (Ok obj, set_lru c w).

Definition startEndIndices (c : Committees) (index : Z) : gores (Z * Z) :=
  let validatorCount := len (ShuffledIndices c) in
  start ← SplitOffset validatorCount (CommitteeCount c) index;
  end_ ← SplitOffset validatorCount (CommitteeCount c) (index +64 1);
  Ok (start, end_).

(** The committee of an entry. *)
Definition committeeOf (item : Committees) (slot index : Z) : gores (list Z) :=
  perSlot ← quo (CommitteeCount item) SlotsPerEpoch;
  let committeeCountPerSlot := if perSlot >? 1 then perSlot else 1 in
  m ← Slot.ModSlot slot SlotsPerEpoch;
  p ← Slot.Mul m committeeCountPerSlot;
  indexOffSet ← Add64 index p;
  '(start, end_) ← startEndIndices item indexOffSet;
  if (end_ >? len (ShuffledIndices item)) || (end_ <? start) then Err errMessage
  else subslice (ShuffledIndices item) start end_.

(** [nil] is [None]: a slice of a non-nil list is not [nil], even when it is empty. *)
Definition Committee (cancelled : bool) (slot : Z) (seed : list Z) (index : Z) : M (Caches C) (option (list Z)) :=
  checkInProgress cancelled seed;;
  obj ← Get seed;
  match obj with
  | None => mret None
  | Some item => c ← mlift (committeeOf item slot index); mret (Some c)
  end.

Definition AddCommitteeShuffledList (cancelled : bool) (committees : Committees) : M (Caches C) unit :=
  if cancelled then mfail errContext
  else mmodify (λ w, set_lru (lru_Add (Seed_ committees) committees (lru (committeeCache w))).2 w).

Definition ActiveIndices (cancelled : bool) (seed : list Z) : M (Caches C) (option (list Z)) :=
  checkInProgress cancelled seed;;
  obj ← Get seed;
  mret (SortedIndices <$> obj).
Definition ActiveIndicesCount (cancelled : bool) (seed : list Z) : M (Caches C) Z :=
  checkInProgress cancelled seed;;
  obj ← Get seed;
  mret (match obj with None => 0 | Some item => len (SortedIndices item) end).

Definition HasEntry (seed : list Z) : M (Caches C) bool :=
  obj ← Get seed; mret (bool_decide (is_Some obj)).

(** [false] is [ErrAlreadyInProgress], the only error. *)
Definition MarkInProgress (seed : list Z) : M (Caches C) bool :=
  w ← mget;
  let p := inProgress (committeeCache w) in
  if decide (seed ∈ p) then mret false
  else mmodify (set_inProgress (p ∪ {[seed]}));; mret true.
Definition MarkNotInProgress (seed : list Z) : M (Caches C) unit :=
  mmodify (λ w, set_inProgress (inProgress (committeeCache w) ∖ {[seed]}) w).

(** ** proposer_indices.go *)
Definition ProposerIndices (epoch root : Z) (p : ProposerIndicesCache) : option (list Z) :=
  indices p !! epoch ≫= λ inner, inner !! root.
Definition Prune (epoch : Z) (p : ProposerIndicesCache) : ProposerIndicesCache :=
  mkProposerIndicesCache
    (filter (λ '(key, _), ¬ key < epoch) (indices p))
    (filter (λ '(key, _), ¬ (Epoch_ key +64 1) < epoch) (rootMap p)).
Definition Set_ (epoch root : Z) (ids : list Z) (p : ProposerIndicesCache) : ProposerIndicesCache :=
  let inner := default ∅ (indices p !! epoch) in
  mkProposerIndicesCache (<[epoch := <[root := ids]> inner]> (indices p)) (rootMap p).
Definition SetCheckpoint (c : Checkpoint) (root : Z) (p : ProposerIndicesCache) : ProposerIndicesCache :=
  mkProposerIndicesCache (indices p) ((c, root) :: filter (λ e, e.1 ≠ c) (rootMap p)).
Definition IndicesFromCheckpoint (c : Checkpoint) (p : ProposerIndicesCache) : option (list Z) :=
  '(_, (_, root)) ← list_find (λ e, e.1 = c) (rootMap p);
  ProposerIndices (Epoch_ c +64 1) root p.
End committees.
