(* ===== verification/Committees.v ===== *)
(** * Beacon committees and proposers (beacon-chain/core/helpers)

    beacon_committee.go, randao.go and the parts of validators.go that read the committee
    and proposer caches.  The state of the definitions is the caches of the process
    ([Caches], CommitteeCache.v); the beacon state is an argument, since none of them
    changes it.  [hashfunc] is SHA-256 (crypto/hash), as in Shuffle.v.  Every request
    carries a context: [cancelled] says whether it has been cancelled, and stays the same
    during a call.

    The search for a proposer has no bound in the code; here it stops after
    [proposer_fuel] candidates. *)
From S2P Require Import Prelude MathHelper Primitives Config SlotTime Shuffle MVSlice EpochConfig BeaconState CommitteeCache.

Definition MaxRandomByte : Z := 255.
Definition MaxRandomValueElectra : Z := 65535.

(** [bytesutil.Bytes8] *)
Definition Bytes8 (x : Z) : list Z := le_bytes 8 x.

Record CommitteeAssignment := mkCommitteeAssignment {
  ca_Committee : list Z;
  ca_AttesterSlot : Z;
  ca_CommitteeIndex : Z
}.

Record LiteAssignment := mkLiteAssignment {
  la_AttesterSlot : Z;
  la_CommitteeIndex : Z;
  la_CommitteeLength : Z;
  la_ValidatorCommitteeIndex : Z
}.

(** What the committees need of an attestation; [AttBits] are the indices of the set bits
    of its committee bits, which the bit field library lists. *)
Record Attestation := mkAttestation {
  AttVersion : Z;
  AttSlot : Z;
  AttCommitteeIndex : Z;
  AttBits : list Z
}.

Section committees.
Context `{cfg : BeaconChainConfig} `{ecfg : EpochConfig} `{ccfg : CommitteeConfig}.
Context {C : Type} `{LRU C}.
Context (hashfunc : list Z → list Z) (proposer_fuel : nat) (cancelled : bool).

(** ** randao.go *)
Definition RandaoMixAtIndex (s : BeaconState) (idx : Z) : gores (list Z) := list_at (randaoMixes s) idx.
Definition RandaoMix (s : BeaconState) (epoch : Z) : gores (list Z) :=
  i ← rem epoch EpochsPerHistoricalVector; RandaoMixAtIndex s i.
Definition Seed (s : BeaconState) (epoch : Z) (domain : list Z) : gores (list Z) :=
  let lookAheadEpoch := ((epoch +64 EpochsPerHistoricalVector) -64 MinSeedLookahead) -64 1 in
  randaoMix ← RandaoMix s lookAheadEpoch;
  Ok (hashfunc (domain ++ Bytes8 epoch ++ randaoMix)).

(** ** beacon_committee.go: committees *)
Definition SlotCommitteeCount (activeValidatorCount : Z) : gores Z :=
  q ← quo activeValidatorCount SlotsPerEpoch;
  committeesPerSlot ← quo q TargetCommitteeSize;
  if committeesPerSlot >? MaxCommitteesPerSlot then Ok MaxCommitteesPerSlot
  else if committeesPerSlot =? 0 then Ok 1
  else Ok committeesPerSlot.

(** [ReadFromEveryValidator] with the callback that keeps the active indices. *)
Definition activeIndices (s : BeaconState) (epoch : Z) : list Z :=
  (filter (λ p, IsActiveValidator p.2 epoch = true) (enumerate (validators s))).*1.

Definition ComputeCommittee (indices seed : list Z) (index count : Z) : gores (list Z) :=
  let validatorCount := len indices in
  start ← SplitOffset validatorCount count index;
  end_ ← SplitOffset validatorCount count (index +64 1);
  if (start >? validatorCount) || (end_ >? validatorCount) then Err errMessage
  else
    shuffledList ← UnshuffleList hashfunc indices seed;
    subslice shuffledList start end_.

Definition ShuffledIndices_ (s : BeaconState) (epoch : Z) : gores (list Z) :=
  seed ← Seed s epoch DomainBeaconAttester;
  UnshuffleList hashfunc (activeIndices s epoch) seed.

Definition UpdateCommitteeCache (s : BeaconState) (e : Z) : M (Caches C) unit :=
  seed ← mlift (Seed s e DomainBeaconAttester);
  has ← HasEntry seed;
  if has : bool then mret tt else
  shuffledIndices ← mlift (ShuffledIndices_ s e);
  count ← mlift (SlotCommitteeCount (len shuffledIndices));
  let sortedIndices := merge_sort Z.le shuffledIndices in
  committeeCount ← mlift (Slot.Mul SlotsPerEpoch count);
  AddCommitteeShuffledList cancelled (mkCommittees committeeCount seed shuffledIndices sortedIndices).

(** ** validators.go: the active validators, through the cache *)
(** An error of [UpdateCommitteeCache] is logged only. *)
Definition logged (m : M (Caches C) unit) : M (Caches C) unit := λ w,
  match m w with (Err _, w') => (Ok tt, w') | r => r end.

Definition ActiveValidatorIndices (s : BeaconState) (epoch : Z) : M (Caches C) (list Z) :=
  seed ← mlift (Seed s epoch DomainBeaconAttester);
  cached ← ActiveIndices cancelled seed;
  match cached with
  | Some activeIndices => mret activeIndices
  | None =>
      marked ← MarkInProgress seed;
      if negb marked then
        activeIndices ← ActiveIndices cancelled seed;
        match activeIndices with None => mfail errMessage | Some l => mret l end
      else mdefer (MarkNotInProgress seed) (
        let indices := activeIndices s epoch in
        if len indices =? 0 then mfail errMessage
        else logged (UpdateCommitteeCache s epoch);; mret indices)
  end.

Definition ActiveValidatorCount (s : BeaconState) (epoch : Z) : M (Caches C) Z :=
  seed ← mlift (Seed s epoch DomainBeaconAttester);
  activeCount ← ActiveIndicesCount cancelled seed;
  if negb (activeCount =? 0) && negb (slot s =? 0) then mret activeCount
  else
    marked ← MarkInProgress seed;
    if negb marked then ActiveIndicesCount cancelled seed
    else mdefer (MarkNotInProgress seed) (
      let count := len (filter (λ v, IsActiveValidator v epoch = true) (validators s)) in
      UpdateCommitteeCache s epoch;; mret count).

(** ** beacon_committee.go: committees, through the cache *)
Definition BeaconCommittee (validatorIndices seed : list Z) (slot committeeIndex : Z) : M (Caches C) (list Z) :=
  committee ← Committee cancelled slot seed committeeIndex;
  match committee with
  | Some c => mret c
  | None => mlift (
      committeesPerSlot ← SlotCommitteeCount (len validatorIndices);
      m ← Slot.ModSlot slot SlotsPerEpoch;
      p ← Slot.Mul m committeesPerSlot;
      indexOffset ← Add64 committeeIndex p;
      let count := committeesPerSlot *64 SlotsPerEpoch in
      ComputeCommittee validatorIndices seed indexOffset count)
  end.

Definition BeaconCommitteeFromState (s : BeaconState) (slot committeeIndex : Z) : M (Caches C) (list Z) :=
  epoch ← mlift (ToEpoch slot);
  seed ← mlift (Seed s epoch DomainBeaconAttester);
  committee ← Committee cancelled slot seed committeeIndex;
  match committee with
  | Some c => mret c
  | None =>
      activeIndices ← ActiveValidatorIndices s epoch;
      BeaconCommittee activeIndices seed slot committeeIndex
  end.

(** The callers look at the length of the result only: [nil] is the empty list. *)
Definition BeaconCommitteeFromCache (s : BeaconState) (slot committeeIndex : Z) : M (Caches C) (list Z) :=
  epoch ← mlift (ToEpoch slot);
  seed ← mlift (Seed s epoch DomainBeaconAttester);
  committee ← Committee cancelled slot seed committeeIndex;
  mret (default [] committee).

(** The body of the loop of [BeaconCommittees]: the active indices are fetched at the first
    committee that is not cached. *)
Definition committeeStep (s : BeaconState) (slot epoch : Z) (seed : list Z)
    (acc : list (list Z) * list Z) (idx : Z) : M (Caches C) (list (list Z) * list Z) :=
  let '(committees, activeIndices) := acc in
  committee ← Committee cancelled slot seed idx;
  match committee with
  | Some c => mret (committees ++ [c], activeIndices)
  | None =>
      activeIndices ← (if len activeIndices =? 0 then ActiveValidatorIndices s epoch else mret activeIndices);
      c ← BeaconCommittee activeIndices seed slot idx;
      mret (committees ++ [c], activeIndices)
  end.

Definition BeaconCommittees (s : BeaconState) (slot : Z) : M (Caches C) (list (list Z)) :=
  epoch ← mlift (ToEpoch slot);
  activeCount ← ActiveValidatorCount s epoch;
  committeesPerSlot ← mlift (SlotCommitteeCount activeCount);
  seed ← mlift (Seed s epoch DomainBeaconAttester);
  acc ← mfold (seqZ 0 committeesPerSlot) ([], []) (committeeStep s slot epoch seed);
  mret acc.1.

Definition attestationCommittees (committeeFunc : Z → Z → M (Caches C) (list Z)) (att : Attestation)
    : M (Caches C) (list (list Z)) :=
  if AttVersion att >=? version_Electra then
    mfold (AttBits att) [] (λ committees ci,
      committee ← committeeFunc (AttSlot att) ci;
      mret (committees ++ [committee]))
  else
    committee ← committeeFunc (AttSlot att) (AttCommitteeIndex att);
    mret [committee].

Definition AttestationCommitteesFromState (s : BeaconState) (att : Attestation) : M (Caches C) (list (list Z)) :=
  attestationCommittees (BeaconCommitteeFromState s) att.
Definition AttestationCommitteesFromCache (s : BeaconState) (att : Attestation) : M (Caches C) (bool * list (list Z)) :=
  committees ← attestationCommittees (BeaconCommitteeFromCache s) att;
  if len committees =? 0 then mret (false, [])
  else if existsb (λ c, len c =? 0) committees then mret (false, [])
  else mret (true, committees).

(** ** beacon_committee.go: assignments *)
Definition VerifyAssignmentEpoch (epoch : Z) (s : BeaconState) : gores unit :=
  nextEpoch ← NextEpoch (slot s);
  if epoch >? nextEpoch then Err errMessage else
  startSlot ← EpochStart epoch;
  let minValidStartSlot := if slot s >=? SlotsPerHistoricalRoot then slot s -64 SlotsPerHistoricalRoot else 0 in
  if startSlot <? minValidStartSlot then Err errMessage else Ok tt.

(** The slots of [for slot := startSlot; slot < startSlot+SlotsPerEpoch; slot++]. *)
Definition slotsFrom (startSlot : Z) : list Z := seqZ startSlot ((startSlot +64 SlotsPerEpoch) - startSlot).

Definition PrecomputeCommittees (s : BeaconState) (startSlot : Z) : M (Caches C) (list (list (list Z))) :=
  mfold (seqZ 0 SlotsPerEpoch) [] (λ out relativeSlot,
    comms ← BeaconCommittees s (startSlot +64 relativeSlot);
    mret (out ++ [comms])).

(** [for pos, member := range committee], [pos] counting from [i]. *)
Fixpoint memberAt (i : Z) (v : Z) (committee : list Z) : option Z :=
  match committee with
  | [] => None
  | member :: rest => if member =? v then Some i else memberAt (i + 1) v rest
  end.
Fixpoint committeeWith (cIdx v : Z) (committees : list (list Z)) : option (Z * list Z * Z) :=
  match committees with
  | [] => None
  | committee :: rest =>
      match memberAt 0 v committee with
      | Some pos => Some (cIdx, committee, pos)
      | None => committeeWith (cIdx + 1) v rest
      end
  end.
Fixpoint assignmentIn (relativeSlot startSlot v : Z) (bySlot : list (list (list Z))) : LiteAssignment :=
  match bySlot with
  | [] => mkLiteAssignment 0 0 0 0
  | committees :: rest =>
      match committeeWith 0 v committees with
      | Some (cIdx, committee, pos) => mkLiteAssignment (startSlot +64 relativeSlot) cIdx (len committee) pos
      | None => assignmentIn (relativeSlot + 1) startSlot v rest
      end
  end.
Definition AssignmentForValidator (bySlot : list (list (list Z))) (startSlot vIdx : Z) : LiteAssignment :=
  assignmentIn 0 startSlot vIdx bySlot.

(** [vals], [remaining] and [assignments] of [CommitteeAssignments]. *)
Definition assignState : Type := gset Z * Z * gmap Z CommitteeAssignment.

(** The second component says that the function has returned. *)
Fixpoint assignMembers (slot j : Z) (committee members : list Z) (acc : assignState) : assignState * bool :=
  match members with
  | [] => (acc, false)
  | vIndex :: rest =>
      let '(vals, remaining, assignments) := acc in
      if decide (vIndex ∈ vals) then
        let acc := (vals ∖ {[vIndex]}, remaining - 1,
                    <[vIndex := mkCommitteeAssignment committee slot j]> assignments) in
        if remaining - 1 =? 0 then (acc, true) else assignMembers slot j committee rest acc
      else assignMembers slot j committee rest acc
  end.
Fixpoint assignCommittees (slot j : Z) (committees : list (list Z)) (acc : assignState) : assignState * bool :=
  match committees with
  | [] => (acc, false)
  | committee :: rest =>
      let '(acc, ret) := assignMembers slot j committee committee acc in
      if ret then (acc, true) else assignCommittees slot (j + 1) rest acc
  end.
Fixpoint assignSlots (s : BeaconState) (slots : list Z) (acc : assignState) : M (Caches C) (gmap Z CommitteeAssignment) :=
  match slots with
  | [] => mret acc.2
  | slot :: rest =>
      committees ← BeaconCommittees s slot;
      let '(acc, ret) := assignCommittees slot 0 committees acc in
      if ret then mret acc.2 else assignSlots s rest acc
  end.
Definition CommitteeAssignments (s : BeaconState) (epoch : Z) (validators : list Z) : M (Caches C) (gmap Z CommitteeAssignment) :=
  mlift (VerifyAssignmentEpoch epoch s);;
  startSlot ← mlift (EpochStart epoch);
  let vals : gset Z := list_to_set validators in
  assignSlots s (slotsFrom startSlot) (vals, Z.of_nat (base.size vals), ∅).

(** ** validators.go and beacon_committee.go: proposers *)
Definition accepted (s : BeaconState) (seed : list Z) (i effectiveBal : Z) : gores bool :=
  if version s >=? version_Electra then
    let randomBytes := hashfunc (seed ++ Bytes8 (i / 16)) in
    let offset := (i mod 16) * 2 in
    lo ← index_at randomBytes offset;
    hi ← index_at randomBytes (offset + 1);
    let randomValue := Z.lor lo (u64 (Z.shiftl hi 8)) in
    Ok (effectiveBal *64 MaxRandomValueElectra >=? MaxEffectiveBalanceElectra *64 randomValue)
  else
    randomByte ← index_at (hashfunc (seed ++ Bytes8 (i / 32))) (i mod 32);
    Ok (effectiveBal *64 MaxRandomByte >=? MaxEffectiveBalance *64 randomByte).

(** The candidate of iteration [i], and whether it is accepted. *)
Definition candidate (s : BeaconState) (activeIndices seed : list Z) (i : Z) : gores (Z * bool) :=
  let length := len activeIndices in
  k ← ComputeShuffledIndex hashfunc (i mod length) length seed true;
  candidateIndex ← index_at activeIndices k;
  if candidateIndex >=? NumValidators s then Err errMessage else
  v ← ValidatorAtIndex s candidateIndex;
  ok ← accepted s seed i (EffectiveBalance v);
  Ok (candidateIndex, ok).

Fixpoint proposerLoop (fuel : nat) (s : BeaconState) (activeIndices seed : list Z) (i : Z) : gores Z :=
  match fuel with
  | O => OutOfFuel
  | S fuel' =>
      '(candidateIndex, ok) ← candidate s activeIndices seed i;
      if ok : bool then Ok candidateIndex else proposerLoop fuel' s activeIndices seed (i +64 1)
  end.
Definition ComputeProposerIndex (s : BeaconState) (activeIndices seed : list Z) : gores Z :=
  if len activeIndices =? 0 then Err errMessage
  else proposerLoop proposer_fuel s activeIndices seed 0.

Definition PrecomputeProposerIndices (s : BeaconState) (activeIndices : list Z) (e : Z) : gores (list Z) :=
  seed ← Seed s e DomainBeaconProposer;
  slot ← EpochStart e;
  mapM (λ i, ComputeProposerIndex s activeIndices (hashfunc (seed ++ Bytes8 (slot +64 i)))) (seqZ 0 SlotsPerEpoch).

Definition ProposerLookahead (s : BeaconState) : gores (list Z) :=
  if version s <? version_Fulu then Err errNotSupported else Ok (proposerLookahead s).

(** [copy(indicesArray[:], proposerIndices)] *)
Definition indicesArray (proposerIndices : list Z) : list Z :=
  take fieldparams_SlotsPerEpoch (proposerIndices ++ replicate fieldparams_SlotsPerEpoch 0).

Definition storeProposers (epoch root : Z) (proposerIndices : list Z) : M (Caches C) unit :=
  mmodify (λ w, set_proposers
    (Set_ epoch root (indicesArray proposerIndices) (Prune (epoch -64 2) (proposerIndicesCache w))) w).

Definition UpdateProposerIndicesInCache (s : BeaconState) (epoch : Z) : M (Caches C) unit :=
  if epoch <=? GenesisEpoch +64 MinSeedLookahead then mret tt else
  slot ← mlift (EpochEnd (epoch -64 1));
  root ← mlift (StateRootAtSlot s slot);
  if version s >=? version_Fulu then
    lookAhead ← mlift (ProposerLookahead s);
    proposerIndices ← mlift (subslice lookAhead 0 SlotsPerEpoch);
    storeProposers epoch root proposerIndices
  else
    w ← mget;
    if bool_decide (is_Some (ProposerIndices epoch root (proposerIndicesCache w))) then mret tt else
    indices ← ActiveValidatorIndices s epoch;
    proposerIndices ← mlift (PrecomputeProposerIndices s indices epoch);
    if negb (len proposerIndices =? SlotsPerEpoch) then mfail errMessage
    else storeProposers epoch root proposerIndices.

Definition UpdateCachedCheckpointToStateRoot (s : BeaconState) (cp : Checkpoint) : M (Caches C) unit :=
  if Epoch_ cp <=? GenesisEpoch +64 MinSeedLookahead then mret tt else
  slot ← mlift (EpochEnd (Epoch_ cp));
  i ← mlift (rem slot SlotsPerHistoricalRoot);
  root ← mlift (StateRootAtIndex s i);
  mmodify (λ w, set_proposers (SetCheckpoint cp root (proposerIndicesCache w)) w).

(** [proposerIndices[slot%SlotsPerEpoch]] of an array of [fieldparams.SlotsPerEpoch]; [None]
    is [errProposerIndexMiss]. *)
Definition proposerOfSlot (found : option (list Z)) (slot : Z) : gores (option Z) :=
  match found with
  | None => Ok None
  | Some proposerIndices =>
      if negb (len proposerIndices =? SlotsPerEpoch) then Ok None
      else i ← rem slot SlotsPerEpoch; x ← index_at proposerIndices i; Ok (Some x)
  end.
Definition cachedProposerIndexAtSlot (slot root : Z) : M (Caches C) (option Z) :=
  w ← mget;
  epoch ← mlift (ToEpoch slot);
  mlift (proposerOfSlot (ProposerIndices epoch root (proposerIndicesCache w)) slot).
Definition ProposerIndexAtSlotFromCheckpoint (c : Checkpoint) (slot : Z) : M (Caches C) (option Z) :=
  w ← mget;
  mlift (proposerOfSlot (IndicesFromCheckpoint c (proposerIndicesCache w)) slot).

Definition beaconProposerIndexAtSlotFulu (s : BeaconState) (slot' : Z) : gores Z :=
  e ← ToEpoch slot';
  stateEpoch ← ToEpoch (slot s);
  if (e <? stateEpoch) || (e >? stateEpoch +64 1) then Err errMessage else
  lookAhead ← ProposerLookahead s;
  i ← rem slot' SlotsPerEpoch;
  if e =? stateEpoch then index_at lookAhead i
  else index_at lookAhead (SlotsPerEpoch +64 i).

(** The proposer by its definition, without the proposer cache. *)
Definition computedProposer (s : BeaconState) (slot' e : Z) : M (Caches C) Z :=
  seed ← mlift (Seed s e DomainBeaconProposer);
  let seedWithSlotHash := hashfunc (seed ++ Bytes8 slot') in
  indices ← ActiveValidatorIndices s e;
  mlift (ComputeProposerIndex s indices seedWithSlotHash).

(** The lookups in the proposer cache, before and after an update; [None] is a miss. *)
Definition proposerThroughCache (s : BeaconState) (slot' e : Z) : M (Caches C) (option Z) :=
  last ← mlift (EpochEnd (e -64 1));
  r ← mlift (StateRootAtSlot s last);
  if r =? 0 then mret None else
  pid ← cachedProposerIndexAtSlot slot' r;
  match pid with
  | Some p => mret (Some p)
  | None => UpdateProposerIndicesInCache s e;; cachedProposerIndexAtSlot slot' r
  end.

Definition BeaconProposerIndexAtSlot (s : BeaconState) (slot' : Z) : M (Caches C) Z :=
  e ← mlift (ToEpoch slot');
  stateEpoch ← mlift (ToEpoch (slot s));
  if ((version s >=? version_Fulu) && (e >=? FuluForkEpoch)) && ((e =? stateEpoch) || (e =? stateEpoch +64 1))
  then mlift (beaconProposerIndexAtSlotFulu s slot')
  else if (e <=? stateEpoch) && (e >? GenesisEpoch +64 MinSeedLookahead) then
    pid ← proposerThroughCache s slot' e;
    match pid with
    | Some p => mret p
    | None => computedProposer s slot' e
    end
  else computedProposer s slot' e.

Definition BeaconProposerIndex (s : BeaconState) : M (Caches C) Z := BeaconProposerIndexAtSlot s (slot s).

Definition ProposerAssignments (s : BeaconState) (epoch : Z) : M (Caches C) (gmap Z (list Z)) :=
  mlift (VerifyAssignmentEpoch epoch s);;
  startSlot ← mlift (EpochStart epoch);
  mfold (slotsFrom startSlot) ∅ (λ assignments slot',
    if slot' =? 0 then mret assignments else
    i ← BeaconProposerIndexAtSlot s slot';
    mret (<[i := default [] (assignments !! i) ++ [slot']]> assignments)).

Definition InitializeProposerLookahead (s : BeaconState) (epoch : Z) : M (Caches C) (list Z) :=
  mfold (seqZ 0 (MinSeedLookahead +64 1)) [] (λ lookAhead i,
    indices ← ActiveValidatorIndices s (epoch +64 i);
    proposerIndices ← mlift (PrecomputeProposerIndices s indices (epoch +64 i));
    mret (lookAhead ++ proposerIndices)).

(** The sync committee and balance caches that it also clears are not modelled. *)
Definition ClearCache : M (Caches C) unit :=
  Clear;;
  mmodify (λ w, set_proposers (Prune 0 (proposerIndicesCache w)) w).
End committees.
