(* ===== verification/CommitteeFacts.v ===== *)
(** * The committee cache is transparent

    [active] gives the active validators a seed stands for.  An entry of the cache is right
    when it holds the shuffle of [active seed]; every operation keeps the entries right and
    leaves no seed in progress, and returns what it would compute without the cache.
    [returns] is a Hoare triple for these operations. *)
From stdpp Require Import sorting.
From S2P Require Import Prelude MathHelper Primitives Config SlotTime Shuffle ShuffleFacts MVSlice EpochConfig BeaconState CommitteeCache Committees.

(** ** The bounded cache *)
Lemma entryOf_cons k e l : entryOf k (e :: l) = if decide (e.1 = k) then Some e.2 else entryOf k l.
Proof.
  unfold entryOf. cbn [list_find]. case_decide; [done|]. by destruct (list_find _ l) as [[]|].
Qed.
Lemma entryOf_without k k' l : k' ≠ k → entryOf k' (without k l) = entryOf k' l.
Proof.
  intros Hne. induction l as [|e l IH]; [done|]. unfold without in *. rewrite filter_cons, entryOf_cons.
  repeat case_decide; rewrite ?entryOf_cons; repeat case_decide; naive_solver.
Qed.
Lemma entryOf_take n k l v : entryOf k (take n l) = Some v → entryOf k l = Some v.
Proof.
  revert n. induction l as [|e l IH]; intros [|n]; [done..|]. cbn [take]. rewrite !entryOf_cons. case_decide; eauto.
Qed.

#[local] Arguments entryOf : simpl never.
#[export] Program Instance bounded_laws : LRULaws bounded := {| contents c k := entryOf k (b_entries c) |}.
Next Obligation. done. Qed.
Next Obligation. intros k c. cbn. by destruct (entryOf k (b_entries c)). Qed.
Next Obligation.
  intros k c k'. cbn. destruct (entryOf k (b_entries c)) eqn:Ha; [|done]. cbn. rewrite entryOf_cons. cbn.
  case_decide; [congruence|by apply entryOf_without].
Qed.
Next Obligation.
  intros k v c k' w Hk. cbn in Hk. apply entryOf_take in Hk. rewrite entryOf_cons in Hk. cbn in Hk.
  case_decide; [naive_solver|]. rewrite entryOf_without in Hk by done. naive_solver.
Qed.
Next Obligation. intros n c k w Hk. cbn in *. by eapply entryOf_take. Qed.

(** ** The active validators *)
Lemma active_from (P : Validator → bool) k (l : list Validator) :
  let a := (filter (λ p, P p.2 = true) (zip (seqZ k (len l)) l)).*1 in
  StronglySorted Z.lt a ∧ Forall (λ i, k ≤ i < k + len l) a ∧
  length a = length (filter (λ v, P v = true) l).
Proof.
  revert k. induction l as [|v l IH]; intros k; unfold len in *; cbn -[Z.of_nat filter]; [split_and!; constructor|].
  rewrite seqZ_cons by lia. replace (Z.pred (Z.of_nat (S (length l)))) with (Z.of_nat (length l)) by lia.
  cbn -[Z.of_nat filter]. rewrite !filter_cons. cbn [snd]. specialize (IH (Z.succ k)). cbv zeta in IH.
  destruct IH as (Hs & Hb & Hlen). case_decide; cbn -[Z.of_nat filter].
  - split_and!; [constructor; [done|]|constructor; [lia|]|by rewrite Hlen];
      (eapply Forall_impl; [exact Hb|]; cbn; intros; lia).
  - split_and!; [done| |done]. eapply Forall_impl; [exact Hb|]. cbn; intros; lia.
Qed.

Lemma activeIndices_sorted s e : StronglySorted Z.lt (activeIndices s e).
Proof. apply (active_from (λ v, IsActiveValidator v e)). Qed.
Lemma activeIndices_bound s e : Forall (λ i, 0 ≤ i < NumValidators s) (activeIndices s e).
Proof. apply (active_from (λ v, IsActiveValidator v e) 0 (validators s)). Qed.
Lemma activeIndices_length s e :
  len (activeIndices s e) = len (filter (λ v, IsActiveValidator v e = true) (validators s)).
Proof. unfold len. f_equal. apply (active_from (λ v, IsActiveValidator v e) 0 (validators s)). Qed.

Lemma strictly_sorted_NoDup (l : list Z) : StronglySorted Z.lt l → NoDup l.
Proof.
  induction 1 as [|x l Hs IH Hx]; constructor; [|done].
  intros Hin. rewrite Forall_forall in Hx. specialize (Hx x Hin). lia.
Qed.
Lemma merge_sort_perm_sorted (l l' : list Z) : StronglySorted Z.lt l → l' ≡ₚ l → merge_sort Z.le l' = l.
Proof.
  intros Hs Hp. apply (Sorted_unique Z.le).
  - apply Sorted_merge_sort. intros x y. lia.
  - apply StronglySorted_Sorted. clear Hp. induction Hs as [|x l2 Hs2 IH Hx]; constructor; [done|].
    eapply Forall_impl; [exact Hx|]. cbn. lia.
  - by rewrite merge_sort_Permutation.
Qed.

(** ** Committees as pieces of the shuffled list *)
Class committee_config_ok `{cfg : BeaconChainConfig} `{ccfg : CommitteeConfig} : Prop := {
  cok_slots : 0 < SlotsPerEpoch;
  cok_target : 0 < TargetCommitteeSize;
  cok_max : 0 < MaxCommitteesPerSlot;
  cok_total : MaxCommitteesPerSlot * SlotsPerEpoch ≤ 1048576;
  cok_rounds : 0 < ShuffleRoundCount < 256
}.

Section facts.
Context `{cfg : BeaconChainConfig} `{ecfg : EpochConfig} `{ccfg : CommitteeConfig} `{cok : !committee_config_ok}.
Context {C : Type} `{lruC : LRU C} `{!LRULaws C}.
Context (hashfunc : list Z → list Z) (digest_size : ∀ x, length (hashfunc x) = 32%nat).
Context (active : list Z → list Z).

Lemma SlotCommitteeCount_spec n : 0 ≤ n → ∃ cps, SlotCommitteeCount n = Ok cps ∧
  cps = Z.max 1 (Z.min MaxCommitteesPerSlot (n / SlotsPerEpoch / TargetCommitteeSize)) ∧
  1 ≤ cps ∧ cps * SlotsPerEpoch ≤ 1048576.
Proof.
  intros Hn. destruct cok. unfold SlotCommitteeCount. rewrite !quo_pos by done. cbn [mbind gores_bind]. rewrite quo_pos by done.
  cbn [mbind gores_bind].
  assert (0 ≤ n / SlotsPerEpoch / TargetCommitteeSize) by (repeat apply Z.div_pos; lia).
  destruct (Z.gtb_spec (n / SlotsPerEpoch / TargetCommitteeSize) MaxCommitteesPerSlot).
  { eexists. split_and!; [done|lia|lia|done]. }
  destruct (Z.eqb_spec (n / SlotsPerEpoch / TargetCommitteeSize) 0); eexists; split_and!; try done; try lia; nia.
Qed.

(** The list [l], shuffled with [seed], and the number of committees of a slot. *)
Record shuffled (l seed sh : list Z) (cps : Z) : Prop := {
  sh_run : UnshuffleList hashfunc l seed = Ok sh;
  sh_perm : sh ≡ₚ l;
  sh_at : ∀ x, (x < length l)%nat → ∃ y,
    ComputeShuffledIndex hashfunc (Z.of_nat x) (Z.of_nat (length l)) seed true = Ok y ∧ sh !! x = l !! Z.to_nat y;
  sh_cps : SlotCommitteeCount (len l) = Ok cps;
  sh_max : cps = Z.max 1 (Z.min MaxCommitteesPerSlot (len l / SlotsPerEpoch / TargetCommitteeSize));
  sh_pos : 1 ≤ cps;
  sh_total : cps * SlotsPerEpoch ≤ 1048576;
  sh_len : len l ≤ maxShuffleListSize
}.

Lemma shuffled_exists l seed : len l ≤ maxShuffleListSize → ∃ sh cps, shuffled l seed sh cps.
Proof.
  intros Hl. destruct (innerShuffleList_positions hashfunc seed l false digest_size (cok_rounds) Hl) as (sh & Hrun & Hp & Hat).
  destruct (SlotCommitteeCount_spec (len l)) as (cps & Hc & Hm & H1 & H2); [unfold len; lia|].
  exists sh, cps. by constructor.
Qed.

(** Committee [index] of slot [slot]: one of [cps * SlotsPerEpoch] pieces. *)
Definition committeeAt (sh : list Z) (cps slot index : Z) : list Z :=
  piece sh (cps * SlotsPerEpoch) (Z.to_nat (slot mod SlotsPerEpoch * cps + index)).

Section shuffled_list.
Context (l seed sh : list Z) (cps : Z) (Hsh : shuffled l seed sh cps).

Lemma sh_length : length sh = length l.
Proof. by rewrite (sh_perm _ _ _ _ Hsh). Qed.

Lemma sh_fits : Z.of_nat (length sh) * (cps * SlotsPerEpoch) < 2 ^ 64.
Proof.
  destruct Hsh, cok. pose proof max_size as Hm. pose proof sh_length. unfold len in *.
  apply Z.le_lt_trans with (1099511627776 * 1048576); [|done]. apply Z.mul_le_mono_nonneg; nia.
Qed.

Lemma sh_count : 0 < cps * SlotsPerEpoch.
Proof. destruct Hsh, cok. nia. Qed.

Lemma offset_range slot index : 0 ≤ slot → 0 ≤ index < cps →
  0 ≤ slot mod SlotsPerEpoch * cps + index < cps * SlotsPerEpoch.
Proof.
  intros Hs Hi. destruct Hsh, cok. pose proof (Z.mod_pos_bound slot SlotsPerEpoch ltac:(done)). nia.
Qed.

(** The position of a committee, as both routines compute it. *)
Lemma indexOffset_run slot index : 0 ≤ slot → 0 ≤ index < cps →
  (m ← Slot.ModSlot slot SlotsPerEpoch; p ← Slot.Mul m cps; Add64 index p) =
  Ok (slot mod SlotsPerEpoch * cps + index).
Proof.
  intros Hs Hi. pose proof (offset_range slot index Hs Hi). destruct Hsh, cok.
  pose proof (Z.mod_pos_bound slot SlotsPerEpoch ltac:(done)).
  unfold Slot.ModSlot, Slot.Mod, Slot.SafeMod. rewrite Mod64_cases.
  rewrite (proj2 (Z.eqb_neq _ _)) by lia. cbn [must mbind gores_bind].
  unfold Slot.Mul, Slot.SafeMul. rewrite Mul64_cases by (unfold is_u64; nia).
  rewrite (proj2 (Z.ltb_lt _ _)) by nia. cbn [must mbind gores_bind].
  rewrite Add64_cases by (unfold is_u64; nia). rewrite (proj2 (Z.ltb_lt _ _)) by nia. f_equal. lia.
Qed.

(** Both ends of a piece, and the piece. *)
Lemma piece_run {A} (k : Z) (F : Z → Z → gores A) : 0 ≤ k < cps * SlotsPerEpoch →
  (start ← SplitOffset (len sh) (cps * SlotsPerEpoch) k;
   end_ ← SplitOffset (len sh) (cps * SlotsPerEpoch) (k +64 1); F start end_) =
  F (Z.of_nat (offset sh (cps * SlotsPerEpoch) (Z.to_nat k))) (Z.of_nat (offset sh (cps * SlotsPerEpoch) (S (Z.to_nat k)))).
Proof.
  intros Hk. pose proof sh_count. pose proof sh_fits. destruct Hsh.
  rewrite u64_small by (unfold is_u64; lia). unfold len.
  replace (k + 1) with (Z.of_nat (S (Z.to_nat k))) by lia. rewrite <-(Z2Nat.id k) at 1 by lia.
  rewrite !SplitOffset_spec by lia. done.
Qed.

Lemma piece_subslice k : 0 ≤ k < cps * SlotsPerEpoch →
  let a := offset sh (cps * SlotsPerEpoch) (Z.to_nat k) in
  let b := offset sh (cps * SlotsPerEpoch) (S (Z.to_nat k)) in
  (a ≤ b ≤ length sh)%nat ∧ subslice sh (Z.of_nat a) (Z.of_nat b) = Ok (piece sh (cps * SlotsPerEpoch) (Z.to_nat k)).
Proof.
  intros Hk. pose proof sh_count as Hc. cbv zeta.
  pose proof (offset_S sh _ Hc (Z.to_nat k)). pose proof (offset_le sh _ Hc (S (Z.to_nat k)) ltac:(lia)).
  split; [lia|]. unfold subslice. rewrite !(proj2 (Z.leb_le _ _)) by lia. cbn [andb].
  rewrite Nat2Z.id. unfold piece. do 2 f_equal. lia.
Qed.

(** The entry of the cache for [seed]. *)
Definition entry : Committees := mkCommittees (cps * SlotsPerEpoch) seed sh (merge_sort Z.le sh).

Lemma committeeOf_spec slot index : 0 ≤ slot → 0 ≤ index < cps →
  committeeOf entry slot index = Ok (committeeAt sh cps slot index).
Proof.
  intros Hs Hi. unfold committeeOf. cbn [CommitteeCount ShuffledIndices entry]. pose proof (offset_range slot index Hs Hi) as Hr.
  rewrite quo_pos by apply cok_slots. cbn [mbind gores_bind]. rewrite Z.div_mul by (pose proof cok_slots; lia).
  assert ((if cps >? 1 then cps else 1) = cps) as ->.
  { destruct Hsh. destruct (Z.gtb_spec cps 1); lia. }
  pose proof (indexOffset_run slot index Hs Hi) as Hrun.
  destruct (Slot.ModSlot slot SlotsPerEpoch) as [m| | |]; cbn [mbind gores_bind] in *; [|done..].
  destruct (Slot.Mul m cps) as [p| | |]; cbn [mbind gores_bind] in *; [|done..]. rewrite Hrun. cbn [mbind gores_bind].
  unfold startEndIndices. cbn [CommitteeCount ShuffledIndices entry]. rewrite piece_run by done.
  destruct (piece_subslice _ Hr) as [Hab Hsub]. cbn [mbind gores_bind]. unfold len.
  rewrite Z.gtb_ltb, !(proj2 (Z.ltb_ge _ _)) by lia. cbn [orb]. exact Hsub.
Qed.

Lemma ComputeCommittee_spec k : 0 ≤ k < cps * SlotsPerEpoch →
  ComputeCommittee hashfunc l seed k (cps * SlotsPerEpoch) = Ok (piece sh (cps * SlotsPerEpoch) (Z.to_nat k)).
Proof.
  intros Hk. unfold ComputeCommittee. unfold len. rewrite <-sh_length. fold (len sh). rewrite piece_run by done.
  destruct (piece_subslice _ Hk) as [Hab Hsub]. unfold len.
  rewrite !Z.gtb_ltb, !(proj2 (Z.ltb_ge _ _)) by lia. cbn [orb]. rewrite (sh_run _ _ _ _ Hsh). exact Hsub.
Qed.

Lemma sorted_entry : StronglySorted Z.lt l → SortedIndices entry = l.
Proof. intros Hs. apply merge_sort_perm_sorted; [done|]. apply Hsh. Qed.
End shuffled_list.

Lemma shuffled_det l seed sh cps sh' cps' : shuffled l seed sh cps → shuffled l seed sh' cps' → sh' = sh ∧ cps' = cps.
Proof. intros [] []. split; congruence. Qed.

(** ** The cache *)
Definition entries_ok (w : Caches C) : Prop := ∀ seed it,
  contents (lru (committeeCache w)) seed = Some it →
  ∃ sh cps, shuffled (active seed) seed sh cps ∧ it = entry seed sh cps.

(** Run with the seeds [p] in progress and right entries, [m] returns a value that satisfies
    [Φ], with right entries and the same seeds in progress. *)
Definition returns {A : Type} (p : gset (list Z)) (m : M (Caches C) A) (Φ : A → Prop) : Prop := ∀ w,
  entries_ok w → inProgress (committeeCache w) = p →
  ∃ a w', m w = (Ok a, w') ∧ Φ a ∧ entries_ok w' ∧ inProgress (committeeCache w') = p ∧
    proposerIndicesCache w' = proposerIndicesCache w.

(** The state [s] agrees with [active] on the validators of epoch [e]. *)
Record stands_for (s : BeaconState) (e : Z) (seed : list Z) : Prop := {
  sf_seed : Seed hashfunc s e DomainBeaconAttester = Ok seed;
  sf_active : active seed = activeIndices s e;
  sf_some : activeIndices s e ≠ [];
  sf_len : len (activeIndices s e) ≤ maxShuffleListSize
}.

Section triples.
Context (p : gset (list Z)).

Lemma returns_ret {A : Type} (a : A) (Φ : A → Prop) : Φ a → returns p (mret a) Φ.
Proof. intros Ha w Hw Hp. by exists a, w. Qed.
Lemma returns_lift {A : Type} (r : gores A) a (Φ : A → Prop) : r = Ok a → Φ a → returns p (mlift r) Φ.
Proof. intros -> Ha w Hw Hp. by exists a, w. Qed.
Lemma returns_bind {A B : Type} (m : M (Caches C) A) (k : A → M (Caches C) B) Φ Ψ :
  returns p m Φ → (∀ a, Φ a → returns p (k a) Ψ) → returns p (m ≫= k) Ψ.
Proof.
  intros Hm Hk w Hw Hp. destruct (Hm w Hw Hp) as (a & w1 & Hrun & Ha & Hw1 & Hp1 & Hc1).
  rewrite (M_bind_Ok _ _ _ _ _ Hrun). destruct (Hk a Ha w1 Hw1 Hp1) as (b & w2 & Hrun2 & Hb & Hw2 & Hp2 & Hc2).
  exists b, w2. split_and!; [done..|congruence].
Qed.
Lemma returns_bind_lift {A B : Type} (r : gores A) a (k : A → M (Caches C) B) Ψ :
  r = Ok a → returns p (k a) Ψ → returns p (mlift r ≫= k) Ψ.
Proof. intros Hr Hk. apply (returns_bind _ _ (λ x, x = a)); [by apply (returns_lift _ a)|]. by intros ? ->. Qed.
Lemma returns_mono {A : Type} (m : M (Caches C) A) Φ Ψ : returns p m Φ → (∀ a, Φ a → Ψ a) → returns p m Ψ.
Proof. intros Hm H w Hw Hp. destruct (Hm w Hw Hp) as (a & w1 & ? & ? & ?). exists a, w1. naive_solver. Qed.

(** A loop whose local variable goes from [acc n] to [acc (n+1)]. *)
Lemma returns_mfold {A B : Type} (xs : list A) (body : B → A → M (Caches C) B) (I : list A → B → Prop) b :
  I [] b → (∀ done x rest b, xs = done ++ x :: rest → I done b → returns p (body b x) (I (done ++ [x]))) →
  returns p (mfold xs b body) (I xs).
Proof.
  intros H0 Hstep. cut (∀ rest done b, xs = done ++ rest → I done b → returns p (mfold rest b body) (I xs)).
  { intros Hc. by apply (Hc xs []). }
  clear H0 b. induction rest as [|x rest IH]; intros done b Hxs HI; cbn [mfold].
  - rewrite app_nil_r in Hxs. subst. by apply returns_ret.
  - eapply returns_bind; [by eapply Hstep|]. intros b' Hb'. apply (IH (done ++ [x])); [|done]. by rewrite <-app_assoc.
Qed.

Lemma checkInProgress_returns seed : seed ∉ p → returns p (checkInProgress false seed) (λ _, True).
Proof.
  intros Hp w Hw <-. exists tt, w. split_and!; try done. unfold checkInProgress, mbind, M_bind, mget.
  by rewrite decide_False.
Qed.

Lemma Get_returns seed : returns p (Get seed) (λ o, ∀ it, o = Some it →
  ∃ sh cps, shuffled (active seed) seed sh cps ∧ it = entry seed sh cps).
Proof.
  intros w Hw Hp. unfold Get. destruct (lru_Get seed (lru (committeeCache w))) as [o c] eqn:Hg.
  pose proof (Get_contents seed (lru (committeeCache w))) as H1.
  pose proof (Get_keeps seed (lru (committeeCache w))) as H2. rewrite Hg in H1, H2. cbn in H1, H2.
  eexists _, _. split_and!; [done| |intros sd it; cbn; rewrite H2; apply Hw|done..].
  intros it ->. by apply Hw.
Qed.

Lemma Committee_returns seed sh cps slot index : seed ∉ p →
  shuffled (active seed) seed sh cps → 0 ≤ slot → 0 ≤ index < cps →
  returns p (Committee false slot seed index) (λ o, o = None ∨ o = Some (committeeAt sh cps slot index)).
Proof.
  intros Hp Hsh Hs Hi. unfold Committee. eapply returns_bind; [by apply checkInProgress_returns|].
  intros _ _. eapply returns_bind; [apply Get_returns|]. intros [it|] Hit; [|apply returns_ret; by left].
  destruct (Hit it eq_refl) as (sh' & cps' & Hsh' & ->).
  destruct (shuffled_det _ _ _ _ _ _ Hsh Hsh') as [-> ->].
  eapply returns_bind_lift; [by eapply committeeOf_spec|]. apply returns_ret. by right.
Qed.

Lemma ActiveIndices_returns seed : seed ∉ p → StronglySorted Z.lt (active seed) →
  returns p (ActiveIndices false seed) (λ o, o = None ∨ o = Some (active seed)).
Proof.
  intros Hp Hs. unfold ActiveIndices. eapply returns_bind; [by apply checkInProgress_returns|].
  intros _ _. eapply returns_bind; [apply Get_returns|]. intros [it|] Hit; apply returns_ret; [|by left].
  destruct (Hit it eq_refl) as (sh & cps & Hsh & ->). right. cbn [fmap option_fmap option_map].
  by rewrite (sorted_entry _ _ _ _ Hsh).
Qed.

Lemma ActiveIndicesCount_returns seed : seed ∉ p → StronglySorted Z.lt (active seed) →
  returns p (ActiveIndicesCount false seed) (λ n, n = 0 ∨ n = len (active seed)).
Proof.
  intros Hp Hs. unfold ActiveIndicesCount. eapply returns_bind; [by apply checkInProgress_returns|].
  intros _ _. eapply returns_bind; [apply Get_returns|]. intros [it|] Hit; apply returns_ret; [|by left].
  destruct (Hit it eq_refl) as (sh & cps & Hsh & ->). right. by rewrite (sorted_entry _ _ _ _ Hsh).
Qed.

Lemma UpdateCommitteeCache_returns s e seed : stands_for s e seed →
  returns p (UpdateCommitteeCache hashfunc false s e) (λ _, True).
Proof.
  intros [Hseed Hact _ Hlen]. unfold UpdateCommitteeCache. eapply returns_bind_lift; [done|].
  unfold HasEntry. eapply returns_bind; [eapply returns_bind; [apply Get_returns|]; intros; by apply (returns_ret _ (λ _, True))|].
  intros [] _; [by apply returns_ret|].
  destruct (shuffled_exists (active seed) seed) as (sh & cps & Hsh); [by rewrite Hact|].
  eapply returns_bind_lift.
  { unfold ShuffledIndices_. rewrite Hseed. cbn [mbind gores_bind]. rewrite <-Hact. apply Hsh. }
  eapply returns_bind_lift; [unfold len; rewrite (sh_length _ _ _ _ Hsh); apply Hsh|].
  eapply returns_bind_lift.
  { unfold Slot.Mul, Slot.SafeMul. destruct Hsh, cok. rewrite Mul64_cases by (unfold is_u64; nia).
    rewrite (proj2 (Z.ltb_lt _ _)) by nia. done. }
  intros w Hw Hp. eexists _, _. split_and!; [done|done| |done..]. intros sd it Hit. cbn in Hit.
  apply Add_contents in Hit as [[-> ->]|[_ Hit]]; [|by apply Hw].
  exists sh, cps. split; [done|]. unfold entry. f_equal. lia.
Qed.
End triples.

(** A seed is in progress while [m] runs. *)
Lemma returns_marked {A : Type} p seed (m m' : M (Caches C) A) Φ : seed ∉ p → returns (p ∪ {[seed]}) m Φ →
  returns p (marked ← MarkInProgress seed; if negb marked then m' else mdefer (MarkNotInProgress seed) m) Φ.
Proof.
  intros Hn Hm w Hw Hp. unfold MarkInProgress, mbind, M_bind, mget. rewrite Hp, decide_False by done. cbn [mmodify mret M_ret negb].
  destruct (Hm (set_inProgress (p ∪ {[seed]}) w)) as (a & w1 & Hrun & Ha & Hw1 & Hp1 & Hc1); [done..|].
  unfold mdefer, mmodify, mret, M_ret. cbn [negb]. rewrite Hrun. eexists _, _. split_and!; [done..| |done].
  cbn. rewrite Hp1. clear -Hn. set_solver.
Qed.
End facts.
