(* ===== verification/CommitteeTheorems.v ===== *)
(** * Committees: what the code returns, and to whom

    The specification of the consensus rules computes a committee index by index
    ([compute_committee], the pseudo code quoted in beacon_committee.go); the code cuts it
    out of the whole shuffled list, which it keeps in the cache.  The theorems compare
    whole sequences of requests with the specification, show that the committees of an
    epoch divide its active validators, and follow the duties computed from them. *)
From stdpp Require Import sorting.
From S2P Require Import Prelude MathHelper Primitives Config SlotTime Shuffle ShuffleFacts MVSlice EpochConfig BeaconState CommitteeCache Committees CommitteeFacts.

(** ** The specification *)
Section spec.
Context `{cfg : BeaconChainConfig} `{ccfg : CommitteeConfig} (hashfunc : list Z → list Z).

Definition committees_per_slot (n : Z) : Z :=
  Z.max 1 (Z.min MaxCommitteesPerSlot (n / SlotsPerEpoch / TargetCommitteeSize)).

Definition compute_committee (indices seed : list Z) (index count : Z) : gores (list Z) :=
  let n := len indices in
  let start := n * index / count in
  let end_ := n * (index + 1) / count in
  mapM (λ i, y ← ComputeShuffledIndex hashfunc i n seed true; index_at indices y) (seqZ start (end_ - start)).

Definition get_beacon_committee (s : BeaconState) (slot index : Z) : gores (list Z) :=
  let epoch := slot / SlotsPerEpoch in
  let indices := activeIndices s epoch in
  let perSlot := committees_per_slot (len indices) in
  seed ← Seed hashfunc s epoch DomainBeaconAttester;
  compute_committee indices seed (slot mod SlotsPerEpoch * perSlot + index) (perSlot * SlotsPerEpoch).
End spec.

Lemma mapM_Ok {A B} (f : A → gores B) l k : Forall2 (λ x y, f x = Ok y) l k → mapM f l = Ok k.
Proof. induction 1 as [|x y l k Hxy _ IH]; [done|]. cbn. by rewrite Hxy, IH. Qed.

Lemma ToEpoch_run `{cfg : BeaconChainConfig} slot : 0 < SlotsPerEpoch → ToEpoch slot = Ok (slot / SlotsPerEpoch).
Proof.
  intros Hs. unfold ToEpoch, Slot.DivSlot, Slot.Div, Slot.SafeDiv. rewrite Div64_cases.
  by rewrite (proj2 (Z.eqb_neq _ _)) by lia.
Qed.

Lemma EpochStart_run `{cfg : BeaconChainConfig} e : 0 ≤ e → 0 < SlotsPerEpoch → (e + 1) * SlotsPerEpoch < 2 ^ 64 →
  EpochStart e = Ok (e * SlotsPerEpoch).
Proof.
  intros He Hs H64. unfold EpochStart, Slot.SafeMul. rewrite Mul64_cases by (unfold is_u64; nia).
  rewrite (proj2 (Z.ltb_lt _ _)) by nia. cbn. f_equal. lia.
Qed.

Lemma EpochEnd_run `{cfg : BeaconChainConfig} e : 1 ≤ e → 0 < SlotsPerEpoch → (e + 1) * SlotsPerEpoch < 2 ^ 64 →
  EpochEnd (e -64 1) = Ok (e * SlotsPerEpoch - 1).
Proof.
  intros He Hs H64. unfold EpochEnd. rewrite u64_small by (unfold is_u64; nia). rewrite (proj2 (Z.eqb_neq _ _)) by nia.
  rewrite u64_small by (unfold is_u64; nia). replace (e - 1 + 1) with e by lia. rewrite EpochStart_run by lia. cbn.
  rewrite u64_small by (unfold is_u64; nia). done.
Qed.

(** ** Lists of lists *)
Lemma mjoin_grid {A} (f : Z → list A) (c n : Z) : 0 ≤ c → 0 ≤ n →
  mjoin ((λ i, (λ j, f (i * c + j)) <$> seqZ 0 c) <$> seqZ 0 n) = f <$> seqZ 0 (n * c).
Proof.
  intros Hc Hn. rewrite <-(Z2Nat.id n) by done. induction (Z.to_nat n) as [|k IH]; [done|].
  rewrite Nat2Z.inj_succ. unfold Z.succ. rewrite Z.mul_add_distr_r, Z.mul_1_l, !seqZ_app by (try apply Z.mul_nonneg_nonneg; lia).
  rewrite !fmap_app, join_app, IH. f_equal. rewrite (seqZ_cons _ 1) by lia. cbn [fmap list_fmap mjoin list_join].
  change (Z.pred 1) with 0. cbn. rewrite app_nil_r. replace (0 + Z.of_nat k * c) with (Z.of_nat k * c + 0) by lia.
  by rewrite <-fmap_add_seqZ, <-list_fmap_compose.
Qed.

Lemma memberAt_Some i v c pos : memberAt i v c = Some pos →
  ∃ k, pos = i + Z.of_nat k ∧ c !! k = Some v.
Proof.
  revert i. induction c as [|x c IH]; intros i; cbn [memberAt]; [done|].
  destruct (Z.eqb_spec x v) as [->|]; [intros [= <-]; exists 0%nat; split; [lia|done]|].
  intros (k & -> & Hk)%IH. exists (S k). split; [lia|done].
Qed.
Lemma memberAt_None i v c : memberAt i v c = None → v ∉ c.
Proof.
  revert i. induction c as [|x c IH]; intros i; cbn [memberAt]; [intros _ []%elem_of_nil|].
  destruct (Z.eqb_spec x v) as [->|]; [done|]. intros Hn%IH. rewrite elem_of_cons. naive_solver.
Qed.
Lemma committeeWith_Some i v cs ci c pos : committeeWith i v cs = Some (ci, c, pos) →
  ∃ k m, ci = i + Z.of_nat k ∧ pos = Z.of_nat m ∧ cs !! k = Some c ∧ c !! m = Some v.
Proof.
  revert i. induction cs as [|x cs IH]; intros i; cbn [committeeWith]; [done|].
  destruct (memberAt 0 v x) as [p|] eqn:Hm.
  - intros [= <- <- <-]. apply memberAt_Some in Hm as (m & -> & Hm). exists 0%nat, m. split_and!; [lia|lia|done|done].
  - intros (k & m & -> & -> & Hk & Hm')%IH. exists (S k), m. split_and!; [lia|done..].
Qed.
Lemma committeeWith_None i v cs : committeeWith i v cs = None → v ∉ mjoin cs.
Proof.
  revert i. induction cs as [|x cs IH]; intros i; cbn [committeeWith mjoin list_join]; [intros _ []%elem_of_nil|].
  destruct (memberAt 0 v x) eqn:Hm; [done|]. intros Hn%IH. apply memberAt_None in Hm. rewrite elem_of_app. naive_solver.
Qed.

(** The duty [AssignmentForValidator] finds. *)
Lemma assignmentIn_spec r start v by_slot :
  (v ∈ mjoin (mjoin by_slot) ∧ ∃ k cs j c m, by_slot !! k = Some cs ∧ cs !! j = Some c ∧ c !! m = Some v ∧
    assignmentIn r start v by_slot = mkLiteAssignment (start +64 (r + Z.of_nat k)) (Z.of_nat j) (len c) (Z.of_nat m)) ∨
  ((v ∉ mjoin (mjoin by_slot)) ∧ assignmentIn r start v by_slot = mkLiteAssignment 0 0 0 0).
Proof.
  revert r. induction by_slot as [|cs rest IH]; intros r; cbn [assignmentIn mjoin list_join].
  { right. split; [intros []%elem_of_nil|done]. }
  rewrite join_app, elem_of_app. destruct (committeeWith 0 v cs) as [[[ci c] pos]|] eqn:Hc.
  - apply committeeWith_Some in Hc as (k & m & -> & -> & Hk & Hm). left. split.
    + left. apply list_elem_of_join. exists c. split; by eapply list_elem_of_lookup_2.
    + exists 0%nat, cs, k, c, m. split_and!; [done..|]. rewrite Z.add_0_r. done.
  - apply committeeWith_None in Hc. destruct (IH (r + 1)) as [(Hin & k & cs' & j & c & m & ? & ? & ? & Heq)|[Hn Heq]].
    + left. split; [by right|]. exists (S k), cs', j, c, m. split_and!; [done..|]. rewrite Heq. do 2 f_equal. lia.
    + right. split; [naive_solver|done].
Qed.

(** ** The assignments of a list of validators *)
(** All members of all committees, with their assignment. *)
Definition duties (slot : Z) (j : Z) (committee : list Z) : list (Z * CommitteeAssignment) :=
  (λ v, (v, mkCommitteeAssignment committee slot j)) <$> committee.
Fixpoint slotDuties (slot j : Z) (committees : list (list Z)) : list (Z * CommitteeAssignment) :=
  match committees with [] => [] | c :: rest => duties slot j c ++ slotDuties slot (j + 1) rest end.

Section assign.
Context (wanted : gset Z).

(** After the duties [D] have been seen. *)
Definition assigned (D : list (Z * CommitteeAssignment)) (acc : assignState) : Prop :=
  let '(vals, remaining, assignments) := acc in
  remaining = Z.of_nat (base.size vals) ∧
  (∀ v, v ∈ vals ↔ v ∈ wanted ∧ v ∉ D.*1) ∧
  (∀ v a, assignments !! v = Some a ↔ v ∈ wanted ∧ (v, a) ∈ D).

Lemma assigned_step D v a vals rem asg : NoDup (D ++ [(v, a)]).*1 → assigned D (vals, rem, asg) →
  assigned (D ++ [(v, a)])
    (if decide (v ∈ vals) then (vals ∖ {[v]}, rem - 1, <[v := a]> asg) else (vals, rem, asg)).
Proof.
  intros Hnd (Hrem & Hvals & Hasg). rewrite fmap_app in Hnd. cbn [fmap list_fmap] in Hnd.
  apply NoDup_app in Hnd as (_ & Hnd & _).
  assert (v ∉ D.*1) as Hv by (intros Hin; apply (Hnd v Hin); set_solver).
  assert (∀ b, (v, b) ∉ D) as Hvb by (intros b Hin; apply Hv, (list_elem_of_fmap_2 fst _ _ Hin)).
  case_decide as Hin; unfold assigned; rewrite fmap_app; cbn [fmap list_fmap fst].
  - split_and!.
    + rewrite size_difference by set_solver. rewrite size_singleton. 
      assert (base.size vals ≠ 0%nat) by (intros H0%size_empty_inv; set_solver). lia.
    + intros x. specialize (Hvals x). set_solver.
    + intros x b. rewrite elem_of_app, list_elem_of_singleton. destruct (decide (x = v)) as [->|Hne].
      * rewrite lookup_insert_eq. specialize (Hvals v). specialize (Hvb b). naive_solver.
      * rewrite lookup_insert_ne by done. rewrite Hasg. naive_solver.
  - split_and!; [done| |].
    + intros x. pose proof (Hvals x) as Hx. pose proof (Hvals v) as Hv'. rewrite elem_of_app, list_elem_of_singleton.
      split; [|naive_solver]. intros Hxv. split; [naive_solver|]. intros [?| ->]; naive_solver.
    + intros x b. rewrite elem_of_app, list_elem_of_singleton, Hasg. pose proof (Hvals v). naive_solver.
Qed.

(** Nothing is left to assign: the rest does not matter. *)
Lemma assigned_all D rest vals asg : NoDup (D ++ rest).*1 → assigned D (vals, 0, asg) → assigned (D ++ rest) (vals, 0, asg).
Proof.
  intros Hnd (Hrem & Hvals & Hasg). assert (vals = ∅) as -> by (apply leibniz_equiv, size_empty_inv; lia).
  rewrite fmap_app in Hnd. apply NoDup_app in Hnd as (_ & Hnd & _).
  assert (∀ v, v ∈ wanted → v ∈ D.*1) as Hall.
  { intros v Hv. destruct (decide (v ∈ D.*1)); [done|]. exfalso. assert (v ∈ (∅ : gset Z)) by (apply Hvals; done). set_solver. }
  split_and!; [done| |].
  - intros v. rewrite fmap_app, elem_of_app. split; [set_solver|]. naive_solver.
  - intros v a. rewrite Hasg, elem_of_app. split; [naive_solver|]. intros [Hv [?|Hin]]; [done|].
    exfalso. apply (Hnd v); [by apply Hall|]. by apply (list_elem_of_fmap_2 fst _ (v, a)).
Qed.

(** One committee, and the committees of a slot, with the duties [rest] still to come: if the
    function returns early, it has assigned these too. *)
Definition outcome (D dl rest : list (Z * CommitteeAssignment)) (r : assignState * bool) : Prop :=
  assigned (if r.2 then D ++ dl ++ rest else D ++ dl) r.1.

Lemma assignMembers_outcome slot j c members D rest acc :
  let dl := (λ v, (v, mkCommitteeAssignment c slot j)) <$> members in
  NoDup (D ++ dl ++ rest).*1 → assigned D acc → outcome D dl rest (assignMembers slot j c members acc).
Proof.
  revert D acc. induction members as [|v members IH]; intros D [[vals rem] asg] dl Hnd Hacc.
  { unfold outcome. cbn. by rewrite app_nil_r. }
  subst dl. cbn [fmap list_fmap] in *. set (a := mkCommitteeAssignment c slot j) in *.
  set (dl := (λ v, (v, a)) <$> members) in *. replace (D ++ ((v, a) :: dl) ++ rest) with ((D ++ [(v, a)]) ++ dl ++ rest) in Hnd
    by (by rewrite <-app_assoc).
  assert (NoDup (D ++ [(v, a)]).*1) as Hnd1 by (rewrite fmap_app in Hnd; by apply NoDup_app in Hnd as [? _]).
  pose proof (assigned_step D v a vals rem asg Hnd1 Hacc) as Hstep. cbn [assignMembers]. fold a.
  assert (∀ r, outcome (D ++ [(v, a)]) dl rest r → outcome D ((v, a) :: dl) rest r) as Hmove.
  { intros r. unfold outcome. by rewrite <-!app_assoc. }
  case_decide; [|by apply Hmove, IH].
  destruct (Z.eqb_spec (rem - 1) 0) as [H0|H0]; [|by apply Hmove, IH].
  apply Hmove. unfold outcome. cbn [fst snd]. rewrite H0 in Hstep |- *. by apply assigned_all.
Qed.

Lemma assignCommittees_outcome slot j cs D rest acc : NoDup (D ++ slotDuties slot j cs ++ rest).*1 →
  assigned D acc → outcome D (slotDuties slot j cs) rest (assignCommittees slot j cs acc).
Proof.
  revert D j acc. induction cs as [|c cs IH]; intros D j acc Hnd Hacc.
  { unfold outcome. cbn. by rewrite app_nil_r. }
  cbn [slotDuties assignCommittees] in *. rewrite <-app_assoc in Hnd.
  pose proof (assignMembers_outcome slot j c c D _ acc Hnd Hacc) as Hm.
  destruct (assignMembers slot j c c acc) as [acc' []]; unfold outcome in *; cbn [fst snd] in *.
  { fold (duties slot j c) in Hm. by rewrite <-!app_assoc. }
  fold (duties slot j c) in Hm. specialize (IH _ (j + 1) acc' ltac:(by rewrite <-app_assoc) Hm).
  by rewrite <-!app_assoc in *.
Qed.
End assign.

Lemma elem_of_slotDuties slot j cs v a : (v, a) ∈ slotDuties slot j cs ↔
  ∃ k c, cs !! k = Some c ∧ v ∈ c ∧ a = mkCommitteeAssignment c slot (j + Z.of_nat k).
Proof.
  revert j. induction cs as [|c cs IH]; intros j; cbn [slotDuties].
  { split; [intros []%elem_of_nil|]. intros (? & ? & ? & _). done. }
  unfold duties. rewrite elem_of_app, IH, list_elem_of_fmap. split.
  - intros [(v' & [= -> ->] & Hv)|(k & c' & Hk & Hv & ->)].
    + exists 0%nat, c. split_and!; [done..|]. f_equal. lia.
    + exists (S k), c'. split_and!; [done..|]. f_equal. lia.
  - intros ([|k] & c' & Hk & Hv & ->).
    + injection Hk as <-. left. exists v. split; [do 2 f_equal; lia|done].
    + right. exists k, c'. split_and!; [done..|]. f_equal. lia.
Qed.
Lemma slotDuties_members slot j cs : (slotDuties slot j cs).*1 = mjoin cs.
Proof.
  revert j. induction cs as [|c cs IH]; intros j; [done|]. cbn [slotDuties mjoin list_join]. unfold duties.
  rewrite fmap_app, IH, <-list_fmap_compose. f_equal. apply list_fmap_id.
Qed.

Section theorems.
Context `{cfg : BeaconChainConfig} `{ecfg : EpochConfig} `{ccfg : CommitteeConfig} `{cok : !committee_config_ok}.
Context {C : Type} `{lruC : LRU C} `{laws : !LRULaws C}.
Context (hashfunc : list Z → list Z) (digest_size : ∀ x, length (hashfunc x) = 32%nat).
Context (active : list Z → list Z).

Abbreviation returns0 := (returns hashfunc active ∅).
Abbreviation stands := (stands_for hashfunc active).

Lemma piece_is_spec l seed sh cps k : shuffled hashfunc l seed sh cps → 0 ≤ k < cps * SlotsPerEpoch →
  compute_committee hashfunc l seed k (cps * SlotsPerEpoch) = Ok (piece sh (cps * SlotsPerEpoch) (Z.to_nat k)).
Proof.
  intros Hsh Hk. pose proof (sh_count _ _ _ _ _ Hsh) as Hc. pose proof (sh_length _ _ _ _ _ Hsh) as Hl.
  destruct (piece_subslice _ _ _ _ _ Hsh k Hk) as [Hab _].
  unfold compute_committee. apply mapM_Ok. unfold piece, offset in *. rewrite Z2Nat.id, Nat2Z.inj_succ, Z2Nat.id in * by lia.
  unfold len. rewrite Hl in *. set (a := Z.of_nat (length l) * k / (cps * SlotsPerEpoch)) in *.
  replace (Z.succ k) with (k + 1) in * by lia. set (b := Z.of_nat (length l) * (k + 1) / (cps * SlotsPerEpoch)) in *.
  assert (0 ≤ a) by (apply Z.div_pos; lia). assert (0 ≤ b) by (apply Z.div_pos; lia).
  apply Forall2_same_length_lookup. split.
  { rewrite length_seqZ, length_take, length_drop, Hl. lia. }
  intros i x y [Hx Hi]%lookup_seqZ Hy. subst x. rewrite lookup_take in Hy. case_decide; [|done]. rewrite lookup_drop in Hy.
  destruct (sh_at _ _ _ _ _ Hsh (Z.to_nat a + i)) as (z & Hz & Hzy); [lia|].
  replace (Z.of_nat (Z.to_nat a + i)) with (a + Z.of_nat i) in Hz by lia. rewrite Hz. cbn [mbind gores_bind].
  unfold index_at. by rewrite <-Hzy, Hy.
Qed.

Lemma stands_sorted s e seed : stands s e seed → StronglySorted Z.lt (active seed).
Proof. intros [_ -> _ _]. apply activeIndices_sorted. Qed.
Lemma stands_len s e seed : stands s e seed → 0 < len (active seed).
Proof. intros [_ -> Hn _]. unfold len. destruct (activeIndices s e); [done|cbn; lia]. Qed.
Lemma stands_shuffled s e seed : stands s e seed → ∃ sh,
  shuffled hashfunc (activeIndices s e) seed sh (committees_per_slot (len (activeIndices s e))).
Proof.
  intros [_ _ _ Hl]. destruct (shuffled_exists hashfunc digest_size (activeIndices s e) seed Hl) as (sh & cps & Hsh).
  exists sh. pose proof (sh_max _ _ _ _ _ Hsh) as Hm. unfold committees_per_slot. by rewrite <-Hm.
Qed.

Lemma ActiveValidatorIndices_returns s e seed : stands s e seed →
  returns0 (ActiveValidatorIndices hashfunc false s e) (λ l, l = activeIndices s e).
Proof.
  intros Hst. pose proof (stands_len _ _ _ Hst) as Hl. destruct (id Hst) as [Hseed Hact _ _]. unfold ActiveValidatorIndices.
  eapply returns_bind_lift; [done|].
  eapply returns_bind; [apply ActiveIndices_returns; [set_solver|by eapply stands_sorted]|].
  intros o [-> | ->]; [|by apply returns_ret].
  apply returns_marked; [set_solver|]. rewrite <-Hact. rewrite (proj2 (Z.eqb_neq _ _)) by lia.
  apply (returns_bind _ _ _ _ _ (λ _, True)); [|intros; by apply returns_ret].
  intros w Hw Hp. destruct (UpdateCommitteeCache_returns _ digest_size _ _ s e seed Hst w Hw Hp) as ([] & w' & Hrun & HH).
  exists tt, w'. unfold logged. by rewrite Hrun.
Qed.

Lemma ActiveValidatorCount_returns s e seed : stands s e seed →
  returns0 (ActiveValidatorCount hashfunc false s e) (λ n, n = len (activeIndices s e)).
Proof.
  intros Hst. destruct (id Hst) as [Hseed Hact _ _]. unfold ActiveValidatorCount.
  eapply returns_bind_lift; [done|].
  eapply returns_bind; [apply ActiveIndicesCount_returns; [set_solver|by eapply stands_sorted]|].
  intros n Hn. destruct (negb (n =? 0) && _) eqn:Hc.
  { apply returns_ret. destruct Hn as [-> | ->]; [done|by rewrite Hact]. }
  apply returns_marked; [set_solver|].
  eapply returns_bind; [by eapply UpdateCommitteeCache_returns|]. intros _ _. apply returns_ret. by rewrite activeIndices_length.
Qed.

Section epoch.
Context (s : BeaconState) (e : Z) (seed sh : list Z) (cps : Z).
Context (Hst : stands s e seed) (Hsh : shuffled hashfunc (activeIndices s e) seed sh cps).

Lemma BeaconCommittee_returns slot index : 0 ≤ slot → 0 ≤ index < cps →
  returns0 (BeaconCommittee hashfunc false (activeIndices s e) seed slot index) (λ c, c = committeeAt sh cps slot index).
Proof.
  intros Hs Hi. unfold BeaconCommittee. destruct (id Hst) as [_ Hact _ _].
  eapply returns_bind; [eapply Committee_returns; [set_solver|by rewrite Hact|done|done]|].
  intros o [-> | ->]; [|by apply returns_ret]. eapply returns_lift; [|done].
  rewrite (sh_cps _ _ _ _ _ Hsh). cbn [mbind gores_bind].
  pose proof (indexOffset_run _ _ _ _ _ Hsh slot index Hs Hi) as Hrun.
  destruct (Slot.ModSlot slot SlotsPerEpoch) as [m| | |]; cbn [mbind gores_bind] in *; [|done..].
  destruct (Slot.Mul m cps) as [q| | |]; cbn [mbind gores_bind] in *; [|done..]. rewrite Hrun. cbn [mbind gores_bind].
  pose proof (sh_count _ _ _ _ _ Hsh). pose proof (sh_total _ _ _ _ _ Hsh).
  rewrite u64_small by (unfold is_u64; lia).
  apply ComputeCommittee_spec; [done|]. by eapply offset_range.
Qed.

Lemma BeaconCommitteeFromState_returns slot index : 0 ≤ slot → slot / SlotsPerEpoch = e → 0 ≤ index < cps →
  returns0 (BeaconCommitteeFromState hashfunc false s slot index) (λ c, c = committeeAt sh cps slot index).
Proof.
  intros Hs He Hi. unfold BeaconCommitteeFromState. destruct (id Hst) as [Hseed Hact _ _].
  eapply returns_bind_lift; [apply ToEpoch_run, cok_slots|]. rewrite He. eapply returns_bind_lift; [done|].
  eapply returns_bind; [eapply Committee_returns; [set_solver|by rewrite Hact|done|done]|].
  intros o [-> | ->]; [|by apply returns_ret].
  eapply returns_bind; [by eapply ActiveValidatorIndices_returns|]. intros ? ->. by apply BeaconCommittee_returns.
Qed.

(** The committees [0, n) of a slot. *)
Definition slotCommittees (slot : Z) : list (list Z) := committeeAt sh cps slot <$> seqZ 0 cps.

Lemma committeeStep_returns slot done x rest acc : 0 ≤ slot → seqZ 0 cps = done ++ x :: rest →
  (acc.1 = committeeAt sh cps slot <$> done ∧ (acc.2 = [] ∨ acc.2 = activeIndices s e)) →
  returns0 (committeeStep hashfunc false s slot e seed acc x)
    (λ acc', acc'.1 = committeeAt sh cps slot <$> (done ++ [x]) ∧ (acc'.2 = [] ∨ acc'.2 = activeIndices s e)).
Proof.
  intros Hs Hsplit Hacc. destruct acc as [cs l]. cbn in Hacc. destruct Hacc as [-> Hl]. destruct (id Hst) as [_ Hact _ _].
  assert (0 ≤ x < cps) as Hx.
  { assert (x ∈ seqZ 0 cps) as Hin by (rewrite Hsplit; set_solver). apply elem_of_seqZ in Hin. lia. }
  rewrite fmap_app. cbn [fmap list_fmap]. unfold committeeStep.
  eapply returns_bind; [eapply Committee_returns; [set_solver|by rewrite Hact|done|done]|].
  intros o [-> | ->]; [|by apply returns_ret].
  eapply (returns_bind _ _ _ _ _ (λ l', l' = activeIndices s e)).
  { destruct (Z.eqb_spec (len l) 0) as [H0|H0]; [by eapply ActiveValidatorIndices_returns|].
    apply returns_ret. destruct Hl as [-> | ->]; [done|done]. }
  intros ? ->. eapply returns_bind; [by apply BeaconCommittee_returns|]. intros ? ->. apply returns_ret. cbn. eauto.
Qed.

Lemma BeaconCommittees_returns slot : 0 ≤ slot → slot / SlotsPerEpoch = e →
  returns0 (BeaconCommittees hashfunc false s slot) (λ cs, cs = slotCommittees slot).
Proof.
  intros Hs He. unfold BeaconCommittees. eapply returns_bind_lift; [apply ToEpoch_run, cok_slots|]. rewrite He.
  eapply returns_bind; [by eapply ActiveValidatorCount_returns|]. intros ? ->.
  eapply returns_bind_lift; [apply Hsh|]. eapply returns_bind_lift; [apply Hst|].
  eapply returns_bind.
  { apply (returns_mfold _ _ _ _ _ (λ done acc, acc.1 = committeeAt sh cps slot <$> done ∧ (acc.2 = [] ∨ acc.2 = activeIndices s e)));
      [cbn; by auto|]. intros. by eapply committeeStep_returns. }
  intros acc [-> _]. by apply returns_ret.
Qed.

(** The committees of the epoch, slot by slot. *)
Definition epochCommittees : list (list (list Z)) := (λ i, slotCommittees (e * SlotsPerEpoch + i)) <$> seqZ 0 SlotsPerEpoch.

Lemma PrecomputeCommittees_returns : 0 ≤ e → (e + 1) * SlotsPerEpoch ≤ 2 ^ 64 →
  returns0 (PrecomputeCommittees hashfunc false s (e * SlotsPerEpoch)) (λ out, out = epochCommittees).
Proof.
  intros He H64. unfold PrecomputeCommittees. pose proof cok_slots.
  eapply returns_mono; [apply (returns_mfold _ _ _ _ _ (λ done out, out = (λ i, slotCommittees (e * SlotsPerEpoch + i)) <$> done)); [done|]|done].
  intros done x rest out Hsplit ->. assert (x ∈ seqZ 0 SlotsPerEpoch) as Hx%elem_of_seqZ by (rewrite Hsplit; set_solver).
  rewrite u64_small by (unfold is_u64; nia).
  eapply returns_bind; [apply BeaconCommittees_returns; [nia|]|].
  { rewrite Z.div_add_l, (Z.div_small x) by lia. lia. }
  intros ? ->. apply returns_ret. by rewrite fmap_app.
Qed.

(** ** The committees divide the active validators *)
Lemma slotCommittees_grid i : 0 ≤ i < SlotsPerEpoch →
  slotCommittees (e * SlotsPerEpoch + i) = (λ j, piece sh (cps * SlotsPerEpoch) (Z.to_nat (i * cps + j))) <$> seqZ 0 cps.
Proof.
  intros Hi. unfold slotCommittees, committeeAt. apply list_fmap_ext. intros k j _. do 3 f_equal.
  rewrite Z.add_comm, Z.mod_add, Z.mod_small by lia. done.
Qed.

Lemma epochCommittees_join : mjoin (mjoin epochCommittees) = sh.
Proof.
  unfold epochCommittees. pose proof (sh_pos _ _ _ _ _ Hsh). pose proof (cok_slots). pose proof (sh_count _ _ _ _ _ Hsh) as Hc.
  rewrite (list_fmap_ext _ (λ i, (λ j, piece sh (cps * SlotsPerEpoch) (Z.to_nat (i * cps + j))) <$> seqZ 0 cps)).
  2: { intros k i [-> Hi]%lookup_seqZ. apply slotCommittees_grid. lia. }
  rewrite (mjoin_grid (λ x, piece sh (cps * SlotsPerEpoch) (Z.to_nat x))) by lia.
  unfold seqZ. rewrite <-list_fmap_compose. replace (Z.to_nat (SlotsPerEpoch * cps)) with (Z.to_nat (cps * SlotsPerEpoch)) by lia.
  rewrite (list_fmap_ext _ (piece sh (cps * SlotsPerEpoch))).
  2: { intros k i _. cbn. f_equal. lia. }
  rewrite pieces_concat by done. cbn [Nat.add]. unfold offset. rewrite Z2Nat.id by lia.
  rewrite Z.div_mul, Z.mul_0_r, Zdiv_0_l, Nat2Z.id by lia. rewrite drop_0. apply take_ge. lia.
Qed.

Lemma epochCommittees_perm : mjoin (mjoin epochCommittees) ≡ₚ activeIndices s e.
Proof. rewrite epochCommittees_join. apply Hsh. Qed.

Lemma epochCommittees_NoDup : NoDup (mjoin (mjoin epochCommittees)).
Proof. rewrite epochCommittees_perm. apply strictly_sorted_NoDup, activeIndices_sorted. Qed.

Lemma committeeAt_size slot j : 0 ≤ slot → 0 ≤ j < cps →
  let q := len (activeIndices s e) / (cps * SlotsPerEpoch) in
  len (committeeAt sh cps slot j) = q ∨ len (committeeAt sh cps slot j) = q + 1.
Proof.
  intros Hs Hj. pose proof (offset_range _ _ _ _ _ Hsh slot j Hs Hj). unfold committeeAt, len.
  rewrite <-(sh_length _ _ _ _ _ Hsh). apply piece_length; [by eapply sh_count|by eapply sh_fits|lia].
Qed.

(** The duties of the slots of the epoch. *)
Definition allDuties (slots : list Z) : list (Z * CommitteeAssignment) :=
  mjoin ((λ slot, slotDuties slot 0 (slotCommittees slot)) <$> slots).

Lemma assignSlots_returns wanted slots D acc : Forall (λ slot, 0 ≤ slot ∧ slot / SlotsPerEpoch = e) slots →
  NoDup (D ++ allDuties slots).*1 → assigned wanted D acc →
  returns0 (assignSlots hashfunc false s slots acc)
    (λ m, ∀ v a, m !! v = Some a ↔ v ∈ wanted ∧ (v, a) ∈ D ++ allDuties slots).
Proof.
  revert D acc. induction slots as [|slot slots IH]; intros D acc Hs Hnd Hacc; cbn [assignSlots].
  { apply returns_ret. destruct acc as [[vals rem] asg]. unfold allDuties. cbn. rewrite app_nil_r. apply Hacc. }
  apply Forall_cons in Hs as [[H0 Hsl] Hs]. eapply returns_bind; [by apply BeaconCommittees_returns|]. intros ? ->.
  unfold allDuties in Hnd |- *. cbn [fmap list_fmap mjoin list_join] in Hnd |- *.
  pose proof (assignCommittees_outcome wanted slot 0 (slotCommittees slot) D _ acc Hnd Hacc) as Ho.
  destruct (assignCommittees slot 0 (slotCommittees slot) acc) as [[[vals rem] asg] []]; unfold outcome in Ho; cbn [fst snd] in Ho.
  - apply returns_ret. apply Ho.
  - rewrite app_assoc. apply IH; [done| |done]. by rewrite <-app_assoc.
Qed.

Lemma allDuties_join slots : (allDuties slots).*1 = mjoin (mjoin (slotCommittees <$> slots)).
Proof.
  unfold allDuties. induction slots as [|slot slots IH]; [done|]. cbn [fmap list_fmap mjoin list_join] in *.
  rewrite fmap_app, join_app, slotDuties_members. f_equal. exact IH.
Qed.
Lemma allDuties_members : (allDuties (seqZ (e * SlotsPerEpoch) SlotsPerEpoch)).*1 = mjoin (mjoin epochCommittees).
Proof.
  rewrite allDuties_join. unfold epochCommittees. rewrite <-(Z.add_0_r (e * SlotsPerEpoch)) at 1.
  by rewrite <-fmap_add_seqZ, <-list_fmap_compose.
Qed.

Lemma elem_of_allDuties slots v a : (v, a) ∈ allDuties slots ↔
  ∃ slot j, slot ∈ slots ∧ 0 ≤ j < cps ∧ v ∈ committeeAt sh cps slot j ∧
    a = mkCommitteeAssignment (committeeAt sh cps slot j) slot j.
Proof.
  unfold allDuties. rewrite list_elem_of_join. setoid_rewrite list_elem_of_fmap. split.
  - intros (dl & Hva & slot & -> & Hslot). apply elem_of_slotDuties in Hva as (k & c & Hk & Hv & ->).
    apply list_lookup_fmap_Some in Hk as (j & -> & [-> Hj]%lookup_seqZ).
    exists slot, (Z.of_nat k). rewrite !Z.add_0_l in *. split_and!; [done|lia|lia|done..].
  - intros (slot & j & Hslot & Hj & Hv & ->). exists (slotDuties slot 0 (slotCommittees slot)). split; [|by exists slot].
    apply elem_of_slotDuties. exists (Z.to_nat j), (committeeAt sh cps slot j). split_and!; [|done|f_equal; lia].
    unfold slotCommittees. rewrite list_lookup_fmap, lookup_seqZ_lt by lia. cbn. do 2 f_equal. lia.
Qed.

(** The slots of the loop are those of the epoch. *)
Lemma slotsFrom_epoch : 0 ≤ e → (e + 1) * SlotsPerEpoch < 2 ^ 64 →
  slotsFrom (e * SlotsPerEpoch) = seqZ (e * SlotsPerEpoch) SlotsPerEpoch ∧
  Forall (λ slot, 0 ≤ slot ∧ slot / SlotsPerEpoch = e) (seqZ (e * SlotsPerEpoch) SlotsPerEpoch).
Proof.
  intros He H64. pose proof cok_slots. split.
  - unfold slotsFrom. rewrite u64_small by (unfold is_u64; nia). f_equal. lia.
  - apply Forall_forall. intros x Hx%elem_of_seqZ. split; [nia|].
    replace x with (e * SlotsPerEpoch + (x - e * SlotsPerEpoch)) by lia. rewrite Z.div_add_l, Z.div_small by lia. lia.
Qed.

Lemma CommitteeAssignments_returns vs : 0 ≤ e → (e + 1) * SlotsPerEpoch < 2 ^ 64 → VerifyAssignmentEpoch e s = Ok tt →
  returns0 (CommitteeAssignments hashfunc false s e vs)
    (λ m, ∀ v a, m !! v = Some a ↔ v ∈ vs ∧ (v, a) ∈ allDuties (seqZ (e * SlotsPerEpoch) SlotsPerEpoch)).
Proof.
  intros He H64 Hv. destruct (slotsFrom_epoch He H64) as [Hslots Hep]. pose proof cok_slots.
  unfold CommitteeAssignments. eapply returns_bind_lift; [exact Hv|].
  eapply (returns_bind_lift _ _ _ _ (e * SlotsPerEpoch)); [by apply EpochStart_run|]. rewrite Hslots.
  eapply returns_mono; [apply (assignSlots_returns (list_to_set vs) _ []); [done| |]|].
  - cbn [app]. rewrite allDuties_members. apply epochCommittees_NoDup.
  - split_and!; [done| |].
    + intros v. cbn. set_solver.
    + intros v a. rewrite lookup_empty. cbn. split; [done|]. intros [_ []%elem_of_nil].
  - cbv beta. intros m Hm v a. rewrite Hm. cbn [app]. by rewrite elem_of_list_to_set.
Qed.
End epoch.
End theorems.

(** ** Sequences of requests *)
Inductive request :=
  | RCommittee (s : BeaconState) (slot index : Z)
  | RCommittees (s : BeaconState) (slot : Z)
  | RActive (s : BeaconState) (epoch : Z)
  | RCount (s : BeaconState) (epoch : Z)
  | RExpand | RCompress | RClear.
Inductive answer :=
  | ACommittee (c : list Z)
  | ACommittees (cs : list (list Z))
  | AIndices (l : list Z)
  | ACount (n : Z)
  | ADone.

(** [NewCommitteesCache], [NewProposerIndicesCache] *)
Definition newCaches {C} `{LRU C} : Caches C :=
  mkCaches (mkCommitteeCache (lru_New maxCommitteesCacheSize) ∅ maxCommitteesCacheSize) (mkProposerIndicesCache ∅ []).

Section requests.
Context `{cfg : BeaconChainConfig} `{ccfg : CommitteeConfig} {C : Type} `{LRU C}.
Context (hashfunc : list Z → list Z).

Definition runRequest (r : request) : M (Caches C) answer :=
  match r with
  | RCommittee s slot index => c ← BeaconCommitteeFromState hashfunc false s slot index; mret (ACommittee c)
  | RCommittees s slot => cs ← BeaconCommittees hashfunc false s slot; mret (ACommittees cs)
  | RActive s e => l ← ActiveValidatorIndices hashfunc false s e; mret (AIndices l)
  | RCount s e => n ← ActiveValidatorCount hashfunc false s e; mret (ACount n)
  | RExpand => ExpandCommitteeCache;; mret ADone
  | RCompress => CompressCommitteeCache;; mret ADone
  | RClear => Clear;; mret ADone
  end.
Fixpoint runRequests (rs : list request) : M (Caches C) (list answer) :=
  match rs with
  | [] => mret []
  | r :: rs' => a ← runRequest r; l ← runRequests rs'; mret (a :: l)
  end.

(** The answers by the specification, which knows no cache. *)
Definition expected (r : request) : gores answer :=
  match r with
  | RCommittee s slot index => c ← get_beacon_committee hashfunc s slot index; Ok (ACommittee c)
  | RCommittees s slot =>
      let perSlot := committees_per_slot (len (activeIndices s (slot / SlotsPerEpoch))) in
      cs ← mapM (get_beacon_committee hashfunc s slot) (seqZ 0 perSlot); Ok (ACommittees cs)
  | RActive s e => Ok (AIndices (activeIndices s e))
  | RCount s e => Ok (ACount (len (activeIndices s e)))
  | _ => Ok ADone
  end.

(** The states agree with [active] on the epochs they are asked for, and the committee exists. *)
Definition admissible (active : list Z → list Z) (r : request) : Prop :=
  match r with
  | RCommittee s slot index => 0 ≤ slot ∧ (∃ seed, stands_for hashfunc active s (slot / SlotsPerEpoch) seed) ∧
      0 ≤ index < committees_per_slot (len (activeIndices s (slot / SlotsPerEpoch)))
  | RCommittees s slot => 0 ≤ slot ∧ ∃ seed, stands_for hashfunc active s (slot / SlotsPerEpoch) seed
  | RActive s e | RCount s e => ∃ seed, stands_for hashfunc active s e seed
  | _ => True
  end.

(** The state and the epoch a request is about. *)
Definition asks (r : request) : option (BeaconState * Z) :=
  match r with
  | RCommittee s slot _ | RCommittees s slot => Some (s, slot / SlotsPerEpoch)
  | RActive s e | RCount s e => Some (s, e)
  | _ => None
  end.
(** The epoch has a seed and between one and [maxShuffleListSize] active validators, and the
    committee asked for exists. *)
Definition well_posed (r : request) : Prop :=
  match r with RCommittee _ slot _ | RCommittees _ slot => 0 ≤ slot | _ => True end ∧
  match r with
  | RCommittee s slot index => 0 ≤ index < committees_per_slot (len (activeIndices s (slot / SlotsPerEpoch)))
  | _ => True
  end ∧
  match asks r with
  | Some (s, e) => (∃ seed, Seed hashfunc s e DomainBeaconAttester = Ok seed) ∧ activeIndices s e ≠ [] ∧
      len (activeIndices s e) ≤ maxShuffleListSize
  | None => True
  end.
(** A seed, which the cache is indexed by, determines the active validators: states in which
    an epoch has the same seed have the same validators active in it. *)
Definition seed_determines_active (rs : list request) : Prop :=
  ∀ r1 r2 s1 e1 s2 e2 seed, r1 ∈ rs → r2 ∈ rs → asks r1 = Some (s1, e1) → asks r2 = Some (s2, e2) →
    Seed hashfunc s1 e1 DomainBeaconAttester = Ok seed → Seed hashfunc s2 e2 DomainBeaconAttester = Ok seed →
    activeIndices s1 e1 = activeIndices s2 e2.

#[local] Instance seed_is_dec s e seed : Decision (Seed hashfunc s e DomainBeaconAttester = Ok seed).
Proof.
  destruct (Seed hashfunc s e DomainBeaconAttester) as [x| | |]; [|by right..].
  destruct (decide (x = seed)) as [->|Hne]; [by left|right; congruence].
Defined.
(** The active validators of a seed, as the requests know them. *)
Definition activeOf (rs : list request) (seed : list Z) : list Z :=
  match list_find (λ p, Seed hashfunc p.1 p.2 DomainBeaconAttester = Ok seed) (omap asks rs) with
  | Some (_, (s, e)) => activeIndices s e
  | None => []
  end.
Lemma activeOf_asks rs r s e seed : seed_determines_active rs → r ∈ rs → asks r = Some (s, e) →
  Seed hashfunc s e DomainBeaconAttester = Ok seed → activeOf rs seed = activeIndices s e.
Proof.
  intros Hd Hr Ha Hs. unfold activeOf. destruct (list_find _ _) as [[i [s' e']]|] eqn:Hf.
  - apply list_find_Some in Hf as (Hi & Hs' & _). apply list_elem_of_lookup_2, list_elem_of_omap in Hi as (r' & Hr' & Ha').
    by eapply (Hd r' r).
  - apply list_find_None in Hf. rewrite Forall_forall in Hf. exfalso. apply (Hf (s, e)); [|done].
    apply list_elem_of_omap. by exists r.
Qed.
Lemma well_posed_admissible rs r : seed_determines_active rs → r ∈ rs → well_posed r → admissible (activeOf rs) r.
Proof.
  intros Hd Hr (Hslot & Hidx & Ha).
  assert (Hst : ∀ s e, asks r = Some (s, e) → ∃ seed, stands_for hashfunc (activeOf rs) s e seed).
  { intros s e Has. rewrite Has in Ha. destruct Ha as ([seed Hs] & Hne & Hlen). exists seed.
    split; [done|by eapply activeOf_asks|done|done]. }
  destruct r; cbn in *; auto.
Qed.
End requests.

Section properties.
Context `{cfg : BeaconChainConfig} `{ecfg : EpochConfig} `{ccfg : CommitteeConfig} `{cok : !committee_config_ok}.
Context {C : Type} `{lruC : LRU C} `{laws : !LRULaws C}.
Context (hashfunc : list Z → list Z) (digest_size : ∀ x, length (hashfunc x) = 32%nat).
Context (active : list Z → list Z).

Lemma get_beacon_committee_spec s slot index seed sh : 0 ≤ slot →
  stands_for hashfunc active s (slot / SlotsPerEpoch) seed →
  let l := activeIndices s (slot / SlotsPerEpoch) in
  shuffled hashfunc l seed sh (committees_per_slot (len l)) → 0 ≤ index < committees_per_slot (len l) →
  get_beacon_committee hashfunc s slot index = Ok (committeeAt sh (committees_per_slot (len l)) slot index).
Proof.
  intros Hs Hst l Hsh Hi. unfold get_beacon_committee. rewrite (sf_seed _ _ _ _ _ Hst). cbn [mbind gores_bind]. fold l.
  apply piece_is_spec; [done|]. by eapply offset_range.
Qed.

Lemma resizeTo_returns n : returns hashfunc active ∅ (resizeTo n) (λ _, True).
Proof.
  intros w Hw Hp. unfold resizeTo, mbind, M_bind, mget. cbn. destruct (size (committeeCache w) =? n); [by exists tt, w|].
  eexists _, _. split_and!; [done|done| |done..]. intros sd it Hit. cbn in Hit. apply Resize_contents in Hit. by apply Hw.
Qed.

Lemma Clear_returns : returns hashfunc active ∅ Clear (λ _, True).
Proof.
  intros w Hw Hp. eexists _, _. split_and!; [done|done| |done..]. intros sd it Hit. cbn in Hit.
  by rewrite contents_New in Hit.
Qed.

Lemma runRequest_returns r : admissible hashfunc active r →
  returns hashfunc active ∅ (runRequest hashfunc r) (λ a, expected hashfunc r = Ok a).
Proof.
  destruct r as [s slot index|s slot|s e|s e| | |]; cbn [admissible runRequest expected].
  - intros (Hs & [seed Hst] & Hi). destruct (stands_shuffled _ digest_size _ _ _ _ Hst) as [sh Hsh].
    eapply returns_bind; [by eapply BeaconCommitteeFromState_returns|]. intros ? ->. apply returns_ret.
    by erewrite get_beacon_committee_spec.
  - intros (Hs & [seed Hst]). destruct (stands_shuffled _ digest_size _ _ _ _ Hst) as [sh Hsh].
    eapply returns_bind; [by eapply BeaconCommittees_returns|]. intros ? ->. apply returns_ret.
    erewrite mapM_Ok; [done|]. unfold slotCommittees. apply Forall2_fmap_r, Forall2_same_length_lookup. split; [done|].
    intros i x y Hx Hy. simplify_eq. apply lookup_seqZ in Hx. eapply get_beacon_committee_spec; [done..|lia].
  - intros [seed Hst]. eapply returns_bind; [by eapply ActiveValidatorIndices_returns|]. intros ? ->. by apply returns_ret.
  - intros [seed Hst]. eapply returns_bind; [by eapply ActiveValidatorCount_returns|]. intros ? ->. by apply returns_ret.
  - intros _. eapply returns_bind; [apply resizeTo_returns|]. intros _ _. by apply returns_ret.
  - intros _. eapply returns_bind; [apply resizeTo_returns|]. intros _ _. by apply returns_ret.
  - intros _. eapply returns_bind; [apply Clear_returns|]. intros _ _. by apply returns_ret.
Qed.

Lemma runRequests_returns rs : Forall (admissible hashfunc active) rs →
  returns hashfunc active ∅ (runRequests hashfunc rs) (λ l, mapM (expected hashfunc) rs = Ok l).
Proof.
  induction 1 as [|r rs Hr _ IH]; cbn [runRequests]; [by apply returns_ret|].
  eapply returns_bind; [by apply runRequest_returns|]. intros a Ha. eapply returns_bind; [apply IH|].
  intros l Hl. apply returns_ret. cbn. rewrite Ha. cbn. by rewrite Hl.
Qed.

Lemma newCaches_ok : entries_ok hashfunc active newCaches.
Proof. intros sd it Hit. cbn in Hit. by rewrite contents_New in Hit. Qed.
End properties.

(** ** Properties *)

(** C13: every sequence of well-posed requests for committees, active validators and their
    number, interleaved with resizing and clearing the cache, is answered without ever
    waiting and exactly as by the specification, which computes every committee index by
    index and has no cache: whatever the LRU cache evicts.  The requests are about states of
    one chain protocol: a seed determines the validators active in its epoch. *)
Theorem committee_requests_match_spec `{cfg : BeaconChainConfig} `{ccfg : CommitteeConfig} {C : Type} `{lruC : LRU C} `{!LRULaws C}
    (hashfunc : list Z → list Z) (rs : list request) :
  committee_config_ok → (∀ x, length (hashfunc x) = 32%nat) → Forall (well_posed hashfunc) rs → seed_determines_active hashfunc rs →
  ∃ answers caches, runRequests (C := C) hashfunc rs newCaches = (Ok answers, caches) ∧
    mapM (expected hashfunc) rs = Ok answers.
Proof.
  intros Hcok Hh Hrs Hd.
  destruct (runRequests_returns (C := C) hashfunc Hh (activeOf hashfunc rs) rs) with (w := newCaches (C := C)) as (a & w & Hrun & Ha & _);
    [|apply newCaches_ok|done|by exists a, w].
  rewrite Forall_forall in *. intros r Hr. by apply well_posed_admissible; [..|apply Hrs].
Qed.

(** C14: the committees that [PrecomputeCommittees] returns for an epoch, from any
    cache with right entries, have [SlotsPerEpoch] slots of equally many committees; together
    their members are the active validators of the epoch, each exactly once, and the sizes
    differ by at most one. *)
Theorem committees_partition_active `{cfg : BeaconChainConfig} `{ccfg : CommitteeConfig} {C : Type} `{lruC : LRU C} `{!LRULaws C}
    (hashfunc : list Z → list Z) (active : list Z → list Z) (s : BeaconState) (e : Z) (seed : list Z) (caches : Caches C) :
  committee_config_ok → (∀ x, length (hashfunc x) = 32%nat) → stands_for hashfunc active s e seed →
  0 ≤ e → (e + 1) * SlotsPerEpoch ≤ 2 ^ 64 →
  entries_ok hashfunc active caches → inProgress (committeeCache caches) = ∅ →
  let perSlot := committees_per_slot (len (activeIndices s e)) in
  let q := len (activeIndices s e) / (perSlot * SlotsPerEpoch) in
  ∃ bySlot caches', PrecomputeCommittees hashfunc false s (e * SlotsPerEpoch) caches = (Ok bySlot, caches') ∧
    len bySlot = SlotsPerEpoch ∧ Forall (λ cs, len cs = perSlot) bySlot ∧
    mjoin (mjoin bySlot) ≡ₚ activeIndices s e ∧ NoDup (mjoin (mjoin bySlot)) ∧
    Forall (Forall (λ c, len c = q ∨ len c = q + 1)) bySlot.
Proof.
  intros Hcok Hh Hst He H64 Hw Hp perSlot q. destruct (stands_shuffled _ Hh _ _ _ _ Hst) as [sh Hsh]. fold perSlot in Hsh.
  destruct (PrecomputeCommittees_returns hashfunc Hh active s e seed sh perSlot Hst Hsh He H64 caches Hw Hp)
    as (out & w' & Hrun & -> & _). exists (epochCommittees e sh perSlot), w'. split; [done|].
  pose proof cok_slots. pose proof (sh_pos _ _ _ _ _ Hsh). split_and!.
  - unfold epochCommittees, len. rewrite length_fmap, length_seqZ. lia.
  - apply Forall_fmap, Forall_true. intros i. unfold compose, slotCommittees, len. rewrite length_fmap, length_seqZ. lia.
  - by eapply epochCommittees_perm.
  - by eapply epochCommittees_NoDup.
  - apply Forall_fmap, Forall_forall. intros i Hi%elem_of_seqZ. apply Forall_fmap, Forall_forall. intros j Hj%elem_of_seqZ.
    eapply committeeAt_size; [done|nia|lia].
Qed.

(** The duty [AssignmentForValidator] finds in these committees: an active
    validator gets the slot, the committee and the position where it is a member; a
    validator that is not active gets the zero assignment, whose committee is empty. *)
Theorem assignment_is_the_duty `{cfg : BeaconChainConfig} `{ccfg : CommitteeConfig} {C : Type} `{lruC : LRU C} `{!LRULaws C}
    (hashfunc : list Z → list Z) (active : list Z → list Z) (s : BeaconState) (e : Z) (seed : list Z) (caches : Caches C) (v : Z) :
  committee_config_ok → (∀ x, length (hashfunc x) = 32%nat) → stands_for hashfunc active s e seed →
  0 ≤ e → (e + 1) * SlotsPerEpoch ≤ 2 ^ 64 →
  entries_ok hashfunc active caches → inProgress (committeeCache caches) = ∅ →
  ∃ bySlot caches', PrecomputeCommittees hashfunc false s (e * SlotsPerEpoch) caches = (Ok bySlot, caches') ∧
    let a := AssignmentForValidator bySlot (e * SlotsPerEpoch) v in
    if decide (v ∈ activeIndices s e) then
      ∃ i j pos c, 0 ≤ i < SlotsPerEpoch ∧ a = mkLiteAssignment (e * SlotsPerEpoch + i) j (len c) pos ∧
        get_beacon_committee hashfunc s (e * SlotsPerEpoch + i) j = Ok c ∧ index_at c pos = Ok v
    else a = mkLiteAssignment 0 0 0 0.
Proof.
  intros Hcok Hh Hst He H64 Hw Hp. destruct (stands_shuffled _ Hh _ _ _ _ Hst) as [sh Hsh].
  set (perSlot := committees_per_slot (len (activeIndices s e))) in *.
  destruct (PrecomputeCommittees_returns hashfunc Hh active s e seed sh perSlot Hst Hsh He H64 caches Hw Hp)
    as (out & w' & Hrun & -> & _). exists (epochCommittees e sh perSlot), w'. split; [done|]. cbv zeta.
  pose proof (epochCommittees_perm _ s e seed sh perSlot Hsh) as Hperm.
  destruct (assignmentIn_spec 0 (e * SlotsPerEpoch) v (epochCommittees e sh perSlot))
    as [(Hin & k & cs & j & c & m & Hk & Hj & Hm & Heq)|[Hn Heq]]; unfold AssignmentForValidator; rewrite Heq.
  - rewrite Hperm in Hin. rewrite decide_True by done. pose proof cok_slots.
    apply list_lookup_fmap_Some in Hk as (i & -> & [-> Hi]%lookup_seqZ).
    apply list_lookup_fmap_Some in Hj as (j' & -> & [-> Hj']%lookup_seqZ).
    rewrite !Z.add_0_l in *.
    exists (Z.of_nat k), (Z.of_nat j), (Z.of_nat m), (committeeAt sh perSlot (e * SlotsPerEpoch + Z.of_nat k) (Z.of_nat j)).
    split_and!; [lia|lia|rewrite u64_small by (unfold is_u64; nia); done| |unfold index_at; by rewrite Nat2Z.id, Hm].
    assert ((e * SlotsPerEpoch + Z.of_nat k) / SlotsPerEpoch = e) as Hep
      by (rewrite Z.div_add_l, (Z.div_small (Z.of_nat k)) by lia; lia).
    pose proof (get_beacon_committee_spec hashfunc active s (e * SlotsPerEpoch + Z.of_nat k) (Z.of_nat j) seed sh) as Hg.
    cbv zeta in Hg. rewrite Hep in Hg. apply Hg; [nia|done|done|]. fold perSlot. lia.
  - rewrite Hperm in Hn. by rewrite decide_False.
Qed.

(** [CommitteeAssignments] for an epoch it accepts returns, for exactly those of
    the requested validators that are active, the committee the validator is a member of
    with its slot and index; the early exit loses nobody. *)
Theorem committee_assignments_complete `{cfg : BeaconChainConfig} `{ecfg : EpochConfig} `{ccfg : CommitteeConfig} {C : Type} `{lruC : LRU C} `{!LRULaws C}
    (hashfunc : list Z → list Z) (active : list Z → list Z) (s : BeaconState) (e : Z) (seed vs : list Z) (caches : Caches C) :
  committee_config_ok → (∀ x, length (hashfunc x) = 32%nat) → stands_for hashfunc active s e seed →
  0 ≤ e → (e + 1) * SlotsPerEpoch < 2 ^ 64 → VerifyAssignmentEpoch e s = Ok tt →
  entries_ok hashfunc active caches → inProgress (committeeCache caches) = ∅ →
  ∃ m caches', CommitteeAssignments hashfunc false s e vs caches = (Ok m, caches') ∧
    (∀ v, is_Some (m !! v) ↔ v ∈ vs ∧ v ∈ activeIndices s e) ∧
    (∀ v a, m !! v = Some a → v ∈ ca_Committee a ∧ ca_AttesterSlot a / SlotsPerEpoch = e ∧
       get_beacon_committee hashfunc s (ca_AttesterSlot a) (ca_CommitteeIndex a) = Ok (ca_Committee a)).
Proof.
  intros Hcok Hh Hst He H64 Hv Hw Hp. destruct (stands_shuffled _ Hh _ _ _ _ Hst) as [sh Hsh].
  set (perSlot := committees_per_slot (len (activeIndices s e))) in *.
  destruct (CommitteeAssignments_returns hashfunc Hh active s e seed sh perSlot Hst Hsh vs He H64 Hv caches Hw Hp)
    as (m & w' & Hrun & Hm & _). exists m, w'. split; [done|]. split.
  - intros v. rewrite <-(epochCommittees_perm _ s e seed sh perSlot Hsh), <-allDuties_members, list_elem_of_fmap. split.
    + intros [a [Hvs Hin]%Hm]. split; [done|]. by exists (v, a).
    + intros [Hvs ([v' a] & -> & Hin)]. exists a. apply Hm. by split.
  - intros v a [_ (slot & j & Hslot & Hj & Hin & ->)%elem_of_allDuties]%Hm. cbn.
    destruct (slotsFrom_epoch e He H64) as [_ Hep]. rewrite Forall_forall in Hep. destruct (Hep slot Hslot) as [H0 Hdiv].
    split_and!; [done..|]. pose proof (get_beacon_committee_spec hashfunc active s slot j seed sh H0) as Hg. cbv zeta in Hg.
    rewrite Hdiv in Hg. by apply Hg.
Qed.

(** ** Concrete states *)
#[local] Existing Instance mainnet_config.
#[local] Existing Instance mainnet_epoch_config.

(** The committee parameters of config/params/minimal_config.go. *)
Definition minimal_committee_config : CommitteeConfig := {|
  TargetCommitteeSize := 4; MaxCommitteesPerSlot := 4; MinSeedLookahead := 1; EpochsPerHistoricalVector := 64;
  DomainBeaconProposer := [0; 0; 0; 0]; DomainBeaconAttester := [1; 0; 0; 0]
|}.
#[local] Existing Instance minimal_committee_config.

(** Six validators, the fourth not active, in the given slot, with effective balance [bal]. *)
Definition ex_head (ver sl bal : Z) (lookahead : list Z) : BeaconState :=
  mkState ver sl ((λ a, mkValidator bal false a a MaxUint64 MaxUint64 [] []) <$> [0; 0; 0; MaxUint64; 0; 0])
    [] [] [] [] [] [] (replicate (Z.to_nat 8192) 77) [0] (mkCheckpoint 0 0) (mkCheckpoint 0 0) (mkCheckpoint 0 0) 0 0 0 0
    (replicate 64 (seqZ 7 32)) lookahead 0 0 [] [] []
    0 0 0 (mkEth1Data [] 0) ∅.
Definition ex_committee_state : BeaconState := ex_head version_Deneb 170 32000000000 [].
Definition ex_active (seed : list Z) : list Z := [0; 1; 2; 4; 5].
Definition ex_aseed (s : BeaconState) (e : Z) : list Z := match Seed ex_hash s e DomainBeaconAttester with Ok sd => sd | _ => [] end.

Lemma ex_config_ok : committee_config_ok.
Proof. by constructor. Qed.
Lemma newCaches_proposers e r : ProposerIndices e r (proposerIndicesCache (newCaches (C := bounded))) = None.
Proof. done. Qed.
Lemma ex_hash_length x : length (ex_hash x) = 32%nat.
Proof. unfold ex_hash. by rewrite length_fmap. Qed.
Lemma ex_stands : stands_for ex_hash ex_active ex_committee_state 5 (ex_aseed ex_committee_state 5).
Proof. by constructor. Qed.

(** A later state of the same chain, and one of another chain with six active validators and
    another history of randao mixes. *)
Definition ex_later_state : BeaconState := ex_head version_Deneb 172 31000000000 [].
Definition ex_six (mix : list Z) : BeaconState :=
  mkState version_Deneb 170 ((λ a, mkValidator 32000000000 false a a MaxUint64 MaxUint64 [] []) <$> [0; 0; 0; 0; 0; 0])
    [] [] [] [] [] [] (replicate (Z.to_nat 8192) 77) [0] (mkCheckpoint 0 0) (mkCheckpoint 0 0) (mkCheckpoint 0 0) 0 0 0 0
    (replicate 64 mix) [] 0 0 [] [] [] 0 0 0 (mkEth1Data [] 0) ∅.
Definition ex_other_state : BeaconState := ex_six (seqZ 9 32).
Definition ex_requests : list request :=
  [RCommittees ex_committee_state 161; RCommittee ex_later_state 170 0; RCount ex_other_state 5;
   RExpand; RActive ex_other_state 5; RActive ex_committee_state 5; RClear; RCommittee ex_other_state 191 0].

Lemma ex_requests_states r s e : r ∈ ex_requests → asks r = Some (s, e) →
  e = 5 ∧ (s = ex_committee_state ∨ s = ex_later_state ∨ s = ex_other_state).
Proof.
  intros Hr. repeat (apply elem_of_cons in Hr as [->|Hr]; [cbn; try done; intros [= <- <-]; by auto|]).
  by apply not_elem_of_nil in Hr.
Qed.
Lemma committee_requests_match_spec_witness :
  activeIndices ex_committee_state 5 ≠ activeIndices ex_other_state 5 ∧
  ∃ answers caches, runRequests (C := bounded) ex_hash ex_requests newCaches = (Ok answers, caches) ∧
    mapM (expected ex_hash) ex_requests = Ok answers.
Proof.
  split; [by vm_compute|].
  apply (committee_requests_match_spec ex_hash ex_requests); [exact ex_config_ok|exact ex_hash_length| |].
  - repeat constructor; try (vm_compute; done); try (eexists; vm_compute; reflexivity).
  - intros r1 r2 s1 e1 s2 e2 seed Hr1 Hr2 Ha1 Ha2 Hs1 Hs2.
    destruct (ex_requests_states _ _ _ Hr1 Ha1) as [-> [->|[->| ->]]], (ex_requests_states _ _ _ Hr2 Ha2) as [-> [->|[->| ->]]];
      try (vm_compute; reflexivity); exfalso; vm_compute in Hs1; vm_compute in Hs2; congruence.
Defined.

(** Without that, the cache answers with the validators of the state that came first. *)
Example shared_seed_mixes_registries :
  (runRequests (C := bounded) ex_hash [RActive ex_committee_state 5; RActive (ex_six (seqZ 7 32)) 5] newCaches).1 =
    Ok [AIndices [0; 1; 2; 4; 5]; AIndices [0; 1; 2; 4; 5]] ∧
  activeIndices (ex_six (seqZ 7 32)) 5 = [0; 1; 2; 3; 4; 5].
Proof. split; by vm_compute. Qed.

Lemma committees_partition_active_witness :
  let perSlot := committees_per_slot (len (activeIndices ex_committee_state 5)) in
  let q := len (activeIndices ex_committee_state 5) / (perSlot * SlotsPerEpoch) in
  ∃ bySlot caches', PrecomputeCommittees (C := bounded) ex_hash false ex_committee_state (5 * SlotsPerEpoch) newCaches = (Ok bySlot, caches') ∧
    len bySlot = SlotsPerEpoch ∧ Forall (λ cs, len cs = perSlot) bySlot ∧
    mjoin (mjoin bySlot) ≡ₚ activeIndices ex_committee_state 5 ∧ NoDup (mjoin (mjoin bySlot)) ∧
    Forall (Forall (λ c, len c = q ∨ len c = q + 1)) bySlot.
Proof.
  apply (committees_partition_active ex_hash ex_active ex_committee_state 5 (ex_aseed ex_committee_state 5) newCaches);
    [exact ex_config_ok|exact ex_hash_length|exact ex_stands|lia|done|apply newCaches_ok|done].
Defined.

Lemma assignment_is_the_duty_witness :
  ∃ bySlot caches', PrecomputeCommittees (C := bounded) ex_hash false ex_committee_state (5 * SlotsPerEpoch) newCaches = (Ok bySlot, caches') ∧
    let a := AssignmentForValidator bySlot (5 * SlotsPerEpoch) 4 in
    if decide (4 ∈ activeIndices ex_committee_state 5) then
      ∃ i j pos c, 0 ≤ i < SlotsPerEpoch ∧ a = mkLiteAssignment (5 * SlotsPerEpoch + i) j (len c) pos ∧
        get_beacon_committee ex_hash ex_committee_state (5 * SlotsPerEpoch + i) j = Ok c ∧ index_at c pos = Ok 4
    else a = mkLiteAssignment 0 0 0 0.
Proof.
  apply (assignment_is_the_duty ex_hash ex_active ex_committee_state 5 (ex_aseed ex_committee_state 5) newCaches 4);
    [exact ex_config_ok|exact ex_hash_length|exact ex_stands|lia|done|apply newCaches_ok|done].
Defined.

Lemma committee_assignments_complete_witness :
  ∃ m caches', CommitteeAssignments (C := bounded) ex_hash false ex_committee_state 5 [5; 3; 1] newCaches = (Ok m, caches') ∧
    (∀ v, is_Some (m !! v) ↔ v ∈ [5; 3; 1] ∧ v ∈ activeIndices ex_committee_state 5) ∧
    (∀ v a, m !! v = Some a → v ∈ ca_Committee a ∧ ca_AttesterSlot a / SlotsPerEpoch = 5 ∧
       get_beacon_committee ex_hash ex_committee_state (ca_AttesterSlot a) (ca_CommitteeIndex a) = Ok (ca_Committee a)).
Proof.
  apply (committee_assignments_complete ex_hash ex_active ex_committee_state 5 (ex_aseed ex_committee_state 5) [5; 3; 1] newCaches);
    [exact ex_config_ok|exact ex_hash_length|exact ex_stands|lia|done|done|apply newCaches_ok|done].
Defined.

Example ex_active_indices : activeIndices ex_committee_state 5 = [0; 1; 2; 4; 5].
Proof. by vm_compute. Qed.
