(* ===== verification/ProposerTheorems.v ===== *)
(** * Proposers: the search, and the cache

    The search for a proposer tries the active validators in shuffled order until one is
    accepted with a probability proportional to its effective balance: it ends within one
    round over the validators as soon as one of them has the full balance.  The cached
    proposers of an epoch are those of the search; a state after Fulu stores the proposers
    of its own epoch under any past epoch it is asked for. *)
From stdpp Require Import sorting.
From S2P Require Import Prelude MathHelper Primitives Config SlotTime Shuffle ShuffleFacts MVSlice EpochConfig BeaconState CommitteeCache Committees CommitteeFacts CommitteeTheorems.

Definition is_bytes (l : list Z) : Prop := length l = 32%nat ∧ Forall (λ b, 0 ≤ b < 256) l.

Lemma byte_at l i : is_bytes l → 0 ≤ i < 32 → ∃ b, index_at l i = Ok b ∧ 0 ≤ b < 256.
Proof.
  intros [Hl Hb] Hi. unfold index_at. destruct (lookup_lt_is_Some_2 l (Z.to_nat i)) as [b Hbi]; [lia|].
  exists b. rewrite Hbi. split; [done|]. by eapply Forall_lookup_1 in Hb.
Qed.

Section search.
Context `{cfg : BeaconChainConfig} `{ecfg : EpochConfig}.
Context (hashfunc : list Z → list Z) (hash_bytes : ∀ x, is_bytes (hashfunc x)).

(** The balance that is accepted with certainty. *)
Definition fullBalance (s : BeaconState) : Z :=
  if version s >=? version_Electra then MaxEffectiveBalanceElectra else MaxEffectiveBalance.

Lemma accepted_total s seed i b : 0 ≤ i → ∃ ok, accepted hashfunc s seed i b = Ok ok ∧
  (fullBalance s ≤ b → 0 ≤ fullBalance s → b * 65535 < two64 → ok = true).
Proof.
  intros Hi. unfold accepted, fullBalance. destruct (version s >=? version_Electra).
  - assert (0 ≤ i mod 16 < 16) by (apply Z.mod_pos_bound; lia).
    destruct (byte_at (hashfunc (seed ++ Bytes8 (i / 16))) (i mod 16 * 2)) as (lo & -> & Hlo); [done|lia|].
    destruct (byte_at (hashfunc (seed ++ Bytes8 (i / 16))) (i mod 16 * 2 + 1)) as (hi & -> & Hhi); [done|lia|].
    cbn [mbind gores_bind]. eexists. split; [done|]. intros Hf H0 H64.
    rewrite Z.shiftl_mul_pow2 by lia. change (2 ^ 8) with 256. rewrite (u64_small (hi * 256)) by (unfold is_u64; lia).
    assert (0 ≤ Z.lor lo (hi * 256) < 65536) as Hr.
    { split; [apply Z.lor_nonneg; lia|]. destruct (Z.eq_dec (Z.lor lo (hi * 256)) 0); [lia|].
      change 65536 with (2 ^ 16). apply Z.log2_lt_pow2; [assert (0 ≤ Z.lor lo (hi * 256)) by (apply Z.lor_nonneg; lia); lia|].
      rewrite Z.log2_lor by lia. apply Z.max_lub_lt.
      - destruct (Z.eq_dec lo 0) as [->|]; [done|]. apply Z.log2_lt_pow2; lia.
      - destruct (Z.eq_dec hi 0) as [->|]; [done|]. apply Z.log2_lt_pow2; lia. }
    unfold MaxRandomValueElectra. rewrite !u64_small by (unfold is_u64; nia). apply Z.geb_le. nia.
  - assert (0 ≤ i mod 32 < 32) by (apply Z.mod_pos_bound; lia).
    destruct (byte_at (hashfunc (seed ++ Bytes8 (i / 32))) (i mod 32)) as (x & -> & Hx); [done|lia|].
    cbn [mbind gores_bind]. eexists. split; [done|]. intros Hf H0 H64.
    unfold MaxRandomByte. rewrite !u64_small by (unfold is_u64; nia). apply Z.geb_le. nia.
Qed.

Context (s : BeaconState) (l seed : list Z).
Context (Hn : 0 < len l ≤ maxShuffleListSize) (Hrounds : 0 < ShuffleRoundCount < 256).
Context (Hl : Forall (λ i, 0 ≤ i < NumValidators s) l).

(** The member of [l] that iteration [i] looks at. *)
Definition drawn (i : Z) : Z := steps hashfunc seed (len l) (direction true) (i mod len l).

Lemma candidate_total i : 0 ≤ i → ∃ c v ok, candidate hashfunc s l seed i = Ok (c, ok) ∧
  l !! Z.to_nat (drawn i) = Some c ∧ validators s !! Z.to_nat c = Some v ∧ 0 ≤ c ∧
  (fullBalance s ≤ EffectiveBalance v → 0 ≤ fullBalance s → EffectiveBalance v * 65535 < two64 → ok = true).
Proof.
  intros Hi. unfold candidate. assert (0 ≤ i mod len l < len l) as Hm by (apply Z.mod_pos_bound; lia).
  rewrite (ComputeShuffledIndex_spec hashfunc seed (len l)) by done. cbn [mbind gores_bind]. fold (drawn i).
  assert (0 ≤ drawn i < len l) as Hd by (by apply steps_range). unfold len in Hd.
  destruct (lookup_lt_is_Some_2 l (Z.to_nat (drawn i))) as [c Hc]; [lia|]. unfold index_at. rewrite Hc. cbn [mbind gores_bind].
  assert (0 ≤ c < NumValidators s) as Hcb by (by eapply Forall_lookup_1 in Hl).
  rewrite Z.geb_leb, (proj2 (Z.leb_gt _ _)) by lia. unfold NumValidators, len in Hcb.
  destruct (lookup_lt_is_Some_2 (validators s) (Z.to_nat c)) as [v Hv]; [lia|].
  assert (ValidatorAtIndex s c = Ok v) as ->.
  { unfold ValidatorAtIndex, list_at, index_at, len. rewrite Z.geb_leb, (proj2 (Z.leb_gt _ _)) by lia. by rewrite Hv. }
  cbn [mbind gores_bind]. destruct (accepted_total s seed i (EffectiveBalance v) Hi) as (ok & -> & Hok).
  exists c, v, ok. split_and!; [done..|lia|done].
Qed.

Lemma candidate_member i c ok : 0 ≤ i → candidate hashfunc s l seed i = Ok (c, ok) → c ∈ l.
Proof.
  intros Hi Hc. destruct (candidate_total i Hi) as (c' & v & ok' & Hc' & Hlk & _).
  assert (c' = c) as <- by congruence. by eapply list_elem_of_lookup_2.
Qed.

(** Every member of [l] is drawn in the first round. *)
Lemma drawn_all k : (k < length l)%nat → ∃ i, 0 ≤ i < len l ∧ drawn i = Z.of_nat k.
Proof.
  intros Hk. unfold len in *. pose (i := steps hashfunc seed (len l) (direction false) (Z.of_nat k)).
  assert (0 ≤ i < len l) as Hi by (apply steps_range; unfold len; lia).
  exists i. split; [exact Hi|]. unfold drawn. rewrite Z.mod_small by done. unfold i.
  apply (direction_inverse hashfunc seed (len l) Hn false). unfold len. lia.
Qed.

Lemma proposerLoop_first fuel i c : 0 ≤ i → (i + Z.of_nat fuel < two64) →
  ∀ k, (k < fuel)%nat → candidate hashfunc s l seed (i + Z.of_nat k) = Ok (c, true) →
  (∀ j, (j < k)%nat → ∃ c', candidate hashfunc s l seed (i + Z.of_nat j) = Ok (c', false)) →
  proposerLoop hashfunc fuel s l seed i = Ok c.
Proof.
  revert i. induction fuel as [|fuel IH]; intros i Hi H64 k Hk Hc Hbefore; [lia|]. cbn [proposerLoop].
  destruct k as [|k].
  { rewrite Z.add_0_r in Hc. by rewrite Hc. }
  destruct (Hbefore 0%nat) as [c' Hc']; [lia|]. rewrite Z.add_0_r in Hc'. rewrite Hc'. cbn [mbind gores_bind].
  rewrite u64_small by (unfold is_u64; lia). apply (IH (i + 1)) with k; [lia|lia|lia| |].
  - by replace (i + 1 + Z.of_nat k) with (i + Z.of_nat (S k)) by lia.
  - intros j Hj. destruct (Hbefore (S j)) as [c2 Hc2]; [lia|]. exists c2. by replace (i + 1 + Z.of_nat j) with (i + Z.of_nat (S j)) by lia.
Qed.

(** The least accepted iteration, if any of the first [n] is accepted. *)
Definition firstAt (k : nat) (c : Z) : Prop :=
  candidate hashfunc s l seed (Z.of_nat k) = Ok (c, true) ∧
  ∀ j, (j < k)%nat → ∃ c', candidate hashfunc s l seed (Z.of_nat j) = Ok (c', false).

Lemma first_accepted n :
  (∃ k c, (k < n)%nat ∧ firstAt k c) ∨
  (∀ j, (j < n)%nat → ∃ c', candidate hashfunc s l seed (Z.of_nat j) = Ok (c', false)).
Proof.
  induction n as [|n IH]; [right; lia|]. destruct IH as [(k & c & Hk & Hf)|Hnone]; [left; exists k, c; split; [lia|done]|].
  destruct (candidate_total (Z.of_nat n)) as (c & v & [] & Hc & _); [lia| |].
  - left. exists n, c. by split; [lia|].
  - right. intros j Hj. destruct (decide (j = n)) as [->|]; [by exists c|]. apply Hnone. lia.
Qed.

Lemma full_balance_accepted x v : x ∈ l → validators s !! Z.to_nat x = Some v →
  fullBalance s ≤ EffectiveBalance v → 0 ≤ fullBalance s → EffectiveBalance v * 65535 < two64 →
  ∃ k c, (k < length l)%nat ∧ firstAt k c.
Proof.
  intros [k Hk]%list_elem_of_lookup Hv Hf H0 H64.
  destruct (drawn_all k) as (i & Hi & Hd); [by eapply lookup_lt_Some|].
  destruct (first_accepted (length l)) as [?|Hnone]; [done|]. exfalso. unfold len in Hi.
  destruct (Hnone (Z.to_nat i)) as [c' Hc']; [lia|]. rewrite Z2Nat.id in Hc' by lia.
  destruct (candidate_total i) as (c & v' & ok & Hc & Hlk & Hv' & _ & Hok); [lia|].
  rewrite Hd, Nat2Z.id in Hlk. assert (c = x) as -> by congruence. assert (v' = v) as -> by congruence.
  rewrite Hok in Hc by done. congruence.
Qed.

(** With a validator of full balance the search returns the first accepted candidate. *)
Lemma search_returns (fuel : nat) x v : len l ≤ Z.of_nat fuel < two64 →
  x ∈ l → validators s !! Z.to_nat x = Some v → 0 ≤ fullBalance s ≤ EffectiveBalance v → EffectiveBalance v * 65535 < two64 →
  ∃ k c, Z.of_nat k < len l ∧ ComputeProposerIndex hashfunc fuel s l seed = Ok c ∧ c ∈ l ∧ firstAt k c.
Proof.
  intros Hf Hx Hv Hb H64. destruct (full_balance_accepted x v) as (k & c & Hk & Hf1); [done|done|lia..|].
  unfold len in *. exists k, c. destruct (id Hf1) as [Hc Hbefore]. split_and!; [lia| | |done].
  - unfold ComputeProposerIndex, len. rewrite (proj2 (Z.eqb_neq _ _)) by lia.
    apply (proposerLoop_first fuel 0 c) with k; [lia|lia|lia|done|done].
  - eapply candidate_member; [|exact Hc]. lia.
Qed.
End search.

(** ** The proposer cache *)
Lemma ProposerIndices_Set e r ids p e' r' :
  ProposerIndices e' r' (Set_ e r ids p) = if decide (e' = e ∧ r' = r) then Some ids else ProposerIndices e' r' p.
Proof.
  unfold ProposerIndices, Set_. cbn. destruct (decide (e' = e)) as [->|Hne].
  - rewrite lookup_insert_eq. cbn. destruct (decide (r' = r)) as [->|Hr].
    + by rewrite lookup_insert_eq, decide_True.
    + rewrite lookup_insert_ne, decide_False by naive_solver. by destruct (indices p !! e).
  - rewrite lookup_insert_ne, decide_False by naive_solver. done.
Qed.
Lemma ProposerIndices_Prune n p e r ids :
  ProposerIndices e r (Prune n p) = Some ids → ProposerIndices e r p = Some ids.
Proof.
  unfold ProposerIndices, Prune. cbn. intros (inner & Hi & Hr)%bind_Some.
  apply map_lookup_filter_Some in Hi as [-> _]. done.
Qed.

(** No epoch is below 0: [ClearCache] leaves the proposers in the cache. *)
Lemma ClearCache_keeps_proposers {C} `{LRU C} (w : Caches C) e r : 0 ≤ e →
  ProposerIndices e r (proposerIndicesCache (ClearCache w).2) = ProposerIndices e r (proposerIndicesCache w).
Proof.
  intros He. change (proposerIndicesCache (ClearCache w).2) with (Prune 0 (proposerIndicesCache w)).
  unfold ProposerIndices, Prune. cbn [indices]. rewrite map_lookup_filter.
  destruct (indices (proposerIndicesCache w) !! e) as [inner|]; [|done]. cbn [mbind option_bind].
  by rewrite option_guard_True by lia.
Qed.

Lemma subslice_prefix {A} (l : list A) (n : nat) : Z.of_nat n ≤ len l → subslice l 0 (Z.of_nat n) = Ok (take n l).
Proof.
  intros Hn. unfold subslice. unfold len in Hn. rewrite !(proj2 (Z.leb_le _ _)) by lia. cbn [andb].
  by rewrite Z.sub_0_r, Nat2Z.id, drop_0.
Qed.

Section cached.
Context `{cfg : BeaconChainConfig} `{ecfg : EpochConfig} `{ccfg : CommitteeConfig} `{cok : !committee_config_ok}.
Context {C : Type} `{lruC : LRU C} `{laws : !LRULaws C}.
Context (hashfunc : list Z → list Z) (digest_size : ∀ x, length (hashfunc x) = 32%nat) (fuel : nat).
Context (active : list Z → list Z) (s : BeaconState) (e : Z) (aseed pseed props : list Z).
Context (Hst : stands_for hashfunc active s e aseed).
Context (He : e = slot s / SlotsPerEpoch) (Hs0 : 0 ≤ slot s) (Hs64 : (e + 1) * SlotsPerEpoch < 2 ^ 64).
Context (Hpseed : Seed hashfunc s e DomainBeaconProposer = Ok pseed).

(** What the search returns for each slot of the epoch. *)
Definition epoch_proposers : Prop :=
  Forall2 (λ i p, ComputeProposerIndex hashfunc fuel s (activeIndices s e) (hashfunc (pseed ++ Bytes8 (e * SlotsPerEpoch + i))) = Ok p)
    (seqZ 0 SlotsPerEpoch) props.
Context (Hprops : epoch_proposers).

Lemma mapM_Forall2 {A B} (f : A → gores B) l k : Forall2 (λ x y, f x = Ok y) l k → mapM f l = Ok k.
Proof. induction 1 as [|x y l k Hx _ IH]; [done|]. cbn. by rewrite Hx, IH. Qed.

Lemma epoch_nonneg : 0 ≤ e.
Proof. rewrite He. apply Z.div_pos; [done|]. apply cok_slots. Qed.

Lemma precomputed : PrecomputeProposerIndices hashfunc fuel s (activeIndices s e) e = Ok props.
Proof.
  pose proof epoch_nonneg. pose proof cok_slots. unfold PrecomputeProposerIndices. rewrite Hpseed, EpochStart_run by done.
  cbn [mbind gores_bind]. apply mapM_Forall2. apply Forall2_same_length_lookup_2; [by eapply Forall2_length|].
  intros k i p Hi Hp. pose proof (Forall2_lookup_lr _ _ _ _ _ _ Hprops Hi Hp) as Hc. cbv beta in Hc.
  apply lookup_seqZ in Hi as [-> Hk]. by rewrite u64_small by (unfold is_u64; nia).
Qed.

(** The proposer of the state's slot among those of the epoch. *)
Lemma props_at : len props = SlotsPerEpoch ∧ ∃ p, props !! Z.to_nat (slot s mod SlotsPerEpoch) = Some p ∧
  ComputeProposerIndex hashfunc fuel s (activeIndices s e) (hashfunc (pseed ++ Bytes8 (slot s))) = Ok p.
Proof.
  pose proof cok_slots as Hsl.
  assert (length props = Z.to_nat SlotsPerEpoch) as Hlen by (by rewrite <-(Forall2_length _ _ _ Hprops), length_seqZ).
  split; [unfold len; lia|]. assert (0 ≤ slot s mod SlotsPerEpoch < SlotsPerEpoch) as Hm by (apply Z.mod_pos_bound; lia).
  destruct (lookup_lt_is_Some_2 props (Z.to_nat (slot s mod SlotsPerEpoch))) as [p Hpk]; [lia|].
  exists p. split; [done|]. destruct (Forall2_lookup_r _ _ _ _ _ Hprops Hpk) as (i & [-> Hi]%lookup_seqZ & Hc).
  rewrite <-Hc, Z.add_0_l, Z2Nat.id by lia.
  assert (SlotsPerEpoch ≠ 0) as Hne by lia. pose proof (Z.div_mod (slot s) SlotsPerEpoch Hne) as Hdm. rewrite <-He in Hdm.
  do 4 f_equal. lia.
Qed.

(** The entries for the epoch are its proposers, as [storeProposers] copies them. *)
Definition proposers_ok (w : Caches C) : Prop := ∀ r ids,
  StateRootAtSlot s (e * SlotsPerEpoch - 1) = Ok r →
  ProposerIndices e r (proposerIndicesCache w) = Some ids → ids = indicesArray props.

Definition good (w : Caches C) : Prop :=
  entries_ok hashfunc active w ∧ inProgress (committeeCache w) = ∅ ∧ proposers_ok w.

Lemma ToEpoch_slot : ToEpoch (slot s) = Ok e.
Proof. rewrite ToEpoch_run by apply cok_slots. by rewrite <-He. Qed.

(** An entry is used only if epochs have as many slots as the array has elements. *)
Lemma cached_lookup (w : Caches C) r : good w → StateRootAtSlot s (e * SlotsPerEpoch - 1) = Ok r →
  ∃ pid, cachedProposerIndexAtSlot (slot s) r w = (Ok pid, w) ∧ (pid = None ∨ pid = props !! Z.to_nat (slot s mod SlotsPerEpoch)).
Proof.
  intros (_ & _ & Hpr) Hr. unfold cachedProposerIndexAtSlot, mbind, M_bind, mget, mlift. rewrite ToEpoch_slot.
  destruct (ProposerIndices e r (proposerIndicesCache w)) as [ids|] eqn:Hpi; [|by eauto].
  apply Hpr in Hpi as ->; [|done]. cbn [proposerOfSlot]. destruct (Z.eqb_spec (len (indicesArray props)) SlotsPerEpoch) as [Heq|_]; [|by eauto].
  destruct props_at as (Hlen & p & Hp & _). pose proof cok_slots. unfold negb. rewrite rem_pos by done. cbn [mbind gores_bind].
  unfold index_at. assert (indicesArray props !! Z.to_nat (slot s mod SlotsPerEpoch) = Some p) as ->; [|eexists; split; [done|by right]].
  unfold indicesArray, fieldparams_SlotsPerEpoch, len in *. rewrite length_take, length_app, length_replicate in Heq.
  pose proof (lookup_lt_Some _ _ _ Hp). rewrite lookup_take, decide_True by lia. by rewrite lookup_app_l by lia.
Qed.

Lemma UpdateProposerIndicesInCache_good (w : Caches C) r : good w → version s < version_Fulu →
  GenesisEpoch +64 MinSeedLookahead < e → 1 ≤ e → StateRootAtSlot s (e * SlotsPerEpoch - 1) = Ok r →
  ∃ w', UpdateProposerIndicesInCache hashfunc fuel false s e w = (Ok tt, w') ∧ good w'.
Proof.
  intros Hgood Hv Hg H1 Hr. pose proof Hgood as (Hw & Hp & Hpr). unfold UpdateProposerIndicesInCache.
  rewrite (proj2 (Z.leb_gt _ _)) by done. pose proof (sf_len _ _ _ _ _ Hst). pose proof cok_slots.
  erewrite M_bind_Ok; [|unfold mlift; rewrite EpochEnd_run by done; done].
  erewrite M_bind_Ok; [|unfold mlift; rewrite Hr; done].
  rewrite Z.geb_leb, (proj2 (Z.leb_gt _ _)) by done. erewrite M_bind_Ok by done.
  case_bool_decide; [by exists w|].
  destruct (ActiveValidatorIndices_returns hashfunc digest_size active s e aseed Hst w Hw Hp) as (l & w1 & Hrun & -> & Hw1 & Hp1 & Hc1).
  erewrite M_bind_Ok by exact Hrun. erewrite M_bind_Ok; [|unfold mlift; rewrite precomputed; done].
  destruct props_at as [Hlen _]. rewrite Hlen, Z.eqb_refl. cbn [negb].
  eexists. split; [done|]. split_and!; [done..|]. intros r' ids Hr' Hids. cbn in Hids. rewrite ProposerIndices_Set in Hids. case_decide as Hd.
  - by injection Hids as <-.
  - rewrite Hc1 in Hids. by apply ProposerIndices_Prune, Hpr in Hids.
Qed.

Lemma computedProposer_returns p : 
  ComputeProposerIndex hashfunc fuel s (activeIndices s e) (hashfunc (pseed ++ Bytes8 (slot s))) = Ok p →
  returns hashfunc active ∅ (computedProposer hashfunc fuel false s (slot s) e) (λ x, x = p).
Proof.
  intros Hc. unfold computedProposer. eapply returns_bind_lift; [done|].
  eapply returns_bind; [by eapply ActiveValidatorIndices_returns|]. intros ? ->. by eapply returns_lift.
Qed.

Lemma proposerThroughCache_good (w : Caches C) r : good w → version s < version_Fulu → GenesisEpoch +64 MinSeedLookahead < e → 1 ≤ e →
  StateRootAtSlot s (e * SlotsPerEpoch - 1) = Ok r →
  ∃ pid w', proposerThroughCache hashfunc fuel false s (slot s) e w = (Ok pid, w') ∧ good w' ∧
    (pid = None ∨ pid = props !! Z.to_nat (slot s mod SlotsPerEpoch)).
Proof.
  intros Hw Hv Hg H1 Hr. pose proof cok_slots. unfold proposerThroughCache.
  erewrite M_bind_Ok; [|unfold mlift; rewrite EpochEnd_run by done; done].
  erewrite M_bind_Ok; [|unfold mlift; rewrite Hr; done].
  destruct (r =? 0); [eexists _, w; by eauto|].
  destruct (cached_lookup w r Hw Hr) as (pid & Hrun & Hpid). erewrite M_bind_Ok by exact Hrun.
  destruct pid as [p|]; [eexists _, w; by eauto|].
  destruct (UpdateProposerIndicesInCache_good w r Hw Hv Hg H1 Hr) as (w1 & Hup & Hw1). erewrite M_bind_Ok by exact Hup.
  destruct (cached_lookup w1 r Hw1 Hr) as (pid & -> & Hpid1). exists pid, w1. by auto.
Qed.

(** The proposer of the state's slot, through the caches. *)
Lemma BeaconProposerIndex_good (w : Caches C) : good w → version s < version_Fulu →
  (GenesisEpoch +64 MinSeedLookahead < e → ∃ r, StateRootAtSlot s (e * SlotsPerEpoch - 1) = Ok r) →
  ∃ p w', BeaconProposerIndex hashfunc fuel false s w = (Ok p, w') ∧ props !! Z.to_nat (slot s mod SlotsPerEpoch) = Some p ∧ good w'.
Proof.
  intros Hw Hv Hroot. destruct props_at as (_ & p & Hp & Hcp).
  assert (∀ w, good w → ∃ w', computedProposer hashfunc fuel false s (slot s) e w = (Ok p, w') ∧ good w') as Hcomp.
  { clear w Hw. intros w (Hw1 & Hp1 & Hpr1).
    destruct (computedProposer_returns p Hcp w Hw1 Hp1) as (? & w' & Hrun & -> & Hw2 & Hp2 & Hc2).
    exists w'. split; [done|]. split_and!; [done..|]. intros r' ids. rewrite Hc2. apply Hpr1. }
  unfold BeaconProposerIndex, BeaconProposerIndexAtSlot.
  do 2 (erewrite M_bind_Ok; [|unfold mlift; by rewrite ToEpoch_slot]).
  rewrite Z.geb_leb, (proj2 (Z.leb_gt version_Fulu _)) by done. cbn [andb]. rewrite Z.leb_refl. cbn [andb].
  destruct (Z.gtb_spec e (GenesisEpoch +64 MinSeedLookahead)) as [Hg|Hg].
  - pose proof (u64_range (GenesisEpoch + MinSeedLookahead)) as Hu. unfold is_u64 in Hu. destruct (Hroot ltac:(lia)) as [r Hr].
    destruct (proposerThroughCache_good w r Hw Hv) as (pid & w1 & Hrun & Hw1 & Hpid); [lia|lia|done|].
    erewrite M_bind_Ok by exact Hrun. destruct Hpid as [-> | ->].
    + destruct (Hcomp w1 Hw1) as (w2 & -> & Hw2). by exists p, w2.
    + rewrite Hp. by exists p, w1.
  - destruct (Hcomp w Hw) as (w1 & -> & Hw1). by exists p, w1.
Qed.
End cached.

(** With an active validator of full balance an epoch has its proposers, all of them active. *)
Lemma epoch_proposers_exist `{cfg : BeaconChainConfig} `{ecfg : EpochConfig} hashfunc fuel s e pseed x v :
  (∀ y, is_bytes (hashfunc y)) → 0 < ShuffleRoundCount < 256 → len (activeIndices s e) ≤ maxShuffleListSize →
  len (activeIndices s e) ≤ Z.of_nat fuel < two64 → x ∈ activeIndices s e → validators s !! Z.to_nat x = Some v →
  0 ≤ fullBalance s ≤ EffectiveBalance v → EffectiveBalance v * 65535 < two64 →
  ∃ props, epoch_proposers hashfunc fuel s e pseed props ∧ Forall (λ p, p ∈ activeIndices s e) props.
Proof.
  intros Hh Hr Hlen Hf Hx Hv Hb H64. unfold epoch_proposers.
  assert (0 < len (activeIndices s e)) as H0 by (unfold len; destruct (activeIndices s e); [by apply elem_of_nil in Hx|cbn; lia]).
  induction (seqZ 0 SlotsPerEpoch) as [|i l (props & Hp & Hin)]; [by exists []|].
  destruct (search_returns hashfunc Hh s (activeIndices s e) (hashfunc (pseed ++ Bytes8 (e * SlotsPerEpoch + i)))
    ltac:(lia) Hr (activeIndices_bound s e) fuel x v) as (k & c & _ & Hc & Hmem & _); [done..|].
  exists (c :: props). by split; constructor.
Qed.

(** ** After Fulu *)
Section fulu.
Context `{cfg : BeaconChainConfig} `{ecfg : EpochConfig} `{ccfg : CommitteeConfig} {C : Type} `{lruC : LRU C}.
Context (hashfunc : list Z → list Z) (fuel : nat) (cancelled : bool) (s : BeaconState).
Context (Hsl : SlotsPerEpoch = 32) (Hv : version_Fulu ≤ version s) (Hlen : 32 ≤ len (proposerLookahead s)).

Lemma lookahead_run : ProposerLookahead s = Ok (proposerLookahead s).
Proof. unfold ProposerLookahead. by rewrite (proj2 (Z.ltb_ge _ _)). Qed.

(** The update stores the proposers of the state's epoch under epoch [e]. *)
Lemma fulu_update (w : Caches C) e r : GenesisEpoch +64 MinSeedLookahead < e → (e + 1) * SlotsPerEpoch < 2 ^ 64 →
  StateRootAtSlot s (e * SlotsPerEpoch - 1) = Ok r →
  ∃ w', UpdateProposerIndicesInCache hashfunc fuel cancelled s e w = (Ok tt, w') ∧
    ProposerIndices e r (proposerIndicesCache w') = Some (take 32 (proposerLookahead s)).
Proof.
  intros Hg H64 Hr. pose proof (u64_range (GenesisEpoch + MinSeedLookahead)) as Hu. unfold is_u64 in Hu.
  unfold UpdateProposerIndicesInCache. rewrite (proj2 (Z.leb_gt _ _)) by done.
  erewrite M_bind_Ok; [|unfold mlift; rewrite EpochEnd_run by (try done; lia); done].
  erewrite M_bind_Ok; [|unfold mlift; by rewrite Hr]. rewrite (proj2 (Z.geb_le _ _)) by done.
  erewrite M_bind_Ok; [|unfold mlift; by rewrite lookahead_run].
  erewrite M_bind_Ok; [|unfold mlift; rewrite Hsl; apply (f_equal (λ x, (x, w))), (subslice_prefix _ 32); done].
  eexists. split; [done|]. cbn [proposerIndicesCache set_proposers]. rewrite ProposerIndices_Set, decide_True by done.
  f_equal. unfold indicesArray, fieldparams_SlotsPerEpoch. unfold len in Hlen.
  rewrite take_app_le by (rewrite length_take; lia). by rewrite take_take.
Qed.

(** The answer for a slot of the state's epoch. *)
Lemma fulu_current q (w : Caches C) : q / SlotsPerEpoch = slot s / SlotsPerEpoch → FuluForkEpoch ≤ slot s / SlotsPerEpoch →
  0 ≤ slot s / SlotsPerEpoch < MaxUint64 →
  BeaconProposerIndexAtSlot hashfunc fuel cancelled s q w = (index_at (proposerLookahead s) (q mod SlotsPerEpoch), w).
Proof.
  intros Hq Hfork He. assert (0 < SlotsPerEpoch) as Hpos by (rewrite Hsl; lia).
  unfold BeaconProposerIndexAtSlot. do 2 (erewrite M_bind_Ok; [|unfold mlift; by rewrite ToEpoch_run]).
  rewrite Hq. rewrite !(proj2 (Z.geb_le _ _)), Z.eqb_refl by done. cbn [andb orb]. unfold mlift. f_equal.
  unfold beaconProposerIndexAtSlotFulu. rewrite !ToEpoch_run by done. rewrite Hq. cbn [mbind gores_bind].
  rewrite Z.ltb_irrefl, Z.gtb_ltb, (proj2 (Z.ltb_ge _ _)) by (rewrite u64_small by (unfold is_u64; lia); lia). cbn [orb].
  rewrite lookahead_run. cbn [mbind gores_bind]. rewrite rem_pos by done. cbn [mbind gores_bind]. by rewrite Z.eqb_refl.
Qed.

Lemma fulu_cached slot' (w : Caches C) r x : index_at (proposerLookahead s) (slot' mod SlotsPerEpoch) = Ok x →
  ProposerIndices (slot' / SlotsPerEpoch) r (proposerIndicesCache w) = Some (take 32 (proposerLookahead s)) →
  cachedProposerIndexAtSlot slot' r w = (Ok (Some x), w).
Proof.
  intros Hx Hpi. assert (0 ≤ slot' mod SlotsPerEpoch < 32) as Hm by (rewrite Hsl; apply Z.mod_pos_bound; lia).
  unfold cachedProposerIndexAtSlot, mbind, M_bind, mget, mlift. rewrite ToEpoch_run by (rewrite Hsl; lia). rewrite Hpi.
  unfold proposerOfSlot, len in *. rewrite length_take, Nat.min_l by lia. rewrite Hsl. change (negb _) with false. cbv iota.
  rewrite rem_pos by lia. cbn [mbind gores_bind]. unfold index_at in *. rewrite Hsl in *. rewrite lookup_take, decide_True by lia.
  destruct (proposerLookahead s !! _); [by injection Hx as ->|done].
Qed.
End fulu.

(** ** Properties *)

(** C31: the search for a proposer among the active validators [l] ends within one
    round over [l] if one of them has the full effective balance ([MaxEffectiveBalance], since
    Electra [MaxEffectiveBalanceElectra]): it returns the first candidate that is accepted,
    a member of [l].  A bound of [len l] iterations is then enough. *)
Theorem proposer_search_terminates `{cfg : BeaconChainConfig} `{ecfg : EpochConfig} (hashfunc : list Z → list Z)
    (s : BeaconState) (l seed : list Z) (fuel : nat) (x : Z) (v : Validator) :
  (∀ y, is_bytes (hashfunc y)) → 0 < ShuffleRoundCount < 256 → len l ≤ maxShuffleListSize →
  Forall (λ i, 0 ≤ i < NumValidators s) l → len l ≤ Z.of_nat fuel < two64 →
  x ∈ l → validators s !! Z.to_nat x = Some v → 0 ≤ fullBalance s ≤ EffectiveBalance v → EffectiveBalance v * 65535 < two64 →
  ∃ k c, Z.of_nat k < len l ∧ ComputeProposerIndex hashfunc fuel s l seed = Ok c ∧ c ∈ l ∧ firstAt hashfunc s l seed k c.
Proof.
  intros Hh Hr Hlen Hl Hf Hx Hv Hb H64. assert (0 < len l) as H0 by (unfold len; destruct l; [by apply elem_of_nil in Hx|cbn; lia]).
  by apply (search_returns hashfunc Hh s l seed ltac:(lia) Hr Hl fuel x v).
Qed.

(** C32: before Fulu the proposer of the state's slot does not depend on what the caches
    remember, as long as what they hold is right.  If some active validator has the full
    effective balance, each slot of the epoch has a proposer, the one the search returns, and
    it is active.  From any caches whose entries for this epoch are these proposers and whose
    committees are those of their seeds, none in progress ([good]; empty caches are),
    [BeaconProposerIndex] returns the proposer of the slot and leaves such caches.  [active]
    gives the active validators that an attester seed stands for; a bound of the number of
    active validators on the search is enough.  Any number of slots per epoch is covered: with
    one other than the 32 of the arrays of the cache, its entries are not used. *)
Theorem BeaconProposerIndex_transparent `{cfg : BeaconChainConfig} `{ecfg : EpochConfig} `{ccfg : CommitteeConfig} {C : Type} `{lruC : LRU C} `{!LRULaws C}
    (hashfunc : list Z → list Z) (fuel : nat) (active : list Z → list Z) (s : BeaconState) (e x : Z) (v : Validator)
    (aseed pseed : list Z) :
  committee_config_ok → (∀ x, is_bytes (hashfunc x)) →
  e = slot s / SlotsPerEpoch → 0 ≤ slot s → (e + 1) * SlotsPerEpoch < 2 ^ 64 → version s < version_Fulu →
  stands_for hashfunc active s e aseed → Seed hashfunc s e DomainBeaconProposer = Ok pseed →
  len (activeIndices s e) ≤ Z.of_nat fuel < two64 → x ∈ activeIndices s e → validators s !! Z.to_nat x = Some v →
  0 ≤ fullBalance s ≤ EffectiveBalance v → EffectiveBalance v * 65535 < two64 →
  (GenesisEpoch +64 MinSeedLookahead < e → ∃ r, StateRootAtSlot s (e * SlotsPerEpoch - 1) = Ok r) →
  ∃ props, epoch_proposers hashfunc fuel s e pseed props ∧ Forall (λ p, p ∈ activeIndices s e) props ∧
    ∀ caches : Caches C, good hashfunc active s e props caches →
    ∃ p caches', BeaconProposerIndex hashfunc fuel false s caches = (Ok p, caches') ∧
      props !! Z.to_nat (slot s mod SlotsPerEpoch) = Some p ∧ good hashfunc active s e props caches'.
Proof.
  intros Hcok Hh He H0 H64 Hv Hst Hps Hf Hx Hvx Hb Hb64 Hroot. assert (∀ y, length (hashfunc y) = 32%nat) as Hlen by apply Hh.
  destruct (epoch_proposers_exist hashfunc fuel s e pseed x v) as (props & Hprops & Hin);
    [done|apply cok_rounds|by eapply sf_len|done..|].
  exists props. split; [done|]. split; [done|]. intros caches Hw.
  by eapply BeaconProposerIndex_good.
Qed.

(** A state of Fulu or later that is asked for the proposer of a slot in a past
    epoch, with no cached answer, answers with the proposer of the slot at the same
    position in its own epoch (what it answers for the current epoch), whatever the search
    would return for the slot; and stores the proposers of its own epoch under the past one,
    from where [ProposerIndexAtSlotFromCheckpoint] and later requests take them. *)
Theorem fulu_past_proposer_is_current `{cfg : BeaconChainConfig} `{ecfg : EpochConfig} `{ccfg : CommitteeConfig} {C : Type} `{lruC : LRU C}
    (hashfunc : list Z → list Z) (fuel : nat) (cancelled : bool) (s : BeaconState) (slot' r : Z) (caches : Caches C) :
  let e := slot' / SlotsPerEpoch in
  let stateEpoch := slot s / SlotsPerEpoch in
  let answer := index_at (proposerLookahead s) (slot' mod SlotsPerEpoch) in
  SlotsPerEpoch = 32 → version_Fulu ≤ version s → FuluForkEpoch ≤ stateEpoch →
  GenesisEpoch +64 MinSeedLookahead < e → e < stateEpoch → (stateEpoch + 1) * SlotsPerEpoch < 2 ^ 64 →
  StateRootAtSlot s (e * SlotsPerEpoch - 1) = Ok r → r ≠ 0 →
  ProposerIndices e r (proposerIndicesCache caches) = None → 32 ≤ len (proposerLookahead s) →
  ∃ caches', BeaconProposerIndexAtSlot hashfunc fuel cancelled s slot' caches = (answer, caches') ∧
    ProposerIndices e r (proposerIndicesCache caches') = Some (take 32 (proposerLookahead s)) ∧
    BeaconProposerIndexAtSlot hashfunc fuel cancelled s (stateEpoch * SlotsPerEpoch + slot' mod SlotsPerEpoch) caches = (answer, caches).
Proof.
  intros e stateEpoch answer Hsl Hv Hfork Hg Hpast H64 Hr Hr0 Hmiss Hlen.
  pose proof (u64_range (GenesisEpoch + MinSeedLookahead)) as Hu. unfold is_u64 in Hu.
  assert (0 < SlotsPerEpoch) as Hpos by (rewrite Hsl; lia).
  assert (0 ≤ slot' mod SlotsPerEpoch < SlotsPerEpoch) as Hm by (apply Z.mod_pos_bound; lia).
  assert (∃ x, answer = Ok x) as [x Hx].
  { unfold answer, index_at. unfold len in Hlen. destruct (lookup_lt_is_Some_2 (proposerLookahead s) (Z.to_nat (slot' mod SlotsPerEpoch))) as [x ->]; [lia|eauto]. }
  destruct (fulu_update hashfunc fuel cancelled s Hsl Hv Hlen caches e r Hg ltac:(nia) Hr) as (w' & Hup & Hpi).
  exists w'. split_and!; [|done|].
  - unfold BeaconProposerIndexAtSlot. do 2 (erewrite M_bind_Ok; [|unfold mlift; by rewrite ToEpoch_run]).
    fold e stateEpoch. rewrite !(proj2 (Z.eqb_neq _ _)) by (rewrite ?u64_small by (unfold is_u64; nia); lia).
    rewrite andb_false_r. rewrite (proj2 (Z.leb_le _ _)), Z.gtb_ltb, (proj2 (Z.ltb_lt _ _)) by lia. cbn [andb].
    rewrite (M_bind_Ok _ _ _ (Some x) w'); [by rewrite Hx|]. unfold proposerThroughCache.
    erewrite M_bind_Ok; [|unfold mlift; rewrite EpochEnd_run by (try done; nia); done].
    erewrite M_bind_Ok; [|unfold mlift; by rewrite Hr]. rewrite (proj2 (Z.eqb_neq _ _)) by done.
    rewrite (M_bind_Ok _ _ _ None caches); [|unfold cachedProposerIndexAtSlot, mbind, M_bind, mget, mlift; rewrite ToEpoch_run by done; fold e; by rewrite Hmiss].
    erewrite M_bind_Ok by exact Hup. by eapply fulu_cached.
  - unfold answer. rewrite fulu_current by (try done; rewrite ?Z.div_add_l, ?(Z.div_small (_ mod _)) by lia; lia).
    do 2 f_equal. rewrite Z.add_comm, Z.mod_add, Z.mod_mod by lia. done.
Qed.

(** ** Concrete states *)
#[local] Existing Instance mainnet_config.
#[local] Existing Instance mainnet_epoch_config.
#[local] Existing Instance minimal_committee_config.

Definition ex_flat_hash (x : list Z) : list Z := seqZ (u8 (foldl Z.add 0 x) / 8) 32.
Lemma ex_flat_hash_bytes x : is_bytes (ex_flat_hash x).
Proof.
  unfold ex_flat_hash. split; [by rewrite length_seqZ|]. apply Forall_forall. intros b Hb%elem_of_seqZ.
  assert (0 ≤ u8 (foldl Z.add 0 x) < 256) by (apply Z.mod_pos_bound; lia).
  assert (0 ≤ u8 (foldl Z.add 0 x) / 8 < 32) by (split; [apply Z.div_pos; lia|apply Z.div_lt_upper_bound; lia]). lia.
Qed.

Lemma proposer_search_terminates_witness :
  ∃ k c, Z.of_nat k < len (activeIndices ex_committee_state 5) ∧
    ComputeProposerIndex ex_flat_hash 5 ex_committee_state (activeIndices ex_committee_state 5) ex_seed = Ok c ∧
    c ∈ activeIndices ex_committee_state 5 ∧ firstAt ex_flat_hash ex_committee_state (activeIndices ex_committee_state 5) ex_seed k c.
Proof.
  apply (proposer_search_terminates ex_flat_hash ex_committee_state (activeIndices ex_committee_state 5) ex_seed 5 0
    (mkValidator 32000000000 false 0 0 MaxUint64 MaxUint64 [] []));
    [exact ex_flat_hash_bytes|done|done|apply activeIndices_bound|done|by apply (bool_decide_unpack _)|done|done|done].
Defined.

(** The same state on a chain with epochs of six slots. *)
Definition six_slots : BeaconChainConfig := {|
  SlotsPerEpoch := 6; SecondsPerSlot := SecondsPerSlot; SlotDurationMilliseconds := SlotDurationMilliseconds;
  SlotTimeForkOneSlot := SlotTimeForkOneSlot; SlotTimeForkOneMillis := SlotTimeForkOneMillis;
  SlotTimeForkTwoSlot := SlotTimeForkTwoSlot; SlotTimeForkTwoMillis := SlotTimeForkTwoMillis;
  GenesisEpoch := GenesisEpoch; FarFutureEpoch := FarFutureEpoch;
  EpochsPerEth1VotingPeriod := EpochsPerEth1VotingPeriod; EpochsPerSyncCommitteePeriod := EpochsPerSyncCommitteePeriod;
  AltairForkEpoch := AltairForkEpoch; BellatrixForkEpoch := BellatrixForkEpoch; CapellaForkEpoch := CapellaForkEpoch;
  DenebForkEpoch := DenebForkEpoch; ElectraForkEpoch := ElectraForkEpoch; FuluForkEpoch := FuluForkEpoch;
  GloasForkEpoch := GloasForkEpoch; ProposerScoreBoost := ProposerScoreBoost;
  ReorgHeadWeightThreshold := ReorgHeadWeightThreshold; ReorgParentWeightThreshold := ReorgParentWeightThreshold;
  ReorgMaxEpochsSinceFinalization := ReorgMaxEpochsSinceFinalization;
  AttestationDueBPS := AttestationDueBPS; AggregateDueBPS := AggregateDueBPS; SyncMessageDueBPS := SyncMessageDueBPS;
  ContributionDueBPS := ContributionDueBPS; AttestationDueBPSGloas := AttestationDueBPSGloas;
  AggregateDueBPSGloas := AggregateDueBPSGloas; SyncMessageDueBPSGloas := SyncMessageDueBPSGloas;
  ContributionDueBPSGloas := ContributionDueBPSGloas; AttestationOffsetMs := AttestationOffsetMs;
  AggregationOffsetMs := AggregationOffsetMs; ShuffleRoundCount := ShuffleRoundCount
|}.

Definition ex_transparent (cfg : BeaconChainConfig) (e : Z) : Prop :=
  let pseed := match Seed ex_flat_hash ex_committee_state e DomainBeaconProposer with Ok sd => sd | _ => [] end in
  ∃ props, epoch_proposers ex_flat_hash 5 ex_committee_state e pseed props ∧
    ∃ p caches', BeaconProposerIndex (C := bounded) ex_flat_hash 5 false ex_committee_state newCaches = (Ok p, caches') ∧
      props !! Z.to_nat (slot ex_committee_state mod SlotsPerEpoch) = Some p ∧
      good ex_flat_hash ex_active ex_committee_state e props caches'.

Lemma BeaconProposerIndex_transparent_witness : ex_transparent mainnet_config 5 ∧ ex_transparent six_slots 28.
Proof.
  split.
  - destruct (BeaconProposerIndex_transparent (C := bounded) ex_flat_hash 5 ex_active ex_committee_state 5 0
      (mkValidator 32000000000 false 0 0 MaxUint64 MaxUint64 [] [])
      (match Seed ex_flat_hash ex_committee_state 5 DomainBeaconAttester with Ok sd => sd | _ => [] end)
      (match Seed ex_flat_hash ex_committee_state 5 DomainBeaconProposer with Ok sd => sd | _ => [] end))
      as (props & Hprops & _ & Hrun);
      [by constructor|apply ex_flat_hash_bytes|done|done|done|done|by constructor|by vm_compute|done|by apply (bool_decide_unpack _)|done|done|done
      |intros _; exists 77; by vm_compute|].
    exists props. split; [done|]. apply Hrun.
    split_and!; [apply newCaches_ok|done|]. intros r ids _ Hids. rewrite newCaches_proposers in Hids. discriminate Hids.
  - destruct (BeaconProposerIndex_transparent (cfg := six_slots) (C := bounded) ex_flat_hash 5 ex_active ex_committee_state 28 0
      (mkValidator 32000000000 false 0 0 MaxUint64 MaxUint64 [] [])
      (match Seed ex_flat_hash ex_committee_state 28 DomainBeaconAttester with Ok sd => sd | _ => [] end)
      (match Seed ex_flat_hash ex_committee_state 28 DomainBeaconProposer with Ok sd => sd | _ => [] end))
      as (props & Hprops & _ & Hrun);
      [by constructor|apply ex_flat_hash_bytes|done|done|done|done|by constructor|by vm_compute|done|by apply (bool_decide_unpack _)|done|done|done
      |intros _; exists 77; by vm_compute|].
    exists props. split; [done|]. apply Hrun.
    split_and!; [apply newCaches_ok|done|]. intros r ids _ Hids. rewrite newCaches_proposers in Hids. discriminate Hids.
Defined.

(** A state of epoch 411397, whose proposers are all validator 1, asked for a slot of epoch 411395. *)
Definition ex_fulu : BeaconState := ex_head version_Fulu 13164714 2048000000000 (replicate 32 1 ++ replicate 32 0).

Lemma fulu_past_proposer_is_current_witness :
  ∃ caches', BeaconProposerIndexAtSlot (C := bounded) ex_flat_hash 5 false ex_fulu 13164647 newCaches =
      (index_at (proposerLookahead ex_fulu) (13164647 mod SlotsPerEpoch), caches') ∧
    ProposerIndices (13164647 / SlotsPerEpoch) 77 (proposerIndicesCache caches') = Some (take 32 (proposerLookahead ex_fulu)) ∧
    BeaconProposerIndexAtSlot (C := bounded) ex_flat_hash 5 false ex_fulu
      (slot ex_fulu / SlotsPerEpoch * SlotsPerEpoch + 13164647 mod SlotsPerEpoch) newCaches =
      (index_at (proposerLookahead ex_fulu) (13164647 mod SlotsPerEpoch), newCaches).
Proof.
  apply (fulu_past_proposer_is_current ex_flat_hash 5 false ex_fulu 13164647 77 newCaches);
    by vm_compute.
Defined.

(** The search gives validator 0 for this slot. *)
Example ex_fulu_search :
  ComputeProposerIndex ex_flat_hash 5 ex_fulu (activeIndices ex_fulu 411395)
    (ex_flat_hash (match Seed ex_flat_hash ex_fulu 411395 DomainBeaconProposer with Ok sd => sd | _ => [] end ++ Bytes8 13164647)) = Ok 0.
Proof. by vm_compute. Qed.
