(* ===== verification/StateOperations.v ===== *)
(** * Credentials, public keys and the queues of a beacon state

    beacon-chain/state/state-native (readonly_validator.go, getters and setters of the
    registry, of withdrawals, deposits and consolidations), encoding/bytesutil.ToBytes48,
    core/transition/stateutils, and the withdrawal predicates of core/helpers/validators.go.
    A slice expression out of range panics.  The validator map is the state's own here;
    ValidatorMap.v models that copies of a state share it. *)
From S2P Require Import Prelude MathHelper Primitives Config SlotTime MVSlice EpochConfig MerkleTrie BeaconState.

(** ** Go slices *)
Definition slice_from {A} (l : list A) (n : Z) : gores (list A) :=
  if n >? len l then Panic else Ok (drop (Z.to_nat n) l).
Definition BLSPubkeyLength : nat := 48.
Definition ToBytes48 (x : list Z) : list Z := take 48 (PadTo x 48).

(** ** stateutils.ValidatorIndexMap and the lookup by public key *)
Definition ValidatorIndexMap (vs : list Validator) : gmap (list Z) Z :=
  foldl (λ m iv, <[ToBytes48 (PublicKey iv.2) := iv.1]> m) ∅ (enumerate vs).

Definition ValidatorIndexByPubkey (s : BeaconState) (key : list Z) : option Z :=
  match valIdxMap s !! key with
  | Some idx => if NumValidators s <=? idx then None else Some idx
  | None => None
  end.

(** ** Appending to the registry *)
Definition AppendValidator (val : Validator) : M BeaconState unit :=
  mmodify (λ s, set_validators (validators s ++ [val]) s);;
  s ← mget;
  let valIdx := u64 (NumValidators s - 1) in
  mmodify (set_valIdxMap (<[ToBytes48 (PublicKey val) := valIdx]> (valIdxMap s))).
Definition AppendBalance (bal : Z) : M BeaconState unit :=
  mmodify (λ s, set_balances (balances s ++ [bal]) s).
Definition AppendInactivityScore (x : Z) : M BeaconState unit :=
  s ← mget;
  if version s =? version_Phase0 then mfail errNotSupported
  else mmodify (set_inactivityScores (inactivityScores s ++ [x])).
Definition AppendCurrentParticipationBits (x : Z) : M BeaconState unit :=
  s ← mget;
  if version s =? version_Phase0 then mfail errNotSupported
  else mmodify (set_participation (currentEpochParticipation s ++ [x]) (previousEpochParticipation s)).
Definition AppendPreviousParticipationBits (x : Z) : M BeaconState unit :=
  s ← mget;
  if version s =? version_Phase0 then mfail errNotSupported
  else mmodify (set_participation (currentEpochParticipation s) (previousEpochParticipation s ++ [x])).

(** ** Queues: [fromVersion v] is the guard [if b.version < v { return errNotSupported }] *)
Definition fromVersion {A} (v : Z) (m : M BeaconState A) : M BeaconState A :=
  s ← mget;
  if version s <? v then mfail errNotSupported else m.
Definition readFrom {A} (v : Z) (s : BeaconState) (x : A) : gores A :=
  if version s <? v then Err errNotSupported else Ok x.

Definition NextWithdrawalValidatorIndex (s : BeaconState) : gores Z :=
  readFrom version_Capella s (nextWithdrawalValidatorIndex s).
Definition SetNextWithdrawalIndex (i : Z) : M BeaconState unit :=
  fromVersion version_Capella (mmodify (set_nextWithdrawalIndex i)).
Definition SetNextWithdrawalValidatorIndex (i : Z) : M BeaconState unit :=
  fromVersion version_Capella (mmodify (set_nextWithdrawalValidatorIndex i)).

Definition NumPendingPartialWithdrawals (s : BeaconState) : gores Z :=
  readFrom version_Electra s (len (pendingPartialWithdrawals s)).
Definition AppendPendingPartialWithdrawal (w : PendingPartialWithdrawal.t) : M BeaconState unit :=
  fromVersion version_Electra
    (mmodify (λ s, set_pendingPartialWithdrawals (pendingPartialWithdrawals s ++ [w]) s)).
Definition DequeuePendingPartialWithdrawals (n : Z) : M BeaconState unit :=
  fromVersion version_Electra (
    s ← mget;
    if n >? len (pendingPartialWithdrawals s) then mfail errMessage
    else if n =? 0 then mret tt
    else mmodify (set_pendingPartialWithdrawals (drop (Z.to_nat n) (pendingPartialWithdrawals s)))).

Definition PendingDeposits (s : BeaconState) : gores (list PendingDeposit.t) :=
  readFrom version_Electra s (pendingDeposits s).
Definition AppendPendingDeposit (pd : PendingDeposit.t) : M BeaconState unit :=
  fromVersion version_Electra (mmodify (λ s, set_pendingDeposits (pendingDeposits s ++ [pd]) s)).
Definition SetPendingDeposits (val : list PendingDeposit.t) : M BeaconState unit :=
  fromVersion version_Electra (mmodify (set_pendingDeposits val)).
Definition DepositBalanceToConsume (s : BeaconState) : gores Z :=
  readFrom version_Electra s (depositBalanceToConsume s).
Definition SetDepositBalanceToConsume (dbtc : Z) : M BeaconState unit :=
  fromVersion version_Electra (mmodify (set_depositBalanceToConsume dbtc)).
Definition DepositRequestsStartIndex (s : BeaconState) : gores Z :=
  readFrom version_Electra s (depositRequestsStartIndex s).
Definition SetDepositRequestsStartIndex (index : Z) : M BeaconState unit :=
  fromVersion version_Electra (mmodify (set_depositRequestsStartIndex index)).

Definition PendingConsolidations (s : BeaconState) : gores (list PendingConsolidation.t) :=
  readFrom version_Electra s (pendingConsolidations s).
Definition NumPendingConsolidations (s : BeaconState) : gores Z :=
  readFrom version_Electra s (len (pendingConsolidations s)).
Definition AppendPendingConsolidation (val : PendingConsolidation.t) : M BeaconState unit :=
  fromVersion version_Electra (mmodify (λ s, set_pendingConsolidations (pendingConsolidations s ++ [val]) s)).
Definition SetPendingConsolidations (val : list PendingConsolidation.t) : M BeaconState unit :=
  fromVersion version_Electra (mmodify (set_pendingConsolidations val)).

(** The amounts pending for a validator wrap when summed. *)
Definition PendingBalanceToWithdraw (s : BeaconState) (idx : Z) : gores Z :=
  readFrom version_Electra s
    (foldl (λ sum w, if PendingPartialWithdrawal.Index w =? idx then sum +64 PendingPartialWithdrawal.Amount w else sum)
       0 (pendingPartialWithdrawals s)).
Definition HasPendingBalanceToWithdraw (s : BeaconState) (idx : Z) : gores bool :=
  readFrom version_Electra s
    (existsb (λ w, (PendingPartialWithdrawal.Index w =? idx) && (PendingPartialWithdrawal.Amount w >? 0))
       (pendingPartialWithdrawals s)).

(** ** readonly_validator.go and the predicates of helpers/validators.go *)
Section credentials.
Context `{cfg : BeaconChainConfig} `{ecfg : EpochConfig} `{ocfg : OperationsConfig}.

Definition HasETH1WithdrawalCredentials (v : Validator) : gores bool :=
  b ← index_at (WithdrawalCredentials v) 0; Ok (b =? ETH1AddressWithdrawalPrefixByte).
Definition HasCompoundingWithdrawalCredentials (v : Validator) : gores bool :=
  b ← index_at (WithdrawalCredentials v) 0; Ok (b =? CompoundingWithdrawalPrefixByte).
Definition HasExecutionWithdrawalCredentials (v : Validator) : gores bool :=
  eth1 ← HasETH1WithdrawalCredentials v;
  if (eth1 : bool) then Ok true else HasCompoundingWithdrawalCredentials v.

Definition ValidatorMaxEffectiveBalance (v : Validator) : gores Z :=
  compounding ← HasCompoundingWithdrawalCredentials v;
  Ok (if (compounding : bool) then MaxEffectiveBalanceElectra else MinActivationBalance).

Definition IsFullyWithdrawableValidator (val : Validator) (balance epoch fork : Z) : gores bool :=
  if balance <=? 0 then Ok false
  else
    has ← (if fork >=? version_Electra then HasExecutionWithdrawalCredentials val
           else HasETH1WithdrawalCredentials val : gores bool);
    Ok (has && (WithdrawableEpoch val <=? epoch)).

Definition isPartiallyWithdrawableValidatorElectra (val : Validator) (balance : Z) : gores bool :=
  maxEB ← ValidatorMaxEffectiveBalance val;
  has ← HasExecutionWithdrawalCredentials val;
  Ok (has && (EffectiveBalance val =? maxEB) && (balance >? maxEB)).
Definition isPartiallyWithdrawableValidatorCapella (val : Validator) (balance : Z) : gores bool :=
  has ← HasETH1WithdrawalCredentials val;
  Ok (has && (balance >? MaxEffectiveBalance) && (EffectiveBalance val =? MaxEffectiveBalance)).
Definition IsPartiallyWithdrawableValidator (val : Validator) (balance fork : Z) : gores bool :=
  if fork <? version_Electra then isPartiallyWithdrawableValidatorCapella val balance
  else isPartiallyWithdrawableValidatorElectra val balance.
End credentials.
