(* ===== verification/Withdrawals.v ===== *)
(** * Withdrawals

    state-native/getters_withdrawal.go ([ExpectedWithdrawals] and its two passes) and
    core/blocks/withdrawals.go ([ProcessWithdrawals], the change of BLS credentials).
    [HashTreeRoot] of a withdrawal is generated code and SHA-256 is third party; both are
    parameters.  The pending partial withdrawals and the withdrawals of a payload are never
    nil. *)
From S2P Require Import Prelude MathHelper Primitives Config SlotTime MVSlice EpochConfig MerkleTrie SszMerkleize BeaconState StateOperations.

Module Withdrawal.
Record t := mk { Index : Z; ValidatorIndex : Z; Address : list Z; Amount : Z }.
End Withdrawal.

Definition ETH1AddressOffset : Z := 12.

(** What the withdrawals so far take from a validator; the sum wraps. *)
Definition withdrawnFrom (idx : Z) (ws : list Withdrawal.t) : Z :=
  foldl (λ total w, if Withdrawal.ValidatorIndex w =? idx then total +64 Withdrawal.Amount w else total) 0 ws.

Section withdrawals.
Context `{cfg : BeaconChainConfig} `{ecfg : EpochConfig} `{ocfg : OperationsConfig}.

(** ** Pending partial withdrawals *)
Fixpoint partialLoop (s : BeaconState) (epoch : Z) (queue : list PendingPartialWithdrawal.t)
    (withdrawalIndex : Z) (ws : list Withdrawal.t) (processed : Z) : gores (Z * list Withdrawal.t * Z) :=
  match queue with
  | [] => Ok (withdrawalIndex, ws, processed)
  | w :: queue' =>
      let idx := PendingPartialWithdrawal.Index w in
      if (PendingPartialWithdrawal.WithdrawableEpoch w >? epoch)
         || (len ws >=? i64 MaxPendingPartialsPerWithdrawalsSweep) then Ok (withdrawalIndex, ws, processed)
      else
        v ← ValidatorAtIndex s idx;
        vBal ← BalanceAtIndex s idx;
        let hasSufficientEffectiveBalance := EffectiveBalance v >=? MinActivationBalance in
        balance ← Sub64 vBal (withdrawnFrom idx ws);
        let hasExcessBalance := balance >? MinActivationBalance in
        if (ExitEpoch v =? FarFutureEpoch) && hasSufficientEffectiveBalance && hasExcessBalance then
          let amount := Z.min (balance -64 MinActivationBalance) (PendingPartialWithdrawal.Amount w) in
          address ← slice_from (WithdrawalCredentials v) ETH1AddressOffset;
          partialLoop s epoch queue' (withdrawalIndex +64 1)
            (ws ++ [Withdrawal.mk withdrawalIndex idx address amount]) (processed +64 1)
        else partialLoop s epoch queue' withdrawalIndex ws (processed +64 1)
  end.

Definition appendPendingPartialWithdrawals (s : BeaconState) (withdrawalIndex : Z) (ws : list Withdrawal.t)
    : gores (Z * list Withdrawal.t * Z) :=
  if version s <? version_Electra then Ok (withdrawalIndex, ws, 0)
  else
    epoch ← ToEpoch (slot s);
    partialLoop s epoch (pendingPartialWithdrawals s) withdrawalIndex ws 0.

(** ** The sweep over the registry *)

(** What the validator at the sweep's position can withdraw now, if anything. *)
Definition sweepAmount (s : BeaconState) (epoch : Z) (val : Validator) (balance : Z) : gores (option Z) :=
  full ← IsFullyWithdrawableValidator val balance epoch (version s);
  if (full : bool) then Ok (Some balance)
  else
    part ← IsPartiallyWithdrawableValidator val balance (version s);
    if (part : bool) then
      maxEB ← ValidatorMaxEffectiveBalance val; Ok (Some (balance -64 maxEB))
    else Ok None.

Fixpoint sweepLoop (s : BeaconState) (epoch validatorsLen : Z) (bound : nat)
    (validatorIndex withdrawalIndex : Z) (ws : list Withdrawal.t) : gores (list Withdrawal.t) :=
  match bound with
  | O => Ok ws
  | S bound' =>
      val ← ValidatorAtIndex s validatorIndex;
      balance ← BalanceAtIndex s validatorIndex;
      balance ← (if version s >=? version_Electra then Sub64 balance (withdrawnFrom validatorIndex ws)
                 else Ok balance : gores Z);
      amount ← sweepAmount s epoch val balance;
      '(withdrawalIndex, ws) ←
        (match amount with
         | Some amount =>
             address ← slice_from (WithdrawalCredentials val) ETH1AddressOffset;
             Ok (withdrawalIndex +64 1, ws ++ [Withdrawal.mk withdrawalIndex validatorIndex address amount])
         | None => Ok (withdrawalIndex, ws)
         end : gores (Z * list Withdrawal.t));
      if len ws =? MaxWithdrawalsPerPayload then Ok ws
      else
        let validatorIndex := validatorIndex +64 1 in
        let validatorIndex := if validatorIndex =? validatorsLen then 0 else validatorIndex in
        sweepLoop s epoch validatorsLen bound' validatorIndex withdrawalIndex ws
  end.

Definition appendValidatorsSweepWithdrawals (s : BeaconState) (withdrawalIndex : Z) (ws : list Withdrawal.t)
    : gores (list Withdrawal.t) :=
  let validatorsLen := NumValidators s in
  epoch ← ToEpoch (slot s);
  let bound := Z.min validatorsLen MaxValidatorsPerWithdrawalsSweep in
  sweepLoop s epoch validatorsLen (Z.to_nat bound) (nextWithdrawalValidatorIndex s) withdrawalIndex ws.

Definition ExpectedWithdrawals (s : BeaconState) : gores (list Withdrawal.t * Z) :=
  if version s <? version_Capella then Err errNotSupported
  else
    '(withdrawalIndex, ws, processed) ← appendPendingPartialWithdrawals s (nextWithdrawalIndex s) [];
    ws ← appendValidatorsSweepWithdrawals s withdrawalIndex ws;
    Ok (ws, processed).

(** ** ProcessWithdrawals *)
Inductive ExecutionData :=
  | Blinded (withdrawalsRoot : list Z)
  | Full (withdrawals : list Withdrawal.t).

(** fieldparams.MaxWithdrawalsPerPayload *)
Definition fieldMaxWithdrawalsPerPayload : Z := 16.

Section process.
Context (hash : list Z → list Z) (GOMAXPROCS : nat) (HashTreeRoot : Withdrawal.t → gores (list Z)).

Definition WithdrawalSliceRoot (ws : list Withdrawal.t) (limit : Z) : gores (list Z) :=
  SliceRoot hash GOMAXPROCS HashTreeRoot ws limit.

Definition checkPayload (data : ExecutionData) (expected : list Withdrawal.t) : gores unit :=
  wdRoot ← (match data with
            | Blinded r => Ok (ToBytes32 r)
            | Full wds =>
                if negb (len wds =? len expected) then Err errMessage
                else WithdrawalSliceRoot wds fieldMaxWithdrawalsPerPayload
            end : gores (list Z));
  expectedRoot ← WithdrawalSliceRoot expected fieldMaxWithdrawalsPerPayload;
  if bool_decide (expectedRoot = wdRoot) then Ok tt else Err errMessage.

(** The validator the next sweep starts from. *)
Definition nextSweepStart (s : BeaconState) (expected : list Withdrawal.t) : gores Z :=
  if len expected <? MaxWithdrawalsPerPayload then
    next ← NextWithdrawalValidatorIndex s;
    rem (next +64 MaxValidatorsPerWithdrawalsSweep) (NumValidators s)
  else
    w ← index_at expected (len expected - 1);
    let next := Withdrawal.ValidatorIndex w +64 1 in
    Ok (if next =? NumValidators s then 0 else next).

(** The state changes once the payload has been checked. *)
Definition applyWithdrawals (expected : list Withdrawal.t) (processed : Z) : M BeaconState unit :=
  mfor expected (λ w, DecreaseBalance (Withdrawal.ValidatorIndex w) (Withdrawal.Amount w));;
  s ← mget;
  (if version s >=? version_Electra then DequeuePendingPartialWithdrawals processed else mret tt);;
  (if len expected >? 0 then
     w ← mlift (index_at expected (len expected - 1));
     SetNextWithdrawalIndex (Withdrawal.Index w +64 1)
   else mret tt);;
  s ← mget;
  next ← mlift (nextSweepStart s expected);
  SetNextWithdrawalValidatorIndex next.

Definition ProcessWithdrawals (executionData : ExecutionData) : M BeaconState unit :=
  s ← mget;
  '(expected, processed) ← mlift (ExpectedWithdrawals s);
  mlift (checkPayload executionData expected);;
  applyWithdrawals expected processed.

(** ** BLS to execution changes *)
Record BLSToExecutionChange := mkBLSChange {
  ValidatorIndex : Z; FromBlsPubkey : list Z; ToExecutionAddress : list Z }.

(** [signed] or its message can be nil. *)
Definition ValidateBLSToExecutionChange (s : BeaconState) (signed : option (option BLSToExecutionChange))
    : gores Validator :=
  match signed with
  | Some (Some message) =>
      val ← ValidatorAtIndex s (ValidatorIndex message);
      let cred := WithdrawalCredentials val in
      if len cred <? 2 then Err errMessage
      else
        c0 ← index_at cred 0;
        if negb (c0 =? BLSWithdrawalPrefixByte) then Err errMessage
        else if negb (bool_decide (drop 1 (hash (FromBlsPubkey message)) = drop 1 cred)) then Err errMessage
        else Ok val
  | _ => Err errMessage
  end.

Definition executionCredentials (address : list Z) : list Z :=
  ETH1AddressWithdrawalPrefixByte :: replicate 11 0 ++ address.

Definition processBLSToExecutionChange (signed : option (option BLSToExecutionChange)) : M BeaconState unit :=
  s ← mget;
  val ← mlift (ValidateBLSToExecutionChange s signed);
  match signed with
  | Some (Some message) =>
      UpdateValidatorAtIndex (ValidatorIndex message)
        (set_withdrawalCredentials (executionCredentials (ToExecutionAddress message)) val)
  | _ => mpanic
  end.

(** [version_] is the version of the block. *)
Definition ProcessBLSToExecutionChanges (version_ : Z) (changes : list (option (option BLSToExecutionChange)))
    : M BeaconState unit :=
  if version_ <? version_Capella then mret tt
  else mfor changes processBLSToExecutionChange.
End process.
End withdrawals.
