(* ===== verification/Deposits.v ===== *)
(** * Deposits

    core/helpers/deposit.go, core/electra/deposits.go and core/requests/deposits.go.  BLS and
    SSZ are outside the model: [verifyDepositSignature] and [verifyMultiple] stand for
    contracts/deposit and the batch verification of crypto/bls (a deposit with a key that
    does not parse fails both), [dataRoot] for the generated [HashTreeRoot].  The signing
    domain of deposits is a constant of the configuration and its computation does not
    fail. *)
From S2P Require Import Prelude MathHelper Primitives Config SlotTime MVSlice EpochConfig MerkleTrie BeaconState StateOperations.

Module DepositData.
Record t := mk { PublicKey : list Z; WithdrawalCredentials : list Z; Amount : Z; Signature : list Z }.
End DepositData.
(** A deposit of a block: its proof and its data, which can be nil. *)
Record Deposit := mkDeposit { Proof_ : list (list Z); Data : option DepositData.t }.
Record DepositRequest := mkDepositRequest { req_Data : DepositData.t; req_Index : Z }.

Class DepositSignatures := {
  verifyDepositSignature : DepositData.t → bool;
  verifyMultiple : list DepositData.t → bool
}.
(** What the batch promises: it accepts only if every signature is valid. *)
Class DepositSignatureLaws (sigs : DepositSignatures) : Prop :=
  multiple_each ds : verifyMultiple ds = true → Forall (λ d, verifyDepositSignature d = true) ds.

Section deposits.
Context `{cfg : BeaconChainConfig} `{ecfg : EpochConfig} `{ocfg : OperationsConfig} `{sigs : DepositSignatures}.

(** ** helpers/deposit.go *)
Definition IsValidDepositSignature (data : DepositData.t) : bool := verifyDepositSignature data.

Definition pendingData (pd : PendingDeposit.t) : DepositData.t :=
  DepositData.mk (PendingDeposit.PublicKey pd) (PendingDeposit.WithdrawalCredentials pd)
    (PendingDeposit.Amount pd) (PendingDeposit.Signature pd).

Definition BatchVerifyPendingDepositsSignatures (deposits : list PendingDeposit.t) : bool :=
  if (length deposits =? 0)%nat then true else verifyMultiple (pendingData <$> deposits).

(** A nil deposit fails the batch. *)
Fixpoint allData (deposits : list (option Deposit)) : option (list DepositData.t) :=
  match deposits with
  | [] => Some []
  | Some (mkDeposit _ (Some data)) :: deposits' => (λ l, data :: l) <$> allData deposits'
  | _ => None
  end.
Definition BatchVerifyDepositsSignatures (deposits : list (option Deposit)) : bool :=
  match allData deposits with
  | Some [] => true
  | Some datas => verifyMultiple datas
  | None => false
  end.

Section verify.
Context (hash : list Z → list Z) (dataRoot : DepositData.t → gores (list Z)).

Definition VerifyDeposit (s : BeaconState) (deposit : option Deposit) : gores unit :=
  match deposit with
  | Some (mkDeposit proof (Some data)) =>
      leaf ← dataRoot data;
      ok ← VerifyMerkleProofWithDepth hash (DepositRoot (eth1Data s)) leaf (eth1DepositIndex s) proof DepositContractTreeDepth;
      if (ok : bool) then Ok tt else Err errMessage
  | _ => Err errMessage
  end.
End verify.

(** ** electra/deposits.go *)
Definition GetValidatorFromDeposit (pubKey withdrawalCredentials : list Z) (amount : Z) : gores Validator :=
  let validator := mkValidator 0 false FarFutureEpoch FarFutureEpoch FarFutureEpoch FarFutureEpoch
                     pubKey withdrawalCredentials in
  maxEffectiveBalance ← ValidatorMaxEffectiveBalance validator;
  r ← rem amount EffectiveBalanceIncrement;
  Ok (set_effectiveBalance (Z.min (amount -64 r) maxEffectiveBalance) validator).

Definition AddValidatorToRegistry (pubKey withdrawalCredentials : list Z) (amount : Z) : M BeaconState unit :=
  val ← mlift (GetValidatorFromDeposit pubKey withdrawalCredentials amount);
  AppendValidator val;;
  AppendBalance amount;;
  s ← mget;
  if version s >=? version_Altair then
    AppendInactivityScore 0;;
    AppendPreviousParticipationBits 0;;
    AppendCurrentParticipationBits 0
  else mret tt.

Definition ApplyDeposit (data : DepositData.t) (allSignaturesVerified : bool) : M BeaconState unit :=
  s ← mget;
  let found := ValidatorIndexByPubkey s (ToBytes48 (DepositData.PublicKey data)) in
  if bool_decide (found = None) && negb allSignaturesVerified && negb (IsValidDepositSignature data) then mret tt
  else
    (if bool_decide (found = None)
     then AddValidatorToRegistry (DepositData.PublicKey data) (DepositData.WithdrawalCredentials data) 0
     else mret tt);;
    AppendPendingDeposit
      (PendingDeposit.mk (DepositData.PublicKey data) (DepositData.WithdrawalCredentials data)
         (DepositData.Amount data) (DepositData.Signature data) GenesisSlot).

Definition SetEth1DepositIndex (val : Z) : M BeaconState unit := mmodify (set_eth1DepositIndex val).

Section blocks.
Context (hash : list Z → list Z) (dataRoot : DepositData.t → gores (list Z)).

Definition ProcessDeposit (deposit : option Deposit) (allSignaturesVerified : bool) : M BeaconState unit :=
  s ← mget;
  mlift (VerifyDeposit hash dataRoot s deposit);;
  SetEth1DepositIndex (eth1DepositIndex s +64 1);;
  match deposit with
  | Some (mkDeposit _ (Some data)) => ApplyDeposit data allSignaturesVerified
  | _ => mpanic
  end.

Definition ProcessDeposits (deposits : list (option Deposit)) : M BeaconState unit :=
  let allSignaturesVerified := BatchVerifyDepositsSignatures deposits in
  mfor deposits (λ d,
    match d with
    | Some (mkDeposit _ (Some _)) => ProcessDeposit d allSignaturesVerified
    | _ => mfail errMessage
    end).

(** electra/transition.go *)
Definition VerifyBlockDepositLength (blockDeposits : Z) (s : BeaconState) : gores unit :=
  requestsStartIndex ← DepositRequestsStartIndex s;
  let eth1DepositIndexLimit := Z.min (DepositCount (eth1Data s)) requestsStartIndex in
  if eth1DepositIndex s <? eth1DepositIndexLimit then
    if negb (blockDeposits =? Z.min MaxDeposits (eth1DepositIndexLimit -64 eth1DepositIndex s))
    then Err errMessage else Ok tt
  else if negb (blockDeposits =? 0) then Err errMessage else Ok tt.
End blocks.

(** ** Pending deposits *)
Fixpoint batchLoop (allSignaturesVerified : bool) (pds : list PendingDeposit.t) : M BeaconState unit :=
  match pds with
  | [] => mret tt
  | pd :: pds' =>
      let validSig := if allSignaturesVerified then true else IsValidDepositSignature (pendingData pd) in
      state ← mget;
      (match ValidatorIndexByPubkey state (ToBytes48 (PendingDeposit.PublicKey pd)) with
       | Some index => IncreaseBalance index (PendingDeposit.Amount pd)
       | None =>
           if validSig
           then AddValidatorToRegistry (PendingDeposit.PublicKey pd) (PendingDeposit.WithdrawalCredentials pd)
                  (PendingDeposit.Amount pd)
           else mret tt
       end);;
      batchLoop allSignaturesVerified pds'
  end.
Definition batchProcessNewPendingDeposits (pds : list PendingDeposit.t) : M BeaconState unit :=
  if (length pds =? 0)%nat then mret tt
  else batchLoop (BatchVerifyPendingDepositsSignatures pds) pds.

Definition ApplyPendingDeposit (deposit : PendingDeposit.t) : M BeaconState unit :=
  s ← mget;
  match ValidatorIndexByPubkey s (ToBytes48 (PendingDeposit.PublicKey deposit)) with
  | None =>
      if IsValidDepositSignature (pendingData deposit)
      then AddValidatorToRegistry (PendingDeposit.PublicKey deposit) (PendingDeposit.WithdrawalCredentials deposit)
             (PendingDeposit.Amount deposit)
      else mret tt
  | Some index => IncreaseBalance index (PendingDeposit.Amount deposit)
  end.

(** The variables of the loop over the queue. *)
Record DepositLoop := mkDepositLoop {
  processedAmount : Z;
  nextDepositIndex : Z;
  isChurnLimitReached : bool;
  toBatchVerify : list PendingDeposit.t;
  toPostpone : list PendingDeposit.t
}.

Fixpoint depositLoop (nextEpoch availableForProcessing finalizedSlot startIndex : Z)
    (queue : list PendingDeposit.t) (l : DepositLoop) : M BeaconState DepositLoop :=
  match queue with
  | [] => mret l
  | pd :: queue' =>
      let amount := PendingDeposit.Amount pd in
      st ← mget;
      if (PendingDeposit.Slot pd >? GenesisSlot) && (eth1DepositIndex st <? startIndex) then mret l
      else if PendingDeposit.Slot pd >? finalizedSlot then mret l
      else if nextDepositIndex l >=? MaxPendingDepositsPerEpoch then mret l
      else
        let found := ValidatorIndexByPubkey st (ToBytes48 (PendingDeposit.PublicKey pd)) in
        '(isValidatorExited, isValidatorWithdrawn) ←
          mlift (match found with
                 | Some index =>
                     val ← ValidatorAtIndex st index;
                     Ok (ExitEpoch val <? FarFutureEpoch, WithdrawableEpoch val <? nextEpoch)
                 | None => Ok (false, false)
                 end : gores (bool * bool));
        if (isValidatorWithdrawn : bool) then
          IncreaseBalance (default 0 found) amount;;
          depositLoop nextEpoch availableForProcessing finalizedSlot startIndex queue'
            (mkDepositLoop (processedAmount l) (nextDepositIndex l +64 1) (isChurnLimitReached l)
               (toBatchVerify l) (toPostpone l))
        else if (isValidatorExited : bool) then
          depositLoop nextEpoch availableForProcessing finalizedSlot startIndex queue'
            (mkDepositLoop (processedAmount l) (nextDepositIndex l +64 1) (isChurnLimitReached l)
               (toBatchVerify l) (toPostpone l ++ [pd]))
        else if (processedAmount l +64 amount) >? availableForProcessing then
          mret (mkDepositLoop (processedAmount l) (nextDepositIndex l) true (toBatchVerify l) (toPostpone l))
        else
          batch ← (match found with
                   | Some index => IncreaseBalance index amount;; mret (toBatchVerify l)
                   | None => mret (toBatchVerify l ++ [pd])
                   end : M BeaconState (list PendingDeposit.t));
          depositLoop nextEpoch availableForProcessing finalizedSlot startIndex queue'
            (mkDepositLoop (processedAmount l +64 amount) (nextDepositIndex l +64 1) false batch (toPostpone l))
  end.

Definition ProcessPendingDeposits (activeBalance : Z) : M BeaconState unit :=
  st ← mget;
  currentEpoch ← mlift (ToEpoch (slot st));
  let nextEpoch := currentEpoch +64 1 in
  depBalToConsume ← mlift (DepositBalanceToConsume st);
  churnLimit ← mlift (ActivationExitChurnLimit activeBalance);
  let availableForProcessing := depBalToConsume +64 churnLimit in
  finalizedSlot ← mlift (EpochStart (Epoch_ (finalizedCheckpoint st)));
  startIndex ← mlift (DepositRequestsStartIndex st);
  queue ← mlift (PendingDeposits st);
  l ← depositLoop nextEpoch availableForProcessing finalizedSlot startIndex queue (mkDepositLoop 0 0 false [] []);
  batchProcessNewPendingDeposits (toBatchVerify l);;
  rest ← mlift (slice_from queue (nextDepositIndex l));
  SetPendingDeposits (rest ++ toPostpone l);;
  if isChurnLimitReached l then SetDepositBalanceToConsume (availableForProcessing -64 processedAmount l)
  else SetDepositBalanceToConsume 0.

(** ** requests/deposits.go: a nil request is [None] *)
Definition processDepositRequest (req : option DepositRequest) : M BeaconState unit :=
  s ← mget;
  requestsStartIndex ← mlift (DepositRequestsStartIndex s);
  match req with
  | None => mfail errMessage
  | Some (mkDepositRequest data index) =>
      (if requestsStartIndex =? UnsetDepositRequestsStartIndex then SetDepositRequestsStartIndex index else mret tt);;
      AppendPendingDeposit
        (PendingDeposit.mk (DepositData.PublicKey data) (DepositData.WithdrawalCredentials data)
           (DepositData.Amount data) (DepositData.Signature data) (slot s))
  end.
Definition ProcessDepositRequests (reqs : list (option DepositRequest)) : M BeaconState unit :=
  mfor reqs processDepositRequest.
End deposits.
