(* ===== verification/DepositTheorems.v ===== *)
(** * Pending deposits: the batch is the specification's sequence

    [ProcessPendingDeposits] collects the deposits with new public keys and applies them
    after the loop, with one batch verification of their signatures.  The consensus
    specification, quoted above the function, applies every deposit in order with
    [apply_pending_deposit], which the repository also implements and does not use.  Both
    leave the same state. *)
From S2P Require Import Prelude MathHelper Primitives Config SlotTime MVSlice MerkleTrie EpochConfig BeaconState StateOperations Withdrawals WithdrawalTheorems Deposits.

(** ** What one pending deposit does

    The registry with its map from public keys, the state after a deposit has been applied,
    and that crediting a validator of the registry commutes with applying other deposits. *)
(** Every key of the map is the key of the validator it points to. *)
Definition keys_ok (s : BeaconState) : Prop := ∀ k i, valIdxMap s !! k = Some i →
  0 ≤ i ∧ ∃ v, validators s !! Z.to_nat i = Some v ∧ ToBytes48 (PublicKey v) = k.

Record deposit_state (s : BeaconState) : Prop := {
  ds_version : version_Electra ≤ version s;
  ds_lengths : length (balances s) = length (validators s);
  ds_room : len (validators s) < two63;
  ds_balances : Forall (λ b, 0 ≤ b) (balances s);
  ds_keys : keys_ok s
}.

(** A well-formed deposit: a [uint64] and 32 bytes of credentials. *)
Definition deposit_ok (pd : PendingDeposit.t) : Prop :=
  is_u64 (PendingDeposit.Amount pd) ∧ len (PendingDeposit.WithdrawalCredentials pd) = 32.

Definition amounts (pds : list PendingDeposit.t) : Z := sumBy PendingDeposit.Amount pds.
Lemma amounts_cons pd pds : amounts (pd :: pds) = PendingDeposit.Amount pd + amounts pds.
Proof. done. Qed.
Lemma amounts_app pds pds' : amounts (pds ++ pds') = amounts pds + amounts pds'.
Proof. apply sumBy_app. Qed.
Lemma amounts_nonneg pds : Forall deposit_ok pds → 0 ≤ amounts pds.
Proof. intros Hp. apply sumBy_nonneg. eapply Forall_impl; [done|]. intros pd [H _]. unfold is_u64 in H. lia. Qed.

Lemma ValidatorIndexByPubkey_map s k : keys_ok s → ValidatorIndexByPubkey s k = valIdxMap s !! k.
Proof.
  intros Hk. unfold ValidatorIndexByPubkey, NumValidators. destruct (valIdxMap s !! k) as [i|] eqn:Hi; [|done].
  destruct (Hk k i Hi) as (Hi0 & v & Hv & _). apply lookup_lt_Some in Hv. unfold len.
  destruct (Z.leb_spec (Z.of_nat (length (validators s))) i); [lia|done].
Qed.

Section facts.
Context `{cfg : BeaconChainConfig} `{ecfg : EpochConfig} `{ocfg : OperationsConfig} `{sigs : DepositSignatures}.
Implicit Types s : BeaconState.

Class DepositConfig : Prop := {
  dc_increment : 0 < EffectiveBalanceIncrement;
  dc_slots : 0 < SlotsPerEpoch
}.
Context {dc : DepositConfig}.

Definition keyOf (pd : PendingDeposit.t) : list Z := ToBytes48 (PendingDeposit.PublicKey pd).

(** ** The state after a deposit *)
Definition creditState (i a : Z) s : BeaconState :=
  set_balances (<[Z.to_nat i := ent (balances s) i + a]> (balances s)) s.
Definition newValidator (pd : PendingDeposit.t) (amount : Z) : Validator :=
  match GetValidatorFromDeposit (PendingDeposit.PublicKey pd) (PendingDeposit.WithdrawalCredentials pd) amount with
  | Ok v => v
  | _ => mkValidator 0 false 0 0 0 0 [] []
  end.
Definition addState (pd : PendingDeposit.t) (amount : Z) s : BeaconState :=
  set_participation (currentEpochParticipation s ++ [0]) (previousEpochParticipation s ++ [0])
    (set_inactivityScores (inactivityScores s ++ [0])
       (set_balances (balances s ++ [amount])
          (set_valIdxMap (<[keyOf pd := len (validators s)]> (valIdxMap s))
             (set_validators (validators s ++ [newValidator pd amount]) s)))).
Definition applyState s (pd : PendingDeposit.t) : BeaconState :=
  match valIdxMap s !! keyOf pd with
  | Some i => creditState i (PendingDeposit.Amount pd) s
  | None => if verifyDepositSignature (pendingData pd) then addState pd (PendingDeposit.Amount pd) s else s
  end.
Definition applyAll s (pds : list PendingDeposit.t) : BeaconState := foldl applyState s pds.

Lemma GetValidatorFromDeposit_Ok pd amount : 0 < len (PendingDeposit.WithdrawalCredentials pd) →
  GetValidatorFromDeposit (PendingDeposit.PublicKey pd) (PendingDeposit.WithdrawalCredentials pd) amount = Ok (newValidator pd amount) ∧
  ExitEpoch (newValidator pd amount) = FarFutureEpoch ∧ WithdrawableEpoch (newValidator pd amount) = FarFutureEpoch ∧
  PublicKey (newValidator pd amount) = PendingDeposit.PublicKey pd ∧
  WithdrawalCredentials (newValidator pd amount) = PendingDeposit.WithdrawalCredentials pd.
Proof.
  unfold len. intros Hc. pose proof dc_increment. unfold newValidator, GetValidatorFromDeposit, ValidatorMaxEffectiveBalance,
    HasCompoundingWithdrawalCredentials, index_at. cbn [WithdrawalCredentials].
  destruct (PendingDeposit.WithdrawalCredentials pd) as [|b c]; [simpl in Hc; lia|].
  cbn [lookup list_lookup Z.to_nat mbind gores_bind]. by rewrite rem_pos.
Qed.

Lemma AppendValidator_Ok s v : len (validators s) < two63 →
  AppendValidator v s = (Ok tt, set_valIdxMap (<[ToBytes48 (PublicKey v) := len (validators s)]> (valIdxMap s))
                                  (set_validators (validators s ++ [v]) s)).
Proof.
  intros Hroom. assert (u64 (NumValidators (set_validators (validators s ++ [v]) s) - 1) = len (validators s)) as Hidx.
  { unfold NumValidators. cbn. unfold len in *. rewrite length_app, u64_small; simpl; [lia|]. unfold is_u64. lia. }
  unfold AppendValidator, mbind, M_bind, mmodify, mget. by rewrite Hidx.
Qed.

Lemma AddValidator_Ok s pd amount : deposit_state s → 0 < len (PendingDeposit.WithdrawalCredentials pd) →
  AddValidatorToRegistry (PendingDeposit.PublicKey pd) (PendingDeposit.WithdrawalCredentials pd) amount s = (Ok tt, addState pd amount s).
Proof.
  intros Hs Hc. destruct (GetValidatorFromDeposit_Ok pd amount Hc) as (Hv & _ & _ & Hpk & _).
  pose proof (ds_version s Hs) as Hver. unfold version_Electra in Hver.
  unfold AddValidatorToRegistry. rewrite (M_bind_Ok _ _ _ (newValidator pd amount) s) by (unfold mlift; by rewrite Hv).
  rewrite (M_bind_Ok _ _ _ _ _ (AppendValidator_Ok s _ (ds_room s Hs))), Hpk. fold (keyOf pd). set (s1 := set_valIdxMap _ _).
  rewrite (M_bind_Ok _ _ _ tt (set_balances (balances s ++ [amount]) s1)) by done.
  assert (∀ s', version s' = version s → (version s' =? version_Phase0) = false ∧ (version s' >=? version_Altair) = true) as Hv'.
  { intros s' ->. unfold version_Phase0, version_Altair. split; [apply Z.eqb_neq; lia|]. rewrite Z.geb_leb. apply Z.leb_le. lia. }
  unfold AppendInactivityScore, AppendPreviousParticipationBits, AppendCurrentParticipationBits, mbind, M_bind, mmodify, mget.
  repeat (cbv beta iota; match goal with
    | |- context [version ?x >=? version_Altair] => rewrite (proj2 (Hv' x eq_refl))
    | |- context [version ?x =? version_Phase0] => rewrite (proj1 (Hv' x eq_refl))
    end). done.
Qed.

Lemma IncreaseBalance_Ok s i a : deposit_state s → 0 ≤ i < len (validators s) → is_u64 a →
  sumZ (balances s) + a < two64 → IncreaseBalance i a s = (Ok tt, creditState i a s).
Proof.
  intros Hs Hi Ha Hroom. unfold len in *.
  destruct (lookup_lt_is_Some_2 (balances s) (Z.to_nat i)) as [b Hb]; [rewrite (ds_lengths s Hs); lia|].
  pose proof (sumZ_lookup_le _ _ _ (ds_balances s Hs) Hb). pose proof (Forall_lookup_1 _ _ _ _ (ds_balances s Hs) Hb) as Hb0.
  cbv beta in Hb0. unfold is_u64 in Ha. unfold IncreaseBalance, BalanceAtIndex, IncreaseBalanceWithVal, UpdateBalancesAtIndex.
  unfold mbind, M_bind, mget, mlift. rewrite (list_at_Ok _ _ b) by (done || lia). rewrite Add64_cases by (unfold is_u64; lia).
  destruct (Z.ltb_spec (b + a) two64); [|lia]. rewrite Z.geb_leb. unfold len. rewrite (ds_lengths s Hs).
  destruct (Z.leb_spec (Z.of_nat (length (validators s))) i); [lia|]. unfold creditState. by rewrite (ent_lookup _ _ b) by (done || lia).
Qed.

(** ** Applying a deposit keeps the registry *)
Lemma creditState_ok s i a : deposit_state s → 0 ≤ i < len (validators s) → 0 ≤ a →
  deposit_state (creditState i a s) ∧ sumZ (balances (creditState i a s)) = sumZ (balances s) + a.
Proof.
  unfold len. intros Hs Hi Ha.
  destruct (lookup_lt_is_Some_2 (balances s) (Z.to_nat i)) as [b Hb]; [rewrite (ds_lengths s Hs); lia|].
  pose proof (Forall_lookup_1 _ _ _ _ (ds_balances s Hs) Hb) as Hb0. cbv beta in Hb0. unfold creditState.
  rewrite (ent_lookup _ _ b) by (done || lia). cbn [balances set_balances]. split; [|rewrite (sumZ_insert _ _ b) by done; lia].
  split; cbn; [apply Hs|rewrite length_insert; apply Hs|apply Hs| |apply Hs].
  apply Forall_insert; [apply Hs|]. lia.
Qed.

Lemma addState_ok s pd amount : deposit_state s → deposit_ok pd → 0 ≤ amount → len (validators s) + 1 < two63 →
  deposit_state (addState pd amount s) ∧ sumZ (balances (addState pd amount s)) = sumZ (balances s) + amount.
Proof.
  intros Hs [_ Hc] Ha Hroom. destruct (GetValidatorFromDeposit_Ok pd amount ltac:(lia)) as (_ & _ & _ & Hpk & _).
  split; [|cbn; by rewrite sumZ_app; cbn; rewrite Z.add_0_r].
  split; cbn.
  - apply Hs.
  - rewrite !length_app, (ds_lengths s Hs). done.
  - unfold len in *. rewrite length_app. simpl. lia.
  - apply Forall_app. split; [apply Hs|by constructor].
  - intros k i Hi. cbn in Hi. change (validators (addState pd amount s)) with (validators s ++ [newValidator pd amount]).
    destruct (decide (k = keyOf pd)) as [->|Hne].
    + rewrite lookup_insert_eq in Hi. simplify_eq. unfold len. split; [lia|]. exists (newValidator pd amount).
      rewrite Nat2Z.id, lookup_app_r, Nat.sub_diag by lia. split; [done|]. by rewrite Hpk.
    + rewrite lookup_insert_ne in Hi by done. destruct (ds_keys s Hs k i Hi) as (? & v & Hv & ?). split; [done|].
      exists v. split; [|done]. by apply lookup_app_l_Some.
Qed.

Lemma key_index s pd i : deposit_state s → valIdxMap s !! keyOf pd = Some i → 0 ≤ i < len (validators s).
Proof. intros Hs Hi. destruct (ds_keys s Hs _ _ Hi) as (? & v & Hv & _). apply lookup_lt_Some in Hv. unfold len. lia. Qed.

(** What a deposit adds to the balances: nothing if its key is new and its signature bad. *)
Definition credited s (pd : PendingDeposit.t) : Z :=
  match valIdxMap s !! keyOf pd with
  | Some _ => PendingDeposit.Amount pd
  | None => if verifyDepositSignature (pendingData pd) then PendingDeposit.Amount pd else 0
  end.

Lemma applyState_ok s pd : deposit_state s → deposit_ok pd → len (validators s) + 1 < two63 →
  deposit_state (applyState s pd) ∧ sumZ (balances (applyState s pd)) = sumZ (balances s) + credited s pd ∧
  len (validators (applyState s pd)) ≤ len (validators s) + 1.
Proof.
  intros Hs Hp Hroom. pose proof Hp as [Ha _]. unfold is_u64 in Ha. unfold applyState, credited.
  destruct (valIdxMap s !! keyOf pd) as [i|] eqn:Hi.
  - destruct (creditState_ok s i (PendingDeposit.Amount pd) Hs) as [? ?]; [by eapply key_index|lia|]. split_and!; [done..|cbn; lia].
  - destruct (verifyDepositSignature _); [|split_and!; [done|lia|lia]].
    destruct (addState_ok s pd (PendingDeposit.Amount pd) Hs Hp) as [? ?]; [lia|done|]. split_and!; [done..|].
    cbn. unfold len. rewrite length_app. simpl. lia.
Qed.

Lemma ApplyPendingDeposit_Ok s pd : deposit_state s → deposit_ok pd →
  sumZ (balances s) + PendingDeposit.Amount pd < two64 → ApplyPendingDeposit pd s = (Ok tt, applyState s pd).
Proof.
  intros Hs Hp Hroom. pose proof Hp as [Ha Hc]. unfold ApplyPendingDeposit, applyState.
  rewrite (M_bind_Ok _ _ _ s s) by done. fold (keyOf pd). rewrite ValidatorIndexByPubkey_map by apply Hs.
  destruct (valIdxMap s !! keyOf pd) as [i|] eqn:Hi.
  - apply IncreaseBalance_Ok; [done|by eapply key_index|done|done].
  - unfold IsValidDepositSignature. destruct (verifyDepositSignature _); [|done]. apply AddValidator_Ok; [done|lia].
Qed.

(** ** Crediting a validator of the registry commutes with the other deposits *)
Lemma credit_credit s i j a b : 0 ≤ i < len (balances s) → 0 ≤ j < len (balances s) →
  creditState i a (creditState j b s) = creditState j b (creditState i a s).
Proof.
  unfold len. intros Hi Hj. unfold creditState. cbn [balances set_balances].
  rewrite !ent_insert by (unfold len; lia). unfold set_balances. cbn. f_equal.
  destruct (decide (i = j)) as [->|Hne].
  - rewrite Z.eqb_refl, !list_insert_insert_eq. f_equal. lia.
  - destruct (Z.eqb_spec j i), (Z.eqb_spec i j); try lia. rewrite list_insert_insert_ne by lia. done.
Qed.
Lemma credit_add s i a pd amount : 0 ≤ i < len (balances s) →
  creditState i a (addState pd amount s) = addState pd amount (creditState i a s).
Proof.
  unfold len. intros Hi. unfold creditState. change (balances (addState pd amount s)) with (balances s ++ [amount]).
  rewrite insert_app_l by lia. assert (ent (balances s ++ [amount]) i = ent (balances s) i) as ->.
  { unfold ent. destruct (Z.ltb_spec i 0); [lia|]. by rewrite lookup_app_l by lia. }
  by destruct s.
Qed.
Lemma credit_apply s i a pd : deposit_state s → 0 ≤ i < len (validators s) →
  creditState i a (applyState s pd) = applyState (creditState i a s) pd.
Proof.
  intros Hs Hi. assert (len (balances s) = len (validators s)) as Hl by (unfold len; by rewrite (ds_lengths s Hs)).
  unfold applyState. change (valIdxMap (creditState i a s)) with (valIdxMap s).
  destruct (valIdxMap s !! keyOf pd) as [j|] eqn:Hj.
  - apply credit_credit; [lia|]. rewrite Hl. by eapply key_index.
  - destruct (verifyDepositSignature _); [|done]. apply credit_add. lia.
Qed.
Lemma credit_applyAll s i a pds : deposit_state s → Forall deposit_ok pds → len (validators s) + len pds < two63 →
  0 ≤ i < len (validators s) → creditState i a (applyAll s pds) = applyAll (creditState i a s) pds.
Proof.
  intros Hs Hp. revert s Hs. induction Hp as [|pd pds Hpd Hp IH]; intros s Hs Hroom Hi; [done|].
  assert (len (pd :: pds) = 1 + len pds) as Hl by (unfold len; simpl; lia). pose proof (Zle_0_nat (length pds)).
  destruct (applyState_ok s pd Hs Hpd) as (Hs1 & _ & Hl1); [unfold len in *; lia|]. unfold applyAll in *. cbn [foldl].
  rewrite IH; [by rewrite credit_apply|done|lia|].
  enough (len (validators s) ≤ len (validators (applyState s pd))) by lia. unfold applyState.
  destruct (valIdxMap s !! keyOf pd); [done|]. destruct (verifyDepositSignature _); [|done]. cbn. unfold len. rewrite length_app. lia.
Qed.
End facts.

Section spec.
Context `{cfg : BeaconChainConfig} `{ecfg : EpochConfig} `{ocfg : OperationsConfig} `{sigs : DepositSignatures}.
Implicit Types s : BeaconState.

(** ** The specification, on unbounded integers *)
Definition statusOf s (nextEpoch : Z) (pd : PendingDeposit.t) : bool * bool :=
  match ValidatorIndexByPubkey s (keyOf pd) with
  | Some i => match validators s !! Z.to_nat i with
              | Some v => (ExitEpoch v <? FarFutureEpoch, WithdrawableEpoch v <? nextEpoch)
              | None => (false, false)
              end
  | None => (false, false)
  end.

(** The deposit has to wait: for the deposits of the Eth1 bridge, for finality, or for the
    next epoch. *)
Definition mustWait s (finalizedSlot startIndex next_ : Z) (pd : PendingDeposit.t) : bool :=
  ((PendingDeposit.Slot pd >? GenesisSlot) && (eth1DepositIndex s <? startIndex))
  || (PendingDeposit.Slot pd >? finalizedSlot) || (next_ >=? MaxPendingDepositsPerEpoch).

Fixpoint specLoop (nextEpoch available finalizedSlot startIndex : Z) (queue : list PendingDeposit.t)
    (processed next_ : Z) (postponed : list PendingDeposit.t)
    : M BeaconState (Z * Z * bool * list PendingDeposit.t) :=
  match queue with
  | [] => mret (processed, next_, false, postponed)
  | pd :: queue' =>
      s ← mget;
      if mustWait s finalizedSlot startIndex next_ pd then mret (processed, next_, false, postponed)
      else if (statusOf s nextEpoch pd).2 then
        ApplyPendingDeposit pd;;
        specLoop nextEpoch available finalizedSlot startIndex queue' processed (next_ + 1) postponed
      else if (statusOf s nextEpoch pd).1 then
        specLoop nextEpoch available finalizedSlot startIndex queue' processed (next_ + 1) (postponed ++ [pd])
      else if processed + PendingDeposit.Amount pd >? available then mret (processed, next_, true, postponed)
      else
        ApplyPendingDeposit pd;;
        specLoop nextEpoch available finalizedSlot startIndex queue' (processed + PendingDeposit.Amount pd) (next_ + 1) postponed
  end.

Definition process_pending_deposits (nextEpoch available finalizedSlot : Z) : M BeaconState unit :=
  s ← mget;
  '(processed, next_, reached, postponed) ←
    specLoop nextEpoch available finalizedSlot (depositRequestsStartIndex s) (pendingDeposits s) 0 0 [];
  mmodify (set_pendingDeposits (drop (Z.to_nat next_) (pendingDeposits s) ++ postponed));;
  mmodify (set_depositBalanceToConsume (if (reached : bool) then available - processed else 0)).
End spec.

Section batch.
Context `{cfg : BeaconChainConfig} `{ecfg : EpochConfig} `{ocfg : OperationsConfig} `{sigs : DepositSignatures}.
Context {laws : DepositSignatureLaws sigs} {dc : DepositConfig}.
Implicit Types s : BeaconState.

(** ** The batch *)
Lemma batchLoop_Ok s pds all : deposit_state s → Forall deposit_ok pds →
  (all = true → Forall (λ pd, verifyDepositSignature (pendingData pd) = true) pds) →
  sumZ (balances s) + amounts pds < two64 → len (validators s) + len pds < two63 →
  batchLoop all pds s = (Ok tt, applyAll s pds).
Proof.
  intros Hs Hp. revert s Hs. induction Hp as [|pd pds Hpd Hp IH]; intros s Hs Hall Hroom Hlen; [done|].
  rewrite amounts_cons in Hroom. assert (len (pd :: pds) = 1 + len pds) as Hl by (unfold len; simpl; lia).
  pose proof (amounts_nonneg pds Hp). pose proof (Zle_0_nat (length pds)).
  destruct (applyState_ok s pd Hs Hpd) as (Hs1 & Hsum & Hl1); [unfold len in *; lia|].
  cbn [batchLoop]. rewrite (M_bind_Ok _ _ _ s s) by done. rewrite (M_bind_Ok _ _ _ tt (applyState s pd)).
  - rewrite IH; [done|done| | |lia].
    + intros Ha. by apply Forall_cons in Hall as [_ ?].
    + rewrite Hsum. pose proof Hpd as [Ha _]. unfold is_u64 in Ha. unfold credited.
      destruct (valIdxMap s !! keyOf pd); [lia|]. destruct (verifyDepositSignature _); lia.
  - rewrite <-(ApplyPendingDeposit_Ok s pd) by (done || lia). unfold ApplyPendingDeposit. rewrite (M_bind_Ok _ _ _ s s) by done.
    destruct (ValidatorIndexByPubkey _ _); [done|]. destruct all; [|done].
    unfold IsValidDepositSignature. specialize (Hall eq_refl). apply Forall_cons in Hall as [-> _]. done.
Qed.

Lemma batchProcess_Ok s pds : deposit_state s → Forall deposit_ok pds →
  sumZ (balances s) + amounts pds < two64 → len (validators s) + len pds < two63 →
  batchProcessNewPendingDeposits pds s = (Ok tt, applyAll s pds).
Proof.
  intros Hs Hp Hroom Hlen. unfold batchProcessNewPendingDeposits, BatchVerifyPendingDepositsSignatures.
  destruct (Nat.eqb_spec (length pds) 0) as [H0|_]; [by destruct pds|].
  apply batchLoop_Ok; [done..| |done|done]. intros Ha. apply multiple_each in Ha. by rewrite Forall_fmap in Ha.
Qed.

(** ** What later deposits see of the deposits in the batch *)
Record fresh_after s t : Prop := {
  fa_eth1 : eth1DepositIndex t = eth1DepositIndex s;
  fa_found k i : valIdxMap s !! k = Some i → valIdxMap t !! k = Some i ∧ validators t !! Z.to_nat i = validators s !! Z.to_nat i;
  fa_new k i : valIdxMap s !! k = None → valIdxMap t !! k = Some i →
    ∃ v, validators t !! Z.to_nat i = Some v ∧ ExitEpoch v = FarFutureEpoch ∧ WithdrawableEpoch v = FarFutureEpoch;
  fa_size : len (validators s) ≤ len (validators t)
}.

Lemma fresh_apply s t pd : deposit_state s → deposit_state t → deposit_ok pd → fresh_after s t → fresh_after s (applyState t pd).
Proof.
  intros Hs Ht Hp Hf. unfold applyState. destruct (valIdxMap t !! keyOf pd) as [j|] eqn:Hj.
  { split; cbn; apply Hf. }
  destruct (verifyDepositSignature _); [|done].
  destruct (GetValidatorFromDeposit_Ok pd (PendingDeposit.Amount pd) ltac:(destruct Hp; lia)) as (_ & Hexit & Hwd & _).
  assert (∀ i : Z, 0 ≤ i < len (validators t) →
    validators (addState pd (PendingDeposit.Amount pd) t) !! Z.to_nat i = validators t !! Z.to_nat i) as Hold.
  { intros i Hi. cbn. apply lookup_app_l. unfold len in *. lia. }
  split; cbn.
  - apply Hf.
  - intros k i Hi. destruct (fa_found s t Hf k i Hi) as [Hk Hv]. rewrite <-Hv. split.
    + rewrite lookup_insert_ne; [done|]. intros <-. by rewrite Hk in Hj.
    + apply Hold. destruct (ds_keys t Ht k i Hk) as (? & v & Hv' & _). apply lookup_lt_Some in Hv'. unfold len. lia.
  - intros k i Hi Hk. destruct (decide (k = keyOf pd)) as [->|Hne].
    + rewrite lookup_insert_eq in Hk. simplify_eq. exists (newValidator pd (PendingDeposit.Amount pd)).
      unfold len. by rewrite Nat2Z.id, lookup_app_r, Nat.sub_diag by lia.
    + rewrite lookup_insert_ne in Hk by done. destruct (fa_new s t Hf k i Hi Hk) as (v & Hv & ?). exists v. split; [|done].
      by apply lookup_app_l_Some.
  - pose proof (fa_size s t Hf). unfold len in *. rewrite length_app. lia.
Qed.

Lemma applyAll_ok s pds : deposit_state s → Forall deposit_ok pds → len (validators s) + len pds < two63 →
  deposit_state (applyAll s pds) ∧ fresh_after s (applyAll s pds) ∧
  sumZ (balances (applyAll s pds)) ≤ sumZ (balances s) + amounts pds ∧
  len (validators (applyAll s pds)) ≤ len (validators s) + len pds.
Proof.
  intros Hs Hp Hroom. induction pds as [|pd pds IH] using rev_ind.
  { split_and!; [done| |unfold amounts; rewrite sumBy_nil; simpl; lia|unfold len; simpl; lia]. split; [done|done|intros k i H1 H2; cbn in H2; congruence|done]. }
  apply Forall_app in Hp as [Hp Hpd]. apply Forall_cons in Hpd as [Hpd _]. unfold len in Hroom. rewrite length_app in Hroom. simpl in Hroom.
  destruct (IH Hp) as (Ht & Hf & Hsum & Hl); [unfold len; lia|]. unfold applyAll in *. rewrite foldl_app. cbn [foldl].
  destruct (applyState_ok (foldl applyState s pds) pd Ht Hpd) as (Ht1 & Hsum1 & Hl1); [unfold len in *; lia|].
  split_and!; [done|by apply fresh_apply| |unfold len in *; rewrite length_app; simpl; lia].
  rewrite Hsum1, amounts_app. change (amounts [pd]) with (PendingDeposit.Amount pd + 0).
  pose proof Hpd as [Ha _]. unfold is_u64 in Ha. unfold credited.
  destruct (valIdxMap _ !! keyOf pd); [lia|]. destruct (verifyDepositSignature _); lia.
Qed.

(** ** The loop *)

(** The code's state [C] and the deposits collected so far stand for the specification's
    state [applyAll C batch]; there is room for what is left of the queue. *)
Record loop_ok (C : BeaconState) (batch queue : list PendingDeposit.t) : Prop := {
  lo_state : deposit_state C;
  lo_batch : Forall deposit_ok batch;
  lo_queue : Forall deposit_ok queue;
  lo_sum : sumZ (balances C) + amounts batch + amounts queue < two64;
  lo_size : len (validators C) + len batch + len queue < two63
}.

Lemma statusOf_same C batch queue pd nextEpoch : loop_ok C batch queue → nextEpoch ≤ FarFutureEpoch →
  statusOf (applyAll C batch) nextEpoch pd = statusOf C nextEpoch pd.
Proof.
  intros HC HFF. pose proof (lo_size _ _ _ HC). pose proof (Zle_0_nat (length queue)).
  destruct (applyAll_ok C batch) as (Ht & Hf & _); [apply HC|apply HC|unfold len in *; lia|].
  unfold statusOf. rewrite !ValidatorIndexByPubkey_map by first [apply Ht|apply HC].
  destruct (valIdxMap C !! keyOf pd) as [i|] eqn:Hi.
  - destruct (fa_found _ _ Hf _ _ Hi) as [-> ->]. done.
  - destruct (valIdxMap (applyAll C batch) !! keyOf pd) as [i|] eqn:Hi'; [|done].
    destruct (fa_new _ _ Hf _ _ Hi Hi') as (v & -> & -> & ->). f_equal; apply Z.ltb_ge; lia.
Qed.

Lemma status_read C pd nextEpoch : deposit_state C →
  (match ValidatorIndexByPubkey C (keyOf pd) with
   | Some index => val ← ValidatorAtIndex C index; Ok (ExitEpoch val <? FarFutureEpoch, WithdrawableEpoch val <? nextEpoch)
   | None => Ok (false, false)
   end : gores (bool * bool)) = Ok (statusOf C nextEpoch pd).
Proof.
  intros HC. unfold statusOf. rewrite ValidatorIndexByPubkey_map by apply HC.
  destruct (valIdxMap C !! keyOf pd) as [i|] eqn:Hi; [|done]. destruct (ds_keys C HC _ _ Hi) as (Hi0 & v & Hv & _).
  unfold ValidatorAtIndex. by rewrite (list_at_Ok _ _ v), Hv.
Qed.

(** Applying a deposit of the queue, with the validator found in the registry or not. *)
Lemma apply_found C batch pd queue i : loop_ok C batch (pd :: queue) → valIdxMap C !! keyOf pd = Some i →
  IncreaseBalance i (PendingDeposit.Amount pd) C = (Ok tt, creditState i (PendingDeposit.Amount pd) C) ∧
  ApplyPendingDeposit pd (applyAll C batch) = (Ok tt, applyAll (creditState i (PendingDeposit.Amount pd) C) batch) ∧
  loop_ok (creditState i (PendingDeposit.Amount pd) C) batch queue.
Proof.
  intros HC Hi. pose proof (lo_queue _ _ _ HC) as Hq. apply Forall_cons in Hq as [Hpd Hq]. pose proof Hpd as [Ha _]. unfold is_u64 in Ha.
  pose proof (lo_sum _ _ _ HC) as Hsum. rewrite amounts_cons in Hsum. pose proof (lo_size _ _ _ HC) as Hsize.
  pose proof (amounts_nonneg _ Hq). pose proof (amounts_nonneg _ (lo_batch _ _ _ HC)).
  assert (len (pd :: queue) = 1 + len queue) as Hl by (unfold len; simpl; lia). pose proof (Zle_0_nat (length queue)).
  destruct (applyAll_ok C batch) as (Ht & Hf & Hsum' & _); [apply HC|apply HC|unfold len in *; lia|].
  pose proof (key_index C pd i (lo_state _ _ _ HC) Hi) as Hrange. split_and!.
  - apply IncreaseBalance_Ok; [apply HC|done|done|lia].
  - rewrite ApplyPendingDeposit_Ok by (done || lia). unfold applyState. rewrite (proj1 (fa_found _ _ Hf _ _ Hi)).
    rewrite credit_applyAll; [done|apply HC|apply HC|unfold len in *; lia|done].
  - destruct (creditState_ok C i (PendingDeposit.Amount pd) (lo_state _ _ _ HC) Hrange) as [Hs1 Hs2]; [lia|].
    split; [done|apply HC|done|lia|]. change (validators (creditState _ _ C)) with (validators C). lia.
Qed.

Lemma apply_new C batch pd queue : loop_ok C batch (pd :: queue) →
  ApplyPendingDeposit pd (applyAll C batch) = (Ok tt, applyAll C (batch ++ [pd])) ∧ loop_ok C (batch ++ [pd]) queue.
Proof.
  intros HC. pose proof (lo_queue _ _ _ HC) as Hq. apply Forall_cons in Hq as [Hpd Hq]. pose proof Hpd as [Ha _]. unfold is_u64 in Ha.
  pose proof (lo_sum _ _ _ HC) as Hsum. rewrite amounts_cons in Hsum. pose proof (lo_size _ _ _ HC) as Hsize.
  pose proof (amounts_nonneg _ Hq). assert (len (pd :: queue) = 1 + len queue) as Hl by (unfold len; simpl; lia).
  pose proof (Zle_0_nat (length queue)).
  destruct (applyAll_ok C batch) as (Ht & Hf & Hsum' & _); [apply HC|apply HC|unfold len in *; lia|]. split.
  - rewrite ApplyPendingDeposit_Ok by (done || lia). unfold applyAll. by rewrite foldl_app.
  - split; [apply HC| |done| |].
    + apply Forall_app. split; [apply HC|by constructor].
    + rewrite amounts_app. change (amounts [pd]) with (PendingDeposit.Amount pd + 0). lia.
    + unfold len in *. rewrite length_app. simpl. lia.
Qed.

Lemma loop_ok_tail C batch pd queue : loop_ok C batch (pd :: queue) → loop_ok C batch queue.
Proof.
  intros HC. pose proof (lo_queue _ _ _ HC) as Hq. apply Forall_cons in Hq as [[Ha _] Hq]. unfold is_u64 in Ha.
  pose proof (lo_sum _ _ _ HC) as Hsum. rewrite amounts_cons in Hsum. pose proof (lo_size _ _ _ HC) as Hsize.
  split; [apply HC|apply HC|done|lia|]. unfold len in *. simpl in *. lia.
Qed.
Lemma loop_ok_nil C batch queue : loop_ok C batch queue → loop_ok C batch [].
Proof. induction queue; [done|]. intros H%loop_ok_tail. auto. Qed.

Lemma depositLoop_sim nextEpoch available fin start queue C l :
  loop_ok C (toBatchVerify l) queue → isChurnLimitReached l = false → nextEpoch ≤ FarFutureEpoch →
  0 ≤ processedAmount l → processedAmount l + amounts queue < two64 →
  0 ≤ nextDepositIndex l → nextDepositIndex l + len queue < two64 →
  ∃ C' l', depositLoop nextEpoch available fin start queue l C = (Ok l', C') ∧
    specLoop nextEpoch available fin start queue (processedAmount l) (nextDepositIndex l) (toPostpone l)
      (applyAll C (toBatchVerify l)) =
      (Ok (processedAmount l', nextDepositIndex l', isChurnLimitReached l', toPostpone l'), applyAll C' (toBatchVerify l')) ∧
    loop_ok C' (toBatchVerify l') [] ∧ nextDepositIndex l' ≤ nextDepositIndex l + len queue ∧
    0 ≤ processedAmount l' ≤ Z.max (processedAmount l) available.
Proof.
  intros HC Hr HFF. revert C l HC Hr. induction queue as [|pd queue IH]; intros C l HC Hr Hp0 Hp Hn0 Hn.
  { exists C, l. rewrite Hr. unfold len. simpl. split_and!; done || lia. }
  assert (len (pd :: queue) = 1 + len queue) as Hl by (unfold len; simpl; lia). rewrite amounts_cons in Hp.
  pose proof (lo_queue _ _ _ HC) as Hq. apply Forall_cons in Hq as [[Ha _] Hq]. unfold is_u64 in Ha.
  pose proof (amounts_nonneg _ Hq). assert (0 ≤ len queue) by (unfold len; lia).
  assert (eth1DepositIndex (applyAll C (toBatchVerify l)) = eth1DepositIndex C) as Heth1.
  { apply applyAll_ok; [apply HC|apply HC|]. pose proof (lo_size _ _ _ HC). unfold len in *. lia. }
  cbn [depositLoop specLoop]. rewrite (M_bind_Ok _ _ _ C C), (M_bind_Ok _ _ _ (applyAll C _) (applyAll C _)) by done.
  unfold mustWait. rewrite Heth1. assert (∃ C' l', (Ok l, C) = (Ok l', C') ∧
    (Ok (processedAmount l, nextDepositIndex l, false, toPostpone l), applyAll C (toBatchVerify l)) =
      (Ok (processedAmount l', nextDepositIndex l', isChurnLimitReached l', toPostpone l'), applyAll C' (toBatchVerify l')) ∧
    loop_ok C' (toBatchVerify l') [] ∧ nextDepositIndex l' ≤ nextDepositIndex l + len (pd :: queue) ∧
    0 ≤ processedAmount l' ≤ Z.max (processedAmount l) available) as Hstop.
  { exists C, l. rewrite Hr. split_and!; [done|done|by eapply loop_ok_nil|lia|lia|lia]. }
  destruct (_ && _); [exact Hstop|]. destruct (_ >? _); [exact Hstop|]. destruct (_ >=? _); [exact Hstop|]. clear Hstop.
  cbn [orb]. rewrite (statusOf_same C _ _ pd nextEpoch HC HFF).
  change (ToBytes48 (PendingDeposit.PublicKey pd)) with (keyOf pd).
  rewrite (M_bind_Ok _ _ _ (statusOf C nextEpoch pd) C) by (unfold mlift; by rewrite (status_read C) by apply HC).
  rewrite (u64_small (nextDepositIndex l + 1)), (u64_small (processedAmount l + _)) by (unfold is_u64, len in *; lia).
  rewrite ValidatorIndexByPubkey_map by apply HC. destruct (statusOf C nextEpoch pd) as [exited withdrawn] eqn:Hst. cbn [fst snd].
  destruct withdrawn; [|destruct exited].
  - (* withdrawn: the validator is in the registry *)
    unfold statusOf in Hst. rewrite ValidatorIndexByPubkey_map in Hst by apply HC.
    destruct (valIdxMap C !! keyOf pd) as [i|] eqn:Hi; [|done]. cbn [default].
    destruct (apply_found C _ pd queue i HC Hi) as (Hinc & Happ & HC').
    rewrite (M_bind_Ok _ _ _ _ _ Hinc), (M_bind_Ok _ _ _ _ _ Happ).
    destruct (IH _ (mkDepositLoop (processedAmount l) (nextDepositIndex l + 1) (isChurnLimitReached l) (toBatchVerify l) (toPostpone l)) HC')
      as (C' & l' & ? & ? & ? & ? & ?); cbn; [done|lia..|]. exists C', l'. split_and!; done || (cbn in *; lia).
  - destruct (IH C (mkDepositLoop (processedAmount l) (nextDepositIndex l + 1) (isChurnLimitReached l) (toBatchVerify l) (toPostpone l ++ [pd])))
      as (C' & l' & ? & ? & ? & ? & ?); cbn; [by eapply loop_ok_tail|done|lia..|]. exists C', l'. split_and!; done || (cbn in *; lia).
  - rewrite Z.gtb_ltb. destruct (Z.ltb_spec available (processedAmount l + PendingDeposit.Amount pd)) as [Hgt|Hle].
    { exists C, (mkDepositLoop (processedAmount l) (nextDepositIndex l) true (toBatchVerify l) (toPostpone l)).
      split_and!; [done|done|by eapply loop_ok_nil|cbn; lia|cbn; lia|cbn; lia]. }
    destruct (valIdxMap C !! keyOf pd) as [i|] eqn:Hi.
    + destruct (apply_found C _ pd queue i HC Hi) as (Hinc & Happ & HC').
      rewrite (M_bind_Ok _ _ _ (toBatchVerify l) (creditState i (PendingDeposit.Amount pd) C)) by (by rewrite (M_bind_Ok _ _ _ _ _ Hinc)).
      rewrite (M_bind_Ok _ _ _ _ _ Happ).
      destruct (IH _ (mkDepositLoop (processedAmount l + PendingDeposit.Amount pd) (nextDepositIndex l + 1) false (toBatchVerify l) (toPostpone l)) HC')
        as (C' & l' & ? & ? & ? & ? & ?); cbn; [done|lia..|]. exists C', l'. split_and!; done || (cbn in *; lia).
    + destruct (apply_new C _ pd queue HC) as (Happ & HC'). rewrite (M_bind_Ok _ _ _ (toBatchVerify l ++ [pd]) C) by done.
      rewrite (M_bind_Ok _ _ _ _ _ Happ).
      destruct (IH C (mkDepositLoop (processedAmount l + PendingDeposit.Amount pd) (nextDepositIndex l + 1) false (toBatchVerify l ++ [pd]) (toPostpone l)) HC')
        as (C' & l' & ? & ? & ? & ? & ?); cbn; [done|lia..|]. exists C', l'. split_and!; done || (cbn in *; lia).
Qed.

(** ** The epoch's processing *)

(** What the epoch transition guarantees when it processes the queue. *)
Record deposit_epoch s (activeBalance churn finalizedSlot : Z) : Prop := {
  de_state : deposit_state s;
  de_queue : Forall deposit_ok (pendingDeposits s);
  de_sum : sumZ (balances s) + amounts (pendingDeposits s) < two64;
  de_size : len (validators s) + len (pendingDeposits s) < two63;
  de_slot : is_u64 (slot s) ∧ slot s / SlotsPerEpoch + 1 ≤ FarFutureEpoch < two64;
  de_churn : ActivationExitChurnLimit activeBalance = Ok churn;
  de_budget : 0 ≤ churn ∧ 0 ≤ depositBalanceToConsume s ∧ depositBalanceToConsume s + churn < two64;
  de_finalized : EpochStart (Epoch_ (finalizedCheckpoint s)) = Ok finalizedSlot
}.

Lemma version_guard s : deposit_state s → (version s <? version_Electra) = false.
Proof. intros Hs. apply Z.ltb_ge. apply Hs. Qed.

Lemma applyState_keeps s pd : version (applyState s pd) = version s ∧ pendingDeposits (applyState s pd) = pendingDeposits s.
Proof. unfold applyState. destruct (valIdxMap s !! _); [done|]. by destruct (verifyDepositSignature _). Qed.
Lemma applyAll_version s pds : version (applyAll s pds) = version s.
Proof.
  revert s. induction pds as [|pd pds IH]; intros s; [done|]. change (applyAll s (pd :: pds)) with (applyAll (applyState s pd) pds).
  rewrite IH. apply applyState_keeps.
Qed.

Lemma ProcessPendingDeposits_run s activeBalance churn finalizedSlot : deposit_epoch s activeBalance churn finalizedSlot →
  ∃ p n r post S',
    specLoop (slot s / SlotsPerEpoch + 1) (depositBalanceToConsume s + churn) finalizedSlot (depositRequestsStartIndex s)
      (pendingDeposits s) 0 0 [] s = (Ok (p, n, r, post), S') ∧
    ProcessPendingDeposits activeBalance s =
      (Ok tt, set_depositBalanceToConsume (if r : bool then depositBalanceToConsume s + churn - p else 0)
                (set_pendingDeposits (drop (Z.to_nat n) (pendingDeposits s) ++ post) S')) ∧
    0 ≤ p ≤ depositBalanceToConsume s + churn.
Proof.
  intros He. pose proof (de_state _ _ _ _ He) as Hs. destruct (de_slot _ _ _ _ He) as [Hsl HFF].
  destruct (de_budget _ _ _ _ He) as (Hch & Hdb & Hav). pose proof (de_sum _ _ _ _ He). pose proof (de_size _ _ _ _ He).
  pose proof dc_slots. assert (0 ≤ slot s / SlotsPerEpoch) by (unfold is_u64 in Hsl; apply Z.div_pos; lia).
  assert (0 ≤ sumZ (balances s)) by apply sumZ_nonneg, Hs.
  set (av := depositBalanceToConsume s + churn). set (ne := slot s / SlotsPerEpoch + 1).
  destruct (depositLoop_sim ne av finalizedSlot (depositRequestsStartIndex s) (pendingDeposits s) s (mkDepositLoop 0 0 false [] []))
    as (C' & l & Hloop & Hspec & HC' & Hn & Hp); cbn.
  { split; [done|apply Forall_nil_2|apply He|change (amounts []) with 0; lia|unfold len in *; simpl; lia]. }
  { done. } { unfold ne; lia. } { lia. } { lia. } { lia. } { unfold len in *. lia. }
  cbn in Hspec, Hn, Hp. eexists _, _, _, _, _. split; [exact Hspec|]. split; [|lia].
  unfold ProcessPendingDeposits. rewrite (M_bind_Ok _ _ _ s s) by done.
  rewrite (M_bind_Ok _ _ _ (slot s / SlotsPerEpoch) s).
  2: { unfold mlift, ToEpoch, Slot.DivSlot, Slot.Div, Slot.SafeDiv. rewrite Div64_cases. by destruct (Z.eqb_spec SlotsPerEpoch 0); [lia|]. }
  unfold DepositBalanceToConsume, DepositRequestsStartIndex, PendingDeposits, readFrom. rewrite (version_guard s Hs).
  rewrite (M_bind_Ok _ _ _ (depositBalanceToConsume s) s) by done.
  rewrite (M_bind_Ok _ _ _ churn s) by (unfold mlift; by rewrite (de_churn _ _ _ _ He)).
  rewrite (M_bind_Ok _ _ _ finalizedSlot s) by (unfold mlift; by rewrite (de_finalized _ _ _ _ He)).
  rewrite (M_bind_Ok _ _ _ (depositRequestsStartIndex s) s), (M_bind_Ok _ _ _ (pendingDeposits s) s) by done.
  rewrite (u64_small (depositBalanceToConsume s + churn)), (u64_small (slot s / SlotsPerEpoch + 1)) by (unfold is_u64; lia). fold av ne.
  rewrite (M_bind_Ok _ _ _ _ _ Hloop).
  pose proof (lo_sum _ _ _ HC') as Hsum'. pose proof (lo_size _ _ _ HC') as Hsize'. change (amounts []) with 0 in Hsum'.
  rewrite (M_bind_Ok _ _ _ tt (applyAll C' (toBatchVerify l))).
  2: { apply batchProcess_Ok; [apply HC'|apply HC'|lia|unfold len in *; simpl in *; lia]. }
  assert ((version (applyAll C' (toBatchVerify l)) <? version_Electra) = false) as Hv.
  { rewrite applyAll_version. apply version_guard, HC'. }
  rewrite (M_bind_Ok _ _ _ (drop (Z.to_nat (nextDepositIndex l)) (pendingDeposits s)) (applyAll C' (toBatchVerify l))).
  2: { unfold mlift, slice_from. rewrite Z.gtb_ltb. by destruct (Z.ltb_spec (len (pendingDeposits s)) (nextDepositIndex l)); [lia|]. }
  unfold SetPendingDeposits, SetDepositBalanceToConsume, fromVersion, mbind, M_bind, mget, mmodify. rewrite Hv.
  destruct (isChurnLimitReached l); cbv beta iota;
    match goal with |- context [version (set_pendingDeposits ?q ?x)] => change (version (set_pendingDeposits q x)) with (version x) end;
    rewrite Hv; [|done]. by rewrite u64_small by (unfold is_u64; lia).
Qed.

(** C9: Batched verification is transparent: processing the queue of pending deposits at an
    epoch boundary (collecting the deposits with new keys, verifying their signatures in one
    batch, falling back to one by one, and adding them after the loop) succeeds and leaves
    exactly the state of the specification, which applies every deposit in order with
    [ApplyPendingDeposit] and unbounded integers, for any batch verification that accepts
    only batches whose signatures are all valid. *)
Theorem pending_deposits_batched s activeBalance churn finalizedSlot :
  deposit_epoch s activeBalance churn finalizedSlot →
  ProcessPendingDeposits activeBalance s =
    process_pending_deposits (slot s / SlotsPerEpoch + 1) (depositBalanceToConsume s + churn) finalizedSlot s ∧
  (ProcessPendingDeposits activeBalance s).1 = Ok tt.
Proof.
  intros He. destruct (ProcessPendingDeposits_run s activeBalance churn finalizedSlot He) as (p & n & r & post & S' & Hspec & Hrun & _).
  rewrite Hrun. split; [|done]. unfold process_pending_deposits. rewrite (M_bind_Ok _ _ _ s s) by done.
  by rewrite (M_bind_Ok _ _ _ _ _ Hspec).
Qed.

(** ** What becomes of the amounts *)

(** A deposit with a bad signature. *)
Definition bad (pd : PendingDeposit.t) : Prop := verifyDepositSignature (pendingData pd) = false.

(** From [T] to [T'] the queue was processed up to [n'], with [post'] to wait: every amount is
    in a balance, still in the queue, postponed, or lost with a deposit whose signature is
    bad. *)
Definition settled (T : BeaconState) (n : Z) (queue post : list PendingDeposit.t)
    (T' : BeaconState) (n' : Z) (post' : list PendingDeposit.t) : Prop :=
  ∃ lost, lost `sublist_of` queue ∧ Forall bad lost ∧ n ≤ n' ∧
    sumZ (balances T') + amounts (drop (Z.to_nat (n' - n)) queue) + amounts post' + amounts lost =
      sumZ (balances T) + amounts queue + amounts post.

Lemma settled_stop T n queue post : settled T n queue post T n post.
Proof.
  exists []. rewrite Z.sub_diag, drop_0. change (amounts []) with 0.
  split_and!; [apply sublist_nil_l|apply Forall_nil_2|lia|lia].
Qed.
Lemma settled_step T T1 T' n pd queue post post1 lost1 n' post' : lost1 `sublist_of` [pd] → Forall bad lost1 →
  sumZ (balances T1) + amounts post1 + amounts lost1 = sumZ (balances T) + PendingDeposit.Amount pd + amounts post →
  settled T1 (n + 1) queue post1 T' n' post' → settled T n (pd :: queue) post T' n' post'.
Proof.
  intros Hsub1 Hbad1 Hled1 (lost & Hsub & Hbad & Hn & Hled). exists (lost1 ++ lost). rewrite amounts_app, amounts_cons.
  replace (Z.to_nat (n' - n)) with (S (Z.to_nat (n' - (n + 1)))) by lia. cbn [drop].
  split_and!; [by apply (sublist_app _ [pd])|by apply Forall_app|lia|lia].
Qed.
(** One deposit is credited or lost. *)
Lemma credited_lost T pd : ∃ lost, lost `sublist_of` [pd] ∧ Forall bad lost ∧
  credited T pd + amounts lost = PendingDeposit.Amount pd.
Proof.
  unfold credited. destruct (valIdxMap T !! keyOf pd); [|destruct (verifyDepositSignature _) eqn:Hsig].
  1,2: exists []; (split_and!; [apply sublist_nil_l|apply Forall_nil_2|change (amounts []) with 0; lia]).
  exists [pd]. split_and!; [done|by repeat constructor|]. change (amounts [pd]) with (PendingDeposit.Amount pd + 0). lia.
Qed.

Lemma specLoop_settled ne av fin start queue T p n post p' n' r post' T' : deposit_state T → Forall deposit_ok queue →
  sumZ (balances T) + amounts queue < two64 → len (validators T) + len queue < two63 →
  specLoop ne av fin start queue p n post T = (Ok (p', n', r, post'), T') →
  settled T n queue post T' n' post' ∧ deposit_state T'.
Proof.
  intros HT Hq. revert T p n post HT. induction Hq as [|pd queue Hpd Hq IH]; intros T p n post HT Hsum Hsize Hrun.
  { cbn in Hrun. unfold mret, M_ret in Hrun. simplify_eq. split; [apply settled_stop|done]. }
  assert (len (pd :: queue) = 1 + len queue) as Hl by (unfold len; simpl; lia). rewrite amounts_cons in Hsum.
  pose proof Hpd as [Ha _]. unfold is_u64 in Ha. pose proof (amounts_nonneg _ Hq). assert (0 ≤ len queue) by (unfold len; lia).
  assert (ApplyPendingDeposit pd T = (Ok tt, applyState T pd)) as Happ by (apply ApplyPendingDeposit_Ok; [done..|lia]).
  destruct (applyState_ok T pd HT Hpd) as (HT1 & Hsum1 & Hl1); [lia|].
  destruct (credited_lost T pd) as (lost & Hsub & Hbad & Hcr).
  assert (0 ≤ credited T pd ≤ PendingDeposit.Amount pd) as Hcb.
  { unfold credited. destruct (valIdxMap T !! keyOf pd); [lia|]. destruct (verifyDepositSignature _); lia. }
  assert (∀ q, specLoop ne av fin start queue q (n + 1) post (applyState T pd) = (Ok (p', n', r, post'), T') →
    settled T n (pd :: queue) post T' n' post' ∧ deposit_state T') as Happly.
  { intros q Hq1. destruct (IH _ _ _ _ HT1 ltac:(lia) ltac:(lia) Hq1) as [Hs ?]. split; [|done].
    eapply settled_step; [exact Hsub|exact Hbad| |exact Hs]; lia. }
  cbn [specLoop] in Hrun. rewrite (M_bind_Ok _ _ _ T T) in Hrun by done.
  destruct (mustWait _ _ _ _ _); [unfold mret, M_ret in Hrun; simplify_eq; split; [apply settled_stop|done]|].
  destruct (statusOf T ne pd) as [exited withdrawn]. cbn [fst snd] in Hrun. destruct withdrawn; [|destruct exited].
  - rewrite (M_bind_Ok _ _ _ _ _ Happ) in Hrun. by eapply Happly.
  - destruct (IH _ _ _ _ HT ltac:(lia) ltac:(lia) Hrun) as [Hs ?]. split; [|done].
    eapply (settled_step _ T _ _ _ _ _ _ []); [apply sublist_nil_l|apply Forall_nil_2| |exact Hs].
    rewrite amounts_app. change (amounts []) with 0. change (amounts [pd]) with (PendingDeposit.Amount pd + 0). lia.
  - destruct (_ >? _); [unfold mret, M_ret in Hrun; simplify_eq; split; [apply settled_stop|done]|].
    rewrite (M_bind_Ok _ _ _ _ _ Happ) in Hrun. by eapply Happly.
Qed.

(** The balances and the queue of a state. *)
Definition ledger s : Z := sumZ (balances s) + amounts (pendingDeposits s).

(** Processing the queue loses only deposits with a bad signature. *)
Lemma ProcessPendingDeposits_ledger s activeBalance churn finalizedSlot : deposit_epoch s activeBalance churn finalizedSlot →
  ∃ s' lost, ProcessPendingDeposits activeBalance s = (Ok tt, s') ∧ lost `sublist_of` pendingDeposits s ∧ Forall bad lost ∧
    ledger s' + amounts lost = ledger s ∧ 0 ≤ depositBalanceToConsume s' ≤ depositBalanceToConsume s + churn.
Proof.
  intros He. destruct (ProcessPendingDeposits_run s activeBalance churn finalizedSlot He) as (p & n & r & post & S' & Hspec & Hrun & Hp).
  destruct (specLoop_settled _ _ _ _ _ _ _ _ _ _ _ _ _ _ (de_state _ _ _ _ He) (de_queue _ _ _ _ He)
    (de_sum _ _ _ _ He) (de_size _ _ _ _ He) Hspec) as [(lost & Hsub & Hbad & Hn & Hled) _].
  eexists _, lost. split; [exact Hrun|]. rewrite Z.sub_0_r in Hled. change (amounts []) with 0 in Hled.
  split_and!; [done|done| |cbn; destruct r; lia|cbn; destruct r; lia].
  unfold ledger. cbn [balances pendingDeposits set_depositBalanceToConsume set_pendingDeposits]. rewrite amounts_app. lia.
Qed.
End batch.

(** ** Witness *)
#[local] Existing Instance mainnet_config.
#[local] Existing Instance mainnet_epoch_config.
#[local] Existing Instance mainnet_operations_config.
#[local] Instance ex_signatures : DepositSignatures := {|
  verifyDepositSignature d := bool_decide (DepositData.Signature d = [1]);
  verifyMultiple ds := forallb (λ d, bool_decide (DepositData.Signature d = [1])) ds
|}.
#[local] Instance ex_signature_laws : DepositSignatureLaws ex_signatures.
Proof.
  intros ds Hds. apply Forall_forall. intros d Hd. cbn in *. rewrite forallb_forall in Hds. apply Hds. by apply list_elem_of_In.
Qed.
#[local] Instance mainnet_deposit_config : DepositConfig.
Proof. split; cbn; lia. Qed.

Definition ex_pending (key amount sig : Z) : PendingDeposit.t :=
  PendingDeposit.mk [key] (1 :: replicate 31 0) amount [sig] 0.
(** One validator, with key 7; deposits that top it up, add key 8 and top it up with a bad
    signature, and one for key 9 that is lost. *)
Definition ex_deposits : BeaconState :=
  mkState version_Electra 320 [mkValidator 32000000000 false 0 0 MaxUint64 MaxUint64 [7] (1 :: replicate 31 0)] [32000000000]
    [] [0] [0] [0] [] [] [] (mkCheckpoint 0 0) (mkCheckpoint 0 0) (mkCheckpoint 8 0) 0 0 0 0 [] [] 0 0
    [] [ex_pending 7 1000000000 0; ex_pending 8 32000000000 1; ex_pending 9 5000000000 0; ex_pending 8 2000000000 0] []
    0 0 0 (mkEth1Data [] 0) {[ToBytes48 [7] := 0]}.

Lemma ex_deposit_epoch : deposit_epoch ex_deposits 32000000000 128000000000 256.
Proof.
  split.
  - split; [vm_compute; discriminate|done|vm_compute; reflexivity|by apply (bool_decide_unpack _)|].
    intros k i Hk. cbn in Hk. apply lookup_singleton_Some in Hk as [<- <-]. split; [done|]. by eexists.
  - repeat constructor; vm_compute; (reflexivity || discriminate).
  - vm_compute. reflexivity.
  - vm_compute. reflexivity.
  - split_and!; vm_compute; (reflexivity || discriminate || (split; [discriminate|reflexivity])).
  - vm_compute. reflexivity.
  - cbn. lia.
  - vm_compute. reflexivity.
Qed.

Example ex_deposits_processed :
  balances (ProcessPendingDeposits 32000000000 ex_deposits).2 = [33000000000; 34000000000].
Proof. vm_compute. reflexivity. Qed.

Lemma pending_deposits_batched_witness :
  deposit_epoch ex_deposits 32000000000 128000000000 256 ∧
  ProcessPendingDeposits 32000000000 ex_deposits =
    process_pending_deposits (slot ex_deposits / SlotsPerEpoch + 1) (depositBalanceToConsume ex_deposits + 128000000000) 256 ex_deposits ∧
  (ProcessPendingDeposits 32000000000 ex_deposits).1 = Ok tt.
Proof. split; [exact ex_deposit_epoch|]. exact (pending_deposits_batched ex_deposits 32000000000 128000000000 256 ex_deposit_epoch). Defined.
