(* ===== verification/Requests.v ===== *)
(** * Requests of the execution layer and pending consolidations

    core/requests (withdrawals.go, consolidations.go), core/electra (consolidations.go,
    validator.go, effective_balance_updates.go).  A request can be nil.  Contexts are never
    cancelled.  An error that the code only logs leaves the state as the failing call left
    it. *)
From S2P Require Import Prelude MathHelper Primitives Config SlotTime MVSlice EpochConfig MerkleTrie BeaconState Registry StateOperations.

Record WithdrawalRequest := mkWithdrawalRequest {
  wr_SourceAddress : list Z; wr_ValidatorPubkey : list Z; wr_Amount : Z }.
(** [None] is a nil byte slice. *)
Record ConsolidationRequest := mkConsolidationRequest {
  cr_SourceAddress : list Z; cr_SourcePubkey : option (list Z); cr_TargetPubkey : option (list Z) }.

(** common.InfiniteSignature *)
Definition InfiniteSignature : list Z := 192 :: replicate 95 0.

(** [if err := m; err != nil { log.Error(...) }] *)
Definition logError {S} (m : M S unit) : M S unit := λ s,
  match m s with (Err _, s') => (Ok tt, s') | r => r end.
(** [x, err := m; if err != nil { log.Error(...); continue }] *)
Definition orContinue {S A} (m : M S A) (k : A → M S unit) : M S unit := λ s,
  match m s with
  | (Ok a, s') => k a s'
  | (Err _, s') => (Ok tt, s')
  | (Panic, s') => (Panic, s')
  | (OutOfFuel, s') => (OutOfFuel, s')
  end.

(** Runs exits over a fresh [ExitInfo] object. *)
Definition withExitInfo {A} (ei : ExitInfo) (m : M (BeaconState * ExitInfo) A) : M BeaconState A := λ st,
  let '(r, (st', _)) := m (st, ei) in (r, st').

(** [bytes.HasSuffix] *)
Definition hasSuffix (s suffix : list Z) : bool :=
  (length suffix <=? length s)%nat && bool_decide (drop (length s - length suffix) s = suffix).

Section requests.
Context `{cfg : BeaconChainConfig} `{ecfg : EpochConfig} `{ocfg : OperationsConfig}.

(** ** Withdrawal requests *)
Definition processWithdrawalRequest (currentEpoch : Z) (wr : option WithdrawalRequest)
    : M (BeaconState * ExitInfo) unit :=
  match wr with
  | None => mfail errMessage
  | Some wr =>
      '(st, _) ← mget;
      let amount := wr_Amount wr in
      let isFullExitRequest := amount =? FullExitRequestAmount in
      n ← mlift (NumPendingPartialWithdrawals st);
      if (n =? PendingPartialWithdrawalsLimit) && negb isFullExitRequest then mret tt
      else
        match ValidatorIndexByPubkey st (ToBytes48 (wr_ValidatorPubkey wr)) with
        | None => mret tt
        | Some vIdx =>
            validator ← mlift (ValidatorAtIndex st vIdx);
            hasCorrectCredential ← mlift (HasExecutionWithdrawalCredentials validator);
            wc ← mlift (slice_from (WithdrawalCredentials validator) 12);
            if negb hasCorrectCredential || negb (bool_decide (wc = wr_SourceAddress wr)) then mret tt
            else if negb (IsActiveValidator validator currentEpoch) then mret tt
            else if negb (ExitEpoch validator =? FarFutureEpoch) then mret tt
            else
              matureEpoch ← mlift (Epoch.AddEpoch (ActivationEpoch validator) ShardCommitteePeriod);
              if currentEpoch <? matureEpoch then mret tt
              else
                pendingBalanceToWithdraw ← mlift (PendingBalanceToWithdraw st vIdx);
                if isFullExitRequest then
                  if pendingBalanceToWithdraw =? 0 then InitiateValidatorExit vIdx else mret tt
                else
                  let hasSufficientEffectiveBalance := EffectiveBalance validator >=? MinActivationBalance in
                  vBal ← mlift (BalanceAtIndex st vIdx);
                  let hasExcessBalance := vBal >? (MinActivationBalance +64 pendingBalanceToWithdraw) in
                  compounding ← mlift (HasCompoundingWithdrawalCredentials validator);
                  if compounding && hasSufficientEffectiveBalance && hasExcessBalance then
                    let toWithdraw := Z.min ((vBal -64 MinActivationBalance) -64 pendingBalanceToWithdraw) amount in
                    exitQueueEpoch ← onState (ExitEpochAndUpdateChurn toWithdraw);
                    withdrawableEpoch ← mlift (Epoch.SafeAddEpoch exitQueueEpoch MinValidatorWithdrawabilityDelay);
                    onState (AppendPendingPartialWithdrawal
                      (PendingPartialWithdrawal.mk vIdx toWithdraw withdrawableEpoch))
                  else mret tt
        end
  end.

(** From Electra on [ExitInfo] starts empty; before, [NumPendingPartialWithdrawals] fails. *)
Definition ProcessWithdrawalRequests (wrs : list (option WithdrawalRequest)) : M BeaconState unit :=
  st ← mget;
  currentEpoch ← mlift (ToEpoch (slot st));
  if (length wrs =? 0)%nat then mret tt
  else
    exitInfo ← mlift (if version st <? version_Electra then ExitInformation st else Ok (mkExitInfo 0 0 0));
    withExitInfo exitInfo (mfor wrs (processWithdrawalRequest currentEpoch)).

(** ** Switching to compounding credentials *)
Definition isValidSwitchToCompoundingRequest (st : BeaconState) (req : ConsolidationRequest) : gores bool :=
  match cr_SourcePubkey req, cr_TargetPubkey req with
  | Some source, Some target =>
      if negb (bool_decide (source = target)) then Ok false
      else
        match ValidatorIndexByPubkey st (ToBytes48 source) with
        | None => Ok false
        | Some srcIdx =>
            match ValidatorAtIndex st srcIdx with
            | Err _ => Ok false
            | Panic => Panic
            | OutOfFuel => OutOfFuel
            | Ok srcV =>
                let sourceAddress := cr_SourceAddress req in
                let withdrawalCreds := WithdrawalCredentials srcV in
                if negb (length withdrawalCreds =? 32)%nat || negb (length sourceAddress =? 20)%nat
                   || negb (hasSuffix withdrawalCreds sourceAddress) then Ok false
                else
                  eth1 ← HasETH1WithdrawalCredentials srcV;
                  if negb eth1 then Ok false
                  else
                    curEpoch ← ToEpoch (slot st);
                    if negb (IsActiveValidator srcV curEpoch) then Ok false
                    else Ok (ExitEpoch srcV =? FarFutureEpoch)
            end
        end
  | _, _ => Ok false
  end.

Definition queueExcessActiveBalance (idx : Z) : M BeaconState unit :=
  st ← mget;
  bal ← mlift (BalanceAtIndex st idx);
  if bal >? MinActivationBalance then
    UpdateBalancesAtIndex idx MinActivationBalance;;
    let excessBalance := bal -64 MinActivationBalance in
    st ← mget;
    val ← mlift (ValidatorAtIndex st idx);
    AppendPendingDeposit
      (PendingDeposit.mk (ToBytes48 (PublicKey val)) (WithdrawalCredentials val) excessBalance InfiniteSignature GenesisSlot)
  else mret tt.

Definition switchToCompoundingValidator (idx : Z) : M BeaconState unit :=
  st ← mget;
  v ← mlift (ValidatorAtIndex st idx);
  if (length (WithdrawalCredentials v) =? 0)%nat then mfail errMessage
  else
    UpdateValidatorAtIndex idx
      (set_withdrawalCredentials (<[0%nat := CompoundingWithdrawalPrefixByte]> (WithdrawalCredentials v)) v);;
    queueExcessActiveBalance idx.

(** electra/validator.go *)
Definition QueueEntireBalanceAndResetValidator (idx : Z) : M BeaconState unit :=
  s ← mget;
  bal ← mlift (BalanceAtIndex s idx);
  UpdateBalancesAtIndex idx 0;;
  s ← mget;
  v ← mlift (ValidatorAtIndex s idx);
  let v := set_activationEligibility FarFutureEpoch (set_effectiveBalance 0 v) in
  UpdateValidatorAtIndex idx v;;
  AppendPendingDeposit
    (PendingDeposit.mk (PublicKey v) (WithdrawalCredentials v) bal InfiniteSignature GenesisSlot).

(** ** Consolidation requests *)
Definition computeConsolidationEpochAndUpdateChurn (consolidationBalance : Z) : M BeaconState Z :=
  st ← mget;
  earliestEpoch ← mlift (readFrom version_Electra st (earliestConsolidationEpoch st));
  currentEpoch ← mlift (ToEpoch (slot st));
  let earliest := Z.max earliestEpoch (ActivationExitEpoch currentEpoch) in
  activeBal ← mlift (TotalActiveBalance st);
  perEpochConsolidationChurn ← mlift (ConsolidationChurnLimit activeBal);
  toConsume ← mlift (if earliestEpoch <? earliest then Ok perEpochConsolidationChurn
                     else readFrom version_Electra st (consolidationBalanceToConsume st));
  '(earliest, toConsume) ←
    (if consolidationBalance >? toConsume then
       let balanceToProcess := consolidationBalance -64 toConsume in
       q ← mlift (Div64 (balanceToProcess -64 1) perEpochConsolidationChurn);
       let additionalEpochs := q +64 1 in
       mret (earliest +64 additionalEpochs, toConsume +64 (additionalEpochs *64 perEpochConsolidationChurn))
     else mret (earliest, toConsume) : M BeaconState (Z * Z));
  fromVersion version_Electra
    (mmodify (λ s, set_consolidationChurn (toConsume -64 consolidationBalance) (earliestConsolidationEpoch s) s));;
  fromVersion version_Electra
    (mmodify (λ s, set_consolidationChurn (consolidationBalanceToConsume s) earliest s));;
  mret earliest.

(** The conditions on the two validators of a request that is not a switch. *)
Definition consolidationEligible (curEpoch : Z) (srcV tgtV : Validator) (sourceAddress : list Z) : gores bool :=
  srcExec ← HasExecutionWithdrawalCredentials srcV;
  if negb srcExec then Ok false
  else if negb (length (WithdrawalCredentials srcV) =? 32)%nat || negb (length sourceAddress =? 20)%nat
          || negb (hasSuffix (WithdrawalCredentials srcV) sourceAddress) then Ok false
  else
    tgtCompounding ← HasCompoundingWithdrawalCredentials tgtV;
    if negb tgtCompounding then Ok false
    else if negb (IsActiveValidator srcV curEpoch) || negb (IsActiveValidator tgtV curEpoch) then Ok false
    else if negb (ExitEpoch srcV =? FarFutureEpoch) || negb (ExitEpoch tgtV =? FarFutureEpoch) then Ok false
    else if ActivationEpoch srcV + ShardCommitteePeriod >=? two64 then Ok false
    else Ok (negb (curEpoch <? ActivationEpoch srcV + ShardCommitteePeriod)).

Definition processConsolidationRequest (curEpoch : Z) (cr : option ConsolidationRequest) : M BeaconState unit :=
  match cr with
  | None => mfail errMessage
  | Some cr =>
      st ← mget;
      switch ← mlift (isValidSwitchToCompoundingRequest st cr);
      let sourcePubkey := ToBytes48 (default [] (cr_SourcePubkey cr)) in
      let targetPubkey := ToBytes48 (default [] (cr_TargetPubkey cr)) in
      if (switch : bool) then
        match ValidatorIndexByPubkey st sourcePubkey with
        | None => mret tt
        | Some srcIdx => logError (switchToCompoundingValidator srcIdx)
        end
      else if bool_decide (sourcePubkey = targetPubkey) then mret tt
      else
        npc ← mlift (NumPendingConsolidations st);
        if npc >=? PendingConsolidationsLimit then mret tt
        else
          activeBal ← mlift (TotalActiveBalance st);
          churnLimit ← mlift (ConsolidationChurnLimit activeBal);
          if churnLimit <=? MinActivationBalance then mret tt
          else
            match ValidatorIndexByPubkey st sourcePubkey, ValidatorIndexByPubkey st targetPubkey with
            | Some srcIdx, Some tgtIdx =>
                srcV ← mlift (ValidatorAtIndex st srcIdx);
                tgtV ← mlift (ValidatorAtIndex st tgtIdx);
                eligible ← mlift (consolidationEligible curEpoch srcV tgtV (cr_SourceAddress cr));
                if negb eligible then mret tt
                else
                  orContinue (mlift (HasPendingBalanceToWithdraw st srcIdx)) (λ hasBal,
                    if (hasBal : bool) then mret tt
                    else
                      orContinue (computeConsolidationEpochAndUpdateChurn (EffectiveBalance srcV)) (λ exitEpoch,
                        UpdateValidatorAtIndex srcIdx
                          (set_exit exitEpoch (exitEpoch +64 MinValidatorWithdrawabilityDelay) srcV);;
                        AppendPendingConsolidation (PendingConsolidation.mk srcIdx tgtIdx)))
            | _, _ => mret tt
            end
  end.

Definition ProcessConsolidationRequests (reqs : list (option ConsolidationRequest)) : M BeaconState unit :=
  if (length reqs =? 0)%nat then mret tt
  else
    st ← mget;
    curEpoch ← mlift (ToEpoch (slot st));
    mfor reqs (processConsolidationRequest curEpoch).

(** ** electra/consolidations.go: pending consolidations *)
Fixpoint consolidationLoop (nextEpoch : Z) (pcs : list PendingConsolidation.t) (nextPendingConsolidation : Z)
    : M BeaconState Z :=
  match pcs with
  | [] => mret nextPendingConsolidation
  | pc :: pcs' =>
      st ← mget;
      sourceValidator ← mlift (ValidatorAtIndex st (PendingConsolidation.SourceIndex pc));
      if Slashed sourceValidator then consolidationLoop nextEpoch pcs' (nextPendingConsolidation +64 1)
      else if WithdrawableEpoch sourceValidator >? nextEpoch then mret nextPendingConsolidation
      else
        validatorBalance ← mlift (BalanceAtIndex st (PendingConsolidation.SourceIndex pc));
        let b := Z.min validatorBalance (EffectiveBalance sourceValidator) in
        DecreaseBalance (PendingConsolidation.SourceIndex pc) b;;
        IncreaseBalance (PendingConsolidation.TargetIndex pc) b;;
        consolidationLoop nextEpoch pcs' (nextPendingConsolidation +64 1)
  end.

Definition ProcessPendingConsolidations : M BeaconState unit :=
  st ← mget;
  currentEpoch ← mlift (ToEpoch (slot st));
  pcs ← mlift (PendingConsolidations st);
  next ← consolidationLoop (currentEpoch +64 1) pcs 0;
  if next >? 0 then
    rest ← mlift (slice_from pcs next);
    SetPendingConsolidations rest
  else mret tt.

(** ** electra/effective_balance_updates.go *)
Definition updateEffectiveBalanceElectra (downwardThreshold upwardThreshold balance : Z) (v : Validator) : gores Validator :=
  effectiveBalanceLimit ← ValidatorMaxEffectiveBalance v;
  if ((balance +64 downwardThreshold) <? EffectiveBalance v) || ((EffectiveBalance v +64 upwardThreshold) <? balance) then
    r ← rem balance EffectiveBalanceIncrement;
    Ok (set_effectiveBalance (Z.min (balance -64 r) effectiveBalanceLimit) v)
  else Ok v.

(** [ApplyToEveryValidator] over the balances read before; the validators before an error keep
    their update. *)
Fixpoint effectiveLoopElectra (down up : Z) (vs : list Validator) (bals : list Z) : gores unit * list Validator :=
  match vs, bals with
  | [], _ => (Ok tt, [])
  | _, [] => (Err errMessage, vs)
  | v :: vs', b :: bals' =>
      match updateEffectiveBalanceElectra down up b v with
      | Ok v' => let '(r, rest) := effectiveLoopElectra down up vs' bals' in (r, v' :: rest)
      | Err e => (Err e, vs) | Panic => (Panic, vs) | OutOfFuel => (OutOfFuel, vs)
      end
  end.
Definition applyEffectiveElectra (down up : Z) : M BeaconState unit := λ st,
  let '(r, vs) := effectiveLoopElectra down up (validators st) (balances st) in (r, set_validators vs st).
Definition ProcessEffectiveBalanceUpdatesElectra : M BeaconState unit :=
  hysteresisInc ← mlift (quo EffectiveBalanceIncrement HysteresisQuotient);
  let downwardThreshold := hysteresisInc *64 HysteresisDownwardMultiplier in
  let upwardThreshold := hysteresisInc *64 HysteresisUpwardMultiplier in
  applyEffectiveElectra downwardThreshold upwardThreshold.
End requests.
