(* ===== verification/BlockOperations.v ===== *)
(** * Voluntary exits, slashings and the participation of attesters

    core/blocks (exit.go, proposer_slashing.go, attester_slashing.go), the conditions on
    indexed attestations of proto/.../attestation_utils.go, container/slice.IntersectionUint64,
    and the participation flags of core/altair/attestation.go with the base reward of
    reward.go.  Signatures over SSZ roots are arguments ([sigOk] is what the verification of a
    signing root answers), so are the index of the proposer of the slot, which depends on
    caches, and the step that Gloas adds to a proposer slashing.  Headers and attestation data
    are values; nil messages are [None]. *)
From S2P Require Import Prelude MathHelper Primitives Config SlotTime MVSlice EpochConfig BeaconState EpochPrecompute Registry StateOperations.

(** ** core/blocks/exit.go *)
Record VoluntaryExit := mkExit { exit_Epoch : Z; exit_ValidatorIndex : Z }.

Section exits.
Context `{cfg : BeaconChainConfig} `{ecfg : EpochConfig} `{ocfg : OperationsConfig}.
(** The signature of an exit under the fork of the state, or under Capella's from Deneb on. *)
Context (sigOk : bool → VoluntaryExit → Validator → bool).

(** The sum of the activation epoch and the committee period wraps. *)
Definition verifyExitConditions (st : BeaconState) (validator : Validator) (exit : VoluntaryExit) : gores unit :=
  currentEpoch ← ToEpoch (slot st);
  if negb (IsActiveValidator validator currentEpoch) then Err errMessage
  else if negb (ExitEpoch validator =? FarFutureEpoch) then Err errMessage
  else if currentEpoch <? exit_Epoch exit then Err errMessage
  else if currentEpoch <? (ActivationEpoch validator +64 ShardCommitteePeriod) then Err errMessage
  else if version st >=? version_Electra then
    ok ← HasPendingBalanceToWithdraw st (exit_ValidatorIndex exit);
    if (ok : bool) then Err errMessage else Ok tt
  else Ok tt.

Definition VerifyExitAndSignature (validator : Validator) (st : BeaconState) (signed : option VoluntaryExit) : gores unit :=
  match signed with
  | None => Err errMessage
  | Some exit =>
      verifyExitConditions st validator exit;;
      if sigOk (version st >=? version_Deneb) exit validator then Ok tt else Err errMessage
  end.

Definition ProcessVoluntaryExits (exits : list (option VoluntaryExit)) : M (BeaconState * ExitInfo) unit :=
  mfor exits (λ exit,
    match exit with
    | None => mfail errMessage
    | Some e =>
        '(st, _) ← mget;
        val ← mlift (ValidatorAtIndex st (exit_ValidatorIndex e));
        mlift (VerifyExitAndSignature val st exit);;
        ignoreExited (InitiateValidatorExit (exit_ValidatorIndex e))
    end).
End exits.

(** ** core/blocks/proposer_slashing.go *)
Record BeaconBlockHeader := mkHeader {
  h_Slot : Z; h_ProposerIndex : Z; h_ParentRoot : Z; h_StateRoot : Z; h_BodyRoot : Z }.
#[export] Instance BeaconBlockHeader_eq_dec : EqDecision BeaconBlockHeader.
Proof. solve_decision. Defined.
Record ProposerSlashing := mkProposerSlashing { Header_1 : option BeaconBlockHeader; Header_2 : option BeaconBlockHeader }.

Section slashings.
Context `{cfg : BeaconChainConfig} `{ecfg : EpochConfig} `{ocfg : OperationsConfig}.
Context (BeaconProposerIndex : BeaconState → gores Z).

Section proposer.
Context (sigOk : BeaconState → BeaconBlockHeader → bool) (gloasStep : BeaconBlockHeader → M BeaconState unit).

Definition VerifyProposerSlashing (s : BeaconState) (slashing : ProposerSlashing) : gores unit :=
  match Header_1 slashing, Header_2 slashing with
  | Some h1, Some h2 =>
      if negb (h_Slot h1 =? h_Slot h2) then Err errMessage
      else if negb (h_ProposerIndex h1 =? h_ProposerIndex h2) then Err errMessage
      else if bool_decide (h1 = h2) then Err errMessage
      else
        proposer ← ValidatorAtIndex s (h_ProposerIndex h1);
        currentEpoch ← CurrentEpoch (slot s);
        if negb (IsSlashableValidator proposer currentEpoch) then Err errMessage
        else if sigOk s h1 && sigOk s h2 then Ok tt else Err errMessage
  | _, _ => Err errMessage
  end.

Definition processProposerSlashing (slashing : ProposerSlashing) : M (BeaconState * ExitInfo) unit :=
  match Header_1 slashing with
  | None => mpanic
  | Some h1 =>
      '(s, _) ← mget;
      (if version s >=? version_Gloas then onState (gloasStep h1) else mret tt);;
      SlashValidator BeaconProposerIndex (h_ProposerIndex h1)
  end.
Definition ProcessProposerSlashing (slashing : option ProposerSlashing) : M (BeaconState * ExitInfo) unit :=
  match slashing with
  | None => mfail errMessage
  | Some slashing =>
      '(s, _) ← mget;
      mlift (VerifyProposerSlashing s slashing);;
      processProposerSlashing slashing
  end.
Definition ProcessProposerSlashings (slashings : list (option ProposerSlashing)) : M (BeaconState * ExitInfo) unit :=
  mfor slashings ProcessProposerSlashing.
End proposer.

(** ** core/blocks/attester_slashing.go *)
Record AttestationData := mkAttestationData {
  ad_Slot : Z; ad_CommitteeIndex : Z; ad_BeaconBlockRoot : Z; ad_Source : Checkpoint; ad_Target : Checkpoint }.
Record IndexedAttestation := mkIndexed { AttestingIndices : list Z; ia_Data : AttestationData; ia_Version : Z }.

Definition CheckPointIsEqual (c1 c2 : Checkpoint) : bool :=
  (Epoch_ c1 =? Epoch_ c2) && (BeaconState.Root c1 =? BeaconState.Root c2).
Definition AttDataIsEqual (d1 d2 : AttestationData) : bool :=
  (ad_Slot d1 =? ad_Slot d2) && (ad_CommitteeIndex d1 =? ad_CommitteeIndex d2)
  && (ad_BeaconBlockRoot d1 =? ad_BeaconBlockRoot d2)
  && CheckPointIsEqual (ad_Source d1) (ad_Source d2) && CheckPointIsEqual (ad_Target d1) (ad_Target d2).

Definition IsSlashableAttestationData (data1 data2 : AttestationData) : bool :=
  let isDoubleVote := negb (AttDataIsEqual data1 data2) && (Epoch_ (ad_Target data1) =? Epoch_ (ad_Target data2)) in
  let isSurroundVote := (Epoch_ (ad_Source data1) <? Epoch_ (ad_Source data2))
                        && (Epoch_ (ad_Target data2) <? Epoch_ (ad_Target data1)) in
  isDoubleVote || isSurroundVote.

(** slice.IntersectionUint64 of two slices: the map counts in how many slices a key was seen. *)
Definition IntersectionUint64 (s0 s1 : list Z) : list Z :=
  let m := foldl (λ (m : gmap Z Z) k, <[k := 1]> m) ∅ s0 in
  (foldl (λ (acc : gmap Z Z * list Z) k,
     match acc.1 !! k with
     | Some 1 => (<[k := 2]> acc.1, acc.2 ++ [k])
     | _ => acc
     end) (m, []) s1).2.

Definition SlashableAttesterIndices (att1 att2 : IndexedAttestation) : list Z :=
  IntersectionUint64 (AttestingIndices att1) (AttestingIndices att2).

Section attester.
Context (MaxCommitteesPerSlot : Z) (sigOk : BeaconState → IndexedAttestation → bool).

Fixpoint uniquelySorted (indices : list Z) : bool :=
  match indices with
  | i :: (j :: _) as indices' => (i <? j) && uniquelySorted indices'
  | _ => true
  end.
Definition IsValidAttestationIndices (att : IndexedAttestation) : gores unit :=
  let indices := AttestingIndices att in
  let maxLength := if ia_Version att <? version_Electra then MaxValidatorsPerCommittee
                   else MaxValidatorsPerCommittee *64 MaxCommitteesPerSlot in
  if (length indices =? 0)%nat then Err errMessage
  else if len indices >? maxLength then Err errMessage
  else if negb (uniquelySorted indices) then Err errMessage
  else Ok tt.

Definition VerifyIndexedAttestation (s : BeaconState) (att : IndexedAttestation) : gores unit :=
  IsValidAttestationIndices att;;
  if sigOk s att then Ok tt else Err errMessage.

Definition VerifyAttesterSlashing (s : BeaconState) (att1 att2 : IndexedAttestation) : gores unit :=
  if negb (IsSlashableAttestationData (ia_Data att1) (ia_Data att2)) then Err errMessage
  else
    VerifyIndexedAttestation s att1;;
    VerifyIndexedAttestation s att2.

Definition processAttesterSlashing (att1 att2 : IndexedAttestation) : M (BeaconState * ExitInfo) unit :=
  let slashableIndices := merge_sort Z.le (SlashableAttesterIndices att1 att2) in
  '(s, _) ← mget;
  currentEpoch ← mlift (ToEpoch (slot s));
  slashedAny ← mfold slashableIndices false (λ slashedAny validatorIndex,
    '(s, _) ← mget;
    val ← mlift (ValidatorAtIndex s validatorIndex);
    if IsSlashableValidator val currentEpoch then
      SlashValidator BeaconProposerIndex validatorIndex;; mret true
    else mret slashedAny);
  if negb slashedAny then mfail errMessage else mret tt.

Definition ProcessAttesterSlashing (att1 att2 : IndexedAttestation) : M (BeaconState * ExitInfo) unit :=
  '(s, _) ← mget;
  mlift (VerifyAttesterSlashing s att1 att2);;
  processAttesterSlashing att1 att2.
Definition ProcessAttesterSlashings (slashings : list (IndexedAttestation * IndexedAttestation)) : M (BeaconState * ExitInfo) unit :=
  mfor slashings (λ sl, ProcessAttesterSlashing sl.1 sl.2).
End attester.
End slashings.

(** ** core/altair/attestation.go and reward.go *)
Definition AddValidatorFlag (flag flagPosition : Z) : gores Z :=
  if flagPosition >? 7 then Err errMessage else Ok (Z.lor flag (u8 (Z.shiftl 1 flagPosition))).

Section participation.
Context `{cfg : BeaconChainConfig} `{ecfg : EpochConfig} `{ocfg : OperationsConfig}.

Definition BaseRewardPerIncrement (activeBalance : Z) : M SquareRootCache Z :=
  if activeBalance =? 0 then mfail errMessage
  else
    root ← CachedSquareRoot activeBalance;
    mlift (quo (EffectiveBalanceIncrement *64 BaseRewardFactor) root).
Definition BaseRewardWithTotalBalance (s : BeaconState) (index totalBalance : Z) : M SquareRootCache Z :=
  val ← mlift (ValidatorAtIndex s index);
  increments ← mlift (quo (EffectiveBalance val) EffectiveBalanceIncrement);
  baseRewardPerInc ← BaseRewardPerIncrement totalBalance;
  mret (increments *64 baseRewardPerInc).

(** One of the three flags of a validator: [br * weight] for the proposer if it is new. *)
Definition participate (participated : bool) (br weight flagIndex flag numerator : Z) : gores (Z * Z) :=
  has ← HasValidatorFlag flag flagIndex;
  if participated && negb has then
    flag ← AddValidatorFlag flag flagIndex;
    Ok (flag, numerator +64 (br *64 weight))
  else Ok (flag, numerator).

(** [participatedFlags] is the set of flag indices mapped to true. *)
Definition participateAll (participatedFlags : gset Z) (br flag numerator : Z) : gores (Z * Z) :=
  '(flag, numerator) ← participate (bool_decide (TimelySourceFlagIndex ∈ participatedFlags)) br
      TimelySourceWeight TimelySourceFlagIndex flag numerator;
  '(flag, numerator) ← participate (bool_decide (TimelyTargetFlagIndex ∈ participatedFlags)) br
      TimelyTargetWeight TimelyTargetFlagIndex flag numerator;
  participate (bool_decide (TimelyHeadFlagIndex ∈ participatedFlags)) br
      TimelyHeadWeight TimelyHeadFlagIndex flag numerator.

Definition EpochParticipation (s : BeaconState) (indices : list Z) (epochParticipation : list Z)
    (participatedFlags : gset Z) (totalBalance : Z) : M SquareRootCache (Z * list Z) :=
  mfold indices (0, epochParticipation) (λ acc index,
    let '(numerator, participation) := acc in
    if index >=? len participation then mfail errMessage
    else
      br ← BaseRewardWithTotalBalance s index totalBalance;
      flag ← mlift (index_at participation index);
      '(flag, numerator) ← mlift (participateAll participatedFlags br flag numerator);
      mret (numerator, <[Z.to_nat index := flag]> participation)).

Definition RewardProposer (BeaconProposerIndex : BeaconState → gores Z) (proposerRewardNumerator : Z) : M BeaconState unit :=
  d ← mlift (quo ((WeightDenominator -64 ProposerWeight) *64 WeightDenominator) ProposerWeight);
  proposerReward ← mlift (quo proposerRewardNumerator d);
  s ← mget;
  i ← mlift (BeaconProposerIndex s);
  IncreaseBalance i proposerReward.

(** The state is dropped after an error, so the bytes written before it are not kept. *)
Definition SetParticipationAndRewardProposer (BeaconProposerIndex : BeaconState → gores Z) (targetEpoch : Z)
    (indices : list Z) (participatedFlags : gset Z) (totalBalance : Z) : M (BeaconState * SquareRootCache) unit :=
  '(s, c) ← mget;
  currentEpoch ← mlift (CurrentEpoch (slot s));
  if version s =? version_Phase0 then mfail errNotSupported
  else
    let current := targetEpoch =? currentEpoch in
    let bits := if current then currentEpochParticipation s else previousEpochParticipation s in
    let '(r, c') := EpochParticipation s indices bits participatedFlags totalBalance c in
    mmodify (λ '(s, _), (s, c'));;
    '(numerator, bits) ← mlift r;
    mmodify (λ '(s, c), (if current then set_participation bits (previousEpochParticipation s) s
                         else set_participation (currentEpochParticipation s) bits s, c));;
    onState (RewardProposer BeaconProposerIndex numerator).

Definition MatchingStatus (s : BeaconState) (data : AttestationData) (cp : Checkpoint) : gores (bool * bool * bool) :=
  let matchedSrc := CheckPointIsEqual (ad_Source data) cp in
  r ← BlockRoot s (Epoch_ (ad_Target data));
  let matchedTgt := r =? BeaconState.Root (ad_Target data) in
  r ← BlockRootAtSlot s (ad_Slot data);
  let matchedHead := r =? ad_BeaconBlockRoot data in
  Ok (matchedSrc, matchedTgt, matchedHead).

Definition AttestationParticipationFlagIndices (s : BeaconState) (data : AttestationData) (delay : Z) : gores (gset Z) :=
  currEpoch ← CurrentEpoch (slot s);
  let justifiedCheckpt := if Epoch_ (ad_Target data) =? currEpoch then currentJustifiedCheckpoint s
                          else previousJustifiedCheckpoint s in
  '(matchedSrc, matchedTgt, matchedHead) ← MatchingStatus s data justifiedCheckpt;
  if negb matchedSrc then Err errMessage
  else
    Ok ((if delay <=? SqrRootSlotsPerEpoch then {[TimelySourceFlagIndex]} else ∅)
        ∪ (if (matchedTgt : bool) then {[TimelyTargetFlagIndex]} else ∅)
        ∪ (if matchedHead && matchedTgt && (delay =? MinAttestationInclusionDelay) then {[TimelyHeadFlagIndex]} else ∅)).
End participation.

(** ** core/altair/block.go: sync aggregates

    The sync committee of the state is an argument ([None] for nil), and so are the parsing of
    a BLS key and the verification of the aggregate over a signing root.  The bit vector is
    the list of its bits. *)
Definition onCache {A} (m : M SquareRootCache A) : M (BeaconState * SquareRootCache) A := λ '(s, c),
  let '(r, c') := m c in (r, (s, c')).

Section sync.
Context `{cfg : BeaconChainConfig} `{ecfg : EpochConfig} `{ocfg : OperationsConfig}.
Context (BeaconProposerIndex : BeaconState → gores Z) (publicKeyFromBytes : list Z → gores unit).
Context (VerifySyncCommitteeSig : BeaconState → list (list Z) → gores unit).

Definition SyncRewards (activeBalance : Z) : M SquareRootCache (Z * Z) :=
  totalActiveIncrements ← mlift (quo activeBalance EffectiveBalanceIncrement);
  baseRewardPerInc ← BaseRewardPerIncrement activeBalance;
  let totalBaseRewards := baseRewardPerInc *64 totalActiveIncrements in
  weighted ← mlift (quo (totalBaseRewards *64 SyncRewardWeight) WeightDenominator);
  maxParticipantRewards ← mlift (quo weighted SlotsPerEpoch);
  participantReward ← mlift (quo maxParticipantRewards SyncCommitteeSize);
  proposerReward ← mlift (quo (participantReward *64 ProposerWeight) (WeightDenominator -64 ProposerWeight));
  mret (proposerReward, participantReward).

(** One bit of the aggregate, with the key of its member. *)
Definition syncMember (proposerReward participantReward : Z) (acc : list (list Z) * Z) (member : list Z * bool)
    : M BeaconState (list (list Z) * Z) :=
  let '(votedKeys, earnedProposerReward) := acc in
  let '(key, bit) := member in
  s ← mget;
  match ValidatorIndexByPubkey s (ToBytes48 key) with
  | None => mfail errMessage
  | Some vIdx =>
      if (bit : bool) then
        mlift (publicKeyFromBytes key);;
        IncreaseBalance vIdx participantReward;;
        mret (votedKeys ++ [key], earnedProposerReward +64 proposerReward)
      else
        DecreaseBalance vIdx participantReward;;
        mret (votedKeys, earnedProposerReward)
  end.

Definition processSyncAggregate (committee : option (list (list Z))) (bits : list bool)
    : M (BeaconState * SquareRootCache) (list (list Z) * Z) :=
  match committee with
  | None => mfail errMessage
  | Some committeeKeys =>
      if len bits >? len committeeKeys then mfail errMessage
      else
        '(s, _) ← mget;
        activeBalance ← mlift (TotalActiveBalance s);
        '(proposerReward, participantReward) ← onCache (SyncRewards activeBalance);
        proposerIndex ← mlift (BeaconProposerIndex s);
        '(votedKeys, earnedProposerReward) ←
          onState (mfold (zip committeeKeys bits) ([], 0) (syncMember proposerReward participantReward));
        onState (IncreaseBalance proposerIndex earnedProposerReward);;
        mret (votedKeys, earnedProposerReward)
  end.

Definition ProcessSyncAggregate (committee : option (list (list Z))) (bits : list bool)
    : M (BeaconState * SquareRootCache) Z :=
  '(votedKeys, reward) ← processSyncAggregate committee bits;
  '(s, _) ← mget;
  mlift (VerifySyncCommitteeSig s votedKeys);;
  mret reward.
Definition ProcessSyncAggregateNoVerifySig (committee : option (list (list Z))) (bits : list bool)
    : M (BeaconState * SquareRootCache) Z :=
  '(_, reward) ← processSyncAggregate committee bits;
  mret reward.
End sync.
