(* ===== verification/Ledger.v ===== *)
(** * The ledger: no operation creates money

    The balances of the validators and the amounts of the queue of pending deposits, together,
    change only by the deposits that the execution layer requests, by the withdrawals that are
    paid out, and by the pending deposits with a bad signature, which are dropped.  Excess
    balances, consolidations, exits and partial withdrawals move money or promise it, and
    never create or lose any. *)
From S2P Require Import Prelude MathHelper Primitives Config SlotTime MVSlice MerkleTrie SszMerkleize EpochConfig BeaconState EpochPrecompute Registry StateOperations Withdrawals WithdrawalTheorems Deposits DepositTheorems Requests BlockOperations.

(** ** The invariant of the queues, and the operations that move no money

    [chain_ok] is what every operation of a block or an epoch boundary keeps of the registry,
    the balances and the three queues of Electra.  Exits, withdrawal requests, registry
    updates and effective balances leave the balances and the pending deposits alone,
    whatever their outcome. *)
Section chain.
Context `{cfg : BeaconChainConfig} `{ecfg : EpochConfig} `{ocfg : OperationsConfig}.
Implicit Types s : BeaconState.

Definition validator_ok (v : Validator) : Prop := len (WithdrawalCredentials v) = 32 ∧ 0 ≤ EffectiveBalance v.

Record chain_ok s : Prop := {
  co_version : version_Electra ≤ version s;
  co_slot : is_u64 (slot s);
  co_lengths : length (balances s) = length (validators s);
  co_nonempty : 0 < len (validators s);
  co_balances : Forall (λ b, 0 ≤ b) (balances s);
  co_validators : Forall validator_ok (validators s);
  co_keys : keys_ok s;
  co_start : 0 ≤ nextWithdrawalValidatorIndex s < len (validators s);
  co_index : is_u64 (nextWithdrawalIndex s);
  co_partials : Forall (λ w, 0 ≤ PendingPartialWithdrawal.Index w < len (validators s) ∧
                             0 ≤ PendingPartialWithdrawal.Amount w) (pendingPartialWithdrawals s);
  co_partials_limit : len (pendingPartialWithdrawals s) ≤ PendingPartialWithdrawalsLimit;
  co_deposits : Forall deposit_ok (pendingDeposits s);
  co_consolidations : Forall (λ c, 0 ≤ PendingConsolidation.SourceIndex c < len (validators s) ∧
                                   0 ≤ PendingConsolidation.TargetIndex c < len (validators s)) (pendingConsolidations s);
  co_consolidations_limit : len (pendingConsolidations s) ≤ PendingConsolidationsLimit
}.

(** [s] has the money of [s0], in the same places. *)
Record same_money s0 s : Prop := {
  sm_ok : chain_ok s;
  sm_balances : balances s = balances s0;
  sm_deposits : pendingDeposits s = pendingDeposits s0;
  sm_size : len (validators s) = len (validators s0)
}.

Lemma same_money_refl s : chain_ok s → same_money s s.
Proof. by split. Qed.
Lemma same_money_trans s1 s2 s3 : same_money s1 s2 → same_money s2 s3 → same_money s1 s3.
Proof. intros H1 H2. split; [apply H2|rewrite (sm_balances _ _ H2); apply H1|rewrite (sm_deposits _ _ H2); apply H1|rewrite (sm_size _ _ H2); apply H1]. Qed.

(** Replacing a validator by one with its key. *)
Lemma update_money s0 s i v0 v : same_money s0 s → validators s !! Z.to_nat i = Some v0 →
  PublicKey v = PublicKey v0 → validator_ok v →
  same_money s0 (set_validators (<[Z.to_nat i := v]> (validators s)) s).
Proof.
  intros Hm Hv Hpk Hc. pose proof (sm_ok _ _ Hm) as Hs.
  assert (len (<[Z.to_nat i := v]> (validators s)) = len (validators s)) as Hl by (unfold len; by rewrite length_insert).
  split; [|apply Hm|apply Hm|cbn; rewrite Hl; apply Hm].
  split; cbn; rewrite ?Hl, ?length_insert; try apply Hs.
  - apply Forall_insert; [apply Hs|done].
  - intros k j Hk. destruct (co_keys s Hs k j Hk) as (? & w & Hw & <-). split; [done|]. cbn.
    destruct (decide (Z.to_nat i = Z.to_nat j)) as [Heq|Hne].
    + exists v. rewrite Heq, list_lookup_insert_eq by (by eapply lookup_lt_Some). split; [done|].
      rewrite Hpk. congruence.
    + exists w. by rewrite list_lookup_insert_ne by done.
Qed.
Lemma UpdateValidator_money s0 s i v0 v : same_money s0 s → validators s !! Z.to_nat i = Some v0 →
  PublicKey v = PublicKey v0 → validator_ok v → same_money s0 (UpdateValidatorAtIndex i v s).2.
Proof.
  intros Hm Hv Hpk Hc. unfold UpdateValidatorAtIndex. destruct (_ >=? _); [done|]. cbn. by eapply update_money.
Qed.
Lemma lookup_ok s v i : chain_ok s → validators s !! i = Some v → validator_ok v.
Proof. intros Hs Hv. by eapply Forall_lookup_1 in Hv; [|apply (co_validators s Hs)]. Qed.

Lemma churn_money s0 s a b : same_money s0 s → same_money s0 (set_exitChurn a b s).
Proof. intros [Hs ? ? ?]. split; [|done..]. destruct Hs. by split. Qed.
Lemma consolidationChurn_money s0 s a b : same_money s0 s → same_money s0 (set_consolidationChurn a b s).
Proof. intros [Hs ? ? ?]. split; [|done..]. destruct Hs. by split. Qed.

(** ** Exits *)

(** The same for the pair of a state and the [ExitInfo] of its exits. *)
Definition moneyI s0 (p : BeaconState * ExitInfo) : Prop := same_money s0 p.1.

(** [s] is [s0] but for the churn of exits. *)
Definition churned s0 s : Prop := ∃ a b, s = set_exitChurn a b s0.
Lemma churned_refl s : churned s s.
Proof. exists (exitBalanceToConsume s), (earliestExitEpoch s). by destruct s. Qed.
Lemma churned_money s0 s1 s : same_money s0 s1 → churned s1 s → same_money s0 s.
Proof. intros Hm (a & b & ->). by apply churn_money. Qed.

Lemma onState_preserves {A} Φ (m : M BeaconState A) : preserves Φ m → preserves (λ p : BeaconState * ExitInfo, Φ p.1) (onState m).
Proof. intros Hm [s x] Hs. unfold onState. pose proof (Hm s Hs) as H. by destruct (m s). Qed.
Lemma onState_post {A} (m : M BeaconState A) (Φ : BeaconState → Prop) (p : BeaconState * ExitInfo) :
  Φ (m p.1).2 → Φ (onState m p).2.1.
Proof. destruct p as [s ei]. unfold onState. cbn. by destruct (m s) as [r s']. Qed.

Lemma exitEpochAndUpdateChurn_churned s0 total b : preserves (churned s0) (exitEpochAndUpdateChurn total b).
Proof.
  unfold exitEpochAndUpdateChurn. preserve. apply preserves_modify. intros x (? & ? & ->). eexists _, _. by destruct s0.
Qed.
Lemma ExitEpochAndUpdateChurn_churned s0 b : preserves (churned s0) (ExitEpochAndUpdateChurn b).
Proof.
  unfold ExitEpochAndUpdateChurn. apply preserves_bind; [apply preserves_get|intros s].
  apply preserves_if; [apply preserves_fail|]. apply preserves_bind; [apply preserves_lift|intros total].
  apply exitEpochAndUpdateChurn_churned.
Qed.

Lemma initiateExit_money s0 churn p i : (∀ s b, preserves (churned s) (churn b)) →
  moneyI s0 p → moneyI s0 (initiateExit churn i p).2.
Proof.
  intros Hchurn. destruct p as [s ei]. intros Hm. unfold initiateExit. apply get_post. apply lift_post; [done|]. intros v Hv.
  apply list_at_inv in Hv as [_ Hv]. destruct (negb _); [done|].
  destruct (Z.ltb_spec (version s) version_Electra) as [Hver|_]; [pose proof (co_version s (sm_ok _ _ Hm)); cbn in *; lia|].
  assert (churned s (((highest ← onState (churn (EffectiveBalance v)); '(_, ei) ← mget; setInfo highest (Churn ei))
    : M (BeaconState * ExitInfo) unit) (s, ei)).2.1) as Hpre.
  { assert (preserves (λ p : BeaconState * ExitInfo, churned s p.1)
      (highest ← onState (churn (EffectiveBalance v)); '(_, ei) ← mget; setInfo highest (Churn ei))) as Hpre.
    { preserve; [apply onState_preserves, Hchurn|by intros [? ?]]. }
    apply (Hpre (s, ei)), churned_refl. }
  apply bind_post; [intros _; by eapply churned_money|]. intros [] [s1 ei1] Heq. rewrite Heq in Hpre. cbn in Hpre.
  apply get_post. pose proof (churned_money _ _ _ Hm Hpre) as Hm1. apply lift_post; [done|]. intros w _. unfold moneyI. apply onState_post.
  eapply UpdateValidator_money; [done|destruct Hpre as (? & ? & ->); done|done|]. by eapply lookup_ok in Hv; [|apply Hm].
Qed.
Lemma InitiateValidatorExit_money s0 p i : moneyI s0 p → moneyI s0 (InitiateValidatorExit i p).2.
Proof. apply initiateExit_money. intros s b. apply ExitEpochAndUpdateChurn_churned. Qed.
Lemma ignoreExited_post {S} (Φ : S → Prop) (m : M S unit) (x : S) : Φ (m x).2 → Φ (ignoreExited m x).2.
Proof. unfold ignoreExited. by destruct (m x) as [[|[]| |] s']. Qed.

Lemma ProcessVoluntaryExits_money s0 sigOk exits p : moneyI s0 p → moneyI s0 (ProcessVoluntaryExits sigOk exits p).2.
Proof.
  intros Hm. unfold ProcessVoluntaryExits. apply mfor_post; [done|]. clear. intros e [s ei] _ Hm.
  destruct e as [e|]; [|done]. apply get_post. apply lift_post; [done|]. intros v _. apply lift_post; [done|]. intros [] _.
  apply ignoreExited_post. by apply InitiateValidatorExit_money.
Qed.

(** ** Withdrawal requests *)
Lemma AppendPartial_money s0 s w : same_money s0 s → 0 ≤ PendingPartialWithdrawal.Index w < len (validators s) →
  0 ≤ PendingPartialWithdrawal.Amount w → len (pendingPartialWithdrawals s) < PendingPartialWithdrawalsLimit →
  same_money s0 (AppendPendingPartialWithdrawal w s).2.
Proof.
  intros [Hs Hb Hd Hl] Hi Ha Hlim. unfold AppendPendingPartialWithdrawal, fromVersion, mbind, M_bind, mget, mmodify.
  destruct (_ <? _); [done|]. cbn. split; [|done..]. destruct Hs. split; try done; cbn.
  - apply Forall_app. split; [done|]. by apply Forall_cons.
  - unfold len in *. rewrite length_app. simpl. lia.
Qed.

Lemma pubkey_index s k i : keys_ok s → ValidatorIndexByPubkey s k = Some i → 0 ≤ i < len (validators s).
Proof.
  intros Hk. rewrite ValidatorIndexByPubkey_map by done. intros Hi. destruct (Hk k i Hi) as (? & v & Hv & _).
  apply lookup_lt_Some in Hv. unfold len. lia.
Qed.

Lemma processWithdrawalRequest_money s0 epoch wr p : moneyI s0 p → (∀ w, wr = Some w → 0 ≤ wr_Amount w) →
  moneyI s0 (processWithdrawalRequest epoch wr p).2.
Proof.
  destruct p as [s ei]. intros Hm Hamt. unfold processWithdrawalRequest. destruct wr as [wr|]; [|done].
  specialize (Hamt wr eq_refl). pose proof (sm_ok _ _ Hm) as Hs. cbn [fst] in Hs.
  apply get_post. apply lift_post; [done|]. intros n Hn. unfold NumPendingPartialWithdrawals, readFrom in Hn.
  destruct (_ <? _) in Hn; [done|]. simplify_eq. mwalk; try done; try by apply InitiateValidatorExit_money.
  rename select (_ && negb _ = false) into Hlim. rewrite andb_true_r in Hlim. apply Z.eqb_neq in Hlim.
  pose proof (co_partials_limit s Hs). rename select (ValidatorIndexByPubkey _ _ = _) into Hi.
  apply pubkey_index in Hi; [|apply Hs]. set (w := _ `min` _).
  assert (churned s (onState (S := ExitInfo) (ExitEpochAndUpdateChurn w) (s, ei)).2.1) as Hch.
  { apply onState_post. apply ExitEpochAndUpdateChurn_churned, churned_refl. }
  apply bind_post; [intros _; by eapply churned_money|]. intros q [s1 ei1] Heq. rewrite Heq in Hch. cbn in Hch.
  pose proof (churned_money _ _ _ Hm Hch) as Hm1. apply lift_post; [done|]. intros e _. unfold moneyI. apply onState_post.
  destruct Hch as (? & ? & ->). apply AppendPartial_money; [done|done|cbn|cbn; lia].
  unfold w. apply Z.min_glb; [|done]. apply u64_range.
Qed.
Lemma ProcessWithdrawalRequests_money s wrs : chain_ok s → (∀ w, Some w ∈ wrs → 0 ≤ wr_Amount w) →
  same_money s (ProcessWithdrawalRequests wrs s).2.
Proof.
  intros Hs Hw. pose proof (same_money_refl s Hs) as Hm. unfold ProcessWithdrawalRequests. apply get_post. apply lift_post; [done|].
  intros e _. destruct (_ =? _)%nat; [done|]. apply lift_post; [done|]. intros ei _. unfold withExitInfo.
  pose proof (mfor_post (moneyI s) wrs (processWithdrawalRequest e) (s, ei) Hm) as Hrun.
  destruct (mfor wrs _ (s, ei)) as [r [s1 ei1]]. apply Hrun. intros x p Hx Hp. apply processWithdrawalRequest_money; [done|].
  intros w ->. by apply Hw.
Qed.

(** ** Registry updates *)
Lemma modifyValidator_money s0 f i : (∀ v, PublicKey (f v) = PublicKey v ∧ WithdrawalCredentials (f v) = WithdrawalCredentials v ∧
  EffectiveBalance (f v) = EffectiveBalance v) → preserves (same_money s0) (modifyValidator f i).
Proof.
  intros Hf s Hm. unfold modifyValidator. apply get_post. apply lift_post; [done|]. intros v Hv. apply list_at_inv in Hv as [_ Hv].
  destruct (Hf v) as (Hk & Hc & He). eapply UpdateValidator_money; [done|done|done|].
  unfold validator_ok. rewrite Hc, He. by eapply lookup_ok in Hv; [|apply Hm].
Qed.
Lemma ejectElectra_money s0 i : preserves (same_money s0) (ejectElectra i).
Proof.
  intros s Hm. unfold ejectElectra.
  pose proof (ignoreExited_post (moneyI s0) (InitiateValidatorExit i) (s, mkExitInfo 0 0 0)
    (InitiateValidatorExit_money s0 (s, mkExitInfo 0 0 0) i Hm)) as H.
  by destruct (ignoreExited _ _) as [r [s1 ei]].
Qed.
Lemma ProcessRegistryUpdatesElectra_money s : chain_ok s → same_money s (ProcessRegistryUpdatesElectra s).2.
Proof.
  intros Hs. assert (preserves (same_money s) ProcessRegistryUpdatesElectra) as Hp; [|by apply Hp, same_money_refl].
  unfold ProcessRegistryUpdatesElectra.
  apply preserves_bind; [apply preserves_get|intros st]. apply preserves_bind; [apply preserves_lift|intros epoch].
  apply preserves_bind; [by apply preserves_mfor; intros i; apply modifyValidator_money|intros _].
  apply preserves_bind; [by apply preserves_mfor; intros i; apply ejectElectra_money|intros _].
  by apply preserves_mfor; intros i; apply modifyValidator_money.
Qed.

(** ** Effective balances *)
Definition sameKey (v v' : Validator) : Prop :=
  PublicKey v' = PublicKey v ∧ (validator_ok v → validator_ok v').
Lemma validators_money s vs : chain_ok s → Forall2 sameKey (validators s) vs → same_money s (set_validators vs s).
Proof.
  intros Hs Hvs. assert (length vs = length (validators s)) as Hl by (symmetry; by eapply Forall2_length).
  assert (len vs = len (validators s)) as Hl' by (unfold len; by rewrite Hl).
  split; [|done|done|exact Hl']. destruct Hs. split; try done; cbn; rewrite ?Hl, ?Hl'; try done.
  - apply Forall_lookup_2. intros i v' Hv'. destruct (Forall2_lookup_r _ _ _ _ _ Hvs Hv') as (v & Hv & _ & Hok).
    apply Hok. by eapply Forall_lookup_1 in Hv.
  - intros k i Hk. destruct (co_keys0 k i Hk) as (? & v & Hv & <-). split; [done|].
    destruct (Forall2_lookup_l _ _ _ _ _ Hvs Hv) as (v' & Hv' & Hpk & _). exists v'. split; [done|by rewrite Hpk].
Qed.
Lemma sameKey_refl v : sameKey v v.
Proof. done. Qed.
Lemma effectiveLoopElectra_keys down up vs bals : (∀ v x, ValidatorMaxEffectiveBalance v = Ok x → 0 ≤ x) →
  Forall2 sameKey vs (effectiveLoopElectra down up vs bals).2.
Proof.
  intros Hmax. revert bals. induction vs as [|v vs IH]; intros bals; [constructor|].
  assert (Forall2 sameKey (v :: vs) (v :: vs)) as Hrefl by (apply Forall_Forall2_diag, Forall_true; apply sameKey_refl).
  destruct bals as [|b bals]; [done|]. cbn [effectiveLoopElectra].
  destruct (updateEffectiveBalanceElectra down up b v) as [v'| | |] eqn:Hv; [|done..].
  specialize (IH bals). destruct (effectiveLoopElectra down up vs bals) as [r rest]. constructor; [|done].
  unfold updateEffectiveBalanceElectra in Hv. destruct (ValidatorMaxEffectiveBalance v) as [x| | |] eqn:Hx; [|done..].
  apply Hmax in Hx. cbn in Hv. destruct (_ || _) in Hv; [|by simplify_eq]. destruct (rem b _) as [m| | |]; [|done..]. cbn in Hv. simplify_eq.
  split; [done|]. intros [Hc He]. split; [done|]. cbn. apply Z.min_glb; [apply u64_range|done].
Qed.
Lemma ProcessEffectiveBalanceUpdatesElectra_money s : chain_ok s →
  (∀ v x, ValidatorMaxEffectiveBalance v = Ok x → 0 ≤ x) → same_money s (ProcessEffectiveBalanceUpdatesElectra s).2.
Proof.
  intros Hs Hmax. unfold ProcessEffectiveBalanceUpdatesElectra. apply lift_post; [by apply same_money_refl|]. intros h _.
  unfold applyEffectiveElectra. pose proof (effectiveLoopElectra_keys (h *64 HysteresisDownwardMultiplier)
    (h *64 HysteresisUpwardMultiplier) (validators s) (balances s) Hmax) as Hk.
  destruct (effectiveLoopElectra _ _ _ _) as [r vs]. by apply validators_money.
Qed.
End chain.

Section ledger.
Context `{cfg : BeaconChainConfig} `{ecfg : EpochConfig} `{ocfg : OperationsConfig} {wc : WithdrawalConfig}.
Implicit Types s : BeaconState.

(** The validators there are or can be once the queue is processed. *)
Definition size s : Z := len (validators s) + len (pendingDeposits s).

(** From [s] to [s'] the ledger changed by [d], and at most [q] entries were added. *)
Record moves s (d q : Z) s' : Prop := {
  mv_ok : chain_ok s';
  mv_ledger : ledger s' = ledger s + d;
  mv_size : size s' ≤ size s + q
}.

Lemma moves_refl s : chain_ok s → moves s 0 0 s.
Proof. intros Hs. split; [done|lia|lia]. Qed.
Lemma moves_trans s1 s2 s3 d1 d2 q1 q2 : moves s1 d1 q1 s2 → moves s2 d2 q2 s3 → moves s1 (d1 + d2) (q1 + q2) s3.
Proof. intros [_ Hl1 Hq1] [Hs Hl2 Hq2]. split; [done|lia|lia]. Qed.
Lemma moves_weaken s d q q' s' : q ≤ q' → moves s d q s' → moves s d q' s'.
Proof. intros Hq [? ? ?]. split; [done|done|lia]. Qed.
Lemma same_money_moves s s' : same_money s s' → moves s 0 0 s'.
Proof. intros [Hs Hb Hd Hl]. split; [done|unfold ledger; rewrite Hb, Hd; lia|unfold size; rewrite Hl, Hd; lia]. Qed.

(** A loop whose steps that succeed move [d x] and queue at most one entry. *)
Lemma mfor_moves {A} (d : A → Z) (xs : list A) (body : A → M BeaconState unit) s s' :
  (∀ x, x ∈ xs → 0 ≤ d x) →
  (∀ x s s', x ∈ xs → chain_ok s → ledger s + d x < two64 → body x s = (Ok tt, s') → moves s (d x) 1 s') →
  chain_ok s → ledger s + sumBy d xs < two64 → mfor xs body s = (Ok tt, s') → moves s (sumBy d xs) (len xs) s'.
Proof.
  intros Hd Hbody. revert s. induction xs as [|x xs IH]; intros s Hs Hroom Hrun.
  { cbn in Hrun. unfold mret, M_ret in Hrun. simplify_eq. by apply moves_refl. }
  rewrite sumBy_cons in *. assert (0 ≤ sumBy d xs) by (apply sumBy_nonneg, Forall_forall; intros y Hy; apply Hd; set_solver).
  cbn [mfor] in Hrun. apply M_bind_Ok_inv in Hrun as ([] & s1 & Hx & Hrun).
  assert (moves s (d x) 1 s1) as H1 by (apply Hbody; [set_solver|done|lia|done]).
  replace (len (x :: xs)) with (1 + len xs) by (unfold len; simpl; lia). eapply moves_trans; [exact H1|].
  apply IH; [set_solver|intros; apply Hbody; set_solver|apply H1|rewrite (mv_ledger _ _ _ _ H1); lia|done].
Qed.

(** ** Room in the balances *)
Lemma ledger_room s : chain_ok s → sumZ (balances s) ≤ ledger s ∧ 0 ≤ amounts (pendingDeposits s).
Proof. intros Hs. pose proof (amounts_nonneg _ (co_deposits s Hs)). unfold ledger. lia. Qed.
Lemma balances_u64 s : chain_ok s → ledger s < two64 → Forall is_u64 (balances s).
Proof.
  intros Hs Hroom. destruct (ledger_room s Hs). apply Forall_lookup_2. intros i b Hb.
  pose proof (sumZ_lookup_le _ _ _ (co_balances s Hs) Hb). pose proof (Forall_lookup_1 _ _ _ _ (co_balances s Hs) Hb) as Hb0.
  cbv beta in Hb0. unfold is_u64. lia.
Qed.

(** Replacing the balances and the queue of deposits. *)
Lemma chain_ok_money s bals q : chain_ok s → length bals = length (balances s) → Forall (λ b, 0 ≤ b) bals →
  Forall deposit_ok q → chain_ok (set_pendingDeposits q (set_balances bals s)).
Proof. intros [] Hl Hb Hq. split; try done. cbn. congruence. Qed.

(** ** Excess balances *)
Lemma queueExcess_moves s i : chain_ok s → ledger s < two64 → 0 ≤ i < len (validators s) →
  moves s 0 1 (queueExcessActiveBalance i s).2.
Proof.
  intros Hs Hroom Hi. pose proof wc_min as Hmin. pose proof (moves_weaken s 0 0 1 s ltac:(lia) (moves_refl s Hs)) as Hm.
  unfold queueExcessActiveBalance. apply get_post. apply lift_post; [done|]. intros bal Hbal.
  apply list_at_inv in Hbal as [Hib Hbal]. pose proof (Forall_lookup_1 _ _ _ _ (balances_u64 s Hs Hroom) Hbal) as Hbu.
  rewrite Z.gtb_ltb. destruct (Z.ltb_spec MinActivationBalance bal) as [Hgt|]; [|done].
  destruct (lookup_lt_is_Some_2 (validators s) (Z.to_nat i)) as [v Hv]; [unfold len in Hi; lia|].
  unfold mbind, M_bind, UpdateBalancesAtIndex. rewrite Z.geb_leb. destruct (Z.leb_spec (len (balances s)) i); [lia|].
  unfold mget, mlift, ValidatorAtIndex. cbn [validators set_balances].
  change (validators (set_balances _ s)) with (validators s). rewrite (list_at_Ok _ _ v) by (done || lia).
  unfold AppendPendingDeposit, fromVersion, mbind, M_bind, mget, mmodify.
  change (version (set_balances _ s)) with (version s).
  destruct (Z.ltb_spec (version s) version_Electra); [pose proof (co_version s Hs); lia|]. cbv beta iota.
  unfold is_u64 in Hbu. rewrite (u64_small (bal - MinActivationBalance)) by (unfold is_u64; lia).
  set (bals := <[_ := _]> (balances s)). set (pd := PendingDeposit.mk _ _ _ _ _).
  change (snd (Ok tt, ?x)) with x. change (pendingDeposits (set_balances bals s)) with (pendingDeposits s).
  split.
  - apply chain_ok_money; [done|apply length_insert|apply Forall_insert; [apply Hs|lia]|].
    apply Forall_app. split; [apply Hs|]. apply Forall_cons. split; [|done]. split; cbn; [unfold is_u64; lia|].
    by eapply lookup_ok in Hv as [? _].
  - unfold ledger. cbn [balances pendingDeposits set_balances set_pendingDeposits]. unfold bals.
    rewrite (sumZ_insert _ _ bal), amounts_app by done.
    change (amounts [pd]) with (bal - MinActivationBalance + 0). lia.
  - unfold size. cbn [validators pendingDeposits set_balances set_pendingDeposits].
    change (validators (set_pendingDeposits _ _)) with (validators s). unfold len. rewrite length_app. simpl. lia.
Qed.

Lemma switch_moves s i : chain_ok s → ledger s < two64 → 0 ≤ i < len (validators s) →
  moves s 0 1 (switchToCompoundingValidator i s).2.
Proof.
  intros Hs Hroom Hi. pose proof (moves_weaken s 0 0 1 s ltac:(lia) (moves_refl s Hs)) as Hm.
  unfold switchToCompoundingValidator. apply get_post. apply lift_post; [done|]. intros v Hv. apply list_at_inv in Hv as [_ Hv].
  destruct (_ =? _)%nat; [done|]. pose proof (lookup_ok _ _ _ Hs Hv) as [Hc He].
  set (v' := set_withdrawalCredentials _ v).
  assert (same_money s (UpdateValidatorAtIndex i v' s).2) as H1.
  { eapply UpdateValidator_money; [by apply same_money_refl|done|done|]. split; [|done]. cbn. unfold len in *. by rewrite length_insert. }
  apply bind_post; [intros _; by apply (moves_weaken _ _ 0), same_money_moves|]. intros [] s1 Heq. rewrite Heq in H1. cbn in H1.
  apply same_money_moves in H1 as H2. change 0 with (0 + 0). change 1 with (0 + 1). eapply moves_trans; [exact H2|].
  apply queueExcess_moves; [apply H1|rewrite (mv_ledger _ _ _ _ H2); lia|rewrite (sm_size _ _ H1); done].
Qed.

(** ** Consolidation requests *)
Definition consolidationChurned s0 s : Prop := ∃ a b, s = set_consolidationChurn a b s0.
Lemma computeConsolidation_churned s0 b : preserves (consolidationChurned s0) (computeConsolidationEpochAndUpdateChurn b).
Proof.
  unfold computeConsolidationEpochAndUpdateChurn.
  preserve; apply preserves_modify; intros x (? & ? & ->); eexists _, _; by destruct s0.
Qed.

Lemma AppendConsolidation_money s0 s c : same_money s0 s → 0 ≤ PendingConsolidation.SourceIndex c < len (validators s) →
  0 ≤ PendingConsolidation.TargetIndex c < len (validators s) → len (pendingConsolidations s) < PendingConsolidationsLimit →
  same_money s0 (AppendPendingConsolidation c s).2.
Proof.
  intros [Hs Hb Hd Hl] Hi Ht Hlim. unfold AppendPendingConsolidation, fromVersion, mbind, M_bind, mget, mmodify.
  destruct (_ <? _); [done|]. cbn. split; [|done..]. destruct Hs. split; try done; cbn.
  - apply Forall_app. split; [done|]. by apply Forall_cons.
  - unfold len in *. rewrite length_app. simpl. lia.
Qed.

Lemma logError_post {St} (Φ : St → Prop) (m : M St unit) (x : St) : Φ (m x).2 → Φ (logError m x).2.
Proof. unfold logError. by destruct (m x) as [[] x']. Qed.
Lemma orContinue_post {St A} (Φ : St → Prop) (m : M St A) (k : A → M St unit) (x : St) :
  (is_ok (m x).1 = false → Φ (m x).2) → (∀ a x', m x = (Ok a, x') → Φ (k a x').2) → Φ (orContinue m k x).2.
Proof. intros Hfail Hk. unfold orContinue. destruct (m x) as [[] x']; auto. Qed.

(** The last steps of a request that is accepted. *)
Lemma consolidate_money s src tgt srcV : chain_ok s → validators s !! Z.to_nat src = Some srcV →
  0 ≤ src < len (validators s) → 0 ≤ tgt < len (validators s) → len (pendingConsolidations s) < PendingConsolidationsLimit →
  same_money s (orContinue (computeConsolidationEpochAndUpdateChurn (EffectiveBalance srcV)) (λ exitEpoch,
    UpdateValidatorAtIndex src (set_exit exitEpoch (exitEpoch +64 MinValidatorWithdrawabilityDelay) srcV);;
    AppendPendingConsolidation (PendingConsolidation.mk src tgt)) s).2.
Proof.
  intros Hs Hv Hi Ht Hlim. pose proof (same_money_refl s Hs) as Hm.
  assert (consolidationChurned s (computeConsolidationEpochAndUpdateChurn (EffectiveBalance srcV) s).2) as Hch.
  { apply computeConsolidation_churned. eexists (consolidationBalanceToConsume s), (earliestConsolidationEpoch s). by destruct s. }
  apply orContinue_post; [intros _; destruct Hch as (? & ? & ->); by apply consolidationChurn_money|].
  intros e s1 Heq. rewrite Heq in Hch. destruct Hch as (a & b & Hs1). cbn in Hs1. subst s1.
  pose proof (consolidationChurn_money s s a b Hm) as Hm1. set (v' := set_exit _ _ _).
  assert (same_money s (UpdateValidatorAtIndex src v' (set_consolidationChurn a b s)).2) as Hm2.
  { eapply UpdateValidator_money; [done|exact Hv|done|]. by eapply lookup_ok in Hv. }
  apply bind_post; [by intros _|]. intros [] s2 Heq2. rewrite Heq2 in Hm2. cbn in Hm2.
  apply AppendConsolidation_money; [done|cbn; rewrite (sm_size _ _ Hm2); done|cbn; rewrite (sm_size _ _ Hm2); done|].
  unfold UpdateValidatorAtIndex in Heq2. destruct (_ >=? _); [done|]. simplify_eq. done.
Qed.

Lemma processConsolidationRequest_moves s epoch cr : chain_ok s → ledger s < two64 →
  moves s 0 1 (processConsolidationRequest epoch cr s).2.
Proof.
  intros Hs Hroom. pose proof (moves_weaken s 0 0 1 s ltac:(lia) (moves_refl s Hs)) as Hm.
  unfold processConsolidationRequest. destruct cr as [cr|]; [|done]. apply get_post. apply lift_post; [done|]. intros sw _. cbv beta.
  destruct sw.
  { destruct (ValidatorIndexByPubkey _ _) as [i|] eqn:Hi; [|done]. apply logError_post, switch_moves; [done..|].
    eapply pubkey_index; [apply Hs|done]. }
  destruct (bool_decide _); [done|]. apply lift_post; [done|]. intros n Hn. unfold NumPendingConsolidations, readFrom in Hn.
  destruct (_ <? _) in Hn; [done|]. simplify_eq. rewrite Z.geb_leb.
  destruct (Z.leb_spec PendingConsolidationsLimit (len (pendingConsolidations s))) as [|Hlim]; [done|].
  apply lift_post; [done|]. intros activeBal _. apply lift_post; [done|]. intros churn _. destruct (_ <=? _); [done|].
  destruct (ValidatorIndexByPubkey _ (ToBytes48 (default [] (cr_SourcePubkey cr)))) as [src|] eqn:Hsrc; [|done].
  destruct (ValidatorIndexByPubkey _ (ToBytes48 (default [] (cr_TargetPubkey cr)))) as [tgt|] eqn:Htgt; [|done].
  apply pubkey_index in Hsrc; [|apply Hs]. apply pubkey_index in Htgt; [|apply Hs].
  apply lift_post; [done|]. intros srcV Hv. apply list_at_inv in Hv as [_ Hv]. apply lift_post; [done|]. intros tgtV _.
  apply lift_post; [done|]. intros el _. destruct (negb _); [done|]. apply orContinue_post; [by intros _; unfold mlift; destruct (HasPendingBalanceToWithdraw _ _)|].
  intros hasBal s1 Heq. unfold mlift in Heq. simplify_eq. destruct hasBal; [done|].
  apply (moves_weaken _ _ 0); [lia|]. by apply same_money_moves, consolidate_money.
Qed.

Lemma sumBy_zero {A} (l : list A) : sumBy (λ _, 0) l = 0.
Proof. induction l as [|x l IH]; [done|]. rewrite sumBy_cons. lia. Qed.
Lemma ProcessConsolidationRequests_moves s reqs s' : chain_ok s → ledger s < two64 →
  ProcessConsolidationRequests reqs s = (Ok tt, s') → moves s 0 (len reqs) s'.
Proof.
  intros Hs Hroom. unfold ProcessConsolidationRequests. destruct (_ =? _)%nat.
  { unfold mret, M_ret. intros. simplify_eq. apply (moves_weaken _ _ 0); [unfold len; lia|by apply moves_refl]. }
  intros (? & ? & ? & (epoch & s2 & He & Hrun)%M_bind_Ok_inv)%M_bind_Ok_inv. unfold mget, mlift in *. simplify_eq.
  rewrite <-(sumBy_zero reqs). eapply mfor_moves; [done| |done|rewrite sumBy_zero; lia|exact Hrun].
  intros req t t' _ Ht Hroom' Hx. change t' with ((Ok tt, t') : gores unit * BeaconState).2. rewrite <-Hx.
  apply processConsolidationRequest_moves; [done|lia].
Qed.

(** ** Pending consolidations *)
Lemma IncreaseBalance_chain s i a : chain_ok s → 0 ≤ i < len (validators s) → is_u64 a →
  sumZ (balances s) + a < two64 → len (validators s) < two63 →
  IncreaseBalance i a s = (Ok tt, creditState i a s).
Proof. intros [] Hi Ha Hroom Hl. by apply IncreaseBalance_Ok. Qed.

(** What the loop leaves: other balances with the same sum. *)
Definition rebalanced s s' : Prop := ∃ bals, s' = set_balances bals s ∧ length bals = length (balances s) ∧
  Forall (λ b, 0 ≤ b) bals ∧ sumZ bals = sumZ (balances s).
Lemma rebalanced_refl s : chain_ok s → rebalanced s s.
Proof. intros Hs. exists (balances s). rewrite set_balances_eta. split_and!; [done..|apply Hs|done]. Qed.
Lemma rebalanced_trans s1 s2 s3 : rebalanced s1 s2 → rebalanced s2 s3 → rebalanced s1 s3.
Proof.
  intros (b1 & -> & Hl1 & Hp1 & Hs1) (b2 & -> & Hl2 & Hp2 & Hs2). exists b2. split_and!; [by destruct s1| |done|].
  - rewrite Hl2. exact Hl1.
  - rewrite Hs2. exact Hs1.
Qed.
Lemma rebalanced_ok s s' : chain_ok s → rebalanced s s' → chain_ok s' ∧ ledger s' = ledger s.
Proof.
  intros Hs (bals & -> & Hl & Hp & Hsum). split; [|unfold ledger; rewrite <-Hsum; done].
  destruct Hs. split; try done. cbn. congruence.
Qed.

Lemma consolidate_rebalanced s i j v b : chain_ok s → ledger s < two64 → len (validators s) < two63 →
  validators s !! Z.to_nat i = Some v → balances s !! Z.to_nat i = Some b → 0 ≤ i → 0 ≤ j < len (validators s) →
  ∃ s1 s2, DecreaseBalance i (Z.min b (EffectiveBalance v)) s = (Ok tt, s1) ∧
    IncreaseBalance j (Z.min b (EffectiveBalance v)) s1 = (Ok tt, s2) ∧ rebalanced s s2.
Proof.
  intros Hs Hroom Hsize Hv Hb Hi Hj. pose proof (lookup_ok _ _ _ Hs Hv) as [_ He]. set (a := Z.min b _).
  pose proof (Forall_lookup_1 _ _ _ _ (balances_u64 s Hs Hroom) Hb) as Hbu. unfold is_u64 in Hbu.
  destruct (ledger_room s Hs). assert (0 ≤ a ≤ b) as Ha by (unfold a; lia).
  set (s1 := set_balances (<[Z.to_nat i := b - a]> (balances s)) s).
  assert (sumZ (balances s1) = sumZ (balances s) - a) as Hsum1 by (cbn; rewrite (sumZ_insert _ _ b) by done; lia).
  assert (length (balances s1) = length (balances s)) as Hl1 by (cbn; apply length_insert).
  assert (Forall (λ b, 0 ≤ b) (balances s1)) as Hp1 by (cbn; apply Forall_insert; [apply Hs|lia]).
  assert (chain_ok s1) as Hs1 by (destruct Hs; split; try done; cbn; rewrite length_insert; done).
  assert (deposit_state s1) as Hds by (destruct Hs1; by split).
  exists s1, (creditState j a s1). split_and!.
  - apply DecreaseBalance_Ok; [done|done|lia|lia].
  - apply IncreaseBalance_chain; [done|done|unfold is_u64; lia|lia|done].
  - destruct (creditState_ok s1 j a Hds Hj) as [Hds2 Hsum2]; [lia|]. eexists. split; [unfold creditState; by destruct s|].
    split_and!; [by rewrite length_insert|apply Hds2|]. transitivity (sumZ (balances (creditState j a s1))); [done|lia].
Qed.

Lemma consolidationLoop_rebalanced ne pcs next s n s' : chain_ok s → ledger s < two64 → len (validators s) < two63 →
  Forall (λ c, 0 ≤ PendingConsolidation.SourceIndex c < len (validators s) ∧
               0 ≤ PendingConsolidation.TargetIndex c < len (validators s)) pcs →
  consolidationLoop ne pcs next s = (Ok n, s') → rebalanced s s'.
Proof.
  intros Hs Hroom Hsize Hpcs. revert s Hs Hroom Hsize Hpcs next. induction pcs as [|pc pcs IH]; intros s Hs Hroom Hsize Hpcs next.
  { cbn. unfold mret, M_ret. intros. simplify_eq. by apply rebalanced_refl. }
  apply Forall_cons in Hpcs as [[Hi Hj] Hpcs]. cbn [consolidationLoop]. rewrite (M_bind_Ok _ _ _ s s) by done.
  destruct (lookup_lt_is_Some_2 (validators s) (Z.to_nat (PendingConsolidation.SourceIndex pc))) as [v Hv]; [unfold len in *; lia|].
  destruct (lookup_lt_is_Some_2 (balances s) (Z.to_nat (PendingConsolidation.SourceIndex pc))) as [b Hb];
    [rewrite (co_lengths s Hs); unfold len in *; lia|].
  unfold ValidatorAtIndex, BalanceAtIndex. rewrite (list_at_Ok _ _ v), (list_at_Ok _ _ b) by (done || lia).
  rewrite (M_bind_Ok _ _ _ v s) by done. destruct (Slashed v); [by apply IH|].
  destruct (_ >? _); [unfold mret, M_ret; intros; simplify_eq; by apply rebalanced_refl|].
  rewrite (M_bind_Ok _ _ _ b s) by done. cbv beta zeta.
  destruct (consolidate_rebalanced s (PendingConsolidation.SourceIndex pc) (PendingConsolidation.TargetIndex pc) v b)
    as (s1 & s2 & H1 & H2 & Hreb); [done..|lia|done|].
  rewrite (M_bind_Ok _ _ _ _ _ H1), (M_bind_Ok _ _ _ _ _ H2). intros Hrun. destruct (rebalanced_ok s s2 Hs Hreb) as [Hs2 Hl2].
  assert (validators s2 = validators s) as Hvs by (by destruct Hreb as (? & -> & _)).
  eapply rebalanced_trans; [exact Hreb|]. eapply IH; [done|lia|by rewrite Hvs|by rewrite Hvs|exact Hrun].
Qed.

Lemma ProcessPendingConsolidations_moves s s' : chain_ok s → ledger s < two64 → size s < two63 →
  ProcessPendingConsolidations s = (Ok tt, s') → moves s 0 0 s'.
Proof.
  intros Hs Hroom Hsize. assert (0 ≤ len (pendingDeposits s)) by (unfold len; lia). unfold size in Hsize.
  unfold ProcessPendingConsolidations. intros (? & ? & Hg & Hrun)%M_bind_Ok_inv. unfold mget in Hg. simplify_eq.
  apply M_bind_Ok_inv in Hrun as (epoch & ? & He & Hrun). unfold mlift in He. simplify_eq.
  apply M_bind_Ok_inv in Hrun as (pcs & ? & Hpcs & Hrun). unfold mlift, PendingConsolidations, readFrom in Hpcs.
  destruct (_ <? _) in Hpcs; [done|]. simplify_eq. apply M_bind_Ok_inv in Hrun as (n & s1 & Hloop & Hrun).
  pose proof (consolidationLoop_rebalanced _ _ _ _ _ _ Hs Hroom ltac:(lia) (co_consolidations _ Hs) Hloop) as Hreb.
  destruct (rebalanced_ok _ _ Hs Hreb) as [Hs1 Hl1]. destruct Hreb as (bals & Hs1' & _).
  assert (size s1 = size x) as Hsz by (by rewrite Hs1').
  destruct (n >? 0); [|unfold mret, M_ret in Hrun; simplify_eq; split; [done|lia|lia]].
  apply M_bind_Ok_inv in Hrun as (rest & ? & Hrest & Hrun). unfold mlift, slice_from in Hrest.
  destruct (_ >? _) in Hrest; [done|]. simplify_eq. unfold SetPendingConsolidations, fromVersion, mbind, M_bind, mget, mmodify in Hrun.
  destruct (_ <? _) in Hrun; [done|]. simplify_eq. set (rest := drop _ _). split.
  - assert (Forall (λ c, 0 ≤ PendingConsolidation.SourceIndex c < len (validators x) ∧
      0 ≤ PendingConsolidation.TargetIndex c < len (validators x)) rest) by apply Forall_drop, Hs.
    pose proof (co_consolidations_limit _ Hs). destruct Hs1. split; try done. cbn. unfold rest, len in *. rewrite length_drop. lia.
  - rewrite <-Hl1. unfold ledger. cbn. lia.
  - rewrite <-Hsz. unfold size. cbn. lia.
Qed.

(** ** Deposit requests *)
Definition requested (req : option DepositRequest) : Z :=
  match req with Some (mkDepositRequest data _) => DepositData.Amount data | None => 0 end.
Definition request_ok (req : option DepositRequest) : Prop :=
  match req with
  | Some (mkDepositRequest data _) => is_u64 (DepositData.Amount data) ∧ len (DepositData.WithdrawalCredentials data) = 32
  | None => True
  end.
Lemma requested_nonneg req : request_ok req → 0 ≤ requested req.
Proof. destruct req as [[data index]|]; [|done]. intros [[? _] _]. done. Qed.

Lemma ProcessDepositRequests_moves s reqs s' : chain_ok s → Forall request_ok reqs →
  ledger s + sumBy requested reqs < two64 → ProcessDepositRequests reqs s = (Ok tt, s') →
  moves s (sumBy requested reqs) (len reqs) s'.
Proof.
  intros Hs Hreqs Hroom Hrun. eapply mfor_moves; [| |done|done|exact Hrun].
  { intros x Hx. apply requested_nonneg. by eapply Forall_forall in Hreqs. }
  clear s s' Hs Hroom Hrun. intros req s s' Hreq Hs Hroom. assert (request_ok req) as Hok by (by eapply Forall_forall in Hreqs).
  unfold processDepositRequest. rewrite (M_bind_Ok _ _ _ s s) by done. unfold DepositRequestsStartIndex, readFrom.
  destruct (Z.ltb_spec (version s) version_Electra) as [Hver|_]; [pose proof (co_version s Hs); lia|].
  rewrite (M_bind_Ok _ _ _ (depositRequestsStartIndex s) s) by done. destruct req as [[data index]|]; [|done].
  intros ([] & s1 & H1 & Hrun)%M_bind_Ok_inv.
  assert (∃ x, s1 = set_depositRequestsStartIndex x s) as [x ->].
  { destruct (_ =? _) in H1.
    - unfold SetDepositRequestsStartIndex, fromVersion, mbind, M_bind, mget, mmodify in H1. destruct (_ <? _) in H1; [done|]. simplify_eq. by eexists.
    - unfold mret, M_ret in H1. simplify_eq. exists (depositRequestsStartIndex s1). by destruct s1. }
  unfold AppendPendingDeposit, fromVersion, mbind, M_bind, mget, mmodify in Hrun. destruct (_ <? _) in Hrun; [done|]. simplify_eq.
  change (pendingDeposits (set_depositRequestsStartIndex x s)) with (pendingDeposits s). set (pd := PendingDeposit.mk _ _ _ _ _). split.
  - destruct Hs. split; try done. cbn. apply Forall_app. split; [done|]. by apply Forall_cons.
  - unfold ledger. change (pendingDeposits (set_pendingDeposits ?q _)) with q.
    change (balances (set_pendingDeposits _ _)) with (balances s). rewrite amounts_app.
    change (amounts [pd]) with (requested (Some (mkDepositRequest data index)) + 0). lia.
  - unfold size. change (pendingDeposits (set_pendingDeposits ?q _)) with q.
    change (validators (set_pendingDeposits _ _)) with (validators s). unfold len. rewrite length_app. simpl. lia.
Qed.

(** ** Withdrawals *)
Lemma chain_withdrawal_state s : chain_ok s → ledger s < two64 → size s < two63 → PendingPartialWithdrawalsLimit < two64 →
  withdrawal_state s.
Proof.
  intros Hs Hroom Hsize Hlim. pose proof (balances_u64 s Hs Hroom). assert (0 ≤ len (pendingDeposits s)) by (unfold len; lia).
  unfold size in Hsize. destruct Hs. split; try done; try lia.
  eapply Forall_impl; [done|]. intros v [Hc _]. lia.
Qed.

Lemma sweepStart_range s ws k : withdrawal_state s → covered s k ws → 0 ≤ sweepStart s ws < len (validators s).
Proof.
  intros Hs Hc. pose proof (ws_nonempty s Hs). unfold sweepStart. destruct (_ <? _); [apply Z.mod_pos_bound; lia|].
  destruct (last ws) as [w|] eqn:Hw; [|lia]. apply last_Some_elem_of in Hw. destruct (cv_entry _ _ _ Hc w Hw) as (Hi & _).
  rewrite next_mod by done. apply Z.mod_pos_bound. lia.
Qed.

Lemma paid_nonneg s k ws : covered s k ws → 0 ≤ paid ws.
Proof. intros Hc. apply sumBy_nonneg, Forall_forall. intros w Hw. by destruct (cv_entry _ _ _ Hc w Hw) as (_ & ? & _). Qed.

Lemma ProcessWithdrawals_moves hash procs root data s s' : chain_ok s → ledger s < two64 → size s < two63 →
  PendingPartialWithdrawalsLimit < two64 → ProcessWithdrawals hash procs root data s = (Ok tt, s') →
  ∃ ws k, ExpectedWithdrawals s = Ok (ws, k) ∧ 0 ≤ paid ws ∧ moves s (- paid ws) 0 s'.
Proof.
  intros Hs Hroom Hsize Hlim. pose proof (chain_withdrawal_state s Hs Hroom Hsize Hlim) as Hw.
  assert (version_Capella ≤ version s) as Hver by (pose proof (co_version s Hs); unfold version_Capella, version_Electra in *; lia).
  destruct (ExpectedWithdrawals_spec s Hw Hver) as (k0 & Hexp & _ & Hc & _ & _ & Hk & Hold).
  set (ws := expected s k0) in *. set (k := Z.of_nat k0) in *.
  destruct (applyWithdrawals_Ok s ws k Hw Hver Hc) as (bals & Happ & Hlen & Hent & Hsum); [lia|intros Hlt; specialize (Hold Hlt); lia|].
  intros Hrun. exists ws, k. split; [done|]. split; [by eapply paid_nonneg|].
  assert (s' = paidState s ws k bals) as ->.
  { unfold ProcessWithdrawals in Hrun. rewrite (M_bind_Ok _ _ _ s s) in Hrun by done. rewrite Hexp in Hrun.
    rewrite (M_bind_Ok _ _ _ (ws, k) s) in Hrun by done. apply M_bind_Ok_inv in Hrun as (u & s1 & Hchk & Hrun).
    unfold mlift in Hchk. simplify_eq. rewrite Happ in Hrun. by simplify_eq. }
  pose proof (sweepStart_range s ws _ Hw Hc) as Hst. split.
  - destruct Hs. split; try done; cbn.
    + congruence.
    + apply Forall_lookup_2. intros i b Hb. specialize (Hent (Z.of_nat i)). destruct (cv_fits _ _ _ Hc (Z.of_nat i)).
      rewrite (ent_lookup bals _ b) in Hent; [lia|lia|by rewrite Nat2Z.id].
    + apply u64_range.
    + by apply Forall_drop.
    + unfold len in *. rewrite length_drop. lia.
  - unfold ledger. change (balances (paidState s ws k bals)) with bals.
    change (pendingDeposits (paidState s ws k bals)) with (pendingDeposits s). lia.
  - unfold size. change (validators (paidState s ws k bals)) with (validators s).
    change (pendingDeposits (paidState s ws k bals)) with (pendingDeposits s). lia.
Qed.

(** ** Slashings burn balances of slashed validators *)
Fixpoint slashedBalance (vs : list Validator) (bals : list Z) : Z :=
  match vs, bals with
  | v :: vs', b :: bals' => (if Slashed v then b else 0) + slashedBalance vs' bals'
  | _, _ => 0
  end.

Lemma DecreaseBalanceWithVal_range b p : is_u64 b → 0 ≤ p → 0 ≤ DecreaseBalanceWithVal b p ≤ b.
Proof.
  unfold is_u64, DecreaseBalanceWithVal. intros Hb Hp. rewrite Z.gtb_ltb. destruct (Z.ltb_spec b p); [lia|].
  rewrite u64_small by (unfold is_u64; lia). lia.
Qed.
Lemma slashLoop_burns e ver m t p vs bals bals' : length bals = length vs → Forall is_u64 bals →
  slashLoop e ver m t p vs bals = Ok bals' →
  length bals' = length bals ∧ Forall (λ b, 0 ≤ b) bals' ∧ sumZ bals - slashedBalance vs bals ≤ sumZ bals' ≤ sumZ bals.
Proof.
  revert bals bals'. induction vs as [|v vs IH]; intros [|b bals] bals' Hl Hu Hrun; simplify_eq/=.
  { split_and!; [done|constructor|lia|lia]. }
  apply Forall_cons in Hu as [Hb Hu].
  assert (∃ b' rest, slashLoop e ver m t p vs bals = Ok rest ∧ bals' = b' :: rest ∧ 0 ≤ b' ≤ b ∧ (Slashed v = false → b' = b))
    as (b' & rest & Hrest & -> & Hb' & Hsl).
  { unfold is_u64 in Hb. destruct (Slashed v); cbn [andb] in Hrun; [destruct (_ =? _) in Hrun|].
    - destruct (slashingPenaltyOf _ _ _ _ _) as [pen| | |] eqn:Hpen; [|done..]. cbn in Hrun.
      destruct (slashLoop e ver m t p vs bals) as [rest| | |]; [|done..]. cbn in Hrun. simplify_eq.
      assert (0 ≤ pen) as Hp0.
      { unfold slashingPenaltyOf in Hpen. destruct (quo _ _) in Hpen; [|done..]. cbn in Hpen.
        destruct (_ >=? _) in Hpen; [simplify_eq; apply u64_range|]. destruct (quo _ _) in Hpen; [|done..]. cbn in Hpen. simplify_eq. apply u64_range. }
      eexists _, _. split_and!; [done..|apply DecreaseBalanceWithVal_range; done|apply DecreaseBalanceWithVal_range; done|done].
    - destruct (slashLoop e ver m t p vs bals) as [rest| | |]; [|done..]. cbn in Hrun. simplify_eq.
      eexists _, _. split_and!; [done..|lia|lia|done].
    - destruct (slashLoop e ver m t p vs bals) as [rest| | |]; [|done..]. cbn in Hrun. simplify_eq.
      eexists _, _. split_and!; [done..|lia|lia|done]. }
  destruct (IH bals rest Hl Hu Hrest) as (Hlr & Hpr & Hsum). rewrite !sumZ_cons.
  split_and!; [simpl; lia|constructor; [lia|done]| |lia]. unfold is_u64 in Hb. destruct (Slashed v); [lia|]. rewrite Hsl by done. lia.
Qed.

Lemma ProcessSlashings_burns s s' : chain_ok s → ledger s < two64 → ProcessSlashings s = (Ok tt, s') →
  ∃ burned, 0 ≤ burned ≤ slashedBalance (validators s) (balances s) ∧ moves s (- burned) 0 s'.
Proof.
  intros Hs Hroom Hrun. unfold ProcessSlashings in Hrun. rewrite (M_bind_Ok _ _ _ s s) in Hrun by done.
  do 6 (apply M_bind_Ok_inv in Hrun as (? & ? & Hr & Hrun); injection Hr as ? <-).
  injection Hrun as <-. rename select (slashLoop _ _ _ _ _ _ _ = Ok _) into Hloop.
  apply slashLoop_burns in Hloop as (Hl & Hp & Hsum); [|apply Hs|by apply balances_u64].
  match goal with |- context [set_balances ?b s] => exists (sumZ (balances s) - sumZ b); set (bals := b) in * end.
  split; [lia|]. split.
  - destruct Hs. split; try done. cbn. congruence.
  - unfold ledger. change (balances (set_balances bals s)) with bals.
    change (pendingDeposits (set_balances bals s)) with (pendingDeposits s). lia.
  - unfold size. change (validators (set_balances bals s)) with (validators s).
    change (pendingDeposits (set_balances bals s)) with (pendingDeposits s). lia.
Qed.
End ledger.
