(* ===== verification/LedgerTheorems.v ===== *)
(** * The fixed supply of a chain that pays no rewards

    With [BASE_REWARD_FACTOR] zero the proposer of an attestation and the members of the sync
    committee earn nothing, and slashings pay their rewards out of penalties.  Any sequence
    of the operations of Electra blocks and epoch boundaries that the ledger covers keeps the
    money of the chain, and keeps the invariant that lets the next operation run. *)
From S2P Require Import Prelude MathHelper Primitives Config SlotTime MVSlice EpochConfig MerkleTrie SszMerkleize BeaconState EpochPrecompute EpochPrecomputeTheorems Registry StateOperations Withdrawals WithdrawalTheorems Deposits DepositTheorems Requests BlockOperations Ledger.

(** ** Attestations *)
Section attestations.
Context `{cfg : BeaconChainConfig} `{ecfg : EpochConfig} `{ocfg : OperationsConfig}.
Implicit Types s : BeaconState.

Lemma BaseReward_zero s i total c r c' : BaseRewardFactor = 0 →
  BaseRewardWithTotalBalance s i total c = (Ok r, c') → r = 0.
Proof.
  intros Hf. unfold BaseRewardWithTotalBalance. intros (v & ? & Hv & Hrun)%M_bind_Ok_inv.
  apply M_bind_Ok_inv in Hrun as (inc & ? & Hinc & Hrun). apply M_bind_Ok_inv in Hrun as (b & ? & Hb & Hrun).
  unfold BaseRewardPerIncrement in Hb. destruct (total =? 0); [done|]. rewrite Hf in Hb.
  apply M_bind_Ok_inv in Hb as (root & ? & _ & Hq). unfold mlift in Hq. injection Hq as Hq _.
  rewrite Z.mul_0_r in Hq. apply quo_0_l in Hq as ->. unfold mret, M_ret in Hrun. simplify_eq. by rewrite Z.mul_0_r.
Qed.
Lemma participate_zero p w i flag flag' n' : participate p 0 w i flag 0 = Ok (flag', n') → n' = 0.
Proof.
  unfold participate. destruct (HasValidatorFlag flag i) as [has| | |]; [|done..]. cbn. destruct (p && negb has); [|by intros; simplify_eq].
  destruct (AddValidatorFlag flag i) as [f| | |]; [|done..]. cbn. intros. by simplify_eq.
Qed.
Lemma participateAll_zero fs flag flag' n' : participateAll fs 0 flag 0 = Ok (flag', n') → n' = 0.
Proof.
  unfold participateAll. destruct (participate _ _ _ _ flag 0) as [[f1 n1]| | |] eqn:H1; [|done..]. cbn.
  apply participate_zero in H1 as ->. destruct (participate _ _ _ _ f1 0) as [[f2 n2]| | |] eqn:H2; [|done..]. cbn.
  apply participate_zero in H2 as ->. apply participate_zero.
Qed.
Lemma EpochParticipation_zero s indices bits fs total c n bits' c' : BaseRewardFactor = 0 →
  EpochParticipation s indices bits fs total c = (Ok (n, bits'), c') → n = 0.
Proof.
  intros Hf. unfold EpochParticipation. revert bits c. induction indices as [|i indices IH]; intros bits c.
  { cbn. unfold mret, M_ret. intros. by simplify_eq. }
  cbn [mfold]. intros ([n1 b1] & c1 & H1 & Hrun)%M_bind_Ok_inv.
  assert (n1 = 0) as ->; [|by apply IH in Hrun]. destruct (_ >=? _) in H1; [done|].
  apply M_bind_Ok_inv in H1 as (br & c2 & Hbr & H1). apply BaseReward_zero in Hbr as ->; [|done].
  apply M_bind_Ok_inv in H1 as (flag & c3 & _ & H1). apply M_bind_Ok_inv in H1 as ([f2 n2] & c4 & Hp & H1).
  unfold mlift in Hp. injection Hp as Hp _. apply participateAll_zero in Hp as ->. unfold mret, M_ret in H1. by simplify_eq.
Qed.

Lemma IncreaseBalance_zero s i s' : Forall is_u64 (balances s) → IncreaseBalance i 0 s = (Ok tt, s') → s' = s.
Proof.
  intros Hu. unfold IncreaseBalance. intros (? & ? & Hg & Hrun)%M_bind_Ok_inv. injection Hg as <- <-.
  apply M_bind_Ok_inv in Hrun as (b & ? & Hb & Hrun). injection Hb as Hb <-. apply list_at_inv in Hb as [_ Hb].
  pose proof (Forall_lookup_1 _ _ _ _ Hu Hb) as Hbu. apply M_bind_Ok_inv in Hrun as (nb & ? & Hnb & Hrun). injection Hnb as Hnb <-.
  unfold IncreaseBalanceWithVal in Hnb. rewrite Add64_cases, Z.add_0_r in Hnb by done.
  unfold is_u64 in Hbu. destruct (Z.ltb_spec b two64); [|lia]. simplify_eq.
  unfold UpdateBalancesAtIndex in Hrun. destruct (_ >=? _) in Hrun; [done|]. simplify_eq.
  rewrite list_insert_id by done. by destruct s.
Qed.

(** Including an attestation changes the participation flags and nothing else. *)
Lemma SetParticipation_money s c proposer target indices fs total s' c' : BaseRewardFactor = 0 → chain_ok s → ledger s < two64 →
  SetParticipationAndRewardProposer proposer target indices fs total (s, c) = (Ok tt, (s', c')) → same_money s s'.
Proof.
  intros Hf Hs Hroom. unfold SetParticipationAndRewardProposer. rewrite (M_bind_Ok _ _ _ (s, c) (s, c)) by done.
  intros (epoch & ? & He & Hrun)%M_bind_Ok_inv. injection He as _ <-. destruct (version s =? version_Phase0); [done|]. cbv zeta in Hrun.
  destruct (EpochParticipation _ _ _ _ _ c) as [r c1] eqn:Hep. rewrite (M_bind_Ok _ _ _ tt (s, c1)) in Hrun by done.
  apply M_bind_Ok_inv in Hrun as ([n bits] & ? & Hr & Hrun). injection Hr as -> <-.
  apply EpochParticipation_zero in Hep as ->; [|done].
  apply M_bind_Ok_inv in Hrun as ([] & [s1 c2] & Hm & Hrun). unfold mmodify in Hm. injection Hm as Hs1 <-.
  assert (∃ a b, s1 = set_participation a b s) as (a & b & ->) by (destruct (_ =? _) in Hs1; eexists _, _; by rewrite <-Hs1).
  unfold onState in Hrun. destruct (RewardProposer proposer 0 _) as [r s2] eqn:Hrew. simplify_eq.
  apply M_bind_Ok_inv in Hrew as (d & ? & Hd & Hrew). injection Hd as _ <-. apply M_bind_Ok_inv in Hrew as (q & ? & Hq & Hrew).
  injection Hq as Hq <-. apply quo_0_l in Hq as ->. rewrite (M_bind_Ok _ _ _ (set_participation a b s) (set_participation a b s)) in Hrew by done.
  apply M_bind_Ok_inv in Hrew as (i & ? & Hi & Hrew). injection Hi as _ <-.
  apply IncreaseBalance_zero in Hrew as ->; [|by apply (balances_u64 s)].
  split; [|done..]. destruct Hs. by split.
Qed.
End attestations.

(** ** Pending deposits *)
Section deposits.
Context `{cfg : BeaconChainConfig} `{ecfg : EpochConfig} `{ocfg : OperationsConfig} `{sigs : DepositSignatures}.
Context {laws : DepositSignatureLaws sigs} {dc : DepositConfig} {wc : WithdrawalConfig}.
Implicit Types s : BeaconState.

Lemma chain_deposit_state s : chain_ok s → len (validators s) < two63 → deposit_state s.
Proof. intros [] Hl. by split. Qed.

Lemma maxEffective_nonneg v x : ValidatorMaxEffectiveBalance v = Ok x → 0 ≤ x.
Proof.
  pose proof wc_min. pose proof wc_max. unfold ValidatorMaxEffectiveBalance.
  destruct (HasCompoundingWithdrawalCredentials v) as [[]| | |]; cbn; intros; simplify_eq; lia.
Qed.
Lemma newValidator_ok pd a : deposit_ok pd → validator_ok (newValidator pd a).
Proof.
  intros [_ Hc]. destruct (GetValidatorFromDeposit_Ok pd a ltac:(lia)) as (Hv & _ & _ & _ & Hcr). split; [by rewrite Hcr|].
  unfold GetValidatorFromDeposit in Hv. destruct (ValidatorMaxEffectiveBalance _) as [x| | |] eqn:Hx; [|done..].
  cbn in Hv. apply maxEffective_nonneg in Hx. destruct (rem a _) as [r| | |]; [|done..]. cbn in Hv.
  injection Hv as <-. cbn. apply Z.min_glb; [apply u64_range|done].
Qed.

Lemma addState_chain s pd a : chain_ok s → deposit_ok pd → 0 ≤ a → len (validators s) + 1 < two63 → chain_ok (addState pd a s).
Proof.
  intros Hs Hp Ha Hl. destruct (addState_ok s pd a) as [Hd _]; [apply chain_deposit_state; [done|lia]|done..|].
  pose proof (newValidator_ok pd a Hp) as Hnew.
  assert (len (validators s ++ [newValidator pd a]) = len (validators s) + 1) as Hlen by (unfold len; rewrite length_app; simpl; lia).
  destruct Hd, Hs. split; try done; change (validators (addState pd a s)) with (validators s ++ [newValidator pd a]).
  - rewrite Hlen. lia.
  - apply Forall_app. split; [done|]. by apply Forall_cons.
  - change (0 ≤ nextWithdrawalValidatorIndex s < len (validators s ++ [newValidator pd a])). rewrite Hlen. lia.
  - eapply Forall_impl; [exact co_partials|]. intros w Hw. cbv beta in Hw |- *. rewrite Hlen. lia.
  - eapply Forall_impl; [exact co_consolidations|]. intros w Hw. cbv beta in Hw |- *. rewrite Hlen. lia.
Qed.
Lemma applyState_chain s pd : chain_ok s → deposit_ok pd → len (validators s) + 1 < two63 → chain_ok (applyState s pd).
Proof.
  intros Hs Hp Hl. pose proof Hp as [Ha _]. unfold is_u64 in Ha.
  destruct (applyState_ok s pd) as (Hd & _ & _); [apply chain_deposit_state; [done|lia]|done|done|]. revert Hd. unfold applyState.
  destruct (valIdxMap s !! keyOf pd) as [i|]; [intros Hd; destruct Hd, Hs; by split|].
  destruct (verifyDepositSignature _); [intros _|done]. apply addState_chain; [done..|lia|lia].
Qed.

Lemma specLoop_chain ne av fin start queue T p n post p' n' r post' T' : chain_ok T → Forall deposit_ok queue → Forall deposit_ok post →
  sumZ (balances T) + amounts queue < two64 → len (validators T) + len queue < two63 →
  specLoop ne av fin start queue p n post T = (Ok (p', n', r, post'), T') →
  chain_ok T' ∧ Forall deposit_ok post' ∧ n ≤ n' ≤ n + len queue ∧
  len (validators T') + len post' + n + len queue - n' ≤ len (validators T) + len post + len queue.
Proof.
  intros HT Hq. revert T p n post HT. induction Hq as [|pd queue Hpd Hq IH]; intros T p n post HT Hpost Hsum Hsize Hrun.
  { cbn in Hrun. unfold mret, M_ret in Hrun. simplify_eq. unfold len. simpl. split_and!; done || lia. }
  assert (len (pd :: queue) = 1 + len queue) as Hl by (unfold len; simpl; lia). rewrite amounts_cons in Hsum.
  pose proof Hpd as [Ha _]. unfold is_u64 in Ha. pose proof (amounts_nonneg _ Hq). assert (0 ≤ len queue) by (unfold len; lia).
  assert (deposit_state T) as HdT by (apply chain_deposit_state; [done|lia]).
  assert (ApplyPendingDeposit pd T = (Ok tt, applyState T pd)) as Happ by (apply ApplyPendingDeposit_Ok; [done..|lia]).
  destruct (applyState_ok T pd HdT Hpd) as (_ & Hsum1 & Hl1); [lia|].
  pose proof (applyState_chain T pd HT Hpd ltac:(lia)) as HT1.
  assert (0 ≤ credited T pd ≤ PendingDeposit.Amount pd) as Hcb.
  { unfold credited. destruct (valIdxMap T !! keyOf pd); [lia|]. destruct (verifyDepositSignature _); lia. }
  assert ((Ok (p, n, false, post), T) = (Ok (p', n', r, post'), T') ∨ (Ok (p, n, true, post), T) = (Ok (p', n', r, post'), T') →
    chain_ok T' ∧ Forall deposit_ok post' ∧ n ≤ n' ≤ n + len (pd :: queue) ∧
    len (validators T') + len post' + n + len (pd :: queue) - n' ≤ len (validators T) + len post + len (pd :: queue)) as Hstop.
  { intros [Heq|Heq]; simplify_eq; (split_and!; [done|done|lia..]). }
  assert (∀ q, specLoop ne av fin start queue q (n + 1) post (applyState T pd) = (Ok (p', n', r, post'), T') →
    chain_ok T' ∧ Forall deposit_ok post' ∧ n ≤ n' ≤ n + len (pd :: queue) ∧
    len (validators T') + len post' + n + len (pd :: queue) - n' ≤ len (validators T) + len post + len (pd :: queue)) as Happly.
  { intros q Hq1. destruct (IH _ _ _ _ HT1 Hpost ltac:(lia) ltac:(lia) Hq1) as (? & ? & ? & ?). split_and!; [done|done|lia..]. }
  cbn [specLoop] in Hrun. rewrite (M_bind_Ok _ _ _ T T) in Hrun by done. destruct (mustWait _ _ _ _ _); [apply Hstop; by left|].
  destruct (statusOf T ne pd) as [exited withdrawn]. cbn [fst snd] in Hrun. destruct withdrawn; [|destruct exited].
  - rewrite (M_bind_Ok _ _ _ _ _ Happ) in Hrun. by eapply Happly.
  - destruct (IH T p (n + 1) (post ++ [pd]) HT) as (? & ? & ? & Hle); [apply Forall_app; split; [done|by apply Forall_cons]|lia|lia|exact Hrun|].
    assert (len (post ++ [pd]) = len post + 1) by (unfold len; rewrite length_app; simpl; lia). split_and!; [done|done|lia..].
  - destruct (_ >? _); [apply Hstop; by right|]. rewrite (M_bind_Ok _ _ _ _ _ Happ) in Hrun. by eapply Happly.
Qed.

(** What an epoch transition provides: the churn, the finalized slot, and room in the budget. *)
Record epoch_inputs s (activeBalance churn finalizedSlot : Z) : Prop := {
  ei_epoch : slot s / SlotsPerEpoch + 1 ≤ FarFutureEpoch < two64;
  ei_churn : ActivationExitChurnLimit activeBalance = Ok churn;
  ei_budget : 0 ≤ churn ∧ 0 ≤ depositBalanceToConsume s ∧ depositBalanceToConsume s + churn < two64;
  ei_finalized : EpochStart (Epoch_ (finalizedCheckpoint s)) = Ok finalizedSlot
}.

(** The amounts of the pending deposits with a bad signature. *)
Definition unsigned s : Z :=
  sumBy (λ pd, if verifyDepositSignature (pendingData pd) then 0 else PendingDeposit.Amount pd) (pendingDeposits s).
Lemma lost_unsigned lost queue : Forall deposit_ok queue → lost `sublist_of` queue → Forall bad lost →
  0 ≤ amounts lost ≤ sumBy (λ pd, if verifyDepositSignature (pendingData pd) then 0 else PendingDeposit.Amount pd) queue.
Proof.
  intros Hq Hsub Hbad. induction Hsub as [|pd lost queue Hsub IH|pd lost queue Hsub IH]; [done|..];
    apply Forall_cons in Hq as [[Ha _] Hq]; unfold is_u64 in Ha; rewrite sumBy_cons.
  - apply Forall_cons in Hbad as [Hb Hbad]. rewrite amounts_cons. unfold bad in Hb. rewrite Hb. specialize (IH Hq Hbad). lia.
  - specialize (IH Hq Hbad). destruct (verifyDepositSignature _); lia.
Qed.

Lemma ProcessPendingDeposits_moves s activeBalance churn finalizedSlot : chain_ok s → ledger s < two64 → size s < two63 →
  epoch_inputs s activeBalance churn finalizedSlot →
  ∃ s' lost, ProcessPendingDeposits activeBalance s = (Ok tt, s') ∧ 0 ≤ lost ≤ unsigned s ∧ moves s (- lost) 0 s'.
Proof.
  intros Hs Hroom Hsize [He Hc Hb Hf]. assert (0 ≤ len (pendingDeposits s)) by (unfold len; lia).
  assert (deposit_epoch s activeBalance churn finalizedSlot) as Hde.
  { split; [apply chain_deposit_state; [done|unfold size in *; lia]|apply Hs|exact Hroom|exact Hsize|split; [apply Hs|done]|done..]. }
  destruct (ProcessPendingDeposits_run s activeBalance churn finalizedSlot Hde) as (p & n & r & post & T & Hspec & Hrun & _).
  destruct (specLoop_settled _ _ _ _ _ _ _ _ _ _ _ _ _ _ (de_state _ _ _ _ Hde) (de_queue _ _ _ _ Hde)
    (de_sum _ _ _ _ Hde) (de_size _ _ _ _ Hde) Hspec) as [(lost & Hsub & Hbad & Hn & Hled) _].
  destruct (specLoop_chain _ _ _ _ _ _ _ _ _ _ _ _ _ _ Hs (co_deposits s Hs) (Forall_nil_2 _)
    (de_sum _ _ _ _ Hde) (de_size _ _ _ _ Hde) Hspec) as (HT & Hpost & Hn' & Hsz).
  rewrite Z.sub_0_r in Hled. change (amounts []) with 0 in Hled. change (len (@nil PendingDeposit.t)) with 0 in Hsz.
  eexists _, (amounts lost). split; [exact Hrun|]. split; [apply lost_unsigned; [apply Hs|done..]|].
  set (q := drop (Z.to_nat n) (pendingDeposits s) ++ post).
  match goal with |- moves s _ _ ?x => set (s' := x) end.
  assert (balances s' = balances T ∧ pendingDeposits s' = q ∧ validators s' = validators T) as (Hb' & Hq' & Hv') by done.
  split.
  - assert (Forall deposit_ok q) by (apply Forall_app; split; [apply Forall_drop, Hs|done]). destruct HT. by split.
  - unfold ledger. rewrite Hb', Hq'. unfold q. rewrite amounts_app. lia.
  - unfold size. rewrite Hv', Hq'. unfold q. unfold len in *. rewrite length_app, length_drop.
    clear - Hsz Hn'. lia.
Qed.
End deposits.

(** ** Slashings pay rewards out of penalties

    A slashing takes the penalty of the slashed validator, as far as its balance goes, and
    pays the reward to the proposer.  The reward exceeds what is taken only when the balance
    is below the reward. *)
Section slashing.
Context `{cfg : BeaconChainConfig} `{ecfg : EpochConfig} `{ocfg : OperationsConfig}.
Implicit Types s : BeaconState.

(** Of each validator whether it is slashed, and its effective balance. *)
Definition stakes s : list (bool * Z) := (λ v : Validator, (Slashed v, EffectiveBalance v)) <$> validators s.

(** The sum of [f] of the effective balance and the balance over validators not yet slashed. *)
Fixpoint unslashedSum (f : Z → Z → Z) (vs : list (bool * Z)) (bals : list Z) : Z :=
  match vs, bals with
  | (sl, eff) :: vs', b :: bals' => (if sl then 0 else f eff b) + unslashedSum f vs' bals'
  | _, _ => 0
  end.
Definition penaltyOf (eff : Z) : Z := eff / MinSlashingPenaltyQuotientElectra.
Definition rewardOf (eff : Z) : Z := eff / WhistleBlowerRewardQuotientElectra.

(** The penalties of the validators that can still be slashed, and the part of their rewards
    that their balances do not cover. *)
Definition penalties s : Z := sumBy (λ st : bool * Z, if st.1 then 0 else penaltyOf st.2) (stakes s).
Definition uncovered s : Z := unslashedSum (λ eff b, Z.max 0 (rewardOf eff - b)) (stakes s) (balances s).

Lemma unslashedSum_insert f vs bals (i : nat) (sl : bool) eff b b' : vs !! i = Some (sl, eff) → bals !! i = Some b →
  unslashedSum f (<[i := (true, eff)]> vs) (<[i := b']> bals) = unslashedSum f vs bals - (if (sl : bool) then 0 else f eff b).
Proof.
  revert vs bals. induction i as [|i IH]; intros [|[sl0 eff0] vs] [|b0 bals] Hv Hb; simplify_eq/=; [lia|].
  rewrite IH by done. lia.
Qed.
Lemma unslashedSum_mono f vs bals bals' : (∀ eff b b', b ≤ b' → f eff b' ≤ f eff b) → Forall2 Z.le bals bals' →
  unslashedSum f vs bals' ≤ unslashedSum f vs bals.
Proof.
  intros Hf Hle. revert vs. induction Hle as [|b b' bals bals' Hb _ IH]; intros [|[sl eff] vs]; simpl; [done..|].
  specialize (IH vs). destruct sl; [lia|]. specialize (Hf eff _ _ Hb). lia.
Qed.
Lemma unslashedSum_nonneg f vs bals : (∀ eff b, 0 ≤ f eff b) → 0 ≤ unslashedSum f vs bals.
Proof.
  intros Hf. revert bals. induction vs as [|[sl eff] vs IH]; intros [|b bals]; simpl; [done..|].
  specialize (IH bals). specialize (Hf eff b). destruct sl; lia.
Qed.
Lemma uncovered_nonneg s : 0 ≤ uncovered s.
Proof. apply unslashedSum_nonneg. intros. lia. Qed.

(** Only exits and the registry's slashed marks change: balances are given. *)
Record slashes s s' : Prop := {
  sl_ok : chain_ok s';
  sl_upper : ledger s' + uncovered s' ≤ ledger s + uncovered s;
  sl_lower : ledger s - penalties s ≤ ledger s' - penalties s';
  sl_penalties : penalties s' ≤ penalties s;
  sl_size : size s' = size s;
  sl_version : version s' = version s
}.
Lemma slashes_refl s : chain_ok s → slashes s s.
Proof. by split. Qed.
Lemma slashes_trans s1 s2 s3 : slashes s1 s2 → slashes s2 s3 → slashes s1 s3.
Proof. intros [] []. split; [done|lia..]. Qed.

(** *** Exits keep the stakes *)
Definition same_stakes s0 (p : BeaconState * ExitInfo) : Prop := stakes p.1 = stakes s0 ∧ version p.1 = version s0.
Lemma churned_stakes s0 s : churned s0 s → stakes s = stakes s0 ∧ version s = version s0.
Proof. by intros (a & b & ->). Qed.
Lemma update_stakes s i v v' : validators s !! i = Some v → Slashed v' = Slashed v → EffectiveBalance v' = EffectiveBalance v →
  stakes (set_validators (<[i := v']> (validators s)) s) = stakes s.
Proof.
  intros Hv Hs He. unfold stakes. cbn. rewrite list_fmap_insert, Hs, He. apply list_insert_id. by rewrite list_lookup_fmap, Hv.
Qed.
Lemma initiateExit_stakes churn s ei i : (∀ s b, preserves (churned s) (churn b)) → version_Electra ≤ version s →
  same_stakes s (initiateExit churn i (s, ei)).2.
Proof.
  intros Hchurn Hver. unfold initiateExit. apply get_post. apply lift_post; [done|]. intros v Hv.
  apply list_at_inv in Hv as [_ Hv]. destruct (negb _); [done|].
  destruct (Z.ltb_spec (version s) version_Electra) as [?|_]; [lia|].
  assert (churned s (((highest ← onState (churn (EffectiveBalance v)); '(_, ei) ← mget; setInfo highest (Churn ei))
    : M (BeaconState * ExitInfo) unit) (s, ei)).2.1) as Hpre.
  { assert (preserves (λ p : BeaconState * ExitInfo, churned s p.1)
      (highest ← onState (churn (EffectiveBalance v)); '(_, ei) ← mget; setInfo highest (Churn ei))) as Hpre.
    { preserve; [apply onState_preserves, Hchurn|by intros [? ?]]. }
    apply (Hpre (s, ei)), churned_refl. }
  apply bind_post; [intros _; by apply churned_stakes|]. intros [] [s1 ei1] Heq. rewrite Heq in Hpre. cbn in Hpre.
  pose proof (churned_stakes _ _ Hpre) as [Hst Hv1].
  apply get_post. apply lift_post; [done|]. intros w _. apply (onState_post _ (λ t, stakes t = stakes s ∧ version t = version s)).
  unfold UpdateValidatorAtIndex. destruct (_ >=? _); [done|]. cbn [snd fst]. split; [|done].
  rewrite <-Hst. apply (update_stakes s1 _ v); [destruct Hpre as (? & ? & ->); done|done|done].
Qed.
Lemma ForTotalBal_churned s0 total b : preserves (churned s0) (ExitEpochAndUpdateChurnForTotalBal total b).
Proof.
  unfold ExitEpochAndUpdateChurnForTotalBal. apply preserves_bind; [apply preserves_get|intros s].
  apply preserves_if; [apply preserves_fail|]. apply exitEpochAndUpdateChurn_churned.
Qed.

(** *** Balances that go up or down *)
Definition pays s (a : Z) s' : Prop := ∃ bals,
  s' = set_balances bals s ∧ Forall2 Z.le (balances s) bals ∧ sumZ bals = sumZ (balances s) + a.

Lemma set_balances_chain s bals : chain_ok s → length bals = length (balances s) → Forall (λ b, 0 ≤ b) bals →
  chain_ok (set_balances bals s).
Proof. intros Hs Hl Hp. destruct Hs. split; try done. cbn. congruence. Qed.
Lemma ledger_balances s bals : ledger (set_balances bals s) = ledger s - sumZ (balances s) + sumZ bals.
Proof.
  unfold ledger. change (balances (set_balances bals s)) with bals.
  change (pendingDeposits (set_balances bals s)) with (pendingDeposits s). lia.
Qed.
Lemma raise_balance (l : list Z) i b a : l !! i = Some b → 0 ≤ a → Forall2 Z.le l (<[i := b + a]> l).
Proof.
  intros Hb Ha. apply Forall2_same_length_lookup_2; [by rewrite length_insert|]. intros j x y Hx Hy.
  apply list_lookup_insert_Some in Hy as [(-> & <- & _)|[_ Hy]]; simplify_eq; lia.
Qed.
Lemma IncreaseBalance_pays s i a s' : Forall is_u64 (balances s) → is_u64 a → IncreaseBalance i a s = (Ok tt, s') → pays s a s'.
Proof.
  intros Hu Ha. unfold IncreaseBalance. intros (? & ? & Hg & Hrun)%M_bind_Ok_inv. injection Hg as <- <-.
  apply M_bind_Ok_inv in Hrun as (b & ? & Hb & Hrun). injection Hb as Hb <-. apply list_at_inv in Hb as [_ Hb].
  pose proof (Forall_lookup_1 _ _ _ _ Hu Hb) as Hbu. apply M_bind_Ok_inv in Hrun as (nb & ? & Hnb & Hrun). injection Hnb as Hnb <-.
  unfold IncreaseBalanceWithVal in Hnb. rewrite Add64_cases in Hnb by done. destruct (_ <? _) in Hnb; simplify_eq.
  unfold UpdateBalancesAtIndex in Hrun. destruct (_ >=? _) in Hrun; [done|]. simplify_eq. unfold is_u64 in Ha.
  eexists. split; [done|]. split; [apply raise_balance; [done|lia]|]. rewrite (sumZ_insert _ _ b) by done. lia.
Qed.
Lemma pays_slashes s a s' : chain_ok s → 0 ≤ a → pays s a s' →
  chain_ok s' ∧ ledger s' = ledger s + a ∧ uncovered s' ≤ uncovered s ∧ penalties s' = penalties s ∧
  size s' = size s ∧ version s' = version s.
Proof.
  intros Hs Ha (bals & -> & Hle & Hsum). split_and!; try done.
  - apply set_balances_chain; [done|symmetry; by eapply Forall2_length|].
    apply Forall_lookup_2. intros j b' Hb'. destruct (Forall2_lookup_r _ _ _ _ _ Hle Hb') as (b & Hb & ?).
    pose proof (Forall_lookup_1 _ _ _ _ (co_balances s Hs) Hb). cbv beta in *. lia.
  - rewrite ledger_balances. lia.
  - unfold uncovered. apply (unslashedSum_mono _ (stakes s)); [intros; lia|done].
Qed.

Lemma DecreaseBalance_takes s i a s' : Forall is_u64 (balances s) → 0 ≤ a → DecreaseBalance i a s = (Ok tt, s') →
  ∃ b, balances s !! Z.to_nat i = Some b ∧ s' = set_balances (<[Z.to_nat i := b - Z.min b a]> (balances s)) s.
Proof.
  intros Hu Ha. unfold DecreaseBalance. intros (? & ? & Hg & Hrun)%M_bind_Ok_inv. injection Hg as <- <-.
  apply M_bind_Ok_inv in Hrun as (b & ? & Hb & Hrun). injection Hb as Hb <-. apply list_at_inv in Hb as [_ Hb].
  pose proof (Forall_lookup_1 _ _ _ _ Hu Hb) as Hbu. unfold UpdateBalancesAtIndex in Hrun. destruct (_ >=? _) in Hrun; [done|].
  simplify_eq. exists b. split; [done|]. do 2 f_equal. unfold DecreaseBalanceWithVal. rewrite Z.gtb_ltb.
  unfold is_u64 in Hbu. destruct (Z.ltb_spec b a); [lia|]. rewrite u64_small by (unfold is_u64; lia). lia.
Qed.

(** *** Slashing a validator *)
Class SlashingQuotients : Prop := {
  sq_penalty : 0 < MinSlashingPenaltyQuotientElectra ≤ WhistleBlowerRewardQuotientElectra;
  sq_proposer : 0 < ProposerRewardQuotient
}.
Context {sq : SlashingQuotients}.

Lemma reward_penalty eff : 0 ≤ eff → 0 ≤ rewardOf eff ≤ penaltyOf eff.
Proof.
  intros He. pose proof sq_penalty. unfold rewardOf, penaltyOf. split; [apply Z.div_pos; lia|]. apply Z.div_le_compat_l; lia.
Qed.

(** Marking validator [i] and taking its penalty, with the vector of slashings at [sl]. *)
Lemma mark_and_take s i v b w sl : chain_ok s → validators s !! i = Some v → Slashed v = false → balances s !! i = Some b →
  let s' := set_balances (<[i := b - Z.min b (penaltyOf (EffectiveBalance v))]> (balances s))
              (set_slashings sl (set_validators (<[i := set_slashed w v]> (validators s)) s)) in
  chain_ok s' ∧ ledger s' = ledger s - Z.min b (penaltyOf (EffectiveBalance v)) ∧
  uncovered s' = uncovered s - Z.max 0 (rewardOf (EffectiveBalance v) - b) ∧
  penalties s' = penalties s - penaltyOf (EffectiveBalance v) ∧ size s' = size s ∧ version s' = version s.
Proof.
  intros Hs Hv Hsl Hb s'. pose proof (lookup_ok _ _ _ Hs Hv) as Hvok. destruct Hvok as [Hc He].
  pose proof (reward_penalty _ He) as Hp. pose proof (Forall_lookup_1 _ _ _ _ (co_balances s Hs) Hb) as Hb0. cbv beta in Hb0.
  assert (stakes s !! i = Some (false, EffectiveBalance v)) as Hst by (unfold stakes; by rewrite list_lookup_fmap, Hv, <-Hsl).
  assert (stakes s' = <[i := (true, EffectiveBalance v)]> (stakes s)) as Hst' by (unfold stakes; cbn; by rewrite list_fmap_insert).
  assert (same_money s (set_slashings sl (set_validators (<[i := set_slashed w v]> (validators s)) s))) as Hm.
  { pose proof (update_money s s (Z.of_nat i) v (set_slashed w v) (same_money_refl s Hs)) as Hm. rewrite Nat2Z.id in Hm.
    destruct (Hm Hv eq_refl (conj Hc He)) as [Hok ? ? ?]. split; [|done..]. destruct Hok. by split. }
  pose proof (same_money_moves _ _ Hm) as [Hok Hled _]. split_and!.
  - apply set_balances_chain; [done|by rewrite length_insert|]. apply Forall_insert; [apply Hs|lia].
  - unfold s'. rewrite ledger_balances, Hled. cbn [balances set_slashings set_validators]. rewrite (sumZ_insert _ _ b) by done. lia.
  - unfold uncovered. rewrite Hst'. unfold s'. cbn [balances set_balances]. by rewrite (unslashedSum_insert _ _ _ i false (EffectiveBalance v) b).
  - unfold penalties. rewrite Hst'. unfold sumBy. rewrite list_fmap_insert.
    rewrite (sumZ_insert _ _ (penaltyOf (EffectiveBalance v))); [cbn; lia|]. by rewrite list_lookup_fmap, Hst.
  - unfold size, s'. cbn. unfold len. by rewrite length_insert.
  - done.
Qed.

Lemma exit_slashes s ei i total s1 ei1 v : chain_ok s → validators s !! Z.to_nat i = Some v →
  ignoreExited (InitiateValidatorExitForTotalBal i total) (s, ei) = (Ok tt, (s1, ei1)) →
  same_money s s1 ∧ stakes s1 = stakes s ∧ version s1 = version s.
Proof.
  intros Hs Hv Hrun.
  assert (∀ m b, preserves (churned m) (ExitEpochAndUpdateChurnForTotalBal total b)) as Hch by (intros; apply ForTotalBal_churned).
  pose proof (initiateExit_money s _ (s, ei) i Hch (same_money_refl s Hs)) as Hm.
  pose proof (initiateExit_stakes _ s ei i Hch (co_version s Hs)) as Hst.
  apply (ignoreExited_post (moneyI s)) in Hm. apply (ignoreExited_post (same_stakes s)) in Hst.
  fold (InitiateValidatorExitForTotalBal i total) in Hm, Hst. rewrite Hrun in Hm, Hst. by destruct Hst.
Qed.

(** The reward is paid to the proposer in two parts. *)
Lemma reward_parts eff s i s1 s2 : 0 ≤ eff → chain_ok s → ledger s + rewardOf eff < two64 →
  IncreaseBalance i (rewardOf eff / ProposerRewardQuotient) s = (Ok tt, s1) →
  IncreaseBalance i (rewardOf eff -64 rewardOf eff / ProposerRewardQuotient) s1 = (Ok tt, s2) →
  chain_ok s2 ∧ ledger s2 = ledger s + rewardOf eff ∧ uncovered s2 ≤ uncovered s ∧ penalties s2 = penalties s ∧
  size s2 = size s ∧ version s2 = version s.
Proof.
  intros He Hs Hroom H1 H2. pose proof (reward_penalty _ He) as [Hr _]. pose proof sq_proposer as Hq.
  destruct (ledger_room s Hs) as [? ?]. pose proof (sumZ_nonneg _ (co_balances s Hs)).
  assert (0 ≤ rewardOf eff / ProposerRewardQuotient ≤ rewardOf eff) as Hp.
  { split; [apply Z.div_pos; lia|]. apply Z.div_le_upper_bound; nia. }
  set (p := rewardOf eff / ProposerRewardQuotient) in *. rewrite u64_small in H2 by (unfold is_u64; lia).
  apply IncreaseBalance_pays in H1; [|apply balances_u64; [done|lia]|unfold is_u64; lia].
  apply pays_slashes in H1 as (Hs1 & Hl1 & Hu1 & Hp1 & Hz1 & Hv1); [|done|lia].
  apply IncreaseBalance_pays in H2; [|apply balances_u64; [done|lia]|unfold is_u64; lia].
  apply pays_slashes in H2 as (Hs2 & Hl2 & Hu2 & Hp2 & Hz2 & Hv2); [|done|lia].
  split_and!; [done|lia|lia|congruence|congruence|congruence].
Qed.

(** The steps of a slashing that succeeds. *)
Lemma SlashValidator_inv proposer i s ei s' ei' v : chain_ok s → validators s !! Z.to_nat i = Some v →
  SlashValidator proposer i (s, ei) = (Ok tt, (s', ei')) →
  ∃ s1 v1 w sl p s2 s3, same_money s s1 ∧ stakes s1 = stakes s ∧ version s1 = version s ∧
    validators s1 !! Z.to_nat i = Some v1 ∧
    let r := rewardOf (EffectiveBalance v1) in
    DecreaseBalance i (penaltyOf (EffectiveBalance v1))
      (set_slashings sl (set_validators (<[Z.to_nat i := set_slashed w v1]> (validators s1)) s1)) = (Ok tt, s2) ∧
    IncreaseBalance p (r / ProposerRewardQuotient) s2 = (Ok tt, s3) ∧
    IncreaseBalance p (r -64 r / ProposerRewardQuotient) s3 = (Ok tt, s').
Proof.
  intros Hs Hv. unfold SlashValidator. rewrite (M_bind_Ok _ _ _ (s, ei) (s, ei)) by done.
  intros ([] & [s1 ei1] & Hexit & Hrun)%M_bind_Ok_inv. eapply exit_slashes in Hexit as (Hm & Hst & Hver); [|done|done].
  pose proof (same_money_moves _ _ Hm) as [Hs1 _ _].
  rewrite (M_bind_Ok _ _ _ (s1, ei1) (s1, ei1)) in Hrun by done.
  apply M_bind_Ok_inv in Hrun as (epoch & ? & Hr & Hrun). injection Hr as _ <-.
  apply M_bind_Ok_inv in Hrun as (v1 & ? & Hr & Hrun). injection Hr as Hv1 <-. apply list_at_inv in Hv1 as [_ Hv1].
  cbv zeta in Hrun. set (we := Epoch.MaxEpoch _ _) in Hrun.
  apply M_bind_Ok_inv in Hrun as ([] & [s2 ei2] & Hup & Hrun). unfold onState, UpdateValidatorAtIndex in Hup.
  destruct (_ >=? _) in Hup; [done|]. injection Hup as Hs2 <-.
  apply M_bind_Ok_inv in Hrun as (j & ? & Hr & Hrun). injection Hr as _ <-.
  apply M_bind_Ok_inv in Hrun as (cur & ? & Hr & Hrun). injection Hr as _ <-.
  apply M_bind_Ok_inv in Hrun as ([] & [s3 ei3] & Hup & Hrun). unfold onState, UpdateSlashingsAtIndex in Hup.
  destruct (_ <=? _) in Hup; [done|]. injection Hup as Hs3 <-.
  apply M_bind_Ok_inv in Hrun as ([[pq rq] wq] & ? & Hr & Hrun). injection Hr as Hq <-.
  unfold SlashingParamsPerVersion in Hq. rewrite Z.geb_leb in Hq. pose proof (co_version s1 Hs1) as Hver1.
  apply Z.leb_le in Hver1. rewrite Hver1 in Hq. injection Hq as <- <- <-. pose proof sq_penalty as Hpq. pose proof sq_proposer as Hrq.
  rewrite !Div64_cases in Hrun. destruct (Z.eqb_spec MinSlashingPenaltyQuotientElectra 0); [lia|].
  destruct (Z.eqb_spec WhistleBlowerRewardQuotientElectra 0); [lia|].
  rewrite (M_bind_Ok _ _ _ (penaltyOf (EffectiveBalance v1)) (s3, ei1)) in Hrun by done.
  apply M_bind_Ok_inv in Hrun as ([] & [s4 ei4] & Hdec & Hrun). unfold onState in Hdec.
  destruct (DecreaseBalance _ _ s3) as [r s4'] eqn:Hd. injection Hdec as -> -> <-.
  rewrite (M_bind_Ok _ _ _ (s4, ei1) (s4, ei1)) in Hrun by done.
  apply M_bind_Ok_inv in Hrun as (pi & ? & Hr & Hrun). injection Hr as _ <-.
  rewrite (M_bind_Ok _ _ _ (rewardOf (EffectiveBalance v1)) (s4, ei1)) in Hrun by done. cbv beta in Hrun.
  rewrite Div64_cases in Hrun. destruct (Z.eqb_spec ProposerRewardQuotient 0); [lia|].
  rewrite (M_bind_Ok _ _ _ (rewardOf (EffectiveBalance v1) / ProposerRewardQuotient) (s4, ei1)) in Hrun by done.
  apply M_bind_Ok_inv in Hrun as ([] & [s5 ei5] & Hinc & Hrun). unfold onState in Hinc, Hrun.
  destruct (IncreaseBalance _ _ s4) as [r5 s5'] eqn:H5. injection Hinc as -> -> <-.
  destruct (IncreaseBalance _ _ s5) as [r6 s6'] eqn:H6. injection Hrun as -> -> <-.
  subst s2 s3. eexists s1, v1, we, _, pi, s4, s5. done.
Qed.

Lemma SlashValidator_slashes proposer i s ei s' ei' v : chain_ok s → ledger s + uncovered s < two64 →
  validators s !! Z.to_nat i = Some v → Slashed v = false →
  SlashValidator proposer i (s, ei) = (Ok tt, (s', ei')) → slashes s s'.
Proof.
  intros Hs Hroom Hv Hsl Hrun. apply (SlashValidator_inv _ _ _ _ _ _ v) in Hrun as
    (s1 & v1 & w & sl & p & s2 & s3 & Hm & Hst & Hver & Hv1 & Hdec & H3 & H'); [|done..].
  pose proof (same_money_moves _ _ Hm) as [Hs1 Hl1 _]. rewrite Z.add_0_r in Hl1.
  assert (uncovered s1 = uncovered s ∧ penalties s1 = penalties s ∧ size s1 = size s) as (Hu1 & Hp1 & Hz1).
  { unfold uncovered, penalties, size. by rewrite Hst, (sm_balances _ _ Hm), (sm_deposits _ _ Hm), (sm_size _ _ Hm). }
  assert (Slashed v1 = false) as Hsl1.
  { assert (stakes s1 !! Z.to_nat i = stakes s !! Z.to_nat i) as H1 by (by rewrite Hst).
    unfold stakes in H1. rewrite !list_lookup_fmap, Hv, Hv1 in H1. cbn in H1. congruence. }
  pose proof (uncovered_nonneg s) as Hu0.
  destruct (lookup_ok _ _ _ Hs1 Hv1) as [_ He]. pose proof (reward_penalty _ He) as Hr.
  apply DecreaseBalance_takes in Hdec as (b & Hb & ->); [|apply (balances_u64 s1); [done|lia]|lia].
  destruct (mark_and_take s1 (Z.to_nat i) v1 b w sl Hs1 Hv1 Hsl1 Hb) as (Hs2 & Hl2 & Hu2 & Hp2 & Hz2 & Hv2).
  match goal with H : chain_ok ?x |- _ => match x with set_balances _ _ => set (s2 := x) in * end end.
  pose proof (Forall_lookup_1 _ _ _ _ (co_balances s1 Hs1) Hb) as Hb0. cbv beta in Hb0. pose proof (uncovered_nonneg s2) as Hu2'.
  destruct (reward_parts (EffectiveBalance v1) s2 p s3 s') as (Hs' & Hl' & Hu' & Hp' & Hz' & Hv'); [done|done|lia|done|done|].
  split; [done|lia|lia|lia|congruence|congruence].
Qed.

(** *** Slashings in blocks *)
Lemma slashable_unslashed v e : IsSlashableValidator v e = true → Slashed v = false.
Proof. unfold IsSlashableValidator, checkValidatorSlashable. by destruct (Slashed v); rewrite ?andb_false_r. Qed.

Lemma ProcessProposerSlashings_slashes proposer sigOk gloas slashings s ei s' ei' :
  chain_ok s → version s < version_Gloas → ledger s + uncovered s < two64 →
  ProcessProposerSlashings proposer sigOk gloas slashings (s, ei) = (Ok tt, (s', ei')) → slashes s s'.
Proof.
  unfold ProcessProposerSlashings. revert s ei. induction slashings as [|x xs IH]; intros s ei Hs Hver Hroom Hrun.
  { cbn in Hrun. unfold mret, M_ret in Hrun. simplify_eq. by apply slashes_refl. }
  cbn [mfor] in Hrun. apply M_bind_Ok_inv in Hrun as ([] & [s1 ei1] & Hx & Hrun).
  assert (slashes s s1) as H1.
  { destruct x as [x|]; [|done]. unfold ProcessProposerSlashing in Hx. rewrite (M_bind_Ok _ _ _ (s, ei) (s, ei)) in Hx by done.
    apply M_bind_Ok_inv in Hx as ([] & ? & Hr & Hx). injection Hr as Hok <-.
    unfold VerifyProposerSlashing, processProposerSlashing in *. destruct (Header_1 x) as [h1|], (Header_2 x) as [h2|]; try done.
    destruct (negb _) in Hok; [done|]. destruct (negb _) in Hok; [done|]. destruct (bool_decide _) in Hok; [done|].
    apply bind_Ok_inv in Hok as (v & Hv & Hok). apply list_at_inv in Hv as [_ Hv]. apply bind_Ok_inv in Hok as (e & _ & Hok).
    destruct (IsSlashableValidator v e) eqn:Hsl; [|done]. apply slashable_unslashed in Hsl.
    rewrite (M_bind_Ok _ _ _ (s, ei) (s, ei)) in Hx by done. rewrite Z.geb_leb in Hx.
    destruct (Z.leb_spec version_Gloas (version s)); [lia|]. rewrite (M_bind_Ok _ _ _ tt (s, ei)) in Hx by done.
    by eapply SlashValidator_slashes. }
  pose proof (sl_upper _ _ H1). eapply slashes_trans; [done|].
  apply (IH s1 ei1); [apply H1|rewrite (sl_version _ _ H1); done|lia|done].
Qed.

Lemma slashLoop_slashes proposer epoch indices any s ei any' s' ei' : chain_ok s → ledger s + uncovered s < two64 →
  mfold indices any (λ slashedAny validatorIndex,
    '(s, _) ← mget;
    val ← mlift (ValidatorAtIndex s validatorIndex);
    if IsSlashableValidator val epoch then
      SlashValidator proposer validatorIndex;; mret true
    else mret slashedAny) (s, ei) = (Ok any', (s', ei')) → slashes s s'.
Proof.
  revert any s ei. induction indices as [|i indices IH]; intros any s ei Hs Hroom Hrun.
  { cbn in Hrun. unfold mret, M_ret in Hrun. simplify_eq. by apply slashes_refl. }
  cbn [mfold] in Hrun. apply M_bind_Ok_inv in Hrun as (any1 & [s1 ei1] & Hx & Hrun).
  assert (slashes s s1) as H1.
  { rewrite (M_bind_Ok _ _ _ (s, ei) (s, ei)) in Hx by done. apply M_bind_Ok_inv in Hx as (v & ? & Hr & Hx).
    injection Hr as Hv <-. apply list_at_inv in Hv as [_ Hv]. destruct (IsSlashableValidator v epoch) eqn:Hsl.
    - apply slashable_unslashed in Hsl. apply M_bind_Ok_inv in Hx as ([] & [s2 ei2] & Hx & Hr).
      unfold mret, M_ret in Hr. simplify_eq. by eapply SlashValidator_slashes.
    - unfold mret, M_ret in Hx. simplify_eq. by apply slashes_refl. }
  pose proof (sl_upper _ _ H1). eapply slashes_trans; [done|]. eapply IH; [apply H1|lia|done].
Qed.
Lemma ProcessAttesterSlashings_slashes proposer maxc sigOk slashings s ei s' ei' :
  chain_ok s → ledger s + uncovered s < two64 →
  ProcessAttesterSlashings proposer maxc sigOk slashings (s, ei) = (Ok tt, (s', ei')) → slashes s s'.
Proof.
  unfold ProcessAttesterSlashings. revert s ei. induction slashings as [|x xs IH]; intros s ei Hs Hroom Hrun.
  { cbn in Hrun. unfold mret, M_ret in Hrun. simplify_eq. by apply slashes_refl. }
  cbn [mfor] in Hrun. apply M_bind_Ok_inv in Hrun as ([] & [s1 ei1] & Hx & Hrun).
  assert (slashes s s1) as H1.
  { unfold ProcessAttesterSlashing, processAttesterSlashing in Hx. rewrite (M_bind_Ok _ _ _ (s, ei) (s, ei)) in Hx by done.
    apply M_bind_Ok_inv in Hx as ([] & ? & Hr & Hx). injection Hr as _ <-. cbv zeta in Hx.
    rewrite (M_bind_Ok _ _ _ (s, ei) (s, ei)) in Hx by done. apply M_bind_Ok_inv in Hx as (e & ? & Hr & Hx). injection Hr as _ <-.
    apply M_bind_Ok_inv in Hx as (any & [s2 ei2] & Hloop & Hx). destruct (negb any); [done|].
    unfold mret, M_ret in Hx. simplify_eq. by eapply slashLoop_slashes. }
  pose proof (sl_upper _ _ H1). eapply slashes_trans; [done|]. eapply IH; [apply H1|lia|done].
Qed.
End slashing.

(** ** Sync aggregates pay nothing *)
Section sync.
Context `{cfg : BeaconChainConfig} `{ecfg : EpochConfig} `{ocfg : OperationsConfig}.
Implicit Types s : BeaconState.

Lemma SyncRewards_zero active c p r c' : BaseRewardFactor = 0 → SyncRewards active c = (Ok (p, r), c') → p = 0 ∧ r = 0.
Proof.
  intros Hf. unfold SyncRewards. intros (inc & ? & _ & Hrun)%M_bind_Ok_inv.
  apply M_bind_Ok_inv in Hrun as (b & c1 & Hb & Hrun).
  assert (b = 0) as ->.
  { unfold BaseRewardPerIncrement in Hb. destruct (active =? 0); [done|]. rewrite Hf in Hb.
    apply M_bind_Ok_inv in Hb as (root & ? & _ & Hq). unfold mlift in Hq. injection Hq as Hq _.
    rewrite Z.mul_0_r in Hq. by apply quo_0_l in Hq. }
  assert (∀ z, u64 (0 * z) = 0) as Hz by (intros z; by rewrite Z.mul_0_l). cbv zeta in Hrun. rewrite !Hz in Hrun.
  do 3 (apply M_bind_Ok_inv in Hrun as (? & ? & Hq & Hrun); unfold mlift in Hq; injection Hq as Hq <-; apply quo_0_l in Hq as ->).
  rewrite Hz in Hrun. apply M_bind_Ok_inv in Hrun as (? & ? & Hq & Hrun). unfold mlift in Hq. injection Hq as Hq <-. apply quo_0_l in Hq as ->.
  unfold mret, M_ret in Hrun. by simplify_eq.
Qed.

Lemma DecreaseBalance_zero s i s' : Forall is_u64 (balances s) → DecreaseBalance i 0 s = (Ok tt, s') → s' = s.
Proof.
  intros Hu Hrun. apply DecreaseBalance_takes in Hrun as (b & Hb & ->); [|done..].
  pose proof (Forall_lookup_1 _ _ _ _ Hu Hb) as Hbu. unfold is_u64 in Hbu.
  replace (b - Z.min b 0) with b by lia. rewrite list_insert_id by done. by destruct s.
Qed.

Lemma syncMembers_zero keyOk members acc s acc' s' : Forall is_u64 (balances s) →
  mfold members acc (syncMember keyOk 0 0) s = (Ok acc', s') → acc.2 = 0 → s' = s ∧ acc'.2 = 0.
Proof.
  intros Hu. revert acc. induction members as [|[key bit] members IH]; intros [voted n] Hrun Hn; simpl in Hn; subst n.
  { cbn in Hrun. unfold mret, M_ret in Hrun. by simplify_eq. }
  cbn [mfold] in Hrun. apply M_bind_Ok_inv in Hrun as ([voted1 n1] & s1 & Hx & Hrun).
  assert (s1 = s ∧ n1 = 0) as [-> ->]; [|by apply IH in Hrun].
  unfold syncMember in Hx. rewrite (M_bind_Ok _ _ _ s s) in Hx by done.
  destruct (ValidatorIndexByPubkey _ _) as [i|]; [|done]. destruct bit.
  - apply M_bind_Ok_inv in Hx as ([] & ? & Hr & Hx). injection Hr as _ <-. apply M_bind_Ok_inv in Hx as ([] & s2 & H2 & Hx).
    apply IncreaseBalance_zero in H2 as ->; [|done]. unfold mret, M_ret in Hx. by simplify_eq.
  - apply M_bind_Ok_inv in Hx as ([] & s2 & H2 & Hx). apply DecreaseBalance_zero in H2 as ->; [|done].
    unfold mret, M_ret in Hx. by simplify_eq.
Qed.

Lemma ProcessSyncAggregate_leaves proposer keyOk sigOk committee bits s c r s' c' : BaseRewardFactor = 0 →
  Forall is_u64 (balances s) →
  ProcessSyncAggregate proposer keyOk sigOk committee bits (s, c) = (Ok r, (s', c')) → s' = s ∧ r = 0.
Proof.
  intros Hf Hu. unfold ProcessSyncAggregate. intros ([voted n] & [s1 c1] & Hp & Hrun)%M_bind_Ok_inv.
  assert (s1 = s ∧ n = 0) as [-> ->].
  { unfold processSyncAggregate in Hp. destruct committee as [keys|]; [|done]. destruct (_ >? _); [done|].
    rewrite (M_bind_Ok _ _ _ (s, c) (s, c)) in Hp by done. apply M_bind_Ok_inv in Hp as (ab & ? & Hr & Hp). injection Hr as _ <-.
    apply M_bind_Ok_inv in Hp as ([pr par] & [s2 c2] & Hr & Hp). unfold onCache in Hr.
    destruct (SyncRewards ab c) as [r2 c2'] eqn:Hsr. injection Hr as -> <- ->. apply SyncRewards_zero in Hsr as [-> ->]; [|done].
    apply M_bind_Ok_inv in Hp as (pi & ? & Hr & Hp). injection Hr as _ <-.
    apply M_bind_Ok_inv in Hp as ([voted3 n3] & [s3 c3] & Hm & Hp). unfold onState in Hm.
    destruct (mfold _ _ _ s) as [r4 s4] eqn:Hfold. injection Hm as -> -> <-.
    apply syncMembers_zero in Hfold as [-> Hn]; [|done|done]. simpl in Hn. subst n3.
    apply M_bind_Ok_inv in Hp as ([] & [s5 c5] & Hi & Hp). unfold onState in Hi. destruct (IncreaseBalance pi 0 s) as [r6 s6] eqn:Hinc.
    injection Hi as -> -> <-. apply IncreaseBalance_zero in Hinc as ->; [|done]. unfold mret, M_ret in Hp. by simplify_eq. }
  rewrite (M_bind_Ok _ _ _ (s, c1) (s, c1)) in Hrun by done. apply M_bind_Ok_inv in Hrun as ([] & ? & Hr & Hrun). injection Hr as _ <-.
  unfold mret, M_ret in Hrun. by simplify_eq.
Qed.
End sync.

(** ** Deposits of a block *)
Section block_deposits.
Context `{cfg : BeaconChainConfig} `{ecfg : EpochConfig} `{ocfg : OperationsConfig} `{sigs : DepositSignatures}.
Context {dc : DepositConfig} {wc : WithdrawalConfig}.
Context (hash : list Z → list Z) (dataRoot : DepositData.t → gores (list Z)).
Implicit Types s : BeaconState.

Definition deposited (d : option Deposit) : Z :=
  match d with Some (mkDeposit _ (Some data)) => DepositData.Amount data | _ => 0 end.
(** A deposit with a bad signature is dropped if its key is new. *)
Definition unsignedDeposit (d : option Deposit) : Z :=
  match d with
  | Some (mkDeposit _ (Some data)) => if verifyDepositSignature data then 0 else DepositData.Amount data
  | _ => 0
  end.
Definition block_deposit_ok (d : option Deposit) : Prop :=
  match d with
  | Some (mkDeposit _ (Some data)) => is_u64 (DepositData.Amount data) ∧ len (DepositData.WithdrawalCredentials data) = 32
  | _ => True
  end.

(** A loop whose steps that succeed move [d x] less at most [r x], and add at most [q] entries. *)
Lemma mfor_loses {A} (d r : A → Z) (q : Z) (xs : list A) (body : A → M BeaconState unit) s s' :
  0 ≤ q → (∀ x, x ∈ xs → 0 ≤ d x) →
  (∀ x s s', x ∈ xs → chain_ok s → size s + q < two63 → body x s = (Ok tt, s') →
     ∃ lost, 0 ≤ lost ≤ r x ∧ moves s (d x - lost) q s') →
  chain_ok s → size s + q * len xs < two63 → mfor xs body s = (Ok tt, s') →
  ∃ lost, 0 ≤ lost ≤ sumBy r xs ∧ moves s (sumBy d xs - lost) (q * len xs) s'.
Proof.
  intros Hq Hd Hbody. revert s. induction xs as [|x xs IH]; intros s Hs Hsize Hrun.
  { cbn in Hrun. unfold mret, M_ret in Hrun. simplify_eq. exists 0. change (sumBy d [] - 0) with 0. change (len (@nil A)) with 0.
    rewrite Z.mul_0_r. split; [done|by apply moves_refl]. }
  assert (len (x :: xs) = len xs + 1) as Hl by (unfold len; simpl; lia). rewrite Hl in *. rewrite !sumBy_cons.
  assert (0 ≤ len xs) by (unfold len; lia).
  cbn [mfor] in Hrun. apply M_bind_Ok_inv in Hrun as ([] & s1 & Hx & Hrun).
  destruct (Hbody x s s1) as (l1 & Hl1 & H1); [set_solver|done|nia|done|].
  destruct (IH (λ y Hy, Hd y (list_elem_of_further _ _ _ Hy)) (λ y t t' Hy, Hbody y t t' (list_elem_of_further _ _ _ Hy)) s1)
    as (l2 & Hl2 & H2); [apply H1|pose proof (mv_size _ _ _ _ H1); nia|done|].
  exists (l1 + l2). split; [lia|]. replace (d x + sumBy d xs - (l1 + l2)) with (d x - l1 + (sumBy d xs - l2)) by lia.
  replace (q * (len xs + 1)) with (q + q * len xs) by lia. by eapply moves_trans.
Qed.

Lemma append_pending_moves s pd s' : chain_ok s → deposit_ok pd → AppendPendingDeposit pd s = (Ok tt, s') →
  moves s (PendingDeposit.Amount pd) 1 s'.
Proof.
  intros Hs Hp. unfold AppendPendingDeposit, fromVersion, mbind, M_bind, mget, mmodify. destruct (_ <? _); [done|]. intros. simplify_eq.
  split.
  - destruct Hs. split; try done. cbn. apply Forall_app. split; [done|]. by apply Forall_cons.
  - unfold ledger. change (pendingDeposits (set_pendingDeposits ?q _)) with q.
    change (balances (set_pendingDeposits _ _)) with (balances s). rewrite amounts_app.
    change (amounts [pd]) with (PendingDeposit.Amount pd + 0). lia.
  - unfold size. change (pendingDeposits (set_pendingDeposits ?q _)) with q.
    change (validators (set_pendingDeposits _ _)) with (validators s). unfold len. rewrite length_app. simpl. lia.
Qed.

(** Registering a validator without a balance. *)
Lemma addState_moves s pd : chain_ok s → deposit_ok pd → len (validators s) + 1 < two63 → moves s 0 1 (addState pd 0 s).
Proof.
  intros Hs Hp Hl. destruct (addState_ok s pd 0 (chain_deposit_state s Hs ltac:(lia)) Hp ltac:(lia) Hl) as [_ Hsum]. split.
  - by apply addState_chain.
  - unfold ledger. rewrite Hsum. change (pendingDeposits (addState pd 0 s)) with (pendingDeposits s). lia.
  - unfold size. change (validators (addState pd 0 s)) with (validators s ++ [newValidator pd 0]).
    change (pendingDeposits (addState pd 0 s)) with (pendingDeposits s). unfold len. rewrite length_app. simpl. lia.
Qed.

Lemma ApplyDeposit_moves s data b s' : chain_ok s → size s + 2 < two63 →
  is_u64 (DepositData.Amount data) → len (DepositData.WithdrawalCredentials data) = 32 →
  ApplyDeposit data b s = (Ok tt, s') →
  ∃ lost, 0 ≤ lost ≤ (if verifyDepositSignature data then 0 else DepositData.Amount data) ∧
    moves s (DepositData.Amount data - lost) 2 s'.
Proof.
  intros Hs Hsize Ha Hc. set (pd := PendingDeposit.mk (DepositData.PublicKey data) (DepositData.WithdrawalCredentials data)
    (DepositData.Amount data) (DepositData.Signature data) GenesisSlot). assert (deposit_ok pd) as Hp by done.
  assert (len (validators s) + 1 < two63) as Hl by (unfold size in Hsize; assert (0 ≤ len (pendingDeposits s)) by (unfold len; lia); lia).
  unfold ApplyDeposit. rewrite (M_bind_Ok _ _ _ s s) by done. cbv zeta. unfold is_u64 in Ha.
  assert (∀ t, moves s 0 1 t → AppendPendingDeposit pd t = (Ok tt, s') → ∃ lost,
    0 ≤ lost ≤ (if verifyDepositSignature data then 0 else DepositData.Amount data) ∧ moves s (DepositData.Amount data - lost) 2 s') as Hkept.
  { intros t H1 Happ. exists 0. split; [destruct (verifyDepositSignature data); lia|].
    apply append_pending_moves in Happ; [|apply H1|done]. rewrite Z.sub_0_r. exact (moves_trans _ _ _ _ _ _ _ H1 Happ). }
  destruct (ValidatorIndexByPubkey _ _) as [i|] eqn:Hi.
  - rewrite bool_decide_false by done. cbn [andb]. rewrite (M_bind_Ok _ _ _ tt s) by done. apply Hkept.
    apply (moves_weaken _ _ 0); [lia|by apply moves_refl].
  - rewrite bool_decide_true by done. cbn [andb]. unfold IsValidDepositSignature.
    destruct (negb b && negb (verifyDepositSignature data)) eqn:Hbad.
    + unfold mret, M_ret. intros. simplify_eq. apply andb_true_iff in Hbad as [_ Hbad]. apply negb_true_iff in Hbad. rewrite Hbad.
      exists (DepositData.Amount data). split; [lia|]. rewrite Z.sub_diag. apply (moves_weaken _ _ 0); [lia|by apply moves_refl].
    + pose proof (AddValidator_Ok s pd 0 (chain_deposit_state s Hs ltac:(lia)) ltac:(cbn; lia)) as Hadd.
      cbn [PendingDeposit.PublicKey PendingDeposit.WithdrawalCredentials pd] in Hadd.
      rewrite (M_bind_Ok _ _ _ _ _ Hadd). apply Hkept. by apply addState_moves.
Qed.

Lemma ProcessDeposits_moves s deposits s' : chain_ok s → Forall block_deposit_ok deposits →
  size s + 2 * len deposits < two63 → ProcessDeposits hash dataRoot deposits s = (Ok tt, s') →
  ∃ lost, 0 ≤ lost ≤ sumBy unsignedDeposit deposits ∧ moves s (sumBy deposited deposits - lost) (2 * len deposits) s'.
Proof.
  intros Hs Hds Hsize Hrun. eapply mfor_loses; [done| | |done|done|exact Hrun].
  { intros d Hd. eapply Forall_forall in Hds; [|done]. destruct d as [[proof [data|]]|]; [|done..]. by destruct Hds as [[? _] _]. }
  clear s s' Hs Hsize Hrun. intros d s s' Hd Hs Hsize Hrun. eapply Forall_forall in Hds; [|done].
  destruct d as [[proof [data|]]|]; [|done..]. destruct Hds as [Ha Hc]. unfold ProcessDeposit in Hrun.
  rewrite (M_bind_Ok _ _ _ s s) in Hrun by done. apply M_bind_Ok_inv in Hrun as ([] & ? & Hr & Hrun). injection Hr as _ <-.
  apply M_bind_Ok_inv in Hrun as ([] & s1 & Hi & Hrun). injection Hi as <-.
  set (s1 := set_eth1DepositIndex _ s) in *. assert (moves s 0 0 s1) as H1.
  { apply same_money_moves. split; [destruct Hs; by split|done..]. }
  apply ApplyDeposit_moves in Hrun as (lost & Hl & H2); [|apply H1|pose proof (mv_size _ _ _ _ H1); lia|done|done].
  exists lost. split; [done|]. exact (moves_trans _ _ _ _ _ _ _ H1 H2).
Qed.
End block_deposits.

(** ** Runs *)
Record Flow := mkFlow {
  inflow : Z;    (* deposits of blocks and requested deposits *)
  shortfall : Z; (* rewards for slashings beyond the balances of the slashed validators *)
  outflow : Z;   (* withdrawals paid *)
  atRisk : Z;    (* deposits with a bad signature, penalties, and balances of slashed validators *)
  queued : Z     (* entries that the queue of deposits can grow by *)
}.
Definition noFlow : Flow := mkFlow 0 0 0 0 0.
Definition addFlow (f g : Flow) : Flow :=
  mkFlow (inflow f + inflow g) (shortfall f + shortfall g) (outflow f + outflow g) (atRisk f + atRisk g) (queued f + queued g).

Section supply.
Context `{cfg : BeaconChainConfig} `{ecfg : EpochConfig} `{ocfg : OperationsConfig} `{sigs : DepositSignatures}.
Context {laws : DepositSignatureLaws sigs} {dc : DepositConfig} {wc : WithdrawalConfig}.
Implicit Types s : BeaconState.

Class SupplyConfig : Prop := {
  sc_factor : BaseRewardFactor = 0;
  sc_partials : PendingPartialWithdrawalsLimit < two64
}.
Context {sc : SupplyConfig} {sq : SlashingQuotients}.
Context (hash : list Z → list Z) (procs : nat) (withdrawalRoot : Withdrawal.t → gores (list Z)).
Context (exitSignatureOk : bool → VoluntaryExit → Validator → bool) (proposer : BeaconState → gores Z).
Context (dataRoot : DepositData.t → gores (list Z)) (headerSignatureOk : BeaconState → BeaconBlockHeader → bool).
Context (gloasStep : BeaconBlockHeader → M BeaconState unit).
Context (maxCommittees : Z) (attestationSignatureOk : BeaconState → IndexedAttestation → bool).
Context (publicKeyFromBytes : list Z → gores unit) (syncSignatureOk : BeaconState → list (list Z) → gores unit).

(** An operation of a block or of an epoch boundary that succeeds, or a change elsewhere in the
    state: the slot, roots, votes, checkpoints and vectors that hold no money. *)
Inductive step s : Flow → BeaconState → Prop :=
  | step_elsewhere s' : same_money s s' → step s noFlow s'
  | step_proposer_slashings slashings ei ei' s' : version s < version_Gloas →
      ProcessProposerSlashings proposer headerSignatureOk gloasStep slashings (s, ei) = (Ok tt, (s', ei')) →
      step s (mkFlow 0 (uncovered s) 0 (penalties s - penalties s') 0) s'
  | step_attester_slashings slashings ei ei' s' :
      ProcessAttesterSlashings proposer maxCommittees attestationSignatureOk slashings (s, ei) = (Ok tt, (s', ei')) →
      step s (mkFlow 0 (uncovered s) 0 (penalties s - penalties s') 0) s'
  | step_sync_aggregate committee bits c r c' s' :
      ProcessSyncAggregate proposer publicKeyFromBytes syncSignatureOk committee bits (s, c) = (Ok r, (s', c')) → step s noFlow s'
  | step_deposits deposits s' : Forall block_deposit_ok deposits →
      ProcessDeposits hash dataRoot deposits s = (Ok tt, s') →
      step s (mkFlow (sumBy deposited deposits) 0 0 (sumBy unsignedDeposit deposits) (2 * len deposits)) s'
  | step_exits exits ei ei' s' : ProcessVoluntaryExits exitSignatureOk exits (s, ei) = (Ok tt, (s', ei')) → step s noFlow s'
  | step_attestation target indices flags total c c' s' :
      SetParticipationAndRewardProposer proposer target indices flags total (s, c) = (Ok tt, (s', c')) → step s noFlow s'
  | step_withdrawal_requests wrs s' : (∀ w, Some w ∈ wrs → 0 ≤ wr_Amount w) →
      ProcessWithdrawalRequests wrs s = (Ok tt, s') → step s noFlow s'
  | step_consolidation_requests reqs s' :
      ProcessConsolidationRequests reqs s = (Ok tt, s') → step s (mkFlow 0 0 0 0 (len reqs)) s'
  | step_deposit_requests reqs s' : Forall request_ok reqs →
      ProcessDepositRequests reqs s = (Ok tt, s') → step s (mkFlow (sumBy requested reqs) 0 0 0 (len reqs)) s'
  | step_withdrawals data ws k s' : ExpectedWithdrawals s = Ok (ws, k) →
      ProcessWithdrawals hash procs withdrawalRoot data s = (Ok tt, s') → step s (mkFlow 0 0 (paid ws) 0 0) s'
  | step_rewards bal vals vals' c c' s' :
      ProcessRewardsAndPenaltiesPrecompute bal vals (s, c) = (Ok vals', (s', c')) → step s noFlow s'
  | step_registry s' : ProcessRegistryUpdatesElectra s = (Ok tt, s') → step s noFlow s'
  | step_slashings s' :
      ProcessSlashings s = (Ok tt, s') → step s (mkFlow 0 0 0 (slashedBalance (validators s) (balances s)) 0) s'
  | step_pending_deposits activeBalance churn finalizedSlot s' : epoch_inputs s activeBalance churn finalizedSlot →
      ProcessPendingDeposits activeBalance s = (Ok tt, s') → step s (mkFlow 0 0 0 (unsigned s) 0) s'
  | step_pending_consolidations s' : ProcessPendingConsolidations s = (Ok tt, s') → step s noFlow s'
  | step_effective_balances s' : ProcessEffectiveBalanceUpdatesElectra s = (Ok tt, s') → step s noFlow s'.

Inductive run s : Flow → BeaconState → Prop :=
  | run_nil : run s noFlow s
  | run_cons f s1 g s' : step s f s1 → run s1 g s' → run s (addFlow f g) s'.

Lemma deposited_nonneg d : block_deposit_ok d → 0 ≤ deposited d.
Proof. destruct d as [[proof [data|]]|]; [|done..]. by intros [[? _] _]. Qed.
Lemma step_nonneg s f s' : step s f s' → 0 ≤ inflow f ∧ 0 ≤ shortfall f ∧ 0 ≤ queued f.
Proof.
  destruct 1; cbn; unfold len; pose proof (uncovered_nonneg s); try lia; (split; [|lia]).
  - apply sumBy_nonneg. eapply Forall_impl; [done|]. apply deposited_nonneg.
  - apply sumBy_nonneg. eapply Forall_impl; [done|]. apply requested_nonneg.
Qed.
Lemma run_nonneg s f s' : run s f s' → 0 ≤ inflow f ∧ 0 ≤ shortfall f ∧ 0 ≤ queued f.
Proof. induction 1 as [|s f s1 g s' Hstep]; [done|]. apply step_nonneg in Hstep. cbn. lia. Qed.

Lemma unsigned_nonneg s : chain_ok s → 0 ≤ unsigned s.
Proof.
  intros Hs. apply sumBy_nonneg. eapply Forall_impl; [apply (co_deposits s Hs)|]. intros pd [Ha _]. unfold is_u64 in Ha.
  destruct (verifyDepositSignature _); lia.
Qed.

(** One step keeps the invariant, gains at most the shortfall and loses at most what is at risk. *)
Definition conserves s (f : Flow) s' : Prop :=
  ∃ gained lost, 0 ≤ gained ≤ shortfall f ∧ 0 ≤ lost ≤ atRisk f ∧ 0 ≤ outflow f ∧
    moves s (inflow f + gained - outflow f - lost) (queued f) s'.
Lemma same_money_conserves s s' : same_money s s' → conserves s noFlow s'.
Proof. intros H. exists 0, 0. cbn. split_and!; [lia..|]. by apply same_money_moves. Qed.
Lemma slashes_conserves s s' : slashes s s' → conserves s (mkFlow 0 (uncovered s) 0 (penalties s - penalties s') 0) s'.
Proof.
  intros [Hs Hu Hl Hp Hz _]. pose proof (uncovered_nonneg s'). pose proof (uncovered_nonneg s).
  exists (Z.max 0 (ledger s' - ledger s)), (Z.max 0 (ledger s - ledger s')). cbn. split_and!; [lia..|]. split; [done|lia|lia].
Qed.
Lemma result_post {A} (Φ : BeaconState → Prop) (m : M BeaconState A) s r s' : Φ (m s).2 → m s = (r, s') → Φ s'.
Proof. intros H Heq. by rewrite Heq in H. Qed.

Lemma step_conserves s f s' : chain_ok s → ledger s + inflow f + shortfall f < two64 → size s + queued f < two63 →
  step s f s' → conserves s f s'.
Proof.
  intros Hs Hroom Hsize Hstep.
  destruct Hstep as [s' Hsame|sl ei ei' s' Hver Hrun|sl ei ei' s' Hrun|committee bits c r c' s' Hrun|deposits s' Hds Hrun
    |exits ei ei' s' Hrun|target indices fs total c c' s' Hrun|wrs s' Hw Hrun|reqs s' Hrun|reqs s' Hreqs Hrun
    |data ws k s' Hexp Hrun|bal vals vals' c c' s' Hrun|s' Hrun|s' Hrun|ab churn fin s' He Hrun|s' Hrun|s' Hrun];
    cbn [noFlow inflow shortfall outflow atRisk queued] in Hroom, Hsize;
    repeat rewrite Z.add_0_r in Hroom; repeat rewrite Z.add_0_r in Hsize.
  - by apply same_money_conserves.
  - apply slashes_conserves. by eapply ProcessProposerSlashings_slashes.
  - apply slashes_conserves. by eapply ProcessAttesterSlashings_slashes.
  - apply same_money_conserves. apply ProcessSyncAggregate_leaves in Hrun as [-> _]; [|apply sc_factor|by apply balances_u64].
    by apply same_money_refl.
  - apply ProcessDeposits_moves in Hrun as (lost & Hl & Hm); [|done..]. exists 0, lost. cbn. rewrite Z.add_0_r, Z.sub_0_r.
    split_and!; [lia..|done].
  - apply same_money_conserves. pose proof (ProcessVoluntaryExits_money s exitSignatureOk exits (s, ei) (same_money_refl s Hs)) as Hm.
    by rewrite Hrun in Hm.
  - apply same_money_conserves. by eapply SetParticipation_money; [apply sc_factor|..].
  - apply same_money_conserves. by eapply result_post; [apply ProcessWithdrawalRequests_money|].
  - exists 0, 0. cbn. split_and!; [lia..|]. by apply ProcessConsolidationRequests_moves.
  - exists 0, 0. cbn. rewrite Z.add_0_r, !Z.sub_0_r. split_and!; [lia..|]. by apply ProcessDepositRequests_moves.
  - destruct (ProcessWithdrawals_moves hash procs withdrawalRoot data s s') as (ws' & k' & Hexp' & Hp & Hm);
      [done|done|done|apply sc_partials|done|].
    rewrite Hexp in Hexp'. injection Hexp' as <- <-. exists 0, 0. cbn. split_and!; [lia..|].
    replace (0 + 0 - paid ws - 0) with (- paid ws) by lia. done.
  - apply same_money_conserves. pose proof (rewards_leave_state s c bal vals sc_factor (balances_u64 s Hs Hroom)) as Hr.
    rewrite Hrun in Hr. cbn in Hr. subst. by apply same_money_refl.
  - apply same_money_conserves. by eapply result_post; [apply ProcessRegistryUpdatesElectra_money|].
  - destruct (ProcessSlashings_burns s s') as (burned & Hb & Hm); [done..|]. exists 0, burned. cbn. by split_and!; [lia..|].
  - destruct (ProcessPendingDeposits_moves s ab churn fin) as (s1 & lost & Hrun' & Hl & Hm); [done..|].
    rewrite Hrun in Hrun'. simplify_eq. exists 0, lost. cbn. by split_and!; [lia..|].
  - exists 0, 0. cbn. split_and!; [lia..|]. by apply ProcessPendingConsolidations_moves.
  - apply same_money_conserves. eapply result_post; [apply ProcessEffectiveBalanceUpdatesElectra_money; [done|apply maxEffective_nonneg]|done].
Qed.

(** C3: The supply of a chain with [BASE_REWARD_FACTOR] zero is fixed.  Along any sequence of
    successful operations of Electra blocks (proposer and attester slashings, attestations, sync
    aggregates, deposits, exits, withdrawal, consolidation and deposit requests, payouts of
    withdrawals) and of Electra epoch boundaries (rewards and penalties, registry updates,
    slashing penalties, pending deposits, pending consolidations, effective balance updates),
    with changes in between of parts of the state that hold no money, the balances and the
    queued deposits together grow by no more than the deposits made less the withdrawals paid,
    except that the reward for slashing a validator may exceed what is left of its balance;
    they lose no more than the deposits with a bad signature, the penalties of slashings and
    the balances of slashed validators; and the state stays well formed.  The money has to fit
    in 64 bits with the deposits, and the validators and the queue in 63. *)
Theorem fixed_supply s f s' : chain_ok s → run s f s' →
  ledger s + inflow f + shortfall f < two64 → size s + queued f < two63 →
  chain_ok s' ∧ ledger s + inflow f - outflow f - atRisk f ≤ ledger s' ≤ ledger s + inflow f + shortfall f - outflow f.
Proof.
  intros Hs Hrun. induction Hrun as [s|s f s1 g s' Hstep Hrun IH]; intros Hroom Hsize; cbn in *; [split; [done|lia]|].
  pose proof (run_nonneg _ _ _ Hrun). pose proof (step_nonneg _ _ _ Hstep).
  apply step_conserves in Hstep as (gained & lost & Hg & Hl & Ho & Hm); [|done|lia|lia].
  pose proof (mv_ledger _ _ _ _ Hm) as Hled. pose proof (mv_size _ _ _ _ Hm) as Hsz.
  destruct IH as [Hs' Hb]; [apply Hm|lia|lia|]. split; [done|lia].
Qed.
End supply.

(** ** Witness *)
#[local] Existing Instance mainnet_config.
#[local] Existing Instance zero_factor.
#[local] Existing Instance mainnet_operations_config.
#[local] Existing Instance ex_signatures.
#[local] Existing Instance ex_signature_laws.
#[local] Instance zero_deposit_config : DepositConfig.
Proof. split; cbn; lia. Qed.
#[local] Instance zero_withdrawal_config : WithdrawalConfig.
Proof. split; cbn; lia. Qed.
#[local] Instance zero_supply_config : SupplyConfig.
Proof. split; [done|]. cbn. lia. Qed.
#[local] Instance zero_quotients : SlashingQuotients.
Proof. split; cbn; lia. Qed.

(** Epoch 300: one validator that stays, with key 7, one that has exited, with key 8, and one
    that will be slashed, with key 6; a pending deposit with a bad signature. *)
Definition ex_chain : BeaconState :=
  mkState version_Electra 9600
    [mkValidator 32000000000 false 0 0 MaxUint64 MaxUint64 [7] (ex_credentials 1);
     mkValidator 32000000000 false 0 0 10 266 [8] (ex_credentials 1);
     mkValidator 32000000000 false 0 0 MaxUint64 MaxUint64 [6] (ex_credentials 1)]
    [32000000000; 31000000000; 32000000000] (replicate 8192 0) [0; 0; 0] [0; 0; 0] [0; 0; 0] [] [] [] (mkCheckpoint 0 0) (mkCheckpoint 0 0) (mkCheckpoint 299 0)
    0 0 0 0 [] [] 100 0 [] [ex_pending 9 4000000000 0] [] 0 0 0 (mkEth1Data [] 0)
    (<[ToBytes48 [6] := 2]> (<[ToBytes48 [8] := 1]> {[ToBytes48 [7] := 0]})).
Definition ex_request : option DepositRequest :=
  Some (mkDepositRequest (DepositData.mk [7] (ex_credentials 1) 5000000000 [1]) 0).

Lemma ex_chain_ok : chain_ok ex_chain.
Proof.
  split.
  - vm_compute. discriminate.
  - vm_compute. split; [discriminate|reflexivity].
  - reflexivity.
  - reflexivity.
  - repeat constructor; discriminate.
  - repeat constructor; vm_compute; discriminate.
  - intros k i Hk. change (valIdxMap ex_chain) with (<[ToBytes48 [6] := 2]> (<[ToBytes48 [8] := 1]> ({[ToBytes48 [7] := 0]} : gmap (list Z) Z))) in Hk.
    apply lookup_insert_Some in Hk as [[<- <-]|[_ Hk]]; [split; [done|by eexists]|].
    apply lookup_insert_Some in Hk as [[<- <-]|[_ Hk]]; [split; [done|by eexists]|].
    apply lookup_singleton_Some in Hk as [<- <-]. split; [done|by eexists].
  - vm_compute. split; [discriminate|reflexivity].
  - vm_compute. split; [discriminate|reflexivity].
  - apply Forall_nil_2.
  - vm_compute. discriminate.
  - repeat constructor; vm_compute; discriminate.
  - apply Forall_nil_2.
  - vm_compute. discriminate.
Qed.

(** The proposer of two headers of slot 9599 is slashed, and the reward goes to validator 0; a
    sync aggregate is processed; a deposit of 5 Ether is requested; the exited validator is
    paid its 31 Ether and validator 0 its excess; and the pending deposits are processed: the
    old one is dropped, the new one waits for finality. *)
Definition ex_proposer (s : BeaconState) : gores Z := Ok 0.
Definition ex_slashing : option ProposerSlashing :=
  Some (mkProposerSlashing (Some (mkHeader 9599 2 1 1 1)) (Some (mkHeader 9599 2 1 1 2))).
Definition ex_noRoot (d : DepositData.t) : gores (list Z) := Err errMessage.
Definition ex_info : ExitInfo := mkExitInfo 0 0 64000000000.
Definition ex_slashed : gores unit * (BeaconState * ExitInfo) :=
  ProcessProposerSlashings ex_proposer (λ _ _, true) (λ _, mret tt) [ex_slashing] (ex_chain, ex_info).
Definition ex_chain1 : BeaconState := ex_slashed.2.1.
Definition ex_chain2 : BeaconState := (ProcessDepositRequests [ex_request] ex_chain1).2.
Definition ex_paid : list Withdrawal.t :=
  [Withdrawal.mk 100 0 (seqZ 1 20) 7812500; Withdrawal.mk 101 1 (seqZ 1 20) 31000000000].
Definition ex_chain3 : BeaconState := (ProcessWithdrawals id 1 ex_root (ex_payload ex_chain2) ex_chain2).2.
Definition ex_chain4 : BeaconState := (ProcessPendingDeposits 32000000000 ex_chain3).2.
Lemma result_eta {S A} (m : M S A) s a : (m s).1 = Ok a → m s = (Ok a, (m s).2).
Proof. intros <-. by destruct (m s). Qed.
Lemma ex_slashed_eq :
  ProcessProposerSlashings ex_proposer (λ _ _, true) (λ _, mret tt) [ex_slashing] (ex_chain, ex_info) =
  (Ok tt, (ex_chain1, ex_slashed.2.2)).
Proof.
  unfold ex_chain1, ex_slashed. set (x := ProcessProposerSlashings _ _ _ _ _).
  assert (x.1 = Ok tt) as H by (vm_compute; reflexivity). clearbody x. destruct x as [r [s ei]]. cbn in *. by rewrite H.
Qed.

Definition ex_synced : gores Z * (BeaconState * SquareRootCache) :=
  ProcessSyncAggregate ex_proposer (λ _, Ok tt) (λ _ _, Ok tt) (Some [[7]; [6]]) [true; false] (ex_chain1, initialCache).
Lemma ex_synced_eq :
  ProcessSyncAggregate ex_proposer (λ _, Ok tt) (λ _ _, Ok tt) (Some [[7]; [6]]) [true; false] (ex_chain1, initialCache) =
  (Ok 0, (ex_chain1, ex_synced.2.2)).
Proof.
  unfold ex_synced. set (x := ProcessSyncAggregate _ _ _ _ _ _).
  assert (x.1 = Ok 0) as H by (vm_compute; reflexivity). assert (x.2.1 = ex_chain1) as H1 by (vm_compute; reflexivity).
  clearbody x. destruct x as [r [s c]]. cbn [fst snd] in *. by rewrite H, H1.
Qed.

Lemma ex_run : run id 1 ex_root (λ _ _ _, true) ex_proposer ex_noRoot (λ _ _, true) (λ _, mret tt) 64 (λ _ _, true)
  (λ _, Ok tt) (λ _ _, Ok tt) ex_chain
  (addFlow (mkFlow 0 0 0 7812500 0) (addFlow noFlow (addFlow (mkFlow 5000000000 0 0 0 1)
    (addFlow (mkFlow 0 0 31007812500 0 0) (addFlow (mkFlow 0 0 0 4000000000 0) noFlow))))) ex_chain4.
Proof.
  apply (run_cons _ _ _ _ _ _ _ _ _ _ _ _ ex_chain (mkFlow 0 0 0 7812500 0) ex_chain1).
  { assert (mkFlow 0 0 0 7812500 0 = mkFlow 0 (uncovered ex_chain) 0 (penalties ex_chain - penalties ex_chain1) 0) as ->
      by (vm_compute; reflexivity).
    apply (step_proposer_slashings _ _ _ _ _ _ _ _ _ _ _ _ ex_chain [ex_slashing] ex_info ex_slashed.2.2); [vm_compute; reflexivity|].
    exact ex_slashed_eq. }
  apply (run_cons _ _ _ _ _ _ _ _ _ _ _ _ ex_chain1 noFlow ex_chain1).
  { apply (step_sync_aggregate _ _ _ _ _ _ _ _ _ _ _ _ ex_chain1 (Some [[7]; [6]]) [true; false] initialCache 0 ex_synced.2.2). exact ex_synced_eq. }
  apply (run_cons _ _ _ _ _ _ _ _ _ _ _ _ ex_chain1 (mkFlow 5000000000 0 0 0 1) ex_chain2).
  { apply (step_deposit_requests _ _ _ _ _ _ _ _ _ _ _ _ ex_chain1 [ex_request]); [repeat constructor; vm_compute; done|].
    apply result_eta. vm_compute. reflexivity. }
  apply (run_cons _ _ _ _ _ _ _ _ _ _ _ _ ex_chain2 (mkFlow 0 0 31007812500 0 0) ex_chain3).
  { apply (step_withdrawals _ _ _ _ _ _ _ _ _ _ _ _ ex_chain2 (ex_payload ex_chain2) ex_paid 0).
    - vm_compute. reflexivity.
    - apply result_eta. vm_compute. reflexivity. }
  apply (run_cons _ _ _ _ _ _ _ _ _ _ _ _ ex_chain3 (mkFlow 0 0 0 4000000000 0) ex_chain4); [|apply run_nil].
  assert (unsigned ex_chain3 = 4000000000) as <- by (vm_compute; reflexivity).
  apply (step_pending_deposits _ _ _ _ _ _ _ _ _ _ _ _ ex_chain3 32000000000 128000000000 9568).
  - split; [vm_compute; split; [discriminate|reflexivity]|vm_compute; reflexivity| |vm_compute; reflexivity].
    vm_compute. split_and!; (discriminate || reflexivity).
  - apply result_eta. vm_compute. reflexivity.
Qed.

Lemma fixed_supply_witness :
  chain_ok ex_chain ∧ chain_ok ex_chain4 ∧ balances ex_chain4 = [32000000000; 0; 31992187500] ∧
  amounts (pendingDeposits ex_chain4) = 5000000000 ∧
  ledger ex_chain + 5000000000 - 31007812500 - 4007812500 ≤ ledger ex_chain4 ≤ ledger ex_chain + 5000000000 - 31007812500.
Proof.
  pose proof (fixed_supply id 1 ex_root (λ _ _ _, true) ex_proposer ex_noRoot (λ _ _, true) (λ _, mret tt) 64 (λ _ _, true)
    (λ _, Ok tt) (λ _ _, Ok tt) ex_chain _ ex_chain4 ex_chain_ok ex_run) as H.
  split; [exact ex_chain_ok|]. destruct H as [Hs Hb]; [vm_compute; reflexivity|vm_compute; reflexivity|].
  split; [exact Hs|]. split; [vm_compute; reflexivity|]. split; [vm_compute; reflexivity|]. cbn in Hb. lia.
Defined.
