(* ===== verification/ValidatorMap.v ===== *)
(** * The validator map that copies of a state share

    beacon-chain/state/stateutil/validator_map_handler.go.  A state holds a pointer to the map
    from public keys to indices; [Copy] shares the pointer (state_trie.go) while the registry
    itself is copied on write, so an append to one copy writes the map of all of them.  The
    store here has the handlers and the states by address; a lookup ignores an index past the
    registry of its own state.  As long as every copy appends the same keys in the same order
    the lookups are exact; when two copies append different validators, they are not. *)
From S2P Require Import Prelude MathHelper Primitives Config MVSlice EpochConfig MerkleTrie BeaconState RegistryTheorems StateOperations.

Record ValidatorMapHandler := mkHandler { handler_valIdxMap : gmap (list Z) Z; mapRef : Z }.

(** A state: its registry and the address of its handler. *)
Record SharedState := mkShared { sh_validators : list Validator; valMapHandler : nat }.
Record Store := mkStore { handlers : list ValidatorMapHandler; states : gmap nat SharedState }.

Definition NewValMapHandler (vals : list Validator) : ValidatorMapHandler := mkHandler (ValidatorIndexMap vals) 1.
Definition AddRef (v : ValidatorMapHandler) : ValidatorMapHandler := mkHandler (handler_valIdxMap v) (mapRef v + 1).
Definition Handler_Get (v : ValidatorMapHandler) (key : list Z) : option Z := handler_valIdxMap v !! key.
Definition Handler_Set (v : ValidatorMapHandler) (key : list Z) (index : Z) : ValidatorMapHandler :=
  mkHandler (<[key := index]> (handler_valIdxMap v)) (mapRef v).

(** [SetValidators], and the constructors of a state, allocate a handler. *)
Definition SetValidators_shared (id : nat) (vals : list Validator) (w : Store) : Store :=
  mkStore (handlers w ++ [NewValMapHandler vals]) (<[id := mkShared vals (length (handlers w))]> (states w)).

(** [dst := src.Copy()] *)
Definition Copy_shared (src dst : nat) (w : Store) : Store :=
  match states w !! src with
  | Some st => mkStore (alter AddRef (valMapHandler st) (handlers w)) (<[dst := st]> (states w))
  | None => w
  end.

Definition AppendValidator_shared (id : nat) (val : Validator) (w : Store) : Store :=
  match states w !! id with
  | Some st =>
      let vals := sh_validators st ++ [val] in
      let valIdx := u64 (len vals - 1) in
      mkStore (alter (λ h, Handler_Set h (ToBytes48 (PublicKey val)) valIdx) (valMapHandler st) (handlers w))
        (<[id := mkShared vals (valMapHandler st)]> (states w))
  | None => w
  end.

Definition ValidatorIndexByPubkey_shared (id : nat) (key : list Z) (w : Store) : option Z :=
  st ← states w !! id;
  h ← handlers w !! valMapHandler st;
  idx ← Handler_Get h key;
  if len (sh_validators st) <=? idx then None else Some idx.

(** ** One order of keys *)
Definition keysOf (vs : list Validator) : list (list Z) := (λ v, ToBytes48 (PublicKey v)) <$> vs.

(** Stores that are reached when every registry grows along the sequence of keys [K]. *)
Inductive reachable (K : list (list Z)) : Store → Prop :=
  | reach_empty : reachable K (mkStore [] ∅)
  | reach_set w id vals : reachable K w → keysOf vals `prefix_of` K → reachable K (SetValidators_shared id vals w)
  | reach_copy w src dst : reachable K w → reachable K (Copy_shared src dst w)
  | reach_append w id st val : reachable K w → states w !! id = Some st →
      keysOf (sh_validators st ++ [val]) `prefix_of` K → reachable K (AppendValidator_shared id val w).

(** The map of a handler holds every key of the registry [vs], and only indices of [K]. *)
Record handler_ok (K : list (list Z)) (m : gmap (list Z) Z) (vs : list Validator) : Prop := {
  ho_sound k i : m !! k = Some i → 0 ≤ i ∧ K !! Z.to_nat i = Some k;
  ho_complete i k : keysOf vs !! i = Some k → m !! k = Some (Z.of_nat i)
}.
Definition store_ok (K : list (list Z)) (w : Store) : Prop :=
  ∀ id st, states w !! id = Some st →
    keysOf (sh_validators st) `prefix_of` K ∧
    ∃ h, handlers w !! valMapHandler st = Some h ∧ handler_ok K (handler_valIdxMap h) (sh_validators st).

Lemma keysOf_app vs vs' : keysOf (vs ++ vs') = keysOf vs ++ keysOf vs'.
Proof. apply fmap_app. Qed.
Lemma length_keysOf vs : length (keysOf vs) = length vs.
Proof. apply length_fmap. Qed.

Section order.
Context (K : list (list Z)) (HK : NoDup K) (Hroom : len K < two64).

Lemma handler_ok_insert m vs vs' v : (∀ k i, m !! k = Some i → 0 ≤ i ∧ K !! Z.to_nat i = Some k) →
  keysOf (vs ++ [v]) `prefix_of` K → keysOf vs' `prefix_of` K →
  (∀ i k, keysOf vs' !! i = Some k → k ≠ ToBytes48 (PublicKey v) → m !! k = Some (Z.of_nat i)) →
  handler_ok K (<[ToBytes48 (PublicKey v) := len vs]> m) vs'.
Proof.
  intros Hm Hpre Hpre' Hothers. assert (K !! length vs = Some (ToBytes48 (PublicKey v))) as Hv.
  { eapply prefix_lookup_Some; [|exact Hpre]. rewrite keysOf_app, lookup_app_r by (rewrite length_keysOf; lia).
    by rewrite length_keysOf, Nat.sub_diag. }
  split.
  - intros k i [[<- <-]|[_ Hk]]%lookup_insert_Some; [|by apply Hm].
    unfold len. by rewrite Nat2Z.id; split; [lia|].
  - intros i k Hk. destruct (decide (ToBytes48 (PublicKey v) = k)) as [<-|Hne].
    + rewrite lookup_insert_eq. do 2 f_equal. unfold len. f_equal. eapply NoDup_lookup; [done|done|by eapply prefix_lookup_Some].
    + rewrite lookup_insert_ne by done. by apply Hothers.
Qed.
(** An append, for the state that appends and for the others that share the handler. *)
Lemma handler_ok_set m vs v : handler_ok K m vs → keysOf (vs ++ [v]) `prefix_of` K →
  handler_ok K (<[ToBytes48 (PublicKey v) := len vs]> m) (vs ++ [v]).
Proof.
  intros Hm Hpre. apply handler_ok_insert; [apply Hm|done|done|]. intros i k Hk Hne. apply (ho_complete _ _ _ Hm).
  rewrite keysOf_app in Hk. apply lookup_app_Some in Hk as [Hk|[_ Hk]]; [done|].
  apply list_lookup_singleton_Some in Hk as [_ Hk]. by subst k.
Qed.
Lemma handler_ok_other m vs vs' v : handler_ok K m vs' → keysOf vs' `prefix_of` K → keysOf (vs ++ [v]) `prefix_of` K →
  handler_ok K (<[ToBytes48 (PublicKey v) := len vs]> m) vs'.
Proof. intros Hm Hpre' Hpre. apply handler_ok_insert; [apply Hm|done|done|]. intros i k Hk _. by apply (ho_complete _ _ _ Hm). Qed.

Lemma ValidatorIndexMap_app vs v :
  ValidatorIndexMap (vs ++ [v]) = <[ToBytes48 (PublicKey v) := len vs]> (ValidatorIndexMap vs).
Proof. unfold ValidatorIndexMap. by rewrite enumerate_snoc, foldl_app. Qed.
Lemma ValidatorIndexMap_ok vs : keysOf vs `prefix_of` K → handler_ok K (ValidatorIndexMap vs) vs.
Proof.
  induction vs as [|v vs IH] using rev_ind; intros Hpre; [by split|].
  rewrite ValidatorIndexMap_app. apply handler_ok_set; [|done]. apply IH. rewrite keysOf_app in Hpre. by eapply prefix_app_l.
Qed.

Lemma registry_room vs : keysOf vs `prefix_of` K → len vs < two64.
Proof. intros Hpre%prefix_length. rewrite length_keysOf in Hpre. unfold len in *. lia. Qed.

Lemma store_ok_set id vals w : store_ok K w → keysOf vals `prefix_of` K → store_ok K (SetValidators_shared id vals w).
Proof.
  intros Hw Hpre id' st Hst. cbn in Hst. apply lookup_insert_Some in Hst as [[<- <-]|[_ Hst]]; cbn.
  - split; [done|]. exists (NewValMapHandler vals). rewrite lookup_app_r, Nat.sub_diag by lia. split; [done|].
    by apply ValidatorIndexMap_ok.
  - destruct (Hw id' st Hst) as (Hp & h & Hh & Hok). split; [done|]. exists h. split; [|done]. by apply lookup_app_l_Some.
Qed.
(** Changing a handler so that every state that shares it stays right. *)
Lemma store_ok_alter f a w st' id' : store_ok K w → keysOf (sh_validators st') `prefix_of` K → valMapHandler st' = a →
  (∀ h, handlers w !! a = Some h → handler_ok K (handler_valIdxMap (f h)) (sh_validators st')) →
  (∀ h st, handlers w !! a = Some h → keysOf (sh_validators st) `prefix_of` K → handler_ok K (handler_valIdxMap h) (sh_validators st) →
     handler_ok K (handler_valIdxMap (f h)) (sh_validators st)) →
  is_Some (handlers w !! a) → store_ok K (mkStore (alter f a (handlers w)) (<[id' := st']> (states w))).
Proof.
  intros Hw Hpre Ha Hnew Hold [h Hh] id st Hst. cbn in Hst. apply lookup_insert_Some in Hst as [[<- <-]|[_ Hst]]; cbn.
  - split; [done|]. exists (f h). rewrite Ha, list_lookup_alter_eq, Hh. split; [done|auto].
  - destruct (Hw id st Hst) as (Hp & h' & Hh' & Hok). split; [done|]. destruct (decide (valMapHandler st = a)) as [Heq|Hne].
    + rewrite Heq in *. simplify_eq. exists (f h). rewrite list_lookup_alter_eq, Hh. split; [done|]. by apply Hold.
    + exists h'. by rewrite list_lookup_alter_ne.
Qed.
Lemma reachable_ok w : reachable K w → store_ok K w.
Proof.
  induction 1 as [|w id vals _ IH Hpre|w src dst _ IH|w id st val _ IH Hst Hpre].
  - intros id st Hst. done.
  - by apply store_ok_set.
  - unfold Copy_shared. destruct (states w !! src) as [st|] eqn:Hst; [|done].
    destruct (IH src st Hst) as (Hp & h & Hh & Hok). apply store_ok_alter; [done|done|done| |done|done].
    intros h' Hh'. by simplify_eq.
  - unfold AppendValidator_shared. rewrite Hst. destruct (IH id st Hst) as (Hp & h & Hh & Hok).
    pose proof (registry_room _ Hpre) as Hl. assert (u64 (len (sh_validators st ++ [val]) - 1) = len (sh_validators st)) as ->.
    { unfold len in *. rewrite length_app in *. simpl in *. rewrite u64_small; [lia|]. unfold is_u64. lia. }
    apply store_ok_alter; [done|done|done| | |done].
    + intros h' Hh'. simplify_eq. by apply handler_ok_set.
    + intros h' st' Hh' Hp' Hok'. by apply handler_ok_other.
Qed.

(** C30: Sharing the map is transparent as long as all the registries grow along one order of
    keys: whatever copies are taken and however their appends interleave, the lookup of a
    public key in a state is exactly a search in the state's own registry. *)
Theorem shared_map_exact w id st k i : reachable K w → states w !! id = Some st →
  ValidatorIndexByPubkey_shared id k w = Some i ↔ 0 ≤ i ∧ keysOf (sh_validators st) !! Z.to_nat i = Some k.
Proof.
  intros Hw Hst. destruct (reachable_ok w Hw id st Hst) as (Hp & h & Hh & Hok). unfold ValidatorIndexByPubkey_shared, Handler_Get.
  rewrite Hst. cbn. rewrite Hh. cbn. split.
  - destruct (handler_valIdxMap h !! k) as [j|] eqn:Hj; [|done]. cbn. apply (ho_sound _ _ _ Hok) in Hj as [Hj HKj].
    destruct (Z.leb_spec (len (sh_validators st)) j) as [|Hlt]; [done|]. intros [= <-]. split; [done|].
    destruct (lookup_lt_is_Some_2 (keysOf (sh_validators st)) (Z.to_nat j)) as [k' Hk']; [rewrite length_keysOf; unfold len in Hlt; lia|].
    pose proof (prefix_lookup_Some _ _ _ _ Hk' Hp). congruence.
  - intros [Hi Hk]. rewrite (ho_complete _ _ _ Hok _ _ Hk), Z2Nat.id by done. cbn.
    apply lookup_lt_Some in Hk. rewrite length_keysOf in Hk. unfold len. by destruct (Z.leb_spec (Z.of_nat (length (sh_validators st))) i); [lia|].
Qed.
End order.

(** ** Two orders of keys *)

(** C37: The copies of a state are not independent (the comment on [AddRef] says that it copies
    the map, the code counts a reference): when two copies of a state append different
    validators, the first copy finds the public key of the second one's validator at the
    position of its own validator, which has another key. *)
Theorem forked_registries_mix_keys w id st h dst va vb : states w !! id = Some st → id ≠ dst →
  handlers w !! valMapHandler st = Some h → len (sh_validators st) < two63 →
  ToBytes48 (PublicKey va) ≠ ToBytes48 (PublicKey vb) →
  let w' := AppendValidator_shared dst vb (AppendValidator_shared id va (Copy_shared id dst w)) in
  ∃ st' i v, states w' !! id = Some st' ∧ ValidatorIndexByPubkey_shared id (ToBytes48 (PublicKey vb)) w' = Some i ∧
    sh_validators st' !! Z.to_nat i = Some v ∧ ToBytes48 (PublicKey v) ≠ ToBytes48 (PublicKey vb).
Proof.
  intros Hst Hid Hh Hroom Hne. cbv zeta. set (vs := sh_validators st) in *. set (a := valMapHandler st) in *.
  assert (∀ v, u64 (len (vs ++ [v]) - 1) = len vs) as Hidx.
  { intros v. unfold len in *. rewrite length_app. simpl. rewrite u64_small; [lia|]. unfold is_u64. lia. }
  assert (AppendValidator_shared id va (Copy_shared id dst w) =
    mkStore (alter (λ h, Handler_Set h (ToBytes48 (PublicKey va)) (len vs)) a (alter AddRef a (handlers w)))
      (<[id := mkShared (vs ++ [va]) a]> (<[dst := st]> (states w)))) as ->.
  { unfold Copy_shared. rewrite Hst. unfold AppendValidator_shared. cbn. rewrite lookup_insert_ne, Hst by done. cbn. by rewrite Hidx. }
  set (w1 := mkStore _ _). assert (states w1 !! dst = Some st) as Hdst by (cbn; by rewrite lookup_insert_ne, lookup_insert_eq by done).
  unfold AppendValidator_shared, ValidatorIndexByPubkey_shared. rewrite Hdst. fold vs a. rewrite Hidx. cbn [states handlers].
  rewrite lookup_insert_ne by done. change (states w1 !! id) with ((<[id := mkShared (vs ++ [va]) a]> (<[dst := st]> (states w))) !! id).
  rewrite lookup_insert_eq. exists (mkShared (vs ++ [va]) a), (len vs), va. split; [done|]. cbn [mbind option_bind valMapHandler sh_validators].
  cbn [handlers w1]. rewrite !list_lookup_alter_eq, Hh. cbn [fmap option_fmap option_map mbind option_bind]. unfold Handler_Get, Handler_Set. cbn [handler_valIdxMap].
  rewrite lookup_insert_eq. cbn [mbind option_bind]. split_and!; [|unfold len; by rewrite Nat2Z.id, lookup_app_r, Nat.sub_diag by lia|done].
  unfold len. rewrite length_app. simpl. by destruct (Z.leb_spec (Z.of_nat (length vs + 1)) (Z.of_nat (length vs))); [lia|].
Qed.

(** ** Witnesses *)
Definition ex_keyed (k : Z) : Validator := mkValidator 0 false 0 0 0 0 [k] [].
Definition ex_store : Store := SetValidators_shared 0 [ex_keyed 1] (mkStore [] ∅).
(** A copy, and then an append of the same validator to both. *)
Definition ex_grown : Store := AppendValidator_shared 1 (ex_keyed 2) (AppendValidator_shared 0 (ex_keyed 2) (Copy_shared 0 1 ex_store)).

Lemma shared_map_exact_witness :
  ValidatorIndexByPubkey_shared 1 (ToBytes48 [2]) ex_grown = Some 1 ↔
    0 ≤ 1 ∧ keysOf [ex_keyed 1; ex_keyed 2] !! 1%nat = Some (ToBytes48 [2]).
Proof.
  apply (shared_map_exact (keysOf [ex_keyed 1; ex_keyed 2]) ltac:(by apply (bool_decide_unpack _)) ltac:(reflexivity)
    ex_grown 1 (mkShared [ex_keyed 1; ex_keyed 2] 0)); [|reflexivity].
  apply (reach_append _ _ 1 (mkShared [ex_keyed 1] 0)); [|reflexivity|by apply (bool_decide_unpack _)].
  apply (reach_append _ _ 0 (mkShared [ex_keyed 1] 0)); [|reflexivity|by apply (bool_decide_unpack _)].
  apply reach_copy, reach_set; [apply reach_empty|by apply (bool_decide_unpack _)].
Defined.

Lemma forked_registries_mix_keys_witness :
  let w' := AppendValidator_shared 1 (ex_keyed 3) (AppendValidator_shared 0 (ex_keyed 2) (Copy_shared 0 1 ex_store)) in
  ∃ st' i v, states w' !! 0%nat = Some st' ∧ ValidatorIndexByPubkey_shared 0 (ToBytes48 [3]) w' = Some i ∧
    sh_validators st' !! Z.to_nat i = Some v ∧ ToBytes48 (PublicKey v) ≠ ToBytes48 [3].
Proof.
  apply (forked_registries_mix_keys ex_store 0 (mkShared [ex_keyed 1] 0) (NewValMapHandler [ex_keyed 1]) 1 (ex_keyed 2) (ex_keyed 3));
    [reflexivity|discriminate|reflexivity|reflexivity|vm_compute; discriminate].
Defined.
