(* ===== verification/SszTheorems.v ===== *)
(** * The two Merkleizations agree

    [Merkleize] keeps one node per level, like the digits of a binary counter, and pads with
    zero hashes as it closes the counter; [MerkleizeVector] hashes layer by layer.  Both
    compute the root of the same tree. *)
From S2P Require Import Prelude MathHelper Shuffle MVSlice FieldTrieHelpers ZeroHashes MerkleTrie TrieHelpers MerkleTheorems TrieFacts SszMerkleize FieldTrie FieldTrieFacts Sha256.

(** ** Bits of positions *)
Lemma land_bit (i j : nat) : (Z.of_nat j < 64) →
  (Z.land (Z.of_nat i) (u64 (Z.shiftl 1 (Z.of_nat j))) =? 0) = ((i / 2 ^ j) mod 2 =? 0)%nat.
Proof.
  intros Hj. rewrite Z.shiftl_1_l, u64_small.
  2: { unfold is_u64. change two64 with (2 ^ 64). split; [lia|]. apply Z.pow_lt_mono_r; lia. }
  assert (Z.land (Z.of_nat i) (2 ^ Z.of_nat j) = if Z.testbit (Z.of_nat i) (Z.of_nat j) then 2 ^ Z.of_nat j else 0) as ->.
  { apply Z.bits_inj'. intros n Hn. rewrite Z.land_spec, Z.pow2_bits_eqb by lia. destruct (Z.eqb_spec (Z.of_nat j) n) as [<-|Hne].
    - destruct (Z.testbit (Z.of_nat i) (Z.of_nat j)); [by rewrite Z.pow2_bits_true by lia|by rewrite Z.bits_0].
    - rewrite andb_false_r. destruct (Z.testbit (Z.of_nat i) (Z.of_nat j)); [by rewrite Z.pow2_bits_false by lia|by rewrite Z.bits_0]. }
  rewrite Z.testbit_eqb by lia. assert (Z.of_nat i / 2 ^ Z.of_nat j = Z.of_nat (i / 2 ^ j)) as ->.
  { rewrite Nat2Z.inj_div, Nat2Z.inj_pow. done. }
  assert (0 < 2 ^ Z.of_nat j) by (apply Z.pow_pos_nonneg; lia).
  destruct (Z.eqb_spec (Z.of_nat (i / 2 ^ j) mod 2) 1), (Nat.eqb_spec ((i / 2 ^ j) mod 2) 0);
    first [apply Z.eqb_eq|apply Z.eqb_neq]; lia.
Qed.

(** The digits of [i] below [j] are ones and digit [j] is a zero. *)
Lemma counter_div i j k : (i mod 2 ^ j = 2 ^ j - 1)%nat → ((i / 2 ^ j) mod 2 = 0)%nat →
  (((i + 1) / 2 ^ k) mod 2 = 1)%nat → (k = j ∧ (i + 1) / 2 ^ k = i / 2 ^ k + 1)%nat ∨ (j < k ∧ (i + 1) / 2 ^ k = i / 2 ^ k)%nat.
Proof.
  intros Hlow Hbit Hodd. assert (0 < 2 ^ j)%nat as Hp by (apply Nat.neq_0_lt_0, Nat.pow_nonzero; lia).
  pose proof (Nat.div_mod_eq i (2 ^ j)) as Hi. set (q := (i / 2 ^ j)%nat) in *.
  assert (i + 1 = 2 ^ j * (q + 1))%nat as Hi1 by lia.
  destruct (lt_eq_lt_dec k j) as [[Hlt| ->]|Hgt].
  - exfalso. replace j with (k + S (j - k - 1))%nat in Hi1 by lia. rewrite Nat.pow_add_r, Nat.pow_succ_r' in Hi1.
    assert (0 < 2 ^ k)%nat by (apply Nat.neq_0_lt_0, Nat.pow_nonzero; lia).
    assert ((i + 1) / 2 ^ k = 2 * (2 ^ (j - k - 1) * (q + 1)))%nat as Hd.
    { rewrite Hi1. replace (2 ^ k * (2 * 2 ^ (j - k - 1)) * (q + 1))%nat with ((2 * (2 ^ (j - k - 1) * (q + 1))) * 2 ^ k)%nat by lia.
      apply Nat.div_mul. lia. }
    rewrite Hd, Nat.mul_comm, Nat.Div0.mod_mul in Hodd. lia.
  - left. split; [done|]. rewrite Hi1, Nat.mul_comm, Nat.div_mul by lia. done.
  - right. split; [done|]. replace k with (j + S (k - j - 1))%nat by lia. rewrite Nat.pow_add_r, <-!Nat.Div0.div_div. fold q.
    rewrite Hi1, (Nat.mul_comm (2 ^ j)), Nat.div_mul by lia. rewrite Nat.pow_succ_r', <-!Nat.Div0.div_div.
    f_equal. lia.
Qed.

Section streaming.
Context (hash : list Z → Root) (procs : nat) (Hz : zero_hashes_ok hash) (H32 : ∀ x, length (hash x) = 32%nat).
Context (leaf : nat → Root) (Hleaf : ∀ i, length (leaf i) = 32%nat).

Lemma node_zero d j : (d < 100)%nat → (∀ k, (k / 2 ^ d = j)%nat → leaf k = zh 0) → node hash leaf d j = zh d.
Proof.
  intros Hd Hl. rewrite (node_ext hash leaf (λ _, zh 0)) by done. clear Hl. revert j.
  induction d as [|d IH]; intros j; [done|]. cbn [node]. rewrite !IH by lia. apply Hz. lia.
Qed.
Lemma node_length d j : length (node hash leaf d j) = 32%nat.
Proof. destruct d; [apply Hleaf|apply H32]. Qed.
Lemma node_right d i : ((i / 2 ^ d) mod 2 = 1)%nat →
  hash (node hash leaf d (i / 2 ^ d - 1) ++ node hash leaf d (i / 2 ^ d)) = node hash leaf (S d) (i / 2 ^ S d).
Proof. intros Hodd. cbn [node]. rewrite pow2_S. do 2 f_equal; f_equal; lia. Qed.
Lemma node_left d i : ((i / 2 ^ d) mod 2 = 0)%nat →
  hash (node hash leaf d (i / 2 ^ d) ++ node hash leaf d (i / 2 ^ d + 1)) = node hash leaf (S d) (i / 2 ^ S d).
Proof. intros Heven. cbn [node]. rewrite pow2_S. do 2 f_equal; f_equal; lia. Qed.
Lemma copy_full (h x : Root) : length h = 32%nat → length x = 32%nat → copyInto h x = x.
Proof. intros Hh Hx. unfold copyInto. rewrite Hh, take_ge, drop_ge by lia. apply app_nil_r. Qed.

(** ** The counter: a node for every digit of the number of leaves merged *)
Definition counter (i : nat) (tmp : list Root) : Prop :=
  ∀ j, (j < length tmp)%nat → ((i / 2 ^ j) mod 2 = 1)%nat → tmp !! j = Some (node hash leaf j (i / 2 ^ j - 1)).

Lemma small_div i d : (i < 2 ^ d)%nat → (i / 2 ^ d = 0)%nat.
Proof. apply Nat.div_small. Qed.

(** Merging leaf [i] stops at the first zero digit of [i]. *)
Lemma mergeLoop_leaf fuel count depth d tmp i j : Z.of_nat i ≠ count → counter i tmp → (i < 2 ^ d)%nat → (d < length tmp)%nat → (d < 64)%nat →
  (j ≤ d)%nat → (d < fuel + j)%nat → (i mod 2 ^ j = 2 ^ j - 1)%nat →
  ∃ j', mergeLoop hash fuel count depth tmp (Z.of_nat i) j (node hash leaf j (i / 2 ^ j)) = Ok (j', node hash leaf j' (i / 2 ^ j')) ∧
    (j' ≤ d)%nat ∧ (i mod 2 ^ j' = 2 ^ j' - 1)%nat ∧ ((i / 2 ^ j') mod 2 = 0)%nat.
Proof.
  intros Hc Ht Hi Hd H64. revert j. induction fuel as [|fuel IH]; intros j Hj Hf Hlow; [lia|]. cbn [mergeLoop].
  rewrite land_bit by lia. destruct (Nat.eqb_spec ((i / 2 ^ j) mod 2) 0) as [Heven|Hodd].
  { destruct (Z.eqb_spec (Z.of_nat i) count); [done|]. cbn [andb]. exists j. split_and!; done || lia. }
  assert ((i / 2 ^ j) mod 2 = 1)%nat as Hodd' by lia. assert (j ≠ d) by (intros ->; rewrite small_div in Hodd by done; done).
  rewrite (at_Some _ _ _ (Ht j ltac:(lia) Hodd')). cbn [mbind gores_bind]. unfold Combi. rewrite node_right by done.
  apply IH; [lia|lia|]. assert (0 < 2 ^ j)%nat by (apply Nat.neq_0_lt_0, Nat.pow_nonzero; lia).
  rewrite Nat.pow_succ_r', (Nat.mul_comm 2), Nat.Div0.mod_mul_r. rewrite Hlow, Hodd'. lia.
Qed.

Lemma counter_insert i j tmp : counter i tmp → (i mod 2 ^ j = 2 ^ j - 1)%nat → ((i / 2 ^ j) mod 2 = 0)%nat →
  counter (i + 1) (<[j := node hash leaf j (i / 2 ^ j)]> tmp).
Proof.
  intros Ht Hlow Heven k Hk Hodd. rewrite length_insert in Hk.
  destruct (counter_div i j k Hlow Heven Hodd) as [[-> Hdiv]|[Hlt Hdiv]]; rewrite Hdiv in *.
  - rewrite list_lookup_insert_eq by lia. do 2 f_equal. lia.
  - rewrite list_lookup_insert_ne by lia. by apply Ht.
Qed.

Lemma merge_done count depth tmp i x j h : mergeLoop hash merge_fuel count depth tmp i 0 x = Ok (j, h) → (j < length tmp)%nat →
  merge hash count depth tmp i x = Ok (<[j := h]> tmp, h).
Proof.
  intros Hrun Hj. unfold merge. rewrite Hrun. cbn [mbind gores_bind]. destruct (lookup_lt_is_Some_2 tmp j Hj) as [y Hy].
  by rewrite (at_Some _ _ _ Hy).
Qed.

Lemma merge_leaf count depth d tmp i : Z.of_nat i ≠ count → counter i tmp → (i < 2 ^ d)%nat → (d < length tmp)%nat → (d < 64)%nat →
  ∃ tmp' h, merge hash count depth tmp (Z.of_nat i) (leaf i) = Ok (tmp', h) ∧ counter (i + 1) tmp' ∧
    length tmp' = length tmp ∧ length h = 32%nat.
Proof.
  intros Hc Ht Hi Hd H64. destruct (mergeLoop_leaf merge_fuel count depth d tmp i 0) as (j & Hrun & Hj & Hlow & Heven);
    try done; try (unfold merge_fuel; lia). rewrite Nat.pow_0_r, Nat.div_1_r in Hrun. cbn [node] in Hrun.
  eexists _, _. split_and!; [apply (merge_done _ _ _ _ _ _ _ Hrun); lia|by apply counter_insert|apply length_insert|apply node_length].
Qed.

Lemma mergeLeaves_counter data depth d n i tmp h : (∀ k, (i ≤ k < i + n)%nat → data k = leaf k) → counter i tmp →
  (i + n ≤ 2 ^ d)%nat → (d < length tmp)%nat → (d < 64)%nat → length h = 32%nat →
  ∃ tmp' h', mergeLeaves hash data (Z.of_nat (i + n)) depth (seq i n) tmp h = Ok (tmp', h') ∧ counter (i + n) tmp' ∧
    length tmp' = length tmp ∧ length h' = 32%nat.
Proof.
  revert i tmp h. induction n as [|n IH]; intros i tmp h Hdata Ht Hi Hd H64 Hh; cbn [mergeLeaves seq].
  { rewrite Nat.add_0_r. by exists tmp, h. }
  rewrite Hdata, copy_full by (done || lia).
  destruct (merge_leaf (Z.of_nat (i + S n)) depth d tmp i) as (tmp1 & h1 & -> & Ht1 & Hl1 & Hh1); [lia|done|lia|done|done|].
  cbn [mbind gores_bind]. destruct (IH (S i) tmp1 h1) as (tmp' & h' & Hrun & Ht' & Hl' & Hh');
    [intros; apply Hdata; lia|by replace (S i) with (i + 1)%nat by lia|lia|lia|done|done|].
  exists tmp', h'. replace (i + S n)%nat with (S i + n)%nat by lia. split_and!; [done|done|congruence|done].
Qed.

(** Closing the counter: zero hashes up to the root. *)
Lemma mergeLoop_close fuel tmp count d j : (∀ k, (count ≤ k)%nat → leaf k = zh 0) → counter count tmp → (count < 2 ^ d)%nat →
  (d < length tmp)%nat → (d < 64)%nat → (j ≤ d)%nat → (d < fuel + j)%nat →
  mergeLoop hash fuel (Z.of_nat count) d tmp (Z.of_nat count) j (node hash leaf j (count / 2 ^ j)) = Ok (d, node hash leaf d 0).
Proof.
  intros Hpad Ht Hc Hd H64. revert j. induction fuel as [|fuel IH]; intros j Hj Hf; [lia|]. cbn [mergeLoop]. rewrite land_bit by lia.
  rewrite Z.eqb_refl. cbn [andb]. assert (0 < 2 ^ j)%nat by (apply Nat.neq_0_lt_0, Nat.pow_nonzero; lia).
  destruct (Nat.eqb_spec ((count / 2 ^ j) mod 2) 0) as [Heven|Hodd].
  - destruct (Nat.ltb_spec j d) as [Hlt|Hge].
    + rewrite zeroHash_Ok by lia. cbn [mbind gores_bind]. unfold Combi. rewrite <-(node_zero j (count / 2 ^ j + 1)), node_left by
        (done || lia || (intros k Hk; apply Hpad; pose proof (Nat.Div0.mul_div_le k (2 ^ j)); pose proof (Nat.mul_succ_div_gt count (2 ^ j)); nia)).
      apply IH; lia.
    + assert (j = d) as -> by lia. by rewrite small_div.
  - assert (j ≠ d) by (intros ->; rewrite small_div in Hodd by done; done).
    rewrite (at_Some _ _ _ (Ht j ltac:(lia) ltac:(lia))). cbn [mbind gores_bind]. unfold Combi. rewrite node_right by lia. apply IH; lia.
Qed.

Lemma padLoop_root n j tmp : (∀ k, (2 ^ j ≤ k)%nat → leaf k = zh 0) → (j + n < 64)%nat → (j + n < length tmp)%nat →
  tmp !! j = Some (node hash leaf j 0) →
  ∃ tmp', padLoop hash n j tmp = Ok tmp' ∧ tmp' !! (j + n)%nat = Some (node hash leaf (j + n) 0).
Proof.
  revert j tmp. induction n as [|n IH]; intros j tmp Hpad H64 Hl Hj; cbn [padLoop]; [rewrite Nat.add_0_r; by exists tmp|].
  rewrite (at_Some _ _ _ Hj), zeroHash_Ok by lia. cbn [mbind gores_bind].
  destruct (lookup_lt_is_Some_2 tmp (S j)) as [x Hx]; [lia|]. rewrite (at_Some _ _ _ Hx). cbn [mbind gores_bind].
  destruct (IH (S j) (<[S j := Combi hash (node hash leaf j 0) (zh j)]> tmp)) as (tmp' & Hrun & Hroot).
  - intros k Hk. apply Hpad. rewrite Nat.pow_succ_r' in Hk. lia.
  - lia.
  - rewrite length_insert. lia.
  - rewrite list_lookup_insert_eq by lia. f_equal. unfold Combi. cbn [node]. do 2 f_equal. symmetry. apply node_zero; [lia|].
    intros k Hk. apply Hpad. pose proof (Nat.Div0.mul_div_le k (2 ^ j)). nia.
  - exists tmp'. split; [exact Hrun|]. by replace (j + S n)%nat with (S j + n)%nat by lia.
Qed.
End streaming.

Section agree.
Context (hash : list Z → Root) (procs : nat).

Lemma leaves_of_32 leaves : Forall (λ r, length r = 32%nat) leaves → ∀ i, length (leaves_of leaves i) = 32%nat.
Proof.
  intros Hl i. unfold leaves_of. destruct (leaves !! i) as [r|] eqn:Hr; [by apply (Forall_lookup_1 _ _ _ _ Hl Hr)|]. reflexivity.
Qed.
Lemma leaves_of_pad leaves k : (length leaves ≤ k)%nat → leaves_of leaves k = zh 0.
Proof. intros Hk. unfold leaves_of. by rewrite lookup_ge_None_2. Qed.

Lemma close_merge leaves d tmp : zero_hashes_ok hash → counter hash (leaves_of leaves) (length leaves) tmp →
  (length leaves < 2 ^ d)%nat → (d < length tmp)%nat → (d < 64)%nat →
  merge hash (Z.of_nat (length leaves)) d tmp (Z.of_nat (length leaves)) (zh 0) =
    Ok (<[d := node hash (leaves_of leaves) d 0]> tmp, node hash (leaves_of leaves) d 0).
Proof.
  intros Hz Ht Hcap Hd H64. apply merge_done; [|done]. rewrite <-(leaves_of_pad leaves (length leaves)) by lia.
  pose proof (mergeLoop_close hash Hz (leaves_of leaves) merge_fuel tmp (length leaves) d 0) as Hclose.
  rewrite Nat.pow_0_r, Nat.div_1_r in Hclose. apply Hclose; [intros; by apply leaves_of_pad|done|done|done|done|lia|unfold merge_fuel; lia].
Qed.

Lemma shift_pow d : (d < 64)%nat → u64 (Z.shiftl 1 (Z.of_nat d)) = Z.of_nat (2 ^ d).
Proof.
  intros H64. rewrite Z.shiftl_1_l, u64_small, Nat2Z.inj_pow; [done|]. unfold is_u64. change two64 with (2 ^ 64).
  split; [lia|]. apply Z.pow_lt_mono_r; lia.
Qed.
Lemma counter_full leaves d tmp : counter hash (leaves_of leaves) (length leaves) tmp → (2 ^ d)%nat = length leaves →
  (d < length tmp)%nat → tmp !! d = Some (node hash (leaves_of leaves) d 0).
Proof.
  intros Ht Heq Hd. assert (length leaves / 2 ^ d = 1)%nat as Hone by (rewrite <-Heq; apply Nat.div_same, Nat.pow_nonzero; lia).
  rewrite (Ht d Hd); rewrite Hone; done.
Qed.
Lemma counter_pad leaves h d tmp : zero_hashes_ok hash → counter hash (leaves_of leaves) (length leaves) tmp → length h = 32%nat →
  (length leaves < 2 ^ d)%nat → (d < length tmp)%nat → (d < 64)%nat →
  ('(tmp, _) ← merge hash (Z.of_nat (length leaves)) d tmp (Z.of_nat (length leaves)) (copyInto h (zh 0)); Ok tmp) =
    Ok (<[d := node hash (leaves_of leaves) d 0]> tmp).
Proof.
  intros Hz Ht Hh Hl Hd H64. rewrite copy_full, (close_merge leaves d tmp Hz Ht) by (done || lia || by rewrite zh_0). reflexivity.
Qed.
Lemma zeroHash_bind {A} (f : Root → gores A) : (z ← zeroHash 0; f z) = f (zh 0).
Proof. by rewrite zeroHash_Ok by lia. Qed.

(** The counter over all the leaves gives the root of the smallest tree that holds them. *)
Lemma close_counter leaves d tmp h : zero_hashes_ok hash → counter hash (leaves_of leaves) (length leaves) tmp →
  (length leaves ≤ 2 ^ d)%nat → (d < length tmp)%nat → (d < 64)%nat → length h = 32%nat →
  ∃ tmp', (if negb (u64 (Z.shiftl 1 (Z.of_nat d)) =? Z.of_nat (length leaves))
      then z ← zeroHash 0; '(tmp, _) ← merge hash (Z.of_nat (length leaves)) d tmp (Z.of_nat (length leaves)) (copyInto h z); Ok tmp
      else Ok tmp : gores (list Root)) = Ok tmp' ∧ tmp' !! d = Some (node hash (leaves_of leaves) d 0) ∧ length tmp' = length tmp.
Proof.
  intros Hz Ht Hcap Hd H64 Hh. rewrite shift_pow, zeroHash_bind by done.
  destruct (Z.eqb_spec (Z.of_nat (2 ^ d)) (Z.of_nat (length leaves))) as [Heq|Hne].
  - apply Nat2Z.inj in Heq. exists tmp. split; [done|]. split; [by apply counter_full|done].
  - rewrite counter_pad by (done || lia). eexists. split; [reflexivity|].
    split; [apply list_lookup_insert_eq; lia|apply length_insert].
Qed.

Lemma Merkleize_small leaves limit : Forall (λ r, length r = 32%nat) leaves → len leaves ≤ limit → limit = 0 ∨ limit = 1 →
  Merkleize hash (length leaves) limit (leaves_of leaves) = Ok (leaves_of leaves 0).
Proof.
  intros Hl Hlim Hsmall. assert (0 ≤ len leaves) by (unfold len; lia). unfold Merkleize. change (Z.of_nat (length leaves)) with (len leaves).
  rewrite Z.gtb_ltb. destruct (Z.ltb_spec limit (len leaves)); [lia|]. unfold len in *.
  destruct Hsmall as [-> | ->].
  - destruct leaves; [|simpl in *; lia]. unfold leaves_of. cbn [lookup list_lookup default]. by rewrite zh_0.
  - destruct leaves as [|r [|]]; [| |simpl in *; lia]; unfold leaves_of; cbn [Z.eqb length Nat.eqb lookup list_lookup default].
    + by rewrite zh_0.
    + apply Forall_cons in Hl as [Hr _]. by rewrite copy_full.
Qed.

(** C16: [Merkleize], which keeps one node per level and calls back for the leaves, and
    [MerkleizeVector], which hashes layer by layer with as many goroutines as there are
    processors, give the same root for the same 32-byte leaves: the root of the tree that the
    limit spans, with zero leaves after the last one.  The hash has 32 bytes and agrees with
    the table of zero hashes, and the limit is at most 2^63. *)
Theorem merkleizations_agree leaves limit : zero_hashes_ok hash → (∀ x, length (hash x) = 32%nat) →
  Forall (λ r, length r = 32%nat) leaves → len leaves ≤ limit ≤ two63 →
  Merkleize hash (length leaves) limit (leaves_of leaves) = Ok (node hash (leaves_of leaves) (Z.to_nat (Depth limit)) 0) ∧
  MerkleizeVector hash procs leaves limit = Ok (node hash (leaves_of leaves) (Z.to_nat (Depth limit)) 0).
Proof.
  intros Hz H32 Hl Hlim. assert (0 ≤ len leaves) by (unfold len; lia). split; [|apply MerkleizeVector_node; [done|lia]].
  destruct (decide (limit ≤ 1)) as [Hsmall|Hbig].
  { assert (Depth limit = 0) as -> by (unfold Depth; destruct (Z.leb_spec limit 1); [done|lia]).
    apply Merkleize_small; [done|lia|lia]. }
  destruct (Depth_bounds (len leaves)) as [Hd Hcap]; [lia|].
  assert (Depth (len leaves) ≤ Depth limit ≤ 63) as Hle.
  { rewrite !Depth_log2_up by lia. split; [apply Z.log2_up_le_mono; lia|]. apply Z.log2_up_le_pow2; [lia|]. change (2 ^ 63) with two63. lia. }
  unfold Merkleize. change (Z.of_nat (length leaves)) with (len leaves). set (d := Z.to_nat (Depth (len leaves))).
  set (D := Z.to_nat (Depth limit)). rewrite Z.gtb_ltb. destruct (Z.ltb_spec limit (len leaves)); [lia|].
  destruct (Z.eqb_spec limit 0); [lia|]. destruct (Z.eqb_spec limit 1); [lia|]. unfold len.
  assert (length leaves ≤ 2 ^ d)%nat as Hcap'.
  { apply Nat2Z.inj_le. rewrite Nat2Z.inj_pow. unfold d. rewrite Z2Nat.id by lia. exact Hcap. }
  pose proof (leaves_of_32 leaves Hl) as Hleaf.
  destruct (mergeLeaves_counter hash H32 (leaves_of leaves) Hleaf (leaves_of leaves) d d (length leaves) 0
    (replicate (S D) (replicate 32 0)) (replicate 32 0)) as (tmp & h & Hrun & Ht & Htl & Hh);
    [done|intros j _ Hj; rewrite Nat.Div0.div_0_l in Hj; done|lia|rewrite length_replicate; lia|lia|done|].
  rewrite Nat.add_0_l in Hrun, Ht. rewrite length_replicate in Htl. rewrite Hrun. cbn [mbind gores_bind].
  destruct (close_counter leaves d tmp h) as (tmp' & -> & Hroot & Htl'); [done|done|done|lia|lia|done|]. cbn [mbind gores_bind].
  destruct (padLoop_root hash Hz (leaves_of leaves) (D - d) d tmp') as (tmp2 & -> & Hroot2);
    [intros k Hk; apply leaves_of_pad; lia|lia|lia|done|]. cbn [mbind gores_bind].
  replace (d + (D - d))%nat with D in Hroot2 by lia. by rewrite (at_Some _ _ _ Hroot2).
Qed.
End agree.

(** ** Witness *)
Definition ex_chunks : list Root := [ToBytes32 [1]; ToBytes32 [2]; ToBytes32 [3]].
Lemma merkleizations_agree_witness :
  Merkleize Sha256.sha256 3 5 (leaves_of ex_chunks) = Ok (node Sha256.sha256 (leaves_of ex_chunks) 3 0) ∧
  MerkleizeVector Sha256.sha256 4 ex_chunks 5 = Ok (node Sha256.sha256 (leaves_of ex_chunks) 3 0).
Proof.
  apply (merkleizations_agree Sha256.sha256 4 ex_chunks 5);
    [exact sha256_zero_hashes|exact Sha256.sha256_length|repeat constructor|vm_compute; split; discriminate].
Defined.
