(* ===== verification/ParticipationTheorems.v ===== *)
(** * An attestation counts once

    The flags of [EpochParticipation] are set once, and the proposer is paid for the flags that
    an inclusion sets: including the same attesters with the same flags again pays nothing. *)
From S2P Require Import Prelude MathHelper Primitives Config SlotTime MVSlice EpochConfig BeaconState Finality EpochPrecompute WithdrawalTheorems Deposits DepositTheorems BlockOperations.

Section once.
Context `{cfg : BeaconChainConfig} `{ecfg : EpochConfig} `{ocfg : OperationsConfig}.
Implicit Types s : BeaconState.

Class FlagConfig : Prop := {
  fc_source : 0 ≤ TimelySourceFlagIndex ≤ 7;
  fc_target : 0 ≤ TimelyTargetFlagIndex ≤ 7;
  fc_head : 0 ≤ TimelyHeadFlagIndex ≤ 7;
  fc_increment : EffectiveBalanceIncrement ≠ 0
}.
Context {fc : FlagConfig}.

(** A flag that [fs] asks for is set. *)
Definition set_in (fs : gset Z) (flag i : Z) : Prop := i ∈ fs → flag_at flag i = true.
Definition complete (fs : gset Z) (flag : Z) : Prop :=
  set_in fs flag TimelySourceFlagIndex ∧ set_in fs flag TimelyTargetFlagIndex ∧ set_in fs flag TimelyHeadFlagIndex.

Lemma flag_at_testbit flag i : 0 ≤ i → flag_at flag i = Z.testbit flag i.
Proof.
  intros Hi. unfold flag_at. change 1 with (Z.ones 1) at 1. rewrite Z.land_ones, Z.testbit_eqb, Z.shiftr_div_pow2 by lia. done.
Qed.
Lemma flag_added flag i j : 0 ≤ i ≤ 7 → 0 ≤ j ≤ 7 → flag_at (Z.lor flag (u8 (Z.shiftl 1 i))) j = flag_at flag j || (i =? j).
Proof.
  intros Hi Hj. rewrite !flag_at_testbit, Z.lor_spec by lia. f_equal. rewrite Z.shiftl_1_l.
  assert (u8 (2 ^ i) = 2 ^ i) as ->.
  { unfold u8. apply Z.mod_small. split; [apply Z.pow_nonneg; lia|]. change 256 with (2 ^ 8). apply Z.pow_lt_mono_r; lia. }
  apply Z.pow2_bits_eqb. lia.
Qed.

Lemma participate_Ok fs br w i flag n : 0 ≤ i ≤ 7 →
  ∃ flag' n', participate (bool_decide (i ∈ fs)) br w i flag n = Ok (flag', n') ∧ set_in fs flag' i ∧
    ∀ j, 0 ≤ j ≤ 7 → flag_at flag j = true → flag_at flag' j = true.
Proof.
  intros Hi. unfold participate, HasValidatorFlag, AddValidatorFlag. rewrite Z.gtb_ltb. destruct (Z.ltb_spec 7 i); [lia|]. cbn [mbind gores_bind].
  destruct (bool_decide_reflect (i ∈ fs)) as [Hin|Hout]; cbn [andb]; [|eexists _, _; split; [done|]; split; [by intros ?|done]].
  destruct (flag_at flag i) eqn:Hf; cbn [negb]; [eexists _, _; split; [done|]; split; [by intros _|done]|]. eexists _, _. split; [done|]. split.
  - intros _. rewrite flag_added, Z.eqb_refl by done. apply orb_true_r.
  - intros j Hj Hfj. by rewrite flag_added, Hfj by done.
Qed.
Lemma participate_again fs br w i flag n : 0 ≤ i ≤ 7 → set_in fs flag i →
  participate (bool_decide (i ∈ fs)) br w i flag n = Ok (flag, n).
Proof.
  intros Hi Hset. unfold participate, HasValidatorFlag. rewrite Z.gtb_ltb. destruct (Z.ltb_spec 7 i); [lia|]. cbn [mbind gores_bind].
  destruct (bool_decide_reflect (i ∈ fs)) as [Hin|Hout]; cbn [andb]; [|done]. by rewrite (Hset Hin).
Qed.

Lemma participateAll_Ok fs br flag n : ∃ flag' n', participateAll fs br flag n = Ok (flag', n') ∧ complete fs flag'.
Proof.
  pose proof fc_source as Hs. pose proof fc_target as Ht. pose proof fc_head as Hh. unfold participateAll.
  destruct (participate_Ok fs br TimelySourceWeight TimelySourceFlagIndex flag n) as (f1 & n1 & -> & H1 & _); [done|]. cbn [mbind gores_bind].
  destruct (participate_Ok fs br TimelyTargetWeight TimelyTargetFlagIndex f1 n1) as (f2 & n2 & -> & H2 & K2); [done|]. cbn [mbind gores_bind].
  destruct (participate_Ok fs br TimelyHeadWeight TimelyHeadFlagIndex f2 n2) as (f3 & n3 & -> & H3 & K3); [done|].
  exists f3, n3. split; [done|]. split_and!; [|intros Hin; by apply K3, H2|done]. intros Hin. by apply K3, K2, H1.
Qed.
Lemma participateAll_again fs br flag n : complete fs flag → participateAll fs br flag n = Ok (flag, n).
Proof.
  intros (H1 & H2 & H3). unfold participateAll. rewrite participate_again by (apply fc_source || done). cbn [mbind gores_bind].
  rewrite participate_again by (apply fc_target || done). cbn [mbind gores_bind]. apply participate_again; [apply fc_head|done].
Qed.

(** ** The base reward of a validator always has a value *)
Lemma BaseReward_Ok s i total c : cache_ok c → 0 < total < MaxUint64 → 0 ≤ i < len (validators s) →
  ∃ br c', BaseRewardWithTotalBalance s i total c = (Ok br, c') ∧ cache_ok c'.
Proof.
  intros Hc Ht Hi. destruct (lookup_lt_is_Some_2 (validators s) (Z.to_nat i)) as [v Hv]; [unfold len in Hi; lia|].
  unfold BaseRewardWithTotalBalance, ValidatorAtIndex. rewrite (list_at_Ok _ _ v) by (done || lia).
  rewrite (M_bind_Ok _ _ _ v c) by done. unfold quo at 1. pose proof fc_increment.
  destruct (Z.eqb_spec EffectiveBalanceIncrement 0); [done|]. erewrite M_bind_Ok by done.
  unfold BaseRewardPerIncrement. destruct (Z.eqb_spec total 0); [lia|].
  destruct (CachedSquareRoot_correct total c Hc ltac:(lia)) as (c' & Hroot & Hc').
  unfold mbind, M_bind. rewrite Hroot. unfold mlift, quo. destruct (Z.eqb_spec (Z.sqrt total) 0) as [H0|_].
  - assert (1 ≤ Z.sqrt total) by (change 1 with (Z.sqrt 1); apply Z.sqrt_le_mono; lia). lia.
  - by eexists _, _.
Qed.

(** ** The loop *)
Definition in_registry s (bits indices : list Z) : Prop :=
  Forall (λ i, 0 ≤ i < len bits ∧ i < len (validators s)) indices.

(** The bytes of the indices visited have all the flags. *)
Definition all_set (fs : gset Z) (bits indices : list Z) : Prop :=
  Forall (λ i, ∃ flag, bits !! Z.to_nat i = Some flag ∧ complete fs flag) indices.

Definition visit s (fs : gset Z) (total : Z) (acc : Z * list Z) (index : Z) : M SquareRootCache (Z * list Z) :=
  let '(numerator, participation) := acc in
  if index >=? len participation then mfail errMessage
  else
    br ← BaseRewardWithTotalBalance s index total;
    flag ← mlift (index_at participation index);
    '(flag, numerator) ← mlift (participateAll fs br flag numerator);
    mret (numerator, <[Z.to_nat index := flag]> participation).

(** One index: its byte gets the flags, and nothing happens if it has them. *)
Lemma visit_Ok s fs total n bits i c : cache_ok c → 0 < total < MaxUint64 → 0 ≤ i < len bits → i < len (validators s) →
  ∃ n' flag' c', visit s fs total (n, bits) i c = (Ok (n', <[Z.to_nat i := flag']> bits), c') ∧ cache_ok c' ∧ complete fs flag' ∧
    ∀ flag, bits !! Z.to_nat i = Some flag → complete fs flag → n' = n ∧ flag' = flag.
Proof.
  intros Hc Ht Hi Hv. destruct (lookup_lt_is_Some_2 bits (Z.to_nat i)) as [flag Hflag]; [unfold len in Hi; lia|].
  destruct (BaseReward_Ok s i total c Hc Ht) as (br & c1 & Hbr & Hc1); [lia|].
  destruct (participateAll_Ok fs br flag n) as (flag' & n' & Hp & Hset). exists n', flag', c1.
  split_and!; [|done|done|].
  - unfold visit. rewrite Z.geb_leb. destruct (Z.leb_spec (len bits) i); [lia|]. rewrite (M_bind_Ok _ _ _ _ _ Hbr).
    rewrite (M_bind_Ok _ _ _ flag c1) by (unfold mlift, index_at; by rewrite Hflag).
    by rewrite (M_bind_Ok _ _ _ (flag', n') c1) by (unfold mlift; by rewrite Hp).
  - intros x Hx Hcx. simplify_eq. rewrite participateAll_again in Hp by done. by simplify_eq.
Qed.

Lemma visits_Ok s fs total indices n bits c : cache_ok c → 0 < total < MaxUint64 → in_registry s bits indices →
  ∃ n' bits' c', mfold indices (n, bits) (visit s fs total) c = (Ok (n', bits'), c') ∧ cache_ok c' ∧
    length bits' = length bits ∧ all_set fs bits' indices ∧ (all_set fs bits indices → n' = n ∧ bits' = bits) ∧
    (∀ i flag, bits !! i = Some flag → complete fs flag → bits' !! i = Some flag).
Proof.
  intros Hc Ht. revert n bits c Hc. induction indices as [|k indices IH]; intros n bits c Hc Hreg; cbn [mfold].
  { exists n, bits, c. split; [done|]. split_and!; [done|done|by constructor|done|done]. }
  apply Forall_cons in Hreg as [[Hk Hkv] Hreg].
  destruct (visit_Ok s fs total n bits k c Hc Ht Hk Hkv) as (n1 & f1 & c1 & Hv & Hc1 & Hf1 & Hsame). rewrite (M_bind_Ok _ _ _ _ _ Hv).
  assert (length (<[Z.to_nat k := f1]> bits) = length bits) as Hl1 by apply length_insert.
  destruct (IH n1 (<[Z.to_nat k := f1]> bits) c1) as (n' & bits' & c' & Hrun & Hc' & Hl & Hset & Hagain & Hkeep);
    [done|unfold in_registry, len in *; by rewrite Hl1|].
  assert (bits' !! Z.to_nat k = Some f1) as Hbk by (apply Hkeep; [apply list_lookup_insert_eq; unfold len in Hk; lia|done]).
  exists n', bits', c'. split_and!; [done|done|lia|apply Forall_cons; split; [by exists f1|done]| |].
  - intros [[flag [Hflag Hcf]] Hrest]%Forall_cons. destruct (Hsame flag Hflag Hcf) as [-> ->].
    rewrite list_insert_id in Hagain by done. by apply Hagain.
  - intros i flag Hi Hcf. destruct (decide (i = Z.to_nat k)) as [->|Hne].
    + destruct (Hsame flag Hi Hcf) as [_ ->]. done.
    + apply Hkeep; [by rewrite list_lookup_insert_ne|done].
Qed.

(** C29: An attestation counts once: setting the participation flags of its attesters succeeds
    and leaves every attester with all of them, and doing it again, with whatever the cache of
    square roots then holds, leaves the flags as they are and a numerator of zero for the
    reward of the proposer. *)
Theorem attestation_counted_once s indices bits fs total c : cache_ok c → 0 < total < MaxUint64 → in_registry s bits indices →
  ∃ n bits' c', EpochParticipation s indices bits fs total c = (Ok (n, bits'), c') ∧ all_set fs bits' indices ∧
    ∀ c2, cache_ok c2 → ∃ c3, EpochParticipation s indices bits' fs total c2 = (Ok (0, bits'), c3).
Proof.
  intros Hc Ht Hreg. destruct (visits_Ok s fs total indices 0 bits c Hc Ht Hreg) as (n & bits' & c' & Hrun & _ & Hl & Hset & _).
  exists n, bits', c'. split_and!; [exact Hrun|done|]. intros c2 Hc2.
  destruct (visits_Ok s fs total indices 0 bits' c2 Hc2 Ht) as (n2 & b2 & c3 & Hrun2 & _ & _ & _ & Hagain & _);
    [unfold in_registry, len in *; by rewrite Hl|]. destruct (Hagain Hset) as [-> ->]. by exists c3.
Qed.
End once.

(** ** Witness *)
#[local] Existing Instance mainnet_config.
#[local] Existing Instance mainnet_epoch_config.
#[local] Existing Instance mainnet_operations_config.
#[local] Instance mainnet_flag_config : FlagConfig.
Proof. split; vm_compute; first [done|split; discriminate|discriminate]. Qed.

Lemma attestation_counted_once_witness :
  (EpochParticipation ex_deposits [0] [0] {[1; 2]} 64000000000 initialCache).1 = Ok (323816960, [6]) ∧
  ∃ n bits' c', EpochParticipation ex_deposits [0] [0] {[1; 2]} 64000000000 initialCache = (Ok (n, bits'), c') ∧ all_set {[1; 2]} bits' [0] ∧
    ∀ c2, cache_ok c2 → ∃ c3, EpochParticipation ex_deposits [0] bits' {[1; 2]} 64000000000 c2 = (Ok (0, bits'), c3).
Proof.
  split; [vm_compute; reflexivity|].
  apply (attestation_counted_once ex_deposits [0] [0] {[1; 2]} 64000000000 initialCache);
    [apply cache_ok_initial|vm_compute; done|repeat constructor; vm_compute; discriminate || reflexivity].
Defined.
