(* ===== verification/OperationPools.v ===== *)
(** * Pools of voluntary exits and of BLS to execution changes

    beacon-chain/operations/voluntaryexits/pool.go and blstoexec/pool.go: a linked list of the
    pending objects in the order of their arrival, and a map from validator indices to the
    nodes of the list.  The two pools differ in the checks and in the direction they are read;
    [key] is the validator index of an object.  Locks are not modelled: a call runs alone.
    [int(min(float64(max), float64(len)))] is exact for lengths below 2^53. *)
From S2P Require Import Prelude MathHelper Primitives Config SlotTime MVSlice MerkleTrie EpochConfig BeaconState StateOperations Withdrawals BlockOperations.

(** ** container/doubly-linked-list/list.go

    The nodes of a list live in a heap; [prev] and [next] are addresses or nil.  A node that
    has been removed keeps its own pointers, which the loops over the operation pools rely on.
    Reading through a nil pointer panics; the getters that test for nil return an error. *)
Section list.
Context {T : Type}.

Record Node := mkNode { value : T; prev : option nat; next_ : option nat }.
(** The list, and the heap of its nodes; [fresh] is the next address. *)
Record LinkedList := mkLinked {
  heap : gmap nat Node; fresh : nat;
  first : option nat; last_ : option nat; length_ : Z }.
Definition emptyList : LinkedList := mkLinked ∅ 0 None None 0.

Definition set_heap (h : gmap nat Node) (d : LinkedList) : LinkedList := mkLinked h (fresh d) (first d) (last_ d) (length_ d).
Definition set_ends (f l : option nat) (d : LinkedList) : LinkedList := mkLinked (heap d) (fresh d) f l (length_ d).
Definition add_length (n : Z) (d : LinkedList) : LinkedList := mkLinked (heap d) (fresh d) (first d) (last_ d) (length_ d + n).

(** A pointer that is read or written through. *)
Definition deref (p : option nat) (d : LinkedList) : gores (nat * Node) :=
  match p with
  | Some l => match heap d !! l with Some n => Ok (l, n) | None => Panic end
  | None => Panic
  end.
Definition writeNext (p q : option nat) : M LinkedList unit :=
  d ← mget; '(l, n) ← mlift (deref p d);
  mmodify (set_heap (<[l := mkNode (value n) (prev n) q]> (heap d))).
Definition writePrev (p q : option nat) : M LinkedList unit :=
  d ← mget; '(l, n) ← mlift (deref p d);
  mmodify (set_heap (<[l := mkNode (value n) q (next_ n)]> (heap d))).

Definition NewNode (v : T) : M LinkedList nat :=
  d ← mget;
  mmodify (λ d, mkLinked (<[fresh d := mkNode v None None]> (heap d)) (S (fresh d)) (first d) (last_ d) (length_ d));;
  mret (fresh d).

Definition First (d : LinkedList) : option nat := first d.
Definition Last (d : LinkedList) : option nat := last_ d.
Definition Len (d : LinkedList) : Z := length_ d.

Definition Append (n : nat) : M LinkedList unit :=
  d ← mget;
  (match first d with
   | None => mmodify (set_ends (Some n) (last_ d))
   | Some _ => writePrev (Some n) (last_ d);; writeNext (last_ d) (Some n)
   end);;
  mmodify (λ d, set_ends (first d) (Some n) d);;
  mmodify (add_length 1).

(** [n.next] and [n.prev] as they are at that moment. *)
Definition readNode (p : option nat) : M LinkedList Node :=
  d ← mget; '(_, n) ← mlift (deref p d); mret n.

Definition Remove (n : option nat) : M LinkedList unit :=
  match n with
  | None => mret tt
  | Some _ =>
      d ← mget;
      removed ←
        (if bool_decide (n = First d) then
           (if bool_decide (n = last_ d) then mmodify (set_ends None None)
            else
              node ← readNode n; writePrev (next_ node) None;;
              node ← readNode n; mmodify (λ d, set_ends (next_ node) (last_ d) d));;
           mret true
         else if bool_decide (n = last_ d) then
           node ← readNode n; writeNext (prev node) None;;
           node ← readNode n; mmodify (λ d, set_ends (first d) (prev node) d);;
           mret true
         else
           node ← readNode n;
           match next_ node, prev node with
           | None, _ | _, None => mret false
           | _, _ =>
               writeNext (prev node) (next_ node);;
               node ← readNode n; writePrev (next_ node) (prev node);;
               mret true
           end);
      if (removed : bool) then mmodify (add_length (-1)) else mret tt
  end.

(** The getters of a node. *)
Definition Next (n : option nat) (d : LinkedList) : gores (option nat) :=
  match n with None => Err errMessage | Some _ => '(_, node) ← deref n d; Ok (next_ node) end.
Definition Prev (n : option nat) (d : LinkedList) : gores (option nat) :=
  match n with None => Err errMessage | Some _ => '(_, node) ← deref n d; Ok (prev node) end.
Definition Value (n : option nat) (d : LinkedList) : gores T :=
  match n with None => Err errMessage | Some _ => '(_, node) ← deref n d; Ok (value node) end.

(** ** What a list holds *)

(** The address at position [i - 1], nil for the first position. *)
Definition before (xs : list (nat * T)) (i : nat) : option nat :=
  match i with O => None | S j => fst <$> xs !! j end.

(** [d] holds the values of [xs] at the addresses of [xs], in this order. *)
Record holds_list (d : LinkedList) (xs : list (nat * T)) : Prop := {
  hl_first : first d = fst <$> xs !! 0%nat;
  hl_last : last_ d = before xs (length xs);
  hl_length : length_ d = Z.of_nat (length xs);
  hl_nodup : NoDup xs.*1;
  hl_node i l x : xs !! i = Some (l, x) → heap d !! l = Some (mkNode x (before xs i) (fst <$> xs !! S i));
  hl_fresh l n : heap d !! l = Some n → (l < fresh d)%nat
}.

Lemma holds_empty : holds_list emptyList [].
Proof. split; try done. apply NoDup_nil_2. Qed.

(** Addresses are distinct. *)
Lemma address_inj (xs : list (nat * T)) i j k y : NoDup xs.*1 → xs !! i = Some (k, y) → fst <$> xs !! j = Some k → i = j.
Proof.
  intros Hnd Hi Hj. eapply NoDup_lookup; [exact Hnd| |by rewrite list_lookup_fmap]. by rewrite list_lookup_fmap, Hi.
Qed.
Lemma before_inj (xs : list (nat * T)) i j k y : NoDup xs.*1 → xs !! i = Some (k, y) → before xs j = Some k → j = S i.
Proof. intros Hnd Hi Hj. destruct j as [|j]; [done|]. f_equal. symmetry. by eapply address_inj. Qed.

Lemma writeNext_Ok d l n q : heap d !! l = Some n →
  writeNext (Some l) q d = (Ok tt, set_heap (<[l := mkNode (value n) (prev n) q]> (heap d)) d).
Proof. intros Hl. unfold writeNext, mbind, M_bind, mget, mlift, deref. by rewrite Hl. Qed.
Lemma writePrev_Ok d l n q : heap d !! l = Some n →
  writePrev (Some l) q d = (Ok tt, set_heap (<[l := mkNode (value n) q (next_ n)]> (heap d)) d).
Proof. intros Hl. unfold writePrev, mbind, M_bind, mget, mlift, deref. by rewrite Hl. Qed.
Lemma readNode_Ok d l n : heap d !! l = Some n → readNode (Some l) d = (Ok n, d).
Proof. intros Hl. unfold readNode, mbind, M_bind, mget, mlift, deref. by rewrite Hl. Qed.

(** ** Appending *)
Lemma NewNode_Ok d xs v : holds_list d xs → ∃ d', NewNode v d = (Ok (fresh d), d') ∧ holds_list d' xs ∧
  heap d' !! fresh d = Some (mkNode v None None) ∧ fresh d ∉ xs.*1.
Proof.
  intros Hd. eexists. split; [reflexivity|]. assert (∀ i l x, xs !! i = Some (l, x) → l ≠ fresh d) as Hne.
  { intros i l x Hi ->. pose proof (hl_fresh d xs Hd _ _ (hl_node d xs Hd _ _ _ Hi)). lia. }
  split_and!; [|cbn; apply lookup_insert_eq|].
  - destruct Hd as [H1 H2 H3 H4 H5 H6]. split; try done; cbn.
    + intros i l x Hi. rewrite lookup_insert_ne by (symmetry; by eapply Hne). by apply H5.
    + intros l n [[<- _]|[_ Hl]]%lookup_insert_Some; [lia|]. specialize (H6 l n Hl). lia.
  - intros ([l x] & Hl & Hin)%list_elem_of_fmap. cbn in Hl. apply list_elem_of_lookup in Hin as [i Hi]. by eapply Hne.
Qed.

Lemma before_app (xs : list (nat * T)) z i : (i ≤ length xs)%nat → before (xs ++ [z]) i = before xs i.
Proof. intros Hi. destruct i; [done|]. cbn. by rewrite lookup_app_l. Qed.

Lemma Append_Ok d xs l x : holds_list d xs → heap d !! l = Some (mkNode x None None) → l ∉ xs.*1 →
  ∃ d', Append l d = (Ok tt, d') ∧ holds_list d' (xs ++ [(l, x)]).
Proof.
  intros [H1 H2 H3 H4 H5 H6] Hl Hnew. assert (NoDup (xs ++ [(l, x)]).*1) as Hnd.
  { rewrite fmap_app. apply NoDup_app. split_and!; [done| |by apply NoDup_singleton]. intros k Hk Hk2.
    cbn in Hk2. apply list_elem_of_singleton in Hk2. by subst. }
  destruct (length xs) as [|m] eqn:Hlen.
  { apply nil_length_inv in Hlen as ->. exists (mkLinked (heap d) (fresh d) (Some l) (Some l) (length_ d + 1)).
    split; [unfold Append, mbind, M_bind, mget; by rewrite H1|]. split; cbn; try done; [lia|]. by intros [|] l' x' ?; simplify_eq/=. }
  destruct (lookup_lt_is_Some_2 xs m) as [[k y] Hk]; [lia|]. assert (k ≠ l) as Hkl.
  { intros ->. apply Hnew. apply list_elem_of_fmap. exists (l, y). split; [done|]. by eapply list_elem_of_lookup_2. }
  pose proof (H5 m k y Hk) as Hnode. rewrite (lookup_ge_None_2 xs (S m)) in Hnode by lia. cbn [before] in H2. rewrite Hk in H2.
  set (d1 := set_heap (<[l := mkNode x (Some k) None]> (heap d)) d).
  assert (heap d1 !! k = Some (mkNode y (before xs m) None)) as Hk1 by (cbn; by rewrite lookup_insert_ne).
  exists (mkLinked (<[k := mkNode y (before xs m) (Some l)]> (heap d1)) (fresh d) (first d) (Some l) (length_ d + 1)). split.
  - unfold Append. rewrite (M_bind_Ok _ _ _ d d) by done.
    rewrite (M_bind_Ok _ _ _ tt (set_heap (<[k := mkNode y (before xs m) (Some l)]> (heap d1)) d1)); [done|].
    rewrite H1, H2. destruct (lookup_lt_is_Some_2 xs 0) as [z ->]; [lia|].
    cbn [fmap option_fmap option_map fst]. rewrite (M_bind_Ok _ _ _ _ _ (writePrev_Ok d l _ (Some k) Hl)).
    apply (writeNext_Ok d1 k _ (Some l) Hk1).
  - split; cbn [first last_ length_ heap fresh].
    + by rewrite H1, lookup_app_l by lia.
    + rewrite length_app. simpl. rewrite Nat.add_1_r. cbn. by rewrite lookup_app_r, Nat.sub_diag.
    + rewrite length_app. simpl. lia.
    + done.
    + intros i l' x' [Hi|[Hge Hi]]%lookup_app_Some.
      * assert (l' ≠ l) by (intros ->; apply Hnew, list_elem_of_fmap; exists (l, x'); split; [done|by eapply list_elem_of_lookup_2]).
        pose proof (lookup_lt_Some _ _ _ Hi). rewrite before_app by lia. destruct (decide (l' = k)) as [->|Hne].
        -- assert (i = m) as -> by (eapply address_inj; [exact H4|exact Hi|by rewrite Hk]). rewrite lookup_insert_eq.
           rewrite lookup_app_r, Hlen, Nat.sub_diag by lia. by simplify_eq.
        -- unfold d1. cbn. rewrite !lookup_insert_ne by done. rewrite (H5 _ _ _ Hi). do 2 f_equal. rewrite lookup_app_l; [done|].
           assert (i ≠ m) by (intros ->; simplify_eq). lia.
      * apply list_lookup_singleton_Some in Hi as [Hi ?]. simplify_eq. assert (i = S m) as -> by lia.
        unfold d1. cbn. rewrite lookup_insert_ne, lookup_insert_eq by done. rewrite lookup_app_l, Hk by lia.
        by rewrite lookup_ge_None_2 by (rewrite length_app; simpl; lia).
    + intros l' n' [[<- _]|[_ Hl']]%lookup_insert_Some; [by eapply H6|].
      cbn in Hl'. apply lookup_insert_Some in Hl' as [[<- _]|[_ Hl']]; by eapply H6.
Qed.

(** ** Removing *)
Definition alterAt (f : Node → Node) (p : option nat) (h : gmap nat Node) : gmap nat Node :=
  match p with Some l => alter f l h | None => h end.
Definition withNext (q : option nat) (n : Node) : Node := mkNode (value n) (prev n) q.
Definition withPrev (q : option nat) (n : Node) : Node := mkNode (value n) q (next_ n).

Lemma lookup_alterAt f p h k : alterAt f p h !! k = if bool_decide (p = Some k) then f <$> h !! k else h !! k.
Proof.
  unfold alterAt. destruct p as [l|]; [|by case_bool_decide]. case_bool_decide as Heq.
  - simplify_eq. apply lookup_alter_eq.
  - apply lookup_alter_ne. congruence.
Qed.

Lemma alterAt_insert f l (n : Node) h : h !! l = Some n → <[l := f n]> h = alterAt f (Some l) h.
Proof.
  intros Hl. apply map_eq. intros k. rewrite lookup_alterAt. case_bool_decide as Heq.
  - simplify_eq. by rewrite lookup_insert_eq, Hl.
  - by rewrite lookup_insert_ne by congruence.
Qed.
Lemma writeNext_alter d l n q : heap d !! l = Some n →
  writeNext (Some l) q d = (Ok tt, set_heap (alterAt (withNext q) (Some l) (heap d)) d).
Proof. intros Hl. by rewrite (writeNext_Ok d l n q Hl), <-(alterAt_insert (withNext q) l n (heap d) Hl). Qed.
Lemma writePrev_alter d l n q : heap d !! l = Some n →
  writePrev (Some l) q d = (Ok tt, set_heap (alterAt (withPrev q) (Some l) (heap d)) d).
Proof. intros Hl. by rewrite (writePrev_Ok d l n q Hl), <-(alterAt_insert (withPrev q) l n (heap d) Hl). Qed.

(** The heap after the node at position [n] has been removed: its neighbours are linked. *)
Definition unlinked (xs : list (nat * T)) (n : nat) (h : gmap nat Node) : gmap nat Node :=
  alterAt (withPrev (before xs n)) (fst <$> xs !! S n) (alterAt (withNext (fst <$> xs !! S n)) (before xs n) h).

Lemma before_delete (xs : list (nat * T)) n i : before (delete n xs) i = before xs (if decide (i ≤ n)%nat then i else S i).
Proof. destruct i as [|i]; [by case_decide; [|lia]|]. cbn. rewrite list_lookup_delete. repeat case_decide; (done || lia). Qed.

Lemma unlinked_holds d xs n l x : holds_list d xs → xs !! n = Some (l, x) →
  ∀ i k y, delete n xs !! i = Some (k, y) →
    unlinked xs n (heap d) !! k = Some (mkNode y (before (delete n xs) i) (fst <$> delete n xs !! S i)).
Proof.
  intros Hd Hn i k y Hi. pose proof (hl_nodup d xs Hd) as Hnd. unfold unlinked. rewrite !lookup_alterAt, before_delete.
  assert (∃ j, xs !! j = Some (k, y) ∧ (j = i ∧ i < n ∨ j = S i ∧ n ≤ i)%nat) as (j & Hj & Hcase).
  { rewrite list_lookup_delete in Hi. case_decide; eexists; (split; [exact Hi|lia]). }
  rewrite (hl_node d xs Hd j k y Hj).
  rewrite (bool_decide_ext (before xs n = Some k) (n = S j)).
  2: { split; [intros H; by eapply before_inj|]. intros ->. cbn. by rewrite Hj. }
  rewrite (bool_decide_ext (fst <$> xs !! S n = Some k) (S n = j)).
  2: { split; [intros H; symmetry; by eapply address_inj|]. intros ->. by rewrite Hj. }
  rewrite list_lookup_delete. destruct Hcase as [[-> Hlt]|[-> Hge]].
  - rewrite (bool_decide_false (S n = i)), decide_True by lia. destruct (decide (n = S i)) as [->|Hne].
    + rewrite bool_decide_true, decide_False by lia. done.
    + rewrite bool_decide_false, decide_True by lia. done.
  - rewrite (bool_decide_false (n = S (S i))), (decide_False (P := (S i < n)%nat)) by lia. destruct (decide (i = n)) as [->|Hne].
    + rewrite bool_decide_true, decide_True by lia. done.
    + rewrite bool_decide_false, decide_False by lia. done.
Qed.

(** The list without the node at position [n]. *)
Definition removed (xs : list (nat * T)) (n : nat) (d : LinkedList) : LinkedList :=
  mkLinked (unlinked xs n (heap d)) (fresh d) (if decide (n = 0%nat) then fst <$> xs !! 1%nat else first d)
    (if decide (S n = length xs) then before xs n else last_ d) (length_ d + -1).

Lemma removed_holds d xs n l x : holds_list d xs → xs !! n = Some (l, x) →
  holds_list (removed xs n d) (delete n xs) ∧
  heap (removed xs n d) !! l = Some (mkNode x (before xs n) (fst <$> xs !! S n)).
Proof.
  intros Hd Hn. pose proof (hl_nodup d xs Hd) as Hnd. pose proof (hl_node d xs Hd n l x Hn) as Hl.
  pose proof (lookup_lt_Some _ _ _ Hn) as Hlt.
  assert (length (delete n xs) = (length xs - 1)%nat) as Hlen by (by rewrite length_delete by eauto). split; [split; cbn|].
  - rewrite list_lookup_delete, (hl_first d xs Hd). repeat case_decide; (done || lia).
  - rewrite (hl_last d xs Hd), Hlen, before_delete. repeat case_decide; (f_equal; lia).
  - rewrite Hlen, (hl_length d xs Hd). lia.
  - rewrite list_fmap_delete. apply NoDup_alt. intros i j k Hi Hj. rewrite list_lookup_delete in Hi, Hj.
    pose proof (NoDup_lookup _ _ _ _ Hnd Hi Hj). repeat case_decide; lia.
  - by eapply unlinked_holds.
  - intros k m. unfold unlinked. rewrite !lookup_alterAt. intros Hk. apply (hl_fresh d xs Hd k (default m (heap d !! k))).
    repeat case_bool_decide; destruct (heap d !! k); simplify_eq/=; done.
  - cbn. unfold unlinked. rewrite !lookup_alterAt, Hl.
    rewrite (bool_decide_false (before xs n = Some l)) by (intros H; eapply before_inj in H; [|exact Hnd|exact Hn]; lia).
    by rewrite bool_decide_false by (intros H; eapply address_inj in H; [|exact Hnd|exact Hn]; lia).
Qed.

Lemma Remove_run d xs n l x : holds_list d xs → xs !! n = Some (l, x) → Remove (Some l) d = (Ok tt, removed xs n d).
Proof.
  intros Hd Hn. pose proof (hl_nodup d xs Hd) as Hnd. pose proof (hl_node d xs Hd n l x Hn) as Hl.
  pose proof (lookup_lt_Some _ _ _ Hn) as Hlt. set (d' := removed xs n d).
  unfold Remove. rewrite (M_bind_Ok _ _ _ d d) by done. unfold First.
  assert (bool_decide (Some l = first d) = bool_decide (n = 0%nat)) as ->.
  { apply bool_decide_ext. rewrite (hl_first d xs Hd). split; [intros H; symmetry in H; by eapply address_inj|]. intros ->. by rewrite Hn. }
  assert (bool_decide (Some l = last_ d) = bool_decide (S n = length xs)) as ->.
  { apply bool_decide_ext. rewrite (hl_last d xs Hd). split; [intros H; symmetry in H; by eapply before_inj in H|]. intros <-. cbn. by rewrite Hn. }
  assert (∀ k, S n ≠ length xs → fst <$> xs !! S n = Some k → k ≠ l) as Hk2.
  { intros k _ Hk ->. eapply address_inj in Hk; [|exact Hnd|exact Hn]. lia. }
  assert (∀ k, before xs n = Some k → k ≠ l) as Hk1 by (intros k Hk ->; eapply before_inj in Hk; [|exact Hnd|exact Hn]; lia).
  rewrite (M_bind_Ok _ _ _ true (mkLinked (heap d') (fresh d') (first d') (last_ d') (length_ d))); [done|]. unfold d', removed. clear d'. cbn.
  destruct (decide (n = 0%nat)) as [->|Hn0]; [rewrite bool_decide_true by done|rewrite bool_decide_false by done];
    (destruct (decide (S _ = length xs)) as [He|He]; [rewrite bool_decide_true by done|rewrite bool_decide_false by done]).
  - unfold unlinked. by rewrite (lookup_ge_None_2 xs 1) by lia.
  - destruct (lookup_lt_is_Some_2 xs 1) as [[k y] Hk]; [lia|]. unfold unlinked. rewrite Hk in *. cbn [fmap option_fmap option_map fst before alterAt] in *.
    pose proof (hl_node d xs Hd 1 k y Hk) as Hkn. set (d1 := set_heap (alterAt (withPrev None) (Some k) (heap d)) d).
    assert (heap d1 !! l = Some (mkNode x None (Some k))) as Hl1 by (cbn; rewrite lookup_alter_ne by (by apply Hk2); exact Hl).
    rewrite (M_bind_Ok _ _ _ tt (set_ends (Some k) (last_ d) d1)); [done|]. rewrite (M_bind_Ok _ _ _ _ _ (readNode_Ok d l _ Hl)). cbn [next_].
    rewrite (M_bind_Ok _ _ _ _ _ (writePrev_alter d k _ None Hkn)). by rewrite (M_bind_Ok _ _ _ _ _ (readNode_Ok d1 l _ Hl1)).
  - destruct n as [|m]; [done|]. destruct (lookup_lt_is_Some_2 xs m) as [[k y] Hk]; [lia|]. unfold unlinked.
    rewrite (lookup_ge_None_2 xs (S (S m))) in * by lia. cbn [before] in *. rewrite Hk in *. cbn [fmap option_fmap option_map fst alterAt] in *.
    pose proof (hl_node d xs Hd m k y Hk) as Hkn. rewrite (M_bind_Ok _ _ _ _ _ (readNode_Ok d l _ Hl)). cbn [prev].
    rewrite (M_bind_Ok _ _ _ _ _ (writeNext_alter d k _ None Hkn)). set (d1 := set_heap _ d).
    assert (heap d1 !! l = Some (mkNode x (Some k) None)) as Hl1 by (cbn; rewrite lookup_alter_ne by (by apply Hk1); exact Hl).
    by rewrite (M_bind_Ok _ _ _ _ _ (readNode_Ok d1 l _ Hl1)).
  - destruct n as [|m]; [done|]. destruct (lookup_lt_is_Some_2 xs m) as [[k y] Hk]; [lia|].
    destruct (lookup_lt_is_Some_2 xs (S (S m))) as [[k' y'] Hk']; [lia|]. unfold unlinked.
    pose proof (hl_node d xs Hd m k y Hk) as Hkn. pose proof (hl_node d xs Hd _ k' y' Hk') as Hkn'.
    cbn [before] in *. rewrite Hk, Hk' in *. cbn [fmap option_fmap option_map fst alterAt] in *.
    rewrite (M_bind_Ok _ _ _ _ _ (readNode_Ok d l _ Hl)). cbn [prev next_].
    rewrite (M_bind_Ok _ _ _ _ _ (writeNext_alter d k _ (Some k') Hkn)). set (d1 := set_heap _ d).
    assert (heap d1 !! l = Some (mkNode x (Some k) (Some k'))) as Hl1 by (cbn; rewrite lookup_alter_ne by (by apply Hk1); exact Hl).
    assert (k ≠ k') by (intros ->; assert (S (S m) = m) by (eapply address_inj; [exact Hnd|exact Hk'|by rewrite Hk]); lia).
    assert (heap d1 !! k' = Some (mkNode y' (fst <$> xs !! S m) (fst <$> xs !! S (S (S m))))) as Hk1' by (cbn; by rewrite lookup_alter_ne).
    rewrite (M_bind_Ok _ _ _ _ _ (readNode_Ok d1 l _ Hl1)). cbn [prev next_].
    by rewrite (M_bind_Ok _ _ _ _ _ (writePrev_alter d1 k' _ (Some k) Hk1')).
Qed.

(** Removing a node of the list; the node keeps its own pointers. *)
Lemma Remove_Ok d xs n l x : holds_list d xs → xs !! n = Some (l, x) →
  ∃ d', Remove (Some l) d = (Ok tt, d') ∧ holds_list d' (delete n xs) ∧
    heap d' !! l = Some (mkNode x (before xs n) (fst <$> xs !! S n)) ∧ fresh d' = fresh d.
Proof.
  intros Hd Hn. exists (removed xs n d). destruct (removed_holds d xs n l x Hd Hn) as [? ?].
  split_and!; [by eapply Remove_run|done|done|done].
Qed.
End list.
Arguments Node : clear implicits.
Arguments LinkedList : clear implicits.

Section pool.
Context {T : Type} (key : T → Z).

(** A nil node can be stored in the map. *)
Record Pool := mkPool { pending : LinkedList T; m : gmap Z (option nat) }.
Definition NewPool : Pool := mkPool emptyList ∅.

Definition onPending {A} (f : M (LinkedList T) A) : M Pool A := λ p,
  let '(r, d) := f (pending p) in (r, mkPool d (m p)).
Definition setMap (f : gmap Z (option nat) → gmap Z (option nat)) : M Pool unit := mmodify (λ p, mkPool (pending p) (f (m p))).

(** [InsertVoluntaryExit], [InsertBLSToExecChange] *)
Definition Insert (x : T) : M Pool unit :=
  p ← mget;
  match m p !! key x with
  | Some _ => mret tt
  | None =>
      n ← onPending (NewNode x);
      onPending (Append n);;
      p ← mget;
      setMap (<[key x := Last (pending p)]>)
  end.

(** [MarkIncluded] *)
Definition MarkIncluded (x : T) : M Pool unit :=
  p ← mget;
  match m p !! key x with
  | Some (Some node) =>
      setMap (delete (key x));;
      onPending (Remove (Some node))
  | _ => mret tt
  end.
(** [blstoexec.MarkIncluded] also copies the map when the pool has shrunk to the threshold;
    the copy has the same entries. *)
Definition blsChangesPoolThreshold : Z := 2000.
Definition cycleMap : M Pool unit := setMap (λ m, map_fold (λ k v acc, <[k := v]> acc) ∅ m).
Definition MarkIncludedBLS (x : T) : M Pool unit :=
  p ← mget;
  match m p !! key x with
  | Some (Some node) =>
      setMap (delete (key x));;
      onPending (Remove (Some node));;
      p ← mget;
      if Len (pending p) =? blsChangesPoolThreshold then cycleMap else mret tt
  | _ => mret tt
  end.

Definition ValidatorExists (idx : Z) (p : Pool) : bool :=
  match m p !! idx with Some (Some _) => true | _ => false end.

(** [PendingExits], [PendingBLSToExecChanges]: a slice of [Len] nils is filled; [fuel] bounds
    the nodes there are. *)
Fixpoint fillLoop (fuel : nat) (d : LinkedList T) (i : nat) (node : option nat) (result : list (option T)) : gores (list (option T)) :=
  match fuel with
  | O => OutOfFuel
  | S fuel' =>
      match node with
      | None => Ok result
      | Some _ =>
          v ← Value node d;
          if (i <? length result)%nat then
            node ← Next node d;
            fillLoop fuel' d (S i) node (<[i := Some v]> result)
          else Panic
      end
  end.
Definition PendingAll (p : Pool) : gores (list (option T)) :=
  fillLoop (S (S (fresh (pending p)))) (pending p) 0 (First (pending p)) (replicate (Z.to_nat (Len (pending p))) None).

(** The loop of [ExitsForInclusion] and [BLSToExecChangesForInclusion].  [check] answers
    whether an object is skipped, dropped from the pool or included. *)
Inductive Verdict := Skip | Drop | Include.

Section inclusion.
Context (check : T → gores Verdict) (mark : T → M Pool unit) (step : option nat → LinkedList T → gores (option nat)).

Fixpoint inclusionLoop (fuel : nat) (limit : Z) (node : option nat) (result : list T) : M Pool (list T) :=
  match fuel with
  | O => mstuck
  | S fuel' =>
      match node with
      | None => mret result
      | Some _ =>
          if len result <? limit then
            p ← mget;
            x ← mlift (Value node (pending p));
            v ← mlift (check x);
            (match v with Drop => mark x | _ => mret tt end);;
            p ← mget;
            node ← mlift (step node (pending p));
            inclusionLoop fuel' limit node (match v with Include => result ++ [x] | _ => result end)
          else mret result
      end
  end.
Definition forInclusion (max : Z) (start : LinkedList T → option nat) : M Pool (list T) :=
  p ← mget;
  let limit := Z.min max (Len (pending p)) in
  inclusionLoop (S (S (fresh (pending p)))) limit (start (pending p)) [].
End inclusion.
End pool.
Arguments Pool : clear implicits.

Section pools.
Context `{cfg : BeaconChainConfig} `{ecfg : EpochConfig} `{ocfg : OperationsConfig}.

(** ** voluntaryexits *)
Section exits.
Context (sigOk : bool → VoluntaryExit → Validator → bool).

(** Not yet: the epoch of the exit has not come, or the validator is unknown. *)
Definition checkExit (state : BeaconState) (slot_ : Z) (exit : VoluntaryExit) : gores Verdict :=
  e ← ToEpoch slot_;
  if exit_Epoch exit >? e then Ok Skip
  else
    match ValidatorAtIndex state (exit_ValidatorIndex exit) with
    | Err _ => Ok Skip
    | Panic => Panic
    | OutOfFuel => OutOfFuel
    | Ok validator =>
        match VerifyExitAndSignature sigOk validator state (Some exit) with
        | Ok _ => Ok Include
        | Err _ => Ok Drop
        | Panic => Panic
        | OutOfFuel => OutOfFuel
        end
    end.
Definition InsertVoluntaryExit : VoluntaryExit → M (Pool VoluntaryExit) unit := Insert exit_ValidatorIndex.
Definition MarkIncludedExit : VoluntaryExit → M (Pool VoluntaryExit) unit := MarkIncluded exit_ValidatorIndex.
Definition PendingExits : Pool VoluntaryExit → gores (list (option VoluntaryExit)) := PendingAll.
Definition ExitsForInclusion (state : BeaconState) (slot_ : Z) : M (Pool VoluntaryExit) (list VoluntaryExit) :=
  forInclusion (checkExit state slot_) MarkIncludedExit Next MaxVoluntaryExits First.
End exits.

(** ** blstoexec *)
Section bls.
Context (hash : list Z → list Z).

Definition checkChange (st : BeaconState) (change : BLSToExecutionChange) : gores Verdict :=
  match ValidateBLSToExecutionChange hash st (Some (Some change)) with
  | Ok _ => Ok Include
  | Err _ => Ok Drop
  | Panic => Panic
  | OutOfFuel => OutOfFuel
  end.
Definition InsertBLSToExecChange : BLSToExecutionChange → M (Pool BLSToExecutionChange) unit := Insert ValidatorIndex.
Definition MarkIncludedChange : BLSToExecutionChange → M (Pool BLSToExecutionChange) unit := MarkIncludedBLS ValidatorIndex.
Definition PendingBLSToExecChanges : Pool BLSToExecutionChange → gores (list (option BLSToExecutionChange)) := PendingAll.
(** From the last one to the first. *)
Definition BLSToExecChangesForInclusion (st : BeaconState) : M (Pool BLSToExecutionChange) (list BLSToExecutionChange) :=
  forInclusion (checkChange st) MarkIncludedChange Prev MaxBlsToExecutionChanges Last.
End bls.
End pools.
