(* ===== verification/PoolTheorems.v ===== *)
(** * The pools implement ordered sets of objects, one per validator

    A pool of linked nodes and a map of addresses behaves like the list of its objects in the
    order of their arrival.  Reading the objects for a block also drops the ones that became
    invalid, and goes on from a node that has just been removed. *)
From S2P Require Import Prelude MathHelper Primitives Config SlotTime MVSlice EpochConfig MerkleTrie BeaconState StateOperations Withdrawals WithdrawalTheorems BlockOperations OperationPools.

Section pool.
Context {T : Type} (key : T → Z).
Implicit Types (p : Pool T) (xs done rest : list (nat * T)) (ys : list T).

(** ** The specification: a list of objects *)
Definition insertSpec (x : T) ys : list T := if decide (key x ∈ key <$> ys) then ys else ys ++ [x].
Definition removeSpec (k : Z) ys : list T := filter (λ y, key y ≠ k) ys.

(** The objects selected, up to [n] of them, and the objects kept. *)
Fixpoint select (verdict : T → Verdict) (n : nat) ys : list T * list T :=
  match ys with
  | [] => ([], [])
  | y :: ys' =>
      match n, verdict y with
      | O, _ => ([], ys)
      | S n', Include => let '(r, k) := select verdict n' ys' in (y :: r, y :: k)
      | _, Drop => select verdict n ys'
      | _, Skip => let '(r, k) := select verdict n ys' in (r, y :: k)
      end
  end.

(** ** The representation *)
Record pool_ok p xs : Prop := {
  po_list : holds_list (pending p) xs;
  po_map k o : m p !! k = Some o ↔ ∃ i l x, xs !! i = Some (l, x) ∧ key x = k ∧ o = Some l;
  po_keys : NoDup (key <$> xs.*2)
}.

Lemma NewPool_ok : pool_ok NewPool [].
Proof. split; [apply holds_empty| |apply NoDup_nil_2]. intros k o. split; [done|]. intros (i & l & x & Hi & _). done. Qed.

Lemma key_lookup xs i l x : xs !! i = Some (l, x) → (key <$> xs.*2) !! i = Some (key x).
Proof. intros Hi. by rewrite !list_lookup_fmap, Hi. Qed.
Lemma key_inj p xs i j l l' x x' : pool_ok p xs → xs !! i = Some (l, x) → xs !! j = Some (l', x') → key x = key x' → i = j.
Proof.
  intros Hp Hi Hj Hk. eapply NoDup_lookup; [apply (po_keys p xs Hp)|by apply key_lookup in Hi|]. apply key_lookup in Hj. by rewrite Hk.
Qed.

Lemma map_find p xs x : pool_ok p xs →
  match m p !! key x with
  | Some o => ∃ i l x', xs !! i = Some (l, x') ∧ key x' = key x ∧ o = Some l
  | None => key x ∉ key <$> xs.*2
  end.
Proof.
  intros Hp. destruct (m p !! key x) as [o|] eqn:Hm.
  - by apply (po_map p xs Hp).
  - intros (y & Hk & ([l y'] & -> & Hin)%list_elem_of_fmap)%list_elem_of_fmap. apply list_elem_of_lookup in Hin as [i Hi].
    cbn in Hk. assert (m p !! key x = Some (Some l)) as Hs by (apply (po_map p xs Hp); exists i, l, y'; done). congruence.
Qed.

(** ** Insert *)
Lemma Insert_Ok p xs x : pool_ok p xs →
  ∃ p' xs', Insert key x p = (Ok tt, p') ∧ pool_ok p' xs' ∧ xs'.*2 = insertSpec x xs.*2.
Proof.
  intros Hp. pose proof (map_find p xs x Hp) as Hfind. unfold Insert, insertSpec. rewrite (M_bind_Ok _ _ _ p p) by done.
  destruct (m p !! key x) as [o|] eqn:Hm.
  { destruct Hfind as (i & l & x' & Hi & Hk & _). exists p, xs. rewrite decide_True; [done|].
    rewrite <-Hk. eapply list_elem_of_lookup_2, key_lookup, Hi. }
  rewrite decide_False by done. destruct (NewNode_Ok (pending p) xs x (po_list p xs Hp)) as (d1 & Hnew & Hd1 & Hnode & Hfresh).
  destruct (Append_Ok d1 xs _ x Hd1 Hnode Hfresh) as (d2 & Happ & Hd2). set (n := fresh (pending p)) in *.
  exists (mkPool d2 (<[key x := Last d2]> (m p))), (xs ++ [(n, x)]). split_and!; [|split|by rewrite fmap_app].
  - rewrite (M_bind_Ok _ _ _ n (mkPool d1 (m p))) by (unfold onPending; by rewrite Hnew).
    rewrite (M_bind_Ok _ _ _ tt (mkPool d2 (m p))) by (unfold onPending; cbn; by rewrite Happ). done.
  - done.
  - assert (Last d2 = Some n) as Hlast.
    { unfold Last. rewrite (hl_last _ _ Hd2), length_app. simpl. rewrite Nat.add_1_r. cbn. by rewrite lookup_app_r, Nat.sub_diag. }
    intros k o. cbn [m]. rewrite lookup_insert_Some, Hlast, (po_map p xs Hp). split.
    + intros [[<- <-]|(_ & i & l & y & Hi & ?)]; [exists (length xs), n, x; by rewrite lookup_app_r, Nat.sub_diag|].
      exists i, l, y. split; [by apply lookup_app_l_Some|done].
    + intros (i & l & y & [Hi|[_ Hi]]%lookup_app_Some & Hk & ->).
      * right. split; [|by exists i, l, y]. intros <-. apply Hfind. rewrite <-Hk. eapply list_elem_of_lookup_2, key_lookup, Hi.
      * left. apply list_lookup_singleton_Some in Hi as [_ Hi]. by simplify_eq.
  - rewrite fmap_app, fmap_app. apply NoDup_app. split_and!; [apply Hp| |apply NoDup_singleton].
    intros k Hk Hk2. cbn in Hk2. apply list_elem_of_singleton in Hk2 as ->. done.
Qed.

(** ** MarkIncluded *)
Definition marks (mark : T → M (Pool T) unit) : Prop := ∀ p xs n l x y, pool_ok p xs → xs !! n = Some (l, x) → key y = key x →
  ∃ p', mark y p = (Ok tt, p') ∧ pool_ok p' (delete n xs) ∧
    heap (pending p') !! l = Some (mkNode x (before xs n) (fst <$> xs !! S n)) ∧ fresh (pending p') = fresh (pending p).

Lemma pool_ok_delete p xs n l x d' : pool_ok p xs → xs !! n = Some (l, x) → holds_list d' (delete n xs) →
  pool_ok (mkPool d' (delete (key x) (m p))) (delete n xs).
Proof.
  intros Hp Hn Hd'. split; [done| |].
  - intros k o. cbn. rewrite lookup_delete_Some, (po_map p xs Hp). split.
    + intros (Hne & i & l' & y & Hi & <- & ->). assert (i ≠ n) by (intros ->; simplify_eq).
      exists (if decide (i < n)%nat then i else (i - 1)%nat), l', y. split; [|done]. rewrite list_lookup_delete.
      repeat case_decide; try lia; [done|]. by replace (S (i - 1)) with i by lia.
    + intros (i & l' & y & Hi & <- & ->). rewrite list_lookup_delete in Hi. split; [|by eexists _, _, _].
      intros Hk. eapply key_inj in Hk; [|exact Hp|exact Hn|exact Hi]. case_decide; lia.
  - rewrite !list_fmap_delete. apply NoDup_alt. intros i j k Hi Hj. rewrite list_lookup_delete in Hi, Hj.
    pose proof (NoDup_lookup _ _ _ _ (po_keys p xs Hp) Hi Hj). repeat case_decide; lia.
Qed.

Lemma MarkIncluded_marks : marks (MarkIncluded key).
Proof.
  intros p xs n l x y Hp Hn Hk. destruct (Remove_Ok (pending p) xs n l x (po_list p xs Hp) Hn) as (d' & Hrem & Hd' & Hl & Hf).
  exists (mkPool d' (delete (key x) (m p))). split_and!; [|by eapply pool_ok_delete|done|done].
  unfold MarkIncluded. rewrite (M_bind_Ok _ _ _ p p) by done. rewrite Hk.
  assert (m p !! key x = Some (Some l)) as -> by (apply (po_map p xs Hp); by exists n, l, x).
  erewrite M_bind_Ok by done. unfold onPending. cbn [pending m]. by rewrite Hrem.
Qed.
Lemma cycleMap_id p : cycleMap p = (Ok tt, p).
Proof.
  destruct p as [d mm]. unfold cycleMap, setMap, mmodify. do 2 f_equal. cbn.
  apply (map_fold_weak_ind (λ acc mm, acc = mm)); [done|]. by intros i x mm' acc _ ->.
Qed.
Lemma MarkIncludedBLS_marks : marks (MarkIncludedBLS key).
Proof.
  intros p xs n l x y Hp Hn Hk. destruct (Remove_Ok (pending p) xs n l x (po_list p xs Hp) Hn) as (d' & Hrem & Hd' & Hl & Hf).
  exists (mkPool d' (delete (key x) (m p))). split_and!; [|by eapply pool_ok_delete|done|done].
  unfold MarkIncludedBLS. rewrite (M_bind_Ok _ _ _ p p) by done. rewrite Hk.
  assert (m p !! key x = Some (Some l)) as -> by (apply (po_map p xs Hp); by exists n, l, x).
  erewrite M_bind_Ok by done. rewrite (M_bind_Ok _ _ _ tt (mkPool d' (delete (key x) (m p)))) by (unfold onPending; cbn [pending m]; by rewrite Hrem).
  rewrite (M_bind_Ok _ _ _ (mkPool d' (delete (key x) (m p))) (mkPool d' (delete (key x) (m p)))) by done.
  destruct (_ =? _); [apply cycleMap_id|done].
Qed.

Lemma removeSpec_absent k ys : k ∉ key <$> ys → removeSpec k ys = ys.
Proof.
  unfold removeSpec. induction ys as [|z ys IH]; intros Hk; [done|]. apply not_elem_of_cons in Hk as [Hz Hk].
  rewrite filter_cons_True by congruence. f_equal. by apply IH.
Qed.
Lemma removeSpec_delete ys n y : NoDup (key <$> ys) → ys !! n = Some y → removeSpec (key y) ys = delete n ys.
Proof.
  revert n. induction ys as [|z ys IH]; intros [|n] Hnd Hn; simplify_eq/=; apply NoDup_cons in Hnd as [Hz Hnd]; unfold removeSpec.
  - rewrite filter_cons_False by naive_solver. by apply removeSpec_absent.
  - rewrite filter_cons_True; [by f_equal; apply IH|]. intros Hk. apply Hz. rewrite Hk. apply list_elem_of_fmap.
    exists y. split; [done|by eapply list_elem_of_lookup_2].
Qed.

Lemma mark_Ok mark p xs y : marks mark → (∀ p, m p !! key y = None → mark y p = (Ok tt, p)) → pool_ok p xs →
  ∃ p' xs', mark y p = (Ok tt, p') ∧ pool_ok p' xs' ∧ xs'.*2 = removeSpec (key y) xs.*2.
Proof.
  intros Hmark Hnone Hp. pose proof (map_find p xs y Hp) as Hfind. destruct (m p !! key y) as [o|] eqn:Hm.
  - destruct Hfind as (n & l & x & Hn & Hk & _). destruct (Hmark p xs n l x y Hp Hn) as (p' & Hrun & Hp' & _); [done|].
    exists p', (delete n xs). split_and!; [done|done|]. rewrite <-Hk, (removeSpec_delete _ n x), list_fmap_delete; [done|apply Hp|].
    by rewrite list_lookup_fmap, Hn.
  - exists p, xs. split_and!; [by apply Hnone|done|]. by rewrite removeSpec_absent.
Qed.

(** ** Reading all the objects *)
Lemma addresses_bound d xs : holds_list d xs → (length xs ≤ fresh d)%nat.
Proof.
  intros Hd. rewrite <-(length_fmap fst xs). transitivity (length (seq 0 (fresh d))); [|by rewrite length_seq].
  apply submseteq_length, NoDup_submseteq; [apply Hd|].
  intros l ([l' x] & -> & Hin)%list_elem_of_fmap. apply list_elem_of_lookup in Hin as [i Hi]. apply elem_of_seq.
  pose proof (hl_fresh d xs Hd _ _ (hl_node d xs Hd _ _ _ Hi)). cbn. lia.
Qed.

Lemma deref_Ok d xs i l x : holds_list d xs → xs !! i = Some (l, x) →
  Value (Some l) d = Ok x ∧ Next (Some l) d = Ok (fst <$> xs !! S i) ∧ Prev (Some l) d = Ok (before xs i).
Proof. intros Hd Hi. unfold Value, Next, Prev, deref. by rewrite (hl_node d xs Hd _ _ _ Hi). Qed.

Lemma fillLoop_Ok d done rest fuel : holds_list d (done ++ rest) → (length rest < fuel)%nat →
  fillLoop fuel d (length done) (fst <$> rest !! 0%nat) ((Some <$> done.*2) ++ replicate (length rest) None) = Ok (Some <$> (done ++ rest).*2).
Proof.
  revert done fuel. induction rest as [|[l x] rest IH]; intros done fuel Hd Hf; (destruct fuel as [|fuel]; [simpl in Hf; lia|]).
  { cbn. by rewrite !app_nil_r. }
  cbn [lookup list_lookup fmap option_fmap option_map fst fillLoop].
  destruct (deref_Ok d (done ++ (l, x) :: rest) (length done) l x Hd) as (-> & -> & _); [by rewrite lookup_app_r, Nat.sub_diag|].
  cbn [mbind gores_bind]. rewrite length_app, !length_fmap, length_replicate.
  destruct (Nat.ltb_spec (length done) (length done + length ((l, x) :: rest))) as [_|Hge]; [|simpl in Hge; lia].
  specialize (IH (done ++ [(l, x)]) fuel). rewrite <-app_assoc in IH. cbn [app] in IH. rewrite <-IH; [|done|simpl in Hf; lia].
  rewrite length_app, Nat.add_1_r. f_equal.
  - rewrite lookup_app_r by lia. by replace (S (length done) - length done)%nat with 1%nat by lia.
  - rewrite insert_app_r_alt by (rewrite !length_fmap; lia). rewrite !length_fmap, Nat.sub_diag, !fmap_app, <-app_assoc. done.
Qed.
Lemma PendingAll_Ok p xs : pool_ok p xs → PendingAll p = Ok (Some <$> xs.*2).
Proof.
  intros Hp. pose proof (po_list p xs Hp) as Hd. pose proof (addresses_bound _ _ Hd). unfold PendingAll, First, Len.
  rewrite (hl_first _ _ Hd), (hl_length _ _ Hd), Nat2Z.id. apply (fillLoop_Ok (pending p) [] xs); [done|lia].
Qed.

(** ** Reading the objects for a block *)
Section inclusion.
Context (check : T → gores Verdict) (verdict : T → Verdict) (Hcheck : ∀ x, check x = Ok (verdict x)).
Context (mark : T → M (Pool T) unit) (Hmark : marks mark).

(** What is left of the limit. *)
Definition room (limit : Z) (result : list T) : nat := Z.to_nat (limit - len result).
Lemma room_snoc limit result x : len result < limit → room limit result = S (room limit (result ++ [x])).
Proof. unfold room, len. rewrite length_app. simpl. lia. Qed.

(** One object: the pool and the result after it; the node itself can still be read. *)
Lemma inclusion_step step p xs n l x fuel limit result : pool_ok p xs → xs !! n = Some (l, x) → len result < limit →
  ∃ p', inclusionLoop check mark step (S fuel) limit (Some l) result p =
      (node ← mlift (step (Some l) (pending p'));
       inclusionLoop check mark step fuel limit node (match verdict x with Include => result ++ [x] | _ => result end)) p' ∧
    pool_ok p' (match verdict x with Drop => delete n xs | _ => xs end) ∧
    heap (pending p') !! l = Some (mkNode x (before xs n) (fst <$> xs !! S n)).
Proof.
  intros Hp Hn Hlim. destruct (deref_Ok _ _ _ _ _ (po_list p xs Hp) Hn) as (Hv & _).
  assert (∃ p', (match verdict x with Drop => mark x | _ => mret tt end) p = (Ok tt, p') ∧
    pool_ok p' (match verdict x with Drop => delete n xs | _ => xs end) ∧
    heap (pending p') !! l = Some (mkNode x (before xs n) (fst <$> xs !! S n))) as (p' & Hrun & Hp' & Hl).
  { destruct (verdict x); [|destruct (Hmark p xs n l x x Hp Hn eq_refl) as (p' & ? & ? & ? & _); by exists p'|];
      (exists p; split_and!; [done|done|by apply (hl_node _ _ (po_list p xs Hp))]). }
  exists p'. split_and!; [|done|done]. cbn [inclusionLoop]. destruct (Z.ltb_spec (len result) limit); [|lia].
  rewrite (M_bind_Ok _ _ _ p p) by done. rewrite Hv, (M_bind_Ok _ _ _ x p) by done.
  rewrite Hcheck, (M_bind_Ok _ _ _ (verdict x) p) by done. rewrite (M_bind_Ok _ _ _ _ _ Hrun). by rewrite (M_bind_Ok _ _ _ p' p').
Qed.
Lemma inclusion_full step p fuel limit node result : limit ≤ len result →
  inclusionLoop check mark step (S fuel) limit node result p = (Ok result, p).
Proof. intros Hlim. cbn [inclusionLoop]. destruct node; [|done]. by destruct (Z.ltb_spec (len result) limit); [lia|]. Qed.
Lemma select_zero ys : select verdict 0 ys = ([], ys).
Proof. by destruct ys. Qed.

(** From the first object to the last. *)
Lemma inclusion_forward fuel limit p done rest result : pool_ok p (done ++ rest) → (length rest < fuel)%nat →
  ∃ p' xs', inclusionLoop check mark Next fuel limit (fst <$> rest !! 0%nat) result p =
      (Ok (result ++ (select verdict (room limit result) rest.*2).1), p') ∧ pool_ok p' xs' ∧
    xs'.*2 = done.*2 ++ (select verdict (room limit result) rest.*2).2.
Proof.
  revert fuel p done result. induction rest as [|[l x] rest IH]; intros fuel p done result Hp Hf; (destruct fuel as [|fuel]; [simpl in Hf; lia|]).
  { exists p, done. cbn. rewrite !app_nil_r in *. done. }
  destruct (decide (len result < limit)) as [Hlt|Hge].
  2: { exists p, (done ++ (l, x) :: rest). rewrite inclusion_full by lia. assert (room limit result = 0%nat) as -> by (unfold room; lia).
       rewrite select_zero. cbn [fst snd]. by rewrite app_nil_r, fmap_app. }
  assert ((done ++ (l, x) :: rest) !! length done = Some (l, x)) as Hn by (by rewrite lookup_app_r, Nat.sub_diag).
  destruct (inclusion_step Next p _ _ l x fuel limit result Hp Hn Hlt) as (p1 & Hrun & Hp1 & Hl). cbn [lookup list_lookup fmap option_fmap option_map fst] in *.
  assert (Next (Some l) (pending p1) = Ok (fst <$> rest !! 0%nat)) as Hnext.
  { unfold Next, deref. rewrite Hl. cbn. rewrite lookup_app_r by lia. by replace (S (length done) - length done)%nat with 1%nat by lia. }
  rewrite Hrun, Hnext. rewrite (M_bind_Ok _ _ _ (fst <$> rest !! 0%nat) p1) by done.
  rewrite fmap_cons. cbn [snd select].
  destruct (room limit result) as [|k] eqn:Hk; [unfold room in Hk; lia|]. destruct (verdict x) eqn:Hver.
  - replace (done ++ (l, x) :: rest) with ((done ++ [(l, x)]) ++ rest) in Hp1 by (by rewrite <-app_assoc). destruct (IH fuel p1 (done ++ [(l, x)]) result) as (p' & xs' & Hr & Hp' & Hx); [done|simpl in Hf; lia|].
    rewrite Hr, Hk in *. destruct (select verdict (S k) rest.*2) as [r kept]. eexists p', xs'.
    split_and!; [done|done|].
    rewrite Hx. by rewrite fmap_app, <-app_assoc.
  - rewrite delete_middle in Hp1. destruct (IH fuel p1 done result) as (p' & xs' & Hr & Hp' & Hx); [done|simpl in Hf; lia|].
    rewrite Hr, Hk in *. destruct (select verdict (S k) rest.*2) as [r kept]. by eexists p', xs'.
  - replace (done ++ (l, x) :: rest) with ((done ++ [(l, x)]) ++ rest) in Hp1 by (by rewrite <-app_assoc). destruct (IH fuel p1 (done ++ [(l, x)]) (result ++ [x])) as (p' & xs' & Hr & Hp' & Hx); [done|simpl in Hf; lia|].
    rewrite Hr. rewrite (room_snoc _ _ x Hlt) in Hk. injection Hk as Hk. rewrite Hk in *. destruct (select verdict k rest.*2) as [r kept].
    eexists p', xs'. cbn [fst snd] in *. rewrite <-!app_assoc. split_and!; [done|done|]. rewrite Hx. by rewrite fmap_app, <-app_assoc.
Qed.

(** From the last object to the first. *)
Lemma inclusion_backward fuel limit p done rest result : pool_ok p (rest ++ done) → (length rest < fuel)%nat →
  ∃ p' xs', inclusionLoop check mark Prev fuel limit (before (rest ++ done) (length rest)) result p =
      (Ok (result ++ (select verdict (room limit result) (reverse rest.*2)).1), p') ∧ pool_ok p' xs' ∧
    xs'.*2 = reverse (select verdict (room limit result) (reverse rest.*2)).2 ++ done.*2.
Proof.
  revert fuel p done result. induction rest as [|[l x] rest IH] using rev_ind; intros fuel p done result Hp Hf; (destruct fuel as [|fuel]; [simpl in Hf; lia|]).
  { exists p, done. cbn. rewrite !app_nil_r in *. done. }
  rewrite length_app in Hf. cbn [length] in Hf.
  destruct (decide (len result < limit)) as [Hlt|Hge].
  2: { exists p, ((rest ++ [(l, x)]) ++ done). rewrite inclusion_full by lia. assert (room limit result = 0%nat) as -> by (unfold room; lia).
       rewrite select_zero. cbn [fst snd]. by rewrite app_nil_r, fmap_app, reverse_involutive. }
  rewrite <-app_assoc in Hp |- *. cbn [app] in Hp |- *.
  assert ((rest ++ (l, x) :: done) !! length rest = Some (l, x)) as Hn by (by rewrite lookup_app_r, Nat.sub_diag).
  destruct (inclusion_step Prev p _ _ l x fuel limit result Hp Hn Hlt) as (p1 & Hrun & Hp1 & Hl).
  assert (before (rest ++ (l, x) :: done) (length (rest ++ [(l, x)])) = Some l) as ->
    by (rewrite length_app, Nat.add_1_r; cbn; by rewrite Hn).
  assert (∀ done', before (rest ++ done') (length rest) = before rest (length rest)) as Hbef.
  { intros done'. destruct (length rest) as [|j] eqn:Hj; [done|]. cbn. by rewrite lookup_app_l by lia. }
  assert (Prev (Some l) (pending p1) = Ok (before rest (length rest))) as Hprev.
  { unfold Prev, deref. rewrite Hl. cbn. by rewrite Hbef. }
  rewrite Hrun, Hprev. rewrite (M_bind_Ok _ _ _ (before rest (length rest)) p1) by done.
  rewrite fmap_app, reverse_app. change (reverse [(l, x)].*2) with [x]. cbn [app select].
  destruct (room limit result) as [|k] eqn:Hk; [unfold room in Hk; lia|]. destruct (verdict x) eqn:Hver.
  - destruct (IH fuel p1 ((l, x) :: done) result) as (p' & xs' & Hr & Hp' & Hx); [done|lia|]. rewrite Hbef in Hr.
    rewrite Hr, Hk in *. destruct (select verdict (S k) (reverse rest.*2)) as [r kept]. eexists p', xs'. split_and!; [done|done|].
    rewrite Hx. cbn [fst snd]. by rewrite reverse_cons, <-app_assoc.
  - rewrite delete_middle in Hp1. destruct (IH fuel p1 done result) as (p' & xs' & Hr & Hp' & Hx); [done|lia|]. rewrite Hbef in Hr.
    rewrite Hr, Hk in *. destruct (select verdict (S k) (reverse rest.*2)) as [r kept]. by eexists p', xs'.
  - destruct (IH fuel p1 ((l, x) :: done) (result ++ [x])) as (p' & xs' & Hr & Hp' & Hx); [done|lia|]. rewrite Hbef in Hr.
    rewrite Hr. rewrite (room_snoc _ _ x Hlt) in Hk. injection Hk as Hk. rewrite Hk in *.
    destruct (select verdict k (reverse rest.*2)) as [r kept]. eexists p', xs'. cbn [fst snd] in *.
    rewrite <-!app_assoc. split_and!; [done|done|]. rewrite Hx. by rewrite reverse_cons, <-app_assoc.
Qed.

Lemma forward_Ok max p xs : pool_ok p xs →
  ∃ p' xs', forInclusion check mark Next max First p = (Ok (select verdict (Z.to_nat (Z.min max (len xs))) xs.*2).1, p') ∧
    pool_ok p' xs' ∧ xs'.*2 = (select verdict (Z.to_nat (Z.min max (len xs))) xs.*2).2.
Proof.
  intros Hp. pose proof (po_list p xs Hp) as Hd. pose proof (addresses_bound _ _ Hd). unfold forInclusion.
  rewrite (M_bind_Ok _ _ _ p p) by done. unfold First, Len. rewrite (hl_first _ _ Hd), (hl_length _ _ Hd).
  destruct (inclusion_forward (S (S (fresh (pending p)))) (Z.min max (len xs)) p [] xs []) as (p' & xs' & Hr & Hp' & Hx); [done|lia|].
  unfold room, len in Hr, Hx. rewrite Z.sub_0_r in Hr, Hx. by exists p', xs'.
Qed.
Lemma backward_Ok max p xs : pool_ok p xs →
  ∃ p' xs', forInclusion check mark Prev max Last p = (Ok (select verdict (Z.to_nat (Z.min max (len xs))) (reverse xs.*2)).1, p') ∧
    pool_ok p' xs' ∧ xs'.*2 = reverse (select verdict (Z.to_nat (Z.min max (len xs))) (reverse xs.*2)).2.
Proof.
  intros Hp. pose proof (po_list p xs Hp) as Hd. pose proof (addresses_bound _ _ Hd). unfold forInclusion.
  rewrite (M_bind_Ok _ _ _ p p) by done. unfold Last, Len. rewrite (hl_last _ _ Hd), (hl_length _ _ Hd).
  destruct (inclusion_backward (S (S (fresh (pending p)))) (Z.min max (len xs)) p [] xs []) as (p' & xs' & Hr & Hp' & Hx); [by rewrite app_nil_r|lia|].
  rewrite app_nil_r in *. unfold room, len in Hr, Hx. cbn [length] in Hr, Hx. rewrite Z.sub_0_r in Hr, Hx. exists p', xs'.
  done.
Qed.
End inclusion.

(** ** Sequences of operations *)
Section runs.
Context {St : Type} (mark : T → M (Pool T) unit) (read : St → M (Pool T) (list T)) (readSpec : St → list T → list T * list T).

Inductive PoolOp := OpInsert (x : T) | OpIncluded (x : T) | OpPending | OpRead (st : St).

Definition exec (op : PoolOp) : M (Pool T) (list (option T)) :=
  match op with
  | OpInsert x => Insert key x;; mret []
  | OpIncluded x => mark x;; mret []
  | OpPending => p ← mget; mlift (PendingAll p)
  | OpRead st => r ← read st; mret (Some <$> r)
  end.
Definition specExec (op : PoolOp) ys : list (option T) * list T :=
  match op with
  | OpInsert x => ([], insertSpec x ys)
  | OpIncluded x => ([], removeSpec (key x) ys)
  | OpPending => (Some <$> ys, ys)
  | OpRead st => let '(r, k) := readSpec st ys in (Some <$> r, k)
  end.
Fixpoint execAll (ops : list PoolOp) : M (Pool T) (list (list (option T))) :=
  match ops with
  | [] => mret []
  | op :: ops' => r ← exec op; rs ← execAll ops'; mret (r :: rs)
  end.
Fixpoint specAll (ops : list PoolOp) ys : list (list (option T)) * list T :=
  match ops with
  | [] => ([], ys)
  | op :: ops' => let '(r, ys1) := specExec op ys in let '(rs, ys2) := specAll ops' ys1 in (r :: rs, ys2)
  end.

Context (Hmark : marks mark) (Hnone : ∀ y p, m p !! key y = None → mark y p = (Ok tt, p)).
Context (ok : St → Prop).
Context (Hread : ∀ st p xs, ok st → pool_ok p xs → ∃ p' xs', read st p = (Ok (readSpec st xs.*2).1, p') ∧ pool_ok p' xs' ∧ xs'.*2 = (readSpec st xs.*2).2).

Definition op_ok (op : PoolOp) : Prop := match op with OpRead st => ok st | _ => True end.
Lemma exec_Ok op p xs : op_ok op → pool_ok p xs →
  ∃ p' xs', exec op p = (Ok (specExec op xs.*2).1, p') ∧ pool_ok p' xs' ∧ xs'.*2 = (specExec op xs.*2).2.
Proof.
  intros Hop Hp. destruct op as [x|x| |st]; cbn [exec specExec].
  - destruct (Insert_Ok p xs x Hp) as (p' & xs' & Hr & ? & ?). exists p', xs'. by rewrite (M_bind_Ok _ _ _ _ _ Hr).
  - destruct (mark_Ok mark p xs x Hmark (Hnone x) Hp) as (p' & xs' & Hr & ? & ?). exists p', xs'. by rewrite (M_bind_Ok _ _ _ _ _ Hr).
  - exists p, xs. rewrite (M_bind_Ok _ _ _ p p) by done. unfold mlift. by rewrite (PendingAll_Ok p xs Hp).
  - destruct (Hread st p xs Hop Hp) as (p' & xs' & Hr & ? & ?). exists p', xs'. rewrite (M_bind_Ok _ _ _ _ _ Hr).
    by destruct (readSpec st xs.*2).
Qed.
Lemma execAll_Ok ops p xs : Forall op_ok ops → pool_ok p xs →
  ∃ p' xs', execAll ops p = (Ok (specAll ops xs.*2).1, p') ∧ pool_ok p' xs' ∧ xs'.*2 = (specAll ops xs.*2).2.
Proof.
  intros Hops. revert p xs. induction Hops as [|op ops Hop Hops IH]; intros p xs Hp; cbn [execAll specAll]; [by exists p, xs|].
  destruct (exec_Ok op p xs Hop Hp) as (p1 & xs1 & Hr & Hp1 & Hx1). rewrite (M_bind_Ok _ _ _ _ _ Hr).
  destruct (specExec op xs.*2) as [r ys1]. cbn [fst snd] in *. subst ys1.
  destruct (IH p1 xs1 Hp1) as (p2 & xs2 & Hr2 & Hp2 & Hx2). rewrite (M_bind_Ok _ _ _ _ _ Hr2). exists p2, xs2.
  by destruct (specAll ops xs1.*2).
Qed.
End runs.
End pool.

(** ** The pool of voluntary exits *)
Section theorems.
Context `{cfg : BeaconChainConfig} `{ecfg : EpochConfig} `{ocfg : OperationsConfig}.

Lemma ToEpoch_total sl : SlotsPerEpoch ≠ 0 → ∃ e, ToEpoch sl = Ok e.
Proof.
  intros Hs. unfold ToEpoch, Slot.DivSlot, Slot.Div, Slot.SafeDiv. rewrite Div64_cases.
  destruct (Z.eqb_spec SlotsPerEpoch 0); [done|]. by eexists.
Qed.
Definition verdictOf {A} (check : A → gores Verdict) (x : A) : Verdict := match check x with Ok v => v | _ => Skip end.

Lemma ValidatorAtIndex_total st i : 0 < len (validators st) →
  (∃ v, ValidatorAtIndex st i = Ok v) ∨ ValidatorAtIndex st i = Err ErrOutOfBounds.
Proof.
  intros Hl. unfold ValidatorAtIndex, list_at. rewrite Z.geb_leb. destruct (Z.leb_spec (len (validators st)) i); [by right|left].
  unfold index_at. destruct (lookup_lt_is_Some_2 (validators st) (Z.to_nat i)) as [v ->]; [unfold len in *; lia|]. by exists v.
Qed.

Lemma checkExit_total sigOk st sl x : SlotsPerEpoch ≠ 0 → 0 < len (validators st) →
  checkExit sigOk st sl x = Ok (verdictOf (checkExit sigOk st sl) x).
Proof.
  intros Hs Hl. unfold verdictOf. enough (∃ v, checkExit sigOk st sl x = Ok v) as [v ->] by done. unfold checkExit.
  destruct (ToEpoch_total sl Hs) as [e ->]. cbn [mbind gores_bind]. destruct (_ >? _); [by eexists|].
  destruct (ValidatorAtIndex_total st (exit_ValidatorIndex x) Hl) as [[v ->]| ->]; [|by eexists].
  cbn [VerifyExitAndSignature]. unfold verifyExitConditions, HasPendingBalanceToWithdraw, readFrom.
  destruct (ToEpoch_total (slot st) Hs) as [e' ->]. cbn [mbind gores_bind].
  repeat (match goal with |- context [if ?b then _ else _] => destruct b; cbn [mbind gores_bind] end; try by eexists).
Qed.

Definition exitsSpec sigOk (r : BeaconState * Z) (ys : list VoluntaryExit) : list VoluntaryExit * list VoluntaryExit :=
  select (verdictOf (checkExit sigOk r.1 r.2)) (Z.to_nat (Z.min MaxVoluntaryExits (len ys))) ys.

(** C19: The pool of voluntary exits implements a list of exits with at most one per validator.
    Whatever the sequence of insertions, inclusions, reads of all the exits and reads of the
    exits for a block (each against a state and a slot of its own), every call returns what the
    list gives: an insertion of a validator that has an exit in the pool changes nothing, an
    inclusion removes the validator's exit, and the exits for a block are the first that are
    valid, up to the limit, with the invalid ones before them dropped from the pool.  No call
    panics or loops on the pointers of the list. *)
Theorem exit_pool_refines sigOk ops : SlotsPerEpoch ≠ 0 →
  Forall (op_ok (λ r : BeaconState * Z, 0 < len (validators r.1))) ops →
  ∃ p xs, execAll exit_ValidatorIndex MarkIncludedExit (λ r, ExitsForInclusion sigOk r.1 r.2) ops NewPool =
      (Ok (specAll exit_ValidatorIndex (exitsSpec sigOk) ops []).1, p) ∧
    pool_ok exit_ValidatorIndex p xs ∧ xs.*2 = (specAll exit_ValidatorIndex (exitsSpec sigOk) ops []).2.
Proof.
  intros Hs Hops. refine (execAll_Ok exit_ValidatorIndex MarkIncludedExit _ (exitsSpec sigOk) (MarkIncluded_marks _) _ _ _ ops NewPool [] Hops (NewPool_ok _)).
  - intros y p Hy. unfold MarkIncludedExit, MarkIncluded. rewrite (M_bind_Ok _ _ _ p p) by done. by rewrite Hy.
  - intros r p xs Hr Hp. unfold exitsSpec. replace (len xs.*2) with (len xs) by (unfold len; by rewrite length_fmap).
    apply forward_Ok; [|apply MarkIncluded_marks|done]. intros x. by apply checkExit_total.
Qed.

(** ** The pool of BLS to execution changes *)
Lemma checkChange_total hash st x : 0 < len (validators st) → checkChange hash st x = Ok (verdictOf (checkChange hash st) x).
Proof.
  intros Hl. unfold verdictOf. enough (∃ v, checkChange hash st x = Ok v) as [v ->] by done. unfold checkChange, ValidateBLSToExecutionChange.
  destruct (ValidatorAtIndex_total st (ValidatorIndex x) Hl) as [[v ->]| ->]; cbn [mbind gores_bind]; [|by eexists].
  destruct (Z.ltb_spec (len (WithdrawalCredentials v)) 2); [by eexists|]. unfold index_at.
  destruct (lookup_lt_is_Some_2 (WithdrawalCredentials v) (Z.to_nat 0)) as [c ->]; [unfold len in *; lia|]. cbn [mbind gores_bind].
  destruct (negb _); [by eexists|]. destruct (negb _); by eexists.
Qed.
Definition changesSpec hash (st : BeaconState) (ys : list BLSToExecutionChange) : list BLSToExecutionChange * list BLSToExecutionChange :=
  let '(r, k) := select (verdictOf (checkChange hash st)) (Z.to_nat (Z.min MaxBlsToExecutionChanges (len ys))) (reverse ys) in (r, reverse k).

(** The same for the pool of changes of withdrawal credentials, which is read from the newest
    change to the oldest. *)
Lemma change_pool_refines hash ops : Forall (op_ok (λ st, 0 < len (validators st))) ops →
  ∃ p xs, execAll ValidatorIndex MarkIncludedChange (BLSToExecChangesForInclusion hash) ops NewPool =
      (Ok (specAll ValidatorIndex (changesSpec hash) ops []).1, p) ∧
    pool_ok ValidatorIndex p xs ∧ xs.*2 = (specAll ValidatorIndex (changesSpec hash) ops []).2.
Proof.
  intros Hops. refine (execAll_Ok ValidatorIndex MarkIncludedChange _ (changesSpec hash) (MarkIncludedBLS_marks _) _ _ _ ops NewPool [] Hops (NewPool_ok _)).
  - intros y p Hy. unfold MarkIncludedChange, MarkIncludedBLS. rewrite (M_bind_Ok _ _ _ p p) by done. by rewrite Hy.
  - intros st p xs Hst Hp. unfold changesSpec. replace (len xs.*2) with (len xs) by (unfold len; by rewrite length_fmap).
    destruct (backward_Ok ValidatorIndex (checkChange hash st) (verdictOf (checkChange hash st)) (λ x, checkChange_total hash st x Hst)
      MarkIncludedChange (MarkIncludedBLS_marks _) MaxBlsToExecutionChanges p xs Hp) as (p' & xs' & Hr & Hp' & Hx).
    exists p', xs'. unfold BLSToExecChangesForInclusion. rewrite Hr, Hx. by destruct (select _ _ _).
Qed.
End theorems.

(** ** Witness *)
#[local] Existing Instance mainnet_config.
#[local] Existing Instance mainnet_epoch_config.
#[local] Existing Instance mainnet_operations_config.

(** Three exits, one of them twice; the signature of the second validator's exit is bad. *)
Definition ex_exits : list (PoolOp (St := BeaconState * Z)) :=
  [OpInsert (mkExit 1 0); OpInsert (mkExit 2 1); OpInsert (mkExit 3 1); OpInsert (mkExit 1 3);
   OpRead (ex_withdrawals 0, 9600); OpPending; OpIncluded (mkExit 1 0); OpPending].
Definition ex_exitSig (_ : bool) (e : VoluntaryExit) (_ : Validator) : bool := negb (exit_ValidatorIndex e =? 1).

Lemma exit_pool_refines_witness :
  (specAll exit_ValidatorIndex (exitsSpec ex_exitSig) ex_exits []).1 =
    [[]; []; []; []; [Some (mkExit 1 3)]; [Some (mkExit 1 3)]; []; [Some (mkExit 1 3)]] ∧
  ∃ p xs, execAll exit_ValidatorIndex MarkIncludedExit (λ r, ExitsForInclusion ex_exitSig r.1 r.2) ex_exits NewPool =
      (Ok (specAll exit_ValidatorIndex (exitsSpec ex_exitSig) ex_exits []).1, p) ∧
    pool_ok exit_ValidatorIndex p xs ∧ xs.*2 = (specAll exit_ValidatorIndex (exitsSpec ex_exitSig) ex_exits []).2.
Proof.
  split; [vm_compute; reflexivity|]. apply (exit_pool_refines ex_exitSig ex_exits); [discriminate|].
  repeat (apply Forall_cons; split; [vm_compute; first [reflexivity|exact I]|]). apply Forall_nil_2.
Defined.
