(* ===== verification/SlashingPool.v ===== *)
(** * The pool of slashings

    beacon-chain/operations/slashings/pool.go: two slices sorted by the validator to slash,
    searched with [sort.Search], and the set of validators whose slashing has been included.
    A call holds the lock; an error leaves the pool as the code left it.  [sort.Slice] is not
    stable, but the validators of a slice are distinct, so its result is the sorted list.  A
    block of a version before Electra has [ia_Version] below [version_Electra]. *)
From S2P Require Import Prelude MathHelper Primitives Config SlotTime MVSlice MerkleTrie EpochConfig BeaconState StateOperations Withdrawals WithdrawalTheorems BlockOperations OperationPools PoolTheorems.

(** [sort.Search(n, f)]: the smallest index in [0, n] with [f] true, by halving; every
    round shrinks the interval, so [n + 1] rounds are enough. *)
Fixpoint searchLoop (fuel : nat) (f : nat → gores bool) (i j : nat) : gores nat :=
  match fuel with
  | O => OutOfFuel
  | S fuel' =>
      if (i <? j)%nat then
        let h := ((i + j) / 2)%nat in
        b ← f h;
        if (b : bool) then searchLoop fuel' f i h else searchLoop fuel' f (S h) j
      else Ok i
  end.
Definition Search (n : nat) (f : nat → gores bool) : gores nat := searchLoop (S n) f 0 n.

Section sorted.
Context {A : Type} (key : A → Z).

Definition keyLe (x y : A) : Prop := key x ≤ key y.
#[export] Instance keyLe_dec x y : Decision (keyLe x y).
Proof. unfold keyLe. apply _. Defined.

(** The index of the first entry whose key is at least [val], and whether its key is [val]. *)
Definition searchKey (l : list A) (val : Z) : gores (nat * bool) :=
  found ← Search (length l) (λ i, x ← at_ l i; Ok (key x >=? val));
  if (found =? length l)%nat then Ok (found, false)
  else x ← at_ l found; Ok (found, key x =? val).
(** [append(l, x)] and [sort.Slice] *)
Definition insertSorted (x : A) (l : list A) : list A := merge_sort keyLe (l ++ [x]).
(** [append(l[:i], l[i+1:]...)] *)
Definition removeAt (i : nat) (l : list A) : list A := take i l ++ drop (S i) l.
End sorted.

(** An attester slashing: its two attestations. *)
Record AttSlashing := mkAttSlashing { FirstAttestation : IndexedAttestation; SecondAttestation : IndexedAttestation }.
Record PendingAttesterSlashing := mkPending { attesterSlashing : AttSlashing; validatorToSlash : Z }.
Record SlashingsPool := mkSlashingsPool {
  pendingProposerSlashing : list ProposerSlashing;
  pendingAttesterSlashing : list PendingAttesterSlashing;
  included : gset Z }.
Definition NewSlashingsPool : SlashingsPool := mkSlashingsPool [] [] ∅.
Definition setProposers (l : list ProposerSlashing) : M SlashingsPool unit :=
  mmodify (λ p, mkSlashingsPool l (pendingAttesterSlashing p) (included p)).
Definition setAttesters (l : list PendingAttesterSlashing) : M SlashingsPool unit :=
  mmodify (λ p, mkSlashingsPool (pendingProposerSlashing p) l (included p)).
Definition addIncluded (i : Z) : M SlashingsPool unit :=
  mmodify (λ p, mkSlashingsPool (pendingProposerSlashing p) (pendingAttesterSlashing p) ({[i]} ∪ included p)).

(** [slashing.Header_1.Header.ProposerIndex]; the slashings of the pool have been verified, so
    their headers are there. *)
Definition proposerIndex (s : ProposerSlashing) : Z := match Header_1 s with Some h => h_ProposerIndex h | None => 0 end.
Definition slashedValidators (s : AttSlashing) : list Z :=
  IntersectionUint64 (AttestingIndices (FirstAttestation s)) (AttestingIndices (SecondAttestation s)).

Section pool.
Context `{cfg : BeaconChainConfig} `{ecfg : EpochConfig} `{ocfg : OperationsConfig}.
Context (MaxCommitteesPerSlot : Z) (attSigOk : BeaconState → IndexedAttestation → bool).
Context (headerSigOk : BeaconState → BeaconBlockHeader → bool).

Definition validatorSlashingPreconditionCheck (p : SlashingsPool) (state : BeaconState) (valIdx : Z) : gores bool :=
  if bool_decide (valIdx ∈ included p) then Ok false
  else
    validator ← ValidatorAtIndex state valIdx;
    e ← CurrentEpoch (slot state);
    Ok (IsSlashableValidator validator e).

(** ** Insertion *)
Definition insertAttester (state : BeaconState) (slashing : AttSlashing) (cantSlash val : Z) : M SlashingsPool Z :=
  p ← mget;
  ok ← mlift (validatorSlashingPreconditionCheck p state val);
  if negb ok then mret (cantSlash + 1)
  else
    '(_, exists_) ← mlift (searchKey validatorToSlash (pendingAttesterSlashing p) val);
    if (exists_ : bool) then mret (cantSlash + 1)
    else
      setAttesters (insertSorted validatorToSlash (mkPending slashing val) (pendingAttesterSlashing p));;
      mret cantSlash.
Definition InsertAttesterSlashing (state : BeaconState) (slashing : AttSlashing) : M SlashingsPool unit :=
  mlift (VerifyAttesterSlashing MaxCommitteesPerSlot attSigOk state (FirstAttestation slashing) (SecondAttestation slashing));;
  let slashedVal := slashedValidators slashing in
  cantSlash ← mfold slashedVal 0 (insertAttester state slashing);
  if cantSlash =? len slashedVal then mfail errMessage else mret tt.

Definition InsertProposerSlashing (state : BeaconState) (slashing : ProposerSlashing) : M SlashingsPool unit :=
  mlift (VerifyProposerSlashing headerSigOk state slashing);;
  match Header_1 slashing with
  | None => mpanic
  | Some h =>
      let idx := h_ProposerIndex h in
      p ← mget;
      ok ← mlift (validatorSlashingPreconditionCheck p state idx);
      if negb ok then mfail errMessage
      else
        '(_, exists_) ← mlift (searchKey proposerIndex (pendingProposerSlashing p) idx);
        if (exists_ : bool) then mfail errMessage
        else setProposers (insertSorted proposerIndex slashing (pendingProposerSlashing p))
  end.

(** ** Inclusion in a block *)
Definition MarkIncludedAttesterSlashing (as_ : AttSlashing) : M SlashingsPool unit :=
  mfor (slashedValidators as_) (λ val,
    p ← mget;
    '(i, found) ← mlift (searchKey validatorToSlash (pendingAttesterSlashing p) val);
    (if (found : bool) then setAttesters (removeAt i (pendingAttesterSlashing p)) else mret tt);;
    addIncluded val).
Definition MarkIncludedProposerSlashing (ps : ProposerSlashing) : M SlashingsPool unit :=
  match Header_1 ps with
  | None => mpanic
  | Some h =>
      p ← mget;
      '(i, found) ← mlift (searchKey proposerIndex (pendingProposerSlashing p) (h_ProposerIndex h));
      (if (found : bool) then setProposers (removeAt i (pendingProposerSlashing p)) else mret tt);;
      addIncluded (h_ProposerIndex h)
  end.

(** ** Slashings for a block *)

(** The loop over the positions [i]: a removal stays at [i]; [fuel] bounds the entries. *)
Fixpoint pendingAttesterLoop (fuel : nat) (state : BeaconState) (maxSlashings : Z) (i : nat) (pending : list AttSlashing)
    (covered : gset Z) : M SlashingsPool (list AttSlashing) :=
  match fuel with
  | O => mstuck
  | S fuel' =>
      p ← mget;
      match pendingAttesterSlashing p !! i with
      | None => mret pending
      | Some slashing =>
          if len pending >=? maxSlashings then mret pending
          else
            match validatorSlashingPreconditionCheck p state (validatorToSlash slashing) with
            | Err _ => pendingAttesterLoop fuel' state maxSlashings (S i) pending covered
            | Panic => mpanic
            | OutOfFuel => mstuck
            | Ok valid =>
                if bool_decide (validatorToSlash slashing ∈ covered) || negb valid then
                  setAttesters (removeAt i (pendingAttesterSlashing p));;
                  pendingAttesterLoop fuel' state maxSlashings i pending covered
                else
                  let slashedVal := slashedValidators (attesterSlashing slashing) in
                  pendingAttesterLoop fuel' state maxSlashings (S i) (pending ++ [attesterSlashing slashing])
                    (list_to_set slashedVal ∪ covered)
            end
      end
  end.
Definition PendingAttesterSlashings (state : BeaconState) (noLimit : bool) : M SlashingsPool (list AttSlashing) :=
  p ← mget;
  let n := len (pendingAttesterSlashing p) in
  let maxSlashings := if noLimit then n
                      else if version state >=? version_Electra then MaxAttesterSlashingsElectra else MaxAttesterSlashings in
  pendingAttesterLoop (S (length (pendingAttesterSlashing p))) state maxSlashings 0 [] ∅.

Fixpoint pendingProposerLoop (fuel : nat) (state : BeaconState) (maxSlashings : Z) (i : nat) (pending : list ProposerSlashing)
    : M SlashingsPool (list ProposerSlashing) :=
  match fuel with
  | O => mstuck
  | S fuel' =>
      p ← mget;
      match pendingProposerSlashing p !! i with
      | None => mret pending
      | Some slashing =>
          if len pending >=? maxSlashings then mret pending
          else
            match validatorSlashingPreconditionCheck p state (proposerIndex slashing) with
            | Err _ => pendingProposerLoop fuel' state maxSlashings (S i) pending
            | Panic => mpanic
            | OutOfFuel => mstuck
            | Ok valid =>
                if negb valid then
                  setProposers (removeAt i (pendingProposerSlashing p));;
                  pendingProposerLoop fuel' state maxSlashings i pending
                else pendingProposerLoop fuel' state maxSlashings (S i) (pending ++ [slashing])
            end
      end
  end.
Definition PendingProposerSlashings (state : BeaconState) (noLimit : bool) : M SlashingsPool (list ProposerSlashing) :=
  p ← mget;
  let maxSlashings := if noLimit then len (pendingProposerSlashing p) else MaxProposerSlashings in
  pendingProposerLoop (S (length (pendingProposerSlashing p))) state maxSlashings 0 [].

(** ** The fork to Electra *)
Definition toElectra (a : IndexedAttestation) : IndexedAttestation := mkIndexed (AttestingIndices a) (ia_Data a) version_Electra.
Definition ConvertToElectra : M SlashingsPool unit :=
  p ← mget;
  setAttesters ((λ s, let a := attesterSlashing s in
                      if ia_Version (FirstAttestation a) =? version_Phase0
                      then mkPending (mkAttSlashing (toElectra (FirstAttestation a)) (toElectra (SecondAttestation a))) (validatorToSlash s)
                      else s) <$> pendingAttesterSlashing p).
End pool.

(** ** The pool of slashings stays sorted and offers each validator once

    Binary search is exact because every operation, whatever its outcome, keeps the slices
    strictly sorted; the slashings for a block slash validators that are still slashable and
    that no slashing before them in the block slashes. *)
(** ** Binary search *)
Lemma searchLoop_Ok f (g : nat → bool) fuel i j : (i ≤ j)%nat → (j - i < fuel)%nat → (∀ h, (i ≤ h < j)%nat → f h = Ok (g h)) →
  (∀ h k, (i ≤ h ≤ k)%nat → (k < j)%nat → g h = true → g k = true) →
  ∃ k, searchLoop fuel f i j = Ok k ∧ (i ≤ k ≤ j)%nat ∧ (∀ h, (i ≤ h < k)%nat → g h = false) ∧ (∀ h, (k ≤ h < j)%nat → g h = true).
Proof.
  revert i j. induction fuel as [|fuel IH]; intros i j Hij Hf Hg Hmono; [lia|]. cbn [searchLoop]. destruct (Nat.ltb_spec i j) as [Hlt|Hge].
  2: { exists i. split_and!; [done|lia|lia|intros; lia|intros; lia]. }
  set (h := ((i + j) / 2)%nat). assert (i ≤ h < j)%nat as Hh by (unfold h; pose proof (Nat.div_mod_eq (i + j) 2); pose proof (Nat.mod_upper_bound (i + j) 2); lia). rewrite Hg by done. cbn [mbind gores_bind].
  destruct (g h) eqn:Hgh.
  - destruct (IH i h) as (k & -> & Hk & Hlo & Hhi); [lia|lia|intros; apply Hg; lia|intros; eapply Hmono; [|lia|done]; lia|].
    exists k. split_and!; [done|lia|lia|done|]. intros q Hq. destruct (decide (q < h)%nat); [apply Hhi; lia|]. apply (Hmono h); [lia|lia|done].
  - destruct (IH (S h) j) as (k & -> & Hk & Hlo & Hhi); [lia|lia|intros; apply Hg; lia|intros; eapply Hmono; [|lia|done]; lia|].
    exists k. split_and!; [done|lia|lia| |done]. intros q Hq. destruct (decide (S h ≤ q)%nat); [apply Hlo; lia|].
    destruct (g q) eqn:Hgq; [|done]. rewrite (Hmono q h) in Hgh; [done|lia|lia|done].
Qed.

Section sorted.
Context {A : Type} (key : A → Z).
Implicit Types l : list A.

Definition strictly l : Prop := ∀ i j x y, (i < j)%nat → l !! i = Some x → l !! j = Some y → key x < key y.

Lemma strictly_nil : strictly [].
Proof. by intros i j x y _ Hi. Qed.
Lemma strictly_le l i j x y : strictly l → (i ≤ j)%nat → l !! i = Some x → l !! j = Some y → key x ≤ key y.
Proof. intros Hl Hij Hx Hy. destruct (decide (i = j)) as [->|]; [by simplify_eq|]. specialize (Hl i j x y ltac:(lia) Hx Hy). lia. Qed.

Lemma searchKey_Ok l val : strictly l → ∃ k b, searchKey key l val = Ok (k, b) ∧
  (if b : bool then ∃ x, l !! k = Some x ∧ key x = val else val ∉ key <$> l).
Proof.
  intros Hl. set (g := λ i, match l !! i with Some x => key x >=? val | None => true end).
  destruct (searchLoop_Ok (λ i, x ← at_ l i; Ok (key x >=? val)) g (S (length l)) 0 (length l)) as (k & Hrun & Hk & Hlo & Hhi).
  - lia.
  - lia.
  - intros h Hh. unfold g, at_. destruct (lookup_lt_is_Some_2 l h) as [x ->]; [lia|done].
  - intros h q Hhq Hq. unfold g. destruct (lookup_lt_is_Some_2 l h) as [x Hx]; [lia|]. destruct (lookup_lt_is_Some_2 l q) as [y Hy]; [lia|].
    rewrite Hx, Hy, !Z.geb_le. pose proof (strictly_le l h q x y Hl ltac:(lia) Hx Hy). lia.
  - unfold searchKey, Search. rewrite Hrun. cbn [mbind gores_bind].
    assert (∀ i x, l !! i = Some x → key x = val → i = k) as Honly.
    { intros i x Hi Hx. destruct (lt_eq_lt_dec i k) as [[Hik| ->]|Hki]; [|done|].
      - specialize (Hlo i ltac:(lia)). unfold g in Hlo. rewrite Hi in Hlo. rewrite Z.geb_leb in Hlo. apply Z.leb_gt in Hlo. lia.
      - pose proof (lookup_lt_Some _ _ _ Hi). destruct (lookup_lt_is_Some_2 l k) as [y Hy]; [lia|].
        specialize (Hhi k ltac:(lia)). unfold g in Hhi. rewrite Hy, Z.geb_le in Hhi. specialize (Hl k i y x Hki Hy Hi). lia. }
    destruct (Nat.eqb_spec k (length l)) as [Hend|Hne].
    + exists k, false. split; [done|]. intros (x & -> & [i Hi]%list_elem_of_lookup)%list_elem_of_fmap.
      rewrite (Honly i x Hi eq_refl) in Hi. apply lookup_lt_Some in Hi. lia.
    + destruct (lookup_lt_is_Some_2 l k) as [x Hx]; [lia|]. unfold at_. rewrite Hx. cbn [mbind gores_bind]. exists k, (key x =? val).
      split; [done|]. destruct (Z.eqb_spec (key x) val) as [Heq|Hneq]; [by exists x|].
      intros (y & Hy & [i Hi]%list_elem_of_lookup)%list_elem_of_fmap. rewrite (Honly i y Hi) in Hi by done. by simplify_eq.
Qed.

Lemma StronglySorted_lookup (R : relation A) l i j x y : StronglySorted R l → (i < j)%nat → l !! i = Some x → l !! j = Some y → R x y.
Proof.
  intros Hl. revert i j. induction Hl as [|z l Hl IH Hz]; intros [|i] [|j] Hij Hi Hj; simplify_eq/=; try lia.
  - by eapply Forall_lookup_1 in Hj.
  - eapply IH; [|done|done]. lia.
Qed.
#[local] Instance keyLe_trans : Transitive (keyLe key).
Proof. intros x y z. unfold keyLe. lia. Qed.
#[local] Instance keyLe_total : Total (keyLe key).
Proof. intros x y. unfold keyLe. lia. Qed.

Lemma insertSorted_perm x l : insertSorted key x l ≡ₚ x :: l.
Proof. unfold insertSorted. rewrite merge_sort_Permutation, Permutation_app_comm. done. Qed.
Lemma insertSorted_ok x l : strictly l → key x ∉ key <$> l → strictly (insertSorted key x l).
Proof.
  intros Hl Hx. assert (NoDup (key <$> insertSorted key x l)) as Hnd.
  { rewrite insertSorted_perm. rewrite fmap_cons. apply NoDup_cons. split; [done|]. apply NoDup_alt. intros i j k Hi Hj.
    apply list_lookup_fmap_Some in Hi as (y & -> & Hi). apply list_lookup_fmap_Some in Hj as (z & Hk & Hj).
    destruct (lt_eq_lt_dec i j) as [[Hij|]|Hji]; [|done|].
    - specialize (Hl i j y z Hij Hi Hj). lia.
    - specialize (Hl j i z y Hji Hj Hi). lia. }
  intros i j y z Hij Hi Hj. assert (key y ≤ key z) as Hle.
  { eapply (StronglySorted_lookup (keyLe key)); [apply (StronglySorted_merge_sort (keyLe key))|exact Hij|exact Hi|exact Hj]. }
  assert (key y ≠ key z); [|lia]. intros Heq. assert (i = j); [|lia].
  eapply NoDup_lookup; [exact Hnd|by rewrite list_lookup_fmap, Hi|]. by rewrite list_lookup_fmap, Hj, Heq.
Qed.
Lemma removeAt_delete i l : removeAt i l = delete i l.
Proof. unfold removeAt. by rewrite delete_take_drop. Qed.
Lemma removeAt_ok i l : strictly l → strictly (removeAt i l).
Proof.
  rewrite removeAt_delete. intros Hl a b x y Hab Ha Hb. rewrite list_lookup_delete in Ha, Hb. eapply Hl; [|exact Ha|exact Hb].
  repeat case_decide; lia.
Qed.
End sorted.

(** ** The invariant of the pool *)
Section pool.
Context `{cfg : BeaconChainConfig} `{ecfg : EpochConfig} `{ocfg : OperationsConfig}.
Context (MaxCommitteesPerSlot : Z) (attSigOk : BeaconState → IndexedAttestation → bool).
Context (headerSigOk : BeaconState → BeaconBlockHeader → bool).
Implicit Types (p : SlashingsPool) (e : PendingAttesterSlashing) (rest : list PendingAttesterSlashing).

Definition slashes_own e : Prop := validatorToSlash e ∈ slashedValidators (attesterSlashing e).
Record pool_inv p : Prop := {
  pi_proposers : strictly proposerIndex (pendingProposerSlashing p);
  pi_attesters : strictly validatorToSlash (pendingAttesterSlashing p);
  pi_own : Forall slashes_own (pendingAttesterSlashing p)
}.

Lemma NewSlashingsPool_inv : pool_inv NewSlashingsPool.
Proof. split; [apply strictly_nil..|apply Forall_nil_2]. Qed.
Lemma addIncluded_inv i : preserves pool_inv (addIncluded i).
Proof. apply preserves_modify. by intros p []. Qed.
Lemma setAttesters_inv p l : pool_inv p → strictly validatorToSlash l → Forall slashes_own l → pool_inv (setAttesters l p).2.
Proof. by intros [] Hl Ho. Qed.
Lemma setProposers_inv p l : pool_inv p → strictly proposerIndex l → pool_inv (setProposers l p).2.
Proof. by intros [] Hl. Qed.
Lemma removeAttester_inv p i : pool_inv p → pool_inv (setAttesters (removeAt i (pendingAttesterSlashing p)) p).2.
Proof.
  intros Hp. apply setAttesters_inv; [done|apply removeAt_ok, Hp|]. rewrite removeAt_delete. apply Forall_delete, Hp.
Qed.
Lemma removeProposer_inv p i : pool_inv p → pool_inv (setProposers (removeAt i (pendingProposerSlashing p)) p).2.
Proof. intros Hp. apply setProposers_inv; [done|apply removeAt_ok, Hp]. Qed.

Lemma insertAttester_inv st s c val : val ∈ slashedValidators s → preserves pool_inv (insertAttester st s c val).
Proof.
  intros Hval p Hp. destruct (searchKey_Ok validatorToSlash (pendingAttesterSlashing p) val (pi_attesters p Hp)) as (k & found & Hs & Hf).
  unfold insertAttester. mwalk. assert (found = false) as -> by congruence. refine (setAttesters_inv p _ Hp _ _); [by apply insertSorted_ok; [apply Hp|]|].
  rewrite insertSorted_perm. apply Forall_cons. split; [done|apply Hp].
Qed.

Lemma InsertAttesterSlashing_inv st s : preserves pool_inv (InsertAttesterSlashing MaxCommitteesPerSlot attSigOk st s).
Proof.
  apply preserves_bind; [apply preserves_lift|intros _]. apply preserves_bind; [|intros c; apply preserves_if; [apply preserves_fail|apply preserves_ret]].
  assert (∀ vals c, (∀ v, v ∈ vals → v ∈ slashedValidators s) → preserves pool_inv (mfold vals c (insertAttester st s))) as Hloop; [|by apply Hloop].
  induction vals as [|v vals IH]; intros c Hv; [apply preserves_ret|]. cbn [mfold].
  apply preserves_bind; [apply insertAttester_inv, Hv; set_solver|]. intros c'. apply IH. set_solver.
Qed.
Lemma InsertProposerSlashing_inv st s : preserves pool_inv (InsertProposerSlashing headerSigOk st s).
Proof.
  intros p Hp. unfold InsertProposerSlashing. apply lift_post; [done|]. intros _ _. destruct (Header_1 s) as [h|] eqn:Hh; [|done].
  destruct (searchKey_Ok proposerIndex (pendingProposerSlashing p) (h_ProposerIndex h) (pi_proposers p Hp)) as (k & found & Hs & Hf).
  mwalk. assert (found = false) as -> by congruence. apply setProposers_inv; [done|]. apply insertSorted_ok; [apply Hp|]. unfold proposerIndex at 1. by rewrite Hh.
Qed.

Lemma MarkIncludedAttesterSlashing_inv s : preserves pool_inv (MarkIncludedAttesterSlashing s).
Proof.
  apply preserves_mfor. intros v p Hp. apply get_post. apply lift_post; [done|]. intros [i [|]] _.
  - apply (addIncluded_inv v). by apply removeAttester_inv.
  - by apply (addIncluded_inv v).
Qed.
Lemma MarkIncludedProposerSlashing_inv s : preserves pool_inv (MarkIncludedProposerSlashing s).
Proof.
  intros p Hp. unfold MarkIncludedProposerSlashing. destruct (Header_1 s) as [h|]; [|done].
  apply get_post. apply lift_post; [done|]. intros [i [|]] _.
  - apply (addIncluded_inv (h_ProposerIndex h)). by apply removeProposer_inv.
  - by apply (addIncluded_inv (h_ProposerIndex h)).
Qed.

Lemma pendingAttesterLoop_inv fuel st max i pending covered : preserves pool_inv (pendingAttesterLoop fuel st max i pending covered).
Proof.
  revert i pending covered. induction fuel as [|fuel IH]; intros i pending covered p Hp; [done|]. cbn [pendingAttesterLoop]. mwalk; try by apply IH.
  apply (IH i pending covered). by apply removeAttester_inv.
Qed.
Lemma pendingProposerLoop_inv fuel st max i pending : preserves pool_inv (pendingProposerLoop fuel st max i pending).
Proof.
  revert i pending. induction fuel as [|fuel IH]; intros i pending p Hp; [done|]. cbn [pendingProposerLoop]. mwalk; try by apply IH.
  apply (IH i pending). by apply removeProposer_inv.
Qed.
Lemma ConvertToElectra_inv : preserves pool_inv ConvertToElectra.
Proof.
  intros p Hp. unfold ConvertToElectra. apply get_post. apply setAttesters_inv; [done| |].
  - intros i j x y Hij Hi Hj. apply list_lookup_fmap_Some in Hi as (x' & -> & Hi). apply list_lookup_fmap_Some in Hj as (y' & -> & Hj).
    pose proof (pi_attesters p Hp i j x' y' Hij Hi Hj). by repeat case_match.
  - apply Forall_fmap. eapply Forall_impl; [apply Hp|]. intros e He. unfold slashes_own in *. cbn. by case_match.
Qed.

(** ** Reachable pools: the pool any sequence of calls leaves, whatever their outcomes *)
Inductive reached : SlashingsPool → Prop :=
  | r_new : reached NewSlashingsPool
  | r_insert_attester st s p : reached p → reached (InsertAttesterSlashing MaxCommitteesPerSlot attSigOk st s p).2
  | r_insert_proposer st s p : reached p → reached (InsertProposerSlashing headerSigOk st s p).2
  | r_included_attester s p : reached p → reached (MarkIncludedAttesterSlashing s p).2
  | r_included_proposer s p : reached p → reached (MarkIncludedProposerSlashing s p).2
  | r_pending_attester st b p : reached p → reached (PendingAttesterSlashings st b p).2
  | r_pending_proposer st b p : reached p → reached (PendingProposerSlashings st b p).2
  | r_electra p : reached p → reached (ConvertToElectra p).2.

Lemma reached_inv p : reached p → pool_inv p.
Proof.
  induction 1; [apply NewSlashingsPool_inv|by apply InsertAttesterSlashing_inv|by apply InsertProposerSlashing_inv
    |by apply MarkIncludedAttesterSlashing_inv|by apply MarkIncludedProposerSlashing_inv|by apply pendingAttesterLoop_inv
    |by apply pendingProposerLoop_inv|by apply ConvertToElectra_inv].
Qed.

(** ** The slashings chosen for a block *)

(** The entries chosen, up to [n], and the entries kept; [check] answers [None] for an index
    outside the registry. *)
Fixpoint choose (check : Z → option bool) (n : nat) (covered : gset Z) rest : list PendingAttesterSlashing * list PendingAttesterSlashing :=
  match rest with
  | [] => ([], [])
  | e :: rest' =>
      match n, check (validatorToSlash e) with
      | O, _ => ([], rest)
      | _, None => let '(sel, kept) := choose check n covered rest' in (sel, e :: kept)
      | S n', Some valid =>
          if bool_decide (validatorToSlash e ∈ covered) || negb valid then choose check n covered rest'
          else let '(sel, kept) := choose check n' (list_to_set (slashedValidators (attesterSlashing e)) ∪ covered) rest' in (e :: sel, e :: kept)
      end
  end.

Definition spares (e e' : PendingAttesterSlashing) : Prop := validatorToSlash e' ∉ slashedValidators (attesterSlashing e).

Lemma choose_sound check n covered rest sel kept : choose check n covered rest = (sel, kept) →
  sel `sublist_of` rest ∧ kept `sublist_of` rest ∧ (length sel ≤ n)%nat ∧
  Forall (λ e, check (validatorToSlash e) = Some true ∧ validatorToSlash e ∉ covered) sel ∧ StronglySorted spares sel.
Proof.
  revert n covered sel kept. induction rest as [|e rest IH]; intros n covered sel kept Hc; simplify_eq/=.
  { split_and!; [done|done|simpl; lia|apply Forall_nil_2|constructor]. }
  destruct n as [|n]; [simplify_eq; split_and!; [apply sublist_nil_l|done|simpl; lia|apply Forall_nil_2|constructor]|].
  destruct (check (validatorToSlash e)) as [valid|] eqn:Hv; [destruct (_ || _) eqn:Hb|].
  - destruct (IH _ _ _ _ Hc) as (? & ? & ? & ? & ?). split_and!; [by apply sublist_cons..|done|done|done].
  - apply orb_false_iff in Hb as [Hnc%bool_decide_eq_false Hvalid%negb_false_iff]. subst valid.
    destruct (choose check n _ rest) as [sel' kept'] eqn:Hc'. simplify_eq. destruct (IH _ _ _ _ Hc') as (? & ? & ? & Hall & ?).
    split_and!; [by apply sublist_skip..|simpl; lia| |].
    + apply Forall_cons. split; [done|]. eapply Forall_impl; [exact Hall|]. intros e' [? Hn]. split; [done|set_solver].
    + constructor; [done|]. eapply Forall_impl; [exact Hall|]. intros e' [_ Hn]. unfold spares. set_solver.
  - destruct (choose check (S n) covered rest) as [sel' kept'] eqn:Hc'. simplify_eq. destruct (IH _ _ _ _ Hc') as (? & ? & ? & ? & ?).
    split_and!; [by apply sublist_cons|by apply sublist_skip|done|done|done].
Qed.
Lemma choose_complete check n covered rest sel kept e : choose check n covered rest = (sel, kept) → (length rest ≤ n)%nat → Forall slashes_own rest →
  e ∈ rest → check (validatorToSlash e) = Some true →
  validatorToSlash e ∈ covered ∨ ∃ e', e' ∈ sel ∧ validatorToSlash e ∈ slashedValidators (attesterSlashing e').
Proof.
  revert n covered sel kept. induction rest as [|x rest IH]; intros n covered sel kept Hc Hn Hown He Hv; [set_solver|]. simpl in Hc, Hn.
  apply Forall_cons in Hown as [Hx Hown]. destruct n as [|n]; [lia|]. apply elem_of_cons in He as [->|He].
  - rewrite Hv in Hc. destruct (bool_decide_reflect (validatorToSlash x ∈ covered)) as [Hin|Hin]; [by left|right]. simpl in Hc.
    destruct (choose check n _ rest). simplify_eq. exists x. split; [set_solver|done].
  - destruct (check (validatorToSlash x)) as [valid|]; [destruct (_ || _)|].
    + apply (IH (S n) covered sel kept); [done|lia|done|done|done].
    + destruct (choose check n _ rest) as [sel' kept'] eqn:Hc'. simplify_eq.
      destruct (IH _ _ _ _ Hc' ltac:(lia) Hown He Hv) as [[Hin|Hin]%elem_of_union|(e' & He' & Hs)]; [|by left|].
      * right. exists x. split; [set_solver|by apply elem_of_list_to_set in Hin].
      * right. exists e'. split; [set_solver|done].
    + destruct (choose check (S n) covered rest) as [sel' kept'] eqn:Hc'. simplify_eq.
      by apply (IH _ _ _ _ Hc' ltac:(lia) Hown He Hv).
Qed.

(** The check of the pool as a function that always answers. *)
Definition slashable p (st : BeaconState) (v : Z) : option bool :=
  match validatorSlashingPreconditionCheck p st v with Ok b => Some b | _ => None end.
Lemma precondition_total p st v : SlotsPerEpoch ≠ 0 → 0 < len (validators st) →
  (∃ b, validatorSlashingPreconditionCheck p st v = Ok b) ∨ ∃ err, validatorSlashingPreconditionCheck p st v = Err err.
Proof.
  intros Hs Hl. unfold validatorSlashingPreconditionCheck. case_bool_decide; [left; by eexists|].
  destruct (ValidatorAtIndex_total st v Hl) as [[x ->]| ->]; [|right; by eexists]. left. unfold CurrentEpoch.
  destruct (ToEpoch_total (slot st) Hs) as [ep ->]. by eexists.
Qed.

(** What the protocol asks of a validator to slash: its slashing has not been included, it is in
    the registry, not slashed, active since [ActivationEpoch] and not yet withdrawable. *)
Definition can_be_slashed p (st : BeaconState) (v : Z) : Prop :=
  (v ∉ included p) ∧ ∃ val, validators st !! Z.to_nat v = Some val ∧ Slashed val = false ∧
    ActivationEpoch val ≤ slot st / SlotsPerEpoch < WithdrawableEpoch val.
Lemma slashable_iff p st v : SlotsPerEpoch ≠ 0 → slashable p st v = Some true ↔ can_be_slashed p st v.
Proof.
  intros Hs. unfold slashable, can_be_slashed, validatorSlashingPreconditionCheck, ValidatorAtIndex.
  assert (ToEpoch (slot st) = Ok (slot st / SlotsPerEpoch)) as He.
  { unfold ToEpoch, Slot.DivSlot, Slot.Div, Slot.SafeDiv, Div64, must. destruct (Z.eqb_spec SlotsPerEpoch 0); [lia|done]. }
  assert (∀ val, validators st !! Z.to_nat v = Some val → list_at (validators st) v = Ok val) as Hat.
  { intros val Hval. unfold list_at, index_at, len. pose proof (lookup_lt_Some _ _ _ Hval).
    destruct (Z.geb_spec v (Z.of_nat (length (validators st)))); [lia|]. by rewrite Hval. }
  case_bool_decide as Hin; [split; [done|by intros [? _]]|].
  destruct (list_at (validators st) v) as [val| | |] eqn:Hv.
  - apply list_at_inv in Hv as [_ Hv]. unfold CurrentEpoch. rewrite He. cbn [mbind gores_bind].
    unfold IsSlashableValidator, checkValidatorSlashable. rewrite Hv. split.
    + intros Hb. injection Hb as Hb. split; [done|]. exists val. split; [done|].
      rewrite !andb_true_iff, negb_true_iff in Hb. destruct Hb as [[Hb1 Hb2] ->]. split; [done|lia].
    + intros (_&val'&[= <-]&Hsl&Hep). rewrite Hsl. f_equal. rewrite !andb_true_iff. lia.
  - split; [done|]. intros (_&val&Hval&_). pose proof (Hat val Hval); congruence.
  - split; [done|]. intros (_&val&Hval&_). pose proof (Hat val Hval); congruence.
  - split; [done|]. intros (_&val&Hval&_). pose proof (Hat val Hval); congruence.
Qed.

Definition withAttesters p rest : SlashingsPool := mkSlashingsPool (pendingProposerSlashing p) rest (included p).
Lemma pendingAttesterLoop_Ok st max q before rest fuel pending covered : SlotsPerEpoch ≠ 0 → 0 < len (validators st) → (length rest < fuel)%nat →
  pendingAttesterLoop fuel st max (length before) pending covered (withAttesters q (before ++ rest)) =
  let '(sel, kept) := choose (slashable q st) (Z.to_nat (max - len pending)) covered rest in
  (Ok (pending ++ (attesterSlashing <$> sel)), withAttesters q (before ++ kept)).
Proof.
  intros Hs Hl. revert before rest pending covered. induction fuel as [|fuel IH]; intros before rest pending covered Hf; [lia|].
  cbn [pendingAttesterLoop]. rewrite (M_bind_Ok _ _ _ (withAttesters q (before ++ rest)) (withAttesters q (before ++ rest))) by done.
  cbn [withAttesters pendingAttesterSlashing]. rewrite lookup_app_r, Nat.sub_diag by done. destruct rest as [|e rest]; cbn [lookup list_lookup choose].
  { cbn [fmap list_fmap]. by rewrite !app_nil_r. }
  destruct (Z.geb_spec (len pending) max) as [Hfull|Hroom].
  { replace (Z.to_nat (max - len pending)) with O by lia. cbn [fmap list_fmap]. by rewrite !app_nil_r. }
  destruct (Z.to_nat (max - len pending)) as [|n] eqn:Hn; [lia|]. simpl in Hf.
  assert (slashable q st (validatorToSlash e) = slashable (withAttesters q (before ++ e :: rest)) st (validatorToSlash e)) as -> by done.
  unfold slashable at 1. destruct (precondition_total (withAttesters q (before ++ e :: rest)) st (validatorToSlash e) Hs Hl) as [[b Hb]|[err Hb]];
    fold (withAttesters q (before ++ e :: rest)); rewrite Hb.
  - destruct (_ || _) eqn:Hdrop.
    + rewrite (M_bind_Ok _ _ _ tt (withAttesters q (before ++ rest))).
      2: { unfold setAttesters, mmodify, withAttesters, removeAt. cbn. rewrite take_app_length. rewrite (drop_app_ge before) by lia. replace (S (length before) - length before)%nat with 1%nat by lia. done. }
      rewrite IH by lia. by rewrite Hn.
    + replace (before ++ e :: rest) with ((before ++ [e]) ++ rest) by (by rewrite <-(assoc_L app)).
      replace (S (length before)) with (length (before ++ [e])) by (rewrite length_app; simpl; lia).
      rewrite IH by lia. replace (Z.to_nat (max - len (pending ++ [attesterSlashing e]))) with n by (unfold len in *; rewrite length_app; simpl; lia).
      destruct (choose _ n _ rest) as [sel kept]. cbn [fmap list_fmap]. by rewrite <-!(assoc_L app).
  - replace (before ++ e :: rest) with ((before ++ [e]) ++ rest) by (by rewrite <-(assoc_L app)).
    replace (S (length before)) with (length (before ++ [e])) by (rewrite length_app; simpl; lia).
    rewrite IH by lia. rewrite Hn. destruct (choose _ (S n) _ rest) as [sel kept]. by rewrite <-!(assoc_L app).
Qed.

Definition maxSlashingsFor (st : BeaconState) : Z := if version st >=? version_Electra then MaxAttesterSlashingsElectra else MaxAttesterSlashings.

(** C22: Whatever sequence of insertions, inclusions, reads and conversions the slashing pool has
    been through, a read of the attester slashings for a block ends without an error and returns
    slashings of the pool, each for a validator whose slashing has not been included and that
    is slashable in the state (in the registry, not slashed, active, not yet withdrawable),
    and that no slashing before it in the block already slashes; without [noLimit]
    there are at most as many as the fork allows.  With [noLimit] nobody is forgotten: every
    pending validator that can still be slashed is slashed by one of them, although the read
    drops entries from the pool.  The entries it keeps are sorted with distinct validators. *)
Theorem slashings_for_block st noLimit p : SlotsPerEpoch ≠ 0 → 0 < len (validators st) → reached p →
  ∃ sel kept, PendingAttesterSlashings st noLimit p = (Ok (attesterSlashing <$> sel), withAttesters p kept) ∧
    sel `sublist_of` pendingAttesterSlashing p ∧ kept `sublist_of` pendingAttesterSlashing p ∧ strictly validatorToSlash kept ∧
    (noLimit = false → len sel ≤ Z.max 0 (maxSlashingsFor st)) ∧
    Forall (λ e, can_be_slashed p st (validatorToSlash e)) sel ∧ StronglySorted spares sel ∧
    (noLimit = true → ∀ e, e ∈ pendingAttesterSlashing p → can_be_slashed p st (validatorToSlash e) →
       ∃ s, s ∈ attesterSlashing <$> sel ∧ validatorToSlash e ∈ slashedValidators s).
Proof.
  intros Hs Hl Hp%reached_inv. set (max := if noLimit then len (pendingAttesterSlashing p) else maxSlashingsFor st).
  pose proof (pendingAttesterLoop_Ok st max p [] (pendingAttesterSlashing p) (S (length (pendingAttesterSlashing p))) [] ∅ Hs Hl ltac:(lia)) as Hrun.
  destruct (choose _ _ _ _) as [sel kept] eqn:Hc. exists sel, kept.
  assert (PendingAttesterSlashings st noLimit p = (Ok (attesterSlashing <$> sel), withAttesters p kept)) as Hread.
  { etransitivity; [|exact Hrun]. by destruct p. }
  destruct (choose_sound _ _ _ _ _ _ Hc) as (Hsub & Hkept & Hn & Hsel & Hspares). split_and!; [done|done|done| | |eapply Forall_impl; [exact Hsel|]; intros e [Hv _]; by apply slashable_iff|done|].
  - pose proof (pendingAttesterLoop_inv (S (length (pendingAttesterSlashing p))) st max 0 [] ∅ p Hp) as Hinv.
    replace p with (withAttesters p (pendingAttesterSlashing p)) in Hinv at 2 by (by destruct p).
    cbn [length app] in Hrun. rewrite Hrun in Hinv. apply Hinv.
  - intros ->. unfold max, len in *. simpl in Hn. lia.
  - intros -> e He Hv%slashable_iff; [|done]. destruct (choose_complete _ _ _ _ _ _ e Hc) as [Hin|(e' & He' & Hin)]; [unfold max, len; simpl; lia|apply Hp|done|done|set_solver|].
    exists (attesterSlashing e'). split; [by apply list_elem_of_fmap_2|done].
Qed.
End pool.

(** ** Witness: a double vote of validators 0 to 3, of which 3 has a slashing of its own.  At the
    insertion validator 1 is exiting; at the read, a hundred epochs later, it is withdrawable. *)
#[local] Existing Instance mainnet_config.
#[local] Existing Instance mainnet_epoch_config.
#[local] Existing Instance mainnet_operations_config.

Definition ex_vote (root : Z) (vals : list Z) : IndexedAttestation :=
  mkIndexed vals (mkAttestationData 32 0 root (mkCheckpoint 0 0) (mkCheckpoint 1 0)) version_Phase0.
Definition ex_slashing (vals : list Z) : AttSlashing := mkAttSlashing (ex_vote 1 vals) (ex_vote 2 vals).
Definition ex_insertion : BeaconState :=
  mkState version_Electra 6400 (validators (ex_withdrawals 0)) (balances (ex_withdrawals 0)) [] [] [] [] [] [] []
    (mkCheckpoint 0 0) (mkCheckpoint 0 0) (mkCheckpoint 0 0) 0 0 0 0 [] [] 100 0 [] [] [] 0 0 0 (mkEth1Data [] 0) ∅.
Definition ex_pool : SlashingsPool :=
  let sig := λ _ _, true in
  let p1 := (InsertAttesterSlashing 64 sig ex_insertion (ex_slashing [3]) NewSlashingsPool).2 in
  let p2 := (InsertAttesterSlashing 64 sig ex_insertion (ex_slashing [1]) p1).2 in
  (InsertAttesterSlashing 64 sig ex_insertion (ex_slashing [0; 2; 3]) p2).2.

Lemma ex_pool_reached : reached 64 (λ _ _, true) (λ _ _, true) ex_pool.
Proof. do 3 apply r_insert_attester. apply r_new. Qed.

Lemma slashings_for_block_witness :
  validatorToSlash <$> pendingAttesterSlashing ex_pool = [0; 1; 2; 3] ∧
  (PendingAttesterSlashings (ex_withdrawals 0) true ex_pool).1 = Ok [ex_slashing [0; 2; 3]] ∧
  ∃ sel kept, PendingAttesterSlashings (ex_withdrawals 0) true ex_pool = (Ok (attesterSlashing <$> sel), withAttesters ex_pool kept) ∧
    sel `sublist_of` pendingAttesterSlashing ex_pool ∧ kept `sublist_of` pendingAttesterSlashing ex_pool ∧ strictly validatorToSlash kept ∧
    (true = false → len sel ≤ Z.max 0 (maxSlashingsFor (ex_withdrawals 0))) ∧
    Forall (λ e, can_be_slashed ex_pool (ex_withdrawals 0) (validatorToSlash e)) sel ∧ StronglySorted spares sel ∧
    (true = true → ∀ e, e ∈ pendingAttesterSlashing ex_pool → can_be_slashed ex_pool (ex_withdrawals 0) (validatorToSlash e) →
       ∃ s, s ∈ attesterSlashing <$> sel ∧ validatorToSlash e ∈ slashedValidators s).
Proof.
  split; [vm_compute; reflexivity|]. split; [vm_compute; reflexivity|].
  apply (slashings_for_block 64 (λ _ _, true) (λ _ _, true) (ex_withdrawals 0) true ex_pool); [discriminate|vm_compute; reflexivity|exact ex_pool_reached].
Defined.
