(* ===== verification/Attestations.v ===== *)
(** * Attestations of a block

    core/blocks/attestation.go ([VerifyAttestationNoVerifySignature]), core/altair/attestation.go
    ([ProcessAttestationNoVerifySignature]), helpers/attestation.go and the conversions of
    proto/.../attestation_utils.go.  Bit fields are a third-party library: the class [Bitlist].
    The world of a block is the state, the cache of square roots and the caches of committees.
    An attestation can be nil; its data and bits are not, and a committee is never a nil slice
    (the code returns subslices).  Signatures are verified in a batch after the block. *)
From S2P Require Import Prelude MathHelper Primitives Config SlotTime Shuffle MVSlice EpochConfig BeaconState EpochPrecompute StateOperations CommitteeCache Committees BlockOperations.

(** github.com/prysmaticlabs/go-bitfield: the length, a bit, and the indices of the set bits. *)
Class Bitlist (B : Type) := {
  bits_Len : B → Z;
  BitAt : B → Z → bool;
  BitIndices : B → list Z
}.
Class BitlistLaws (B : Type) `{Bitlist B} : Prop := {
  bits_nonneg b : 0 ≤ bits_Len b;
  bits_indices b : BitIndices b = filter (λ i, BitAt b i = true) (seqZ 0 (bits_Len b))
}.
(** A list of booleans satisfies them. *)
#[export] Instance list_bits : Bitlist (list bool) := {|
  bits_Len := len;
  BitAt b i := default false (b !! Z.to_nat i);
  BitIndices b := filter (λ i, default false (b !! Z.to_nat i) = true) (seqZ 0 (len b))
|}.
#[export] Instance list_bits_laws : BitlistLaws (list bool).
Proof. split; [intros b; cbn; unfold len; lia|done]. Qed.

Section attestations.
Context `{cfg : BeaconChainConfig} `{ecfg : EpochConfig} `{ocfg : OperationsConfig} `{ccfg : CommitteeConfig}.
Context {C : Type} `{LRU C} {B : Type} `{Bitlist B}.
Context (hashfunc : list Z → list Z) (cancelled : bool).

Record Att := mkAtt {
  att_Version : Z;
  GetData : AttestationData;
  GetAggregationBits : B;
  CommitteeBitsVal : B
}.

(** ** helpers *)
Definition ValidateNilAttestation (att : option Att) : gores Att :=
  match att with None => Err errMessage | Some att => Ok att end.
Definition ValidateSlotTargetEpoch (data : AttestationData) : gores unit :=
  e ← ToEpoch (ad_Slot data);
  if negb (e =? Epoch_ (ad_Target data)) then Err errMessage else Ok tt.
Definition VerifyBitfieldLength (bf : B) (committeeSize : Z) : gores unit :=
  if negb (bits_Len bf =? committeeSize) then Err errMessage else Ok tt.
Definition MatchCurrentJustifiedCheckpoint (s : BeaconState) (c : Checkpoint) : bool :=
  (Epoch_ c =? Epoch_ (currentJustifiedCheckpoint s)) && (Root c =? Root (currentJustifiedCheckpoint s)).
Definition MatchPreviousJustifiedCheckpoint (s : BeaconState) (c : Checkpoint) : bool :=
  (Epoch_ c =? Epoch_ (previousJustifiedCheckpoint s)) && (Root c =? Root (previousJustifiedCheckpoint s)).

(** ** attestation_utils.go *)
Definition attestingIndicesPhase0 (aggBits : B) (committee : list Z) : gores (list Z) :=
  if negb (bits_Len aggBits =? len committee) then Err errMessage
  else Ok (foldl (λ indices idx, match committee !! Z.to_nat idx with
                                 | Some v => indices ++ [v]
                                 | None => indices
                                 end) [] (BitIndices aggBits)).

(** The members of [c] whose bit is set; the first has the bit [offset]. *)
Fixpoint committeeAttesters (aggBits : B) (offset : Z) (c : list Z) : list Z :=
  match c with
  | [] => []
  | vi :: c' => (if BitAt aggBits offset then [vi] else []) ++ committeeAttesters aggBits (offset + 1) c'
  end.
Fixpoint attestersLoop (aggBits : B) (committees : list (list Z)) (committeeOffset : Z) (attesters : list Z) : gores (list Z) :=
  match committees with
  | [] => Ok attesters
  | c :: committees' =>
      let found := committeeAttesters aggBits committeeOffset c in
      if (length found =? 0)%nat then Err errMessage
      else attestersLoop aggBits committees' (committeeOffset + len c) (attesters ++ found)
  end.
(** [slices.Compact] *)
Fixpoint compact (l : list Z) : list Z :=
  match l with
  | x :: (y :: _) as l' => if x =? y then compact l' else x :: compact l'
  | _ => l
  end.
Definition AttestingIndicesOf (att : Att) (committees : list (list Z)) : gores (list Z) :=
  match committees with
  | [] => Ok []
  | committee :: _ =>
      let aggBits := GetAggregationBits att in
      if att_Version att <? version_Electra then attestingIndicesPhase0 aggBits committee
      else if negb (bits_Len aggBits =? sumBy len committees) then Err errMessage
      else attesters ← attestersLoop aggBits committees 0 []; Ok (compact (merge_sort Z.le attesters))
  end.
Definition ConvertToIndexed (att : Att) (committees : list (list Z)) : gores IndexedAttestation :=
  attIndices ← AttestingIndicesOf att committees;
  Ok (mkIndexed (merge_sort Z.le attIndices) (GetData att)
        (if att_Version att >=? version_Electra then version_Electra else version_Phase0)).

(** ** blocks/attestation.go *)

(** Every committee has a set bit. *)
Fixpoint attesterInEach (aggBits : B) (committees : list (list Z)) (committeeOffset : Z) : gores unit :=
  match committees with
  | [] => Ok tt
  | c :: committees' =>
      if existsb (λ i, BitAt aggBits (committeeOffset + i)) (seqZ 0 (len c))
      then attesterInEach aggBits committees' (committeeOffset + len c)
      else Err errMessage
  end.
(** The committees of the set committee bits, with the number of their members. *)
Definition electraCommittees (s : BeaconState) (att : Att) (committeeCount : Z) : M (Caches C) (list (list Z) * Z) :=
  mfold (BitIndices (CommitteeBitsVal att)) ([], 0) (λ acc ci,
    let '(committees, participantsCount) := acc in
    if ci >=? committeeCount then mfail errMessage
    else
      c ← BeaconCommitteeFromState hashfunc cancelled s (ad_Slot (GetData att)) ci;
      mret (committees ++ [c], participantsCount + len c)).
Definition indexedAttestation (s : BeaconState) (att : Att) (committeeCount : Z) : M (Caches C) IndexedAttestation :=
  let data := GetData att in
  let aggBits := GetAggregationBits att in
  if att_Version att >=? version_Electra then
    if negb (ad_CommitteeIndex data =? 0) then mfail errMessage
    else
      '(committees, participantsCount) ← electraCommittees s att committeeCount;
      if negb (bits_Len aggBits =? participantsCount) then mfail errMessage
      else
        mlift (attesterInEach aggBits committees 0);;
        mlift (ConvertToIndexed att committees)
  else if ad_CommitteeIndex data >=? committeeCount then mfail errMessage
  else
    committee ← BeaconCommitteeFromState hashfunc cancelled s (ad_Slot data) (ad_CommitteeIndex data);
    mlift (VerifyBitfieldLength aggBits (len committee));;
    mlift (ConvertToIndexed att [committee]).

(** The checks on the slots and checkpoints of the data. *)
Definition verifyAttestationData (s : BeaconState) (data : AttestationData) : gores unit :=
  currEpoch ← CurrentEpoch (slot s);
  prevEpoch ← PrevEpoch (slot s);
  let target := Epoch_ (ad_Target data) in
  if negb (target =? prevEpoch) && negb (target =? currEpoch) then Err errMessage
  else if negb (if target =? currEpoch then MatchCurrentJustifiedCheckpoint s (ad_Source data)
                else MatchPreviousJustifiedCheckpoint s (ad_Source data)) then Err errMessage
  else
    ValidateSlotTargetEpoch data;;
    let sl := ad_Slot data in
    if negb ((sl +64 MinAttestationInclusionDelay) <=? slot s) then Err errMessage
    else if (version s <? version_Deneb) && negb (slot s <=? (sl +64 SlotsPerEpoch)) then Err errMessage
    else Ok tt.
Definition VerifyAttestationNoVerifySignature (s : BeaconState) (att : option Att) : M (Caches C) unit :=
  att ← mlift (ValidateNilAttestation att);
  let data := GetData att in
  mlift (verifyAttestationData s data);;
  activeValidatorCount ← ActiveValidatorCount hashfunc cancelled s (Epoch_ (ad_Target data));
  committeeCount ← mlift (SlotCommitteeCount activeValidatorCount);
  indexedAtt ← indexedAttestation s att committeeCount;
  mlift (IsValidAttestationIndices MaxCommitteesPerSlot indexedAtt).

(** ** altair/attestation.go *)
Definition World : Type := BeaconState * SquareRootCache * Caches C.
Definition onCaches {A} (m : M (Caches C) A) : M World A := λ '(s, c, w), let '(r, w') := m w in (r, (s, c, w')).
Definition onLedger {A} (m : M (BeaconState * SquareRootCache) A) : M World A := λ '(s, c, w), let '(r, (s', c')) := m (s, c) in (r, (s', c', w)).

(** What [AttestationCommitteesFromState] reads of an attestation. *)
Definition attestationFields (att : Att) : Attestation :=
  mkAttestation (att_Version att) (ad_Slot (GetData att)) (ad_CommitteeIndex (GetData att)) (BitIndices (CommitteeBitsVal att)).

Section process.
Context (BeaconProposerIndex : BeaconState → gores Z).
Definition ProcessAttestationNoVerifySignature (att : option Att) (totalBalance : Z) : M World unit :=
  '(s, _, _) ← mget;
  onCaches (VerifyAttestationNoVerifySignature s att);;
  match att with
  | None => mpanic
  | Some att =>
      delay ← mlift (Slot.SafeSubSlot (slot s) (ad_Slot (GetData att)));
      participatedFlags ← mlift (AttestationParticipationFlagIndices s (GetData att) delay);
      committees ← onCaches (AttestationCommitteesFromState hashfunc cancelled s (attestationFields att));
      indices ← mlift (AttestingIndicesOf att committees);
      onLedger (SetParticipationAndRewardProposer BeaconProposerIndex (Epoch_ (ad_Target (GetData att))) indices participatedFlags totalBalance)
  end.
Definition ProcessAttestationsNoVerifySignature (atts : list (option Att)) : M World unit :=
  '(s, _, _) ← mget;
  totalBalance ← mlift (TotalActiveBalance s);
  mfor atts (λ att, ProcessAttestationNoVerifySignature att totalBalance).
End process.
End attestations.
