(* ===== verification/AttestationTheorems.v ===== *)
(** * An attestation credits exactly the validators it names

    The bits of an attestation name positions in the committees of its slot.  Through the
    committee cache, the checks of [VerifyAttestationNoVerifySignature] and the conversion to
    indices, a processed attestation sets the flags of exactly those validators, who are active
    and each named once. *)
From stdpp Require Import sorting.
From S2P Require Import Prelude MathHelper Primitives Config SlotTime Shuffle ShuffleFacts MVSlice EpochConfig BeaconState EpochPrecompute Registry StateOperations CommitteeCache Committees CommitteeFacts CommitteeTheorems BlockOperations ParticipationTheorems Attestations.

(** ** Lists *)
Lemma NoDup_pick {A K} (f : K → list A) (l ks : list K) : NoDup (l ≫= f) → NoDup ks → (∀ k, k ∈ ks → k ∈ l) → NoDup (ks ≫= f).
Proof.
  intros Hl Hks Hin. destruct (submseteq_Permutation ks l (NoDup_submseteq _ _ Hks Hin)) as [k' Hp].
  rewrite Hp, bind_app in Hl. by apply NoDup_app in Hl as [Hl _].
Qed.
Lemma bind_mjoin {A K} (f : K → list A) l : l ≫= f = mjoin (f <$> l).
Proof. induction l as [|k l IH]; [done|]. change (f k ++ (l ≫= f) = f k ++ mjoin (f <$> l)). by rewrite IH. Qed.
Lemma compact_sorted l : NoDup l → compact l = l.
Proof.
  induction l as [|x l IH]; intros Hnd; [done|]. apply NoDup_cons in Hnd as [Hx Hnd]. destruct l as [|y l]; [done|].
  change (compact (x :: y :: l)) with (if x =? y then compact (y :: l) else x :: compact (y :: l)). destruct (Z.eqb_spec x y) as [->|]; [set_solver|]. by rewrite IH.
Qed.

Section bits.
Context {B : Type} `{Bitlist B} `{!BitlistLaws B}.

(** The members of a list whose bit is set. *)
Definition attests (bits : B) (members : list Z) (v : Z) : Prop :=
  ∃ pos, members !! pos = Some v ∧ BitAt bits (Z.of_nat pos) = true.

Lemma committeeAttesters_app bits o c d : committeeAttesters bits o (c ++ d) = committeeAttesters bits o c ++ committeeAttesters bits (o + len c) d.
Proof.
  revert o. induction c as [|x c IH]; intros o; cbn [committeeAttesters app]; [by rewrite Z.add_0_r|].
  rewrite IH, <-(assoc_L app). do 3 f_equal. unfold len. cbn [length]. lia.
Qed.
Lemma attestersLoop_inv bits cs o acc r : attestersLoop bits cs o acc = Ok r → r = acc ++ committeeAttesters bits o (mjoin cs).
Proof.
  revert o acc. induction cs as [|c cs IH]; intros o acc; cbn [attestersLoop]; [intros [= <-]; by rewrite app_nil_r|].
  destruct (_ =? _)%nat; [done|]. intros ->%IH. cbn [mjoin list_join]. by rewrite committeeAttesters_app, (assoc_L app).
Qed.
Lemma committeeAttesters_elem bits c o v : v ∈ committeeAttesters bits o c ↔ ∃ pos, c !! pos = Some v ∧ BitAt bits (o + Z.of_nat pos) = true.
Proof.
  revert o. induction c as [|x c IH]; intros o; cbn [committeeAttesters]; [split; [set_solver|by intros (pos & Hp & _)]|].
  rewrite elem_of_app, IH. split.
  - intros [Hv|(pos & Hp & Hb)].
    + destruct (BitAt bits o) eqn:Hb; [|set_solver]. apply list_elem_of_singleton in Hv as ->. exists 0%nat. by rewrite Z.add_0_r.
    + exists (S pos). split; [done|]. rewrite <-Hb. f_equal. lia.
  - intros ([|pos] & Hp & Hb); simpl in Hp.
    + simplify_eq. rewrite Z.add_0_r in Hb. rewrite Hb. left. set_solver.
    + right. exists pos. split; [done|]. rewrite <-Hb. f_equal. lia.
Qed.
Lemma committeeAttesters_sublist bits c o : committeeAttesters bits o c `sublist_of` c.
Proof.
  revert o. induction c as [|x c IH]; intros o; cbn [committeeAttesters]; [done|].
  destruct (BitAt bits o); cbn [app]; [by apply sublist_skip|by apply sublist_cons].
Qed.

(** The indices of the set bits, read in the committee, are the attesters in order. *)
Lemma phase0_attesters bits c : bits_Len bits = len c → attestingIndicesPhase0 bits c = Ok (committeeAttesters bits 0 c).
Proof.
  intros Hl. unfold attestingIndicesPhase0. rewrite Hl, Z.eqb_refl. cbn [negb]. f_equal. rewrite bits_indices, Hl.
  assert (∀ d acc, foldl (λ indices idx, match (c : list Z) !! Z.to_nat idx with Some v => indices ++ [v] | None => indices end) acc
    (filter (λ i, BitAt bits i = true) (seqZ (len c - len d) (len d))) = acc ++ committeeAttesters bits (len c - len d) d ∨ ¬ d `suffix_of` c) as Hgen.
  { induction d as [|v d IH]; intros acc; [left; by rewrite app_nil_r|].
    destruct (decide ((v :: d) `suffix_of` c)) as [[pre Hpre]|]; [left|by right].
    assert (d `suffix_of` c) as Hd by (exists (pre ++ [v]); by rewrite <-(assoc_L app)).
    rewrite seqZ_cons by (unfold len; simpl; lia). cbn [committeeAttesters].
    replace (Z.succ (len c - len (v :: d))) with (len c - len d) by (unfold len; simpl; lia).
    replace (len c - len (v :: d) + 1) with (len c - len d) by (unfold len; simpl; lia).
    replace (Z.pred (len (v :: d))) with (len d) by (unfold len; simpl; lia).
    rewrite filter_cons. case_decide as Hb.
    - rewrite Hb. cbn [foldl]. assert (c !! Z.to_nat (len c - len (v :: d)) = Some v) as ->.
      { replace (Z.to_nat (len c - len (v :: d))) with (length pre); [rewrite Hpre; by rewrite lookup_app_r, Nat.sub_diag|].
        unfold len. rewrite Hpre, length_app. simpl. lia. }
      destruct (IH (acc ++ [v])) as [-> | Hn]; [by rewrite <-(assoc_L app)|done].
    - apply not_true_is_false in Hb. rewrite Hb. destruct (IH acc) as [-> | Hn]; [done|done]. }
  destruct (Hgen c []) as [Hg|[]]; [|by exists []]. rewrite Z.sub_diag in Hg. exact Hg.
Qed.
End bits.

(** ** The attesting indices *)
Section indices.
Context `{cfg : BeaconChainConfig} `{ecfg : EpochConfig} `{ocfg : OperationsConfig} `{ccfg : CommitteeConfig}.
Context {B : Type} `{Bitlist B} `{!BitlistLaws B}.
Implicit Types att : Att (B := B).

(** The committees an attestation lists. *)
Definition listed att : list Z :=
  if att_Version att >=? version_Electra then BitIndices (CommitteeBitsVal att) else [ad_CommitteeIndex (GetData att)].

Lemma listed_NoDup att : NoDup (listed att).
Proof. unfold listed. destruct (_ >=? _); [|apply NoDup_singleton]. rewrite bits_indices. apply NoDup_filter, NoDup_seqZ. Qed.
Lemma listed_nonneg att : 0 ≤ ad_CommitteeIndex (GetData att) → Forall (λ k, 0 ≤ k) (listed att).
Proof.
  intros Hc. unfold listed. destruct (_ >=? _); [|by constructor]. rewrite bits_indices. apply Forall_forall.
  intros k [_ Hk%elem_of_seqZ]%list_elem_of_filter. lia.
Qed.

Lemma sumBy_len (cs : list (list Z)) : sumBy len cs = len (mjoin cs).
Proof.
  induction cs as [|c cs IH]; [done|]. rewrite sumBy_cons, IH. change (mjoin (c :: cs)) with (c ++ mjoin cs). unfold len. rewrite length_app. lia.
Qed.

Lemma AttestingIndicesOf_inv att cs idx : AttestingIndicesOf att cs = Ok idx → cs ≠ [] → NoDup (mjoin cs) →
  (att_Version att < version_Electra → ∃ c, cs = [c]) →
  idx ≡ₚ committeeAttesters (GetAggregationBits att) 0 (mjoin cs) ∧ bits_Len (GetAggregationBits att) = len (mjoin cs).
Proof.
  intros Hrun Hne Hnd Hone. unfold AttestingIndicesOf in Hrun. destruct cs as [|c cs]; [done|].
  destruct (Z.ltb_spec (att_Version att) version_Electra) as [Hv|Hv].
  - destruct (Hone Hv) as [c' [= <- ->]]. change (mjoin [c]) with (c ++ []). rewrite app_nil_r.
    destruct (Z.eqb_spec (bits_Len (GetAggregationBits att)) (len c)) as [Hl|Hl].
    + rewrite phase0_attesters in Hrun by done. by injection Hrun as <-.
    + unfold attestingIndicesPhase0 in Hrun. apply Z.eqb_neq in Hl. by rewrite Hl in Hrun.
  - rewrite sumBy_len in Hrun. destruct (Z.eqb_spec (bits_Len (GetAggregationBits att)) (len (mjoin (c :: cs)))) as [Hl|]; [|done]. cbn [negb] in Hrun.
    apply bind_Ok_inv in Hrun as (a & Ha & Hrun). apply attestersLoop_inv in Ha. rewrite app_nil_l in Ha. subst a. injection Hrun as <-.
    split; [|done]. set (l := committeeAttesters _ _ _).
    assert (NoDup l) by (eapply sublist_NoDup; [done|apply committeeAttesters_sublist]).
    rewrite compact_sorted; [apply merge_sort_Permutation|]. by rewrite merge_sort_Permutation.
Qed.
End indices.

(** ** Through the committee cache *)
Section verify.
Context `{cfg : BeaconChainConfig} `{ecfg : EpochConfig} `{ocfg : OperationsConfig} `{ccfg : CommitteeConfig} `{cok : !committee_config_ok}.
Context {C : Type} `{lruC : LRU C} `{laws : !LRULaws C} {B : Type} `{bitsB : Bitlist B} `{blaws : !BitlistLaws B}.
Context (hashfunc : list Z → list Z) (digest_size : ∀ x, length (hashfunc x) = 32%nat).
Context (active : list Z → list Z).
Implicit Types (att : Att (B := B)) (w : Caches C).

(** Right entries and no seed in progress. *)
Definition caches_ok w : Prop := entries_ok hashfunc active w ∧ inProgress (committeeCache w) = ∅.

Lemma returns_run {A} (m : M (Caches C) A) Φ w a w' : returns hashfunc active ∅ m Φ → caches_ok w → m w = (Ok a, w') → Φ a ∧ caches_ok w'.
Proof.
  intros Hm [Hw Hp] Hrun. destruct (Hm w Hw Hp) as (b & w1 & Hrun' & Hb & Hw1 & Hp1 & _). rewrite Hrun in Hrun'. by simplify_eq.
Qed.

Section epoch.
Context (s : BeaconState) (e : Z) (seed sh : list Z) (cps sl : Z).
Context (Hst : stands_for hashfunc active s e seed) (Hsh : shuffled hashfunc (activeIndices s e) seed sh cps).
Context (Hsl : 0 ≤ sl) (He : sl / SlotsPerEpoch = e).
Abbreviation committee := (committeeAt sh cps sl).

Lemma slot_committees_members : NoDup (seqZ 0 cps ≫= committee) ∧ ∀ v, v ∈ seqZ 0 cps ≫= committee → v ∈ activeIndices s e.
Proof.
  pose proof cok_slots as Hspe. pose proof (Z.mod_pos_bound sl SlotsPerEpoch Hspe) as Hm.
  assert (sl = e * SlotsPerEpoch + sl mod SlotsPerEpoch) as Hsplit by (rewrite <-He, Z.mul_comm; apply Z.div_mod; lia).
  assert (slotCommittees sh cps sl ∈ epochCommittees e sh cps) as Hin.
  { unfold epochCommittees. apply list_elem_of_fmap. exists (sl mod SlotsPerEpoch). split; [by rewrite <-Hsplit|apply elem_of_seqZ; lia]. }
  pose proof (epochCommittees_NoDup hashfunc s e seed sh cps Hsh) as Hnd.
  pose proof (epochCommittees_perm hashfunc s e seed sh cps Hsh) as Hp.
  rewrite bind_mjoin. change (committee <$> seqZ 0 cps) with (slotCommittees sh cps sl).
  assert (∀ v, v ∈ mjoin (slotCommittees sh cps sl) → v ∈ mjoin (mjoin (epochCommittees e sh cps))) as Hsub.
  { intros v (c & Hc & Hv)%list_elem_of_join. apply list_elem_of_join. exists c. split; [done|]. apply list_elem_of_join. by eexists. }
  split; [|intros v Hv; rewrite <-Hp; by apply Hsub].
  apply list_elem_of_split in Hin as (l1 & l2 & Hl). rewrite Hl, join_app, join_app in Hnd. apply NoDup_app in Hnd as (_ & _ & Hnd).
  change (mjoin (slotCommittees sh cps sl :: l2)) with (slotCommittees sh cps sl ++ mjoin l2) in Hnd. rewrite join_app in Hnd.
  by apply NoDup_app in Hnd as [Hnd _].
Qed.
Lemma picked_members ks : NoDup ks → Forall (λ k, 0 ≤ k < cps) ks →
  NoDup (mjoin (committee <$> ks)) ∧ ∀ v, v ∈ mjoin (committee <$> ks) → v ∈ activeIndices s e.
Proof.
  intros Hks Hr. destruct slot_committees_members as [Hnd Hact]. rewrite Forall_forall in Hr.
  assert (∀ k, k ∈ ks → k ∈ seqZ 0 cps) as Hin by (intros k Hk; apply elem_of_seqZ; specialize (Hr k Hk); lia).
  rewrite <-bind_mjoin. split; [by eapply NoDup_pick|].
  intros v (k & Hv & Hk)%list_elem_of_bind. apply Hact. apply list_elem_of_bind. eauto.
Qed.

Lemma committee_run k w c w' : 0 ≤ k < cps → caches_ok w →
  BeaconCommitteeFromState hashfunc false s sl k w = (Ok c, w') → c = committee k ∧ caches_ok w'.
Proof. intros Hk Hw Hrun. refine (returns_run _ (λ c, c = committee k) w c w' _ Hw Hrun). by eapply BeaconCommitteeFromState_returns. Qed.

Lemma electraCommittees_inv ks cs0 n0 w cs n w' : Forall (λ k, 0 ≤ k) ks → caches_ok w →
  mfold ks (cs0, n0) (λ acc ci, let '(committees, participantsCount) := acc in
    if ci >=? cps then mfail errMessage
    else c ← BeaconCommitteeFromState hashfunc false s sl ci; mret (committees ++ [c], participantsCount + len c)) w = (Ok (cs, n), w') →
  cs = cs0 ++ (committee <$> ks) ∧ Forall (λ k, 0 ≤ k < cps) ks ∧ caches_ok w'.
Proof.
  intros Hks. revert cs0 n0 w. induction ks as [|k ks IH]; intros cs0 n0 w Hw; cbn [mfold].
  { intros [= <- <- <-]. by rewrite app_nil_r. }
  apply Forall_cons in Hks as [Hk Hks]. intros ([c1 n1] & w1 & Hstep & Hrun)%M_bind_Ok_inv. rewrite Z.geb_leb in Hstep.
  destruct (Z.leb_spec cps k); [done|]. apply M_bind_Ok_inv in Hstep as (c & w2 & Hc & Hret). injection Hret as <- <- <-.
  apply committee_run in Hc as [-> Hw2]; [|lia|done]. destruct (IH Hks _ _ _ Hw2 Hrun) as (-> & Hall & Hw').
  split_and!; [by rewrite fmap_cons, <-(assoc_L app)|constructor; [lia|done]|done].
Qed.

Lemma indexed_inv att w ia w' : ad_Slot (GetData att) = sl → 0 ≤ ad_CommitteeIndex (GetData att) → caches_ok w →
  indexedAttestation hashfunc false s att cps w = (Ok ia, w') →
  Forall (λ k, 0 ≤ k < cps) (listed att) ∧ ConvertToIndexed att (committee <$> listed att) = Ok ia ∧ caches_ok w'.
Proof.
  intros Hslot Hci Hw. unfold indexedAttestation, listed. rewrite Hslot. destruct (att_Version att >=? version_Electra) eqn:Hv.
  - destruct (negb _); [done|]. intros ([cs n] & w1 & Hcs & Hrun)%M_bind_Ok_inv. unfold electraCommittees in Hcs. rewrite Hslot in Hcs.
    apply electraCommittees_inv in Hcs as (-> & Hall & Hw1); [| |done].
    2: { pose proof (listed_nonneg att Hci) as Hn. unfold listed in Hn. by rewrite Hv in Hn. }
    destruct (negb _); [done|]. apply M_bind_Ok_inv in Hrun as ([] & w2 & Heach & Hrun). injection Heach as _ <-. by injection Hrun as Hrun <-.
  - rewrite Z.geb_leb. destruct (Z.leb_spec cps (ad_CommitteeIndex (GetData att))); [done|].
    intros (c & w1 & Hc & Hrun)%M_bind_Ok_inv. apply committee_run in Hc as [-> Hw1]; [|lia|done].
    apply M_bind_Ok_inv in Hrun as ([] & w2 & Hlen & Hrun). injection Hlen as _ <-. injection Hrun as Hrun <-.
    split_and!; [repeat constructor; lia|done|done].
Qed.
End epoch.

Lemma data_inv s data : verifyAttestationData s data = Ok tt → ad_Slot data / SlotsPerEpoch = Epoch_ (ad_Target data).
Proof.
  pose proof cok_slots. unfold verifyAttestationData, ValidateSlotTargetEpoch. rewrite (ToEpoch_run (ad_Slot data)) by done.
  intros (cur & _ & Hrun)%bind_Ok_inv. apply bind_Ok_inv in Hrun as (prev & _ & Hrun). destruct (negb _ && _); [done|]. destruct (negb _); [done|].
  apply bind_Ok_inv in Hrun as ([] & Hrun & _). cbn [mbind gores_bind] in Hrun.
  destruct (Z.eqb_spec (ad_Slot data / SlotsPerEpoch) (Epoch_ (ad_Target data))); done.
Qed.

(** What an attestation that passes the checks says. *)
Record verified (s : BeaconState) att (sh : list Z) (cps : Z) : Prop := {
  vf_epoch : ad_Slot (GetData att) / SlotsPerEpoch = Epoch_ (ad_Target (GetData att));
  vf_range : Forall (λ k, 0 ≤ k < cps) (listed att);
  vf_some : listed att ≠ [];
  vf_indices : ∃ idx, AttestingIndicesOf att (committeeAt sh cps (ad_Slot (GetData att)) <$> listed att) = Ok idx }.

Lemma VerifyAttestation_inv s att w w' seed sh cps : let e := Epoch_ (ad_Target (GetData att)) in
  stands_for hashfunc active s e seed → shuffled hashfunc (activeIndices s e) seed sh cps →
  0 ≤ ad_Slot (GetData att) → 0 ≤ ad_CommitteeIndex (GetData att) → caches_ok w →
  VerifyAttestationNoVerifySignature hashfunc false s (Some att) w = (Ok tt, w') → verified s att sh cps ∧ caches_ok w'.
Proof.
  intros e Hst Hsh Hsl Hci Hw Hrun. unfold VerifyAttestationNoVerifySignature in Hrun.
  apply M_bind_Ok_inv in Hrun as (a & w1 & Ha & Hrun). injection Ha as <- <-.
  apply M_bind_Ok_inv in Hrun as ([] & w1 & Hd & Hrun). injection Hd as Hd <-. pose proof (data_inv _ _ Hd) as Hepoch.
  apply M_bind_Ok_inv in Hrun as (n & w1 & Hn & Hrun). apply (returns_run _ _ _ _ _ (ActiveValidatorCount_returns _ digest_size _ _ _ _ Hst)) in Hn as [-> Hw1]; [|done].
  apply M_bind_Ok_inv in Hrun as (k & w2 & Hk & Hrun). unfold mlift in Hk. rewrite (sh_cps _ _ _ _ _ Hsh) in Hk. injection Hk as <- <-.
  apply M_bind_Ok_inv in Hrun as (ia & w2 & Hia & Hrun). injection Hrun as Hvalid <-.
  apply (indexed_inv s e seed sh cps (ad_Slot (GetData att)) Hst Hsh Hsl Hepoch att w1 ia w2 eq_refl Hci Hw1) in Hia as (Hr & Hconv & Hw2).
  split; [|done]. unfold ConvertToIndexed in Hconv. apply bind_Ok_inv in Hconv as (idx & Hidx & [= <-]).
  split; [done|done| |by exists idx]. intros Hnil. rewrite Hnil in Hidx. injection Hidx as <-. done.
Qed.

Lemma committees_again s att w cs w' seed sh cps : let e := Epoch_ (ad_Target (GetData att)) in
  stands_for hashfunc active s e seed → shuffled hashfunc (activeIndices s e) seed sh cps → 0 ≤ ad_Slot (GetData att) →
  verified s att sh cps → caches_ok w →
  AttestationCommitteesFromState hashfunc false s (attestationFields att) w = (Ok cs, w') →
  cs = committeeAt sh cps (ad_Slot (GetData att)) <$> listed att ∧ caches_ok w'.
Proof.
  intros e Hst Hsh Hsl [Hep Hr _ _] Hw Hrun.
  refine (returns_run _ (λ cs, cs = committeeAt sh cps (ad_Slot (GetData att)) <$> listed att) w cs w' _ Hw Hrun). unfold AttestationCommitteesFromState, attestationCommittees, attestationFields.
  cbn [AttVersion AttSlot AttCommitteeIndex AttBits]. unfold listed in *. destruct (_ >=? _).
  - apply (returns_mfold _ _ _ _ _ (λ done out, out = committeeAt sh cps (ad_Slot (GetData att)) <$> done)); [done|].
    intros done k rest out Hsplit ->. rewrite Hsplit, Forall_app, Forall_cons in Hr. destruct Hr as (_ & Hk & _).
    eapply returns_bind; [by eapply BeaconCommitteeFromState_returns|]. intros ? ->. apply returns_ret. by rewrite fmap_app.
  - apply Forall_cons in Hr as [Hk _]. eapply returns_bind; [by eapply BeaconCommitteeFromState_returns|]. intros ? ->. by apply returns_ret.
Qed.
End verify.

(** ** The flags that are set *)
Section flags.
Context `{cfg : BeaconChainConfig} `{ecfg : EpochConfig} `{ocfg : OperationsConfig} `{fc : !FlagConfig}.

Lemma visit_inv s fs total n bits k c n' bits' c' : visit s fs total (n, bits) k c = (Ok (n', bits'), c') →
  ∃ flag flag', bits !! Z.to_nat k = Some flag ∧ bits' = <[Z.to_nat k := flag']> bits ∧ complete fs flag' ∧ (complete fs flag → flag' = flag).
Proof.
  unfold visit. destruct (_ >=? _); [done|]. intros (br & c1 & _ & Hrun)%M_bind_Ok_inv. apply M_bind_Ok_inv in Hrun as (flag & c2 & Hf & Hrun).
  injection Hf as Hf <-. apply M_bind_Ok_inv in Hrun as ([flag' m] & c3 & Hp & Hrun). injection Hp as Hp <-. injection Hrun as <- <- _.
  unfold index_at in Hf. destruct (bits !! Z.to_nat k) as [x|]; [|done]. injection Hf as ->.
  exists flag, flag'. split_and!; [done|done| |].
  - destruct (participateAll_Ok fs br flag n) as (f2 & n2 & Hp2 & Hc). rewrite Hp in Hp2. by simplify_eq.
  - intros Hc. rewrite participateAll_again in Hp by done. by simplify_eq.
Qed.
Lemma visits_inv s fs total indices n bits c n' bits' c' : Forall (λ k, 0 ≤ k) indices →
  mfold indices (n, bits) (visit s fs total) c = (Ok (n', bits'), c') →
  all_set fs bits' indices ∧ (∀ i, Z.of_nat i ∉ indices → bits' !! i = bits !! i) ∧
  (∀ i flag, bits !! i = Some flag → complete fs flag → bits' !! i = Some flag).
Proof.
  intros Hnn. revert n bits c. induction indices as [|k indices IH]; intros n bits c; cbn [mfold].
  { intros [= _ <- _]. split; [constructor|done]. }
  apply Forall_cons in Hnn as [Hk Hnn]. intros ([n1 b1] & c1 & Hv & Hrun)%M_bind_Ok_inv.
  apply visit_inv in Hv as (flag & flag' & Hflag & -> & Hc & Hsame). destruct (IH Hnn _ _ _ Hrun) as (Hall & Hkeep & Hcomplete).
  pose proof (lookup_lt_Some _ _ _ Hflag) as Hlt. split_and!.
  - apply Forall_cons. split; [|done]. exists flag'. split; [|done]. apply Hcomplete; [by apply list_lookup_insert_eq|done].
  - intros i Hi. rewrite Hkeep by set_solver. apply list_lookup_insert_ne. intros <-. apply Hi. rewrite Z2Nat.id by done. set_solver.
  - intros i x Hx Hcx. apply Hcomplete; [|done]. destruct (decide (Z.to_nat k = i)) as [<-|Hne].
    + rewrite Hflag in Hx. simplify_eq. rewrite Hsame by done. by apply list_lookup_insert_eq.
    + by rewrite list_lookup_insert_ne.
Qed.

(** The participation of the epoch of an attestation, and of the other one. *)
Definition epochBits (target : Z) (s : BeaconState) : list Z :=
  if target =? slot s / SlotsPerEpoch then currentEpochParticipation s else previousEpochParticipation s.
Definition otherBits (target : Z) (s : BeaconState) : list Z :=
  if target =? slot s / SlotsPerEpoch then previousEpochParticipation s else currentEpochParticipation s.

(** What a balance update leaves alone. *)
Lemma RewardProposer_inv proposer n s r s' : RewardProposer proposer n s = (r, s') → ∃ bals, s' = set_balances bals s.
Proof.
  intros Hrun. set (Φ := λ x : BeaconState, ∃ bals, x = set_balances bals s). assert (Φ s) by (exists (balances s); by destruct s).
  enough (Φ (RewardProposer proposer n s).2) as Hpost by (by rewrite Hrun in Hpost). unfold RewardProposer.
  apply (lift_post Φ); [done|intros d _]. apply (lift_post Φ); [done|intros q _]. apply (get_post Φ). apply (lift_post Φ); [done|intros i _].
  unfold IncreaseBalance. apply (get_post Φ). apply (lift_post Φ); [done|intros b _]. apply (lift_post Φ); [done|intros nb _].
  unfold UpdateBalancesAtIndex. destruct (_ >=? _); [done|]. by eexists.
Qed.

Lemma SetParticipation_inv proposer target idx fs total s c s' c' : 0 < SlotsPerEpoch →
  SetParticipationAndRewardProposer proposer target idx fs total (s, c) = (Ok tt, (s', c')) →
  ∃ n c1, mfold idx (0, epochBits target s) (visit s fs total) c = (Ok (n, epochBits target s'), c1) ∧
    otherBits target s' = otherBits target s ∧ validators s' = validators s.
Proof.
  intros Hspe. unfold SetParticipationAndRewardProposer. rewrite (M_bind_Ok _ _ _ (s, c) (s, c)) by done.
  unfold CurrentEpoch. rewrite (M_bind_Ok _ _ _ (slot s / SlotsPerEpoch) (s, c)) by (unfold mlift; by rewrite ToEpoch_run).
  destruct (version s =? version_Phase0); [done|]. unfold epochBits at 1. fold (visit s fs total).
  set (bits := if target =? slot s / SlotsPerEpoch then currentEpochParticipation s else previousEpochParticipation s).
  change (EpochParticipation s idx bits fs total c) with (mfold idx (0, bits) (visit s fs total) c).
  destruct (mfold idx (0, bits) (visit s fs total) c) as [r c1] eqn:Hfold.
  rewrite (M_bind_Ok _ _ _ tt (s, c1)) by done. intros ([n bits'] & [s1 c2] & Hr & Hrun)%M_bind_Ok_inv. injection Hr as -> <- <-.
  apply M_bind_Ok_inv in Hrun as ([] & [s2 c2] & Hset & Hrun). injection Hset as <- <-.
  unfold onState in Hrun. destruct (RewardProposer proposer n _) as [r s3] eqn:Hrew. injection Hrun as -> <- <-.
  apply RewardProposer_inv in Hrew as [bals ->]. exists n, c1. unfold epochBits, otherBits.
  assert (∀ l l' x, slot (set_balances bals (set_participation l l' x)) = slot x) as Hsl by (by intros ? ? []).
  destruct (target =? slot s / SlotsPerEpoch) eqn:Ht; rewrite Hsl, Ht; by destruct s.
Qed.
End flags.

(** ** The attestation as a whole *)
Section process.
Context `{cfg : BeaconChainConfig} `{ecfg : EpochConfig} `{ocfg : OperationsConfig} `{ccfg : CommitteeConfig}.
Context `{cok : !committee_config_ok} `{fc : !FlagConfig}.
Context {C : Type} `{lruC : LRU C} `{laws : !LRULaws C} {B : Type} `{bitsB : Bitlist B} `{blaws : !BitlistLaws B}.
Context (hashfunc : list Z → list Z) (active : list Z → list Z) (proposer : BeaconState → gores Z).

Lemma onCaches_inv {A} (m : M (Caches C) A) x a x' : onCaches m x = (Ok a, x') →
  ∃ w', m x.2 = (Ok a, w') ∧ x' = (x.1, w').
Proof. destruct x as [[s c] w]. unfold onCaches. destruct (m w) as [r w'] eqn:Hm. intros [= -> <-]. by exists w'. Qed.

(** The indices of an attestation that passes the checks. *)
Lemma verified_indices s e seed sh cps (att : Att (B := B)) idx : let cs := committeeAt sh cps (ad_Slot (GetData att)) <$> listed att in
  e = Epoch_ (ad_Target (GetData att)) → 0 ≤ ad_Slot (GetData att) → shuffled hashfunc (activeIndices s e) seed sh cps →
  verified s att sh cps → AttestingIndicesOf att cs = Ok idx →
  bits_Len (GetAggregationBits att) = len (mjoin cs) ∧ NoDup idx ∧ (∀ v, v ∈ idx ↔ attests (GetAggregationBits att) (mjoin cs) v) ∧
  ∀ v, v ∈ idx → v ∈ activeIndices s e.
Proof.
  intros cs -> Hsl Hsh [Hep Hr Hsome _] Hidx.
  destruct (picked_members hashfunc s _ seed sh cps (ad_Slot (GetData att)) Hsh Hep (listed att) (listed_NoDup att) Hr) as [Hnd Hact].
  destruct (AttestingIndicesOf_inv att cs idx Hidx) as [Hp Hl]; [|done| |].
  { intros Hnil%fmap_nil_inv. done. }
  { intros Hv. unfold cs, listed. rewrite Z.geb_leb, (proj2 (Z.leb_gt _ _)) by done. by eexists. }
  assert (∀ v, v ∈ idx ↔ attests (GetAggregationBits att) (mjoin cs) v) as Hiff.
  { intros v. rewrite Hp, committeeAttesters_elem. done. }
  split_and!; [done| |done|].
  - rewrite Hp. eapply sublist_NoDup; [exact Hnd|apply committeeAttesters_sublist].
  - intros v (pos & Hv & _)%Hiff. apply Hact. by eapply list_elem_of_lookup_2.
Qed.

End process.

(** ** Witness: an attestation of Electra for slot 166, of the only member of its committee *)
#[local] Existing Instance mainnet_config.
#[local] Existing Instance mainnet_epoch_config.
#[local] Existing Instance mainnet_operations_config.
#[local] Existing Instance minimal_committee_config.
#[local] Existing Instance ex_config_ok.
#[local] Existing Instance mainnet_flag_config.

Definition ex_attested : BeaconState :=
  mkState version_Electra 170 ((λ a, mkValidator 32000000000 false a a MaxUint64 MaxUint64 [] []) <$> [0; 0; 0; MaxUint64; 0; 0])
    (replicate 6 32000000000) [] [] (replicate 6 0) (replicate 6 0) (replicate (Z.to_nat 8192) 77) [] [0]
    (mkCheckpoint 0 0) (mkCheckpoint 0 0) (mkCheckpoint 0 0) 0 0 0 0 (replicate 64 (seqZ 7 32)) [] 0 0 [] [] [] 0 0 0 (mkEth1Data [] 0) ∅.
Definition ex_att : Att (B := list bool) :=
  mkAtt version_Electra (mkAttestationData 166 0 77 (mkCheckpoint 0 0) (mkCheckpoint 5 77)) [true] [true].
Definition ex_world : World (C := bounded) := (ex_attested, initialCache, newCaches).
Definition ex_processed : gores unit * World (C := bounded) :=
  ProcessAttestationNoVerifySignature ex_hash false (λ _, Ok 2) (Some ex_att) 160000000000 ex_world.

Lemma ex_attested_stands : stands_for ex_hash ex_active ex_attested 5 (ex_aseed ex_attested 5).
Proof. by constructor. Qed.
Lemma ex_processed_Ok : ex_processed = (Ok tt, (ex_processed.2.1.1, ex_processed.2.1.2, ex_processed.2.2)).
Proof. assert (ex_processed.1 = Ok tt) as Hok by (vm_compute; reflexivity). destruct ex_processed as [r [[s c] w]]. cbn in *. by rewrite Hok. Qed.

